(* ===== verification/_CoqProject ===== *)
-Q . S2P
Prelude.v
Effects.v
CFloat.v
FloatFacts.v
FloatRound.v
Platform.v
Sysdeps.v
Glue.v
Printf.v
PrintfFacts.v
PrintfNumbers.v
LuaValue.v
LuaNumber.v
LuaConvert.v
LuaFor.v
LuaUtf8.v
LuaObject.v
LuaTable.v
TableInv.v
TableInsert.v
TableCount.v
TableResize.v
TableLen.v
TableNext.v
TableSpec.v
LuaPattern.v
PatternRef.v
PatternFacts.v
PatternMatch.v
PatternSpec.v
PatternSub.v
LuaDump.v
DumpFacts.v
DumpSpec.v
LuaTablib.v
TablibFacts.v
TablibSort.v
TablibSafe.v
TablibOps.v
LuaApi.v
TablibSpec.v
LuaPack.v
PackFacts.v
PackSpec.v
Pmm.v
PmmFacts.v
PmmSanitise.v
PmmRange.v
PmmAlloc.v
PmmSpec.v
PmmFirmware.v
PmmTheorems.v
Inflate.v
InflateBits.v
InflateTree.v
InflateBuild.v
Deflate.v
InflateBlock.v
InflateHeader.v
InflateStream.v
InflateTheorems.v
Vmm.v
VmmFacts.v
VmmWalk.v
VmmRegion.v
VmmTables.v
VmmMap.v
VmmPage.v
VmmPages.v
VmmTheorems.v
Blake2b.v
Blake2bSpec.v
LuaString.v
StringFacts.v
StringTable.v
StringResize.v
StringSpec.v
StringTheorems.v
