(* ===== verification/Prelude.v ===== *)
(** * Verification of the C code of ViCell (Cellos)

    ViCell is an operating system whose kernel, drivers and services are written in Rust
    and whose C code is of four kinds: small libraries of its own, a port of mlibc, a Lua
    interpreter that runs as a cell, and the Limine boot loader that starts the kernel.
    This library models that C code, function by function, and proves what the functions
    are for.  All paths below are relative to src/.

    ** The program and the files

    - Support.  [Prelude]: machine integers with their wrap-around ([wrap], [swrap]),
      lists, hints and tactics.  [Effects]: the state and error monad of the components
      with mutable state.  A computation ends with [Ret] (a state and a value), [Throw]
      (an error of the program: a Lua error, a panic) or [Stuck] (undefined behaviour: an
      access outside an array, a null pointer, or too little fuel), and [wp] is its weakest
      precondition.  [CFloat], [FloatFacts], [FloatRound]: the C types
      double and float as IEEE 754 binary64 and binary32, and the rounding between them.
    - libs/api/src/c/printf.c, the formatted output library: [Printf] (all of it),
      [PrintfFacts] (one text for every sink), [PrintfNumbers] (number conversions).
    - cells/demos/tetris-c/src/c/vicell_platform.c, drawing on the compositor's surface:
      [Platform].
    - third_party/mlibc/sysdeps/vicell, the system calls mlibc needs: [Sysdeps], over the
      class [Kernel] of what the kernel answers.
    - cells/runtimes/lua/glue/lua_vios_glue.c, the C library functions of the Lua cell:
      [Glue].
    - cells/runtimes/lua/src/c/src, Lua 5.4:
      [LuaValue] (lobject.h, lctype.c, the hash of lstring.c);
      [LuaString] with [StringFacts], [StringTable], [StringResize], [StringSpec],
      [StringTheorems] (lstring.c, the parts of lmem.c and lgc.c strings depend on);
      [LuaNumber], [LuaConvert], [LuaFor], [LuaObject] (arithmetic, comparison,
      conversions, for loops and messages: lobject.c, parts of lvm.c);
      [LuaTable] with [TableInv], [TableInsert], [TableCount], [TableResize], [TableLen],
      [TableNext], [TableSpec] (ltable.c);
      [LuaUtf8] (lutf8lib.c);
      [LuaPattern] with [PatternRef], [PatternFacts], [PatternMatch], [PatternSpec],
      [PatternSub], and [LuaPack] with [PackFacts], [PackSpec] (lstrlib.c);
      [LuaDump] with [DumpFacts], [DumpSpec] (ldump.c, lundump.c, lzio.c);
      [LuaTablib] with [TablibFacts], [TablibSort], [TablibSafe], [TablibOps],
      [TablibSpec] (ltablib.c), and [LuaApi], the functions of lapi.c they call.
    - limine/limine-8.7.0, the boot loader, as configured for UEFI on x86-64:
      [Pmm] with [PmmFacts], [PmmSanitise], [PmmRange], [PmmAlloc], [PmmSpec],
      [PmmFirmware], [PmmTheorems] (common/mm/pmm.s2.c, pmm.c);
      [Vmm] with [VmmFacts], [VmmWalk], [VmmRegion], [VmmTables], [VmmMap], [VmmPage],
      [VmmPages], [VmmTheorems] (common/mm/vmm.c);
      [Inflate] with [InflateBits], [InflateTree], [InflateBuild], [Deflate],
      [InflateBlock], [InflateHeader], [InflateStream], [InflateTheorems]
      (decompressor/tinf);
      [Blake2b] with [Blake2bSpec] (common/crypt/blake2b.c).

    Definitions have the names of the C functions; a loop of a function is a definition
    of its own.  C structures are records, enumerations and unions are inductive types,
    integers are [Z] with the wrap-around of their type written out where it can happen.
    Memory is modelled as far as the code shares it: a table's nodes are a vector with
    relative links, as in C; the strings of the string table are a map from addresses to
    objects with the links between them; page tables are words in the memory of the
    physical memory manager; a buffer that only one function uses is a list.

    ** How the parts are connected

    The table library is written against a class of indexed objects ([LuaTablib.ArrayOps])
    and proved against its laws ([ArrayLaws]), which [LuaApi] shows for Lua tables of
    [LuaTable].  The page tables take their memory from the class [VmmTables.PageSource],
    of which the allocator of [Pmm] is an instance.  Chunks ([LuaDump]) contain the values
    of [LuaValue], and the string table uses its hash function.  [Glue] and [Sysdeps] are
    the two places where C code meets the kernel; their callers are not modelled.

    ** What the theorems show

    - Lua tables are finite maps: searching, assigning (with collisions, rehashing and
      resizing), length and traversal implement those of the map a table stands for; a
      rehash chooses the best array size.
    - The string table: in every state that sequences of operations reach, with an
      allocator that may fail at any time and a collector that frees any unreachable
      strings, two short strings with equal contents are the same object; no operation has
      undefined behaviour or fails to end (the end of a generational collection provided
      that vectors can always be shrunk); interning finds or creates the string, and fails
      only when the allocator does.
    - Patterns: the backtracking engine computes the first match in the order of a
      reference semantics of parsed patterns; find, match and gsub do what follows from it.
      The counter of the nesting depth is part of the match state, as in C, so patterns of
      200 items and more may be refused; subjects have less than 2^31 bytes.
    - Packing and chunks: unpack inverts pack, loading inverts dumping, and reading
      arbitrary bytes stays within them and ends.
    - The table library: sort sorts with a strict weak order, permutes with any
      comparison, and ends whatever the comparison does; insert, remove, move, concat and
      unpack do what the manual says.
    - Numbers and text: conversions, comparison, for loops and UTF-8, and their round trips.
    - printf: one text for all entry points, the decimal text of integers, buffers that do
      not overflow.  Signed overflow is undefined: the least int has no text.
    - System calls: anonymous memory comes from the arena, zeroed and disjoint.
    - The memory manager of the boot loader: allocations are disjoint and only of memory
      the firmware reports as usable; claiming, sanitising and reclaiming change the types
      of the addresses they should; a panic means that no entry has room or that the
      memory map is full.
    - Page tables: any sequence of mappings implements the updates of a function from
      addresses, also when large pages are split; a panic means that the allocator has no
      page left, or that a large page of a framebuffer is in the way.
    - The decompressor: unless a stored block is longer than what is left of the source, it
      accepts exactly the streams of RFC 1951 with at most 30 distance codes (31 and 32 are
      refused by the code) and produces their data.  A stored block that is too long reads
      the memory after the source, which is a parameter.  The code is not given the size
      of the destination; the model has the list of the bytes written.  Headers are those
      of RFC 1952, except that their checksum and the structure of the extra field are not
      checked.
    - The hash function is that of RFC 7693.

    Theorems about inputs for which the code does not do what it is for are in the same
    files ([PrintfNumbers.printf_f_rollover], [PmmTheorems.sanitise_nested_usable],
    [Blake2bSpec.update_twice_hangs], [InflateTheorems.stored_block_overreads],
    [InflateTheorems.header_checksum_unchecked], [PatternSub.gmatch_error_keeps_depth],
    [StringTheorems.generational_shrink_stuck] and others).

    ** Fuel

    Loops that are not structural have fuel, and running out of it is [Stuck] or [None],
    never a value.  The fuel is computed from the input where a bound is known before the
    loop runs: the number of strings plus one for the lists of the string table, the
    number of nodes for chains of a table, the remaining bytes for readers, the distance
    of the bounds for counting loops, the length of the pattern for the recursion of the
    pattern engine, the bits of the source for the decompressor.  The theorems show that it is
    enough: they exclude [Stuck], or state the result outright.

    ** Not modelled

    - The Rust code (kernel, hal, libs/ostd, libs/viui, cells/services, tools and the
      Rust halves of the cells) and the assembly files: the definitions here are
      translations of C.  Where C calls it, it is a parameter.
    - Lua: the compiler (llex.c, lparser.c, lcode.c), the interpreter loop of lvm.c with
      calls, coroutines and errors (ldo.c, ldebug.c, lfunc.c, ltm.c), marking and sweeping
      in lgc.c (which strings a collection frees is a parameter), and the libraries that
      are bindings to the C library or the interpreter (lbaselib.c, liolib.c, loslib.c,
      ldblib.c, lcorolib.c, loadlib.c, lmathlib.c).  string.format needs the C library's
      sprintf; len, sub, rep, byte and char only move values between stack and buffers.  luaS_newudata and luaH_free only allocate and release memory.
      table.pack creates a table and sets a string key through the API.
    - Limine: drivers, file systems, menu, boot protocols, the terminal (flanterm) and
      image decoder (stb_image), libfdt, the compiler's runtime library and the UEFI
      headers, which are copies of other projects; the host tool.  The variants of pmm and
      vmm for BIOS and other processors are not part of the configuration modelled;
      print_memmap is output, pmm_randomise_memory fills free memory with random words.
    - Library functions whose result ISO C leaves open (strtod, the %.14g format, pow,
      strcoll) and the firmware's services are parameters, with what the code relies on as
      hypotheses.
    - Memory allocation always succeeds in [LuaDump]; in [LuaTable] it may fail but runs
      no collection. *)

From Stdlib Require Export Ascii String.
From stdpp Require Export base numbers list gmap.
From Stdlib Require Export ZArith Lia Sorted.

#[export] Set Default Goal Selector "!".

Declare Scope cell_scope.
Delimit Scope cell_scope with cell.
#[global] Open Scope Z_scope.

(** ** Machine integers *)

(** Unsigned wrap-around at width [w]. *)
Definition wrap (w x : Z) : Z := x mod 2 ^ w.

(** Two's complement wrap-around at width [w]. *)
Definition swrap (w x : Z) : Z := (x + 2 ^ (w - 1)) mod 2 ^ w - 2 ^ (w - 1).

Abbreviation u8 := (wrap 8).
Abbreviation u16 := (wrap 16).
Abbreviation u32 := (wrap 32).
Abbreviation u64 := (wrap 64).
Abbreviation s32 := (swrap 32).
Abbreviation s64 := (swrap 64).

(** Value ranges of the unsigned and signed types. *)
Definition in_u (w x : Z) : Prop := 0 <= x < 2 ^ w.
Definition in_s (w x : Z) : Prop := - 2 ^ (w - 1) <= x < 2 ^ (w - 1).

(** The length of a list as a [Z]. *)
Abbreviation zlen l := (Z.of_nat (length l)).

Lemma pow2_pos (w : Z) : 0 <= w -> 0 < 2 ^ w.
Proof. intros. apply Z.pow_pos_nonneg; lia. Qed.

Lemma wrap_range (w x : Z) : 0 <= w -> in_u w (wrap w x).
Proof. intros. apply Z.mod_pos_bound, pow2_pos; done. Qed.

Lemma wrap_small (w x : Z) : in_u w x -> wrap w x = x.
Proof. intros. by apply Z.mod_small. Qed.

Lemma wrap_wrap (w x : Z) : wrap w (wrap w x) = wrap w x.
Proof. unfold wrap. apply Zmod_mod. Qed.

Lemma wrap_add_l (w x y : Z) : wrap w (wrap w x + y) = wrap w (x + y).
Proof. unfold wrap. apply Zplus_mod_idemp_l. Qed.

Lemma wrap_add_r (w x y : Z) : wrap w (x + wrap w y) = wrap w (x + y).
Proof. unfold wrap. apply Zplus_mod_idemp_r. Qed.

Lemma wrap_sub_l (w x y : Z) : wrap w (wrap w x - y) = wrap w (x - y).
Proof. unfold wrap. apply Zminus_mod_idemp_l. Qed.

Lemma wrap_sub_r (w x y : Z) : wrap w (x - wrap w y) = wrap w (x - y).
Proof. unfold wrap. apply Zminus_mod_idemp_r. Qed.

Lemma wrap_mul_l (w x y : Z) : wrap w (wrap w x * y) = wrap w (x * y).
Proof. unfold wrap. apply Zmult_mod_idemp_l. Qed.

Lemma wrap_mul_r (w x y : Z) : wrap w (x * wrap w y) = wrap w (x * y).
Proof. unfold wrap. apply Zmult_mod_idemp_r. Qed.

Lemma pow2_split (w : Z) : 0 < w -> 2 ^ w = 2 * 2 ^ (w - 1).
Proof. intros. rewrite <- Z.pow_succ_r by lia. f_equal; lia. Qed.

Lemma swrap_range (w x : Z) : 0 < w -> in_s w (swrap w x).
Proof.
  intros Hw. unfold in_s, swrap.
  pose proof (Z.mod_pos_bound (x + 2 ^ (w - 1)) (2 ^ w) (pow2_pos w ltac:(lia))).
  rewrite (pow2_split w) in * by done. lia.
Qed.

Lemma swrap_small (w x : Z) : 0 < w -> in_s w x -> swrap w x = x.
Proof.
  intros Hw [H1 H2]. unfold swrap.
  rewrite Z.mod_small; [lia|]. rewrite (pow2_split w) by done. lia.
Qed.

(** Wrap-around of either kind only sees its argument modulo [2 ^ w]. *)
Lemma swrap_wrap (w x : Z) : swrap w (wrap w x) = swrap w x.
Proof. unfold swrap, wrap. by rewrite Zplus_mod_idemp_l. Qed.

Lemma wrap_swrap (w x : Z) : wrap w (swrap w x) = wrap w x.
Proof.
  unfold swrap, wrap.
  rewrite Zminus_mod_idemp_l. f_equal. lia.
Qed.

Create HintDb cell discriminated.
Create Rewrite HintDb cell.
#[export] Hint Rewrite wrap_wrap wrap_add_l wrap_add_r wrap_sub_l wrap_sub_r
  wrap_mul_l wrap_mul_r swrap_wrap wrap_swrap : cell.

(** Congruence modulo [2 ^ w], with the morphisms that let [rewrite] erase
    wrap-arounds under the ring operations. *)
Definition eqm (w x y : Z) : Prop := wrap w x = wrap w y.

#[export] Instance eqm_equiv (w : Z) : Equivalence (eqm w).
Proof. split; red; unfold eqm; congruence. Qed.

#[export] Instance eqm_add (w : Z) : Proper (eqm w ==> eqm w ==> eqm w) Z.add.
Proof.
  intros x x' Hx y y' Hy. unfold eqm in *.
  by rewrite <- wrap_add_l, <- wrap_add_r, Hx, Hy, wrap_add_l, wrap_add_r.
Qed.

#[export] Instance eqm_sub (w : Z) : Proper (eqm w ==> eqm w ==> eqm w) Z.sub.
Proof.
  intros x x' Hx y y' Hy. unfold eqm in *.
  by rewrite <- wrap_sub_l, <- wrap_sub_r, Hx, Hy, wrap_sub_l, wrap_sub_r.
Qed.

#[export] Instance eqm_mul (w : Z) : Proper (eqm w ==> eqm w ==> eqm w) Z.mul.
Proof.
  intros x x' Hx y y' Hy. unfold eqm in *.
  by rewrite <- wrap_mul_l, <- wrap_mul_r, Hx, Hy, wrap_mul_l, wrap_mul_r.
Qed.

Lemma eqm_wrap (w x : Z) : eqm w (wrap w x) x.
Proof. apply wrap_wrap. Qed.

Lemma eqm_swrap (w x : Z) : eqm w (swrap w x) x.
Proof. apply wrap_swrap. Qed.

(** Proves [wrap w a = wrap w b] where [a] and [b] differ by inner wraps of the
    same width and ring equalities. *)
Ltac wrap_eq :=
  lazymatch goal with |- wrap ?w ?a = wrap ?w ?b => change (eqm w a b) end;
  rewrite ?eqm_wrap, ?eqm_swrap;
  try (unfold eqm; f_equal; lia).

Lemma swrap_eqm (w a b : Z) : eqm w a b -> swrap w a = swrap w b.
Proof. intros H. rewrite <- (swrap_wrap w a), <- (swrap_wrap w b). by f_equal. Qed.

(** The same for [swrap w a = swrap w b]. *)
Ltac swrap_eq :=
  apply swrap_eqm; rewrite ?eqm_wrap, ?eqm_swrap; try (unfold eqm; f_equal; lia).

(** ** Characters *)

(** The code of a character and the bytes of a string literal, without and with
    the terminating zero. *)
Definition ch (a : ascii) : Z := Z.of_N (N_of_ascii a).
Fixpoint bytes (s : String.string) : list Z :=
  match s with
  | String.EmptyString => []
  | String.String a s' => ch a :: bytes s'
  end.
Definition cstring (s : String.string) : list Z := bytes s ++ [0].

(** ** Loops *)

(** [for (i = lo; i < lo + n; i++) s = body(i, s)] *)
Fixpoint for_up {S : Type} (n : nat) (i : Z) (body : Z -> S -> S) (s : S) : S :=
  match n with
  | O => s
  | Datatypes.S n' => for_up n' (i + 1) body (body i s)
  end.

(** The same with a [break]: the body says whether the loop stops before the
    next iteration. *)
Fixpoint for_brk {S : Type} (n : nat) (i : Z) (body : Z -> S -> S * bool) (s : S) : S :=
  match n with
  | O => s
  | Datatypes.S n' =>
      let '(s', brk) := body i s in
      if brk then s' else for_brk n' (i + 1) body s'
  end.

Lemma for_up_inv {S} (P : Z -> S -> Prop) (n : nat) (i : Z) body (s : S) :
  P i s ->
  (forall j s, i <= j < i + Z.of_nat n -> P j s -> P (j + 1) (body j s)) ->
  P (i + Z.of_nat n) (for_up n i body s).
Proof.
  revert i s. induction n as [|n IH]; intros i s H0 Hs; simpl.
  - by rewrite Z.add_0_r.
  - replace (i + Z.of_nat (Datatypes.S n)) with (i + 1 + Z.of_nat n) by lia.
    apply IH; [apply Hs; [lia|done]|]. intros. apply Hs; [lia|done].
Qed.

Lemma for_up_ext {S} (n : nat) (i : Z) (f g : Z -> S -> S) (s : S) :
  (forall j s, f j s = g j s) -> for_up n i f s = for_up n i g s.
Proof. intros Hfg. revert i s. induction n; intros; simpl; [done|]. by rewrite Hfg. Qed.

(** ** Positional notation *)

(** Digits of [n] in base [b], least significant first, at least one. *)
Fixpoint digits_aux (fuel : nat) (b n : Z) : list Z :=
  match fuel with
  | O => []
  | S f => n mod b :: (if n / b =? 0 then [] else digits_aux f b (n / b))
  end.
Definition digits (b n : Z) : list Z := digits_aux (S (Z.to_nat (Z.log2 n))) b n.
#[global] Arguments digits b n : simpl never.

(** The number a digit list (least significant first) denotes. *)
Definition eval_digits (b : Z) (ds : list Z) : Z := foldr (fun d a => d + b * a) 0 ds.

Lemma div_halves (b n : Z) (k : nat) :
  2 <= b -> 0 <= n < 2 ^ Z.of_nat (S k) -> 0 <= n / b < 2 ^ Z.of_nat k.
Proof.
  intros Hb Hn. rewrite Nat2Z.inj_succ, Z.pow_succ_r in Hn by lia.
  split; [apply Z.div_pos; lia|].
  apply Z.div_lt_upper_bound; [lia|].
  pose proof (pow2_pos (Z.of_nat k) ltac:(lia)). nia.
Qed.

Lemma div_small_pow0 (b n : Z) : 2 <= b -> 0 <= n < 2 ^ Z.of_nat 1 -> n / b = 0.
Proof. intros. change (2 ^ Z.of_nat 1) with 2 in *. apply Z.div_small. lia. Qed.

Lemma digits_aux_enough (b : Z) (f1 f2 : nat) (n : Z) :
  2 <= b -> 0 <= n < 2 ^ Z.of_nat (S f1) -> n < 2 ^ Z.of_nat (S f2) ->
  digits_aux (S f1) b n = digits_aux (S f2) b n.
Proof.
  intros Hb. revert f2 n. induction f1 as [|f1 IH]; intros f2 n Hn Hn2; simpl.
  - by rewrite div_small_pow0 by lia.
  - f_equal. case_match eqn:E; [done|].
    destruct f2 as [|f2]; [rewrite div_small_pow0 in E by lia; done|].
    apply IH; [by apply div_halves|]. apply div_halves; lia.
Qed.

Lemma log2_fuel (n : Z) : 0 <= n -> n < 2 ^ Z.of_nat (S (Z.to_nat (Z.log2 n))).
Proof.
  intros Hn. destruct (decide (n = 0)) as [->|]; [done|].
  rewrite Nat2Z.inj_succ, Z2Nat.id by apply Z.log2_nonneg.
  apply Z.log2_spec. lia.
Qed.

(** The defining equation of [digits]. *)
Lemma digits_eq (b n : Z) :
  2 <= b -> 0 <= n ->
  digits b n = n mod b :: (if n / b =? 0 then [] else digits b (n / b)).
Proof.
  intros Hb Hn. unfold digits at 1. simpl. f_equal.
  case_match eqn:E; [done|]. apply Z.eqb_neq in E.
  assert (0 <= n / b) by (apply Z.div_pos; lia).
  assert (n < 2 ^ Z.of_nat (S (Z.to_nat (Z.log2 n)))) by by apply log2_fuel.
  destruct (Z.to_nat (Z.log2 n)) as [|k] eqn:Hk.
  - exfalso. apply E. apply div_small_pow0; lia.
  - unfold digits. apply digits_aux_enough; [lia| |by apply log2_fuel].
    apply div_halves; lia.
Qed.

(** Strong induction on the number being converted. *)
Lemma digits_ind (b : Z) (P : Z -> Prop) :
  2 <= b ->
  (forall n, 0 <= n -> (n / b <> 0 -> P (n / b)) -> P n) -> forall n, 0 <= n -> P n.
Proof.
  intros Hb Hstep n Hn. pattern n.
  apply (Zlt_0_ind P); [|done]. intros m IH Hm. apply Hstep; [done|].
  intros Hq. apply IH.
  assert (m <> 0) by (intros ->; apply Hq; apply Z.div_0_l; lia).
  split; [apply Z.div_pos; lia|apply Z.div_lt; lia].
Qed.

Lemma eval_digits_digits (b n : Z) : 2 <= b -> 0 <= n -> eval_digits b (digits b n) = n.
Proof.
  intros Hb. revert n. apply (digits_ind b); [done|]. intros n Hn IH.
  rewrite digits_eq by done. simpl. case_match eqn:E.
  - apply Z.eqb_eq in E. pose proof (Z.div_mod n b ltac:(lia)). simpl. lia.
  - apply Z.eqb_neq in E. rewrite IH by done. pose proof (Z.div_mod n b ltac:(lia)). lia.
Qed.

Lemma digits_range (b n : Z) :
  2 <= b -> 0 <= n -> Forall (fun d => 0 <= d < b) (digits b n).
Proof.
  intros Hb. revert n. apply (digits_ind b); [done|]. intros n Hn IH.
  rewrite digits_eq by done. constructor; [apply Z.mod_pos_bound; lia|].
  case_match eqn:E; [constructor|]. apply IH. by apply Z.eqb_neq.
Qed.

(** No leading zero: the most significant digit of a positive number is not 0. *)
Lemma digits_last (b n : Z) : 2 <= b -> 0 < n -> exists d, last (digits b n) = Some d /\ d <> 0.
Proof.
  intros Hb Hn. assert (Hp : 0 <= n) by lia. revert n Hp Hn.
  apply (digits_ind b (fun n => 0 < n -> exists d, last (digits b n) = Some d /\ d <> 0)); [done|].
  intros n Hn IH Hpos.
  rewrite digits_eq by done. case_match eqn:E.
  - apply Z.eqb_eq in E. exists (n mod b). split; [done|].
    pose proof (Z.div_mod n b ltac:(lia)). lia.
  - apply Z.eqb_neq in E. assert (0 <= n / b) by (apply Z.div_pos; lia).
    destruct IH as (d & Hd & Hd0); [done|lia|]. exists d. split; [|done].
    by rewrite last_cons, Hd.
Qed.

Lemma digits_length (b n : Z) (k : nat) :
  2 <= b -> 0 <= n < b ^ Z.of_nat k -> (0 < k)%nat -> (length (digits b n) <= k)%nat.
Proof.
  intros Hb. revert n. induction k as [|k IH]; intros n Hn Hk; [lia|].
  rewrite digits_eq by lia. simpl. case_match eqn:E; [simpl; lia|].
  apply Z.eqb_neq in E. apply le_n_S.
  rewrite Nat2Z.inj_succ, Z.pow_succ_r in Hn by lia.
  assert (0 <= n / b) by (apply Z.div_pos; lia).
  assert (n / b < b ^ Z.of_nat k) by (apply Z.div_lt_upper_bound; lia).
  destruct k as [|k]; [simpl in *; lia|]. apply IH; lia.
Qed.

(** Reading digits from the most significant one. *)
Lemma foldl_eval (ds : list Z) (i : Z) :
  foldl (fun a d => a * 10 + d) i (reverse ds) = i * 10 ^ zlen ds + eval_digits 10 ds.
Proof.
  induction ds as [|d ds IH]; simpl; [lia|].
  rewrite reverse_cons, foldl_app. simpl. rewrite IH.
  replace (Z.of_nat (S (length ds))) with (Z.succ (zlen ds)) by lia.
  rewrite Z.pow_succ_r by lia. lia.
Qed.

(** ** Lists *)

(** The decimal text of an integer: minus sign and digits. *)
Definition dec_text (z : Z) : list Z :=
  (if z <? 0 then [ch "-"] else []) ++ reverse (map (fun d => ch "0" + d) (digits 10 (Z.abs z))).

Lemma map_reverse {A B} (f : A -> B) (l : list A) : map f (reverse l) = reverse (map f l).
Proof. unfold reverse. by rewrite <- !rev_alt, map_rev. Qed.

(** ** Bits *)

(** A property of all numbers in a small range, by evaluation. *)
Lemma byte_all (P : Z -> bool) (lo n : nat) :
  forallb P (map Z.of_nat (seq lo n)) = true ->
  forall c, Z.of_nat lo <= c < Z.of_nat lo + Z.of_nat n -> P c = true.
Proof.
  rewrite forallb_forall. intros H c Hc. apply H. apply in_map_iff.
  exists (Z.to_nat c). split; [lia|]. apply in_seq. lia.
Qed.

Lemma byte_eq (f g : Z -> Z) (lo n : nat) :
  forallb (fun c => f c =? g c) (map Z.of_nat (seq lo n)) = true ->
  forall c, Z.of_nat lo <= c < Z.of_nat lo + Z.of_nat n -> f c = g c.
Proof. intros H c Hc. apply Z.eqb_eq. by apply (byte_all (fun c => f c =? g c) lo n). Qed.

(** Masking with [~(2^k - 1)] at width [w] rounds down to a multiple of [2^k]. *)
Lemma land_align (w k x : Z) :
  0 <= k <= w -> in_u w x -> Z.land x (wrap w (Z.lnot (2 ^ k - 1))) = x / 2 ^ k * 2 ^ k.
Proof.
  intros Hk Hx. unfold in_u in Hx.
  replace (2 ^ k - 1) with (Z.ones k) by (rewrite Z.ones_equiv; lia).
  unfold wrap. rewrite <- Z.land_ones, Z.land_comm by lia.
  rewrite <- Z.shiftl_mul_pow2, <- Z.shiftr_div_pow2, <- Z.ldiff_ones_r by lia.
  rewrite <- (Z.mod_small x (2 ^ w)) at 2 by done. rewrite <- Z.land_ones by lia.
  apply Z.bits_inj'. intros i Hi.
  rewrite Z.ldiff_spec, !Z.land_spec, Z.lnot_spec by lia.
  destruct (Z.testbit x i), (Z.testbit (Z.ones k) i), (Z.testbit (Z.ones w) i); done.
Qed.

(** Or with a number below the lowest bit set adds it. *)
Lemma lor_shift (a b n : Z) : 0 <= n -> 0 <= b < 2 ^ n -> Z.lor (a * 2 ^ n) b = a * 2 ^ n + b.
Proof.
  intros Hn Hb. assert (Hl : Z.land (a * 2 ^ n) b = 0).
  { apply Z.bits_inj'. intros i Hi. rewrite Z.land_spec, Z.bits_0.
    destruct (Z.lt_ge_cases i n); [by rewrite Z.mul_pow2_bits_low|].
    rewrite <- (Z.mod_small b (2 ^ n)), Z.mod_pow2_bits_high by lia. apply andb_false_r. }
  rewrite (Z.add_nocarry_lxor _ _ Hl). symmetry. by apply Z.lxor_lor.
Qed.
