(* ===== verification/Effects.v ===== *)
(** * Effects

    The state and error monad in which the components with mutable state are
    written, its weakest preconditions, and error results. *)

From S2P Require Import Prelude.

Module Effects.

(** ** Results *)

(** A computation that may raise an error (a Lua error, a panic of the boot loader);
    the state it leaves is part of the
    result.  [Stuck] is undefined behaviour or lack of fuel. *)
Inductive outcome (S A : Type) :=
  | Ret (s : S) (a : A)
  | Throw (s : S) (msg : string)
  | Stuck.
Arguments Ret {S A}. Arguments Throw {S A}. Arguments Stuck {S A}.

Definition obind {S A B} (m : outcome S A) (k : S -> A -> outcome S B) : outcome S B :=
  match m with
  | Ret s a => k s a
  | Throw s msg => Throw s msg
  | Stuck => Stuck
  end.

Notation "'let@' ( s , x ) := m 'in' k" := (obind m (fun s x => k))
  (at level 10, s binder, x binder, m at level 100, k at level 200) : cell_scope.

(** Code that changes a state, may raise an error, or has no defined behaviour,
    as a monad. *)
Definition ST (S A : Type) : Type := S -> outcome S A.
#[export] Instance st_ret S : MRet (ST S) := fun A a s => Ret s a.
#[export] Instance st_bind S : MBind (ST S) := fun A B k m s => obind (m s) (fun s a => k a s).
Definition throw {S A} (msg : string) : ST S A := fun s => Throw s msg.

Lemma bind_Ret {S A B} (m : ST S A) (k : A -> ST S B) s s' a : m s = Ret s' a -> (m ≫= k) s = k a s'.
Proof. intros H. unfold mbind, st_bind. by rewrite H. Qed.

Lemma bind_Throw {S A B} (m : ST S A) (k : A -> ST S B) s s' msg :
  m s = Throw s' msg -> (m ≫= k) s = Throw s' msg.
Proof. intros H. unfold mbind, st_bind. by rewrite H. Qed.

Lemma bind_inv {S A B} (m : ST S A) (k : A -> ST S B) s s' b :
  (m ≫= k) s = Ret s' b -> exists s1 a, m s = Ret s1 a /\ k a s1 = Ret s' b.
Proof. unfold mbind, st_bind, obind. destruct (m s) as [s1 a| |] eqn:E; [by eauto|done|done]. Qed.

Lemma bind_same {S A B} (m m' : ST S A) (k : A -> ST S B) s : m s = m' s -> (m ≫= k) s = (m' ≫= k) s.
Proof. intros H. unfold mbind, st_bind. by rewrite H. Qed.

Lemma bind_two {S A B C} (a : ST S A) (b : ST S B) (k : ST S C) s s' x :
  (_ ← a; b) s = Ret s' x -> (_ ← a; _ ← b; k) s = k s'.
Proof. unfold mbind, st_bind. destruct (a s); simpl; [|done|done]. intros ->. done. Qed.

(** ** Weakest preconditions *)

(** [m] from [h] ends, in [Q] if it returns and in [E] if it raises an error. *)
Definition wp {T A} (m : ST T A) (Q : A -> T -> Prop) (E : T -> Prop) (h : T) : Prop :=
  match m h with
  | Ret h' a => Q a h'
  | Throw h' _ => E h'
  | Stuck => False
  end.

Section wp.
Context {T : Type}.
Implicit Types (E : T -> Prop).

Lemma wp_ret {A} (a : A) (Q : A -> T -> Prop) E h : Q a h -> wp (mret a) Q E h.
Proof. done. Qed.
Lemma wp_throw {A} msg (Q : A -> T -> Prop) E h : E h -> wp (throw msg) Q E h.
Proof. done. Qed.
Lemma wp_bind {A B} (m : ST T A) (k : A -> ST T B) Q E h :
  wp m (fun a => wp (k a) Q E) E h -> wp (m ≫= k) Q E h.
Proof. unfold wp, mbind, st_bind, obind. by destruct (m h). Qed.
Lemma wp_mono {A} (m : ST T A) (Q Q' : A -> T -> Prop) E E' h :
  wp m Q E h -> (forall a h', Q a h' -> Q' a h') -> (forall h', E h' -> E' h') -> wp m Q' E' h.
Proof. unfold wp. destruct (m h); eauto. Qed.
Lemma wp_Ret {A} (m : ST T A) Q h : wp m Q (fun _ => False) h -> exists h' a, m h = Ret h' a /\ Q a h'.
Proof. unfold wp. destruct (m h); naive_solver. Qed.
End wp.

(** A state-free result with an error message. *)
Inductive res (A : Type) :=
  | Ok (a : A)
  | Err (msg : string).
Arguments Ok {A}. Arguments Err {A}.

End Effects.
