(* ===== verification/CFloat.v ===== *)
(** * The C type [double]

    IEEE 754 binary64 as the Standard Library's executable [spec_float], with
    every operation rounded to nearest even (no contraction).  Literals of the
    source are written as their nearest double, mantissa and exponent. *)

From Stdlib Require Import SpecFloat.
From S2P Require Import Prelude.

Module CFloat.

Abbreviation double := spec_float.

Definition dadd : double -> double -> double := SFadd 53 1024.
Definition dsub : double -> double -> double := SFsub 53 1024.
Definition dmul : double -> double -> double := SFmul 53 1024.
Definition ddiv : double -> double -> double := SFdiv 53 1024.
Definition dneg : double -> double := SFopp.

(** Comparisons: all false on a NaN operand. *)
Definition dlt : double -> double -> bool := SFltb.
Definition dle : double -> double -> bool := SFleb.
Definition deq : double -> double -> bool := SFeqb.

(** [(double)z] *)
Definition d_of_Z (z : Z) : double := binary_normalize 53 1024 z 0 false.

(** [(int)d], [(unsigned long)d] for a value in range: truncation toward zero. *)
Definition d_trunc (d : double) : Z :=
  match d with
  | S754_finite s m e =>
      let a := if 0 <=? e then Zpos m * 2 ^ e else Zpos m / 2 ^ (- e) in
      if s then - a else a
  | _ => 0
  end.

(** [floor(d)] *)
Definition d_floor (d : double) : double :=
  match d with
  | S754_finite s m e =>
      if 0 <=? e then d else d_of_Z ((if s then Zneg m else Zpos m) / 2 ^ (- e))
  | _ => d
  end.

(** [fmod(a, b)]: the exact remainder of the truncated quotient, with the sign of
    [a]. *)
Definition d_fmod (a b : double) : double :=
  match a, b with
  | S754_finite sa ma ea, S754_finite _ mb eb =>
      let e := Z.min ea eb in
      let r := (Zpos ma * 2 ^ (ea - e)) mod (Zpos mb * 2 ^ (eb - e)) in
      if r =? 0 then S754_zero sa
      else binary_normalize 53 1024 (if sa then - r else r) e sa
  | S754_nan, _ | _, S754_nan | S754_infinity _, _ | _, S754_zero _ => S754_nan
  | _, _ => a
  end.

(** A positive literal [m * 2^e]. *)
Definition lit (m : positive) (e : Z) : double := S754_finite false m e.

Definition DBL_MAX : double := lit 9007199254740991 971.
Definition dzero : double := S754_zero false.
Definition dhalf : double := lit 4503599627370496 (-53).

(** The 64-bit pattern of a double (canonical NaN) and back. *)
Definition d_bits (d : double) : Z :=
  let sgn (s : bool) := if s then 2 ^ 63 else 0 in
  match d with
  | S754_zero s => sgn s
  | S754_infinity s => sgn s + 0x7FF * 2 ^ 52
  | S754_nan => 0x7FF8 * 2 ^ 48
  | S754_finite s m e =>
      if Zpos m <? 2 ^ 52 then sgn s + Zpos m
      else sgn s + (e + 1075) * 2 ^ 52 + (Zpos m - 2 ^ 52)
  end.

Definition d_of_bits (b : Z) : double :=
  let s := Z.testbit b 63 in
  let e := Z.land (Z.shiftr b 52) 0x7FF in
  let f := Z.land b (2 ^ 52 - 1) in
  if e =? 0x7FF then (if f =? 0 then S754_infinity s else S754_nan)
  else if e =? 0 then
    match f with Zpos m => S754_finite s m (-1074) | _ => S754_zero s end
  else
    match f + 2 ^ 52 with Zpos m => S754_finite s m (e - 1075) | _ => S754_nan end.

(** ** The type [float]: binary32 *)

(** [(float)d] and [(double)f] *)
Definition f_of_d (d : double) : spec_float :=
  match d with
  | S754_finite s m e => binary_normalize 24 128 (if s then Zneg m else Zpos m) e s
  | _ => d
  end.
Definition d_of_f (f : spec_float) : double :=
  match f with
  | S754_finite s m e => binary_normalize 53 1024 (if s then Zneg m else Zpos m) e s
  | _ => f
  end.

(** The 32-bit pattern of a float (canonical NaN) and back. *)
Definition f_bits (f : spec_float) : Z :=
  let sgn (s : bool) := if s then 2 ^ 31 else 0 in
  match f with
  | S754_zero s => sgn s
  | S754_infinity s => sgn s + 0xFF * 2 ^ 23
  | S754_nan => 0x7FC * 2 ^ 20
  | S754_finite s m e =>
      if Zpos m <? 2 ^ 23 then sgn s + Zpos m
      else sgn s + (e + 150) * 2 ^ 23 + (Zpos m - 2 ^ 23)
  end.

Definition f_of_bits (b : Z) : spec_float :=
  let s := Z.testbit b 31 in
  let e := Z.land (Z.shiftr b 23) 0xFF in
  let f := Z.land b (2 ^ 23 - 1) in
  if e =? 0xFF then (if f =? 0 then S754_infinity s else S754_nan)
  else if e =? 0 then
    match f with Zpos m => S754_finite s m (-149) | _ => S754_zero s end
  else
    match f + 2 ^ 23 with Zpos m => S754_finite s m (e - 150) | _ => S754_nan end.

End CFloat.
