(* ===== verification/FloatFacts.v ===== *)
(** * Exact facts on doubles

    A finite double is an integer number of units of 2^-1074.  Comparison of
    valid doubles is comparison of their units, and an operation whose exact
    result is representable delivers it. *)

From Stdlib Require Import SpecFloat.
From S2P Require Import Prelude CFloat.

Module FloatFacts.
Import CFloat.

(** The value of a finite double in units of 2^-1074, and one in those units. *)
Definition units (d : double) : Z :=
  match d with
  | S754_finite s m e => let u := Zpos m * 2 ^ (e + 1074) in if s then - u else u
  | _ => 0
  end.

Definition one_u : Z := 2 ^ 1074.

Definition finite (d : double) : bool :=
  match d with S754_finite _ _ _ | S754_zero _ => true | _ => false end.

(** Representable in the binary64 format. *)
Definition valid (d : double) : Prop := valid_binary 53 1024 d = true.

Lemma one_u_pos : 0 < one_u.
Proof. unfold one_u. by apply Z.pow_pos_nonneg. Qed.

(** ** Digits *)

Lemma digits2_bounds (p : positive) :
  2 ^ (Zpos (digits2_pos p) - 1) <= Zpos p < 2 ^ Zpos (digits2_pos p).
Proof.
  induction p as [p IH|p IH|]; cbn [digits2_pos]; [| |by simpl];
    rewrite Pos2Z.inj_succ; unfold Z.succ; rewrite Z.add_simpl_r;
    replace (Zpos (digits2_pos p)) with (Zpos (digits2_pos p) - 1 + 1) at 1 by lia;
    rewrite !Z.pow_add_r by lia; rewrite (Pos2Z.inj_xI p) || rewrite (Pos2Z.inj_xO p); lia.
Qed.

Lemma digits2_unique (p : positive) (d : Z) :
  0 < d -> 2 ^ (d - 1) <= Zpos p < 2 ^ d -> Zpos (digits2_pos p) = d.
Proof.
  intros Hd Hp. pose proof (digits2_bounds p) as Hb.
  destruct (Z.lt_trichotomy (Zpos (digits2_pos p)) d) as [H|[H|H]]; [|done|].
  - pose proof (Z.pow_le_mono_r 2 (Zpos (digits2_pos p)) (d - 1)). lia.
  - pose proof (Z.pow_le_mono_r 2 d (Zpos (digits2_pos p) - 1)). lia.
Qed.

Lemma digits2_le (p : positive) (d : Z) : Zpos p < 2 ^ d -> Zpos (digits2_pos p) <= d.
Proof.
  intros Hp. pose proof (digits2_bounds p) as [Hb _].
  destruct (Z.le_gt_cases (Zpos (digits2_pos p)) d); [done|].
  pose proof (Z.pow_le_mono_r 2 d (Zpos (digits2_pos p) - 1)). lia.
Qed.

(** The canonical exponent of a number with leading bit position [d]. *)
Lemma fexp_eq (d : Z) : fexp 53 1024 d = Z.max (d - 53) (-1074).
Proof. done. Qed.

Lemma valid_spec s m e :
  valid (S754_finite s m e) <-> Z.max (Zpos (digits2_pos m) + e - 53) (-1074) = e /\ e <= 971.
Proof.
  unfold valid, valid_binary, bounded, canonical_mantissa. rewrite fexp_eq.
  rewrite andb_true_iff, Z.eqb_eq, Z.leb_le. done.
Qed.

(** ** Comparison *)

Lemma canonical_lt m1 e1 m2 e2 :
  Z.max (Zpos (digits2_pos m1) + e1 - 53) (-1074) = e1 ->
  Z.max (Zpos (digits2_pos m2) + e2 - 53) (-1074) = e2 -> e1 < e2 ->
  Zpos m1 * 2 ^ (e1 + 1074) < Zpos m2 * 2 ^ (e2 + 1074).
Proof.
  intros H1 H2 He.
  pose proof (digits2_bounds m1) as [_ B1]. pose proof (digits2_bounds m2) as [B2 _].
  pose proof (Z.pow_le_mono_r 2 (Zpos (digits2_pos m1)) 53).
  replace (Zpos (digits2_pos m2) - 1) with 52 in B2 by lia.
  replace (e2 + 1074) with ((e2 - e1 - 1) + (1 + (e1 + 1074))) by lia.
  rewrite (Z.pow_add_r 2 (e2 - e1 - 1)), (Z.pow_add_r 2 1) by lia.
  pose proof (pow2_pos (e2 - e1 - 1)). pose proof (pow2_pos (e1 + 1074)).
  set (a := 2 ^ (e2 - e1 - 1)) in *. set (b := 2 ^ (e1 + 1074)) in *.
  assert (Zpos m1 * b < 2 ^ 53 * b) by (apply Z.mul_lt_mono_pos_r; lia).
  assert (2 ^ 52 * (1 * (2 * b)) <= Zpos m2 * (a * (2 * b))).
  { apply Z.mul_le_mono_nonneg; try lia. apply Z.mul_le_mono_nonneg_r; lia. }
  change (2 ^ 53) with (2 * 2 ^ 52) in *. lia.
Qed.

Lemma SFcompare_units (a b : double) :
  valid a -> valid b -> finite a = true -> finite b = true ->
  SFcompare a b = Some (units a ?= units b).
Proof.
  destruct a as [sa| | |sa ma ea], b as [sb| | |sb mb eb]; try done; intros Va Vb _ _.
  - cbn [SFcompare units]. pose proof (pow2_pos (eb + 1074)). apply valid_spec in Vb.
    destruct sb; symmetry; f_equal; [apply Z.compare_gt_iff|apply Z.compare_lt_iff]; lia.
  - cbn [SFcompare units]. pose proof (pow2_pos (ea + 1074)). apply valid_spec in Va.
    destruct sa; symmetry; f_equal; [apply Z.compare_lt_iff|apply Z.compare_gt_iff]; lia.
  - apply valid_spec in Va as [Ha _], Vb as [Hb _].
    pose proof (pow2_pos (ea + 1074)). pose proof (pow2_pos (eb + 1074)).
    assert (Hpos : (ea ?= eb) = Lt /\ Zpos ma * 2 ^ (ea + 1074) < Zpos mb * 2 ^ (eb + 1074) \/
                   (ea ?= eb) = Gt /\ Zpos mb * 2 ^ (eb + 1074) < Zpos ma * 2 ^ (ea + 1074) \/
                   (ea ?= eb) = Eq /\ ea = eb).
    { destruct (Z.compare_spec ea eb); [auto|left|right; left]; split; auto using canonical_lt. }
    change (Pos.compare_cont Eq ma mb) with (Zpos ma ?= Zpos mb).
    unfold SFcompare, units. f_equal.
    destruct Hpos as [[-> H1]|[[-> H1]|[-> <-]]]; destruct sa, sb; symmetry;
      rewrite ?Z.compare_gt_iff, ?Z.compare_lt_iff; try nia.
    + rewrite Z.compare_opp, Z.compare_antisym. f_equal. symmetry. apply (Zmult_compare_compat_r (Zpos ma) (Zpos mb)). lia.
    + symmetry. apply (Zmult_compare_compat_r (Zpos ma) (Zpos mb)). lia.
Qed.

(** ** Rounding of representable values *)

Lemma shr_1_double (k : Z) :
  shr_1 (Build_shr_record (2 * k) false false) = Build_shr_record k false false.
Proof. by destruct k. Qed.

Lemma iter_shr_exact (n : positive) (k : Z) :
  SpecFloat.iter_pos shr_1 n (Build_shr_record (k * 2 ^ Zpos n) false false) = Build_shr_record k false false.
Proof.
  revert k. induction n as [n IH|n IH|]; intros k; cbn [SpecFloat.iter_pos].
  - replace (k * 2 ^ Zpos n~1) with (2 * (k * 2 ^ Zpos n * 2 ^ Zpos n)).
    2:{ replace (Zpos n~1) with (Zpos n + Zpos n + 1) by lia. rewrite !Z.pow_add_r by lia. lia. }
    by rewrite shr_1_double, !IH.
  - replace (k * 2 ^ Zpos n~0) with (k * 2 ^ Zpos n * 2 ^ Zpos n).
    2:{ replace (Zpos n~0) with (Zpos n + Zpos n) by lia. rewrite !Z.pow_add_r by lia. lia. }
    by rewrite !IH.
  - change (2 ^ 1) with 2. rewrite Z.mul_comm. apply shr_1_double.
Qed.

Lemma iter_xO (m d : positive) : Zpos (Pos.iter xO m d) = Zpos m * 2 ^ Zpos d.
Proof.
  induction d as [|d IH] using Pos.peano_ind; [simpl; lia|].
  rewrite Pos.iter_succ, (Pos2Z.inj_xO (Pos.iter _ _ _)), IH, Pos2Z.inj_succ, Z.pow_succ_r by lia. lia.
Qed.

Lemma shl_align_value (m : positive) (e e' : Z) :
  let '(m', f) := shl_align m e e' in f = Z.min e e' /\ Zpos m' = Zpos m * 2 ^ (e - f).
Proof.
  unfold shl_align. destruct (e' - e) as [|d|d] eqn:E.
  - split; [lia|]. rewrite Z.sub_diag. lia.
  - split; [lia|]. rewrite Z.sub_diag. lia.
  - split; [lia|]. rewrite iter_xO. f_equal. f_equal. lia.
Qed.

(** A shift that only drops zeros. *)
Lemma shr_fexp_exact (m e q t : Z) :
  fexp 53 1024 (Zdigits2 m + e) = t -> e <= t -> m = q * 2 ^ (t - e) ->
  shr_fexp 53 1024 m e loc_Exact = (Build_shr_record q false false, t).
Proof.
  intros Ht He ->. unfold shr_fexp. rewrite Ht. cbn [shr_record_of_loc].
  destruct (t - e) as [|n|n] eqn:E; [| |lia]; cbn [shr].
  - rewrite Z.mul_1_r. f_equal. lia.
  - rewrite iter_shr_exact. f_equal. lia.
Qed.

Lemma digits2_scale (p p' : positive) (k : Z) :
  0 <= k -> Zpos p' = Zpos p * 2 ^ k -> Zpos (digits2_pos p') = Zpos (digits2_pos p) + k.
Proof.
  intros Hk Hp. apply digits2_unique; [lia|]. rewrite Hp.
  pose proof (digits2_bounds p) as [H1 H2]. pose proof (pow2_pos k Hk).
  replace (Zpos (digits2_pos p) + k - 1) with (Zpos (digits2_pos p) - 1 + k) by lia.
  rewrite !Z.pow_add_r by lia. nia.
Qed.

Lemma cancel_pow (a b x y : Z) :
  0 <= x <= y -> a * 2 ^ x = b * 2 ^ y -> a = b * 2 ^ (y - x).
Proof.
  intros Hxy H. pose proof (pow2_pos x ltac:(lia)).
  apply (Z.mul_cancel_r _ _ (2 ^ x)); [lia|].
  rewrite H, <- Z.mul_assoc, <- Z.pow_add_r by lia. do 2 f_equal. lia.
Qed.

(** Rounding [m * 2^e] gives the canonical representation of the same value when
    there is one with at most 53 bits. *)
Lemma binary_round_exact (s : bool) (m M : positive) (e E : Z) :
  -1074 <= e -> -1074 <= E -> Zpos m * 2 ^ (e + 1074) = Zpos M * 2 ^ (E + 1074) ->
  Zpos M < 2 ^ 53 -> Zpos (digits2_pos m) + e <= 1024 ->
  exists m' e', binary_round 53 1024 s m e = S754_finite s m' e' /\
    valid (S754_finite s m' e') /\ Zpos m' * 2 ^ (e' + 1074) = Zpos m * 2 ^ (e + 1074).
Proof.
  intros He HE HmM HM HD.
  set (D := Zpos (digits2_pos m) + e) in *. set (t := Z.max (D - 53) (-1074)).
  assert (HDM : Zpos (digits2_pos M) + E = D).
  { subst D. destruct (Z.le_ge_cases e E) as [Hle|Hle].
    - apply (cancel_pow _ _ (e + 1074) (E + 1074)) in HmM; [|lia].
      apply digits2_scale in HmM; lia.
    - symmetry in HmM. apply (cancel_pow _ _ (E + 1074) (e + 1074)) in HmM; [|lia].
      apply digits2_scale in HmM; lia. }
  pose proof (digits2_le M 53 HM) as HM53.
  assert (HEt : t <= E) by (subst t; lia).
  unfold binary_round. fold D. rewrite fexp_eq. fold t.
  pose proof (shl_align_value m e t) as Hsh. destruct (shl_align m e t) as [mz ez].
  destruct Hsh as [Hez Hmz]. subst ez.
  assert (Hdz : Zpos (digits2_pos mz) = Zpos (digits2_pos m) + (e - Z.min e t)).
  { apply digits2_scale; [lia|done]. }
  assert (HU : Zpos mz * 2 ^ (Z.min e t + 1074) = Zpos M * 2 ^ (E + 1074)).
  { rewrite Hmz, <- HmM, <- Z.mul_assoc, <- Z.pow_add_r by lia. do 2 f_equal. lia. }
  destruct (Zpos M * 2 ^ (E - t)) as [|q|q] eqn:Hq;
    [pose proof (pow2_pos (E - t)); lia| |pose proof (pow2_pos (E - t)); lia].
  symmetry in Hq. assert (Hdq : Zpos (digits2_pos q) = Zpos (digits2_pos M) + (E - t)).
  { apply digits2_scale; [lia|done]. }
  unfold binary_round_aux.
  rewrite (shr_fexp_exact _ _ (Zpos q) t); [|cbn [Zdigits2]; rewrite fexp_eq; lia|lia|].
  2:{ rewrite Hq, <- Z.mul_assoc, <- Z.pow_add_r by lia.
      apply cancel_pow in HU; [|lia]. rewrite HU. do 2 f_equal. lia. }
  cbn [shr_m loc_of_shr_record round_nearest_even].
  rewrite (shr_fexp_exact _ _ (Zpos q) t); [|cbn [Zdigits2]; rewrite fexp_eq; lia|lia|].
  2:{ rewrite Z.sub_diag. lia. }
  cbn [shr_m]. rewrite (proj2 (Z.leb_le _ _)) by lia.
  exists q, t. split_and!; [done|apply valid_spec; lia|].
  rewrite Hq, HmM, <- Z.mul_assoc, <- Z.pow_add_r by lia. do 2 f_equal. lia.
Qed.

(** [u] units are the value of a double with mantissa below 2^53. *)
Definition representable (u : Z) : Prop :=
  exists M E, -1074 <= E <= 970 /\ Z.abs M < 2 ^ 53 /\ u = M * 2 ^ (E + 1074).

Lemma representable_opp (u : Z) : representable u -> representable (- u).
Proof. intros (M & E & HE & HM & ->). exists (- M), E. split_and!; lia. Qed.

Lemma representable_int (i : Z) : Z.abs i <= 2 ^ 53 -> representable (i * one_u).
Proof.
  intros Hi. destruct (Z.eq_dec (Z.abs i) (2 ^ 53)) as [Heq|Hne].
  - exists (Z.sgn i * 2 ^ 52), 1. split_and!; [lia..|].
    unfold one_u. rewrite Z.pow_add_r by lia. rewrite <- (Z.abs_sgn i) at 1. rewrite Heq.
    change (2 ^ 53) with (2 ^ 52 * 2 ^ 1). set (a := 2 ^ 1074). lia.
  - exists i, 0. split_and!; [lia..|done].
Qed.

Definition holds (d : double) (u : Z) : Prop := valid d /\ finite d = true /\ units d = u.

Lemma binary_round_holds (s : bool) (m : positive) (e : Z) :
  -1074 <= e -> representable (Zpos m * 2 ^ (e + 1074)) ->
  holds (binary_round 53 1024 s m e)
        (if s then - (Zpos m * 2 ^ (e + 1074)) else Zpos m * 2 ^ (e + 1074)).
Proof.
  intros He (M & E & HE & HM & HU).
  pose proof (pow2_pos (e + 1074) ltac:(lia)). pose proof (pow2_pos (E + 1074) ltac:(lia)).
  assert (0 < M) by nia. destruct M as [|M|M]; [lia| |lia].
  destruct (binary_round_exact s m M e E) as (m' & e' & -> & Hv & Hu); [lia|lia|done|lia| |].
  - pose proof (digits2_le M 53 ltac:(lia)).
    assert (Zpos (digits2_pos m) + (e + 1074) = Zpos (digits2_pos M) + (E + 1074)); [|lia].
    destruct (Zpos M * 2 ^ (E + 1074)) as [|q|q] eqn:Eq; [lia| |lia].
    rewrite <- (digits2_scale m q), <- (digits2_scale M q) by (done || lia). done.
  - unfold holds. cbn [finite units]. split_and!; [done|done|]. by rewrite Hu.
Qed.

Lemma normalize_holds (m e : Z) (sz : bool) :
  -1074 <= e -> representable (m * 2 ^ (e + 1074)) ->
  holds (binary_normalize 53 1024 m e sz) (m * 2 ^ (e + 1074)).
Proof.
  intros He Hr. destruct m as [|m|m]; cbn [binary_normalize].
  - done.
  - by apply (binary_round_holds false).
  - rewrite <- Pos2Z.opp_pos, Z.mul_opp_l in *. apply (binary_round_holds true); [done|].
    apply representable_opp in Hr. by rewrite Z.opp_involutive in Hr.
Qed.

Lemma d_of_Z_holds (i : Z) : Z.abs i <= 2 ^ 53 -> holds (d_of_Z i) (i * one_u).
Proof.
  intros Hi. unfold d_of_Z, one_u. apply (normalize_holds i 0); [lia|]. by apply representable_int.
Qed.

Lemma holds_min : holds (d_of_Z (- 2 ^ 63)) (- 2 ^ 63 * one_u).
Proof.
  unfold d_of_Z, one_u. apply (normalize_holds _ 0); [lia|]. exists (-1), 63. split_and!; [lia..|].
  by rewrite !Z.pow_add_r by lia.
Qed.

Lemma holds_neg d u : holds d u -> holds (dneg d) (- u).
Proof.
  intros (Hv & Hf & <-). destruct d as [s| | |s m e]; try done.
  unfold holds. split_and!; [done|done|]. unfold dneg. cbn [SFopp units]. destruct s; cbn [negb]; lia.
Qed.

Lemma dlt_holds a b u v : holds a u -> holds b v -> dlt a b = (u <? v).
Proof.
  intros (Va & Fa & <-) (Vb & Fb & <-). unfold dlt, SFltb. rewrite SFcompare_units by done.
  unfold Z.ltb. by destruct (_ ?= _).
Qed.
Lemma dle_holds a b u v : holds a u -> holds b v -> dle a b = (u <=? v).
Proof.
  intros (Va & Fa & <-) (Vb & Fb & <-). unfold dle, SFleb. rewrite SFcompare_units by done.
  unfold Z.leb. by destruct (_ ?= _).
Qed.
Lemma deq_holds a b u v : holds a u -> holds b v -> deq a b = (u =? v).
Proof.
  intros (Va & Fa & <-) (Vb & Fb & <-). unfold deq, SFeqb. rewrite SFcompare_units by done.
  rewrite Z.eqb_compare. by destruct (_ ?= _).
Qed.

(** ** Truncation and floor *)

Lemma valid_exponent s m e : valid (S754_finite s m e) -> -1074 <= e <= 971.
Proof. rewrite valid_spec. lia. Qed.

Lemma valid_mantissa s m e : valid (S754_finite s m e) -> Zpos m < 2 ^ 53.
Proof.
  intros [H _]%valid_spec. pose proof (digits2_bounds m) as [_ Hb].
  eapply Z.lt_le_trans; [exact Hb|]. apply Z.pow_le_mono_r; lia.
Qed.

Lemma one_u_split (e : Z) : -1074 <= e < 0 -> one_u = 2 ^ (- e) * 2 ^ (e + 1074).
Proof. intros. unfold one_u. rewrite <- Z.pow_add_r by lia. f_equal. lia. Qed.

Lemma units_up (m e : Z) : 0 <= e -> m * 2 ^ (e + 1074) = m * 2 ^ e * one_u.
Proof. intros. unfold one_u. rewrite Z.pow_add_r by lia. lia. Qed.

Lemma d_trunc_units d : valid d -> d_trunc d = Z.quot (units d) one_u.
Proof.
  pose proof one_u_pos. destruct d as [| | |s m e]; try done. intros Hv%valid_exponent. simpl.
  set (x := if 0 <=? e then _ else _).
  assert (Hx : x = (Zpos m * 2 ^ (e + 1074)) / one_u).
  { subst x. destruct (Z.leb_spec 0 e).
    - by rewrite units_up, Z.div_mul by lia.
    - pose proof (pow2_pos (e + 1074)). pose proof (pow2_pos (- e)).
      rewrite (one_u_split e), Z.div_mul_cancel_r by lia. done. }
  pose proof (pow2_pos (e + 1074)).
  rewrite Hx. destruct s; [rewrite Z.quot_opp_l by lia|]; rewrite Z.quot_div_nonneg by lia; done.
Qed.

Lemma d_floor_holds d u : holds d u -> holds (d_floor d) (u / one_u * one_u).
Proof.
  pose proof one_u_pos. intros (Hv & Hf & <-). destruct d as [s| | |s m e]; try done.
  cbn [d_floor]. pose proof (valid_exponent _ _ _ Hv). destruct (Z.leb_spec 0 e).
  - unfold holds. split_and!; [done|done|]. cbn [units]. rewrite units_up by done.
    destruct s; [rewrite <- Z.mul_opp_l|]; by rewrite Z.div_mul by lia.
  - pose proof (pow2_pos (e + 1074)). pose proof (pow2_pos (- e)). pose proof (valid_mantissa _ _ _ Hv).
    replace (units (S754_finite s m e) / one_u) with ((if s then Zneg m else Zpos m) / 2 ^ (- e)).
    2:{ cbn [units]. rewrite (one_u_split e) by lia. rewrite <- Pos2Z.opp_pos.
        destruct s; [rewrite <- Z.mul_opp_l|]; by rewrite Z.div_mul_cancel_r by lia. }
    apply d_of_Z_holds.
    assert (Z.abs (if s then Zneg m else Zpos m) < 2 ^ 53) by (destruct s; lia).
    set (x := if s then _ else _) in *. clearbody x.
    pose proof (Z.div_le_lower_bound x (2 ^ (- e)) (- 2 ^ 53) ltac:(lia) ltac:(nia)).
    pose proof (Z.div_lt_upper_bound x (2 ^ (- e)) (2 ^ 53) ltac:(lia) ltac:(nia)). lia.
Qed.

(** ** Addition *)

Lemma shl_align_fst (m : positive) (e f : Z) :
  f <= e -> Zpos (fst (shl_align m e f)) = Zpos m * 2 ^ (e - f).
Proof.
  intros H. pose proof (shl_align_value m e f) as Hs. destruct (shl_align m e f) as [m' g].
  destruct Hs as [Hg Hm]. simpl. rewrite Hm, Hg. do 2 f_equal. lia.
Qed.

Lemma dadd_holds a b u v :
  holds a u -> holds b v -> representable (u + v) -> holds (dadd a b) (u + v).
Proof.
  intros Ha Hb Hr. pose proof Ha as (Va & Fa & Ua). pose proof Hb as (Vb & Fb & Ub).
  destruct a as [sa| | |sa ma ea]; try done; destruct b as [sb| | |sb mb eb]; try done.
  - cbn in Ua, Ub. subst. by destruct sa, sb.
  - cbn in Ua. subst u. done.
  - cbn in Ub. subst v. by rewrite Z.add_0_r.
  - apply valid_exponent in Va, Vb. unfold dadd. cbn [SFadd].
    set (ez := Z.min ea eb).
    assert (Hsum : u + v =
      (cond_Zopp sa (Zpos (fst (shl_align ma ea ez))) + cond_Zopp sb (Zpos (fst (shl_align mb eb ez))))
      * 2 ^ (ez + 1074)).
    { rewrite !shl_align_fst by lia. subst u v. cbn [units].
      replace (ea + 1074) with (ea - ez + (ez + 1074)) by lia.
      replace (eb + 1074) with (eb - ez + (ez + 1074)) by lia.
      rewrite (Z.pow_add_r 2 (ea - ez)), (Z.pow_add_r 2 (eb - ez)) by lia.
      unfold cond_Zopp. destruct sa, sb; ring. }
    rewrite Hsum in *. apply normalize_holds; [lia|done].
Qed.

(** Equality of doubles other than zero is identity. *)
Lemma deq_inv a b : deq a b = true -> a = b \/ (units a = 0 /\ units b = 0 /\ finite a = true /\ finite b = true).
Proof.
  unfold deq, SFeqb. destruct a as [sa|sa| |sa ma ea], b as [sb|sb| |sb mb eb]; cbn [SFcompare];
    try (by auto); try (by destruct sa); try (by destruct sb); [by destruct sa, sb; auto|].
  destruct (Z.compare_spec ea eb) as [->| |]; destruct sa, sb; try done;
    change (Pos.compare_cont Eq ma mb) with (Pos.compare ma mb);
    destruct (Pos.compare_spec ma mb) as [->| |]; auto; done.
Qed.

Lemma deq_refl a : deq a a = match a with S754_nan => false | _ => true end.
Proof.
  unfold deq, SFeqb. destruct a as [s|s| |s m e]; cbn [SFcompare]; try done; [by destruct s|].
  rewrite Z.compare_refl. change (Pos.compare_cont Eq m m) with (Pos.compare m m).
  rewrite Pos.compare_refl. by destruct s.
Qed.
(** ** Bit patterns *)

Lemma bits_fields (s : bool) (e f : Z) :
  0 <= e < 2048 -> 0 <= f < 2 ^ 52 ->
  let b := (if s then 2 ^ 63 else 0) + e * 2 ^ 52 + f in
  Z.testbit b 63 = s /\ Z.land (Z.shiftr b 52) 0x7FF = e /\ Z.land b (2 ^ 52 - 1) = f.
Proof.
  intros He Hf b. subst b. set (b := _ + f).
  assert (H52 : b / 2 ^ 52 = (if s then 2048 else 0) + e).
  { symmetry. apply (Z.div_unique _ _ _ f); [lia|]. subst b. destruct s; lia. }
  assert (H63 : b / 2 ^ 63 = if s then 1 else 0).
  { symmetry. apply (Z.div_unique _ _ _ (e * 2 ^ 52 + f)); [lia|]. subst b. destruct s; lia. }
  split_and!.
  - rewrite Z.testbit_odd, Z.shiftr_div_pow2, H63 by lia. by destruct s.
  - rewrite Z.shiftr_div_pow2, H52 by lia. change 0x7FF with (Z.ones 11). rewrite Z.land_ones by lia.
    change (2 ^ 11) with 2048. symmetry. apply (Z.mod_unique _ _ (if s then 1 else 0)); [lia|]. destruct s; lia.
  - change (2 ^ 52 - 1) with (Z.ones 52). rewrite Z.land_ones by lia.
    symmetry. apply (Z.mod_unique _ _ ((if s then 2048 else 0) + e)); [lia|]. subst b. destruct s; lia.
Qed.

Lemma bits_split (b : Z) (s : bool) (e f : Z) :
  0 <= e < 2048 -> 0 <= f < 2 ^ 52 -> b = (if s then 2 ^ 63 else 0) + e * 2 ^ 52 + f ->
  d_of_bits b =
  if e =? 0x7FF then (if f =? 0 then S754_infinity s else S754_nan)
  else if e =? 0 then
    match f with Zpos m => S754_finite s m (-1074) | _ => S754_zero s end
  else
    match f + 2 ^ 52 with Zpos m => S754_finite s m (e - 1075) | _ => S754_nan end.
Proof.
  intros He Hf ->. destruct (bits_fields s e f He Hf) as (H1 & H2 & H3). unfold d_of_bits. by rewrite H1, H2, H3.
Qed.

(** A double is read back from its bit pattern. *)
Lemma d_bits_roundtrip d : valid d -> d_of_bits (d_bits d) = d /\ 0 <= d_bits d < 2 ^ 64.
Proof.
  intros Hv. destruct d as [s|s| |s m e]; cbn [d_bits].
  - split; [|destruct s; lia]. rewrite (bits_split _ s 0 0) by (destruct s; lia). done.
  - split; [|destruct s; lia]. rewrite (bits_split _ s 0x7FF 0) by (destruct s; lia). done.
  - split; [|lia]. vm_compute. reflexivity.
  - pose proof (valid_exponent _ _ _ Hv) as He. pose proof (valid_mantissa _ _ _ Hv) as Hm.
    apply valid_spec in Hv as [Hv _]. pose proof (digits2_bounds m) as [Hd1 Hd2].
    destruct (Z.ltb_spec (Zpos m) (2 ^ 52)) as [Hsub|Hnorm].
    + assert (e = -1074) as ->.
      { assert (Zpos (digits2_pos m) <= 52); [|lia].
        assert (Zpos (digits2_pos m) - 1 < 52); [|lia]. apply (Z.pow_lt_mono_r_iff 2); lia. }
      split; [|destruct s; lia]. rewrite (bits_split _ s 0 (Zpos m)) by (destruct s; lia). done.
    + assert (Zpos (digits2_pos m) = 53).
      { assert (52 < Zpos (digits2_pos m)) by (apply (Z.pow_lt_mono_r_iff 2); lia).
        assert (Zpos (digits2_pos m) - 1 < 53) by (apply (Z.pow_lt_mono_r_iff 2); lia). lia. }
      split; [|destruct s; lia].
      rewrite (bits_split _ s (e + 1075) (Zpos m - 2 ^ 52)) by (destruct s; lia).
      rewrite (proj2 (Z.eqb_neq (e + 1075) 0x7FF)), (proj2 (Z.eqb_neq (e + 1075) 0)) by lia.
      replace (Zpos m - 2 ^ 52 + 2 ^ 52) with (Zpos m) by lia. f_equal. lia.
Qed.

End FloatFacts.
