(* ===== verification/FloatRound.v ===== *)
(** * Rounding gives numbers of the format

    What [binary_round] returns has a canonical mantissa and exponent, so that the C type
    [float] can be stored as 32 bits and read back. *)

From Stdlib Require Import SpecFloat.
From S2P Require Import Prelude CFloat FloatFacts.

Module FloatRound.
Import CFloat FloatFacts.

(** ** Shifts *)

Lemma shr_1_half r : 0 <= shr_m r -> shr_m (shr_1 r) = shr_m r / 2.
Proof.
  destruct r as [m x y]. cbn [shr_m]. intros Hm. destruct m as [|[p|p|]|p]; [done| | |done|lia]; cbn [shr_1 shr_m].
  - rewrite (Pos2Z.inj_xI p), Z.mul_comm, Z.div_add_l by lia. change (1 / 2) with 0. lia.
  - by rewrite (Pos2Z.inj_xO p), Z.mul_comm, Z.div_mul by lia.
Qed.

Lemma shr_iter_div n r : 0 <= shr_m r -> shr_m (SpecFloat.iter_pos shr_1 n r) = shr_m r / 2 ^ Zpos n.
Proof.
  assert (Hpos : forall a k, 0 <= a -> 0 <= k -> 0 <= a / 2 ^ k) by (intros; apply Z.div_pos; [lia|by apply pow2_pos]).
  revert r. induction n as [n IH|n IH|]; intros r Hr; cbn [SpecFloat.iter_pos].
  - assert (H1 : 0 <= shr_m (shr_1 r)) by (rewrite shr_1_half by done; apply (Hpos _ 1); lia).
    rewrite !IH by (rewrite ?IH by done; by auto with zarith). rewrite shr_1_half, !Z.div_div by (try apply Z.pow_nonzero; try apply pow2_pos; lia).
    f_equal. rewrite (Pos2Z.inj_xI n), Z.pow_add_r, Z.pow_mul_r by lia. change (2 ^ 2) with 4. change (2 ^ 1) with 2.
    replace 4 with (2 * 2) by lia. rewrite Z.pow_mul_l. lia.
  - rewrite !IH by (rewrite ?IH by done; by auto with zarith). rewrite Z.div_div by (try apply Z.pow_nonzero; try apply pow2_pos; lia).
    f_equal. rewrite (Pos2Z.inj_xO n), Z.pow_mul_r by lia. change (2 ^ 2) with 4. replace 4 with (2 * 2) by lia. by rewrite Z.pow_mul_l.
  - by apply shr_1_half.
Qed.

Section format.
Context (prec emax : Z).
Hypothesis Hprec : 0 < prec < emax.
Abbreviation emin := (3 - emax - prec).

Lemma fexp_max d : fexp prec emax d = Z.max (d - prec) emin.
Proof. done. Qed.

(** The mantissa and exponent after a shift to the exponent of the format. *)
Lemma shr_fexp_div m e l : 0 <= m ->
  let t := fexp prec emax (Zdigits2 m + e) in let e' := Z.max e t in
  (shr_fexp prec emax m e l).2 = e' /\ shr_m (shr_fexp prec emax m e l).1 = m / 2 ^ (e' - e).
Proof.
  intros Hm t e'. unfold shr_fexp. fold t. assert (Hl : shr_m (shr_record_of_loc m l) = m) by by destruct l as [|[]].
  destruct (t - e) as [|n|n] eqn:E; cbn [shr fst snd].
  - replace e' with e by lia. by rewrite Z.sub_diag, Z.div_1_r, Hl.
  - rewrite shr_iter_div by (rewrite Hl; done). rewrite Hl. replace (e' - e) with (Zpos n) by lia. split; [lia|done].
  - replace e' with e by lia. by rewrite Z.sub_diag, Z.div_1_r, Hl.
Qed.

(** A mantissa that is canonical at [e], or a power of two too large. *)
Definition fits (m e : Z) : Prop :=
  0 <= m <= 2 ^ prec /\ emin <= e /\ (e = emin \/ 2 ^ (prec - 1) <= m).

Lemma first_shift m e l (p : positive) :
  m = Zpos p -> e <= fexp prec emax (Zdigits2 m + e) ->
  let r := shr_fexp prec emax m e l in
  fits (shr_m r.1) r.2 /\ shr_m r.1 < 2 ^ prec.
Proof.
  intros -> He r. destruct (shr_fexp_div (Zpos p) e l ltac:(lia)) as [E1 E2]. fold r in E1, E2. cbv zeta in E1, E2.
  rewrite Z.max_r in E1, E2 by done. rewrite fexp_max in *. cbn [Zdigits2] in *. set (d := Zpos (digits2_pos p)) in *.
  rewrite E1, E2. set (t := Z.max (d + e - prec) emin) in *. pose proof (digits2_bounds p) as [Hlo Hhi]. fold d in Hlo, Hhi.
  assert (Hk : 0 < 2 ^ (t - e)) by (apply pow2_pos; lia).
  assert (Hlt : Zpos p / 2 ^ (t - e) < 2 ^ prec).
  { apply Z.div_lt_upper_bound; [done|]. rewrite <- Z.pow_add_r by lia. eapply Z.lt_le_trans; [exact Hhi|]. apply Z.pow_le_mono_r; lia. }
  split; [|done]. split; [split; [apply Z.div_pos; lia|lia]|]. split; [lia|].
  destruct (decide (t = emin)) as [|Hne]; [by left|right]. apply Z.div_le_lower_bound; [done|].
  rewrite <- Z.pow_add_r by lia. eapply Z.le_trans; [|exact Hlo]. apply Z.pow_le_mono_r; lia.
Qed.

Lemma round_fits m e l : fits m e -> m < 2 ^ prec -> fits (round_nearest_even m l) e.
Proof.
  intros (H1 & H2 & H3) Hlt. assert (H : round_nearest_even m l = m \/ round_nearest_even m l = m + 1).
  { destruct l as [|[]]; cbn [round_nearest_even]; auto. destruct (Z.even m); auto. }
  unfold fits. destruct H as [-> | ->]; lia.
Qed.

(** The second shift makes it canonical. *)
Lemma second_shift m e (q : positive) :
  fits m e -> let r := shr_fexp prec emax m e loc_Exact in
  shr_m r.1 = Zpos q -> fexp prec emax (Zpos (digits2_pos q) + r.2) = r.2.
Proof.
  intros ([H0 H1] & H2 & H3) r Hq. destruct (shr_fexp_div m e loc_Exact H0) as [E1 E2]. fold r in E1, E2. cbv zeta in E1, E2.
  rewrite !fexp_max in *. destruct m as [|p|p]; [rewrite E2, Z.div_0_l in Hq by (apply Z.pow_nonzero; lia); done| |lia].
  cbn [Zdigits2] in *. set (d := Zpos (digits2_pos p)) in *. pose proof (digits2_bounds p) as [Hlo Hhi]. fold d in Hlo, Hhi.
  assert (Hd : d <= prec \/ Zpos p = 2 ^ prec).
  { destruct (decide (Zpos p = 2 ^ prec)); [by right|left]. apply digits2_le. lia. }
  destruct Hd as [Hd|Hd].
  - assert (Hmax : Z.max (d + e - prec) emin = e).
    { destruct H3 as [->|Hbig]; [lia|]. assert (prec - 1 < d) by (apply (Z.pow_lt_mono_r_iff 2); lia). lia. }
    rewrite Hmax, Z.max_id in E1, E2. rewrite Z.sub_diag, Z.div_1_r in E2. rewrite E2 in Hq. injection Hq as <-. fold d. rewrite E1. done.
  - assert (Ed : d = prec + 1) by (apply digits2_unique; [lia|]; rewrite Hd, Z.add_simpl_r; split; [lia|apply Z.pow_lt_mono_r; lia]).
    rewrite Ed in E1, E2. replace (Z.max e (Z.max (prec + 1 + e - prec) emin)) with (e + 1) in E1, E2 by lia.
    rewrite E1. replace (e + 1 - e) with 1 in E2 by lia. rewrite E2, Hd in Hq.
    assert (Eq : Zpos (digits2_pos q) = prec).
    { apply digits2_unique; [lia|]. rewrite <- Hq.
      replace (2 ^ prec) with (2 ^ (prec - 1) * 2 ^ 1) by (rewrite <- Z.pow_add_r by lia; f_equal; lia).
      rewrite Z.div_mul by lia. pose proof (pow2_pos (prec - 1) ltac:(lia)). change (2 ^ 1) with 2. lia. }
    rewrite Eq. lia.
Qed.

Lemma binary_round_valid s m e : valid_binary prec emax (binary_round prec emax s m e) = true.
Proof.
  unfold binary_round. set (D := Zpos (digits2_pos m) + e). set (t := fexp prec emax D).
  pose proof (shl_align_value m e t) as Hsh. destruct (shl_align m e t) as [mz ez]. destruct Hsh as [Hez Hmz].
  assert (Hdz : Zpos (digits2_pos mz) + ez = D) by (rewrite (digits2_scale m mz (e - ez)) by (done || lia); lia).
  unfold binary_round_aux. destruct (first_shift (Zpos mz) ez loc_Exact mz eq_refl) as [Hf Hlt].
  { cbn [Zdigits2]. rewrite Hdz. fold t. lia. }
  destruct (shr_fexp prec emax (Zpos mz) ez loc_Exact) as [r1 e1]. cbn [fst snd] in Hf, Hlt.
  apply (round_fits _ _ (loc_of_shr_record r1)) in Hf; [|done]. set (m2 := round_nearest_even _ _) in *.
  pose proof (fun q => second_shift m2 e1 q Hf) as Hcan. cbv zeta in Hcan.
  destruct (shr_fexp prec emax m2 e1 loc_Exact) as [r2 e2]. cbn [fst snd] in Hcan.
  destruct (shr_m r2) as [|q|q]; [done| |done]. specialize (Hcan q eq_refl). destruct (e2 <=? emax - prec) eqn:E; [|done].
  cbn [valid_binary]. unfold bounded, canonical_mantissa. by rewrite Hcan, Z.eqb_refl, E.
Qed.
End format.

(** ** The type [float] *)

Abbreviation valid32 f := (valid_binary 24 128 f = true).

Lemma f_of_d_valid d : valid32 (f_of_d d).
Proof. destruct d as [s|s| |s m e]; try done. destruct s; apply (binary_round_valid 24 128 ltac:(lia)). Qed.

Lemma valid32_spec s m e :
  valid32 (S754_finite s m e) <-> Z.max (Zpos (digits2_pos m) + e - 24) (-149) = e /\ e <= 104.
Proof. cbn [valid_binary]. unfold bounded, canonical_mantissa. rewrite andb_true_iff, Z.eqb_eq, Z.leb_le. done. Qed.

Lemma f_bits_fields (s : bool) (e f : Z) :
  0 <= e < 256 -> 0 <= f < 2 ^ 23 ->
  let b := (if s then 2 ^ 31 else 0) + e * 2 ^ 23 + f in
  Z.testbit b 31 = s /\ Z.land (Z.shiftr b 23) 0xFF = e /\ Z.land b (2 ^ 23 - 1) = f.
Proof.
  intros He Hf b. subst b. set (b := _ + f).
  assert (H23 : b / 2 ^ 23 = (if s then 256 else 0) + e) by (symmetry; apply (Z.div_unique _ _ _ f); subst b; destruct s; lia).
  assert (H31 : b / 2 ^ 31 = if s then 1 else 0).
  { symmetry. apply (Z.div_unique _ _ _ (e * 2 ^ 23 + f)); [lia|]. subst b. destruct s; lia. }
  split_and!.
  - rewrite Z.testbit_odd, Z.shiftr_div_pow2, H31 by lia. by destruct s.
  - rewrite Z.shiftr_div_pow2, H23 by lia. change 0xFF with (Z.ones 8). rewrite Z.land_ones by lia.
    symmetry. apply (Z.mod_unique _ _ (if s then 1 else 0)); [lia|]. change (2 ^ 8) with 256. destruct s; lia.
  - change (2 ^ 23 - 1) with (Z.ones 23). rewrite Z.land_ones by lia.
    symmetry. apply (Z.mod_unique _ _ ((if s then 256 else 0) + e)); [lia|]. subst b. destruct s; lia.
Qed.

(** A float is read back from its bit pattern. *)
Lemma f_bits_roundtrip f : valid32 f -> f_of_bits (f_bits f) = f /\ 0 <= f_bits f < 2 ^ 32.
Proof.
  intros Hv.
  assert (Hsplit : forall (s : bool) e m b, 0 <= e < 256 -> 0 <= m < 2 ^ 23 -> b = (if s then 2 ^ 31 else 0) + e * 2 ^ 23 + m ->
    f_of_bits b = (if e =? 0xFF then (if m =? 0 then S754_infinity s else S754_nan)
      else if e =? 0 then match m with Zpos m => S754_finite s m (-149) | _ => S754_zero s end
      else match m + 2 ^ 23 with Zpos m => S754_finite s m (e - 150) | _ => S754_nan end)).
  { intros s e m b He Hm ->. destruct (f_bits_fields s e m He Hm) as (H1 & H2 & H3). unfold f_of_bits. by rewrite H1, H2, H3. }
  destruct f as [s|s| |s m e]; cbn [f_bits].
  - split; [|destruct s; lia]. by rewrite (Hsplit s 0 0) by (destruct s; lia).
  - split; [|destruct s; lia]. by rewrite (Hsplit s 0xFF 0) by (destruct s; lia).
  - split; [|lia]. vm_compute. reflexivity.
  - apply valid32_spec in Hv as [Hv He]. pose proof (digits2_bounds m) as [Hlo Hhi].
    assert (Hm : Zpos m < 2 ^ 24) by (eapply Z.lt_le_trans; [exact Hhi|]; apply Z.pow_le_mono_r; lia).
    destruct (Z.ltb_spec (Zpos m) (2 ^ 23)) as [Hsub|Hnorm].
    + pose proof (digits2_le m 23 Hsub). assert (e = -149) as -> by lia.
      split; [|destruct s; lia]. by rewrite (Hsplit s 0 (Zpos m)) by (destruct s; lia).
    + assert (Zpos (digits2_pos m) = 24) by (apply digits2_unique; lia). split; [|destruct s; lia].
      rewrite (Hsplit s (e + 150) (Zpos m - 2 ^ 23)) by (destruct s; lia).
      rewrite (proj2 (Z.eqb_neq (e + 150) 0xFF)), (proj2 (Z.eqb_neq (e + 150) 0)) by lia.
      replace (Zpos m - 2 ^ 23 + 2 ^ 23) with (Zpos m) by lia. f_equal. lia.
Qed.

End FloatRound.
