(* ===== verification/Platform.v ===== *)
(** * The Tetris platform backend, [cells/demos/tetris-c/src/c/vicell_platform.c]

    The VGA drawing routines of the cell over the compositor surface, and the
    thin keyboard, timer and speaker wrappers.  The surface memory is a finite
    map from the word index to the BGRA word, so that an access outside the
    surface is visible in the map; the calls into the Rust half of the cell
    ([vicell_flush], [vicell_draw_char]) are recorded in order. *)

From S2P Require Import Prelude.

Module Platform.

(** ** State *)

(** Calls into the Rust callbacks that do not touch the surface words here. *)
Inductive pcall :=
  | Flush
  | DrawChar (x y c bgra : Z).

Record pstate := PState {
  surface : option (gmap Z Z);   (* [vicell_surface_ptr()]; [None] is NULL *)
  calls : list pcall
}.

Definition with_surface (s : pstate) (m : gmap Z Z) : pstate :=
  PState (Some m) (calls s).
Definition add_call (s : pstate) (c : pcall) : pstate :=
  PState (surface s) (calls s ++ [c]).

(** ** Palette and geometry *)

Definition PALETTE : list Z :=
  [0xFF000000; 0xFF0000AA; 0xFF00AA00; 0xFF00AAAA;
   0xFFAA0000; 0xFFAA00AA; 0xFFAA5500; 0xFFAAAAAA;
   0xFF555555; 0xFF5555FF; 0xFF55FF55; 0xFF55FFFF;
   0xFFFF5555; 0xFFFF55FF; 0xFFFFFF55; 0xFFFFFFFF].

Definition VGA_W : Z := 320.
Definition VGA_H : Z := 200.
Definition SCALE : Z := 3.
Definition SURF_W : Z := 1024.
Definition SURF_H : Z := 768.
Definition XOFF : Z := (SURF_W - VGA_W * SCALE) / 2.
Definition YOFF : Z := (SURF_H - VGA_H * SCALE) / 2.

(** [PALETTE[color & 0xF]] *)
Definition palette (color : Z) : Z := default 0 (PALETTE !! Z.to_nat (Z.land color 0xF)).

(** ** Drawing *)

Definition vga_init (s : pstate) : pstate := s.

Definition vga_clear (color : Z) (s : pstate) : pstate :=
  match surface s with
  | None => s
  | Some buf =>
      let bgra := palette color in
      with_surface s
        (for_up (Z.to_nat (SURF_W * SURF_H)) 0 (fun i buf => <[i := bgra]> buf) buf)
  end.

(** The screen row and column of the loops of [vga_fill_rect]. *)
Definition rect_sy (y dy : Z) : Z := u32 (u32 (YOFF + u32 (y * SCALE)) + dy).
Definition rect_sx (x dx : Z) : Z := u32 (u32 (XOFF + u32 (x * SCALE)) + dx).

Definition vga_fill_rect (x y w h color : Z) (s : pstate) : pstate :=
  match surface s with
  | None => s
  | Some buf =>
      let bgra := palette color in
      with_surface s
        (for_brk (Z.to_nat (u32 (h * SCALE))) 0
           (fun dy buf =>
              let sy := rect_sy y dy in
              if sy >=? SURF_H then (buf, true) else
              let row := u32 (sy * SURF_W) in
              (for_up (Z.to_nat (u32 (w * SCALE))) 0
                 (fun dx buf =>
                    let sx := rect_sx x dx in
                    if sx >=? SURF_W then buf else <[row + sx := bgra]> buf) buf,
               false)) buf)
  end.

Definition vga_present (s : pstate) : pstate := add_call s Flush.

Definition vga_draw_char (x y c color : Z) (s : pstate) : pstate :=
  add_call s (DrawChar (u32 (XOFF + u32 (x * SCALE))) (u32 (YOFF + u32 (y * SCALE)))
                (u8 c) (palette color)).

(** A C string is the list of bytes from its address on; a zero byte or the end
    of the list terminates it. *)
Fixpoint draw_chars (x y : Z) (str : list Z) (color : Z) (s : pstate) : pstate :=
  match str with
  | [] => s
  | c :: str' =>
      if c =? 0 then s
      else draw_chars (u32 (x + 8)) y str' color (vga_draw_char x y c color s)
  end.

Definition vga_draw_string (x y : Z) (str : option (list Z)) (color : Z) (s : pstate) : pstate :=
  match str with
  | None => s
  | Some str => draw_chars x y str color s
  end.

(** [buf[i] = c] on a local array: [None] is a store outside the array. *)
Definition store (buf : list Z) (i c : Z) : option (list Z) :=
  if (0 <=? i) && (i <? zlen buf) then Some (<[Z.to_nat i := c]> buf) else None.

(** [while (num > 0u) { buf[--i] = '0' + num % 10; num /= 10; }]: the fuel is
    an upper bound of the number of digits of a 32-bit number. *)
Fixpoint number_loop (fuel : nat) (buf : list Z) (i num : Z) : option (list Z * Z) :=
  if num >? 0 then
    match fuel with
    | O => None
    | S fuel' =>
        buf' ← store buf (i - 1) (u8 (48 + num mod 10));
        number_loop fuel' buf' (i - 1) (num / 10)
    end
  else Some (buf, i).

Definition vga_draw_number (x y num color : Z) (s : pstate) : option pstate :=
  let buf := replicate 12 0 in
  buf ← store buf 11 0;
  '(buf, i) ← (if num =? 0
               then buf ← store buf 10 48; Some (buf, 10)
               else number_loop 32 buf 11 num);
  Some (vga_draw_string x y (Some (drop (Z.to_nat i) buf)) color s).

(** ** Keyboard, timer and speaker *)

Definition keyboard_init (s : pstate) : pstate := s.
Definition timer_init (s : pstate) : pstate := s.
Definition speaker_init (s : pstate) : pstate := s.

Section callbacks.
(** The results of the Rust callbacks. *)
Variables (vicell_poll_key vicell_get_ticks_ms : Z).
Definition keyboard_get_key : Z := vicell_poll_key.
Definition timer_get_ticks : Z := vicell_get_ticks_ms.
End callbacks.

(** ** Lemmas on painting loops *)

(** Either some iteration paints cell [k], which then holds the colour, or none
    does and the cell keeps its word. *)
Lemma for_up_paint (c : Z) (f : Z -> option Z) (n : nat) (i : Z) (m : gmap Z Z) (k : Z) :
  let m' := for_up n i (fun j m => match f j with Some k => <[k := c]> m | None => m end) m in
  ((exists j, i <= j < i + Z.of_nat n /\ f j = Some k) /\ m' !! k = Some c) \/
  ((forall j, i <= j < i + Z.of_nat n -> f j <> Some k) /\ m' !! k = m !! k).
Proof.
  revert i m. induction n as [|n IH]; intros i m; simpl.
  - right. split; [lia|done].
  - destruct (IH (i + 1) (match f i with Some k => <[k := c]> m | None => m end))
      as [[(j & Hj & Hf) Hm]|[Hn Hm]].
    + left. split; [exists j; split; [lia|done]|done].
    + rewrite Hm. destruct (decide (f i = Some k)) as [Hi|Hi].
      * left. rewrite Hi, lookup_insert_eq. split; [exists i; split; [lia|done]|done].
      * right. split.
        -- intros j Hj. destruct (decide (j = i)) as [->|]; [done|]. apply Hn. lia.
        -- destruct (f i); [|done]. rewrite lookup_insert_ne; congruence.
Qed.

Section rows.
Context (c k : Z) (stop : Z -> bool) (row : Z -> gmap Z Z -> gmap Z Z) (hit : Z -> Prop).
Hypothesis row_paint : forall dy m,
  (hit dy /\ row dy m !! k = Some c) \/ (~ hit dy /\ row dy m !! k = m !! k).

Lemma for_brk_rows (n : nat) (i : Z) (m : gmap Z Z) :
  let m' := for_brk n i (fun dy m => if stop dy then (m, true) else (row dy m, false)) m in
  ((exists dy, i <= dy < i + Z.of_nat n /\ (forall d, i <= d <= dy -> stop d = false) /\ hit dy)
     /\ m' !! k = Some c) \/
  ((forall dy, i <= dy < i + Z.of_nat n -> (forall d, i <= d <= dy -> stop d = false) -> ~ hit dy)
     /\ m' !! k = m !! k).
Proof.
  revert i m. induction n as [|n IH]; intros i m; simpl.
  - right. split; [lia|done].
  - destruct (stop i) eqn:Hi.
    + right. split; [|done]. intros dy Hdy Hs. rewrite Hs in Hi by lia. done.
    + destruct (IH (i + 1) (row i m)) as [[(dy & Hdy & Hs & Hh) Hm]|[Hn Hm]].
      * left. split; [|done]. exists dy. split_and!; [lia|lia| |done].
        intros d Hd. destruct (decide (d = i)) as [->|]; [done|]. apply Hs. lia.
      * rewrite Hm. destruct (row_paint i m) as [[Hh ->]|[Hh ->]].
        -- left. split; [|done]. exists i. split_and!; [lia|lia| |done].
           intros d Hd. by replace d with i by lia.
        -- right. split; [|done]. intros dy Hdy Hs.
           destruct (decide (dy = i)) as [->|]; [done|]. apply Hn; [lia|].
           intros. apply Hs. lia.
Qed.
End rows.

(** The word painted by column [dx] of a row starting at [row]. *)
Definition rect_cell (x row dx : Z) : option Z :=
  if rect_sx x dx >=? SURF_W then None else Some (row + rect_sx x dx).

(** [vga_fill_rect] for arbitrary 32-bit arguments, in terms of the wrapped
    coordinates the loops compute. *)
Lemma vga_fill_rect_cells (x y w h color k : Z) (m : gmap Z Z) cs :
  exists m', vga_fill_rect x y w h color (PState (Some m) cs) = PState (Some m') cs /\
  let painted := exists dy, 0 <= dy < u32 (h * SCALE) /\
      (forall d, 0 <= d <= dy -> rect_sy y d < SURF_H) /\
      exists dx, 0 <= dx < u32 (w * SCALE) /\
        rect_cell x (u32 (rect_sy y dy * SURF_W)) dx = Some k in
  (painted /\ m' !! k = Some (palette color)) \/ (~ painted /\ m' !! k = m !! k).
Proof.
  eexists. split; [reflexivity|].
  pose proof (wrap_range 32 (h * SCALE) ltac:(lia)) as [Hh _].
  pose proof (wrap_range 32 (w * SCALE) ltac:(lia)) as [Hw _].
  set (row := fun (dy : Z) (m : gmap Z Z) => for_up (Z.to_nat (u32 (w * SCALE))) 0
     (fun dx (buf : gmap Z Z) => if rect_sx x dx >=? SURF_W then buf
        else <[u32 (rect_sy y dy * SURF_W) + rect_sx x dx := palette color]> buf) m).
  set (hit := fun dy => exists dx, 0 <= dx < u32 (w * SCALE) /\
     rect_cell x (u32 (rect_sy y dy * SURF_W)) dx = Some k).
  assert (Hrow : forall dy m, (hit dy /\ row dy m !! k = Some (palette color)) \/
                              (~ hit dy /\ row dy m !! k = m !! k)).
  { intros dy m0.
    assert (Heq : row dy m0 = for_up (Z.to_nat (u32 (w * SCALE))) 0
      (fun j m => match rect_cell x (u32 (rect_sy y dy * SURF_W)) j with
                  | Some k => <[k := palette color]> m | None => m end) m0).
    { unfold row. apply for_up_ext. intros j b. unfold rect_cell. by destruct (_ >=? _). }
    rewrite Heq. edestruct for_up_paint as [[(j & Hj & Hf) Hm]|[Hn Hm]]; [left|right].
    - split; [|exact Hm]. exists j. split; [lia|done].
    - split; [|exact Hm]. intros (dx & Hdx & Hf). eapply Hn; [|exact Hf]. lia. }
  edestruct (for_brk_rows (palette color) k (fun dy => rect_sy y dy >=? SURF_H) row hit Hrow)
    as [[(dy & Hdy & Hs & Hhit) Hm]|[Hn Hm]]; [left|right].
  - split; [|exact Hm]. exists dy. split_and!; [lia|lia| |done].
    intros d Hd. specialize (Hs d Hd). lia.
  - split; [|exact Hm]. intros (dy & Hdy & Hs & Hhit).
    eapply (Hn dy); [lia| |done]. intros d Hd. specialize (Hs d Hd). lia.
Qed.

(** A word index outside the 1024x768 surface. *)
Definition off_surface (k : Z) : Prop := ~ (0 <= k < SURF_W * SURF_H).

(** Memory safety of the rectangle fill for all 32-bit arguments, those whose
    scaled coordinates wrap around included: no word outside the surface is
    written, and every word written on it gets the palette colour. *)
Theorem vga_fill_rect_in_bounds (x y w h color k : Z) (m : gmap Z Z) cs :
  exists m', surface (vga_fill_rect x y w h color (PState (Some m) cs)) = Some m' /\
  calls (vga_fill_rect x y w h color (PState (Some m) cs)) = cs /\
  (m' !! k = m !! k \/ (~ off_surface k /\ m' !! k = Some (palette color))).
Proof.
  destruct (vga_fill_rect_cells x y w h color k m cs) as (m' & -> & Hm).
  exists m'. split_and!; [done|done|].
  destruct Hm as [[(dy & Hdy & Hs & dx & Hdx & Hc) Hm]|[_ Hm]]; [right|by left].
  split; [|done]. unfold off_surface. intros Hk. apply Hk. clear Hk Hm.
  specialize (Hs dy ltac:(lia)). unfold rect_cell in Hc.
  pose proof (wrap_range 32 (u32 (YOFF + u32 (y * SCALE)) + dy) ltac:(lia)) as [H1 _].
  pose proof (wrap_range 32 (u32 (XOFF + u32 (x * SCALE)) + dx) ltac:(lia)) as [H2 _].
  fold (rect_sy y dy) in H1. fold (rect_sx x dx) in H2.
  destruct (rect_sx x dx >=? SURF_W) eqn:Hx; [done|]. simplify_eq.
  unfold SURF_W, SURF_H in *.
  rewrite (wrap_small 32 (rect_sy y dy * 1024)) by (unfold in_u; lia). lia.
Qed.

(** C38: functional correctness of the rectangle fill when the scaled coordinates
    fit 32 bits: pixel [(sx, sy)] of the surface gets the colour exactly when it
    lies in the scaled, centred rectangle, and keeps its word otherwise. *)
Theorem vga_fill_rect_correct (x y w h color sx sy : Z) (m : gmap Z Z) cs
  (Hx : 0 <= x) (Hy : 0 <= y) (Hw : 0 <= w) (Hh : 0 <= h)
  (Hxw : XOFF + SCALE * (x + w) < 2 ^ 32) (Hyh : YOFF + SCALE * (y + h) < 2 ^ 32)
  (Hsx : 0 <= sx < SURF_W) (Hsy : 0 <= sy < SURF_H) :
  exists m', surface (vga_fill_rect x y w h color (PState (Some m) cs)) = Some m' /\
  m' !! (sy * SURF_W + sx) =
    if bool_decide (XOFF + SCALE * x <= sx < XOFF + SCALE * (x + w) /\
                    YOFF + SCALE * y <= sy < YOFF + SCALE * (y + h))
    then Some (palette color) else m !! (sy * SURF_W + sx).
Proof.
  destruct (vga_fill_rect_cells x y w h color (sy * SURF_W + sx) m cs) as (m' & -> & Hm).
  exists m'. split; [done|].
  change XOFF with 32 in *. change YOFF with 84 in *.
  unfold SCALE, SURF_W, SURF_H in *.
  rewrite (wrap_small 32 (h * 3)), (wrap_small 32 (w * 3)) in Hm by (unfold in_u; lia).
  assert (Hry : forall d, 0 <= d < h * 3 -> rect_sy y d = 84 + 3 * y + d).
  { intros d Hd. unfold rect_sy, SCALE. change YOFF with 84.
    autorewrite with cell. rewrite wrap_small by (unfold in_u; lia). lia. }
  assert (Hrx : forall d, 0 <= d < w * 3 -> rect_sx x d = 32 + 3 * x + d).
  { intros d Hd. unfold rect_sx, SCALE. change XOFF with 32.
    autorewrite with cell. rewrite wrap_small by (unfold in_u; lia). lia. }
  destruct Hm as [[(dy & Hdy & Hs & dx & Hdx & Hc) ->]|[Hn ->]].
  - rewrite bool_decide_true; [done|].
    specialize (Hs dy ltac:(lia)). unfold rect_cell, SURF_W in Hc.
    rewrite Hrx, Hry in * by lia.
    rewrite wrap_small in Hc by (unfold in_u; lia).
    destruct (_ >=? _) eqn:E in Hc; [done|]. simplify_eq. lia.
  - rewrite bool_decide_false; [done|]. intros [H1 H2]. apply Hn.
    exists (sy - 84 - 3 * y). split_and!; [lia|lia|intros; rewrite Hry; lia|].
    exists (sx - 32 - 3 * x). split; [lia|]. unfold rect_cell, SURF_W.
    rewrite Hrx, Hry by lia. rewrite wrap_small by (unfold in_u; lia).
    destruct (_ >=? _) eqn:E; [lia|]. f_equal. lia.
Qed.

Lemma vga_fill_rect_correct_witness :
  exists m', surface (vga_fill_rect 2 1 2 1 4 (PState (Some ∅) [])) = Some m' /\
  m' !! (88 * SURF_W + 40) = Some 0xFFAA0000.
Proof.
  destruct (vga_fill_rect_correct 2 1 2 1 4 40 88 ∅ []) as (m' & H1 & H2);
    try (vm_compute; done || (split; vm_compute; congruence)).
  exists m'. split; [exact H1|]. rewrite H2. vm_compute. reflexivity.
Defined.

(** ** Text *)

(** The glyph calls of a string drawn from [(x, y)]: one per byte, eight VGA
    pixels apart, scaled and centred. *)
Definition glyphs (x y : Z) (str : list Z) (color : Z) : list pcall :=
  imap (fun j c => DrawChar (u32 (XOFF + SCALE * (x + 8 * Z.of_nat j))) (u32 (YOFF + SCALE * y))
                            c (palette color)) str.

Lemma draw_chars_glyphs (x y : Z) (str rest : list Z) (color : Z) s :
  Forall (fun c => 0 < c < 256) str ->
  draw_chars x y (str ++ 0 :: rest) color s =
  PState (surface s) (calls s ++ glyphs x y str color).
Proof.
  unfold glyphs. intros Hs. revert x s. induction Hs as [|c str Hc Hs IH]; intros x s; simpl.
  - rewrite app_nil_r. by destruct s.
  - destruct (c =? 0) eqn:E; [lia|]. rewrite IH. simpl. f_equal.
    rewrite <- app_assoc. simpl. f_equal. f_equal.
    + unfold SCALE. autorewrite with cell. f_equal; [f_equal; lia..|].
      apply wrap_small. unfold in_u. lia.
    + apply imap_ext. intros j c' _. simpl. f_equal. unfold SCALE.
      wrap_eq.
Qed.

Lemma store_Some (buf : list Z) (i c : Z) :
  0 <= i < zlen buf -> store buf i c = Some (<[Z.to_nat i := c]> buf).
Proof. intros. unfold store. by rewrite (proj2 (Z.leb_le _ _)), (proj2 (Z.ltb_lt _ _)) by lia. Qed.

Lemma drop_insert_pred (buf : list Z) (i c : Z) :
  0 < i <= zlen buf ->
  drop (Z.to_nat (i - 1)) (<[Z.to_nat (i - 1) := c]> buf) = c :: drop (Z.to_nat i) buf.
Proof.
  intros Hi. replace (Z.to_nat i) with (S (Z.to_nat (i - 1))) by lia.
  rewrite (drop_S _ c); [by rewrite drop_insert_lt by lia|].
  apply list_lookup_insert_eq. lia.
Qed.

(** The conversion loop stores the decimal digits of [num] below [i]. *)
Lemma number_loop_digits (fuel : nat) (buf : list Z) (i num : Z) :
  0 < num < 2 ^ Z.of_nat fuel -> zlen (digits 10 num) <= i <= zlen buf ->
  exists buf' i', number_loop fuel buf i num = Some (buf', i') /\ 0 <= i' /\
    length buf' = length buf /\
    drop (Z.to_nat i') buf' =
      reverse (map (fun d => 48 + d) (digits 10 num)) ++ drop (Z.to_nat i) buf.
Proof.
  revert buf i num. induction fuel as [|fuel IH]; intros buf i num Hn Hi.
  { change (2 ^ Z.of_nat 0) with 1 in Hn. lia. }
  cbn [number_loop]. destruct (num >? 0) eqn:E; [|lia]. clear E.
  rewrite digits_eq in * by lia. cbn [length map] in *.
  pose proof (Z.mod_pos_bound num 10 ltac:(lia)) as Hm.
  rewrite wrap_small by (unfold in_u; lia).
  assert (0 <= num / 10) by (apply Z.div_pos; lia).
  rewrite store_Some by (destruct (num / 10 =? 0) in Hi; cbn [length] in Hi; lia).
  cbn [mbind option_bind]. destruct (num / 10 =? 0) eqn:E; cbn [length] in Hi.
  - apply Z.eqb_eq in E. rewrite E. exists (<[Z.to_nat (i - 1) := 48 + num mod 10]> buf), (i - 1).
    split_and!; [by destruct fuel|lia|by rewrite length_insert|].
    by rewrite drop_insert_pred by lia.
  - apply Z.eqb_neq in E.
    destruct (IH (<[Z.to_nat (i - 1) := 48 + num mod 10]> buf) (i - 1) (num / 10))
      as (buf' & i' & -> & Hi' & Hl & Hd).
    { split; [lia|]. apply div_halves; [lia|]. lia. }
    { rewrite length_insert. lia. }
    exists buf', i'. rewrite length_insert in Hl. split_and!; [done|done|done|].
    rewrite Hd, drop_insert_pred by lia.
    by rewrite reverse_cons, <- app_assoc.
Qed.

(** [vga_draw_number] never stores outside its 12-byte buffer, terminates for
    every 32-bit number, and draws exactly the decimal digits of [num], most
    significant first, eight VGA pixels apart, leaving the surface alone. *)
Theorem vga_draw_number_correct (x y num color : Z) (s : pstate) (Hnum : in_u 32 num) :
  vga_draw_number x y num color s =
  Some (PState (surface s)
          (calls s ++ glyphs x y (reverse (map (fun d => 48 + d) (digits 10 num))) color)).
Proof.
  unfold vga_draw_number, in_u in *. rewrite store_Some by done. cbn [mbind option_bind].
  change (<[Z.to_nat 11 := 0]> (replicate 12 0)) with (replicate 12 0).
  destruct (num =? 0) eqn:E.
  - apply Z.eqb_eq in E. subst num. rewrite store_Some by done. cbn [mbind option_bind].
    change (drop (Z.to_nat 10) (<[Z.to_nat 10 := 48]> (replicate 12 0))) with ([48] ++ 0 :: []).
    f_equal.
    apply (draw_chars_glyphs x y [48] []). by repeat constructor.
  - apply Z.eqb_neq in E.
    destruct (number_loop_digits 32 (replicate 12 0) 11 num) as (buf' & i' & -> & _ & _ & Hd).
    { change (2 ^ Z.of_nat 32) with (2 ^ 32). lia. }
    { split; [|done]. apply (Nat2Z.inj_le _ 11). apply digits_length; [lia| |lia].
      change (10 ^ Z.of_nat 11) with 100000000000. lia. }
    cbn [mbind option_bind vga_draw_string]. rewrite Hd. f_equal.
    change (drop (Z.to_nat 11) (replicate 12 0)) with (0 :: @nil Z).
    apply draw_chars_glyphs, Forall_reverse, Forall_map.
    eapply Forall_impl; [apply digits_range; lia|]. simpl. intros. lia.
Qed.

Lemma vga_draw_number_correct_witness :
  in_u 32 4096 /\ exists s', vga_draw_number 0 0 4096 7 (PState None []) = Some s' /\
  length (calls s') = 4%nat.
Proof.
  assert (H : in_u 32 4096) by (vm_compute; split; congruence).
  split; [exact H|]. eexists. split; [exact (vga_draw_number_correct 0 0 4096 7 _ H)|].
  vm_compute. reflexivity.
Defined.

End Platform.
