(* ===== verification/Sysdeps.v ===== *)
(** * The mlibc system layer, [third_party/mlibc/sysdeps/vicell]

    The sysdeps through which mlibc reaches the ViCell kernel: files, clock,
    futex, process exit, and the bump allocator that backs anonymous memory.
    The kernel behind [vicell_syscall] is an interface, [Kernel]; the cell's
    memory is a finite map from addresses to bytes. *)

From S2P Require Import Prelude.

Module Sysdeps.

(** ** Constants *)

(** [abi-bits/errno.h] *)
Inductive errno :=
  | EPERM | ENOENT | ESRCH | EINTR | EIO | ENXIO | ENOEXEC | EBADF | ENOMEM | EACCES
  | EFAULT | EBUSY | EEXIST | EXDEV | ENODEV | ENOTDIR | EISDIR | EINVAL | ENFILE
  | EMFILE | ENOSPC | ESPIPE | ERANGE | ENOSYS | ELOOP | ENAMETOOLONG | ENOTEMPTY
  | EOVERFLOW | EILSEQ | ENOTSUP.

Definition errno_code (e : errno) : Z :=
  match e with
  | EPERM => 1 | ENOENT => 2 | ESRCH => 3 | EINTR => 4 | EIO => 5 | ENXIO => 6
  | ENOEXEC => 8 | EBADF => 9 | ENOMEM => 12 | EACCES => 13 | EFAULT => 14
  | EBUSY => 16 | EEXIST => 17 | EXDEV => 18 | ENODEV => 19 | ENOTDIR => 20
  | EISDIR => 21 | EINVAL => 22 | ENFILE => 23 | EMFILE => 24 | ENOSPC => 28
  | ESPIPE => 29 | ERANGE => 34 | ENOSYS => 38 | ELOOP => 40 | ENAMETOOLONG => 36
  | ENOTEMPTY => 39 | EOVERFLOW => 75 | EILSEQ => 84 | ENOTSUP => 134
  end.

#[export] Instance errno_eq_dec : EqDecision errno.
Proof. solve_decision. Defined.

(** [vicell/syscall.h] *)
Definition VI_SYS_EXIT : Z := 60.
Definition VI_SYS_LOG : Z := 11.
Definition VI_SYS_OPEN : Z := 101.
Definition VI_SYS_READ : Z := 102.
Definition VI_SYS_CLOSE : Z := 103.
Definition VI_SYS_SEEK : Z := 106.
Definition VI_SYS_WRITE : Z := 109.
Definition VI_SYS_GETTIME : Z := 120.
Definition VI_SYS_YIELD : Z := 104.
Definition VI_GETTIME_TICKS : Z := 0.
Definition VI_GETTIME_NS : Z := 2.
Definition VI_SYSCALL_ERR : Z := -1.

(** [abi-bits/vm-flags.h] *)
Definition MAP_ANONYMOUS : Z := 0x20.

Definition ARENA_SIZE : Z := 4 * 1024 * 1024.

(** ** The kernel interface *)

(** One trap: the opcode, four arguments, and the value left in the return
    register, a 64-bit [long]. *)
Class Kernel (K : Type) := {
  vicell_syscall : Z -> Z -> Z -> Z -> Z -> K -> K * Z;
  vicell_syscall_long : forall id a0 a1 a2 a3 k, in_s 64 (vicell_syscall id a0 a1 a2 a3 k).2
}.

(** ** State *)

Record cell (K : Type) := Cell {
  kst : K;              (* the kernel *)
  mem : gmap Z Z;       (* the cell's bytes *)
  arena_offset : Z;
  tcb : Z               (* the thread pointer register *)
}.
Arguments Cell {K}. Arguments kst {K}. Arguments mem {K}.
Arguments arena_offset {K}. Arguments tcb {K}.

(** A C string: its address and its bytes, the terminating zero not included. *)
Record cstr := CStr { addr : Z; chars : list Z }.

Section sysdeps.
Context {K : Type} `{Kernel K}.
(** The address of the static [arena] array and of the two literals the code
    logs. *)
Context (arena : Z) (panic_msg exhausted_msg : cstr).

(** [while (s[n]) n++;] *)
Fixpoint vi_strlen (s : list Z) : Z :=
  match s with
  | [] => 0
  | c :: s' => if c =? 0 then 0 else vi_strlen s' + 1
  end.

(** [while (n--) *p++ = (unsigned char)val;] *)
Definition vi_memset (dst val n : Z) (m : gmap Z Z) : gmap Z Z :=
  for_up (Z.to_nat n) 0 (fun i m => <[dst + i := u8 val]> m) m.

Definition trap (id a0 a1 a2 a3 : Z) (c : cell K) : cell K * Z :=
  let '(k, r) := vicell_syscall id a0 a1 a2 a3 (kst c) in
  (Cell k (mem c) (arena_offset c) (tcb c), r).

Definition sys_libc_log (message : cstr) (c : cell K) : cell K :=
  (trap VI_SYS_LOG (addr message) (vi_strlen (chars message)) 0 0 c).1.

Definition sys_exit (status : Z) (c : cell K) : cell K :=
  (trap VI_SYS_EXIT status 0 0 0 c).1.

Definition sys_libc_panic (c : cell K) : cell K :=
  (trap VI_SYS_EXIT 1 0 0 0 (sys_libc_log panic_msg c)).1.

Definition sys_tcb_set (pointer : Z) (c : cell K) : cell K * Z :=
  (Cell (kst c) (mem c) (arena_offset c) pointer, 0).

(** The [int] at an address of a little-endian memory. *)
Definition load_int (m : gmap Z Z) (pointer : Z) : option Z :=
  b0 ← m !! pointer; b1 ← m !! (pointer + 1); b2 ← m !! (pointer + 2); b3 ← m !! (pointer + 3);
  Some (s32 (b0 + 2 ^ 8 * b1 + 2 ^ 16 * b2 + 2 ^ 24 * b3)).

(** The spin loop of [sys_futex_wait]: [shared n] is the memory at the [n]-th atomic
    load, as the rest of the system has left it.  [None]: nothing at the address, or
    still spinning when the fuel ends. *)
Fixpoint sys_futex_wait (fuel : nat) (shared : nat -> gmap Z Z) (pointer expected : Z) (n : nat) (c : cell K)
  : option (cell K * Z) :=
  match fuel with
  | O => None
  | S fuel' =>
      v ← load_int (shared n) pointer;
      if v =? expected
      then sys_futex_wait fuel' shared pointer expected (S n) (trap VI_SYS_YIELD 0 0 0 0 c).1
      else Some (c, 0)
  end.

Definition sys_futex_wake (c : cell K) : cell K * Z := (c, 0).

(** The file calls return the errno, or the value stored through the pointer. *)
Definition sys_open (pathname : cstr) (flags mode : Z) (c : cell K) : cell K * (errno + Z) :=
  let len := vi_strlen (chars pathname) in
  let '(c, ret) := trap VI_SYS_OPEN (addr pathname) len flags (u32 mode) c in
  if ret =? VI_SYSCALL_ERR then (c, inl ENOENT) else (c, inr (s32 ret)).

Definition sys_read (fdi buf count : Z) (c : cell K) : cell K * (errno + Z) :=
  let '(c, ret) := trap VI_SYS_READ fdi buf count 0 c in
  if ret =? VI_SYSCALL_ERR then (c, inl EIO) else (c, inr ret).

Definition sys_write (fdi buf count : Z) (c : cell K) : cell K * (errno + Z) :=
  let '(c, ret) := trap VI_SYS_WRITE fdi buf count 0 c in
  if ret =? VI_SYSCALL_ERR then (c, inl EIO) else (c, inr ret).

Definition sys_close (fdi : Z) (c : cell K) : cell K * option errno :=
  let '(c, ret) := trap VI_SYS_CLOSE fdi 0 0 0 c in
  if ret =? VI_SYSCALL_ERR then (c, Some EBADF) else (c, None).

Definition sys_seek (fdi offset whence : Z) (c : cell K) : cell K * (errno + Z) :=
  let '(c, ret) := trap VI_SYS_SEEK fdi offset whence 0 c in
  if ret =? VI_SYSCALL_ERR then (c, inl ESPIPE) else (c, inr ret).

(** [ticks * 100LL] is signed 64-bit arithmetic, [None] if it overflows; [/] and [%]
    truncate. *)
Definition sys_clock_get (clock : Z) (c : cell K) : option (cell K * (errno + Z * Z)) :=
  let finish '(c, ns) :=
    if ns <? 0 then (c, inl EIO)
    else (c, inr (Z.quot ns 1000000000, Z.rem ns 1000000000)) in
  if clock =? 0 then Some (finish (trap VI_SYS_GETTIME VI_GETTIME_NS 0 0 0 c))
  else if clock =? 1 then
    let '(c, ticks) := trap VI_SYS_GETTIME VI_GETTIME_TICKS 0 0 0 c in
    if bool_decide (in_s 64 (ticks * 100)) then Some (finish (c, ticks * 100)) else None
  else Some (c, inl EINVAL).

(** [size_t] is 64 bits wide on both targets. *)
Definition sys_anon_allocate (size : Z) (c : cell K) : cell K * (errno + Z) :=
  let aligned := Z.land (u64 (size + 15)) (u64 (Z.lnot 15)) in
  if u64 (arena_offset c + aligned) >? ARENA_SIZE then
    (sys_libc_log exhausted_msg c, inl ENOMEM)
  else
    let ptr := arena + arena_offset c in
    let off := u64 (arena_offset c + aligned) in
    (Cell (kst c) (vi_memset ptr 0 size (mem c)) off (tcb c), inr ptr).

Definition sys_anon_free (pointer size : Z) (c : cell K) : cell K * option errno := (c, None).

Definition sys_vm_map (size flags : Z) (c : cell K) : cell K * (errno + Z) :=
  if Z.land flags MAP_ANONYMOUS =? 0 then (c, inl EINVAL) else sys_anon_allocate size c.

Definition sys_vm_unmap (pointer size : Z) (c : cell K) : cell K * option errno :=
  sys_anon_free pointer size c.

Definition sys_isatty (fd : Z) : bool := (fd >=? 0) && (fd <=? 2).

(** [generic/entry.cpp]: run [main] and exit with its result. *)
Definition libc_start_main (main_fn : cell K -> cell K * Z) (c : cell K) : cell K :=
  let '(c, ret) := main_fn c in sys_exit ret c.

(** ** The arena *)

(** The invariant of the bump pointer. *)
Definition arena_ok (c : cell K) : Prop :=
  0 <= arena_offset c <= ARENA_SIZE /\ (16 | arena_offset c).

(** A request rounded up to 16 bytes. *)
Definition round16 (size : Z) : Z := (size + 15) / 16 * 16.

Lemma round16_spec (size : Z) :
  size <= round16 size < size + 16 /\ (16 | round16 size).
Proof.
  unfold round16. pose proof (Z.div_mod (size + 15) 16 ltac:(lia)).
  pose proof (Z.mod_pos_bound (size + 15) 16 ltac:(lia)).
  split; [lia|]. by exists ((size + 15) / 16).
Qed.

Lemma aligned_round16 (size : Z) :
  0 <= size -> size + 15 < 2 ^ 64 ->
  Z.land (u64 (size + 15)) (u64 (Z.lnot 15)) = round16 size.
Proof.
  intros H0 H1. change 15 with (2 ^ 4 - 1) at 2.
  rewrite (wrap_small 64 (size + 15)) by (unfold in_u; lia).
  apply (land_align 64 4); [lia|]. unfold in_u. lia.
Qed.

Lemma vi_memset_lookup (dst val n : Z) (m : gmap Z Z) (a : Z) :
  0 <= n ->
  vi_memset dst val n m !! a =
  if bool_decide (dst <= a < dst + n) then Some (u8 val) else m !! a.
Proof.
  intros Hn. unfold vi_memset.
  pose proof (for_up_inv (fun i m' => m' !! a =
    if bool_decide (dst <= a < dst + i) then Some (u8 val) else m !! a)
    (Z.to_nat n) 0 (fun i m => <[dst + i := u8 val]> m) m) as Hinv.
  rewrite Z2Nat.id in Hinv by done. apply Hinv.
  - by rewrite bool_decide_false by lia.
  - intros j m' Hj Hm. destruct (decide (a = dst + j)) as [->|].
    + rewrite lookup_insert_eq. by rewrite bool_decide_true by lia.
    + rewrite lookup_insert_ne by done. rewrite Hm.
      destruct (decide (dst <= a < dst + j)).
      * by rewrite !bool_decide_true by lia.
      * by rewrite !bool_decide_false by lia.
Qed.

Lemma sys_anon_allocate_spec (size : Z) (c : cell K)
  (Hsz : 0 <= size <= 2 ^ 64 - 16 - ARENA_SIZE) (Hok : arena_ok c) :
  let '(c', r) := sys_anon_allocate size c in
  arena_ok c' /\
  match r with
  | inl e => e = ENOMEM /\ ARENA_SIZE < arena_offset c + round16 size /\
             mem c' = mem c /\ arena_offset c' = arena_offset c
  | inr p => p = arena + arena_offset c /\ (16 | p - arena) /\
             arena_offset c' = arena_offset c + round16 size /\
             p + size <= arena + ARENA_SIZE /\
             forall a, mem c' !! a = if bool_decide (p <= a < p + size) then Some 0 else mem c !! a
  end.
Proof.
  destruct Hok as [Hoff Hdiv]. pose proof (round16_spec size) as [Hr Hr16].
  unfold sys_anon_allocate, ARENA_SIZE in *. rewrite aligned_round16 by lia.
  rewrite wrap_small by (unfold in_u; lia).
  destruct (_ >? _) eqn:E.
  - unfold sys_libc_log, trap. destruct (vicell_syscall _ _ _ _ _ _) as [k r].
    unfold arena_ok, ARENA_SIZE. simpl. split_and!; [lia|lia|done|done|lia|done|done].
  - unfold arena_ok, ARENA_SIZE. simpl.
    split_and!; [lia|lia|by apply Z.divide_add_r|done| |done|lia|].
    + by replace (arena + arena_offset c - arena) with (arena_offset c) by lia.
    + intros a. rewrite vi_memset_lookup by lia. done.
Qed.

(** C37: an anonymous allocation of at most 2^64 - 16 - 4 MB bytes, beyond
    which the sums wrap around ([sys_anon_allocate_overflow]), either fails
    with ENOMEM, exactly when the rounded request does not fit, leaving
    memory and arena alone, or returns the bump address, at a multiple of 16
    from the start of the arena (the arena is a char array, whose own
    alignment the source does not fix); the whole block lies in the arena,
    is zeroed, no other byte changes, and the invariant is kept. *)
Theorem sys_anon_allocate_correct (size : Z) (c : cell K)
  (Hsz : 0 <= size <= 2 ^ 64 - 16 - ARENA_SIZE) (Hok : arena_ok c) :
  let '(c', r) := sys_anon_allocate size c in
  arena_ok c' /\
  match r with
  | inl e => e = ENOMEM /\ ARENA_SIZE < arena_offset c + round16 size /\
             mem c' = mem c /\ arena_offset c' = arena_offset c
  | inr p => p = arena + arena_offset c /\ (16 | p - arena) /\
             arena_offset c' = arena_offset c + round16 size /\
             p + size <= arena + ARENA_SIZE /\
             forall a, mem c' !! a = if bool_decide (p <= a < p + size) then Some 0 else mem c !! a
  end.
Proof. by apply sys_anon_allocate_spec. Qed.

Lemma sys_anon_allocate_block (size : Z) (c : cell K)
  (Hsz : 0 <= size <= 2 ^ 64 - 16 - ARENA_SIZE) (Hok : arena_ok c) :
  let '(c', r) := sys_anon_allocate size c in
  arena_ok c' /\ arena_offset c <= arena_offset c' /\
  match r with
  | inl _ => True
  | inr p => p = arena + arena_offset c /\ p + size <= arena + arena_offset c' /\
             p + size <= arena + ARENA_SIZE
  end.
Proof.
  destruct (sys_anon_allocate size c) as [c' r] eqn:E.
  pose proof (sys_anon_allocate_spec size c Hsz Hok) as Hs. rewrite E in Hs.
  pose proof (round16_spec size) as [Hr _].
  destruct Hs as [Hok' Hs]. split; [done|]. destruct r as [e|p]; [|split_and!]; lia.
Qed.

(** Consecutive requests: the granted blocks, address and size. *)
Fixpoint alloc_all (sizes : list Z) (c : cell K) : cell K * list (Z * Z) :=
  match sizes with
  | [] => (c, [])
  | size :: sizes' =>
      let '(c1, r) := sys_anon_allocate size c in
      let '(c2, bs) := alloc_all sizes' c1 in
      (c2, match r with inl _ => bs | inr p => (p, size) :: bs end)
  end.

(** A block that ends at or before the start of another. *)
Definition before (b1 b2 : Z * Z) : Prop := b1.1 + b1.2 <= b2.1.

(** A block that lies in the arena from offset [lo] on. *)
Definition in_arena (lo : Z) (b : Z * Z) : Prop :=
  arena + lo <= b.1 /\ b.1 + b.2 <= arena + ARENA_SIZE.

(** The blocks granted by any sequence of requests, failed ones in
    between included, are pairwise disjoint, in ascending order, and all
    inside the arena above the starting offset. *)
Theorem anon_blocks_disjoint (sizes : list Z) (c : cell K)
  (Hsz : Forall (fun size => 0 <= size <= 2 ^ 64 - 16 - ARENA_SIZE) sizes) (Hok : arena_ok c) :
  let '(c', bs) := alloc_all sizes c in
  arena_ok c' /\ Forall (in_arena (arena_offset c)) bs /\ StronglySorted before bs.
Proof.
  revert c Hok. induction Hsz as [|size sizes Hs _ IH]; intros c Hok; simpl.
  { split_and!; [done|constructor|constructor]. }
  pose proof (sys_anon_allocate_block size c Hs Hok) as Hb.
  destruct (sys_anon_allocate size c) as [c1 r]. destruct Hb as (Hok1 & Hge & Hr).
  specialize (IH c1 Hok1). destruct (alloc_all sizes c1) as [c2 bs].
  destruct IH as (Hok2 & Hin & Hsort).
  assert (Hin' : Forall (in_arena (arena_offset c)) bs).
  { eapply Forall_impl; [exact Hin|]. unfold in_arena. intros b. lia. }
  destruct r as [e|q]; [done|]. destruct Hr as (Hq & Hend).
  split_and!; [done| |].
  - constructor; [|done]. unfold in_arena; simpl. lia.
  - constructor; [done|]. eapply Forall_impl; [exact Hin|].
    unfold in_arena, before; simpl. intros b. lia.
Qed.

(** Near the top of [size_t] the rounding wraps around: a request of
    [2^64 - 1] bytes is granted although the arena is 4 MB, and the clearing
    loop zeroes bytes past the end of the arena. *)
Theorem sys_anon_allocate_overflow (c : cell K) (Hok : arena_ok c) :
  let '(c', r) := sys_anon_allocate (2 ^ 64 - 1) c in
  r = inr (arena + arena_offset c) /\ arena_offset c' = arena_offset c /\
  mem c' !! (arena + ARENA_SIZE) = Some 0.
Proof.
  destruct Hok as [Hoff _]. unfold sys_anon_allocate.
  change (u64 (2 ^ 64 - 1 + 15)) with 14.
  change (Z.land 14 (u64 (Z.lnot 15))) with 0. rewrite Z.add_0_r.
  rewrite wrap_small by (unfold in_u, ARENA_SIZE in *; lia).
  destruct (_ >? _) eqn:E; [lia|]. cbn [mem arena_offset]. split_and!; [done|done|].
  rewrite vi_memset_lookup by lia.
  rewrite bool_decide_true; [done|]. unfold ARENA_SIZE in *. lia.
Qed.

(** ** Clock *)

Lemma clock_split (ns : Z) :
  0 <= ns ->
  Z.quot ns 1000000000 * 1000000000 + Z.rem ns 1000000000 = ns /\
  0 <= Z.quot ns 1000000000 /\ 0 <= Z.rem ns 1000000000 < 1000000000.
Proof.
  intros Hn. rewrite Z.quot_div_nonneg, Z.rem_mod_nonneg by lia.
  pose proof (Z.div_mod ns 1000000000 ltac:(lia)).
  pose proof (Z.mod_pos_bound ns 1000000000 ltac:(lia)).
  split_and!; [lia|apply Z.div_pos; lia|lia|lia].
Qed.

(** A successful clock read splits the nanosecond count exactly: seconds
    and a nanosecond part in [0, 10^9); an unknown clock gives EINVAL without a
    trap, a negative count gives EIO.  A count of ticks that is too large, after some
    2900 years, is undefined. *)
Theorem sys_clock_get_correct (clock : Z) (c : cell K) :
  let ns :=
    if clock =? 0 then (trap VI_SYS_GETTIME VI_GETTIME_NS 0 0 0 c).2
    else (trap VI_SYS_GETTIME VI_GETTIME_TICKS 0 0 0 c).2 * 100 in
  match sys_clock_get clock c with
  | Some (_, inr (secs, nanos)) => (clock = 0 \/ clock = 1) /\ secs * 1000000000 + nanos = ns /\
      0 <= secs /\ 0 <= nanos < 1000000000
  | Some (c', inl e) => (e = EINVAL /\ clock <> 0 /\ clock <> 1 /\ c' = c) \/
             (e = EIO /\ (clock = 0 \/ clock = 1) /\ ns < 0)
  | None => clock = 1 /\ ~ in_s 64 ns
  end.
Proof.
  unfold sys_clock_get.
  destruct (clock =? 0) eqn:E0; [|destruct (clock =? 1) eqn:E1]; cbn [fst snd].
  - destruct (trap _ _ _ _ _ _) as [c1 ns]. simpl. destruct (ns <? 0) eqn:En; simpl.
    + right. split_and!; [done|lia|lia].
    + split_and!; [lia|apply clock_split; lia..].
  - destruct (trap _ _ _ _ _ _) as [c1 t]. cbn [snd]. case_bool_decide; [|split; [lia|done]].
    destruct (_ <? 0) eqn:En; cbn [snd fst].
    + right. split_and!; [done|lia|lia].
    + split_and!; [lia|apply clock_split; lia..].
  - left. split_and!; [done|lia|lia|done].
Qed.
End sysdeps.

(** ** Constants *)

(** The errno values are pairwise distinct and positive, so an error is never
    confused with another one or with success. *)
Theorem errno_code_inj (e1 e2 : errno) :
  0 < errno_code e1 /\ (errno_code e1 = errno_code e2 <-> e1 = e2).
Proof. split; [by destruct e1|]. split; [|by intros ->]. destruct e1, e2; done. Qed.

(** ** A kernel that records its calls, for the witnesses *)

#[export] Instance trace_kernel : Kernel (list (Z * Z)).
Proof.
  refine {| vicell_syscall id a0 _ _ _ k := ((id, a0) :: k, 0) |}.
  intros. split; vm_compute; congruence.
Defined.

Definition start : cell (list (Z * Z)) := Cell [] ∅ 32 0.

Lemma start_ok : arena_ok start.
Proof. split; [vm_compute; split; congruence|]. by exists 2. Qed.

Lemma sys_anon_allocate_correct_witness :
  (sys_anon_allocate 0x10000 (CStr 0 []) 20 start).2 = inr (0x10000 + 32) /\
  arena_ok (sys_anon_allocate 0x10000 (CStr 0 []) 20 start).1.
Proof.
  split; [vm_compute; reflexivity|].
  pose proof (sys_anon_allocate_correct 0x10000 (CStr 0 []) 20 start
    ltac:(unfold ARENA_SIZE; lia) start_ok) as Hc.
  destruct (sys_anon_allocate _ _ _ _) as [c r]. exact (proj1 Hc).
Defined.

Lemma anon_blocks_disjoint_witness :
  (alloc_all 0x10000 (CStr 0 []) [20; 5000000; 7] start).2 = [(0x10020, 20); (0x10040, 7)] /\
  StronglySorted before (alloc_all 0x10000 (CStr 0 []) [20; 5000000; 7] start).2.
Proof.
  split; [vm_compute; reflexivity|].
  pose proof (anon_blocks_disjoint 0x10000 (CStr 0 []) [20; 5000000; 7] start
    ltac:(unfold ARENA_SIZE; repeat constructor; lia) start_ok) as Hc.
  destruct (alloc_all _ _ _ _) as [c r]. exact (proj2 (proj2 Hc)).
Defined.

Lemma sys_anon_allocate_overflow_witness :
  arena_offset start = 32 /\
  (sys_anon_allocate 0x10000 (CStr 0 []) (2 ^ 64 - 1) start).2 = inr (0x10000 + 32).
Proof.
  split; [reflexivity|].
  pose proof (sys_anon_allocate_overflow 0x10000 (CStr 0 []) start start_ok) as Hc.
  destruct (sys_anon_allocate _ _ _ _) as [c r]. exact (proj1 Hc).
Defined.

End Sysdeps.
