(* ===== verification/Glue.v ===== *)
(** * The Lua glue layer, [cells/runtimes/lua/glue/lua_vios_glue.c]

    What the Lua cell needs beyond C89: serial output, [abort], the heap break
    over a static 8 MB arena, and the failing POSIX stubs. *)

From S2P Require Import Prelude.

Module Glue.

(** ** State *)

(** Calls into the POSIX shim, in order. *)
Inductive shim_call :=
  | Write (fd : Z) (buf : list Z) (count : Z)
  | Exit (status : Z).

Record glue := GlueSt {
  vios_heap_used : Z;
  shim : list shim_call
}.

Definition VIOS_HEAP_BYTES : Z := 8 * 1024 * 1024.

(** ** Operations *)

(** [s] is NULL or the bytes it points to; the count is truncated to
    [unsigned int]. *)
Definition vios_write (s : option (list Z)) (n : Z) (g : glue) : glue :=
  match s with
  | Some buf => if n >? 0 then GlueSt (vios_heap_used g) (shim g ++ [Write 1 buf (u32 n)]) else g
  | None => g
  end.

(** [abort] never returns: it exits and then spins. *)
Definition abort (g : glue) : glue := GlueSt (vios_heap_used g) (shim g ++ [Exit 1]).

(** [size_t] and [ptrdiff_t] are 64 bits wide.  The result is the offset of the
    returned address in [vios_heap]; [None] is [(void * )-1]. *)
Definition wrap_sbrk (incr : Z) (g : glue) : glue * option Z :=
  let prev := vios_heap_used g in
  if incr <? 0 then
    let dec := u64 (- incr) in
    let used := if dec >? prev then 0 else prev - dec in
    (GlueSt used (shim g), Some used)
  else if u64 (prev + u64 incr) >? VIOS_HEAP_BYTES then (g, None)
  else (GlueSt (u64 (prev + u64 incr)) (shim g), Some prev).

Definition system (cmd : Z) : Z := -1.
Definition getenv (name : Z) : Z := 0.
Definition tmpnam (s : Z) : Z := 0.
Definition tmpfile : Z := 0.

(** ** The break *)

Definition break_ok (g : glue) : Prop := 0 <= vios_heap_used g <= VIOS_HEAP_BYTES.

Lemma wrap_sbrk_cases (incr : Z) (g : glue) :
  in_s 64 incr -> break_ok g ->
  wrap_sbrk incr g =
    if incr <? 0 then (GlueSt (Z.max 0 (vios_heap_used g + incr)) (shim g),
                       Some (Z.max 0 (vios_heap_used g + incr)))
    else if vios_heap_used g + incr >? VIOS_HEAP_BYTES then (g, None)
    else (GlueSt (vios_heap_used g + incr) (shim g), Some (vios_heap_used g)).
Proof.
  unfold break_ok, wrap_sbrk, in_s, VIOS_HEAP_BYTES. intros Hi Hg.
  destruct (incr <? 0) eqn:E.
  - rewrite wrap_small by (unfold in_u; lia).
    destruct (_ >? _) eqn:E2; repeat f_equal; lia.
  - rewrite (wrap_small 64 incr) by (unfold in_u; lia).
    by rewrite wrap_small by (unfold in_u; lia).
Qed.

(** [__wrap__sbrk] keeps the break inside the arena for every increment; a
    non-negative one grants the [incr] bytes above the old break and returns
    that old break, or fails with the state unchanged exactly when they do not
    fit. *)
Theorem wrap_sbrk_correct (incr : Z) (g : glue) (Hi : in_s 64 incr) (Hg : break_ok g) :
  let '(g', r) := wrap_sbrk incr g in
  break_ok g' /\ shim g' = shim g /\
  (0 <= incr ->
     if bool_decide (vios_heap_used g + incr <= VIOS_HEAP_BYTES)
     then r = Some (vios_heap_used g) /\ vios_heap_used g' = vios_heap_used g + incr
     else r = None /\ g' = g).
Proof.
  rewrite wrap_sbrk_cases by done. unfold break_ok in *.
  destruct (incr <? 0) eqn:E; [|destruct (_ >? _) eqn:E2].
  - simpl. split_and!; [lia|unfold VIOS_HEAP_BYTES in *; lia|done|lia].
  - split_and!; [lia|lia|done|]. intros _. by rewrite bool_decide_false by lia.
  - simpl. split_and!; [lia|lia|done|]. intros _. by rewrite bool_decide_true by lia.
Qed.

(** A shrink returns the new break, not the previous one that the contract
    in the comment above the function promises. *)
Theorem wrap_sbrk_shrink (incr : Z) (g : glue)
  (Hi : in_s 64 incr) (Hneg : incr < 0) (Hg : break_ok g) (Hused : 0 < vios_heap_used g) :
  exists off, (wrap_sbrk incr g).2 = Some off /\ off = vios_heap_used (wrap_sbrk incr g).1 /\
  off < vios_heap_used g.
Proof.
  rewrite wrap_sbrk_cases by done. rewrite (proj2 (Z.ltb_lt _ _)) by done.
  eexists. simpl. split_and!; [done|done|lia].
Qed.

(** A run of increments and the blocks granted by the successful growths. *)
Fixpoint sbrk_all (incrs : list Z) (g : glue) : glue * list (Z * Z) :=
  match incrs with
  | [] => (g, [])
  | incr :: incrs' =>
      let '(g1, r) := wrap_sbrk incr g in
      let '(g2, bs) := sbrk_all incrs' g1 in
      (g2, match r with Some p => (p, incr) :: bs | None => bs end)
  end.

(** The blocks granted by a run of growths are contiguous: each one starts
    where the previous one ended, the last one ends at the break, and all of
    them lie in the arena. *)
Theorem sbrk_blocks_contiguous (incrs : list Z) (g : glue)
  (Hi : Forall (fun i => 0 <= i < 2 ^ 63) incrs) (Hg : break_ok g) :
  let '(g', bs) := sbrk_all incrs g in
  break_ok g' /\
  foldl (fun brk b => if b.1 =? brk then brk + b.2 else -1) (vios_heap_used g) bs
    = vios_heap_used g'.
Proof.
  revert g Hg. induction Hi as [|i incrs Hi _ IH]; intros g Hg; simpl; [done|].
  rewrite wrap_sbrk_cases by (done || (unfold in_s; lia)).
  rewrite (proj2 (Z.ltb_ge _ _)) by lia. destruct (_ >? _) eqn:E.
  - specialize (IH g Hg). by destruct (sbrk_all incrs g).
  - specialize (IH (GlueSt (vios_heap_used g + i) (shim g))).
    destruct (sbrk_all incrs _) as [g' bs]. simpl. rewrite Z.eqb_refl.
    apply IH. unfold break_ok in *. simpl. lia.
Qed.

Definition fresh : glue := GlueSt 0 [].

Lemma wrap_sbrk_correct_witness :
  wrap_sbrk 4096 (GlueSt 16 []) = (GlueSt 4112 [], Some 16) /\
  break_ok (wrap_sbrk 4096 (GlueSt 16 [])).1.
Proof.
  split; [vm_compute; reflexivity|].
  pose proof (wrap_sbrk_correct 4096 (GlueSt 16 [])
    ltac:(unfold in_s; lia) ltac:(unfold break_ok, VIOS_HEAP_BYTES; simpl; lia)) as H.
  exact (proj1 H).
Defined.

Lemma wrap_sbrk_shrink_witness :
  exists off, (wrap_sbrk (-16) (GlueSt 64 [])).2 = Some off /\
    off = vios_heap_used (wrap_sbrk (-16) (GlueSt 64 [])).1 /\ off < 64.
Proof.
  apply (wrap_sbrk_shrink (-16) (GlueSt 64 []));
    unfold in_s, break_ok, VIOS_HEAP_BYTES; simpl; lia.
Defined.

Lemma sbrk_blocks_contiguous_witness :
  (sbrk_all [100; 9000000; 28] fresh).2 = [(0, 100); (100, 28)] /\
  break_ok (sbrk_all [100; 9000000; 28] fresh).1.
Proof.
  split; [vm_compute; reflexivity|].
  pose proof (sbrk_blocks_contiguous [100; 9000000; 28] fresh
    ltac:(repeat constructor; lia) ltac:(unfold break_ok, VIOS_HEAP_BYTES; simpl; lia)) as H.
  exact (proj1 H).
Defined.

End Glue.
