(* ===== verification/Printf.v ===== *)
(** * The formatted output library, [libs/api/src/c/printf.c]

    The whole of the tiny printf: output sinks, number conversion, the fixed and
    exponential floating-point conversions, the format interpreter and its entry
    points.  A computation that leaves the C abstract machine (a read past the
    end of a string or array, a store outside a local buffer, a signed overflow, a
    missing or ill-typed variadic argument) is [None]. *)

From Stdlib Require Import SpecFloat.
From S2P Require Import Prelude CFloat.
Import CFloat.

Module Printf.

(** ** Target *)

(** What the code takes from the target's ABI. *)
Record abi := Abi {
  long_bits : Z;       (* long *)
  ptr_bits : Z;        (* size_t, ptrdiff_t, uintptr_t *)
  char_signed : bool   (* plain char *)
}.

Definition riscv64 : abi := Abi 64 64 false.
Definition aarch64 : abi := Abi 64 64 false.
Definition x86_64 : abi := Abi 64 64 true.
Definition riscv32 : abi := Abi 32 32 false.

(** The data models the code is written for: LP64 and ILP32. *)
Definition abi_ok (A : abi) : Prop :=
  long_bits A = ptr_bits A /\ (ptr_bits A = 32 \/ ptr_bits A = 64).

(** ** Configuration *)

Definition NTOA_SIZE : Z := 32.
Definition FTOA_SIZE : Z := 32.
Definition DEFAULT_FLOAT_PRECISION : Z := 6.
Definition MAX_FLOAT : double := d_of_Z 1000000000.

Definition FLAGS_ZEROPAD : Z := Z.shiftl 1 0.
Definition FLAGS_LEFT : Z := Z.shiftl 1 1.
Definition FLAGS_PLUS : Z := Z.shiftl 1 2.
Definition FLAGS_SPACE : Z := Z.shiftl 1 3.
Definition FLAGS_HASH : Z := Z.shiftl 1 4.
Definition FLAGS_UPPERCASE : Z := Z.shiftl 1 5.
Definition FLAGS_CHAR : Z := Z.shiftl 1 6.
Definition FLAGS_SHORT : Z := Z.shiftl 1 7.
Definition FLAGS_LONG : Z := Z.shiftl 1 8.
Definition FLAGS_LONG_LONG : Z := Z.shiftl 1 9.
Definition FLAGS_PRECISION : Z := Z.shiftl 1 10.
Definition FLAGS_ADAPT_EXP : Z := Z.shiftl 1 11.

(** [flags & f], [flags | f] and [flags & ~f]. *)
Definition has (flags f : Z) : bool := negb (Z.land flags f =? 0).
Definition set (flags f : Z) : Z := Z.lor flags f.
Definition clear (flags f : Z) : Z := Z.land flags (Z.lnot f).

(** ** Output *)

(** The output functions and what they write to: the caller's buffer, the
    console behind [_putchar], the caller's function. *)
Inductive out_fct := OutBuffer | OutNull | OutChar | OutFct.

Record sinks := Sinks {
  buffer : gmap Z Z;
  putchars : list Z;
  fct_calls : list Z
}.

Definition out (o : out_fct) (character idx maxlen : Z) (st : sinks) : sinks :=
  match o with
  | OutBuffer =>
      if idx <? maxlen
      then Sinks (<[idx := character]> (buffer st)) (putchars st) (fct_calls st)
      else st
  | OutNull => st
  | OutChar =>
      if character =? 0 then st
      else Sinks (buffer st) (putchars st ++ [character]) (fct_calls st)
  | OutFct =>
      if character =? 0 then st
      else Sinks (buffer st) (putchars st) (fct_calls st ++ [character])
  end.

(** Sinks and the running index. *)
Definition pst : Type := sinks * Z.

(** ** Strings *)

(** A pointer into a char array is the rest of the array from there on. *)

(** [_strnlen_s]: stops at a 0 or when [maxsize--] was 0. *)
Fixpoint strnlen_s (str : list Z) (maxsize n : Z) : option Z :=
  match str with
  | [] => None
  | c :: str' =>
      if c =? 0 then Some n
      else if maxsize =? 0 then Some n
      else strnlen_s str' (maxsize - 1) (n + 1)
  end.

Definition is_digit (c : Z) : bool := (ch "0" <=? c) && (c <=? ch "9").

Fixpoint atoi (str : list Z) (i : Z) : option (list Z * Z) :=
  match str with
  | [] => None
  | c :: str' =>
      if is_digit c then atoi str' (u32 (i * 10 + (c - ch "0"))) else Some (str, i)
  end.

(** The conversion buffers are arrays of 32 characters: [buf[0..len)] is the
    list, a store at [len == 32] would be outside the array. *)
Definition push (buf : list Z) (c : Z) : option (list Z) :=
  if zlen buf <? NTOA_SIZE then Some (buf ++ [c]) else None.

(** [while ((len < lim) && (len < SIZE)) buf[len++] = '0';] *)
Fixpoint pad_zeros (fuel : nat) (lim : Z) (buf : list Z) : option (list Z) :=
  if (zlen buf <? lim) && (zlen buf <? NTOA_SIZE) then
    match fuel with
    | O => None
    | S fuel' => buf ← push buf (ch "0"); pad_zeros fuel' lim buf
    end
  else Some buf.

Section routines.
Context (A : abi) (o : out_fct) (maxlen : Z).

(** [out(c, buffer, idx++, maxlen)] *)
Definition emit (c : Z) (p : pst) : pst :=
  (out o c p.2 maxlen p.1, wrap (ptr_bits A) (p.2 + 1)).

(** [while (idx - start_idx < width) out(' ', buffer, idx++, maxlen);] *)
Fixpoint pad_right (fuel : nat) (start_idx width : Z) (p : pst) : pst :=
  match fuel with
  | O => p
  | S fuel' =>
      if wrap (ptr_bits A) (p.2 - start_idx) <? width
      then pad_right fuel' start_idx width (emit (ch " ") p)
      else p
  end.

(** [_out_rev] *)
Definition out_rev (buf : list Z) (width flags : Z) (p : pst) : pst :=
  let start_idx := p.2 in
  let len := zlen buf in
  let p :=
    if negb (has flags FLAGS_LEFT) && negb (has flags FLAGS_ZEROPAD)
    then for_up (Z.to_nat (width - len)) len (fun _ p => emit (ch " ") p) p
    else p in
  let p := foldl (fun p c => emit c p) p (reverse buf) in
  if has flags FLAGS_LEFT then pad_right (Z.to_nat width) start_idx width p else p.

(** The sign stored last by the three conversions. *)
Definition push_sign (buf : list Z) (negative : bool) (flags : Z) : option (list Z) :=
  if zlen buf <? NTOA_SIZE then
    if negative then push buf (ch "-")
    else if has flags FLAGS_PLUS then push buf (ch "+")
    else if has flags FLAGS_SPACE then push buf (ch " ")
    else Some buf
  else Some buf.

(** The [FLAGS_HASH] part of [_ntoa_format]. *)
Definition push_hash (buf : list Z) (base prec width flags : Z) : option (list Z) :=
  let len := zlen buf in
  let buf :=
    if negb (has flags FLAGS_PRECISION) && negb (len =? 0) && ((len =? prec) || (len =? width))
    then
      let buf := removelast buf in
      if negb (zlen buf =? 0) && (base =? 16) then removelast buf else buf
    else buf in
  buf ← (if (base =? 16) && negb (has flags FLAGS_UPPERCASE) && (zlen buf <? NTOA_SIZE)
         then push buf (ch "x")
         else if (base =? 16) && has flags FLAGS_UPPERCASE && (zlen buf <? NTOA_SIZE)
         then push buf (ch "X")
         else if (base =? 2) && (zlen buf <? NTOA_SIZE) then push buf (ch "b")
         else Some buf);
  if zlen buf <? NTOA_SIZE then push buf (ch "0") else Some buf.

(** The leading-zero part of [_ntoa_format]: the buffer and the width left. *)
Definition pad_leading (buf : list Z) (negative : bool) (prec width flags : Z)
  : option (list Z * Z) :=
  if has flags FLAGS_LEFT then Some (buf, width)
  else
    let width :=
      if negb (width =? 0) && has flags FLAGS_ZEROPAD &&
         (negative || has flags (Z.lor FLAGS_PLUS FLAGS_SPACE))
      then width - 1 else width in
    buf ← pad_zeros 32 prec buf;
    buf ← (if has flags FLAGS_ZEROPAD then pad_zeros 32 width buf else Some buf);
    Some (buf, width).

(** [_ntoa_format] *)
Definition ntoa_format (buf : list Z) (negative : bool) (base prec width flags : Z) (p : pst)
  : option pst :=
  '(buf, width) ← pad_leading buf negative prec width flags;
  buf ← (if has flags FLAGS_HASH then push_hash buf base prec width flags else Some buf);
  buf ← push_sign buf negative flags;
  Some (out_rev buf width flags p).

(** The [do ... while (value && (len < SIZE))] loop of [_ntoa_long] and
    [_ntoa_long_long]. *)
Fixpoint ntoa_loop (fuel : nat) (value base flags : Z) (buf : list Z) : option (list Z) :=
  match fuel with
  | O => None
  | S fuel' =>
      let digit := value mod base in
      buf ← push buf (if digit <? 10 then ch "0" + digit
                      else (if has flags FLAGS_UPPERCASE then ch "A" else ch "a") + digit - 10);
      let value := value / base in
      if negb (value =? 0) && (zlen buf <? NTOA_SIZE)
      then ntoa_loop fuel' value base flags buf
      else Some buf
  end.

(** [_ntoa_long]; [value] is an [unsigned long]. *)
Definition ntoa_long (value : Z) (negative : bool) (base prec width flags : Z) (p : pst)
  : option pst :=
  let flags := if value =? 0 then clear flags FLAGS_HASH else flags in
  buf ← (if negb (has flags FLAGS_PRECISION) || negb (value =? 0)
         then ntoa_loop 32 value base flags []
         else Some []);
  ntoa_format buf negative (u32 base) prec width flags p.

(** [_ntoa_long_long]; [value] is an [unsigned long long]. *)
Definition ntoa_long_long (value : Z) (negative : bool) (base prec width flags : Z) (p : pst)
  : option pst :=
  let flags := if value =? 0 then clear flags FLAGS_HASH else flags in
  buf ← (if negb (has flags FLAGS_PRECISION) || negb (value =? 0)
         then ntoa_loop 32 value base flags []
         else Some []);
  ntoa_format buf negative (u32 base) prec width flags p.

(** ** Floating point *)

(** [static const double pow10[]] *)
Definition pow10 : list double :=
  map d_of_Z [1; 10; 100; 1000; 10000; 100000; 1000000; 10000000; 100000000; 1000000000].

(** [while ((len < SIZE) && (prec > 9U)) { buf[len++] = '0'; prec--; }] *)
Fixpoint limit_prec (fuel : nat) (prec : Z) (buf : list Z) : option (list Z * Z) :=
  if (zlen buf <? FTOA_SIZE) && (prec >? 9) then
    match fuel with
    | O => None
    | S fuel' => buf ← push buf (ch "0"); limit_prec fuel' (prec - 1) buf
    end
  else Some (buf, prec).

(** The fraction digits: [count] is unsigned and wraps around. *)
Fixpoint frac_loop (fuel : nat) (frac count : Z) (buf : list Z) : option (list Z * Z) :=
  if zlen buf <? FTOA_SIZE then
    match fuel with
    | O => None
    | S fuel' =>
        let count := u32 (count - 1) in
        buf ← push buf (48 + frac mod 10);
        let frac := frac / 10 in
        if frac =? 0 then Some (buf, count) else frac_loop fuel' frac count buf
    end
  else Some (buf, count).

(** [while ((len < SIZE) && (count-- > 0U)) buf[len++] = '0';] *)
Fixpoint frac_zeros (fuel : nat) (count : Z) (buf : list Z) : option (list Z) :=
  if (zlen buf <? FTOA_SIZE) && (count >? 0) then
    match fuel with
    | O => None
    | S fuel' => buf ← push buf (ch "0"); frac_zeros fuel' (u32 (count - 1)) buf
    end
  else Some buf.

(** The whole part, digits reversed. *)
Fixpoint whole_loop (fuel : nat) (whole : Z) (buf : list Z) : option (list Z) :=
  if zlen buf <? FTOA_SIZE then
    match fuel with
    | O => None
    | S fuel' =>
        buf ← push buf (48 + Z.rem whole 10);
        let whole := Z.quot whole 10 in
        if whole =? 0 then Some buf else whole_loop fuel' whole buf
    end
  else Some buf.

(** The rounding of the scaled fraction: [whole] and [frac] afterwards. *)
Definition round_frac (whole frac : Z) (diff p10 : double) : Z * Z :=
  if dlt dhalf diff then
    let frac := wrap (long_bits A) (frac + 1) in
    if dle p10 (d_of_Z frac) then (s32 (whole + 1), 0) else (whole, frac)
  else if dlt diff dhalf then (whole, frac)
  else if (frac =? 0) || Z.odd frac then (whole, wrap (long_bits A) (frac + 1))
  else (whole, frac).

(** [_ftoa] from the sign test on; [value] is finite and at most
    [PRINTF_MAX_FLOAT] in magnitude. *)
Definition ftoa_fixed (value : double) (prec width flags : Z) (p : pst) : option pst :=
  let negative := dlt value dzero in
  let value := if negative then dsub (d_of_Z 0) value else value in
  let prec := if has flags FLAGS_PRECISION then prec else DEFAULT_FLOAT_PRECISION in
  '(buf, prec) ← limit_prec 32 prec [];
  let whole := d_trunc value in
  p10 ← pow10 !! Z.to_nat prec;
  let tmp := dmul (dsub value (d_of_Z whole)) p10 in
  let frac := wrap (long_bits A) (d_trunc tmp) in
  let diff := dsub tmp (d_of_Z frac) in
  let '(whole, frac) := round_frac whole frac diff p10 in
  '(buf, whole) ←
    (if prec =? 0 then
       let diff := dsub value (d_of_Z whole) in
       Some (buf, if (negb (dlt diff dhalf) || dlt dhalf diff) && Z.odd whole
                  then s32 (whole + 1) else whole)
     else
       '(buf, count) ← frac_loop 33 frac prec buf;
       buf ← frac_zeros 33 count buf;
       buf ← (if zlen buf <? FTOA_SIZE then push buf (ch ".") else Some buf);
       Some (buf, whole));
  buf ← whole_loop 33 whole buf;
  '(buf, width) ←
    (if negb (has flags FLAGS_LEFT) && has flags FLAGS_ZEROPAD then
       let width :=
         if negb (width =? 0) && (negative || has flags (Z.lor FLAGS_PLUS FLAGS_SPACE))
         then width - 1 else width in
       buf ← pad_zeros 32 width buf;
       Some (buf, width)
     else Some (buf, width));
  buf ← push_sign buf negative flags;
  Some (out_rev buf width flags p).

(** The decimal exponent and power of ten that [_etoa] estimates for a
    positive [value]: [expval] and [conv.F]. *)
Definition etoa_scale (value : double) : Z * double :=
  let U := d_bits value in
  let exp2 := Z.land (Z.shiftr U 52) 0x7FF - 1023 in
  let F := d_of_bits (Z.lor (Z.land U (2 ^ 52 - 1)) (Z.shiftl 1023 52)) in
  let expval := d_trunc
    (dadd (dadd (lit 6344356229335219 (-55))                      (* 0.1760912590558 *)
                (dmul (d_of_Z exp2) (lit 5422874305198587 (-54))))  (* 0.301029995663981 *)
          (dmul (dsub F (lit 6755399441055744 (-52)))              (* 1.5 *)
                (lit 5215702578316129 (-54)))) in                   (* 0.289529654602168 *)
  let exp2 := d_trunc
    (dadd (dmul (d_of_Z expval) (lit 7480317065143153 (-51)))       (* 3.321928094887362 *)
          dhalf) in
  let z := dsub (dmul (d_of_Z expval) (lit 5184960683398422 (-51))) (* 2.302585092994046 *)
                (dmul (d_of_Z exp2) (lit 6243314768165359 (-53))) in (* 0.6931471805599453 *)
  let z2 := dmul z z in
  let F := d_of_bits (u64 (Z.shiftl (u64 (exp2 + 1023)) 52)) in
  let F := dmul F
    (dadd (d_of_Z 1)
       (ddiv (dmul (d_of_Z 2) z)
          (dadd (dsub (d_of_Z 2) z)
             (ddiv z2 (dadd (d_of_Z 6)
                (ddiv z2 (dadd (d_of_Z 10) (ddiv z2 (d_of_Z 14))))))))) in
  if dlt value F then (expval - 1, ddiv F (d_of_Z 10)) else (expval, F).

(** [_ftoa] and [_etoa] call each other; the fuel is the depth of the calls. *)
Fixpoint ftoa (depth : nat) (value : double) (prec width flags : Z) (p : pst) {struct depth}
  : option pst :=
  if negb (deq value value) then Some (out_rev (bytes "nan"%string) width flags p)
  else if dlt value (dneg DBL_MAX) then Some (out_rev (bytes "fni-"%string) width flags p)
  else if dlt DBL_MAX value then
    Some (out_rev (if has flags FLAGS_PLUS then bytes "fni+"%string else bytes "fni"%string) width flags p)
  else if dlt MAX_FLOAT value || dlt value (dneg MAX_FLOAT) then
    match depth with
    | O => None
    | S depth' => etoa depth' value prec width flags p
    end
  else ftoa_fixed value prec width flags p
with etoa (depth : nat) (value : double) (prec width flags : Z) (p : pst) {struct depth}
  : option pst :=
  match depth with
  | O => None
  | S depth' =>
      if negb (deq value value) || dlt DBL_MAX value || dlt value (dneg DBL_MAX)
      then ftoa depth' value prec width flags p
      else
        let negative := dlt value dzero in
        let value := if negative then dneg value else value in
        let prec := if has flags FLAGS_PRECISION then prec else DEFAULT_FLOAT_PRECISION in
        let '(expval, convF) := etoa_scale value in
        let minwidth := if (expval <? 100) && (expval >? -100) then 4 else 5 in
        let '(prec, flags, minwidth, expval) :=
          if has flags FLAGS_ADAPT_EXP then
            if dle (lit 7378697629483821 (-66)) value &&      (* 1e-4 *)
               dlt value (d_of_Z 1000000)                     (* 1e6 *)
            then
              (if s32 prec >? expval then u32 (s32 prec - expval - 1) else 0,
               set flags FLAGS_PRECISION, 0, 0)
            else
              (if (prec >? 0) && has flags FLAGS_PRECISION then prec - 1 else prec,
               flags, minwidth, expval)
          else (prec, flags, minwidth, expval) in
        let fwidth := if width >? minwidth then width - minwidth else 0 in
        let fwidth := if has flags FLAGS_LEFT && negb (minwidth =? 0) then 0 else fwidth in
        let value := if expval =? 0 then value else ddiv value convF in
        let start_idx := p.2 in
        p ← ftoa depth' (if negative then dneg value else value) prec fwidth
              (clear flags FLAGS_ADAPT_EXP) p;
        if minwidth =? 0 then Some p
        else
          let p := emit (if has flags FLAGS_UPPERCASE then ch "E" else ch "e") p in
          p ← ntoa_long (if expval <? 0 then - expval else expval) (expval <? 0) 10 0
                (minwidth - 1) (Z.lor FLAGS_ZEROPAD FLAGS_PLUS) p;
          Some (if has flags FLAGS_LEFT then pad_right (Z.to_nat width) start_idx width p else p)
  end.
End routines.

(** ** Variadic arguments *)

(** An argument as the caller passes it: an integer (or pointer value), a
    double, or the address of a char array. *)
Inductive arg :=
  | ArgInt (z : Z)
  | ArgDbl (d : double)
  | ArgStr (address : Z) (s : list Z).

(** [va_arg(va, T)]; the caller converts the integer to [T]. *)
Definition va_int (va : list arg) : option (Z * list arg) :=
  match va with ArgInt z :: va' => Some (z, va') | _ => None end.
Definition va_double (va : list arg) : option (double * list arg) :=
  match va with ArgDbl d :: va' => Some (d, va') | _ => None end.
Definition va_str (va : list arg) : option (list Z * list arg) :=
  match va with ArgStr _ s :: va' => Some (s, va') | _ => None end.
Definition va_ptr (va : list arg) : option (Z * list arg) :=
  match va with
  | ArgInt z :: va' => Some (z, va')
  | ArgStr a _ :: va' => Some (a, va')
  | _ => None
  end.

(** [0 - value] for a signed integer of [w] bits: undefined for the least one. *)
Definition negate (w value : Z) : option Z := if bool_decide (in_s w (- value)) then Some (- value) else None.
(** [value > 0 ? value : 0 - value] *)
Definition magnitude (w value : Z) : option Z := if value >? 0 then Some value else negate w value.

(** ** The format interpreter *)

Fixpoint parse_flags (fmt : list Z) (flags : Z) : option (list Z * Z) :=
  match fmt with
  | [] => None
  | c :: fmt' =>
      if c =? ch "0" then parse_flags fmt' (set flags FLAGS_ZEROPAD)
      else if c =? ch "-" then parse_flags fmt' (set flags FLAGS_LEFT)
      else if c =? ch "+" then parse_flags fmt' (set flags FLAGS_PLUS)
      else if c =? ch " " then parse_flags fmt' (set flags FLAGS_SPACE)
      else if c =? ch "#" then parse_flags fmt' (set flags FLAGS_HASH)
      else Some (fmt, flags)
  end.

(** Width field: rest of the format and arguments, flags and width. *)
Definition parse_width (fmt : list Z) (va : list arg) (flags : Z)
  : option (list Z * list arg * Z * Z) :=
  c ← head fmt;
  if is_digit c then
    '(fmt, width) ← atoi fmt 0; Some (fmt, va, flags, width)
  else if c =? ch "*" then
    '(w, va) ← va_int va;
    let w := s32 w in
    if w <? 0 then width ← negate 32 w; Some (tail fmt, va, set flags FLAGS_LEFT, u32 width)
    else Some (tail fmt, va, flags, w)
  else Some (fmt, va, flags, 0).

(** Precision field. *)
Definition parse_precision (fmt : list Z) (va : list arg) (flags : Z)
  : option (list Z * list arg * Z * Z) :=
  c ← head fmt;
  if c =? ch "." then
    let flags := set flags FLAGS_PRECISION in
    let fmt := tail fmt in
    c ← head fmt;
    if is_digit c then
      '(fmt, precision) ← atoi fmt 0; Some (fmt, va, flags, precision)
    else if c =? ch "*" then
      '(prec, va) ← va_int va;
      let prec := s32 prec in
      Some (tail fmt, va, flags, if prec >? 0 then prec else 0)
    else Some (fmt, va, flags, 0)
  else Some (fmt, va, flags, 0).

(** Length field: rest of the format and flags. *)
Definition parse_length (A : abi) (fmt : list Z) (flags : Z) : option (list Z * Z) :=
  let long_or_ll bits := if bits =? long_bits A then FLAGS_LONG else FLAGS_LONG_LONG in
  c ← head fmt;
  if c =? ch "l" then
    let flags := set flags FLAGS_LONG in
    let fmt := tail fmt in
    c ← head fmt;
    Some (if c =? ch "l" then (tail fmt, set flags FLAGS_LONG_LONG) else (fmt, flags))
  else if c =? ch "h" then
    let flags := set flags FLAGS_SHORT in
    let fmt := tail fmt in
    c ← head fmt;
    Some (if c =? ch "h" then (tail fmt, set flags FLAGS_CHAR) else (fmt, flags))
  else if c =? ch "t" then Some (tail fmt, set flags (long_or_ll (ptr_bits A)))
  else if c =? ch "j" then Some (tail fmt, set flags (long_or_ll 64))
  else if c =? ch "z" then Some (tail fmt, set flags (long_or_ll (ptr_bits A)))
  else Some (fmt, flags).

Section interpreter.
Context (A : abi) (depth : nat) (o : out_fct) (maxlen : Z).

Definition is_int_spec (c : Z) : bool :=
  (c =? ch "d") || (c =? ch "i") || (c =? ch "u") || (c =? ch "x") || (c =? ch "X") ||
  (c =? ch "o") || (c =? ch "b").

(** The integer conversions [d i u x X o b]. *)
Definition int_spec (c flags width precision : Z) (va : list arg) (p : pst)
  : option (list arg * pst) :=
  let base :=
    if (c =? ch "x") || (c =? ch "X") then 16
    else if c =? ch "o" then 8 else if c =? ch "b" then 2 else 10 in
  let flags := if base =? 10 then clear flags FLAGS_HASH else flags in
  let flags := if c =? ch "X" then set flags FLAGS_UPPERCASE else flags in
  let signed := (c =? ch "i") || (c =? ch "d") in
  let flags := if signed then flags else clear flags (Z.lor FLAGS_PLUS FLAGS_SPACE) in
  let flags := if has flags FLAGS_PRECISION then clear flags FLAGS_ZEROPAD else flags in
  '(raw, va) ← va_int va;
  p ← (if signed then
         if has flags FLAGS_LONG_LONG then
           let value := s64 raw in
           m ← magnitude 64 value;
           ntoa_long_long A o maxlen (u64 m) (value <? 0) base precision width flags p
         else if has flags FLAGS_LONG then
           let value := swrap (long_bits A) raw in
           m ← magnitude (long_bits A) value;
           ntoa_long A o maxlen (wrap (long_bits A) m) (value <? 0) base precision width flags p
         else
           let value :=
             if has flags FLAGS_CHAR then
               (if char_signed A then swrap 8 (s32 raw) else wrap 8 (s32 raw))
             else if has flags FLAGS_SHORT then swrap 16 (s32 raw) else s32 raw in
           m ← magnitude 32 value;
           ntoa_long A o maxlen (u32 m) (value <? 0) base precision width flags p
       else
         if has flags FLAGS_LONG_LONG then
           ntoa_long_long A o maxlen (u64 raw) false base precision width flags p
         else if has flags FLAGS_LONG then
           ntoa_long A o maxlen (wrap (long_bits A) raw) false base precision width flags p
         else
           let value :=
             if has flags FLAGS_CHAR then u8 (u32 raw)
             else if has flags FLAGS_SHORT then u16 (u32 raw) else u32 raw in
           ntoa_long A o maxlen value false base precision width flags p);
  Some (va, p).

(** [while (l++ < width) out(' ', buffer, idx++, maxlen);] *)
Definition pad_spaces (l width : Z) (p : pst) : pst :=
  for_up (Z.to_nat (width - l)) l (fun _ p => emit A o maxlen (ch " ") p) p.

(** [case 'c'] *)
Definition char_spec (flags width : Z) (va : list arg) (p : pst) : option (list arg * pst) :=
  let p := if has flags FLAGS_LEFT then p else pad_spaces 1 width p in
  '(raw, va) ← va_int va;
  let p := emit A o maxlen (u8 raw) p in
  Some (va, if has flags FLAGS_LEFT then pad_spaces 1 width p else p).

(** The string is copied while its characters are not 0 and, with
    [FLAGS_PRECISION], while [precision--] was not 0. *)
Fixpoint str_loop (s : list Z) (limited : bool) (precision : Z) (p : pst) : option pst :=
  match s with
  | [] => None
  | c :: s' =>
      if c =? 0 then Some p
      else if limited && (precision =? 0) then Some p
      else str_loop s' limited (if limited then precision - 1 else precision) (emit A o maxlen c p)
  end.

(** [case 's'] *)
Definition str_spec (flags width precision : Z) (va : list arg) (p : pst)
  : option (list arg * pst) :=
  '(s, va) ← va_str va;
  n ← strnlen_s s (if precision =? 0 then 2 ^ ptr_bits A - 1 else precision) 0;
  let l := u32 n in
  let l := if has flags FLAGS_PRECISION then Z.min l precision else l in
  let p := if has flags FLAGS_LEFT then p else pad_spaces l width p in
  p ← str_loop s (has flags FLAGS_PRECISION) precision p;
  Some (va, if has flags FLAGS_LEFT then pad_spaces l width p else p).

(** [case 'p'] *)
Definition ptr_spec (flags precision : Z) (va : list arg) (p : pst) : option (list arg * pst) :=
  let width := ptr_bits A / 8 * 2 in
  let flags := set flags (Z.lor FLAGS_ZEROPAD FLAGS_UPPERCASE) in
  '(raw, va) ← va_ptr va;
  p ← (if ptr_bits A =? 64
       then ntoa_long_long A o maxlen (wrap (ptr_bits A) raw) false 16 precision width flags p
       else ntoa_long A o maxlen (wrap (long_bits A) (wrap (ptr_bits A) raw)) false 16
              precision width flags p);
  Some (va, p).

(** The [switch] on the conversion specifier. *)
Definition specifier (c flags width precision : Z) (va : list arg) (p : pst)
  : option (list arg * pst) :=
  if is_int_spec c then int_spec c flags width precision va p
  else if (c =? ch "f") || (c =? ch "F") then
    let flags := if c =? ch "F" then set flags FLAGS_UPPERCASE else flags in
    '(d, va) ← va_double va;
    p ← ftoa A o maxlen depth d precision width flags p;
    Some (va, p)
  else if (c =? ch "e") || (c =? ch "E") || (c =? ch "g") || (c =? ch "G") then
    let flags := if (c =? ch "g") || (c =? ch "G") then set flags FLAGS_ADAPT_EXP else flags in
    let flags := if (c =? ch "E") || (c =? ch "G") then set flags FLAGS_UPPERCASE else flags in
    '(d, va) ← va_double va;
    p ← etoa A o maxlen depth d precision width flags p;
    Some (va, p)
  else if c =? ch "c" then char_spec flags width va p
  else if c =? ch "s" then str_spec flags width precision va p
  else if c =? ch "p" then ptr_spec flags precision va p
  else if c =? ch "%" then Some (va, emit A o maxlen (ch "%") p)
  else Some (va, emit A o maxlen c p).

(** One conversion, the format pointing behind the ['%']. *)
Definition conversion (fmt : list Z) (va : list arg) (p : pst)
  : option (list Z * list arg * pst) :=
  '(fmt, flags) ← parse_flags fmt 0;
  '(fmt, va, flags, width) ← parse_width fmt va flags;
  '(fmt, va, flags, precision) ← parse_precision fmt va flags;
  '(fmt, flags) ← parse_length A fmt flags;
  c ← head fmt;
  '(va, p) ← specifier c flags width precision va p;
  Some (tail fmt, va, p).

(** The loop up to the end of the format; every iteration advances it. *)
Fixpoint format_loop (fuel : nat) (fmt : list Z) (va : list arg) (p : pst) : option pst :=
  match fuel with
  | O => None
  | S fuel' =>
      c ← head fmt;
      if c =? 0 then Some p
      else if c =? ch "%" then
        '(fmt, va, p) ← conversion (tail fmt) va p;
        format_loop fuel' fmt va p
      else format_loop fuel' (tail fmt) va (emit A o maxlen c p)
  end.
End interpreter.

(** [_vsnprintf]: the sinks afterwards and the returned [int].  [null] says that
    the buffer argument is NULL. *)
Definition vsnprintf_ (A : abi) (depth : nat) (o : out_fct) (null : bool) (maxlen : Z)
    (fmt : list Z) (va : list arg) (st : sinks) : option (sinks * Z) :=
  let o := if null then OutNull else o in
  '(st, idx) ← format_loop A depth o maxlen (length fmt) fmt va (st, 0);
  let st := out o 0 (if idx <? maxlen then idx else wrap (ptr_bits A) (maxlen - 1)) maxlen st in
  Some (st, s32 idx).

(** ** Entry points *)

Section entry.
Context (A : abi) (depth : nat).
Definition SIZE_MAX : Z := 2 ^ ptr_bits A - 1.

Definition printf (fmt : list Z) (va : list arg) : sinks -> option (sinks * Z) :=
  vsnprintf_ A depth OutChar false SIZE_MAX fmt va.
Definition sprintf (null : bool) (fmt : list Z) (va : list arg) : sinks -> option (sinks * Z) :=
  vsnprintf_ A depth OutBuffer null SIZE_MAX fmt va.
Definition snprintf (null : bool) (count : Z) (fmt : list Z) (va : list arg)
  : sinks -> option (sinks * Z) :=
  vsnprintf_ A depth OutBuffer null count fmt va.
Definition vprintf (fmt : list Z) (va : list arg) : sinks -> option (sinks * Z) :=
  vsnprintf_ A depth OutChar false SIZE_MAX fmt va.
Definition vsnprintf (null : bool) (count : Z) (fmt : list Z) (va : list arg)
  : sinks -> option (sinks * Z) :=
  vsnprintf_ A depth OutBuffer null count fmt va.
Definition fctprintf (fmt : list Z) (va : list arg) : sinks -> option (sinks * Z) :=
  vsnprintf_ A depth OutFct false SIZE_MAX fmt va.
End entry.

End Printf.
