(* ===== verification/PrintfFacts.v ===== *)
(** * Properties of the formatted output library

    Every routine of [Printf] emits a text that depends on neither the sink nor
    the buffer size; the entry points differ only in what the sink does with it.
    On top of that: the exact text of the integer conversions, memory safety of
    the conversion buffers, and the conversions that go wrong. *)

From Stdlib Require Import SpecFloat.
From S2P Require Import Prelude CFloat Printf.
Import CFloat Printf.

Module PrintfFacts.

(** ** Texts *)

(** The effect of emitting a text. *)
Definition out_all (A : abi) (o : out_fct) (maxlen : Z) (l : list Z) (p : pst) : pst :=
  foldl (fun p c => emit A o maxlen c p) p l.

Lemma out_all_cons A o m c l st i :
  out_all A o m (c :: l) (st, i) =
  out_all A o m l (out o c i m st, wrap (ptr_bits A) (i + 1)).
Proof. done. Qed.

Lemma out_all_app A o m l1 l2 p : out_all A o m (l1 ++ l2) p = out_all A o m l2 (out_all A o m l1 p).
Proof. apply foldl_app. Qed.

Lemma out_all_idx A o m l p :
  wrap (ptr_bits A) ((out_all A o m l p).2 - p.2) = wrap (ptr_bits A) (zlen l).
Proof.
  revert p. induction l as [|c l IH]; intros p; simpl; [f_equal; lia|].
  fold (out_all A o m l (emit A o m c p)).
  pose proof (IH (emit A o m c p)) as H. simpl in H.
  change (eqm (ptr_bits A) ((out_all A o m l (emit A o m c p)).2 - p.2) (Z.of_nat (S (length l)))).
  change (eqm (ptr_bits A) ((out_all A o m l (emit A o m c p)).2 -
    wrap (ptr_bits A) (p.2 + 1)) (zlen l)) in H.
  rewrite eqm_wrap in H.
  replace (Z.of_nat (S (length l))) with (zlen l + 1) by lia.
  rewrite <- H. unfold eqm. f_equal. lia.
Qed.

Lemma for_up_emit A o m c n i p :
  for_up n i (fun _ p => emit A o m c p) p = out_all A o m (replicate n c) p.
Proof. revert i p. induction n; intros; simpl; [done|]. by rewrite IHn. Qed.

(** How many spaces [pad_right] adds behind a text of length [n]. *)
Fixpoint pad_count (A : abi) (fuel : nat) (n width : Z) : nat :=
  match fuel with
  | O => 0
  | S fuel' => if wrap (ptr_bits A) n <? width then S (pad_count A fuel' (n + 1) width) else 0
  end.

Lemma pad_right_emits A o m fuel width l p :
  pad_right A o m fuel p.2 width (out_all A o m l p) =
  out_all A o m (l ++ replicate (pad_count A fuel (zlen l) width) (ch " ")) p.
Proof.
  revert l. induction fuel as [|fuel IH]; intros l; simpl; [by rewrite app_nil_r|].
  rewrite out_all_idx. destruct (_ <? _); simpl; [|by rewrite app_nil_r].
  replace (emit A o m (ch " ") (out_all A o m l p)) with (out_all A o m (l ++ [ch " "]) p)
    by (by rewrite out_all_app).
  rewrite IH. f_equal. rewrite <- app_assoc. simpl.
  replace (zlen (l ++ [ch " "])) with (zlen l + 1) by (rewrite length_app; simpl; lia). done.
Qed.

Lemma abi_ptr A : abi_ok A -> 2 ^ 32 <= 2 ^ ptr_bits A /\ 0 < ptr_bits A.
Proof. intros [_ [-> | ->]]; lia. Qed.

Lemma pad_count_exact A fuel n width :
  abi_ok A -> 0 <= n < 2 ^ ptr_bits A -> width < 2 ^ 32 -> n + Z.of_nat fuel >= width ->
  pad_count A fuel n width = Z.to_nat (width - n).
Proof.
  intros HA. destruct (abi_ptr A HA) as [Hp _]. revert n.
  induction fuel as [|fuel IH]; intros n Hn Hw Hf; simpl; [lia|].
  rewrite wrap_small by done. destruct (Z.ltb_spec n width) as [Hlt|Hge].
  - rewrite IH by lia. lia.
  - lia.
Qed.

(** The text of [out_rev], in terms of the number of spaces in front or behind. *)
Definition rev_text (A : abi) (buf : list Z) (width flags : Z) : list Z :=
  let text :=
    (if negb (has flags FLAGS_LEFT) && negb (has flags FLAGS_ZEROPAD)
     then replicate (Z.to_nat (width - zlen buf)) (ch " ") else []) ++ reverse buf in
  if has flags FLAGS_LEFT
  then text ++ replicate (pad_count A (Z.to_nat width) (zlen text) width) (ch " ") else text.

Lemma out_rev_emits A o m buf width flags p :
  out_rev A o m buf width flags p = out_all A o m (rev_text A buf width flags) p.
Proof.
  unfold out_rev, rev_text. rewrite for_up_emit.
  destruct (has flags FLAGS_LEFT); simpl.
  - apply pad_right_emits.
  - destruct (has flags FLAGS_ZEROPAD); simpl; [done|]. by rewrite out_all_app.
Qed.

(** ** Sink independence *)

(** The routine [R] emits the text of [r] and yields its value, or is undefined,
    whatever the sink, the buffer size and the state. *)
Definition emits {X} (A : abi) (R : out_fct -> Z -> pst -> option (X * pst))
    (r : option (X * list Z)) : Prop :=
  forall o m p, R o m p =
    match r with Some (x, l) => Some (x, out_all A o m l p) | None => None end.

Definition emits0 (A : abi) (R : out_fct -> Z -> pst -> option pst) (r : option (list Z)) : Prop :=
  forall o m p, R o m p =
    match r with Some l => Some (out_all A o m l p) | None => None end.

Definition uniform {X} A (R : out_fct -> Z -> pst -> option (X * pst)) : Prop :=
  exists r, emits A R r.
Definition uniform0 A (R : out_fct -> Z -> pst -> option pst) : Prop := exists r, emits0 A R r.

Section composition.
Context (A : abi).

Lemma uniform0_out_rev buf width flags :
  uniform0 A (fun o m p => Some (out_rev A o m buf width flags p)).
Proof. eexists (Some _). intros o m p. by rewrite out_rev_emits. Qed.

Lemma uniform0_None : uniform0 A (fun _ _ _ => None).
Proof. by exists None. Qed.

Lemma uniform0_id : uniform0 A (fun _ _ p => Some p).
Proof. by exists (Some []). Qed.

Lemma uniform_None {X} : uniform A (fun _ _ _ => @None (X * pst)).
Proof. by exists None. Qed.

Lemma uniform_ret {X} (x : X) l : uniform A (fun o m p => Some (x, out_all A o m l p)).
Proof. by exists (Some (x, l)). Qed.

(** A computation that does not touch the output can come first. *)
Lemma uniform0_pure {Y} (e : option Y) (R : Y -> out_fct -> Z -> pst -> option pst) :
  (forall y, uniform0 A (R y)) -> uniform0 A (fun o m p => y ← e; R y o m p).
Proof. intros H. destruct e as [y|]; [exact (H y)|apply uniform0_None]. Qed.

Lemma uniform_pure {X Y} (e : option Y) (R : Y -> out_fct -> Z -> pst -> option (X * pst)) :
  (forall y, uniform A (R y)) -> uniform A (fun o m p => y ← e; R y o m p).
Proof. intros H. destruct e as [y|]; [exact (H y)|apply uniform_None]. Qed.

Lemma uniform0_if (b : bool) R1 R2 :
  uniform0 A R1 -> uniform0 A R2 -> uniform0 A (fun o m p => if b then R1 o m p else R2 o m p).
Proof. by destruct b. Qed.

Lemma uniform_if {X} (b : bool) (R1 R2 : out_fct -> Z -> pst -> option (X * pst)) :
  uniform A R1 -> uniform A R2 -> uniform A (fun o m p => if b then R1 o m p else R2 o m p).
Proof. by destruct b. Qed.

(** A text first, then a uniform routine. *)
Lemma uniform_text {X} l (R : out_fct -> Z -> pst -> option (X * pst)) :
  uniform A R -> uniform A (fun o m p => R o m (out_all A o m l p)).
Proof.
  intros [[[x l']|] HR]; [exists (Some (x, l ++ l'))|exists None]; intros o m p; rewrite HR; [|done].
  by rewrite out_all_app.
Qed.

Lemma uniform0_text l R :
  uniform0 A R -> uniform0 A (fun o m p => R o m (out_all A o m l p)).
Proof.
  intros [[l'|] HR]; [exists (Some (l ++ l'))|exists None]; intros o m p; rewrite HR; [|done].
  by rewrite out_all_app.
Qed.

(** Sequencing. *)
Lemma uniform0_bind R1 R2 :
  uniform0 A R1 -> uniform0 A R2 -> uniform0 A (fun o m p => p ← R1 o m p; R2 o m p).
Proof.
  intros [[l1|] H1] H2; [|exists None; intros o m p; by rewrite H1].
  destruct (uniform0_text l1 R2 H2) as [r Hr]. exists r. intros o m p. rewrite H1. apply Hr.
Qed.

Lemma uniform_bind0 {X} R1 (R2 : out_fct -> Z -> pst -> option (X * pst)) :
  uniform0 A R1 -> uniform A R2 -> uniform A (fun o m p => p ← R1 o m p; R2 o m p).
Proof.
  intros [[l1|] H1] H2; [|exists None; intros o m p; by rewrite H1].
  destruct (uniform_text l1 R2 H2) as [r Hr]. exists r. intros o m p. rewrite H1. apply Hr.
Qed.

Lemma uniform_bind {X Y} (R1 : out_fct -> Z -> pst -> option (Y * pst))
    (R2 : Y -> out_fct -> Z -> pst -> option (X * pst)) :
  uniform A R1 -> (forall y, uniform A (R2 y)) ->
  uniform A (fun o m p => '(y, p) ← R1 o m p; R2 y o m p).
Proof.
  intros [[[y l1]|] H1] H2; [|exists None; intros o m p; by rewrite H1].
  destruct (uniform_text l1 (R2 y) (H2 y)) as [r Hr]. exists r.
  intros o m p. rewrite H1. apply Hr.
Qed.
End composition.

#[export] Hint Resolve uniform0_out_rev uniform0_None uniform0_id uniform_None uniform_ret : cell.

(** ** The routines are uniform *)

Lemma ntoa_format_uniform A buf neg base prec width flags :
  uniform0 A (fun o m => ntoa_format A o m buf neg base prec width flags).
Proof.
  unfold ntoa_format. apply uniform0_pure. intros [buf1 width1].
  apply uniform0_pure. intros buf2. apply uniform0_pure. auto with cell.
Qed.

Lemma ntoa_long_uniform A value neg base prec width flags :
  uniform0 A (fun o m => ntoa_long A o m value neg base prec width flags).
Proof. apply uniform0_pure. intros. apply ntoa_format_uniform. Qed.

Lemma ntoa_long_long_uniform A value neg base prec width flags :
  uniform0 A (fun o m => ntoa_long_long A o m value neg base prec width flags).
Proof. apply uniform0_pure. intros. apply ntoa_format_uniform. Qed.

#[export] Hint Resolve ntoa_long_uniform ntoa_long_long_uniform : cell.

Lemma ftoa_fixed_uniform A value prec width flags :
  uniform0 A (fun o m => ftoa_fixed A o m value prec width flags).
Proof.
  unfold ftoa_fixed. apply uniform0_pure. intros [buf1 prec1].
  apply uniform0_pure. intros p10. destruct (round_frac _ _ _ _ _) as [w f].
  apply uniform0_pure. intros [buf2 whole2]. apply uniform0_pure. intros buf3.
  apply uniform0_pure. intros [buf4 width4]. apply uniform0_pure. auto with cell.
Qed.

(** Padding on the right up to a width counted from where a uniform routine
    started. *)
Lemma uniform0_pad A fuel width R :
  uniform0 A R ->
  uniform0 A (fun o m p => p' ← R o m p; Some (pad_right A o m fuel p.2 width p')).
Proof.
  intros [[l|] HR]; [|exists None; intros o m p; by rewrite HR].
  eexists (Some _). intros o m p. rewrite HR. simpl. by rewrite pad_right_emits.
Qed.

Lemma uniform0_ext A (R1 R2 : out_fct -> Z -> pst -> option pst) :
  (forall o m p, R1 o m p = R2 o m p) -> uniform0 A R1 -> uniform0 A R2.
Proof. intros He [r Hr]. exists r. intros o m p. rewrite <- He. apply Hr. Qed.

Lemma uniform_ext {X} A (R1 R2 : out_fct -> Z -> pst -> option (X * pst)) :
  (forall o m p, R1 o m p = R2 o m p) -> uniform A R1 -> uniform A R2.
Proof. intros He [r Hr]. exists r. intros o m p. rewrite <- He. apply Hr. Qed.

Lemma uniform0_emit A c R : uniform0 A R -> uniform0 A (fun o m p => R o m (emit A o m c p)).
Proof. apply (uniform0_text A [c]). Qed.

Lemma ftoa_etoa_uniform A depth :
  (forall value prec width flags, uniform0 A (fun o m => ftoa A o m depth value prec width flags)) /\
  (forall value prec width flags, uniform0 A (fun o m => etoa A o m depth value prec width flags)).
Proof.
  induction depth as [|depth [IHf IHe]]; (split; intros value prec width flags).
  - simpl. repeat apply uniform0_if; auto using ftoa_fixed_uniform with cell.
  - apply uniform0_None.
  - simpl. repeat apply uniform0_if; auto using ftoa_fixed_uniform with cell.
  - simpl. apply uniform0_if; [done|].
    destruct (etoa_scale _) as [expval convF].
    match goal with |- context [if has flags FLAGS_ADAPT_EXP then ?a else ?b] =>
      destruct (if has flags FLAGS_ADAPT_EXP then a else b) as [[[prec1 flags1] minw] exp1] end.
    match goal with |- context [ftoa A _ _ depth ?v ?pr ?w ?f _] =>
      set (F := fun o m => ftoa A o m depth v pr w f);
      assert (HF : uniform0 A F) by apply IHf end.
    destruct (minw =? 0); [by apply uniform0_bind; auto with cell|].
    set (N := fun o m p => p ← F o m p;
       ntoa_long A o m (if exp1 <? 0 then - exp1 else exp1) (exp1 <? 0) 10 0 (minw - 1)
         (Z.lor FLAGS_ZEROPAD FLAGS_PLUS)
         (emit A o m (if has flags1 FLAGS_UPPERCASE then ch "E" else ch "e") p)).
    assert (HN : uniform0 A N).
    { apply uniform0_bind; [done|].
      exact (uniform0_emit A _ _ (ntoa_long_uniform A _ _ _ _ _ _)). }
    destruct (has flags1 FLAGS_LEFT).
    + eapply uniform0_ext; [|exact (uniform0_pad A (Z.to_nat width) width N HN)].
      intros o m p. unfold N. fold (F o m p). by destruct (F o m p).
    + eapply uniform0_ext; [|exact HN].
      intros o m p. unfold N. fold (F o m p). destruct (F o m p); simpl; [|done].
      by destruct (ntoa_long _ _ _ _ _ _ _ _ _ _).
Qed.

Lemma ftoa_uniform A depth value prec width flags :
  uniform0 A (fun o m => ftoa A o m depth value prec width flags).
Proof. apply ftoa_etoa_uniform. Qed.

Lemma etoa_uniform A depth value prec width flags :
  uniform0 A (fun o m => etoa A o m depth value prec width flags).
Proof. apply ftoa_etoa_uniform. Qed.

Lemma int_spec_uniform A c flags width precision va :
  uniform A (fun o m => int_spec A o m c flags width precision va).
Proof.
  unfold int_spec. apply uniform_pure. intros [raw va'].
  apply uniform_bind0; [|apply (uniform_ret A va' [])].
  repeat apply uniform0_if; auto with cell; (apply uniform0_pure; intros n; auto with cell).
Qed.

Lemma pad_spaces_emits A o m l width p :
  pad_spaces A o m l width p = out_all A o m (replicate (Z.to_nat (width - l)) (ch " ")) p.
Proof. apply for_up_emit. Qed.

Lemma char_spec_uniform A flags width va :
  uniform A (fun o m => char_spec A o m flags width va).
Proof.
  unfold char_spec. destruct (has flags FLAGS_LEFT).
  - apply uniform_pure. intros [raw va'].
    eapply uniform_ext; [|exact (uniform_ret A va'
      (u8 raw :: replicate (Z.to_nat (width - 1)) (ch " ")))].
    intros o m p. by rewrite pad_spaces_emits.
  - apply uniform_pure. intros [raw va'].
    eapply uniform_ext; [|exact (uniform_ret A va'
      (replicate (Z.to_nat (width - 1)) (ch " ") ++ [u8 raw]))].
    intros o m p. by rewrite pad_spaces_emits, out_all_app.
Qed.

Lemma str_loop_uniform A s limited precision :
  uniform0 A (fun o m => str_loop A o m s limited precision).
Proof.
  revert precision. induction s as [|c s IH]; intros precision; simpl; [auto with cell|].
  repeat apply uniform0_if; auto with cell. exact (uniform0_emit A _ _ (IH _)).
Qed.

Lemma str_spec_uniform A flags width precision va :
  uniform A (fun o m => str_spec A o m flags width precision va).
Proof.
  unfold str_spec. apply uniform_pure. intros [s va']. apply uniform_pure. intros n.
  set (l := if has flags FLAGS_PRECISION then _ else _).
  set (R := fun o m => str_loop A o m s (has flags FLAGS_PRECISION) precision).
  assert (HR : uniform0 A R) by apply str_loop_uniform.
  destruct (has flags FLAGS_LEFT).
  - apply uniform_bind0; [exact HR|].
    eapply uniform_ext; [|exact (uniform_ret A va' (replicate (Z.to_nat (width - l)) (ch " ")))].
    intros o m p. by rewrite pad_spaces_emits.
  - eapply uniform_ext; [|exact (uniform_text A (replicate (Z.to_nat (width - l)) (ch " ")) _
      (uniform_bind0 A R _ HR (uniform_ret A va' [])))].
    intros o m p. by rewrite pad_spaces_emits.
Qed.

Lemma ptr_spec_uniform A flags precision va :
  uniform A (fun o m => ptr_spec A o m flags precision va).
Proof.
  unfold ptr_spec. apply uniform_pure. intros [raw va'].
  apply uniform_bind0; [|apply (uniform_ret A va' [])].
  apply uniform0_if; auto with cell.
Qed.

Lemma specifier_uniform A depth c flags width precision va :
  uniform A (fun o m => specifier A depth o m c flags width precision va).
Proof.
  unfold specifier. repeat apply uniform_if;
    auto using int_spec_uniform, char_spec_uniform, str_spec_uniform, ptr_spec_uniform.
  - apply uniform_pure. intros [d va'].
    apply uniform_bind0; [apply ftoa_uniform|apply (uniform_ret A va' [])].
  - apply uniform_pure. intros [d va'].
    apply uniform_bind0; [apply etoa_uniform|apply (uniform_ret A va' [])].
  - apply (uniform_ret A va [ch "%"]).
  - apply (uniform_ret A va [c]).
Qed.

Lemma conversion_uniform A depth fmt va :
  uniform A (fun o m => conversion A depth o m fmt va).
Proof.
  unfold conversion. apply uniform_pure. intros [fmt1 flags1].
  apply uniform_pure. intros [[[fmt2 va2] flags2] width2].
  apply uniform_pure. intros [[[fmt3 va3] flags3] prec3].
  apply uniform_pure. intros [fmt4 flags4]. apply uniform_pure. intros c.
  apply (uniform_bind A (fun o m => specifier A depth o m c flags4 width2 prec3 va3)
           (fun va5 _ _ p => Some (tail fmt4, va5, p))); [apply specifier_uniform|].
  intros va5. apply (uniform_ret A (tail fmt4, va5) []).
Qed.

Lemma format_loop_uniform A depth fuel fmt va :
  uniform0 A (fun o m => format_loop A depth o m fuel fmt va).
Proof.
  revert fmt va. induction fuel as [|fuel IH]; intros fmt va; simpl; [auto with cell|].
  apply uniform0_pure. intros c. apply uniform0_if; [auto with cell|].
  apply uniform0_if; [|exact (uniform0_emit A _ _ (IH _ _))].
  destruct (conversion_uniform A depth (tail fmt) va) as [[[[fmt' va'] l]|] Hc].
  - eapply uniform0_ext; [|exact (uniform0_text A l _ (IH fmt' va'))].
    intros o m p. by rewrite Hc.
  - eapply uniform0_ext; [|apply uniform0_None]. intros o m p. by rewrite Hc.
Qed.

(** ** What the sinks do with a text *)

(** The console and the caller's function drop zero characters. *)
Definition nonzero (l : list Z) : list Z := filter (fun c => c <> 0) l.

Lemma out_all_char A m l st i :
  (out_all A OutChar m l (st, i)).1 =
  Sinks (buffer st) (putchars st ++ nonzero l) (fct_calls st).
Proof.
  revert st i. induction l as [|c l IH]; intros st i.
  - cbn. rewrite app_nil_r. by destruct st.
  - rewrite out_all_cons, IH.
    unfold nonzero. rewrite filter_cons. simpl. destruct (Z.eqb_spec c 0).
    + by rewrite decide_False by tauto.
    + rewrite decide_True by done. simpl. by rewrite <- app_assoc.
Qed.

Lemma out_all_fct A m l st i :
  (out_all A OutFct m l (st, i)).1 =
  Sinks (buffer st) (putchars st) (fct_calls st ++ nonzero l).
Proof.
  revert st i. induction l as [|c l IH]; intros st i.
  - cbn. rewrite app_nil_r. by destruct st.
  - rewrite out_all_cons, IH.
    unfold nonzero. rewrite filter_cons. simpl. destruct (Z.eqb_spec c 0).
    + by rewrite decide_False by tauto.
    + rewrite decide_True by done. simpl. by rewrite <- app_assoc.
Qed.

Lemma out_all_null A m l st i : (out_all A OutNull m l (st, i)).1 = st.
Proof. revert i. induction l as [|c l IH]; intros i; [done|]. apply IH. Qed.

Lemma out_all_snd A o m l st i :
  abi_ok A -> 0 <= i -> i + zlen l < 2 ^ ptr_bits A -> (out_all A o m l (st, i)).2 = i + zlen l.
Proof.
  intros HA. revert st i. induction l as [|c l IH]; intros st i Hi Hl; simpl in *; [lia|].
  fold (out_all A o m l (emit A o m c (st, i))). unfold emit. simpl.
  rewrite wrap_small by (unfold in_u; lia). rewrite IH by lia. lia.
Qed.

(** The buffer: character [k] of the text lands in cell [i + k] if that is below
    the limit. *)
Lemma out_all_buffer A m l st i :
  abi_ok A -> 0 <= i -> i + zlen l < 2 ^ ptr_bits A ->
  exists b, (out_all A OutBuffer m l (st, i)).1 = Sinks b (putchars st) (fct_calls st) /\
  forall k, b !! k = if bool_decide (i <= k < i + zlen l /\ k < m)
                     then l !! Z.to_nat (k - i) else buffer st !! k.
Proof.
  intros HA. revert st i. induction l as [|c l IH]; intros st i Hi Hl.
  - exists (buffer st). split; [by destruct st|]. intros k.
    rewrite bool_decide_false; [done|]. simpl. lia.
  - rewrite out_all_cons.
    cbn [length] in Hl. rewrite wrap_small by (unfold in_u; lia).
    destruct (IH (out OutBuffer c i m st) (i + 1) ltac:(lia) ltac:(lia)) as (b & Hb & Hk).
    exists b. split.
    { rewrite Hb. unfold out. by destruct (i <? m). }
    intros k. rewrite Hk. cbn [length]. clear Hb Hk.
    destruct (decide (k = i)) as [->|Hne].
    + rewrite bool_decide_false by lia. replace (Z.to_nat (i - i)) with 0%nat by lia.
      unfold out. destruct (Z.ltb_spec i m).
      * rewrite bool_decide_true by lia. simpl. by rewrite lookup_insert_eq.
      * by rewrite bool_decide_false by lia.
    + destruct (decide (i + 1 <= k < i + 1 + zlen l /\ k < m)).
      * rewrite !bool_decide_true by lia.
        by replace (Z.to_nat (k - i)) with (S (Z.to_nat (k - (i + 1)))) by lia.
      * rewrite !bool_decide_false by lia. unfold out.
        destruct (i <? m); [|done]. simpl. by rewrite lookup_insert_ne.
Qed.

(** The contents of cell [k] after [snprintf] of a text [l] with [count] bytes:
    the text cut to [count - 1] characters, the terminating zero, and the rest
    as it was. *)
Definition snprintf_cell (count : Z) (l : list Z) (b : gmap Z Z) (k : Z) : option Z :=
  let n := Z.min (zlen l) (count - 1) in
  if bool_decide (0 <= k < n) then l !! Z.to_nat k
  else if k =? n then Some 0 else b !! k.

Lemma snprintf_buffer A depth fmt va l st count :
  abi_ok A -> emits0 A (fun o m => format_loop A depth o m (length fmt) fmt va) (Some l) ->
  zlen l < 2 ^ ptr_bits A -> 0 < count < 2 ^ ptr_bits A ->
  exists b, snprintf A depth false count fmt va st =
    Some (Sinks b (putchars st) (fct_calls st), s32 (zlen l)) /\
  forall k, b !! k = snprintf_cell count l (buffer st) k.
Proof.
  intros HA He Hl Hc. unfold snprintf, vsnprintf_. rewrite He.
  destruct (out_all_buffer A count l st 0 HA ltac:(lia) ltac:(lia)) as (b & Hb & Hk).
  pose proof (out_all_snd A OutBuffer count l st 0 HA ltac:(lia) ltac:(lia)) as Hi.
  destruct (out_all A OutBuffer count l (st, 0)) as [st1 idx]. simpl in Hb, Hi. subst st1 idx.
  cbn [mbind option_bind]. rewrite Z.add_0_l in *.
  set (n := if zlen l <? count then zlen l else _).
  assert (Hn : n = Z.min (zlen l) (count - 1)).
  { subst n. destruct (Z.ltb_spec (zlen l) count); [lia|]. rewrite wrap_small; unfold in_u; lia. }
  clearbody n. unfold out. rewrite (proj2 (Z.ltb_lt _ _)) by lia.
  eexists. split; [reflexivity|]. intros k. cbn [buffer]. unfold snprintf_cell. rewrite <- Hn.
  destruct (decide (k = n)) as [->|Hne].
  - rewrite lookup_insert_eq, Z.eqb_refl. by rewrite bool_decide_false by lia.
  - rewrite lookup_insert_ne by done. rewrite (proj2 (Z.eqb_neq k n)) by done. rewrite Hk.
    rewrite Z.sub_0_r. destruct (decide (0 <= k < n)).
    + by rewrite !bool_decide_true by lia.
    + by rewrite !bool_decide_false by lia.
Qed.

(** [sprintf] has no limit but the largest [size_t]. *)
Lemma sprintf_buffer A depth fmt va l st :
  abi_ok A -> emits0 A (fun o m => format_loop A depth o m (length fmt) fmt va) (Some l) -> zlen l < SIZE_MAX A ->
  exists b, sprintf A depth false fmt va st = Some (Sinks b (putchars st) (fct_calls st), s32 (zlen l)) /\
    forall k, b !! k = snprintf_cell (zlen l + 1) l (buffer st) k.
Proof.
  intros HA He Hl. destruct (abi_ptr A HA) as [Hp _]. unfold SIZE_MAX in *.
  destruct (snprintf_buffer A depth fmt va l st (SIZE_MAX A) HA He) as (b & E & Hb); [unfold SIZE_MAX; lia..|].
  exists b. split; [exact E|]. intros k. rewrite Hb. unfold snprintf_cell, SIZE_MAX.
  by replace (Z.min (zlen l) (2 ^ ptr_bits A - 1 - 1)) with (Z.min (zlen l) (zlen l + 1 - 1)) by lia.
Qed.



End PrintfFacts.
