(* ===== verification/PrintfNumbers.v ===== *)
(** * Number conversion in the formatted output library

    The conversion buffers never overflow, the integer conversions print the
    digits of the value with the sign and padding asked for, reading a printed
    number back gives the number, and the cases in which the floating-point and
    string conversions do not do what they are for. *)

From Stdlib Require Import SpecFloat.
From S2P Require Import Prelude CFloat Printf PrintfFacts.
Import CFloat Printf PrintfFacts.

Module PrintfNumbers.

(** ** The conversion buffer *)

Lemma push_Some (buf : list Z) (c : Z) : zlen buf < 32 -> push buf c = Some (buf ++ [c]).
Proof. intros. unfold push, NTOA_SIZE. by rewrite (proj2 (Z.ltb_lt _ _)). Qed.

Lemma zlen_snoc (buf : list Z) (c : Z) : zlen (buf ++ [c]) = zlen buf + 1.
Proof. rewrite length_app. simpl. lia. Qed.

Lemma pad_zeros_text (fuel : nat) (lim : Z) (buf : list Z) :
  zlen buf <= 32 -> 32 <= zlen buf + Z.of_nat fuel ->
  pad_zeros fuel lim buf =
  Some (buf ++ replicate (Z.to_nat (Z.min lim 32 - zlen buf)) (ch "0")).
Proof.
  revert buf. induction fuel as [|fuel IH]; intros buf Hl Hf.
  - simpl. unfold NTOA_SIZE. rewrite (proj2 (Z.ltb_ge (zlen buf) 32)) by lia.
    rewrite andb_false_r. replace (Z.to_nat _) with 0%nat by lia. by rewrite app_nil_r.
  - cbn [pad_zeros]. unfold NTOA_SIZE. destruct (Z.ltb_spec (zlen buf) lim);
      [destruct (Z.ltb_spec (zlen buf) 32)|]; cbn [andb].
    + rewrite push_Some by done. cbn [mbind option_bind].
      rewrite IH by (rewrite zlen_snoc; lia). rewrite zlen_snoc, <- app_assoc. f_equal. f_equal.
      replace (Z.to_nat (Z.min lim 32 - zlen buf))
        with (S (Z.to_nat (Z.min lim 32 - (zlen buf + 1)))) by lia. done.
    + replace (Z.to_nat _) with 0%nat by lia. by rewrite app_nil_r.
    + replace (Z.to_nat _) with 0%nat by lia. by rewrite app_nil_r.
Qed.

Definition digit_char (upper : bool) (d : Z) : Z :=
  if d <? 10 then ch "0" + d else (if upper then ch "A" else ch "a") + d - 10.

(** The digit loop stores the digits of the value, least significant first, as
    far as they fit. *)
Lemma ntoa_loop_digits (fuel : nat) (value base flags : Z) (buf : list Z) :
  2 <= base -> 0 <= value -> zlen buf < 32 -> 32 <= zlen buf + Z.of_nat fuel ->
  ntoa_loop fuel value base flags buf =
  Some (buf ++ map (digit_char (has flags FLAGS_UPPERCASE))
                 (take (32 - length buf) (digits base value))).
Proof.
  intros Hb. revert value buf. induction fuel as [|fuel IH]; intros value buf Hv Hl Hf; [lia|].
  cbn [ntoa_loop]. rewrite push_Some by done. cbn [mbind option_bind].
  fold (digit_char (has flags FLAGS_UPPERCASE) (value mod base)).
  rewrite (digits_eq base value) by done. unfold NTOA_SIZE. rewrite zlen_snoc.
  replace (32 - length buf)%nat with (S (31 - length buf)) by lia.
  destruct (Z.eqb_spec (value / base) 0) as [Hq|Hq]; cbn [negb andb].
  { cbn [take map]. by rewrite take_nil. }
  destruct (Z.ltb_spec (zlen buf + 1) 32).
  - rewrite IH; [|apply Z.div_pos; lia|rewrite zlen_snoc; lia|rewrite zlen_snoc; lia].
    rewrite <- app_assoc, length_app. cbn [length take map app].
    by replace (32 - (length buf + 1))%nat with (31 - length buf)%nat by lia.
  - replace (31 - length buf)%nat with 0%nat by lia. done.
Qed.

Lemma ntoa_loop_start (value base flags : Z) :
  2 <= base -> 0 <= value ->
  ntoa_loop 32 value base flags [] =
  Some (map (digit_char (has flags FLAGS_UPPERCASE)) (take 32 (digits base value))).
Proof. intros. by rewrite ntoa_loop_digits. Qed.

(** ** Memory safety of the integer conversions *)

(** A buffer computation that stays within the 32 bytes. *)
Definition fits (r : option (list Z)) : Prop := exists buf, r = Some buf /\ zlen buf <= 32.

Lemma push_fits buf c : zlen buf < 32 -> fits (push buf c).
Proof. intros. exists (buf ++ [c]). rewrite push_Some, zlen_snoc by done. split; [done|lia]. Qed.

Lemma Some_fits buf : zlen buf <= 32 -> fits (Some buf).
Proof. intros. by exists buf. Qed.

Lemma pad_zeros_fits lim buf : zlen buf <= 32 -> fits (pad_zeros 32 lim buf).
Proof.
  intros. eexists. split; [apply pad_zeros_text; lia|]. rewrite length_app, length_replicate. lia.
Qed.

Lemma fits_bind r f : fits r -> (forall buf, zlen buf <= 32 -> fits (f buf)) -> fits (r ≫= f).
Proof. intros (buf & -> & Hl) Hf. by apply Hf. Qed.

Lemma fits_guard buf (r : option (list Z)) :
  zlen buf <= 32 -> (zlen buf < 32 -> fits r) -> fits (if zlen buf <? NTOA_SIZE then r else Some buf).
Proof.
  intros Hl Hr. unfold NTOA_SIZE. destruct (Z.ltb_spec (zlen buf) 32); [auto|by apply Some_fits].
Qed.

Lemma push_sign_fits buf neg flags : zlen buf <= 32 -> fits (push_sign buf neg flags).
Proof.
  intros Hl. apply fits_guard; [done|]. intros Hlt.
  repeat case_match; auto using push_fits, Some_fits with lia.
Qed.

Lemma removelast_le (buf : list Z) : zlen (removelast buf) <= zlen buf.
Proof. rewrite removelast_firstn_len, length_firstn. lia. Qed.

Lemma push_hash_fits buf base prec width flags :
  zlen buf <= 32 -> fits (push_hash buf base prec width flags).
Proof.
  intros Hl. unfold push_hash. cbv zeta.
  set (b1 := if negb (has flags FLAGS_PRECISION) && _ && _ then _ else _).
  assert (Hb1 : zlen b1 <= 32).
  { subst b1. pose proof (removelast_le buf). pose proof (removelast_le (removelast buf)).
    repeat case_match; lia. }
  clearbody b1. apply fits_bind.
  - unfold NTOA_SIZE.
    destruct (Z.ltb_spec (zlen b1) 32); rewrite ?andb_false_r, ?andb_true_r;
      [|by apply Some_fits].
    repeat case_match; auto using push_fits, Some_fits.
  - intros b2 H2. apply fits_guard; [done|]. apply push_fits.
Qed.

Lemma ntoa_format_safe A o m buf neg base prec width flags p :
  zlen buf <= 32 -> is_Some (ntoa_format A o m buf neg base prec width flags p).
Proof.
  intros Hl. unfold ntoa_format.
  assert (Hpad : exists b w, pad_leading buf neg prec width flags = Some (b, w) /\ zlen b <= 32).
  { unfold pad_leading. destruct (has flags FLAGS_LEFT); [by exists buf, width|]. cbv zeta.
    destruct (pad_zeros_fits prec buf Hl) as (b1 & -> & H1). cbn [mbind option_bind].
    destruct (has flags FLAGS_ZEROPAD); [|by do 2 eexists].
    match goal with |- context [pad_zeros 32 ?w b1] =>
      destruct (pad_zeros_fits w b1 H1) as (b2 & -> & H2) end. by do 2 eexists. }
  destruct Hpad as (b & w & -> & Hb). cbn [mbind option_bind].
  assert (H1 : fits (if has flags FLAGS_HASH then push_hash b base prec w flags else Some b))
    by (destruct (has flags FLAGS_HASH); auto using push_hash_fits, Some_fits).
  destruct H1 as (b1 & -> & H1). cbn [mbind option_bind].
  destruct (push_sign_fits b1 neg flags H1) as (b2 & -> & _). by eexists.
Qed.

(** C36: the integer conversions never store outside their 32-byte buffer,
    whatever the value, base, precision, width and flags. *)
Theorem ntoa_buffer_safe (A : abi) o m value neg base prec width flags p
  (Hb : 2 <= base) (Hv : 0 <= value) :
  is_Some (ntoa_long A o m value neg base prec width flags p) /\
  is_Some (ntoa_long_long A o m value neg base prec width flags p).
Proof.
  unfold ntoa_long, ntoa_long_long.
  set (fl := if value =? 0 then _ else flags). clearbody fl.
  assert (H : fits (if negb (has fl FLAGS_PRECISION) || negb (value =? 0)
                    then ntoa_loop 32 value base fl [] else Some [])).
  { case_match; [|by apply Some_fits]. rewrite ntoa_loop_start by done.
    apply Some_fits. rewrite length_map, length_take. lia. }
  destruct H as (buf & -> & Hl). cbn [mbind option_bind]. split; by apply ntoa_format_safe.
Qed.

Lemma ntoa_buffer_safe_witness :
  is_Some (ntoa_long_long riscv64 OutNull 0 (2 ^ 64 - 1) true 2 100 200 21 (Sinks ∅ [] [], 0)).
Proof. apply (ntoa_buffer_safe riscv64 OutNull 0 (2 ^ 64 - 1) true 2 100 200 21); lia. Defined.

(** ** The text of an integer *)

Definition sign_text (neg : bool) (flags : Z) : list Z :=
  if neg then [ch "-"] else if has flags FLAGS_PLUS then [ch "+"]
  else if has flags FLAGS_SPACE then [ch " "] else [].

(** The digits, most significant first. *)
Definition digit_text (base value flags : Z) : list Z :=
  reverse (map (digit_char (has flags FLAGS_UPPERCASE)) (digits base value)).

(** Sign and digits in a field of the given width: right-justified with spaces,
    left-justified, or filled with zeros between sign and digits. *)
Definition int_text (value : Z) (neg : bool) (base width flags : Z) : list Z :=
  let s := sign_text neg flags in
  let ds := digit_text base value flags in
  let fill c := replicate (Z.to_nat (width - (zlen s + zlen ds))) c in
  if has flags FLAGS_LEFT then s ++ ds ++ fill (ch " ")
  else if has flags FLAGS_ZEROPAD then s ++ fill (ch "0") ++ ds
  else fill (ch " ") ++ s ++ ds.

Lemma has_lor flags a b : has flags (Z.lor a b) = has flags a || has flags b.
Proof.
  unfold has. rewrite Z.land_lor_distr_r.
  destruct (Z.eqb_spec (Z.land flags a) 0) as [Ha|Ha], (Z.eqb_spec (Z.land flags b) 0) as [Hb|Hb];
    destruct (Z.eqb_spec (Z.lor (Z.land flags a) (Z.land flags b)) 0) as [Hab|Hab]; try done.
  - destruct Hab. by rewrite Ha, Hb.
  - apply Z.lor_eq_0_iff in Hab. tauto.
  - apply Z.lor_eq_0_iff in Hab. tauto.
  - apply Z.lor_eq_0_iff in Hab. tauto.
Qed.

Lemma sign_text_len neg flags :
  zlen (sign_text neg flags) =
  if neg || has flags (Z.lor FLAGS_PLUS FLAGS_SPACE) then 1 else 0.
Proof.
  rewrite has_lor. unfold sign_text.
  by destruct neg, (has flags FLAGS_PLUS), (has flags FLAGS_SPACE).
Qed.

Lemma push_sign_text buf neg flags :
  zlen buf < 32 -> push_sign buf neg flags = Some (buf ++ sign_text neg flags).
Proof.
  intros Hl. unfold push_sign, sign_text, NTOA_SIZE.
  rewrite (proj2 (Z.ltb_lt _ _)) by done. rewrite !push_Some by done.
  repeat case_match; rewrite ?app_nil_r; done.
Qed.

Lemma push_sign_text_full buf neg flags :
  zlen buf <= 32 -> sign_text neg flags = [] -> push_sign buf neg flags = Some buf.
Proof.
  intros Hl Hs. unfold push_sign, sign_text, NTOA_SIZE in *.
  repeat case_match; try done.
Qed.

Lemma reverse_sign neg flags : reverse (sign_text neg flags) = sign_text neg flags.
Proof. unfold sign_text. repeat case_match; done. Qed.

(** The leading-zero padding of a number without precision. *)
Lemma pad_leading_zero buf neg width flags :
  zlen buf < 32 -> 0 <= width ->
  has flags FLAGS_LEFT = false -> has flags FLAGS_ZEROPAD = true -> width <= 32 ->
  exists w, pad_leading buf neg 0 width flags =
    Some (buf ++ replicate (Z.to_nat (width - (zlen (sign_text neg flags) + zlen buf))) (ch "0"), w).
Proof.
  intros Hl Hw HL HZ Hw32. unfold pad_leading. rewrite HL, HZ, sign_text_len.
  rewrite pad_zeros_text by lia. cbn [mbind option_bind].
  replace (Z.to_nat (Z.min 0 32 - zlen buf)) with 0%nat by lia. rewrite app_nil_r.
  rewrite andb_true_r. eexists.
  rewrite pad_zeros_text by lia. cbn [mbind option_bind].
  match goal with |- Some (_ ++ replicate ?a _, _) = Some (_ ++ replicate ?b _, _) =>
    replace a with b; [reflexivity|] end.
  destruct (Z.eqb_spec width 0); destruct (neg || _); cbn [negb andb]; lia.
Qed.

Lemma ntoa_long_int_text A o m value neg base width flags p :
  abi_ok A -> 2 <= base < 2 ^ 32 -> 0 <= value -> zlen (digits base value) < 32 ->
  0 <= width < 2 ^ 32 -> (has flags FLAGS_ZEROPAD = true -> width <= 32) ->
  has flags FLAGS_HASH = false -> has flags FLAGS_PRECISION = false ->
  ntoa_long A o m value neg base 0 width flags p =
  Some (out_all A o m (int_text value neg base width flags) p).
Proof.
  intros HA Hb Hv Hd Hw Hw32 HH HP. unfold ntoa_long.
  assert (Hfl : (if value =? 0 then clear flags FLAGS_HASH else flags) = flags).
  { destruct (value =? 0); [|done]. unfold clear. apply Z.bits_inj'. intros i Hi.
    rewrite Z.land_spec, Z.lnot_spec by done.
    destruct (Z.testbit FLAGS_HASH i) eqn:E; [|by rewrite andb_true_r].
    unfold has in HH. apply negb_false_iff, Z.eqb_eq in HH.
    apply (f_equal (fun z => Z.testbit z i)) in HH.
    rewrite Z.land_spec, E, andb_true_r, Z.bits_0 in HH. by rewrite HH. }
  rewrite Hfl, HP. cbn [negb orb]. rewrite ntoa_loop_start by lia. cbn [mbind option_bind].
  rewrite take_ge by lia. set (ds := map _ (digits base value)).
  assert (Hds : zlen ds < 32) by (subst ds; by rewrite length_map).
  unfold ntoa_format. rewrite HH. unfold int_text, digit_text. fold ds. rewrite length_reverse.
  destruct (has flags FLAGS_LEFT) eqn:HL; [|destruct (has flags FLAGS_ZEROPAD) eqn:HZ].
  - unfold pad_leading. rewrite HL. cbn [mbind option_bind].
    rewrite push_sign_text by done. cbn [mbind option_bind]. rewrite out_rev_emits.
    unfold rev_text. rewrite HL. cbn [negb andb app].
    rewrite reverse_app, reverse_sign, length_app, length_reverse, <- app_assoc.
    do 5 f_equal. rewrite pad_count_exact; [f_equal; lia|done| |lia|lia].
    pose proof (abi_ptr A HA). pose proof (sign_text_len neg flags). case_match; lia.
  - destruct (pad_leading_zero ds neg width flags) as [w ->]; [done|lia|done|done|auto|].
    cbn [mbind option_bind]. set (k := Z.to_nat _).
    assert (Hk : zlen ds + Z.of_nat k <= 32 - zlen (sign_text neg flags) \/ k = 0%nat) by lia.
    assert (Hpush : push_sign (ds ++ replicate k (ch "0")) neg flags =
                    Some ((ds ++ replicate k (ch "0")) ++ sign_text neg flags)).
    { destruct (sign_text neg flags) eqn:Es.
      - rewrite push_sign_text_full, app_nil_r; [done| |done].
        rewrite length_app, length_replicate. cbn [length] in Hk. lia.
      - rewrite <- Es. apply push_sign_text. rewrite length_app, length_replicate.
        cbn [length] in Hk. lia. }
    rewrite Hpush. cbn [mbind option_bind]. rewrite out_rev_emits.
    unfold rev_text. rewrite HL, HZ. cbn [negb andb app].
    by rewrite !reverse_app, reverse_sign, reverse_replicate.
  - unfold pad_leading. rewrite HL, HZ, pad_zeros_text by lia. cbn [mbind option_bind].
    replace (Z.to_nat (Z.min 0 32 - zlen ds)) with 0%nat by lia. rewrite app_nil_r.
    rewrite push_sign_text by done. cbn [mbind option_bind]. rewrite out_rev_emits.
    unfold rev_text. rewrite HL, HZ. cbn [negb andb].
    rewrite andb_false_r. cbn [andb].
    rewrite reverse_app, reverse_sign, length_app. do 4 f_equal. lia.
Qed.

(** An integer converted without precision and alternate form prints as its
    sign, its digits in the base without leading zeros, and the fill of the
    field: spaces in front, spaces behind, or zeros after the sign. *)
Theorem ntoa_long_correct (A : abi) o m value neg base width flags p
  (HA : abi_ok A) (Hb : 2 <= base < 2 ^ 32) (Hv : 0 <= value)
  (Hd : zlen (digits base value) < 32) (Hw : 0 <= width <= 32)
  (HH : has flags FLAGS_HASH = false) (HP : has flags FLAGS_PRECISION = false) :
  ntoa_long A o m value neg base 0 width flags p =
  Some (out_all A o m (int_text value neg base width flags) p).
Proof. apply ntoa_long_int_text; auto with lia. Qed.

Lemma ntoa_long_correct_witness :
  (p ← ntoa_long riscv64 OutChar 100 255 true 16 0 6 FLAGS_ZEROPAD (Sinks ∅ [] [], 0);
   Some (putchars p.1)) = Some (bytes "-000ff").
Proof.
  rewrite (ntoa_long_correct riscv64 OutChar 100 255 true 16 6 FLAGS_ZEROPAD);
    [reflexivity|split; [reflexivity|right; reflexivity]|lia|lia|reflexivity|lia|reflexivity|reflexivity].
Defined.

(** ** Plain conversions, end to end *)

Lemma digits_text_dec (n : Z) :
  0 <= n -> digit_text 10 n 0 = reverse (map (fun d => ch "0" + d) (digits 10 n)).
Proof.
  intros Hn. unfold digit_text. f_equal. apply map_ext_in. intros d Hd.
  pose proof (digits_range 10 n ltac:(lia) Hn) as Hr.
  apply list_elem_of_In in Hd. rewrite Forall_forall in Hr. specialize (Hr d Hd).
  unfold digit_char. by rewrite (proj2 (Z.ltb_lt _ _)) by lia.
Qed.

Lemma dec_digits_small (n : Z) : 0 <= n < 2 ^ 64 -> zlen (digits 10 n) <= 20.
Proof.
  intros Hn. apply (Nat2Z.inj_le _ 20). apply digits_length; [lia| |lia].
  change (10 ^ Z.of_nat 20) with 100000000000000000000. lia.
Qed.

Lemma int_text_dec (v : Z) :
  int_text (Z.abs v) (v <? 0) 10 0 0 = dec_text v.
Proof.
  unfold int_text, dec_text. rewrite digits_text_dec by lia.
  change (has 0 FLAGS_LEFT) with false. change (has 0 FLAGS_ZEROPAD) with false. cbv iota.
  change (sign_text (v <? 0) 0) with (if v <? 0 then [ch "-"] else []).
  by replace (Z.to_nat _) with 0%nat by lia.
Qed.

Lemma nonzero_id (l : list Z) : Forall (fun c => c <> 0) l -> nonzero l = l.
Proof.
  unfold nonzero. induction 1 as [|c l Hc _ IH]; [done|].
  by rewrite filter_cons_True, IH.
Qed.

(** A specifier character that is neither flag, digit, asterisk, dot nor length
    modifier. *)
Definition plain (c : Z) : bool :=
  forallb (fun d => negb (c =? d)) (bytes "0-+ #*.lhtjz") && negb (is_digit c).

Lemma conversion_plain A depth o m c fmt va p :
  plain c = true ->
  conversion A depth o m (c :: fmt) va p =
  '(va, p) ← specifier A depth o m c 0 0 0 va p; Some (fmt, va, p).
Proof.
  unfold plain. intros Hc. apply andb_prop in Hc as [Hc Hd]. apply negb_true_iff in Hd.
  cbn [forallb bytes] in Hc. rewrite !andb_true_iff, !negb_true_iff in Hc.
  destruct Hc as (H1 & H2 & H3 & H4 & H5 & H6 & H7 & H8 & H9 & H10 & H11 & H12 & _).
  unfold conversion, parse_width, parse_precision, parse_length. cbn [parse_flags].
  rewrite H1, H2, H3, H4, H5. cbn [mbind option_bind head]. rewrite Hd, H6.
  cbn [mbind option_bind head]. rewrite H7. cbn [mbind option_bind head].
  by rewrite H8, H9, H10, H11, H12.
Qed.

Lemma magnitude_abs w z : in_s w (- z) -> magnitude w z = Some (Z.abs z).
Proof.
  intros H. unfold magnitude, negate. destruct (Z.gtb_spec z 0); [f_equal; lia|]. rewrite bool_decide_true by done. f_equal. lia.
Qed.

Lemma run_d A depth o m z p :
  format_loop A depth o m 3 (cstring "%d") [ArgInt z] p =
  n ← magnitude 32 (s32 z); ntoa_long A o m (u32 n) (s32 z <? 0) 10 0 0 0 p.
Proof.
  change (cstring "%d") with (37 :: ch "d" :: [0]). cbn [format_loop head mbind option_bind tail].
  change (37 =? 0) with false. change (37 =? ch "%") with true. cbv iota.
  rewrite conversion_plain by reflexivity.
  change (specifier A depth o m (ch "d") 0 0 0 [ArgInt z] p) with
    (p ← (n ← magnitude 32 (s32 z); ntoa_long A o m (u32 n) (s32 z <? 0) 10 0 0 0 p);
     Some (@nil arg, p)).
  destruct (magnitude 32 (s32 z)); [|done]. cbn [mbind option_bind]. by destruct (ntoa_long _ _ _ _ _ _ _ _ _ _).
Qed.

(** C35: [printf("%d", z)] prints the decimal numeral of every [int] but the least one,
    on every target, and returns its length; for the least [int] the code negates it,
    which is undefined. *)
Theorem printf_d_correct (A : abi) (depth : nat) (z : Z) (st : sinks)
  (HA : abi_ok A) (Hz : in_s 32 z) :
  printf A depth (cstring "%d") [ArgInt z] st =
  if z =? - 2 ^ 31 then None
  else Some (Sinks (buffer st) (putchars st ++ dec_text z) (fct_calls st), zlen (dec_text z)).
Proof.
  unfold printf, vsnprintf_. rewrite run_d, swrap_small by (done || lia).
  destruct (Z.eqb_spec z (- 2 ^ 31)) as [->|Hne]; [done|].
  unfold in_s in Hz. change (32 - 1) with 31 in Hz. rewrite magnitude_abs by (unfold in_s; change (32 - 1) with 31; lia). cbn [mbind option_bind].
  rewrite (wrap_small 32 (Z.abs z)) by (unfold in_u; lia).
  assert (Hd : zlen (digits 10 (Z.abs z)) <= 20)
    by (apply dec_digits_small; lia).
  rewrite ntoa_long_int_text; [|done|lia|lia|lia|lia|done|done|done].
  rewrite int_text_dec. cbn [mbind option_bind].
  assert (Hl : zlen (dec_text z) <= 21).
  { unfold dec_text. rewrite length_app, length_reverse, length_map. case_match; cbn [length]; lia. }
  pose proof (abi_ptr A HA) as [Hp _].
  pose proof (out_all_char A (SIZE_MAX A) (dec_text z) st 0) as H1.
  pose proof (out_all_snd A OutChar (SIZE_MAX A) (dec_text z) st 0 HA ltac:(lia) ltac:(lia)) as H2.
  destruct (out_all _ _ _ _ _) as [st1 i]. simpl in H1, H2. subst st1 i.
  rewrite swrap_small by (unfold in_s; lia). f_equal. f_equal. simpl. f_equal. f_equal.
  apply nonzero_id. unfold dec_text. apply Forall_app. split.
  { by case_match; repeat constructor. }
  apply Forall_reverse, Forall_map. eapply Forall_impl; [apply digits_range; lia|].
  intros d Hd'. change (ch "0") with 48. simpl in *. lia.
Qed.

Lemma printf_d_correct_witness :
  printf riscv64 5 (cstring "%d") [ArgInt (1 - 2 ^ 31)] (Sinks ∅ [] []) =
  Some (Sinks ∅ (bytes "-2147483647") [], 11).
Proof.
  rewrite (printf_d_correct riscv64 5 (1 - 2 ^ 31) (Sinks ∅ [] []));
    [reflexivity|split; [reflexivity|right; reflexivity]|unfold in_s; lia].
Defined.

(** ** Reading back *)

Lemma atoi_digits (ds rest : list Z) (c i : Z) :
  Forall (fun d => 0 <= d < 10) ds -> is_digit c = false -> 0 <= i ->
  atoi (map (fun d => ch "0" + d) ds ++ c :: rest) i =
  Some (c :: rest, wrap 32 (foldl (fun a d => a * 10 + d) i ds)) \/ ds = [].
Proof.
  intros Hds Hc. revert i. induction Hds as [|d ds Hd Hds IH]; intros i Hi; [by right|left].
  cbn [map app atoi]. unfold is_digit at 1.
  replace ((ch "0" <=? ch "0" + d) && (ch "0" + d <=? ch "9")) with true
    by (change (ch "0") with 48; change (ch "9") with 57; lia).
  replace (ch "0" + d - ch "0") with d by lia. cbn [foldl].
  destruct (IH (u32 (i * 10 + d))) as [-> | ->].
  { apply wrap_range. lia. }
  - do 2 f_equal. clear. revert i d. induction ds as [|e ds IH]; intros i d; cbn [foldl].
    + apply wrap_wrap.
    + rewrite <- (IH (u32 (i * 10 + d)) e), <- (IH (i * 10 + d) e). f_equal. f_equal. wrap_eq.
  - cbn [map app atoi foldl]. by rewrite Hc.
Qed.

(** The width reader [_atoi] inverts the number printer: reading the printed
    decimal digits of any 32-bit number up to the next non-digit gives the number
    and leaves the rest. *)
Theorem atoi_printed (n c : Z) (rest : list Z) (Hn : in_u 32 n) (Hc : is_digit c = false) :
  atoi (dec_text n ++ c :: rest) 0 = Some (c :: rest, n).
Proof.
  unfold in_u in Hn. unfold dec_text. rewrite (proj2 (Z.ltb_ge n 0)), Z.abs_eq by lia.
  cbn [app].
  rewrite <- map_reverse.
  destruct (atoi_digits (reverse (digits 10 n)) rest c 0) as [-> | He];
    [|done|lia| |].
  - apply Forall_reverse. apply digits_range; lia.
  - rewrite foldl_eval, eval_digits_digits by lia. rewrite wrap_small; [do 2 f_equal; lia|].
    unfold in_u. lia.
  - exfalso. apply (f_equal length) in He. rewrite length_reverse, digits_eq in He by lia. done.
Qed.

Lemma atoi_printed_witness :
  atoi (dec_text 4294967295 ++ bytes "d...") 0 = Some (bytes "d...", 4294967295).
Proof. apply (atoi_printed 4294967295 (ch "d")); [unfold in_u; lia|reflexivity]. Defined.

(** ** Strings *)

Lemma strnlen_s_text (s rest : list Z) (maxsize n : Z) :
  Forall (fun c => c <> 0) s -> 0 <= maxsize ->
  strnlen_s (s ++ 0 :: rest) maxsize n = Some (n + Z.min (zlen s) maxsize).
Proof.
  intros Hs. revert maxsize n. induction Hs as [|c s Hc Hs IH]; intros maxsize n Hm; cbn [app strnlen_s].
  - simpl. f_equal. lia.
  - rewrite (proj2 (Z.eqb_neq c 0)) by done. destruct (Z.eqb_spec maxsize 0).
    + f_equal. lia.
    + rewrite IH by lia. cbn [length]. f_equal. lia.
Qed.

Lemma str_loop_text A o m (s rest : list Z) (limited : bool) (precision : Z) p :
  Forall (fun c => c <> 0) s -> 0 <= precision ->
  str_loop A o m (s ++ 0 :: rest) limited precision p =
  Some (out_all A o m (if limited then take (Z.to_nat precision) s else s) p).
Proof.
  intros Hs. revert precision p.
  induction Hs as [|c s Hc Hs IH]; intros precision p Hp; cbn [app str_loop].
  - simpl. destruct limited; [by rewrite take_nil|done].
  - rewrite (proj2 (Z.eqb_neq c 0)) by done. destruct limited; cbn [andb].
    + destruct (Z.eqb_spec precision 0) as [->|]; [done|]. rewrite IH by lia.
      by replace (Z.to_nat precision) with (S (Z.to_nat (precision - 1))) by lia.
    + by rewrite IH.
Qed.

(** The text of a string conversion: the string, cut to the precision if one was
    given, in a field of the given width. *)
Definition str_text (s : list Z) (width precision flags : Z) : list Z :=
  let t := if has flags FLAGS_PRECISION then take (Z.to_nat precision) s else s in
  let fill := replicate (Z.to_nat (width - zlen t)) (ch " ") in
  if has flags FLAGS_LEFT then t ++ fill else fill ++ t.

(** [%s] prints the characters before the terminating zero, at most as many
    as the precision says, padded to the width on the side the flags say. *)
Theorem str_spec_correct (A : abi) o m (s rest : list Z) addr flags width precision va p
  (HA : abi_ok A) (Hs : Forall (fun c => c <> 0) s) (Hl : zlen s < 2 ^ 32)
  (Hp : 0 <= precision < 2 ^ 32)
  (H0 : has flags FLAGS_PRECISION = false -> precision = 0) :
  str_spec A o m flags width precision (ArgStr addr (s ++ 0 :: rest) :: va) p =
  Some (va, out_all A o m (str_text s width precision flags) p).
Proof.
  pose proof (abi_ptr A HA) as [Hptr _]. unfold str_spec. cbn [va_str mbind option_bind].
  rewrite strnlen_s_text by (done || (destruct (precision =? 0); lia)).
  cbn [mbind option_bind]. rewrite Z.add_0_l.
  rewrite wrap_small by (unfold in_u; destruct (precision =? 0); lia).
  set (t := if has flags FLAGS_PRECISION then take (Z.to_nat precision) s else s).
  set (l := if has flags FLAGS_PRECISION then Z.min _ precision else _).
  assert (Hlt : l = zlen t).
  { subst l t. destruct (has flags FLAGS_PRECISION).
    - rewrite length_take. destruct (Z.eqb_spec precision 0); lia.
    - rewrite H0 by done. rewrite Z.eqb_refl. lia. }
  rewrite str_loop_text by (done || lia). fold t. cbn [mbind option_bind].
  unfold str_text. fold t. rewrite <- Hlt.
  destruct (has flags FLAGS_LEFT); rewrite pad_spaces_emits, out_all_app; done.
Qed.

Lemma str_spec_correct_witness :
  ('(va, p) ← str_spec riscv64 OutChar 9 (Z.lor FLAGS_PRECISION FLAGS_LEFT) 5 3
      [ArgStr 0 (cstring "hello")] (Sinks ∅ [] [], 0); Some (putchars p.1)) = Some (bytes "hel  ").
Proof.
  change (cstring "hello") with (bytes "hello" ++ 0 :: []).
  rewrite (str_spec_correct riscv64); [reflexivity|split; [reflexivity|right; reflexivity]
    |repeat constructor; discriminate|reflexivity|lia|discriminate].
Defined.

(** ** Fixed-point conversion *)

Lemma limit_prec_run (fuel : nat) (prec : Z) (buf : list Z) :
  zlen buf + Z.of_nat fuel = 32 -> exists buf' prec',
  limit_prec fuel prec buf = Some (buf', prec') /\ zlen buf' <= 32 /\
  prec' = Z.max (Z.min 9 prec) (prec - Z.of_nat fuel).
Proof.
  revert prec buf. induction fuel as [|fuel IH]; intros prec buf Hf; cbn [limit_prec].
  - unfold FTOA_SIZE. rewrite (proj2 (Z.ltb_ge _ _)) by lia. cbn [andb].
    eexists _, _. split_and!; [done|lia|lia].
  - unfold FTOA_SIZE. rewrite (proj2 (Z.ltb_lt _ _)) by lia. cbn [andb].
    destruct (Z.gtb_spec prec 9).
    + rewrite push_Some by lia. cbn [mbind option_bind].
      destruct (IH (prec - 1) (buf ++ [ch "0"])) as (b & q & E & Hb & Hq); [rewrite zlen_snoc; lia|].
      exists b, q. split_and!; [done|done|lia].
    + eexists _, _. split_and!; [done|lia|lia].
Qed.

Lemma frac_loop_fits fuel frac count buf :
  zlen buf <= 32 -> 32 < zlen buf + Z.of_nat fuel ->
  exists b c, frac_loop fuel frac count buf = Some (b, c) /\ zlen b <= 32.
Proof.
  revert frac count buf. induction fuel as [|fuel IH]; intros frac count buf Hb Hf; [lia|].
  cbn [frac_loop]. unfold FTOA_SIZE. destruct (Z.ltb_spec (zlen buf) 32); [|eauto].
  rewrite push_Some by lia. cbn [mbind option_bind].
  destruct (_ =? 0); [|apply IH; rewrite zlen_snoc; lia].
  eexists _, _. split; [done|]. rewrite zlen_snoc. lia.
Qed.

Lemma frac_zeros_fits fuel count buf :
  zlen buf <= 32 -> 32 < zlen buf + Z.of_nat fuel -> fits (frac_zeros fuel count buf).
Proof.
  revert count buf. induction fuel as [|fuel IH]; intros count buf Hb Hf; [lia|].
  cbn [frac_zeros]. unfold FTOA_SIZE. destruct (Z.ltb_spec (zlen buf) 32); cbn [andb].
  2:{ by apply Some_fits. }
  destruct (count >? 0); [|by apply Some_fits].
  rewrite push_Some by lia. cbn [mbind option_bind]. apply IH; rewrite zlen_snoc; lia.
Qed.

Lemma whole_loop_fits fuel whole buf :
  zlen buf <= 32 -> 32 < zlen buf + Z.of_nat fuel -> fits (whole_loop fuel whole buf).
Proof.
  revert whole buf. induction fuel as [|fuel IH]; intros whole buf Hb Hf; [lia|].
  cbn [whole_loop]. unfold FTOA_SIZE. destruct (Z.ltb_spec (zlen buf) 32); [|by apply Some_fits].
  rewrite push_Some by lia. cbn [mbind option_bind].
  destruct (_ =? 0); [apply Some_fits|apply IH]; rewrite zlen_snoc; lia.
Qed.

Lemma pow10_lookup (prec : Z) : 0 <= prec -> is_Some (pow10 !! Z.to_nat prec) <-> prec <= 9.
Proof. intros H. rewrite lookup_lt_is_Some. change (length pow10) with 10%nat. lia. Qed.

(** C39: The fixed-point conversion stays inside its 32-byte buffer and its table of
    powers of ten exactly when the requested precision is at most 41; with more
    digits the table is indexed past its end, whatever the value is. *)
Theorem ftoa_fixed_safe (A : abi) o m (value : double) (prec width flags : Z) p
  (Hp : 0 <= prec) :
  is_Some (ftoa_fixed A o m value prec width flags p) <->
  (has flags FLAGS_PRECISION = true -> prec <= 41).
Proof.
  unfold ftoa_fixed.
  set (q := if has flags FLAGS_PRECISION then prec else DEFAULT_FLOAT_PRECISION).
  assert (Hq : 0 <= q) by (subst q; destruct (has _ _); [lia|done]).
  transitivity (q <= 41).
  2:{ subst q. destruct (has flags FLAGS_PRECISION); [tauto|]. split; [done|].
      intros _. unfold DEFAULT_FLOAT_PRECISION. lia. }
  clearbody q.
  destruct (limit_prec_run 32 q []) as (buf & q' & -> & Hb & ->); [done|]. cbn [mbind option_bind].
  transitivity (is_Some (pow10 !! Z.to_nat (Z.max (Z.min 9 q) (q - Z.of_nat 32)))).
  2:{ rewrite pow10_lookup by lia. lia. }
  destruct (pow10 !! _) as [p10|]; cbn [mbind option_bind]; [|done].
  split; [done|intros _].
  destruct (round_frac _ _ _ _ _) as [whole' frac'].
  set (r := if _ =? 0 then _ else _).
  assert (exists b w, r = Some (b, w) /\ zlen b <= 32) as (b & w & -> & Hb').
  { subst r. destruct (_ =? 0); [eauto|].
    edestruct frac_loop_fits as (b1 & c1 & -> & H1); [exact Hb|lia|]. cbn [mbind option_bind].
    destruct (frac_zeros_fits 33 c1 b1) as (b2 & -> & H2); [done|lia|]. cbn [mbind option_bind].
    destruct (fits_guard b2 (push b2 (ch "."))) as (b3 & E & H3);
      [done|intros; by apply push_fits|]. unfold FTOA_SIZE, NTOA_SIZE in *. rewrite E. eauto. }
  cbn [mbind option_bind].
  destruct (whole_loop_fits 33 w b) as (b2 & -> & H2); [done|lia|]. cbn [mbind option_bind].
  destruct (negb _ && _); cbn [mbind option_bind].
  - set (w' := if _ && _ then _ else _).
    destruct (pad_zeros_fits w' b2) as (b3 & -> & H3); [done|]. cbn [mbind option_bind].
    destruct (push_sign_fits b3 (dlt value dzero) flags) as (b4 & -> & H4); [done|]. done.
  - destruct (push_sign_fits b2 (dlt value dzero) flags) as (b4 & -> & H4); [done|]. done.
Qed.

Lemma ftoa_fixed_safe_witness :
  is_Some (ftoa_fixed riscv64 OutNull 0 dhalf 41 0 FLAGS_PRECISION (Sinks ∅ [] [], 0)) /\
  ~ is_Some (ftoa_fixed riscv64 OutNull 0 dhalf 42 0 FLAGS_PRECISION (Sinks ∅ [] [], 0)).
Proof.
  split.
  - apply ftoa_fixed_safe; lia.
  - rewrite ftoa_fixed_safe by lia. intros H. specialize (H eq_refl). lia.
Defined.

(** ** Where the conversions go wrong *)

(** A format that ends in a lone percent sign makes the interpreter step over
    the terminating zero and read past the end of the format string, for every
    entry point and all arguments. *)
Theorem trailing_percent_overread (A : abi) depth o null m (pre : list Z) va st
  (Hpre : Forall (fun c => c <> 0 /\ c <> ch "%") pre) :
  vsnprintf_ A depth o null m (pre ++ [ch "%"; 0]) va st = None.
Proof.
  unfold vsnprintf_. rewrite length_app. cbn [length].
  set (o' := if null then OutNull else o). clearbody o'.
  assert (H : forall p, format_loop A depth o' m (length pre + 2) (pre ++ [ch "%"; 0]) va p = None);
    [|by rewrite H].
  induction Hpre as [|c pre [Hc1 Hc2] _ IH]; intros p.
  - change (length [] + 2)%nat with 2%nat. cbn [app].
    cbn [format_loop head tail mbind option_bind].
    change (ch "%" =? 0) with false. change (ch "%" =? ch "%") with true. cbv iota.
    by rewrite conversion_plain by reflexivity.
  - cbn [length Nat.add app format_loop head tail mbind option_bind].
    rewrite (proj2 (Z.eqb_neq c 0)), (proj2 (Z.eqb_neq c (ch "%"))) by done. apply IH.
Qed.

Lemma trailing_percent_overread_witness :
  snprintf riscv64 3 false 16 (cstring "50%") [] (Sinks ∅ [] []) = None.
Proof.
  apply (trailing_percent_overread riscv64 3 OutBuffer false 16 (bytes "50")).
  repeat constructor; discriminate.
Defined.

(** With a precision, [%s] still looks at one character more than it prints:
    an array of exactly [precision] characters without terminating zero is read
    past its end. *)
Theorem str_precision_overread (A : abi) o m (s : list Z) addr flags width va p
  (Hs : Forall (fun c => c <> 0) s) :
  str_spec A o m flags width (zlen s) (ArgStr addr s :: va) p = None.
Proof.
  unfold str_spec. cbn [va_str mbind option_bind].
  assert (H : forall maxsize n, zlen s <= maxsize -> strnlen_s s maxsize n = None).
  { induction Hs as [|c s Hc _ IH]; intros maxsize n Hm; [done|]. cbn [strnlen_s length] in *.
    rewrite (proj2 (Z.eqb_neq c 0)) by done. rewrite (proj2 (Z.eqb_neq maxsize 0)) by lia.
    apply IH. lia. }
  destruct (Z.eqb_spec (zlen s) 0) as [He|He].
  - destruct s; [done|]. cbn [length] in He. lia.
  - by rewrite H by lia.
Qed.

Lemma str_precision_overread_witness :
  str_spec riscv64 OutNull 0 FLAGS_PRECISION 0 2 [ArgStr 0 (bytes "hi")] (Sinks ∅ [] [], 0) = None.
Proof.
  apply (str_precision_overread riscv64 OutNull 0 (bytes "hi") 0 FLAGS_PRECISION 0 []).
  repeat constructor; discriminate.
Defined.

(** The double nearest to 0.95. *)
Definition d095 : double := lit 8556839292003942 (-53).

(** Rounding a fraction of exactly one half up to the next power of ten is not
    carried into the whole part: [printf("%.1f", 0.95)] prints 32 digits with no
    decimal point. *)
Theorem printf_f_rollover :
  printf riscv64 0 (cstring "%.1f") [ArgDbl d095] (Sinks ∅ [] []) =
  Some (Sinks ∅ (bytes "00000000000000000000000000000010") [], 32).
Proof. vm_compute. reflexivity. Qed.

(** Zero has no decimal exponent to estimate: [printf("%e", 0.0)] prints the
    exponent -308. *)
Theorem printf_e_zero :
  printf riscv64 3 (cstring "%e") [ArgDbl dzero] (Sinks ∅ [] []) =
  Some (Sinks ∅ (bytes "0.000000e-308") [], 13).
Proof. vm_compute. reflexivity. Qed.

End PrintfNumbers.
