(* ===== verification/LuaValue.v ===== *)
(** * Lua values

    The tagged values of lobject.h, the strings they point to, the character
    classes of lctype.c and the hash of lstring.c (src/cells/runtimes/lua/src/c/src).
    An object is identified by its address; collectable objects other than
    strings are opaque here. *)

From S2P Require Import Prelude Effects CFloat.

Module LuaValue.
Import CFloat.
Export Effects.

(** ** Values *)

(** [TString]: address, the [extra] and [hash] fields, and the bytes before the
    terminating zero. *)
Record TString := MkTString {
  ts_addr : Z;
  ts_extra : bool;
  ts_hash : Z;
  ts_data : list Z }.

(** The collectable types other than strings. *)
Inductive gctag := GUserdata | GTable | GThread | GLCL | GCCL.

(** [TValue], one constructor per variant tag. *)
Inductive TValue :=
  | VNil | VEmpty | VAbstKey
  | VFalse | VTrue
  | VInt (i : Z)
  | VFlt (n : double)
  | VShrStr (ts : TString)
  | VLngStr (ts : TString)
  | VLightUD (p : Z)
  | VLCF (f : Z)
  | VGC (tag : gctag) (p : Z).

Definition ttisnil (v : TValue) : bool :=
  match v with VNil | VEmpty | VAbstKey => true | _ => false end.
Definition isempty (v : TValue) : bool := ttisnil v.
Definition isabstkey (v : TValue) : bool := match v with VAbstKey => true | _ => false end.
Definition l_isfalse (v : TValue) : bool := match v with VFalse => true | _ => ttisnil v end.
Definition ttisinteger (v : TValue) : bool := match v with VInt _ => true | _ => false end.
Definition ttisfloat (v : TValue) : bool := match v with VFlt _ => true | _ => false end.
Definition ttisnumber (v : TValue) : bool := ttisinteger v || ttisfloat v.
Definition ttisstring (v : TValue) : bool :=
  match v with VShrStr _ | VLngStr _ => true | _ => false end.

(** The address of a collectable value. *)
Definition gcvalue (v : TValue) : option Z :=
  match v with
  | VShrStr ts | VLngStr ts => Some (ts_addr ts)
  | VGC _ p => Some p
  | _ => None
  end.
Definition iscollectable (v : TValue) : bool :=
  match gcvalue v with Some _ => true | None => false end.

#[export] Instance gctag_eq_dec : EqDecision gctag.
Proof. solve_decision. Defined.

(** ** Limits of the integer type *)

Definition LUA_MAXINTEGER : Z := 2 ^ 63 - 1.
Definition LUA_MININTEGER : Z := - 2 ^ 63.
Definition MAXASIZE : Z := 2 ^ 31.
Definition MAXABITS : Z := 31.
Definition MAXHBITS : Z := 30.
Definition MAXHSIZE : Z := 2 ^ 30.

(** ** Character classes *)

Definition luai_ctype_ : list Z :=
  [0x00] ++                                                                       (* EOZ *)
  (replicate 9 0x00 ++ replicate 5 0x08 ++ replicate 2 0x00) ++                   (* 0. *)
  replicate 16 0x00 ++                                                            (* 1. *)
  (0x0c :: replicate 15 0x04) ++                                                  (* 2. *)
  (replicate 10 0x16 ++ replicate 6 0x04) ++                                      (* 3. *)
  (0x04 :: replicate 6 0x15 ++ replicate 9 0x05) ++                               (* 4. *)
  (replicate 11 0x05 ++ replicate 4 0x04 ++ [0x05]) ++                            (* 5. *)
  (0x04 :: replicate 6 0x15 ++ replicate 9 0x05) ++                               (* 6. *)
  (replicate 11 0x05 ++ replicate 4 0x04 ++ [0x00]) ++                            (* 7. *)
  replicate 128 0x00.                                                             (* 8. to f. *)

(** [testprop]; an index outside the table has no property here, the C code never
    uses one: its arguments are bytes or -1. *)
Definition testprop (c p : Z) : bool :=
  negb (Z.land (default 0 (luai_ctype_ !! Z.to_nat (c + 1))) p =? 0).

Definition lislalpha (c : Z) : bool := testprop c (Z.shiftl 1 0).
Definition lislalnum (c : Z) : bool := testprop c (Z.lor (Z.shiftl 1 0) (Z.shiftl 1 1)).
Definition lisdigit (c : Z) : bool := testprop c (Z.shiftl 1 1).
Definition lisprint (c : Z) : bool := testprop c (Z.shiftl 1 2).
Definition lisspace (c : Z) : bool := testprop c (Z.shiftl 1 3).
Definition lisxdigit (c : Z) : bool := testprop c (Z.shiftl 1 4).
Definition ltolower (c : Z) : Z := Z.lor c (Z.lxor 65 97).

(** ** Strings *)

(** [luaS_hash]: the loop runs from the last byte to the first. *)
Fixpoint hash_bytes (rev_str : list Z) (h : Z) : Z :=
  match rev_str with
  | [] => h
  | c :: s => hash_bytes s (Z.lxor h (u32 (u32 (Z.shiftl h 5) + Z.shiftr h 2 + c)))
  end.

Definition luaS_hash (str : list Z) (seed : Z) : Z :=
  hash_bytes (reverse str) (Z.lxor seed (u32 (zlen str))).

(** [luaS_hashlongstr]: the hash, and the string with the hash stored in it. *)
Definition luaS_hashlongstr (ts : TString) : Z * TString :=
  if ts_extra ts then (ts_hash ts, ts)
  else
    let h := luaS_hash (ts_data ts) (ts_hash ts) in
    (h, MkTString (ts_addr ts) true h (ts_data ts)).

Definition luaS_eqlngstr (a b : TString) : bool :=
  (ts_addr a =? ts_addr b) ||
  ((zlen (ts_data a) =? zlen (ts_data b)) && bool_decide (ts_data a = ts_data b)).

Definition eqshrstr (a b : TString) : bool := ts_addr a =? ts_addr b.

(** ** Facts on character classes *)

(** Every byte, and EOZ. *)
Lemma ctype_all (P : Z -> bool) :
  forallb P (map (fun n => Z.of_nat n - 1) (seq 0 257)) = true -> forall c, -1 <= c <= 255 -> P c = true.
Proof.
  rewrite forallb_forall. intros H c Hc. apply H. apply in_map_iff.
  exists (Z.to_nat (c + 1)). split; [lia|]. apply in_seq. lia.
Qed.

Lemma lisdigit_spec (c : Z) : -1 <= c <= 255 -> lisdigit c = (48 <=? c) && (c <=? 57).
Proof.
  intros Hc. apply Bool.eqb_prop. revert c Hc. apply ctype_all. vm_compute. reflexivity.
Qed.

Lemma lisspace_spec (c : Z) : -1 <= c <= 255 -> lisspace c = (c =? 32) || (9 <=? c) && (c <=? 13).
Proof.
  intros Hc. apply Bool.eqb_prop. revert c Hc. apply ctype_all. vm_compute. reflexivity.
Qed.

Lemma lisxdigit_spec (c : Z) :
  -1 <= c <= 255 ->
  lisxdigit c = (48 <=? c) && (c <=? 57) || (97 <=? c) && (c <=? 102) || (65 <=? c) && (c <=? 70).
Proof.
  intros Hc. apply Bool.eqb_prop. revert c Hc. apply ctype_all. vm_compute. reflexivity.
Qed.

End LuaValue.
