(* ===== verification/LuaNumber.v ===== *)
(** * Numbers of the Lua virtual machine

    Integer and float arithmetic, conversions between the two and comparisons:
    lvm.c, the arithmetic half of lobject.c and the macros of llimits.h and
    luaconf.h they use.  The C function [pow] is a parameter. *)

From Stdlib Require Import SpecFloat.
From S2P Require Import Prelude CFloat FloatFacts LuaValue.

Module LuaNumber.
Import CFloat FloatFacts LuaValue.
Open Scope string_scope.
Open Scope list_scope.
Open Scope Z_scope.

(** ** Integers *)

(** [intop(op, v1, v2)]: the operation on unsigned operands, converted back. *)
Definition intop (op : Z -> Z -> Z) (v1 v2 : Z) : Z := s64 (op (u64 v1) (u64 v2)).

Definition luaV_idiv (m n : Z) : res Z :=
  if u64 (u64 n + 1) <=? 1 then
    if n =? 0 then Err "attempt to divide by zero" else Ok (intop Z.sub 0 m)
  else
    let q := Z.quot m n in
    Ok (if (Z.lxor m n <? 0) && negb (Z.rem m n =? 0) then q - 1 else q).

Definition luaV_mod (m n : Z) : res Z :=
  if u64 (u64 n + 1) <=? 1 then
    if n =? 0 then Err "attempt to perform 'n%%0'" else Ok 0
  else
    let r := Z.rem m n in
    Ok (if negb (r =? 0) && (Z.lxor r n <? 0) then r + n else r).

Definition NBITS : Z := 64.

Definition luaV_shiftl (x y : Z) : Z :=
  if y <? 0 then
    if y <=? - NBITS then 0 else intop Z.shiftr x (- y)
  else
    if y >=? NBITS then 0 else intop Z.shiftl x y.

Definition luaV_shiftr (x y : Z) : Z := luaV_shiftl x (intop Z.sub 0 y).

(** ** Floats and conversions *)

Inductive F2Imod := F2Ieq | F2Ifloor | F2Iceil.

Definition cast_num (i : Z) : double := d_of_Z i.

Definition lua_numbertointeger (n : double) : option Z :=
  if dle (d_of_Z LUA_MININTEGER) n && dlt n (dneg (d_of_Z LUA_MININTEGER))
  then Some (d_trunc n) else None.

Definition luaV_flttointeger (n : double) (mode : F2Imod) : option Z :=
  let f := d_floor n in
  if negb (deq n f) then
    match mode with
    | F2Ieq => None
    | F2Iceil => lua_numbertointeger (dadd f (d_of_Z 1))
    | F2Ifloor => lua_numbertointeger f
    end
  else lua_numbertointeger f.

Definition luaV_tointegerns (obj : TValue) (mode : F2Imod) : option Z :=
  match obj with
  | VFlt n => luaV_flttointeger n mode
  | VInt i => Some i
  | _ => None
  end.

Definition tointegerns (o : TValue) : option Z :=
  match o with VInt i => Some i | _ => luaV_tointegerns o F2Ieq end.

Definition tonumberns (o : TValue) : option double :=
  match o with VFlt n => Some n | VInt i => Some (cast_num i) | _ => None end.

Definition luai_numidiv (a b : double) : double := d_floor (ddiv a b).

Definition luaV_modf (a b : double) : double :=
  let m := d_fmod a b in
  if (if dlt dzero m then dlt b dzero else dlt m dzero && dlt dzero b) then dadd m b else m.

(** ** Comparison *)

Definition MAXINTFITSF : Z := Z.shiftl 1 53.
Definition l_intfitsf (i : Z) : bool := u64 (MAXINTFITSF + u64 i) <=? 2 * MAXINTFITSF.

Definition LTintfloat (i : Z) (f : double) : bool :=
  if l_intfitsf i then dlt (cast_num i) f
  else match luaV_flttointeger f F2Iceil with
       | Some fi => i <? fi
       | None => dlt dzero f
       end.

Definition LEintfloat (i : Z) (f : double) : bool :=
  if l_intfitsf i then dle (cast_num i) f
  else match luaV_flttointeger f F2Ifloor with
       | Some fi => i <=? fi
       | None => dlt dzero f
       end.

Definition LTfloatint (f : double) (i : Z) : bool :=
  if l_intfitsf i then dlt f (cast_num i)
  else match luaV_flttointeger f F2Ifloor with
       | Some fi => fi <? i
       | None => dlt f dzero
       end.

Definition LEfloatint (f : double) (i : Z) : bool :=
  if l_intfitsf i then dle f (cast_num i)
  else match luaV_flttointeger f F2Iceil with
       | Some fi => fi <=? i
       | None => dlt f dzero
       end.

(** [LTnum], [LEnum]; [None] when an operand is not a number, which the callers
    rule out. *)
Definition LTnum (l r : TValue) : option bool :=
  match l, r with
  | VInt li, VInt ri => Some (li <? ri)
  | VInt li, VFlt rf => Some (LTintfloat li rf)
  | VFlt lf, VFlt rf => Some (dlt lf rf)
  | VFlt lf, VInt ri => Some (LTfloatint lf ri)
  | _, _ => None
  end.

Definition LEnum (l r : TValue) : option bool :=
  match l, r with
  | VInt li, VInt ri => Some (li <=? ri)
  | VInt li, VFlt rf => Some (LEintfloat li rf)
  | VFlt lf, VFlt rf => Some (dle lf rf)
  | VFlt lf, VInt ri => Some (LEfloatint lf ri)
  | _, _ => None
  end.

(** [luaV_equalobj] without metamethods ([L == NULL]). *)
Definition luaV_rawequalobj (t1 t2 : TValue) : bool :=
  match t1, t2 with
  | VNil, VNil | VEmpty, VEmpty | VAbstKey, VAbstKey | VFalse, VFalse | VTrue, VTrue => true
  | VInt i1, VInt i2 => i1 =? i2
  | VFlt n1, VFlt n2 => deq n1 n2
  | VInt _, VFlt _ | VFlt _, VInt _ =>
      match luaV_tointegerns t1 F2Ieq, luaV_tointegerns t2 F2Ieq with
      | Some i1, Some i2 => i1 =? i2
      | _, _ => false
      end
  | VLightUD p1, VLightUD p2 => p1 =? p2
  | VLCF f1, VLCF f2 => f1 =? f2
  | VShrStr s1, VShrStr s2 => eqshrstr s1 s2
  | VLngStr s1, VLngStr s2 => luaS_eqlngstr s1 s2
  | VGC g1 p1, VGC g2 p2 => bool_decide (g1 = g2) && (p1 =? p2)
  | _, _ => false
  end.

(** ** Arithmetic on values *)

Inductive arith_op :=
  | OPADD | OPSUB | OPMUL | OPMOD | OPPOW | OPDIV | OPIDIV
  | OPBAND | OPBOR | OPBXOR | OPSHL | OPSHR | OPUNM | OPBNOT.

Definition intarith (op : arith_op) (v1 v2 : Z) : res Z :=
  match op with
  | OPADD => Ok (intop Z.add v1 v2)
  | OPSUB => Ok (intop Z.sub v1 v2)
  | OPMUL => Ok (intop Z.mul v1 v2)
  | OPMOD => luaV_mod v1 v2
  | OPIDIV => luaV_idiv v1 v2
  | OPBAND => Ok (intop Z.land v1 v2)
  | OPBOR => Ok (intop Z.lor v1 v2)
  | OPBXOR => Ok (intop Z.lxor v1 v2)
  | OPSHL => Ok (luaV_shiftl v1 v2)
  | OPSHR => Ok (luaV_shiftr v1 v2)
  | OPUNM => Ok (intop Z.sub 0 v1)
  | OPBNOT => Ok (intop Z.lxor (u64 (Z.lnot 0)) v1)
  | OPDIV | OPPOW => Ok 0
  end.

Section floats.
Context (pow : double -> double -> double).

Definition luai_numpow (a b : double) : double :=
  if deq b (d_of_Z 2) then dmul a a else pow a b.

Definition numarith (op : arith_op) (v1 v2 : double) : double :=
  match op with
  | OPADD => dadd v1 v2
  | OPSUB => dsub v1 v2
  | OPMUL => dmul v1 v2
  | OPDIV => ddiv v1 v2
  | OPPOW => luai_numpow v1 v2
  | OPIDIV => luai_numidiv v1 v2
  | OPUNM => dneg v1
  | OPMOD => luaV_modf v1 v2
  | _ => dzero
  end.

(** [luaO_rawarith]: [Ok None] is the return value 0 (try a metamethod). *)
Definition luaO_rawarith (op : arith_op) (p1 p2 : TValue) : res (option TValue) :=
  let on_floats :=
    match tonumberns p1, tonumberns p2 with
    | Some n1, Some n2 => Ok (Some (VFlt (numarith op n1 n2)))
    | _, _ => Ok None
    end in
  let on_ints i1 i2 :=
    match intarith op i1 i2 with Ok i => Ok (Some (VInt i)) | Err e => Err e end in
  match op with
  | OPBAND | OPBOR | OPBXOR | OPSHL | OPSHR | OPBNOT =>
      match tointegerns p1, tointegerns p2 with
      | Some i1, Some i2 => on_ints i1 i2
      | _, _ => Ok None
      end
  | OPDIV | OPPOW => on_floats
  | _ =>
      match p1, p2 with
      | VInt i1, VInt i2 => on_ints i1 i2
      | _, _ => on_floats
      end
  end.
End floats.

(** ** Integer division and shifts *)

Lemma special_divisor (n : Z) : in_s 64 n -> (u64 (u64 n + 1) <=? 1) = (n =? 0) || (n =? -1).
Proof.
  unfold in_s, wrap. intros H. apply eq_true_iff_eq. rewrite orb_true_iff, !Z.eqb_eq, Z.leb_le.
  Z.div_mod_to_equations. lia.
Qed.

Lemma lxor_neg (a b : Z) : (Z.lxor a b <? 0) = xorb (a <? 0) (b <? 0).
Proof.
  pose proof (Z.lxor_nonneg a b). destruct (Z.ltb_spec a 0), (Z.ltb_spec b 0); cbn [xorb];
    (apply Z.ltb_lt || apply Z.ltb_ge); lia.
Qed.

Lemma div_unique_floor (m n q r : Z) :
  n <> 0 -> m = n * q + r -> 0 <= r < n \/ n < r <= 0 -> m / n = q /\ m mod n = r.
Proof.
  intros Hn Hm Hr. split; symmetry; [eapply Z.div_unique|eapply Z.mod_unique]; eauto; tauto.
Qed.

Lemma quot_floor (m n : Z) :
  n <> 0 -> let q := Z.quot m n in let r := Z.rem m n in
  (if (Z.lxor m n <? 0) && negb (r =? 0) then q - 1 else q) = m / n /\
  (if negb (r =? 0) && (Z.lxor r n <? 0) then r + n else r) = m mod n.
Proof.
  intros Hn q r. pose proof (Z.quot_rem m n Hn) as Hq. fold q r in Hq.
  rewrite !lxor_neg. pose proof (Z.rem_bound_pos m n). pose proof (Z.rem_bound_neg_neg m n).
  pose proof (Z.rem_bound_pos_neg m n). pose proof (Z.rem_bound_neg_pos m n).
  fold r in H, H0, H1, H2.
  destruct (div_unique_floor m n (if xorb (m <? 0) (n <? 0) && negb (r =? 0) then q - 1 else q)
    (if negb (r =? 0) && xorb (r <? 0) (n <? 0) then r + n else r)) as [-> ->]; [done| | |done].
  - destruct (Z.ltb_spec m 0), (Z.ltb_spec n 0), (Z.ltb_spec r 0), (Z.eqb_spec r 0); cbn [xorb negb andb]; lia.
  - destruct (Z.ltb_spec m 0), (Z.ltb_spec n 0), (Z.ltb_spec r 0), (Z.eqb_spec r 0); cbn [xorb negb andb]; lia.
Qed.

(** Integer division and modulo are floor division and its remainder for all
    operands, [mininteger // -1] wrapping around; both raise exactly when the
    divisor is zero. *)
Theorem luaV_idiv_mod_correct (m n : Z) (Hm : in_s 64 m) (Hn : in_s 64 n) :
  if n =? 0 then
    luaV_idiv m n = Err "attempt to divide by zero" /\ luaV_mod m n = Err "attempt to perform 'n%%0'"
  else
    luaV_idiv m n = Ok (s64 (m / n)) /\ luaV_mod m n = Ok (m mod n).
Proof.
  unfold luaV_idiv, luaV_mod. rewrite special_divisor by done.
  destruct (Z.eqb_spec n 0) as [->|H0]; [done|]. destruct (Z.eqb_spec n (-1)) as [->|H1]; cbn [orb].
  - destruct (div_unique_floor m (-1) (- m) 0) as [-> ->]; [lia..|]. split; [|done].
    unfold intop. f_equal. swrap_eq.
  - destruct (quot_floor m n H0) as [-> ->]. split; [|done]. f_equal. symmetry. apply swrap_small; [lia|].
    unfold in_s in *. change (2 ^ (64 - 1)) with (2 ^ 63) in *.
    pose proof (Z.div_mod m n H0). pose proof (Z.mod_pos_bound m n). pose proof (Z.mod_neg_bound m n).
    set (q := m / n) in *. set (r := m mod n) in *. set (b := 2 ^ 63) in *. clearbody q r.
    assert (0 < b) by done. clearbody b. split; destruct (Z.le_gt_cases n 0); nia.
Qed.

Lemma luaV_idiv_mod_correct_witness :
  luaV_idiv LUA_MININTEGER (-1) = Ok LUA_MININTEGER /\ luaV_mod (-7) 3 = Ok 2.
Proof.
  split.
  - destruct (luaV_idiv_mod_correct LUA_MININTEGER (-1)) as [H _]; [split; by vm_compute..|exact H].
  - destruct (luaV_idiv_mod_correct (-7) 3) as [_ H]; [split; by vm_compute..|exact H].
Defined.

Lemma shiftl_unsigned (x y : Z) :
  in_s 64 y ->
  u64 (luaV_shiftl x y) = if 0 <=? y then u64 (u64 x * 2 ^ y) else u64 x / 2 ^ (- y).
Proof.
  intros Hy. unfold in_s in Hy. pose proof (wrap_range 64 x ltac:(lia)) as [Hx0 Hx1].
  unfold luaV_shiftl, NBITS, intop.
  destruct (Z.ltb_spec y 0), (Z.leb_spec 0 y); try lia.
  - destruct (Z.leb_spec y (- (64))).
    + rewrite Z.div_small; [done|]. pose proof (Z.pow_le_mono_r 2 64 (- y)). lia.
    + rewrite wrap_swrap, Z.shiftr_div_pow2 by (unfold wrap; Z.div_mod_to_equations; lia).
      rewrite (wrap_small 64 (- y)) by (unfold in_u; lia). rewrite wrap_small; [done|].
      pose proof (pow2_pos (- y) ltac:(lia)).
      split; [apply Z.div_pos; lia|]. apply Z.div_lt_upper_bound; nia.
  - destruct (Z.geb_spec y 64).
    + change (u64 0) with 0. replace y with (64 + (y - 64)) by lia.
      rewrite Z.pow_add_r, (Z.mul_comm (2 ^ 64)), Z.mul_assoc by lia. unfold wrap.
      by rewrite Z.mod_mul by lia.
    + rewrite wrap_swrap, (wrap_small 64 y) by (unfold in_u; lia).
      by rewrite Z.shiftl_mul_pow2 by lia.
Qed.

(** A left shift multiplies the unsigned operand by a power of two modulo
    2^64, a right shift divides it (filling with zeros), a negative count shifts
    the other way, and counts of 64 and more give zero; all counts included. *)
Theorem luaV_shift_correct (x y : Z) (Hy : in_s 64 y) :
  u64 (luaV_shiftl x y) = (if 0 <=? y then u64 (u64 x * 2 ^ y) else u64 x / 2 ^ (- y)) /\
  u64 (luaV_shiftr x y) = (if 0 <=? y then u64 x / 2 ^ y else u64 (u64 x * 2 ^ (- y))).
Proof.
  split; [by apply shiftl_unsigned|]. unfold luaV_shiftr.
  assert (Hi : intop Z.sub 0 y = if y =? LUA_MININTEGER then y else - y).
  { unfold intop. transitivity (s64 (- y)); [swrap_eq|].
    unfold in_s, LUA_MININTEGER in *. destruct (Z.eqb_spec y (- 2 ^ 63)) as [->|]; [done|].
    apply swrap_small; unfold in_s; lia. }
  rewrite shiftl_unsigned by (apply swrap_range; lia). rewrite Hi.
  pose proof (wrap_range 64 x ltac:(lia)) as [Hx0 Hx1].
  unfold in_s, LUA_MININTEGER in *. destruct (Z.eqb_spec y (- 2 ^ 63)) as [->|].
  - change (0 <=? - 2 ^ 63) with false. cbv iota. change (- - 2 ^ 63) with (64 + (2 ^ 63 - 64)).
    rewrite Z.pow_add_r by lia. pose proof (pow2_pos (2 ^ 63 - 64) ltac:(lia)) as Hp.
    generalize dependent (2 ^ (2 ^ 63 - 64)). intros k Hk.
    rewrite Z.div_small by nia. rewrite (Z.mul_comm (2 ^ 64)), Z.mul_assoc. unfold wrap.
    by rewrite Z.mod_mul by lia.
  - destruct (Z.leb_spec 0 y), (Z.leb_spec 0 (- y)); try lia; [|by rewrite Z.opp_involutive].
    assert (y = 0) as -> by lia. rewrite Z.div_1_r, Z.mul_1_r. apply wrap_wrap.
Qed.

Lemma luaV_shift_correct_witness : u64 (luaV_shiftr (-1) 60) = 15.
Proof. destruct (luaV_shift_correct (-1) 60) as [_ H]; [split; by vm_compute|exact H]. Defined.

(** ** Conversion of floats to integers *)

Lemma numbertointeger_holds (n : double) (k : Z) :
  holds n (k * one_u) ->
  lua_numbertointeger n = if bool_decide (in_s 64 k) then Some k else None.
Proof.
  intros Hn. pose proof one_u_pos as Hu. unfold lua_numbertointeger, LUA_MININTEGER.
  rewrite (dle_holds _ _ _ _ holds_min Hn).
  rewrite (dlt_holds _ _ _ _ Hn (holds_neg _ _ holds_min)).
  destruct Hn as (Hv & _ & Hun). rewrite d_trunc_units, Hun, Z.quot_mul by (done || lia).
  unfold in_s. change (2 ^ (64 - 1)) with (2 ^ 63). set (b := 2 ^ 63). clearbody b.
  destruct (Z.leb_spec (- b * one_u) (k * one_u)), (Z.ltb_spec (k * one_u) (- (- b * one_u)));
    cbn [andb]; [rewrite bool_decide_true|rewrite bool_decide_false..]; done || nia.
Qed.

(** Floor, ceiling and the exact integer of a finite double, as the modes of
    [luaV_flttointeger] ask for them. *)
Definition rounded (u : Z) (mode : F2Imod) : option Z :=
  match mode with
  | F2Ifloor => Some (u / one_u)
  | F2Iceil => Some (- (- u / one_u))
  | F2Ieq => if u mod one_u =? 0 then Some (u / one_u) else None
  end.

Definition in_range (k : option Z) : option Z :=
  match k with
  | Some k => if bool_decide (in_s 64 k) then Some k else None
  | None => None
  end.

Lemma nonintegral_small (n : double) (u : Z) :
  holds n u -> u mod one_u <> 0 -> Z.abs (u / one_u + 1) <= 2 ^ 53.
Proof.
  intros (Hv & Hf & <-) Hne. pose proof one_u_pos.
  destruct n as [| | |s m e]; try done. pose proof (valid_mantissa _ _ _ Hv) as Hm.
  apply valid_exponent in Hv. cbn [units] in *. destruct (Z.le_gt_cases 0 e).
  { exfalso. apply Hne. rewrite units_up by done. destruct s; [rewrite <- Z.mul_opp_l|]; apply Z.mod_mul; lia. }
  assert (Hlt : Zpos m * 2 ^ (e + 1074) < 2 ^ 53 * one_u).
  { rewrite (one_u_split e) by lia. pose proof (pow2_pos (e + 1074)). pose proof (pow2_pos (- e)). nia. }
  pose proof (pow2_pos (e + 1074)). set (a := Zpos m * 2 ^ (e + 1074)) in *. assert (0 < a) by lia.
  set (b := 2 ^ 53) in *. clearbody a b.
  destruct s.
  - pose proof (Z.div_le_lower_bound (- a) one_u (- b)). pose proof (Z.div_lt_upper_bound (- a) one_u 0). lia.
  - pose proof (Z.div_pos a one_u). pose proof (Z.div_lt_upper_bound a one_u b). lia.
Qed.

Lemma ceil_floor (u : Z) : u mod one_u <> 0 -> - (- u / one_u) = u / one_u + 1.
Proof.
  intros H. pose proof one_u_pos. rewrite Z.div_opp_l_nz by (done || lia). lia.
Qed.

Lemma div_exact_iff (u : Z) : (u =? u / one_u * one_u) = (u mod one_u =? 0).
Proof.
  pose proof one_u_pos. pose proof (Z.div_mod u one_u ltac:(lia)).
  apply eq_true_iff_eq. rewrite !Z.eqb_eq. lia.
Qed.

Lemma flttointeger_finite (n : double) (u : Z) (mode : F2Imod) :
  holds n u -> luaV_flttointeger n mode = in_range (rounded u mode).
Proof.
  intros Hn. pose proof one_u_pos. pose proof (d_floor_holds n u Hn) as Hfl.
  unfold luaV_flttointeger. rewrite (deq_holds _ _ _ _ Hn Hfl), div_exact_iff.
  destruct (Z.eqb_spec (u mod one_u) 0) as [H0|H0]; cbn [negb].
  - rewrite (numbertointeger_holds _ _ Hfl). unfold rounded, in_range.
    destruct mode; [by rewrite (proj2 (Z.eqb_eq _ _) H0)|done|].
    by rewrite Z.div_opp_l_z, Z.opp_involutive by (done || lia).
  - unfold rounded, in_range. destruct mode; [by rewrite (proj2 (Z.eqb_neq _ _) H0)| |].
    + by apply numbertointeger_holds.
    + rewrite ceil_floor by done. apply numbertointeger_holds.
      replace ((u / one_u + 1) * one_u) with (u / one_u * one_u + 1 * one_u) by lia.
      apply dadd_holds; [done|by apply d_of_Z_holds|].
      rewrite <- Z.mul_add_distr_r. by apply representable_int, (nonintegral_small n).
Qed.

Lemma flttointeger_special (n : double) (mode : F2Imod) :
  finite n = false -> luaV_flttointeger n mode = None.
Proof.
  unfold luaV_flttointeger. destruct n as [| [] | |]; try done; intros _; by destruct mode.
Qed.

(** ** Comparison of mixed numbers *)

(** The value of a number: finite in units of 2^-1074, infinite, or NaN. *)
Inductive number := NaN | Inf (negative : bool) | Fin (u : Z).

Definition number_of (v : TValue) : option number :=
  match v with
  | VInt i => Some (Fin (i * one_u))
  | VFlt n =>
      Some match n with
           | S754_nan => NaN
           | S754_infinity s => Inf s
           | _ => Fin (units n)
           end
  | _ => None
  end.

(** The order of the extended reals; NaN is not comparable. *)
Definition number_cmp (a b : number) : option comparison :=
  match a, b with
  | NaN, _ | _, NaN => None
  | Inf true, Inf true | Inf false, Inf false => Some Eq
  | Inf true, _ | _, Inf false => Some Lt
  | Inf false, _ | _, Inf true => Some Gt
  | Fin x, Fin y => Some (x ?= y)
  end.

Definition is_lt (c : option comparison) : bool := match c with Some Lt => true | _ => false end.
Definition is_le (c : option comparison) : bool := match c with Some Lt | Some Eq => true | _ => false end.
Definition is_eq (c : option comparison) : bool := match c with Some Eq => true | _ => false end.

(** A value the virtual machine can hold: a 64-bit integer or a binary64 float. *)
Definition number_ok (v : TValue) : Prop :=
  match v with VInt i => in_s 64 i | VFlt n => valid n | _ => False end.

Lemma intfits (i : Z) : in_s 64 i -> l_intfitsf i = (Z.abs i <=? 2 ^ 53).
Proof.
  unfold in_s, l_intfitsf, MAXINTFITSF, wrap. intros H. apply eq_true_iff_eq. rewrite !Z.leb_le.
  change (Z.shiftl 1 53) with (2 ^ 53). Z.div_mod_to_equations. lia.
Qed.

Lemma finite_cases (n : double) :
  valid n -> (n = S754_nan \/ exists s, n = S754_infinity s) \/
  (holds n (units n) /\ number_of (VFlt n) = Some (Fin (units n)) /\ finite n = true).
Proof. intros Hv. destruct n; eauto 10. all: right; split_and!; by try split_and!. Qed.

Lemma zero_holds : holds dzero 0.
Proof. done. Qed.

(** Where an integer lies relative to a finite value, in terms of the rounded
    value; a rounded value outside the integers is beyond all of them. *)
Lemma int_vs_floor (i u : Z) :
  in_s 64 i -> let k := u / one_u in
  if bool_decide (in_s 64 k) then (i <=? k) = (i * one_u <=? u) /\ (k <? i) = (u <? i * one_u)
  else (0 <? u) = (i * one_u <=? u) /\ (u <? 0) = (u <? i * one_u).
Proof.
  intros Hi k. pose proof one_u_pos. pose proof (Z.div_mod u one_u ltac:(lia)) as Hd.
  pose proof (Z.mod_pos_bound u one_u ltac:(lia)). fold k in Hd.
  set (r := u mod one_u) in *. clearbody r k. subst u. unfold in_s in *.
  case_bool_decide; split; apply eq_true_iff_eq; rewrite ?Z.leb_le, ?Z.ltb_lt; nia.
Qed.

Lemma int_vs_ceil (i u : Z) :
  in_s 64 i -> let k := - (- u / one_u) in
  if bool_decide (in_s 64 k) then (i <? k) = (i * one_u <? u) /\ (k <=? i) = (u <=? i * one_u)
  else (0 <? u) = (i * one_u <? u) /\ (u <? 0) = (u <=? i * one_u).
Proof.
  intros Hi k. pose proof one_u_pos. pose proof (Z.div_mod (- u) one_u ltac:(lia)) as Hd.
  pose proof (Z.mod_pos_bound (- u) one_u ltac:(lia)).
  replace (- u / one_u) with (- k) in Hd by lia.
  set (r := - u mod one_u) in *. clearbody r k. replace u with (one_u * k - r) by lia. unfold in_s in *.
  case_bool_decide; split; apply eq_true_iff_eq; rewrite ?Z.leb_le, ?Z.ltb_lt; nia.
Qed.

Lemma ltb_cmp (x y : Z) : is_lt (Some (x ?= y)) = (x <? y).
Proof. unfold Z.ltb. simpl. by destruct (_ ?= _). Qed.
Lemma leb_cmp (x y : Z) : is_le (Some (x ?= y)) = (x <=? y).
Proof. unfold Z.leb. simpl. by destruct (_ ?= _). Qed.

(** The four mixed comparisons against a double that is not finite. *)
Lemma mixed_special (i : Z) (f : double) :
  in_s 64 i -> f = S754_nan \/ (exists s, f = S754_infinity s) ->
  let c := number_cmp (Fin (i * one_u)) (match f with S754_infinity s => Inf s | _ => NaN end) in
  let c' := number_cmp (match f with S754_infinity s => Inf s | _ => NaN end) (Fin (i * one_u)) in
  LTintfloat i f = is_lt c /\ LEintfloat i f = is_le c /\
  LTfloatint f i = is_lt c' /\ LEfloatint f i = is_le c'.
Proof.
  intros Hi Hf. unfold LTintfloat, LEintfloat, LTfloatint, LEfloatint. rewrite (intfits i Hi).
  rewrite !flttointeger_special by (by destruct Hf as [->|[s ->]]).
  destruct (Z.leb_spec (Z.abs i) (2 ^ 53)).
  - destruct (d_of_Z_holds i) as (_ & Hfin & _); [done|]. unfold cast_num.
    destruct (d_of_Z i) as [| | |]; try done; destruct Hf as [->|[[] ->]]; done.
  - destruct Hf as [->|[[] ->]]; done.
Qed.

Lemma mixed_finite (i : Z) (f : double) (u : Z) :
  in_s 64 i -> holds f u ->
  LTintfloat i f = (i * one_u <? u) /\ LEintfloat i f = (i * one_u <=? u) /\
  LTfloatint f i = (u <? i * one_u) /\ LEfloatint f i = (u <=? i * one_u).
Proof.
  intros Hi Hf. unfold LTintfloat, LEintfloat, LTfloatint, LEfloatint. rewrite (intfits i Hi).
  destruct (Z.leb_spec (Z.abs i) (2 ^ 53)).
  - pose proof (d_of_Z_holds i ltac:(done)) as Hc. unfold cast_num.
    rewrite (dlt_holds _ _ _ _ Hc Hf), (dle_holds _ _ _ _ Hc Hf).
    by rewrite (dlt_holds _ _ _ _ Hf Hc), (dle_holds _ _ _ _ Hf Hc).
  - rewrite !(flttointeger_finite f u) by done. cbn [rounded in_range].
    rewrite (dlt_holds _ _ _ _ zero_holds Hf), (dlt_holds _ _ _ _ Hf zero_holds).
    pose proof (int_vs_floor i u Hi) as Hfl. pose proof (int_vs_ceil i u Hi) as Hce. cbv zeta in *.
    destruct (bool_decide (in_s 64 (u / one_u))), (bool_decide (in_s 64 (- (- u / one_u)))); tauto.
Qed.

Lemma eqb_cmp (x y : Z) : is_eq (Some (x ?= y)) = (x =? y).
Proof. rewrite Z.eqb_compare. simpl. by destruct (_ ?= _). Qed.

Lemma float_order (f g : double) a b :
  valid f -> valid g -> number_of (VFlt f) = Some a -> number_of (VFlt g) = Some b ->
  dlt f g = is_lt (number_cmp a b) /\ dle f g = is_le (number_cmp a b) /\ deq f g = is_eq (number_cmp a b).
Proof.
  intros Vf Vg Ha Hb.
  destruct (finite_cases f Vf) as [Hf|(Hf & Ef & Ff)], (finite_cases g Vg) as [Hg|(Hg & Eg & Fg)].
  - destruct Hf as [->|[[] ->]], Hg as [->|[[] ->]]; simplify_eq/=; done.
  - rewrite Hb in Eg. simplify_eq. destruct Hf as [->|[[] ->]]; simplify_eq/=; by destruct g.
  - rewrite Ha in Ef. simplify_eq. destruct Hg as [->|[[] ->]]; simplify_eq/=; by destruct f.
  - rewrite Ha in Ef. rewrite Hb in Eg. simplify_eq. cbn [number_cmp].
    rewrite ltb_cmp, leb_cmp, eqb_cmp.
    by rewrite (dlt_holds _ _ _ _ Hf Hg), (dle_holds _ _ _ _ Hf Hg), (deq_holds _ _ _ _ Hf Hg).
Qed.

Lemma tointeger_eq (i : Z) (f : double) (u : Z) :
  in_s 64 i -> holds f u ->
  match luaV_flttointeger f F2Ieq with Some k => i =? k | None => false end = (i * one_u =? u).
Proof.
  intros Hi Hf. rewrite (flttointeger_finite f u) by done. cbn [rounded].
  pose proof one_u_pos. pose proof (Z.div_mod u one_u ltac:(lia)) as Hd. unfold in_s in *.
  destruct (Z.eqb_spec (u mod one_u) 0) as [E|E]; cbn [in_range].
  - rewrite E in Hd. set (k := u / one_u) in *. clearbody k. subst u.
    unfold in_s. case_bool_decide; apply eq_true_iff_eq; rewrite ?Z.eqb_eq; split; intros; try done; nia.
  - symmetry. apply Z.eqb_neq. intros <-. by rewrite Z.mod_mul in E by lia.
Qed.

Lemma mixed_equal (i : Z) (f : double) b :
  in_s 64 i -> valid f -> number_of (VFlt f) = Some b ->
  match luaV_flttointeger f F2Ieq with Some k => i =? k | None => false end =
  is_eq (number_cmp (Fin (i * one_u)) b).
Proof.
  intros Hi Vf Hb. destruct (finite_cases f Vf) as [Hf|(Hf & Ef & _)].
  - rewrite flttointeger_special by (by destruct Hf as [->|[s ->]]).
    destruct Hf as [->|[[] ->]]; simplify_eq/=; done.
  - rewrite Hb in Ef. simplify_eq. cbn [number_cmp]. rewrite eqb_cmp. by apply tointeger_eq.
Qed.

Lemma number_cmp_eq_sym (a b : number) : is_eq (number_cmp a b) = is_eq (number_cmp b a).
Proof.
  destruct a as [|[]|x], b as [|[]|y]; try done. cbn [number_cmp]. rewrite !eqb_cmp. apply Z.eqb_sym.
Qed.

Lemma mixed_order (i : Z) (f : double) b :
  in_s 64 i -> valid f -> number_of (VFlt f) = Some b ->
  let c := number_cmp (Fin (i * one_u)) b in let c' := number_cmp b (Fin (i * one_u)) in
  LTintfloat i f = is_lt c /\ LEintfloat i f = is_le c /\
  LTfloatint f i = is_lt c' /\ LEfloatint f i = is_le c'.
Proof.
  intros Hi Vf Hb. destruct (finite_cases f Vf) as [Hf|(Hf & Ef & _)].
  - pose proof (mixed_special i f Hi Hf) as H.
    destruct Hf as [->|[s ->]]; simplify_eq/=; done.
  - rewrite Hb in Ef. simplify_eq. cbn [number_cmp]. rewrite !ltb_cmp, !leb_cmp. by apply mixed_finite.
Qed.

(** C40: [<], [<=] and raw equality of numbers are exact for every mix of 64-bit
    integers and doubles: they agree with the order of the real values (the
    infinities at its ends), with no loss from converting an integer to a float,
    and NaN compares false with everything. *)
Theorem number_order_exact (l r : TValue) (a b : number)
  (Hl : number_ok l) (Hr : number_ok r) (Ha : number_of l = Some a) (Hb : number_of r = Some b) :
  LTnum l r = Some (is_lt (number_cmp a b)) /\
  LEnum l r = Some (is_le (number_cmp a b)) /\
  luaV_rawequalobj l r = is_eq (number_cmp a b).
Proof.
  destruct l as [| | | | |i|f| | | | |], r as [| | | | |j|g| | | | |]; try done; cbn [number_ok] in *.
  - injection Ha as <-. injection Hb as <-. cbn [LTnum LEnum luaV_rawequalobj number_cmp].
    rewrite ltb_cmp, leb_cmp, eqb_cmp. pose proof one_u_pos.
    split_and!; [f_equal..|]; apply eq_true_iff_eq; rewrite ?Z.ltb_lt, ?Z.leb_le, ?Z.eqb_eq; nia.
  - injection Ha as <-. cbn [LTnum LEnum]. destruct (mixed_order i g b Hl Hr Hb) as (-> & -> & _).
    split_and!; [done..|]. by apply mixed_equal.
  - injection Hb as <-. cbn [LTnum LEnum]. destruct (mixed_order j f a Hr Hl Ha) as (_ & _ & -> & ->).
    split_and!; [done..|]. rewrite number_cmp_eq_sym, <- (mixed_equal j f a) by done.
    cbn [luaV_rawequalobj luaV_tointegerns]. destruct (luaV_flttointeger f F2Ieq); [apply Z.eqb_sym|done].
  - destruct (float_order f g a b Hl Hr Ha Hb) as (H1 & H2 & H3). cbn [LTnum LEnum luaV_rawequalobj].
    by rewrite H1, H2, H3.
Qed.

Lemma number_order_exact_witness :
  LTnum (VInt (2 ^ 53 + 1)) (VFlt (d_of_Z (2 ^ 53))) = Some false /\
  LTnum (VFlt (d_of_Z (2 ^ 53))) (VInt (2 ^ 53 + 1)) = Some true.
Proof.
  split.
  - destruct (number_order_exact (VInt (2 ^ 53 + 1)) (VFlt (d_of_Z (2 ^ 53)))
      (Fin ((2 ^ 53 + 1) * one_u)) (Fin (2 ^ 53 * one_u))) as (-> & _);
      [split; by vm_compute|reflexivity..|vm_compute; reflexivity].
  - destruct (number_order_exact (VFlt (d_of_Z (2 ^ 53))) (VInt (2 ^ 53 + 1))
      (Fin (2 ^ 53 * one_u)) (Fin ((2 ^ 53 + 1) * one_u))) as (-> & _);
      [reflexivity|split; by vm_compute|reflexivity..|vm_compute; reflexivity].
Defined.

(** Conversion of a float to an integer is exact: the floor, the ceiling or
    the integer value itself of the real number, and a failure exactly when that
    does not exist as a 64-bit integer. *)
Theorem luaV_flttointeger_exact (n : double) (mode : F2Imod) (Hn : valid n) :
  luaV_flttointeger n mode = if finite n then in_range (rounded (units n) mode) else None.
Proof.
  destruct (finite n) eqn:E; [|by apply flttointeger_special].
  apply flttointeger_finite. by split_and!.
Qed.

Lemma luaV_flttointeger_exact_witness :
  luaV_flttointeger (lit 7318349394477056 (-51)) F2Iceil = in_range (Some 4).
Proof.
  rewrite (luaV_flttointeger_exact (lit 7318349394477056 (-51)) F2Iceil); [|reflexivity].
  vm_compute. reflexivity.
Defined.

End LuaNumber.
