(* ===== verification/LuaConvert.v ===== *)
(** * Strings and numbers, messages and chunk names

    The conversions of lobject.c.  A C string is the list of its bytes up to the
    terminating zero; a position in it is the rest of the list.  [strtod] and the
    [%.14g] format of the C library, whose accuracy ISO C leaves open, and the
    decimal point of the locale are parameters. *)

From Stdlib Require Import SpecFloat.
From S2P Require Import Prelude CFloat LuaValue LuaNumber.

Module LuaConvert.
Import CFloat LuaValue LuaNumber.
Open Scope string_scope.
Open Scope list_scope.
Open Scope Z_scope.

(** [*s]; zero at the end. *)
Definition peek (s : list Z) : Z := match s with [] => 0 | c :: _ => c end.

Definition luaO_hexavalue (c : Z) : Z :=
  if lisdigit c then c - ch "0" else (ltolower c - ch "a") + 10.

Definition isneg (s : list Z) : bool * list Z :=
  match s with
  | c :: s' => if c =? ch "-" then (true, s') else if c =? ch "+" then (false, s') else (false, s)
  | [] => (false, [])
  end.

Fixpoint skip_spaces (s : list Z) : list Z :=
  match s with
  | c :: s' => if lisspace c then skip_spaces s' else s
  | [] => []
  end.

(** Whether [s] starts with 0x, and what follows. *)
Definition hex_prefix (s : list Z) : option (list Z) :=
  match s with
  | c :: d :: s' => if (c =? ch "0") && ((d =? ch "x") || (d =? ch "X")) then Some s' else None
  | _ => None
  end.

(** ** Integers *)

Definition MAXBY10 : Z := LUA_MAXINTEGER / 10.
Definition MAXLASTD : Z := LUA_MAXINTEGER mod 10.

Fixpoint hex_loop (s : list Z) (a : Z) (empty : bool) : Z * bool * list Z :=
  match s with
  | c :: s' => if lisxdigit c then hex_loop s' (u64 (a * 16 + luaO_hexavalue c)) false else (a, empty, s)
  | [] => (a, empty, [])
  end.

Fixpoint dec_loop (s : list Z) (neg : Z) (a : Z) (empty : bool) : option (Z * bool * list Z) :=
  match s with
  | c :: s' =>
      if lisdigit c then
        let d := c - ch "0" in
        if (a >=? MAXBY10) && ((a >? MAXBY10) || (d >? MAXLASTD + neg)) then None
        else dec_loop s' neg (u64 (a * 10 + d)) false
      else Some (a, empty, s)
  | [] => Some (a, empty, [])
  end.

(** [l_str2int]: the value and the position reached. *)
Definition l_str2int (s : list Z) : option (Z * list Z) :=
  let s := skip_spaces s in
  let '(neg, s) := isneg s in
  let r :=
    match hex_prefix s with
    | Some s' => Some (hex_loop s' 0 true)
    | None => dec_loop s (if neg then 1 else 0) 0 true
    end in
  match r with
  | None => None
  | Some (a, empty, s) =>
      let s := skip_spaces s in
      if empty || negb (peek s =? 0) then None
      else Some (s64 (if neg then u64 (0 - a) else a), s)
  end.

(** ** Floats *)

Definition MAXSIGDIG : Z := 30.
Definition L_MAXLENNUM : Z := 200.

(** A C [int] computation: [None] on overflow, which is undefined. *)
Definition int_of (z : Z) : option Z := if bool_decide (in_s 32 z) then Some z else None.

Section convert.
Context (strtod : list Z -> double * list Z) (decpoint : Z) (number2str : double -> list Z).

(** The numeral loop of [lua_strx2number]. *)
Fixpoint strx_loop (s : list Z) (r : double) (sigdig nosigdig e : Z) (hasdot : bool)
  : double * Z * Z * Z * list Z :=
  match s with
  | [] => (r, sigdig, nosigdig, e, [])
  | c :: s' =>
      if c =? decpoint then
        if hasdot then (r, sigdig, nosigdig, e, s)
        else strx_loop s' r sigdig nosigdig e true
      else if lisxdigit c then
        let de := if hasdot then 1 else 0 in
        if (sigdig =? 0) && (c =? ch "0") then
          strx_loop s' r sigdig (nosigdig + 1) (e - de) hasdot
        else if sigdig + 1 <=? MAXSIGDIG then
          strx_loop s' (dadd (dmul r (d_of_Z 16)) (d_of_Z (luaO_hexavalue c)))
            (sigdig + 1) nosigdig (e - de) hasdot
        else strx_loop s' r (sigdig + 1) nosigdig (e + 1 - de) hasdot
      else (r, sigdig, nosigdig, e, s)
  end.

Fixpoint exp_loop (s : list Z) (exp1 : Z) : option (Z * list Z) :=
  match s with
  | c :: s' =>
      if lisdigit c then exp1 ← int_of (exp1 * 10); exp1 ← int_of (exp1 + c); exp1 ← int_of (exp1 - ch "0"); exp_loop s' exp1
      else Some (exp1, s)
  | [] => Some (exp1, [])
  end.

Definition ldexp (r : double) (e : Z) : double := SFldexp 53 1024 r e.

(** [lua_strx2number]: the value and [endptr]. *)
Definition lua_strx2number (s0 : list Z) : option (double * list Z) :=
  let s := skip_spaces s0 in
  let '(neg, s) := isneg s in
  match hex_prefix s with
  | None => Some (dzero, s0)
  | Some s =>
      let '(r, sigdig, nosigdig, e, s) := strx_loop s dzero 0 0 0 false in
      if nosigdig + sigdig =? 0 then Some (dzero, s0)
      else
        e ← int_of (e * 4);
        '(invalid, e, s) ←
          (if (peek s =? ch "p") || (peek s =? ch "P") then
             let '(neg1, s1) := isneg (tail s) in
             if negb (lisdigit (peek s1)) then Some (true, e, s)
             else
               '(exp1, s1) ← exp_loop s1 0;
               e ← int_of (e + (if neg1 then - exp1 else exp1));
               Some (false, e, s1)
           else Some (false, e, s));
        if (invalid : bool) then Some (dzero, s)
        else Some (ldexp (if neg then dneg r else r) e, s)
  end.

(** [l_str2dloc]: on success the value and the position of the final zero. *)
Definition l_str2dloc (s : list Z) (hex : bool) : option (option (double * list Z)) :=
  '(result, endptr) ← (if hex then lua_strx2number s else Some (strtod s));
  if bool_decide (length endptr = length s) then Some None
  else
    let endptr := skip_spaces endptr in
    Some (if peek endptr =? 0 then Some (result, endptr) else None).

(** [strpbrk(s, ".xXnN")] up to case: the first special character. *)
Fixpoint str2d_mode (s : list Z) : Z :=
  match s with
  | [] => 0
  | c :: s' =>
      if (c =? ch ".") || (c =? ch "x") || (c =? ch "X") || (c =? ch "n") || (c =? ch "N")
      then ltolower c else str2d_mode s'
  end.

(** [strchr(s, '.')] replaced by the decimal point of the locale. *)
Fixpoint set_decpoint (s : list Z) : option (list Z) :=
  match s with
  | [] => None
  | c :: s' => if c =? ch "." then Some (decpoint :: s') else s'' ← set_decpoint s'; Some (c :: s'')
  end.

Definition l_str2d (s : list Z) : option (option (double * list Z)) :=
  let mode := str2d_mode s in
  if mode =? ch "n" then Some None
  else
    r ← l_str2dloc s (mode =? ch "x");
    match r with
    | Some _ => Some r
    | None =>
        match set_decpoint s with
        | None => Some None
        | Some buff =>
            if zlen s >? L_MAXLENNUM then Some None
            else
              r ← l_str2dloc buff (mode =? ch "x");
              Some (match r with
                    | Some (n, endptr) => Some (n, drop (length s - length endptr) s)
                    | None => None
                    end)
        end
    end.

(** [luaO_str2num]: the number and the size of the string with its zero; [None]
    inside for a failed conversion (return value 0). *)
Definition luaO_str2num (s : list Z) : option (option (TValue * Z)) :=
  match l_str2int s with
  | Some (i, e) => Some (Some (VInt i, zlen s - zlen e + 1))
  | None =>
      r ← l_str2d s;
      Some (match r with
            | Some (n, e) => Some (VFlt n, zlen s - zlen e + 1)
            | None => None
            end)
  end.

(** The C string that a Lua string starts with: the bytes before its first zero. *)
Fixpoint c_prefix (data : list Z) : list Z :=
  match data with
  | [] => []
  | c :: s => if c =? 0 then [] else c :: c_prefix s
  end.

(** [l_strton] *)
Definition l_strton (obj : TValue) : option (option TValue) :=
  match obj with
  | VShrStr ts | VLngStr ts =>
      r ← luaO_str2num (c_prefix (ts_data ts));
      Some (match r with
            | Some (v, size) => if size =? zlen (ts_data ts) + 1 then Some v else None
            | None => None
            end)
  | _ => Some None
  end.

Definition nvalue (v : TValue) : option double :=
  match v with VInt i => Some (cast_num i) | VFlt n => Some n | _ => None end.

(** [tonumber] with [luaV_tonumber_] *)
Definition tonumber (obj : TValue) : option (option double) :=
  match obj with
  | VFlt n => Some (Some n)
  | VInt i => Some (Some (cast_num i))
  | _ => r ← l_strton obj; Some (v ← r; nvalue v)
  end.

Definition luaV_tointeger (obj : TValue) (mode : F2Imod) : option (option Z) :=
  r ← l_strton obj;
  Some (luaV_tointegerns (match r with Some v => v | None => obj end) mode).

(** ** Numerical for loops *)

(** [forlimit]: whether to skip the loop, and the integer limit. *)
Definition forlimit (init : Z) (lim : TValue) (step : Z) : option (res (bool * Z)) :=
  r ← luaV_tointeger lim (if step <? 0 then F2Iceil else F2Ifloor);
  match r with
  | Some p => Some (Ok (if step >? 0 then init >? p else init <? p, p))
  | None =>
      flim ← tonumber lim;
      match flim with
      | None => Some (Err "bad 'for' limit")
      | Some flim =>
          if dlt (d_of_Z 0) flim then
            if step <? 0 then Some (Ok (true, 0))
            else
              let p := LUA_MAXINTEGER in
              Some (Ok (if step >? 0 then init >? p else init <? p, p))
          else
            if step >? 0 then Some (Ok (true, 0))
            else
              let p := LUA_MININTEGER in
              Some (Ok (if step >? 0 then init >? p else init <? p, p))
      end
  end.

(** The four stack slots of a loop: index, counter or limit, step, control
    variable. *)
Record forstate := ForState { f_idx : TValue; f_limit : TValue; f_step : TValue; f_var : TValue }.

(** The iteration counter of an integer loop. *)
Definition forcount (init limit step : Z) : Z :=
  if step >? 0 then
    let count := u64 (u64 limit - u64 init) in
    if negb (step =? 1) then count / u64 step else count
  else
    let count := u64 (u64 init - u64 limit) in
    count / u64 (u64 (- (step + 1)) + 1).

(** [forprep]: whether to skip the loop, and the prepared slots. *)
Definition forprep (f : forstate) : option (res (bool * forstate)) :=
  match f_idx f, f_step f with
  | VInt init, VInt step =>
      if step =? 0 then Some (Err "'for' step is zero")
      else
        let f := ForState (f_idx f) (f_limit f) (f_step f) (VInt init) in
        r ← forlimit init (f_limit f) step;
        match r with
        | Err e => Some (Err e)
        | Ok (true, _) => Some (Ok (true, f))
        | Ok (false, limit) =>
            let count := forcount init limit step in
            Some (Ok (false, ForState (f_idx f) (VInt (s64 count)) (f_step f) (f_var f)))
        end
  | _, _ =>
      limit ← tonumber (f_limit f);
      match limit with
      | None => Some (Err "bad 'for' limit")
      | Some limit =>
          step ← tonumber (f_step f);
          match step with
          | None => Some (Err "bad 'for' step")
          | Some step =>
              init ← tonumber (f_idx f);
              match init with
              | None => Some (Err "bad 'for' initial value")
              | Some init =>
                  if deq step (d_of_Z 0) then Some (Err "'for' step is zero")
                  else if (if dlt (d_of_Z 0) step then dlt limit init else dlt init limit)
                  then Some (Ok (true, f))
                  else Some (Ok (false, ForState (VFlt init) (VFlt limit) (VFlt step) (VFlt init)))
              end
          end
      end
  end.

(** [floatforloop]: the new slots if the loop continues. *)
Definition floatforloop (f : forstate) : option (option forstate) :=
  match f_idx f, f_limit f, f_step f with
  | VFlt idx, VFlt limit, VFlt step =>
      let idx := dadd idx step in
      if (if dlt (d_of_Z 0) step then dle idx limit else dle limit idx)
      then Some (Some (ForState (VFlt idx) (f_limit f) (f_step f) (VFlt idx)))
      else Some None
  | _, _, _ => None
  end.

(** The OP_FORLOOP instruction. *)
Definition forloop (f : forstate) : option (option forstate) :=
  match f_step f with
  | VInt step =>
      match f_limit f, f_idx f with
      | VInt c, VInt idx =>
          let count := u64 c in
          if count >? 0 then
            let idx := intop Z.add idx step in
            Some (Some (ForState (VInt idx) (VInt (s64 (count - 1))) (f_step f) (VInt idx)))
          else Some None
      | _, _ => None
      end
  | _ => floatforloop f
  end.

(** The values the control variable takes: the loop body runs once for each. *)
Fixpoint iterations (fuel : nat) (f : forstate) : option (list TValue) :=
  match fuel with
  | O => None
  | S fuel' =>
      r ← forloop f;
      match r with
      | None => Some [f_var f]
      | Some f' => l ← iterations fuel' f'; Some (f_var f :: l)
      end
  end.

Definition run_for (fuel : nat) (f : forstate) : option (res (list TValue)) :=
  r ← forprep f;
  match r with
  | Err e => Some (Err e)
  | Ok (true, _) => Some (Ok [])
  | Ok (false, f) => l ← iterations fuel f; Some (Ok l)
  end.
End convert.

(** ** Decimal numerals *)

Definition numeral (ds : list Z) : list Z := map (fun d => ch "0" + d) ds.
Definition value (ds : list Z) : Z := foldl (fun a d => a * 10 + d) 0 ds.

Lemma fold_mono (ds : list Z) (a : Z) :
  Forall (fun d => 0 <= d <= 9) ds -> 0 <= a -> a <= foldl (fun a d => a * 10 + d) a ds.
Proof.
  intros Hd. revert a. induction Hd as [|d ds Hd _ IH]; intros a Ha; [done|]. cbn [foldl].
  specialize (IH (a * 10 + d) ltac:(lia)). lia.
Qed.

Lemma numeral_digit (d : Z) : 0 <= d <= 9 -> lisdigit (ch "0" + d) = true.
Proof. intros Hd. change (ch "0") with 48. rewrite lisdigit_spec by lia. lia. Qed.

(** The overflow test of the decimal loop is exact. *)
Lemma dec_loop_spec (ds : list Z) (neg a : Z) (empty : bool) :
  Forall (fun d => 0 <= d <= 9) ds -> 0 <= neg <= 1 -> 0 <= a <= LUA_MAXINTEGER + neg ->
  dec_loop (numeral ds) neg a empty =
  let v := foldl (fun a d => a * 10 + d) a ds in
  if v <=? LUA_MAXINTEGER + neg then Some (v, match ds with [] => empty | _ => false end, []) else None.
Proof.
  intros Hds Hneg. revert a empty. induction Hds as [|d ds Hd Hds IH]; intros a empty Ha.
  { cbn [numeral map dec_loop foldl]. by rewrite (proj2 (Z.leb_le _ _)) by lia. }
  cbn [numeral map dec_loop foldl]. rewrite numeral_digit, Z.add_simpl_l by done.
  assert (Htest : (a >=? MAXBY10) && ((a >? MAXBY10) || (d >? MAXLASTD + neg)) =
                  negb (a * 10 + d <=? LUA_MAXINTEGER + neg)).
  { change MAXBY10 with 922337203685477580. change MAXLASTD with 7.
    change LUA_MAXINTEGER with 9223372036854775807.
    destruct (Z.geb_spec a 922337203685477580), (Z.gtb_spec a 922337203685477580),
      (Z.gtb_spec d (7 + neg)); cbn [andb orb]; symmetry;
      (apply negb_true_iff, Z.leb_gt || apply negb_false_iff, Z.leb_le); lia. }
  rewrite Htest. destruct (Z.leb_spec (a * 10 + d) (LUA_MAXINTEGER + neg)) as [Hle|Hgt]; cbn [negb].
  - rewrite wrap_small by (unfold in_u, LUA_MAXINTEGER in *; lia).
    rewrite IH by lia. cbv zeta. by destruct ds.
  - pose proof (fold_mono ds (a * 10 + d) Hds ltac:(lia)). cbv zeta.
    by rewrite (proj2 (Z.leb_gt _ _)) by lia.
Qed.

Lemma skip_spaces_numeral (ds : list Z) :
  Forall (fun d => 0 <= d <= 9) ds -> skip_spaces (numeral ds) = numeral ds.
Proof.
  intros [|d ds' Hd _]; [done|]. cbn [numeral map skip_spaces]. change (ch "0") with 48.
  rewrite lisspace_spec by lia. destruct (Z.eqb_spec (48 + d) 32); [lia|].
  destruct (Z.leb_spec (48 + d) 13); [lia|]. by rewrite andb_false_r.
Qed.

Lemma hex_prefix_numeral (ds : list Z) :
  Forall (fun d => 0 <= d <= 9) ds -> hex_prefix (numeral ds) = None.
Proof.
  intros [|d1 ds1 H1 [|d2 ds2 H2 _]]; [done|done|]. cbn [numeral map hex_prefix].
  change (ch "0") with 48. change (ch "x") with 120. change (ch "X") with 88.
  destruct (Z.eqb_spec (48 + d2) 120), (Z.eqb_spec (48 + d2) 88); try lia. by rewrite andb_false_r.
Qed.

(** A decimal numeral, with or without minus sign. *)
Lemma str2int_numeral (ds : list Z) (neg : bool) :
  Forall (fun d => 0 <= d <= 9) ds -> ds <> [] ->
  l_str2int ((if neg then [ch "-"] else []) ++ numeral ds) =
  if value ds <=? LUA_MAXINTEGER + (if neg then 1 else 0)
  then Some (if neg then - value ds else value ds, []) else None.
Proof.
  intros Hds Hne. unfold l_str2int.
  assert (Hsign : skip_spaces ((if neg then [ch "-"] else []) ++ numeral ds) =
    (if neg then [ch "-"] else []) ++ numeral ds).
  { destruct neg; [done|]. by apply skip_spaces_numeral. }
  rewrite Hsign. assert (Hneg : isneg ((if neg then [ch "-"] else []) ++ numeral ds) = (neg, numeral ds)).
  { destruct neg; [done|]. destruct Hds as [|d ds Hd Hds]; [done|]. cbn [app numeral map isneg].
    change (ch "0") with 48. change (ch "-") with 45. change (ch "+") with 43.
    rewrite (proj2 (Z.eqb_neq _ _)), (proj2 (Z.eqb_neq _ _)) by lia. done. }
  rewrite Hneg, hex_prefix_numeral by done.
  rewrite dec_loop_spec by (done || (unfold LUA_MAXINTEGER; destruct neg; lia)). fold (value ds). cbv zeta.
  destruct (Z.leb_spec (value ds) (LUA_MAXINTEGER + (if neg then 1 else 0))) as [Hle|]; [|done].
  destruct ds as [|d ds]; [done|]. cbn [skip_spaces orb peek Z.eqb negb]. do 2 f_equal.
  pose proof (fold_mono (d :: ds) 0 Hds ltac:(lia)). fold (value (d :: ds)) in *.
  set (v := value (d :: ds)) in *. clearbody v. unfold LUA_MAXINTEGER in Hle.
  destruct neg; [transitivity (s64 (- v)); [swrap_eq|]|]; apply swrap_small; unfold in_s; lia.
Qed.

(** A decimal numeral is converted to the integer it denotes exactly when that
    is a 64-bit integer, with no intermediate overflow, and rejected (to be read
    as a float) otherwise, for digit strings of any length. *)
Theorem l_str2int_decimal (ds : list Z) (neg : bool)
  (Hds : Forall (fun d => 0 <= d <= 9) ds) (Hne : ds <> []) :
  l_str2int ((if neg then [ch "-"] else []) ++ numeral ds) =
  let v := if neg then - value ds else value ds in
  if bool_decide (in_s 64 v) then Some (v, []) else None.
Proof.
  rewrite str2int_numeral by done. cbv zeta.
  assert (0 <= value ds) by (by apply (fold_mono ds 0 Hds)). unfold LUA_MAXINTEGER.
  destruct (Z.leb_spec (value ds) (2 ^ 63 - 1 + (if neg then 1 else 0))).
  - rewrite bool_decide_true; [done|]. unfold in_s. destruct neg; lia.
  - rewrite bool_decide_false; [done|]. unfold in_s. destruct neg; lia.
Qed.

Lemma l_str2int_decimal_witness :
  l_str2int (bytes "-9223372036854775808") = Some (LUA_MININTEGER, []) /\
  l_str2int (bytes "9223372036854775808") = None.
Proof.
  split.
  - apply (l_str2int_decimal [9;2;2;3;3;7;2;0;3;6;8;5;4;7;7;5;8;0;8] true); [repeat constructor; lia|discriminate].
  - apply (l_str2int_decimal [9;2;2;3;3;7;2;0;3;6;8;5;4;7;7;5;8;0;8] false); [repeat constructor; lia|discriminate].
Defined.

(** The text of an integer is read back as that integer: [tostring] and
    [tonumber] are inverse on all 64-bit integers. *)
Theorem integer_text_roundtrip strtod decpoint (i : Z) (Hi : in_s 64 i) :
  luaO_str2num strtod decpoint (dec_text i) = Some (Some (VInt i, zlen (dec_text i) + 1)).
Proof.
  unfold luaO_str2num. unfold dec_text at 1. rewrite <- map_reverse.
  change (map (fun d => ch "0" + d)) with numeral.
  pose proof (digits_range 10 (Z.abs i) ltac:(lia) ltac:(lia)) as Hr.
  assert (Hv : value (reverse (digits 10 (Z.abs i))) = Z.abs i).
  { unfold value. rewrite foldl_eval, Z.mul_0_l, Z.add_0_l. apply eval_digits_digits; lia. }
  rewrite str2int_numeral.
  - rewrite Hv. unfold in_s, LUA_MAXINTEGER in *.
    rewrite (proj2 (Z.leb_le _ _)) by (destruct (Z.ltb_spec i 0); lia). cbn [length].
    do 3 f_equal; [f_equal; destruct (Z.ltb_spec i 0); lia|]. simpl. lia.
  - apply Forall_reverse. eapply Forall_impl; [exact Hr|]. simpl. lia.
  - intros H. apply (f_equal reverse) in H. rewrite reverse_involutive, digits_eq in H by lia. by case_match.
Qed.

Lemma integer_text_roundtrip_witness :
  luaO_str2num (fun s => (dzero, s)) 46 (bytes "-42") = Some (Some (VInt (-42), 4)).
Proof. apply (integer_text_roundtrip (fun s => (dzero, s)) 46 (-42)). split; by vm_compute. Defined.

(** A hexadecimal exponent that does not fit an [int] overflows a signed
    integer: the digits are accumulated before any range check. *)
Theorem hex_exponent_overflow :
  lua_strx2number 46 (bytes "0x1p2147483648") = None.
Proof. vm_compute. reflexivity. Qed.
End LuaConvert.
