(* ===== verification/LuaFor.v ===== *)
(** * Numerical for loops of Lua

    What the control variable of an integer loop goes through, whatever number
    the limit is. *)

From Stdlib Require Import SpecFloat.
From S2P Require Import Prelude CFloat FloatFacts LuaValue LuaNumber LuaConvert.

Module LuaFor.
Import CFloat FloatFacts LuaValue LuaNumber LuaConvert.
Open Scope string_scope.
Open Scope list_scope.
Open Scope Z_scope.

Section loops.
Context (strtod : list Z -> double * list Z) (decpoint : Z).

(** [x] has not passed the limit [b] of a loop with this step. *)
Definition within (step : Z) (b : number) (x : Z) : bool :=
  if 0 <? step then is_le (number_cmp (Fin (x * one_u)) b) else is_le (number_cmp b (Fin (x * one_u))).

Definition within_int (step p x : Z) : bool := if 0 <? step then x <=? p else p <=? x.

Definition forlimit_post (init step : Z) (b : number) (r : bool * Z) : Prop :=
  match r with
  | (true, _) => within step b init = false
  | (false, p) => in_s 64 p /\ within step b init = true /\
      forall x, in_s 64 x -> within step b x = within_int step p x
  end.

Lemma forlimit_post_int (init step p : Z) (b : number) :
  step <> 0 -> in_s 64 init -> in_s 64 p ->
  (forall x, in_s 64 x -> within step b x = within_int step p x) ->
  forlimit_post init step b (if step >? 0 then init >? p else init <? p, p).
Proof.
  intros Hs Hi Hp Hx. pose proof (Hx init Hi) as H. unfold within_int in H.
  destruct (Z.gtb_spec step 0); [rewrite (proj2 (Z.ltb_lt _ _)) in H by lia|rewrite (proj2 (Z.ltb_ge _ _)) in H by lia].
  - destruct (Z.gtb_spec init p); simpl; [|split_and!; [done| |done]]; rewrite H; lia.
  - destruct (Z.ltb_spec init p); simpl; [|split_and!; [done| |done]]; rewrite H; lia.
Qed.

Lemma within_VInt (step limit x : Z) :
  within step (Fin (limit * one_u)) x = within_int step limit x.
Proof.
  unfold within, within_int. cbn [number_cmp]. rewrite !leb_cmp. pose proof one_u_pos.
  destruct (0 <? step); apply eq_true_iff_eq; rewrite !Z.leb_le; nia.
Qed.

Lemma within_float (step x u : Z) :
  step <> 0 -> in_s 64 x -> within step (Fin u) x =
  match in_range (rounded u (if step <? 0 then F2Iceil else F2Ifloor)) with
  | Some p => within_int step p x
  | None => if 0 <? step then 0 <? u else u <? 0
  end.
Proof.
  intros Hs Hx. unfold within, within_int. cbn [number_cmp]. rewrite !leb_cmp.
  pose proof (int_vs_floor x u Hx) as Hf. pose proof (int_vs_ceil x u Hx) as Hc. cbv zeta in *.
  destruct (Z.ltb_spec 0 step), (Z.ltb_spec step 0); try lia; cbn [rounded in_range].
  - destruct (bool_decide (in_s 64 (u / one_u))); symmetry; apply Hf.
  - destruct (bool_decide (in_s 64 (- (- u / one_u)))); symmetry; apply Hc.
Qed.

Lemma in_range_in_s k p : in_range k = Some p -> in_s 64 p.
Proof. unfold in_range. destruct k; [|done]. by case_bool_decide; intros [= ->]. Qed.

Lemma in_s_max x : in_s 64 x -> x <= LUA_MAXINTEGER.
Proof. unfold in_s, LUA_MAXINTEGER. lia. Qed.
Lemma in_s_min x : in_s 64 x -> LUA_MININTEGER <= x.
Proof. unfold in_s, LUA_MININTEGER. lia. Qed.

(** The clipped limit of a loop whose real limit has no integer rounding. *)
Lemma forlimit_clip (init step : Z) (b : number) (positive : bool) :
  step <> 0 -> in_s 64 init ->
  (forall x, in_s 64 x -> within step b x = if 0 <? step then positive else negb positive) ->
  forlimit_post init step b
    (if positive then
       if step <? 0 then (true, 0)
       else (if step >? 0 then init >? LUA_MAXINTEGER else init <? LUA_MAXINTEGER, LUA_MAXINTEGER)
     else
       if step >? 0 then (true, 0)
       else (if step >? 0 then init >? LUA_MININTEGER else init <? LUA_MININTEGER, LUA_MININTEGER)).
Proof.
  intros Hs Hi Hw. destruct positive.
  - destruct (Z.ltb_spec step 0).
    + simpl. rewrite Hw by done. by rewrite (proj2 (Z.ltb_ge 0 step)) by lia.
    + apply forlimit_post_int; [done|done|by split; vm_compute|]. intros x Hx. rewrite Hw by done.
      unfold within_int. rewrite (proj2 (Z.ltb_lt 0 step)) by lia. pose proof (in_s_max x Hx). symmetry. lia.
  - pose proof (forlimit_post_int init step LUA_MININTEGER b Hs Hi) as Hpost.
    destruct (Z.gtb_spec step 0).
    + simpl. rewrite Hw by done. by rewrite (proj2 (Z.ltb_lt 0 step)) by lia.
    + apply Hpost; [by split; vm_compute|]. intros x Hx. rewrite Hw by done.
      unfold within_int. rewrite (proj2 (Z.ltb_ge 0 step)) by lia. pose proof (in_s_min x Hx). symmetry. lia.
Qed.

Lemma forlimit_float (init step : Z) (f : double) (b : number) :
  step <> 0 -> in_s 64 init -> valid f -> number_of (VFlt f) = Some b -> b <> NaN \/ 0 < step ->
  exists r, forlimit strtod decpoint init (VFlt f) step = Some (Ok r) /\ forlimit_post init step b r.
Proof.
  intros Hs Hi Vf Hb Hn. unfold forlimit, luaV_tointeger. cbn [l_strton mbind option_bind luaV_tointegerns tonumber].
  set (mode := if step <? 0 then F2Iceil else F2Ifloor).
  assert (Hclip : luaV_flttointeger f mode = None ->
    (forall x, in_s 64 x -> within step b x = if 0 <? step then dlt (d_of_Z 0) f else negb (dlt (d_of_Z 0) f)) ->
    exists r, (match luaV_flttointeger f mode with
      | Some p => Some (Ok (if step >? 0 then init >? p else init <? p, p))
      | None => if dlt (d_of_Z 0) f
                then if step <? 0 then Some (Ok (true, 0))
                     else Some (Ok (if step >? 0 then init >? LUA_MAXINTEGER else init <? LUA_MAXINTEGER, LUA_MAXINTEGER))
                else if step >? 0 then Some (Ok (true, 0))
                     else Some (Ok (if step >? 0 then init >? LUA_MININTEGER else init <? LUA_MININTEGER, LUA_MININTEGER))
      end) = Some (Ok r) /\ forlimit_post init step b r).
  { intros -> Hw. eexists. split; [|exact (forlimit_clip init step b _ Hs Hi Hw)].
    destruct (dlt (d_of_Z 0) f), (step <? 0), (step >? 0); done. }
  destruct (finite_cases f Vf) as [Hf|(Hf & Ef & _)].
  - apply Hclip; [by apply flttointeger_special; destruct Hf as [->|[? ->]]|]. intros x Hx.
    destruct Hf as [->|[[] ->]]; simplify_eq/=; unfold within; destruct (Z.ltb_spec 0 step); try done.
    destruct Hn; [done|lia].
  - rewrite Hb in Ef. simplify_eq.
    destruct (luaV_flttointeger f mode) as [p|] eqn:E.
    + eexists. split; [done|]. rewrite (flttointeger_finite f _ _ Hf) in E.
      apply forlimit_post_int; [done|done|by eapply in_range_in_s|].
      intros x Hx. rewrite within_float by done. fold mode. by rewrite E.
    + apply Hclip; [done|]. intros x Hx. rewrite (flttointeger_finite f _ _ Hf) in E.
      rewrite within_float by done. fold mode. rewrite E.
      rewrite (dlt_holds (d_of_Z 0) f 0 (units f)) by done.
      destruct (0 <? step); [done|]. assert (units f <> 0); [|lia].
      intros H0. rewrite H0 in E. subst mode. by destruct (step <? 0).
Qed.

Lemma forlimit_spec (init step : Z) (lim : TValue) (b : number) :
  step <> 0 -> in_s 64 init -> number_ok lim -> number_of lim = Some b -> b <> NaN \/ 0 < step ->
  exists r, forlimit strtod decpoint init lim step = Some (Ok r) /\ forlimit_post init step b r.
Proof.
  intros Hs Hi Hlim Hb Hn. destruct lim as [| | | | |l|f| | | | |]; try done.
  - injection Hb as <-. unfold forlimit, luaV_tointeger. cbn [l_strton mbind option_bind luaV_tointegerns].
    eexists. split; [done|]. apply forlimit_post_int; [done..|]. intros x _. apply within_VInt.
  - by apply forlimit_float.
Qed.

(** ** The iteration count *)

Lemma forcount_spec (init p step : Z) :
  step <> 0 -> in_s 64 init -> in_s 64 p -> in_s 64 step -> within_int step p init = true ->
  forcount init p step = (p - init) / step /\ 0 <= (p - init) / step < 2 ^ 64.
Proof.
  intros Hs Hi Hp Hst Hw. unfold in_s, within_int in *. unfold forcount.
  destruct (Z.ltb_spec 0 step), (Z.gtb_spec step 0); try lia.
  - assert (Hd : u64 (u64 p - u64 init) = p - init).
    { transitivity (u64 (p - init)); [wrap_eq|]. apply wrap_small. unfold in_u. lia. }
    rewrite Hd, (wrap_small 64 step) by (unfold in_u; lia).
    assert (0 <= (p - init) / step < 2 ^ 64).
    { split; [apply Z.div_pos; lia|]. apply Z.div_lt_upper_bound; nia. }
    split; [|done]. destruct (Z.eqb_spec step 1) as [->|]; cbn [negb]; [by rewrite Z.div_1_r|done].
  - assert (Hd : u64 (u64 init - u64 p) = init - p).
    { transitivity (u64 (init - p)); [wrap_eq|]. apply wrap_small. unfold in_u. lia. }
    rewrite Hd, (wrap_small 64 (- (step + 1))), (wrap_small 64 (_ + 1)) by (unfold in_u; lia).
    replace (- (step + 1) + 1) with (- step) by lia.
    replace (p - init) with (- (init - p)) by lia.
    rewrite <- (Z.opp_involutive step) at 2 3 4. rewrite Z.div_opp_opp by lia. split; [done|].
    split; [apply Z.div_pos; lia|]. apply Z.div_lt_upper_bound; nia.
Qed.

(** The values [idx], [idx + step], ... of [n] iterations. *)
Definition steps (idx step : Z) (n : nat) : list TValue :=
  map (fun k => VInt (idx + Z.of_nat k * step)) (seq 0 n).

Lemma steps_S idx step n : steps idx step (S n) = VInt idx :: steps (idx + step) step n.
Proof.
  unfold steps. cbn [seq map]. f_equal; [f_equal; lia|].
  rewrite <- seq_shift, map_map. apply map_ext. intros k. f_equal. lia.
Qed.

Lemma iterations_int (c : nat) (fuel : nat) (idx step : Z) :
  (c < fuel)%nat -> Z.of_nat c < 2 ^ 64 -> in_s 64 idx ->
  (forall j, 0 <= j <= Z.of_nat c -> in_s 64 (idx + j * step)) ->
  iterations fuel (ForState (VInt idx) (VInt (s64 (Z.of_nat c))) (VInt step) (VInt idx)) =
  Some (steps idx step (S c)).
Proof.
  revert fuel idx. induction c as [|c IH]; intros fuel idx Hf Hc Hi Hr; (destruct fuel as [|fuel]; [lia|]);
    cbn [iterations]; unfold forloop; cbn [f_step f_limit f_idx f_var];
    rewrite wrap_swrap, wrap_small by (unfold in_u; lia).
  - cbn [Z.of_nat Z.gtb Z.compare mbind option_bind]. by rewrite (steps_S idx).
  - rewrite (proj2 (Z.gtb_lt _ _)) by lia. cbn [mbind option_bind].
    assert (Hx : intop Z.add idx step = idx + step).
    { unfold intop. transitivity (s64 (idx + step)); [swrap_eq|]. apply swrap_small; [lia|].
      specialize (Hr 1). rewrite Z.mul_1_l in Hr. apply Hr. lia. }
    rewrite Hx. replace (Z.of_nat (S c) - 1) with (Z.of_nat c) by lia.
    rewrite IH; [|lia|lia| |].
    + cbn [mbind option_bind]. by rewrite (steps_S idx).
    + specialize (Hr 1). rewrite Z.mul_1_l in Hr. apply Hr. lia.
    + intros j Hj. specialize (Hr (j + 1)). replace (idx + step + j * step) with (idx + (j + 1) * step) by lia.
      apply Hr. lia.
Qed.

(** An integer for loop with any number as limit runs its body for exactly the
    values [init], [init + step], ... that are 64-bit integers and have not
    passed the limit as a real number: it never wraps around, and terminates
    after that many iterations. *)
Theorem run_for_correct (init step : Z) (lim var : TValue) (b : number)
  (Hs : step <> 0) (Hi : in_s 64 init) (Hst : in_s 64 step)
  (Hlim : number_ok lim) (Hb : number_of lim = Some b) (Hn : b <> NaN \/ 0 < step) :
  exists n, (forall fuel, (n < fuel)%nat ->
    run_for strtod decpoint fuel (ForState (VInt init) lim (VInt step) var) =
    Some (Ok (steps init step n))) /\
  forall k, (k < n)%nat <->
    (forall j, 0 <= j <= Z.of_nat k -> in_s 64 (init + j * step) /\ within step b (init + j * step) = true).
Proof.
  destruct (forlimit_spec init step lim b Hs Hi Hlim Hb Hn) as ([skip p] & Hfl & Hpost).
  unfold run_for, forprep. cbn [f_idx f_step f_limit f_var].
  rewrite (proj2 (Z.eqb_neq step 0) Hs), Hfl. cbn [mbind option_bind].
  destruct skip.
  { exists 0%nat. split; [done|]. intros k. split; [lia|]. intros Hk.
    destruct (Hk 0 ltac:(lia)) as [_ Hw]. rewrite Z.mul_0_l, Z.add_0_r in Hw. simpl in Hpost. congruence. }
  destruct Hpost as (Hp & Hw0 & Hw). rewrite Hw in Hw0 by done.
  destruct (forcount_spec init p step Hs Hi Hp Hst Hw0) as (Hc & Hr).
  set (q := (p - init) / step) in *.
  assert (Hin : forall j, 0 <= j -> (j <= q <-> within_int step p (init + j * step) = true) /\
                          (j <= q -> in_s 64 (init + j * step))).
  { intros j Hj. pose proof (Z.div_mod (p - init) step Hs) as Hd. fold q in Hd.
    pose proof (Z.mod_pos_bound (p - init) step). pose proof (Z.mod_neg_bound (p - init) step).
    unfold within_int, in_s in *. clearbody q. destruct (Z.ltb_spec 0 step); rewrite Z.leb_le in *; nia. }
  exists (S (Z.to_nat q)). split.
  - intros fuel Hfuel. rewrite Hc. cbn [f_idx f_step f_var mbind option_bind].
    pose proof (iterations_int (Z.to_nat q) fuel init step) as Hit. rewrite Z2Nat.id in Hit by lia.
    rewrite Hit; [done|lia|lia|done|]. intros j Hj. apply Hin; lia.
  - intros k. split.
    + intros Hk j Hj. destruct (Hin j) as [H1 H2]; [lia|]. specialize (H2 ltac:(lia)).
      split; [done|]. rewrite Hw by done. apply H1. lia.
    + intros Hk. destruct (Hk (Z.of_nat k)) as [H1 H2]; [lia|]. rewrite Hw in H2 by done.
      apply Hin in H2; lia.
Qed.

(** A NaN limit is mistaken for a float below all integers: with a negative
    step the loop runs down to the least integer, although no value compares
    with NaN. *)
Theorem forlimit_nan (init step : Z) (Hi : in_s 64 init) (Hs : step < 0) :
  forlimit strtod decpoint init (VFlt S754_nan) step = Some (Ok (false, LUA_MININTEGER)) /\
  within step NaN init = false.
Proof.
  unfold forlimit, luaV_tointeger, within. cbn [l_strton mbind option_bind luaV_tointegerns tonumber].
  rewrite flttointeger_special by done. cbn [mbind option_bind].
  change (dlt (d_of_Z 0) S754_nan) with false. cbv iota.
  destruct (Z.gtb_spec step 0); [lia|]. rewrite (proj2 (Z.ltb_ge 0 step)) by lia.
  split; [|done]. pose proof (in_s_min init Hi). do 3 f_equal. lia.
Qed.
End loops.

(** The decimal parser is not involved in loops over numbers. *)
Definition no_strtod (s : list Z) : double * list Z := (dzero, s).

Lemma run_for_correct_witness :
  exists n, run_for no_strtod 46 100 (ForState (VInt 10) (VFlt (d_of_Z 3)) (VInt (-4)) VNil) =
  Some (Ok (steps 10 (-4) n)) /\ n = 2%nat.
Proof.
  destruct (run_for_correct no_strtod 46 10 (-4) (VFlt (d_of_Z 3)) VNil (Fin (3 * one_u))) as (n & Hrun & Hn);
    [lia|split; by vm_compute..|reflexivity|reflexivity|left; discriminate|].
  exists n. assert (n = 2%nat) as ->; [|split; [apply Hrun; lia|reflexivity]].
  assert (H1 : (1 < n)%nat). { apply Hn. intros j Hj. assert (j = 0 \/ j = 1) as [-> | ->] by lia; split; by vm_compute. }
  assert (H2 : ~ (2 < n)%nat). { intros H. apply Hn with (j := 2) in H as [_ H]; [by vm_compute in H|lia]. }
  lia.
Defined.

Lemma forlimit_nan_witness :
  forlimit no_strtod 46 3 (VFlt S754_nan) (-1) = Some (Ok (false, LUA_MININTEGER)).
Proof. apply forlimit_nan; [split; by vm_compute|lia]. Defined.
End LuaFor.
