(* ===== verification/LuaUtf8.v ===== *)
(** * UTF-8 in Lua

    The encoder [luaO_utf8esc] of lobject.c and the library functions of
    lutf8lib.c.  A string is the list of its bytes, followed by a zero in memory;
    [None] is undefined behaviour or lack of fuel, an inner [None] the C code's
    NULL. *)

From S2P Require Import Prelude LuaValue LuaConvert.

Module LuaUtf8.
Import LuaValue LuaConvert.
Open Scope string_scope.
Open Scope list_scope.
Open Scope Z_scope.

Definition UTF8BUFFSZ : Z := 8.
Definition MAXUNICODE : Z := 0x10FFFF.
Definition MAXUTF : Z := 0x7FFFFFFF.

(** ** Encoding *)

(** A store below the bytes already in the buffer, which fills backwards. *)
Definition put (c : Z) (buff : list Z) : option (list Z) :=
  if zlen buff <? UTF8BUFFSZ then Some (u8 c :: buff) else None.

(** The do-while loop: one continuation byte per round. *)
Fixpoint utf8esc_loop (fuel : nat) (x mfb : Z) (buff : list Z) : option (list Z) :=
  match fuel with
  | O => None
  | S fuel' =>
      buff ← put (Z.lor 0x80 (Z.land x 0x3f)) buff;
      let x := Z.shiftr x 6 in
      let mfb := Z.shiftr mfb 1 in
      if x >? mfb then utf8esc_loop fuel' x mfb buff
      else put (Z.lor (Z.shiftl (u32 (Z.lnot mfb)) 1) x) buff
  end.

(** [luaO_utf8esc]: the bytes at the end of the buffer. *)
Definition luaO_utf8esc (x : Z) : option (list Z) :=
  if x <? 0x80 then put x [] else utf8esc_loop 8 x 0x3f [].

(** ** Decoding *)

Definition iscont (c : Z) : bool := Z.land c 0xC0 =? 0x80.

Definition limits : list Z := [2 ^ 32 - 1; 0x80; 0x800; 0x10000; 0x200000; 0x4000000].

(** A shift of an [unsigned int]; undefined from 32 on. *)
Definition shl32 (x n : Z) : option Z := if n <? 32 then Some (u32 (Z.shiftl x n)) else None.

(** The loop over continuation bytes: first byte shifted, count, value, rest. *)
Fixpoint decode_loop (fuel : nat) (c count res : Z) (s : list Z) : option (option (Z * Z * Z * list Z)) :=
  if negb (Z.land c 0x40 =? 0) then
    match fuel with
    | O => None
    | S fuel' =>
        let cc := peek s in
        if negb (iscont cc) then Some None
        else decode_loop fuel' (u32 (Z.shiftl c 1)) (count + 1)
               (Z.lor (u32 (Z.shiftl res 6)) (Z.land cc 0x3F)) (tail s)
    end
  else Some (Some (c, count, res, s)).

Definition strict_ok (strict : bool) (res : Z) : bool :=
  negb (strict && ((res >? MAXUNICODE) || ((0xD800 <=? res) && (res <=? 0xDFFF)))).

(** [utf8_decode]: the code and the rest of the string. *)
Definition utf8_decode (s : list Z) (strict : bool) : option (option (Z * list Z)) :=
  let c := peek s in
  if c <? 0x80 then
    Some (if strict_ok strict c then Some (c, tail s) else None)
  else
    r ← decode_loop 32 c 0 0 (tail s);
    match r with
    | None => Some None
    | Some (c, count, res, s') =>
        hi ← shl32 (Z.land c 0x7F) (count * 5);
        let res := Z.lor res hi in
        if count >? 5 then Some None
        else
          limit ← limits !! Z.to_nat count;
          if (res >? MAXUTF) || (res <? limit) then Some None
          else Some (if strict_ok strict res then Some (res, s') else None)
    end.

(** ** Library functions *)

Definition u_posrelat (pos len : Z) : Z :=
  if pos >=? 0 then pos
  else if u64 (0 - u64 pos) >? len then 0
  else len + pos + 1.

(** The string from (0-based) position [i] on. *)
Definition at_ (s : list Z) (i : Z) : list Z := drop (Z.to_nat i) s.

(** The loop of [utflen]: [inl] is the position of an invalid sequence. *)
Fixpoint utflen_loop (fuel : nat) (s : list Z) (posi posj n : Z) (lax : bool) : option (Z + Z) :=
  if posi <=? posj then
    match fuel with
    | O => None
    | S fuel' =>
        r ← utf8_decode (at_ s posi) (negb lax);
        match r with
        | None => Some (inl (posi + 1))
        | Some (_, s1) => utflen_loop fuel' s (zlen s - zlen s1) posj (n + 1) lax
        end
    end
  else Some (inr n).

Definition utflen (s : list Z) (i j : Z) (lax : bool) : option (res (Z + Z)) :=
  let len := zlen s in
  let posi := u_posrelat i len in
  let posj := u_posrelat j len in
  if negb ((1 <=? posi) && (posi - 1 <=? len)) then Some (Err "initial position out of bounds")
  else if negb (posj - 1 <? len) then Some (Err "final position out of bounds")
  else r ← utflen_loop (S (length s)) s (posi - 1) (posj - 1) 0 lax; Some (Ok r).

(** The loop of [codepoint]; a sequence may end after [se]. *)
Fixpoint codepoint_loop (fuel : nat) (s : list Z) (pos se : Z) (lax : bool) : option (res (list Z)) :=
  if pos <? se then
    match fuel with
    | O => None
    | S fuel' =>
        r ← utf8_decode (at_ s pos) (negb lax);
        match r with
        | None => Some (Err "invalid UTF-8 code")
        | Some (code, s1) =>
            r ← codepoint_loop fuel' s (zlen s - zlen s1) se lax;
            Some (match r with Ok l => Ok (code :: l) | Err e => Err e end)
        end
    end
  else Some (Ok []).

(** [codepoint]; [stack_ok] stands for [luaL_checkstack]. *)
Definition codepoint (stack_ok : Z -> bool) (s : list Z) (i j : Z) (lax : bool) : option (res (list Z)) :=
  let len := zlen s in
  let posi := u_posrelat i len in
  let pose := u_posrelat j len in
  if negb (posi >=? 1) then Some (Err "out of bounds")
  else if negb (pose <=? len) then Some (Err "out of bounds")
  else if posi >? pose then Some (Ok [])
  else if pose - posi >=? 2 ^ 31 - 1 then Some (Err "string slice too long")
  else if negb (stack_ok (pose - posi + 1)) then Some (Err "string slice too long")
  else codepoint_loop (S (length s)) s (posi - 1) pose lax.

(** [pushutfchar] and [utfchar] *)
Definition pushutfchar (code : Z) : option (res (list Z)) :=
  if u64 code <=? MAXUTF then l ← luaO_utf8esc (u64 code); Some (Ok l)
  else Some (Err "value out of range").

Fixpoint utfchar (codes : list Z) : option (res (list Z)) :=
  match codes with
  | [] => Some (Ok [])
  | code :: codes' =>
      r ← pushutfchar code;
      match r with
      | Err e => Some (Err e)
      | Ok l =>
          r ← utfchar codes';
          Some (match r with Ok l' => Ok (l ++ l') | Err e => Err e end)
      end
  end.

(** The loops of [byteoffset]. *)
Fixpoint back_cont (fuel : nat) (s : list Z) (posi : Z) : option Z :=
  if (posi >? 0) && iscont (peek (at_ s posi)) then
    match fuel with O => None | S fuel' => back_cont fuel' s (posi - 1) end
  else Some posi.

Fixpoint forw_cont (fuel : nat) (s : list Z) (posi : Z) : option Z :=
  if iscont (peek (at_ s posi)) then
    match fuel with O => None | S fuel' => forw_cont fuel' s (posi + 1) end
  else Some posi.

Fixpoint move_back (fuel : nat) (s : list Z) (n posi : Z) : option (Z * Z) :=
  if (n <? 0) && (posi >? 0) then
    match fuel with
    | O => None
    | S fuel' => posi ← back_cont (length s) s (posi - 1); move_back fuel' s (n + 1) posi
    end
  else Some (n, posi).

Fixpoint move_forw (fuel : nat) (s : list Z) (n posi : Z) : option (Z * Z) :=
  if (n >? 0) && (posi <? zlen s) then
    match fuel with
    | O => None
    | S fuel' => posi ← forw_cont (length s) s (posi + 1); move_forw fuel' s (n - 1) posi
    end
  else Some (n, posi).

(** [byteoffset]: [Ok None] is the value [fail]. *)
Definition byteoffset (s : list Z) (n : Z) (i : option Z) : option (res (option Z)) :=
  let len := zlen s in
  let posi := u_posrelat (default (if n >=? 0 then 1 else len + 1) i) len in
  if negb ((1 <=? posi) && (posi - 1 <=? len)) then Some (Err "position out of bounds")
  else
    let posi := posi - 1 in
    let finish (r : Z * Z) := Ok (if r.1 =? 0 then Some (r.2 + 1) else None) in
    if n =? 0 then
      posi ← back_cont (length s) s posi; Some (finish (0, posi))
    else if iscont (peek (at_ s posi)) then
      Some (Err "initial position is a continuation byte")
    else if n <? 0 then
      r ← move_back (length s) s n posi; Some (finish r)
    else
      r ← move_forw (length s) s (n - 1) posi; Some (finish r).

(** [iter_aux]: [Ok None] ends the iteration. *)
Definition iter_aux (s : list Z) (n : Z) (strict : bool) : option (res (option (Z * Z))) :=
  let n := u64 n in
  n ← (if n <? zlen s then forw_cont (length s) s n else Some n);
  if n >=? zlen s then Some (Ok None)
  else
    r ← utf8_decode (at_ s n) strict;
    match r with
    | None => Some (Err "invalid UTF-8 code")
    | Some (code, next) =>
        if iscont (peek next) then Some (Err "invalid UTF-8 code")
        else Some (Ok (Some (s64 (n + 1), code)))
    end.

(** ** The shape of an encoding *)

(** [k] continuation bytes for the low [6 k] bits of [x]. *)
Fixpoint cbytes (k : nat) (x : Z) : list Z :=
  match k with
  | O => []
  | S k' => cbytes k' (x / 64) ++ [128 + x mod 64]
  end.

(** The number of continuation bytes of a code, and the marker bits of the first
    byte of such a sequence. *)
Definition clen (x : Z) : nat :=
  if x <? 0x80 then 0 else if x <? 0x800 then 1 else if x <? 0x10000 then 2
  else if x <? 0x200000 then 3 else if x <? 0x4000000 then 4 else 5.

Definition lead (k : nat) : Z := match k with O => 0 | _ => 256 - 2 ^ (7 - Z.of_nat k) end.

Definition encoding (x : Z) : list Z := lead (clen x) + x / 64 ^ Z.of_nat (clen x) :: cbytes (clen x) x.

Lemma cont_byte (x : Z) : u8 (Z.lor 0x80 (Z.land x 0x3f)) = 128 + x mod 64.
Proof.
  change 0x3f with (Z.ones 6). rewrite Z.land_ones by lia. change (2 ^ 6) with 64.
  pose proof (Z.mod_pos_bound x 64 ltac:(lia)) as Hr. set (r := x mod 64) in *. clearbody r.
  apply (byte_eq (fun r => u8 (Z.lor 0x80 r)) (fun r => 128 + r) 0 64); [vm_compute; reflexivity|lia].
Qed.

Lemma put_ok (c : Z) (buff : list Z) : zlen buff < 8 -> put c buff = Some (u8 c :: buff).
Proof. intros H. unfold put, UTF8BUFFSZ. by rewrite (proj2 (Z.ltb_lt _ _)). Qed.

(** One round of the encoder after [k] bytes; the bound in the first byte is
    [2 ^ (6 - k) - 1]. *)
Lemma esc_round (fuel k : nat) (x : Z) :
  (k < 5)%nat -> 0 <= x -> zlen (cbytes k x) = Z.of_nat k ->
  utf8esc_loop (S fuel) (x / 64 ^ Z.of_nat k) (2 ^ (6 - Z.of_nat k) - 1) (cbytes k x) =
  if x / 64 ^ Z.of_nat (S k) >? 2 ^ (5 - Z.of_nat k) - 1
  then utf8esc_loop fuel (x / 64 ^ Z.of_nat (S k)) (2 ^ (6 - Z.of_nat (S k)) - 1)
         ((128 + (x / 64 ^ Z.of_nat k) mod 64) :: cbytes k x)
  else Some (lead (S k) + x / 64 ^ Z.of_nat (S k) :: (128 + (x / 64 ^ Z.of_nat k) mod 64) :: cbytes k x).
Proof.
  intros Hk Hx Hl. cbn [utf8esc_loop]. rewrite put_ok, cont_byte by lia. cbn [mbind option_bind].
  rewrite !Z.shiftr_div_pow2 by lia. change (2 ^ 6) with 64. change (2 ^ 1) with 2.
  rewrite Z.div_div by (try apply Z.pow_nonzero; lia).
  replace (64 ^ Z.of_nat k * 64) with (64 ^ Z.of_nat (S k)) by (rewrite Nat2Z.inj_succ, Z.pow_succ_r by lia; lia).
  replace ((2 ^ (6 - Z.of_nat k) - 1) / 2) with (2 ^ (5 - Z.of_nat k) - 1).
  2:{ replace (6 - Z.of_nat k) with (5 - Z.of_nat k + 1) by lia. rewrite Z.pow_add_r by lia.
      change (2 ^ 1) with 2. Z.div_mod_to_equations. lia. }
  replace (6 - Z.of_nat (S k)) with (5 - Z.of_nat k) by lia.
  destruct (Z.gtb_spec (x / 64 ^ Z.of_nat (S k)) (2 ^ (5 - Z.of_nat k) - 1)) as [H|H]; [done|].
  rewrite put_ok by (cbn [length]; lia). do 2 f_equal.
  assert (0 <= x / 64 ^ Z.of_nat (S k)) by (apply Z.div_pos; [lia|]; apply Z.pow_pos_nonneg; lia).
  set (y := x / 64 ^ Z.of_nat (S k)) in *. clearbody y.
  assert (Hy : 0 <= y < 2 ^ (5 - Z.of_nat k)) by lia. clear H H0.
  assert (Hb : forall j, (j < 5)%nat -> forallb (fun y => u8 (Z.lor (Z.shiftl (u32 (Z.lnot (2 ^ (5 - Z.of_nat j) - 1))) 1) y)
    =? lead (S j) + y) (map Z.of_nat (seq 0 (Z.to_nat (2 ^ (5 - Z.of_nat j))))) = true).
  { intros j Hj. do 5 (destruct j as [|j]; [vm_compute; reflexivity|]). lia. }
  apply (byte_eq (fun y => u8 (Z.lor _ y)) (fun y => _ + y) 0 _ (Hb k Hk)). lia.
Qed.

Lemma cbytes_cons (k : nat) (x : Z) :
  0 <= x -> cbytes (S k) x = (128 + (x / 64 ^ Z.of_nat k) mod 64) :: cbytes k x.
Proof.
  revert x. induction k as [|k IH]; intros x Hx; [simpl; by rewrite Z.div_1_r|].
  change (cbytes (S (S k)) x) with (cbytes (S k) (x / 64) ++ [128 + x mod 64]).
  rewrite IH by (apply Z.div_pos; lia). rewrite Z.div_div by (try apply Z.pow_pos_nonneg; lia).
  rewrite Nat2Z.inj_succ, Z.pow_succ_r by lia. done.
Qed.

Lemma cbytes_mod (k : nat) (h v : Z) :
  0 <= v < 64 ^ Z.of_nat k -> 0 <= h -> cbytes k v = cbytes k (h * 64 ^ Z.of_nat k + v).
Proof.
  revert h v. induction k as [|k IH]; intros h v Hv Hh; [done|]. cbn [cbytes].
  rewrite Nat2Z.inj_succ, Z.pow_succ_r in * by lia.
  replace (h * (64 * 64 ^ Z.of_nat k) + v) with (v + (h * 64 ^ Z.of_nat k) * 64) by lia.
  rewrite Z.div_add, Z.mod_add by lia. f_equal. rewrite Z.add_comm. apply IH; [|done].
  split; [apply Z.div_pos; lia|]. apply Z.div_lt_upper_bound; lia.
Qed.

Lemma cbytes_length (k : nat) (x : Z) : zlen (cbytes k x) = Z.of_nat k.
Proof.
  revert x. induction k as [|k IH]; intros x; [done|]. cbn [cbytes]. rewrite length_app. cbn [length].
  specialize (IH (x / 64)). lia.
Qed.

Lemma esc_next (fuel k : nat) (x : Z) :
  (k < 5)%nat -> 0 <= x ->
  utf8esc_loop (S fuel) (x / 64 ^ Z.of_nat k) (2 ^ (6 - Z.of_nat k) - 1) (cbytes k x) =
  if x / 64 ^ Z.of_nat (S k) >? 2 ^ (5 - Z.of_nat k) - 1
  then utf8esc_loop fuel (x / 64 ^ Z.of_nat (S k)) (2 ^ (6 - Z.of_nat (S k)) - 1) (cbytes (S k) x)
  else Some (lead (S k) + x / 64 ^ Z.of_nat (S k) :: cbytes (S k) x).
Proof. intros Hk Hx. rewrite esc_round by (done || apply cbytes_length). by rewrite <- !cbytes_cons. Qed.

Lemma div_gt (x d b : Z) : 0 < d -> (x / d >? b) = (x >=? (b + 1) * d).
Proof.
  intros Hd. apply eq_true_iff_eq. rewrite Z.gtb_lt, Z.geb_le. split; intros H.
  - pose proof (Z.mul_div_le x d Hd). nia.
  - pose proof (Z.div_le_lower_bound x d (b + 1) Hd). lia.
Qed.

(** The encoder stays inside its buffer and produces the shape above. *)
Lemma utf8esc_encoding (x : Z) : 0 <= x <= MAXUTF -> luaO_utf8esc x = Some (encoding x).
Proof.
  unfold MAXUTF. intros Hx. unfold luaO_utf8esc, encoding, clen. destruct (Z.ltb_spec x 0x80) as [H0|H0].
  { rewrite put_ok by done. simpl. rewrite Z.div_1_r, wrap_small by (unfold in_u; lia). done. }
  pose proof (esc_next 7 0 x ltac:(lia) ltac:(lia)) as E0. rewrite Z.div_1_r in E0.
  change (2 ^ (6 - Z.of_nat 0) - 1) with 0x3f in E0. change (cbytes 0 x) with (@nil Z) in E0. rewrite E0. clear E0.
  rewrite div_gt by done. change ((2 ^ (5 - Z.of_nat 0) - 1 + 1) * 64 ^ Z.of_nat 1) with 0x800.
  destruct (Z.ltb_spec x 0x800), (Z.geb_spec x 0x800); try lia; [done|].
  rewrite (esc_next 6 1 x) by lia.
  rewrite div_gt by done. change ((2 ^ (5 - Z.of_nat 1) - 1 + 1) * 64 ^ Z.of_nat 2) with 0x10000.
  destruct (Z.ltb_spec x 0x10000), (Z.geb_spec x 0x10000); try lia; [done|].
  rewrite (esc_next 5 2 x) by lia.
  rewrite div_gt by done. change ((2 ^ (5 - Z.of_nat 2) - 1 + 1) * 64 ^ Z.of_nat 3) with 0x200000.
  destruct (Z.ltb_spec x 0x200000), (Z.geb_spec x 0x200000); try lia; [done|].
  rewrite (esc_next 4 3 x) by lia.
  rewrite div_gt by done. change ((2 ^ (5 - Z.of_nat 3) - 1 + 1) * 64 ^ Z.of_nat 4) with 0x4000000.
  destruct (Z.ltb_spec x 0x4000000), (Z.geb_spec x 0x4000000); try lia; [done|].
  rewrite (esc_next 3 4 x) by lia.
  rewrite div_gt by done. change ((2 ^ (5 - Z.of_nat 4) - 1 + 1) * 64 ^ Z.of_nat 5) with 0x80000000.
  by destruct (Z.geb_spec x 0x80000000); [lia|].
Qed.

(** ** The decoder *)

(** The first byte after [k] shifts. *)
Definition citer (k : nat) (c : Z) : Z := Nat.iter k (fun c => u32 (Z.shiftl c 1)) c.

(** A first byte that asks for exactly [k] continuation bytes. *)
Definition class (k : nat) (c : Z) : bool :=
  forallb (fun j => negb (Z.land (citer j c) 0x40 =? 0)) (seq 0 k) && (Z.land (citer k c) 0x40 =? 0).

(** Reading [k] continuation bytes. *)
Fixpoint conts (k : nat) (res : Z) (s : list Z) : option (Z * list Z) :=
  match k with
  | O => Some (res, s)
  | S k' =>
      if iscont (peek s) then conts k' (Z.lor (u32 (Z.shiftl res 6)) (Z.land (peek s) 0x3F)) (tail s)
      else None
  end.

Lemma citer_S (k : nat) (c : Z) : citer (S k) c = citer k (u32 (Z.shiftl c 1)).
Proof. unfold citer. by rewrite Nat.iter_succ_r. Qed.

Lemma class_S (k : nat) (c : Z) :
  class (S k) c = negb (Z.land c 0x40 =? 0) && class k (u32 (Z.shiftl c 1)).
Proof.
  unfold class. rewrite citer_S, andb_assoc. f_equal. cbn [seq forallb]. f_equal.
  rewrite <- seq_shift. induction (seq 0 k) as [|j l IH]; [done|]. cbn [map forallb].
  by rewrite IH, citer_S.
Qed.

Lemma decode_loop_class (k fuel : nat) (c count res : Z) (s : list Z) :
  class k c = true -> (k <= fuel)%nat ->
  decode_loop fuel c count res s =
  Some (match conts k res s with
        | Some (r, s') => Some (citer k c, count + Z.of_nat k, r, s')
        | None => None
        end).
Proof.
  revert fuel c count res s. induction k as [|k IH]; intros fuel c count res s Hc Hf.
  - unfold class in Hc. cbn [seq forallb andb citer Nat.iter nat_rect] in Hc.
    destruct fuel; cbn [decode_loop]; rewrite Hc; cbn [negb conts citer Nat.iter nat_rect]; by rewrite Z.add_0_r.
  - destruct fuel as [|fuel]; [lia|]. rewrite class_S in Hc. apply andb_true_iff in Hc as [H0 H1].
    cbn [decode_loop conts]. rewrite H0. destruct (iscont (peek s)); cbn [negb]; [|done].
    rewrite IH, <- citer_S by (done || lia).
    destruct (conts k _ _) as [[r s']|]; [|done].
    by replace (count + 1 + Z.of_nat k) with (count + Z.of_nat (S k)) by lia.
Qed.

(** The number of continuation bytes a first byte asks for. *)
Definition fclass (b : Z) : nat :=
  if b <? 192 then 0 else if b <? 224 then 1 else if b <? 240 then 2 else if b <? 248 then 3
  else if b <? 252 then 4 else if b <? 254 then 5 else if b <? 255 then 6 else 7.

Lemma byte_class (b : Z) : 128 <= b < 256 -> class (fclass b) b = true.
Proof. apply (byte_all (fun b => class (fclass b) b) 128 128). vm_compute. reflexivity. Qed.

Lemma byte_cont (c : Z) : 0 <= c < 256 -> iscont c = (128 <=? c) && (c <? 192).
Proof.
  intros Hc. apply Bool.eqb_prop. revert c Hc.
  apply (byte_all (fun c => Bool.eqb (iscont c) _) 0 256). vm_compute. reflexivity.
Qed.

Lemma land63 (c : Z) : Z.land c 0x3F = c mod 64.
Proof. change 0x3F with (Z.ones 6). by rewrite Z.land_ones by lia. Qed.

Lemma add_cont (res h : Z) :
  0 <= res < 2 ^ 26 -> 0 <= h < 64 -> Z.lor (u32 (Z.shiftl res 6)) h = res * 64 + h.
Proof.
  intros Hr Hh. rewrite Z.shiftl_mul_pow2 by lia. change (2 ^ 6) with 64.
  rewrite wrap_small by (unfold in_u; lia). change 64 with (2 ^ 6). apply lor_shift; lia.
Qed.

(** Reading the continuation bytes of [v] adds its low digits in base 64. *)
Lemma conts_cbytes (k : nat) (res v : Z) (s : list Z) :
  (k <= 5)%nat -> 0 <= res < 64 ^ (5 - Z.of_nat k) -> 0 <= v ->
  conts k res (cbytes k v ++ s) = Some (res * 64 ^ Z.of_nat k + v mod 64 ^ Z.of_nat k, s).
Proof.
  revert res v. induction k as [|k IH]; intros res v Hk Hres Hv.
  { simpl. rewrite Z.mod_1_r. do 2 f_equal. lia. }
  rewrite cbytes_cons by done. cbn [app conts peek tail].
  pose proof (pow2_pos (6 * Z.of_nat k) ltac:(lia)) as Hp.
  assert (E64 : 64 ^ Z.of_nat k = 2 ^ (6 * Z.of_nat k)) by (rewrite Z.pow_mul_r by lia; done).
  set (h := (v / 64 ^ Z.of_nat k) mod 64).
  assert (Hh : 0 <= h < 64) by (apply Z.mod_pos_bound; lia).
  rewrite byte_cont by lia. rewrite (proj2 (Z.leb_le _ _)), (proj2 (Z.ltb_lt _ _)) by lia. cbn [andb].
  rewrite land63. replace ((128 + h) mod 64) with h by (Z.div_mod_to_equations; lia).
  assert (Hres2 : 64 ^ (5 - Z.of_nat (S k)) <= 2 ^ 24).
  { change (2 ^ 24) with (64 ^ 4). apply Z.pow_le_mono_r; lia. }
  assert (E5 : 64 ^ (5 - Z.of_nat k) = 64 ^ (5 - Z.of_nat (S k)) * 64).
  { replace (5 - Z.of_nat k) with (5 - Z.of_nat (S k) + 1) by lia. rewrite Z.pow_add_r by lia. done. }
  rewrite add_cont by lia. rewrite IH by (lia || (rewrite E5; nia)). do 2 f_equal.
  rewrite Nat2Z.inj_succ, Z.pow_succ_r, (Z.mul_comm 64), Z.rem_mul_r by lia. fold h. lia.
Qed.

(** Conversely, what was read are the continuation bytes of the value. *)
Lemma conts_inv (k : nat) (res r : Z) (s s' : list Z) :
  (k <= 5)%nat -> 0 <= res < 64 ^ (5 - Z.of_nat k) -> Forall (fun c => 0 <= c < 256) s ->
  conts k res s = Some (r, s') ->
  exists v, 0 <= v < 64 ^ Z.of_nat k /\ s = cbytes k v ++ s' /\ r = res * 64 ^ Z.of_nat k + v.
Proof.
  revert res s. induction k as [|k IH]; intros res s Hk Hres Hs H.
  { simplify_eq/=. exists 0. split_and!; [lia|lia|done|lia]. }
  cbn [conts] in H. destruct s as [|c s]; [done|]. cbn [peek tail] in H.
  inversion_clear Hs as [|? ? Hc Hs']. rewrite byte_cont in H by done.
  destruct (Z.leb_spec 128 c), (Z.ltb_spec c 192); cbn [andb] in H; try done.
  rewrite land63 in H. replace (c mod 64) with (c - 128) in H by (Z.div_mod_to_equations; lia).
  assert (Hres2 : 64 ^ (5 - Z.of_nat (S k)) <= 2 ^ 24).
  { change (2 ^ 24) with (64 ^ 4). apply Z.pow_le_mono_r; lia. }
  assert (E5 : 64 ^ (5 - Z.of_nat k) = 64 ^ (5 - Z.of_nat (S k)) * 64).
  { replace (5 - Z.of_nat k) with (5 - Z.of_nat (S k) + 1) by lia. rewrite Z.pow_add_r by lia. done. }
  rewrite add_cont in H by lia. apply IH in H as (v & Hv & -> & ->); [|lia|rewrite E5; nia|done].
  rewrite Nat2Z.inj_succ, Z.pow_succ_r by lia.
  exists ((c - 128) * 64 ^ Z.of_nat k + v). split_and!; [nia|nia| |nia].
  rewrite cbytes_cons by nia. rewrite Z.div_add_l, Z.div_small, Z.add_0_r, Z.mod_small by lia.
  cbn [app]. f_equal; [lia|]. f_equal. apply cbytes_mod; lia.
Qed.

(** ** Both directions *)

(** The least code that needs [k] continuation bytes. *)
Definition least (k : nat) : Z := default 0 (limits !! k).

(** What a first byte for [k] continuation bytes contributes. *)
Lemma first_byte (k : nat) (b : Z) :
  (1 <= k <= 5)%nat -> lead k <= b < lead k + 2 ^ (6 - Z.of_nat k) ->
  fclass b = k /\ shl32 (Z.land (citer k b) 0x7F) (Z.of_nat k * 5) = Some ((b - lead k) * 64 ^ Z.of_nat k).
Proof.
  intros Hk Hb.
  set (P := fun b => bool_decide (fclass b = k) &&
    bool_decide (shl32 (Z.land (citer k b) 0x7F) (Z.of_nat k * 5) = Some ((b - lead k) * 64 ^ Z.of_nat k))).
  assert (HP : P b = true).
  { apply (byte_all P (Z.to_nat (lead k)) (Z.to_nat (2 ^ (6 - Z.of_nat k)))).
    - subst P. destruct k as [|k]; [lia|]. do 5 (destruct k as [|k]; [vm_compute; reflexivity|]). lia.
    - destruct k as [|k]; [lia|]. do 5 (destruct k as [|k]; [exact Hb|]). lia. }
  subst P. cbv beta in HP. rewrite andb_true_iff, !bool_decide_eq_true in HP. done.
Qed.

Lemma clen_iff (x : Z) (k : nat) :
  (1 <= k <= 5)%nat -> 0 <= x <= MAXUTF ->
  clen x = k <-> least k <= x < 64 ^ Z.of_nat k * 2 ^ (6 - Z.of_nat k).
Proof.
  intros Hk Hx. unfold clen, MAXUTF in *.
  destruct k as [|k]; [lia|]. do 5 (destruct k as [|k];
    [match goal with |- _ <-> ?l <= x < ?r => let a := eval vm_compute in l in let b := eval vm_compute in r in
       change (least _) with a; change r with b end;
     repeat case_match; lia|]).
  lia.
Qed.

Lemma clen_range (x : Z) : 0x80 <= x -> (1 <= clen x <= 5)%nat.
Proof. unfold clen. intros. repeat case_match; lia. Qed.

(** The decoder on a sequence with first byte [b] for [k] continuation bytes. *)
Lemma decode_class (k : nat) (b : Z) (s : list Z) (strict : bool) :
  (1 <= k <= 5)%nat -> lead k <= b < lead k + 2 ^ (6 - Z.of_nat k) ->
  utf8_decode (b :: s) strict =
  Some (match conts k 0 s with
        | Some (r, s') =>
            let res := Z.lor ((b - lead k) * 64 ^ Z.of_nat k) r in
            if (res >? MAXUTF) || (res <? least k) then None
            else if strict_ok strict res then Some (res, s') else None
        | None => None
        end).
Proof.
  intros Hk Hb. destruct (first_byte k b Hk Hb) as [Hf Hhi].
  assert (Hb2 : 128 <= b < 256).
  { destruct k as [|k]; [lia|]. do 5 (destruct k as [|k]; [unfold lead in Hb; lia|]). lia. }
  pose proof (byte_class b Hb2) as Hcl. rewrite Hf in Hcl.
  unfold utf8_decode. cbn [peek tail]. rewrite (proj2 (Z.ltb_ge b 0x80)) by lia.
  rewrite (decode_loop_class k) by (done || lia). cbn [mbind option_bind].
  destruct (conts k 0 s) as [[r s']|]; [|done]. rewrite Z.add_0_l, Hhi. cbn [mbind option_bind].
  destruct (Z.gtb_spec (Z.of_nat k) 5); [lia|]. rewrite Nat2Z.id. rewrite (Z.lor_comm r).
  assert (Hl : limits !! k = Some (least k)).
  { destruct k as [|k]; [lia|]. do 5 (destruct k as [|k]; [done|]). lia. }
  rewrite Hl. cbn [mbind option_bind]. cbv zeta. by destruct (_ || _).
Qed.

Lemma lor_value (h r : Z) (k : nat) :
  0 <= r < 64 ^ Z.of_nat k -> Z.lor (h * 64 ^ Z.of_nat k) r = h * 64 ^ Z.of_nat k + r.
Proof.
  replace (64 ^ Z.of_nat k) with (2 ^ (6 * Z.of_nat k)) by (rewrite Z.pow_mul_r by lia; done).
  intros. apply lor_shift; lia.
Qed.

Lemma pow64_pos (k : nat) : 0 < 64 ^ Z.of_nat k.
Proof. apply Z.pow_pos_nonneg; lia. Qed.

Lemma decode_encoding (x : Z) (s : list Z) (strict : bool) :
  0 <= x <= MAXUTF ->
  utf8_decode (encoding x ++ s) strict = Some (if strict_ok strict x then Some (x, s) else None).
Proof.
  intros Hx. unfold encoding. destruct (Z.lt_ge_cases x 0x80) as [H0|H0].
  { unfold utf8_decode, clen. rewrite (proj2 (Z.ltb_lt x 0x80)) by lia.
    cbn [lead cbytes app peek tail Z.of_nat]. rewrite Z.div_1_r, Z.add_0_l.
    by rewrite (proj2 (Z.ltb_lt x 0x80)) by lia. }
  pose proof (clen_range x H0) as Hk. set (k := clen x) in *.
  pose proof (proj1 (clen_iff x k Hk Hx) eq_refl) as Hb. pose proof (pow64_pos k) as H64. clearbody k.
  assert (Hd : 0 <= x / 64 ^ Z.of_nat k < 2 ^ (6 - Z.of_nat k)).
  { split; [apply Z.div_pos; lia|]. apply Z.div_lt_upper_bound; lia. }
  cbn [app]. rewrite (decode_class k) by lia. rewrite conts_cbytes by lia. cbv zeta.
  rewrite Z.mul_0_l, Z.add_0_l, Z.add_simpl_l.
  pose proof (Z.mod_pos_bound x (64 ^ Z.of_nat k) H64). rewrite lor_value by done.
  replace (x / 64 ^ Z.of_nat k * 64 ^ Z.of_nat k + x mod 64 ^ Z.of_nat k) with x
    by (rewrite (Z.div_mod x (64 ^ Z.of_nat k)) at 1; lia).
  destruct (Z.gtb_spec x MAXUTF); [lia|]. by rewrite (proj2 (Z.ltb_ge x (least k))) by lia.
Qed.

(** First bytes that start no sequence of at most six bytes. *)
Lemma decode_bad_first (b : Z) (s : list Z) (strict : bool) :
  128 <= b < 192 \/ 254 <= b < 256 ->
  utf8_decode (b :: s) strict = Some None \/ utf8_decode (b :: s) strict = None.
Proof.
  intros Hb. unfold utf8_decode. cbn [peek tail]. rewrite (proj2 (Z.ltb_ge b 0x80)) by lia.
  rewrite (decode_loop_class (fclass b)) by (try apply byte_class; unfold fclass; repeat case_match; lia).
  cbn [mbind option_bind]. destruct (conts _ 0 s) as [[r s']|] eqn:E; [|by left].
  destruct Hb as [Hb|Hb].
  - left. assert (Hf : fclass b = 0%nat) by (unfold fclass; by rewrite (proj2 (Z.ltb_lt b 192)) by lia).
    assert (HP : forall b, 128 <= b < 192 -> bool_decide (shl32 (Z.land b 0x7F) 0 = Some (b - 128)) = true).
    { apply (byte_all _ 128 64). vm_compute. reflexivity. }
    specialize (HP b Hb). apply bool_decide_eq_true in HP.
    rewrite Hf in *. cbn [conts] in E. injection E as <- <-. change (citer 0 b) with b.
    change ((0 + Z.of_nat 0) * 5) with 0. rewrite HP. cbn [mbind option_bind]. rewrite Z.lor_0_l.
    change (0 + Z.of_nat 0 >? 5) with false. change (limits !! Z.to_nat (0 + Z.of_nat 0)) with (Some (2 ^ 32 - 1)).
    cbn [mbind option_bind]. rewrite (proj2 (Z.ltb_lt (b - 128) _)) by lia. by rewrite orb_true_r.
  - assert (Hf : (6 <= fclass b)%nat).
    { unfold fclass. repeat case_match; lia. }
    destruct (shl32 _ _); cbn [mbind option_bind]; [left|by right].
    by destruct (Z.gtb_spec (0 + Z.of_nat (fclass b)) 5); [|lia].
Qed.

(** The encoder and the decoder of UTF-8 are inverse to each other on all
    codes up to 2^31 - 1.  The encoder stays in its 8-byte buffer; decoding its
    output gives the code and the rest of the string back (in strict mode unless
    the code is a surrogate or above 10FFFF); and whatever the decoder accepts is
    exactly the encoder's output for the code it returns, so no overlong or
    otherwise malformed sequence is accepted. *)
Theorem utf8_roundtrip (s s' : list Z) (x : Z) (strict : bool)
  (Hs : Forall (fun c => 0 <= c < 256) s) (Hne : s <> []) :
  utf8_decode s strict = Some (Some (x, s')) <->
  0 <= x <= MAXUTF /\ strict_ok strict x = true /\
  exists l, luaO_utf8esc x = Some l /\ s = l ++ s'.
Proof.
  split.
  2:{ intros (Hx & Hok & l & Hl & ->). rewrite utf8esc_encoding in Hl by done. simplify_eq.
      rewrite decode_encoding by done. by rewrite Hok. }
  destruct s as [|b s]; [done|]. inversion_clear Hs as [|? ? Hb Hs']. intros Hdec.
  destruct (Z.lt_ge_cases b 0x80) as [H0|H0].
  { unfold utf8_decode in Hdec. cbn [peek tail] in Hdec. rewrite (proj2 (Z.ltb_lt b 0x80)) in Hdec by lia.
    destruct (strict_ok strict b) eqn:Hok; simplify_eq. split; [unfold MAXUTF; lia|]. split; [done|].
    exists [x]. split; [|done]. rewrite utf8esc_encoding by (unfold MAXUTF; lia). unfold encoding, clen.
    rewrite (proj2 (Z.ltb_lt x 0x80)) by lia. simpl. by rewrite Z.div_1_r. }
  assert (Hk : (128 <= b < 192 \/ 254 <= b < 256) \/
    exists k, (1 <= k <= 5)%nat /\ lead k <= b < lead k + 2 ^ (6 - Z.of_nat k)).
  { destruct (Z.lt_ge_cases b 192); [lia|]. destruct (Z.lt_ge_cases b 224); [right; exists 1%nat; unfold lead; lia|].
    destruct (Z.lt_ge_cases b 240); [right; exists 2%nat; unfold lead; lia|].
    destruct (Z.lt_ge_cases b 248); [right; exists 3%nat; unfold lead; lia|].
    destruct (Z.lt_ge_cases b 252); [right; exists 4%nat; unfold lead; lia|].
    destruct (Z.lt_ge_cases b 254); [right; exists 5%nat; unfold lead; lia|]. lia. }
  destruct Hk as [Hbad|(k & Hk & Hbk)].
  { destruct (decode_bad_first b s strict Hbad); congruence. }
  rewrite (decode_class k) in Hdec by done. destruct (conts k 0 s) as [[r t]|] eqn:E; [|done].
  apply conts_inv in E as (v & Hv & -> & ->); [|lia| |done].
  2:{ split; [lia|]. apply Z.pow_pos_nonneg; lia. }
  rewrite Z.mul_0_l, Z.add_0_l, lor_value in Hdec by done. pose proof (pow64_pos k).
  set (y := (b - lead k) * 64 ^ Z.of_nat k + v) in *. cbv zeta in Hdec.
  destruct (Z.gtb_spec y MAXUTF), (Z.ltb_spec y (least k)); cbn [orb] in Hdec; try done.
  destruct (strict_ok strict y) eqn:Hok; [|done]. injection Hdec as <- <-. assert (Hy : 0 <= y <= MAXUTF) by (subst y; nia).
  split; [done|]. split; [done|]. exists (encoding y). split; [by apply utf8esc_encoding|].
  assert (Hcl : clen y = k) by (apply clen_iff; [done|done|subst y; nia]).
  unfold encoding. rewrite Hcl. cbn [app]. f_equal.
  - subst y. rewrite Z.div_add_l, Z.div_small by lia. lia.
  - f_equal. subst y. apply cbytes_mod; lia.
Qed.

Lemma utf8_roundtrip_witness :
  utf8_decode [0xE2; 0x82; 0xAC; 0x21] true = Some (Some (0x20AC, [0x21])).
Proof.
  apply (utf8_roundtrip [0xE2; 0x82; 0xAC; 0x21] [0x21] 0x20AC true); [repeat constructor; lia|discriminate|].
  split; [split; discriminate|]. split; [reflexivity|]. exists [0xE2; 0x82; 0xAC]. split; reflexivity.
Defined.

(** A byte FF followed by seven continuation bytes makes the decoder shift a
    32-bit integer by 35 places, which is undefined, before it rejects the
    sequence. *)
Theorem utf8_decode_shift_overflow (s : list Z) (strict : bool) :
  utf8_decode ([0xFF; 0x80; 0x80; 0x80; 0x80; 0x80; 0x80; 0x80] ++ s) strict = None.
Proof. reflexivity. Qed.

(** ** Strings of codes *)

Definition encodings (codes : list Z) : list Z := concat (map encoding codes).

Definition code_ok (strict : bool) (x : Z) : Prop := 0 <= x <= MAXUTF /\ strict_ok strict x = true.

Lemma encodings_cons x codes : encodings (x :: codes) = encoding x ++ encodings codes.
Proof. done. Qed.

Lemma encoding_len (x : Z) : 1 <= zlen (encoding x).
Proof. unfold encoding. cbn [length]. lia. Qed.

Lemma encodings_len (codes : list Z) : (length codes <= length (encodings codes))%nat.
Proof.
  induction codes as [|x codes IH]; [done|]. rewrite encodings_cons, length_app.
  pose proof (encoding_len x). cbn [length]. lia.
Qed.

Lemma at_app (pre s : list Z) : at_ (pre ++ s) (zlen pre) = s.
Proof. unfold at_. by rewrite Nat2Z.id, drop_app_length. Qed.

Lemma utfchar_encodings (codes : list Z) :
  Forall (code_ok false) codes -> utfchar codes = Some (Ok (encodings codes)).
Proof.
  induction 1 as [|x codes [Hx _] _ IH]; [done|]. cbn [utfchar]. unfold pushutfchar.
  rewrite wrap_small by (unfold in_u, MAXUTF in *; lia). rewrite (proj2 (Z.leb_le _ _)) by lia.
  rewrite utf8esc_encoding by done. cbn [mbind option_bind]. by rewrite IH.
Qed.

Lemma codepoint_loop_encodings (fuel : nat) (pre codes : list Z) (lax : bool) :
  (length codes < fuel)%nat -> Forall (code_ok (negb lax)) codes ->
  codepoint_loop fuel (pre ++ encodings codes) (zlen pre) (zlen (pre ++ encodings codes)) lax = Some (Ok codes).
Proof.
  intros Hf Hc. revert fuel pre Hf. induction Hc as [|x codes [Hx Hok] Hc IH]; intros fuel pre Hf;
    (destruct fuel as [|fuel]; [cbn [length] in Hf; lia|]).
  - unfold encodings. cbn [map concat codepoint_loop]. rewrite app_nil_r. by rewrite Z.ltb_irrefl.
  - rewrite encodings_cons. cbn [codepoint_loop]. pose proof (encoding_len x).
    rewrite (proj2 (Z.ltb_lt _ _)) by (rewrite !length_app; lia).
    rewrite at_app, decode_encoding, Hok by done. cbn [mbind option_bind].
    rewrite app_assoc. replace (_ - zlen (encodings codes)) with (zlen (pre ++ encoding x)).
    2:{ rewrite (length_app (pre ++ encoding x)). lia. }
    rewrite IH by (cbn [length] in Hf; lia). done.
Qed.

Lemma utflen_loop_encodings (fuel : nat) (pre codes : list Z) (n : Z) (lax : bool) :
  (length codes < fuel)%nat -> Forall (code_ok (negb lax)) codes ->
  utflen_loop fuel (pre ++ encodings codes) (zlen pre) (zlen (pre ++ encodings codes) - 1) n lax =
  Some (inr (n + zlen codes)).
Proof.
  intros Hf Hc. revert fuel pre n Hf. induction Hc as [|x codes [Hx Hok] Hc IH]; intros fuel pre n Hf;
    (destruct fuel as [|fuel]; [cbn [length] in Hf; lia|]).
  - unfold encodings. cbn [map concat utflen_loop]. rewrite app_nil_r.
    rewrite (proj2 (Z.leb_gt _ _)) by lia. simpl. do 2 f_equal. lia.
  - rewrite encodings_cons. cbn [utflen_loop]. pose proof (encoding_len x).
    rewrite (proj2 (Z.leb_le _ _)) by (rewrite !length_app; lia).
    rewrite at_app, decode_encoding, Hok by done. cbn [mbind option_bind].
    rewrite app_assoc. replace (_ - zlen (encodings codes)) with (zlen (pre ++ encoding x)).
    2:{ rewrite (length_app (pre ++ encoding x)). lia. }
    rewrite IH by (cbn [length] in Hf; lia). do 2 f_equal. cbn [length]. lia.
Qed.

Lemma u_posrelat_end (len : Z) : 0 <= len < 2 ^ 63 -> u_posrelat (-1) len = len.
Proof.
  intros Hl. unfold u_posrelat. change (-1 >=? 0) with false. change (u64 (0 - u64 (-1))) with 1. cbv iota.
  destruct (Z.gtb_spec 1 len); lia.
Qed.

(** What [utf8.char] builds from a list of codes, [utf8.codepoint] and
    [utf8.len] over the whole string read back: the same codes, and their
    number. *)
Theorem utf8_char_codepoint (stack_ok : Z -> bool) (codes s : list Z) (lax : bool)
  (Hcodes : Forall (code_ok (negb lax)) codes) (Hs : utfchar codes = Some (Ok s))
  (Hlen : zlen s < 2 ^ 31) (Hstack : stack_ok (zlen s) = true) :
  codepoint stack_ok s 1 (-1) lax = Some (Ok codes) /\
  utflen s 1 (-1) lax = Some (Ok (inr (zlen codes))).
Proof.
  rewrite utfchar_encodings in Hs by (eapply Forall_impl; [exact Hcodes|]; by intros x [Hx _]).
  injection Hs as <-. pose proof (encodings_len codes) as Hle.
  unfold codepoint, utflen. rewrite u_posrelat_end by lia. change (u_posrelat 1 _) with 1.
  change (1 >=? 1) with true. change (1 <=? 1) with true. change (1 - 1) with 0. cbn [negb andb].
  rewrite Z.leb_refl, (proj2 (Z.leb_le 0 _)), (proj2 (Z.ltb_lt _ _)) by lia. cbn [negb].
  pose proof (codepoint_loop_encodings (S (length (encodings codes))) [] codes lax ltac:(lia) Hcodes) as Hcp.
  pose proof (utflen_loop_encodings (S (length (encodings codes))) [] codes 0 lax ltac:(lia) Hcodes) as Hul.
  change (zlen []) with 0 in *. cbn [app] in *. rewrite Hcp, Hul.
  split; [|by rewrite Z.add_0_l].
  destruct (Z.gtb_spec 1 (zlen (encodings codes))).
  - destruct codes; [done|]. cbn [length] in *. lia.
  - destruct (Z.geb_spec (zlen (encodings codes) - 1) (2 ^ 31 - 1)); [lia|].
    rewrite Z.sub_add, Hstack. done.
Qed.

Lemma utf8_char_codepoint_witness :
  codepoint (fun _ => true) (bytes "A" ++ [0xE2; 0x82; 0xAC]) 1 (-1) false = Some (Ok [65; 0x20AC]).
Proof.
  apply (utf8_char_codepoint (fun _ => true) [65; 0x20AC] (bytes "A" ++ [0xE2; 0x82; 0xAC]) false);
    [|reflexivity..]. repeat constructor; discriminate.
Defined.
End LuaUtf8.
