(* ===== verification/LuaObject.v ===== *)
(** * Generic functions over Lua objects

    The rest of lobject.c: the ceiling of the binary logarithm, the text of
    numbers, the buffer behind [lua_pushfstring] and the names of chunks; and the
    string order of lvm.c. *)

From Stdlib Require Import SpecFloat.
From S2P Require Import Prelude CFloat LuaValue LuaNumber LuaConvert LuaUtf8.

Module LuaObject.
Import CFloat LuaValue LuaNumber LuaConvert LuaUtf8.
Open Scope string_scope.
Open Scope list_scope.
Open Scope Z_scope.

(** ** Logarithm *)

Definition log_2 : list Z :=
  [0; 1; 2; 2; 3; 3; 3; 3] ++ replicate 8 4 ++ replicate 16 5 ++ replicate 32 6 ++
  replicate 64 7 ++ replicate 128 8.

Fixpoint ceillog2_loop (fuel : nat) (x l : Z) : option (Z * Z) :=
  if x >=? 256 then
    match fuel with O => None | S fuel' => ceillog2_loop fuel' (Z.shiftr x 8) (l + 8) end
  else Some (x, l).

Definition luaO_ceillog2 (x : Z) : option Z :=
  '(x, l) ← ceillog2_loop 4 (u32 (x - 1)) 0;
  d ← log_2 !! Z.to_nat x;
  Some (l + d).

(** ** Numbers as text *)

Definition MAXNUMBER2STR : Z := 44.

Section text.
Context (number2str : double -> list Z) (decpoint : Z).

Definition looks_like_int (s : list Z) : bool :=
  forallb (fun c => (c =? ch "-") || (ch "0" <=? c) && (c <=? ch "9")) s.

(** [tostringbuff]: the bytes put in the buffer; [None] when the text and the zero
    that [sprintf] adds do not fit. *)
Definition tostringbuff (obj : TValue) : option (list Z) :=
  match obj with
  | VInt i => if zlen (dec_text i) + 1 <=? MAXNUMBER2STR then Some (dec_text i) else None
  | VFlt n =>
      let s := number2str n in
      if zlen s + 1 <=? MAXNUMBER2STR then
        Some (if looks_like_int s then s ++ [decpoint; ch "0"] else s)
      else None
  | _ => None
  end.

(** ** Messages *)

Definition LUA_IDSIZE : Z := 60.
Definition BUFVFS : Z := LUA_IDSIZE + MAXNUMBER2STR + 95.

(** [BuffFS]: the part already on the stack, if any, and the buffer contents. *)
Record BuffFS := MkBuffFS { b_pushed : option (list Z); b_space : list Z }.

Definition pushstr (b : BuffFS) (str : list Z) : BuffFS :=
  MkBuffFS (Some match b_pushed b with None => str | Some s => s ++ str end) (b_space b).

Definition clearbuff (b : BuffFS) : BuffFS :=
  MkBuffFS (b_pushed (pushstr b (b_space b))) [].

Definition getbuff (b : BuffFS) (sz : Z) : BuffFS :=
  if sz >? BUFVFS - zlen (b_space b) then clearbuff b else b.

(** Writing into the space obtained; [None] if it does not fit. *)
Definition addspace (b : BuffFS) (str : list Z) : option BuffFS :=
  if zlen (b_space b) + zlen str <=? BUFVFS
  then Some (MkBuffFS (b_pushed b) (b_space b ++ str)) else None.

Definition addstr2buff (b : BuffFS) (str : list Z) : option BuffFS :=
  if zlen str <=? BUFVFS then addspace (getbuff b (zlen str)) str
  else Some (pushstr (clearbuff b) str).

Definition addnum2buff (b : BuffFS) (num : TValue) : option BuffFS :=
  let b := getbuff b MAXNUMBER2STR in
  s ← tostringbuff num;
  if zlen s <=? MAXNUMBER2STR then addspace b s else None.

(** The arguments of [luaO_pushvfstring] by conversion; the text of a pointer is
    what the C library prints. *)
Inductive fsarg :=
  | FString (s : option (list Z))
  | FChar (c : Z)
  | FInt (i : Z)
  | FInteger (i : Z)
  | FNumber (n : double)
  | FPointer (text : list Z)
  | FUtf8 (x : Z).

(** Text before the next percent sign, and what follows the sign. *)
Fixpoint split_percent (fmt : list Z) : list Z * option (list Z) :=
  match fmt with
  | [] => ([], None)
  | c :: fmt' =>
      if c =? ch "%" then ([], Some fmt')
      else let '(pre, rest) := split_percent fmt' in (c :: pre, rest)
  end.

(** One conversion of the switch. *)
Definition fs_conversion (c : Z) (args : list fsarg) (b : BuffFS) : option (res (BuffFS * list fsarg)) :=
  let ret (b : option BuffFS) args := b ← b; Some (Ok (b, args)) in
  if c =? ch "s" then
    match args with
    | FString s :: args => ret (addstr2buff b (default (bytes "(null)") s)) args
    | _ => None
    end
  else if c =? ch "c" then
    match args with FChar c :: args => ret (addstr2buff b [u8 c]) args | _ => None end
  else if c =? ch "d" then
    match args with FInt i :: args => ret (addnum2buff b (VInt i)) args | _ => None end
  else if c =? ch "I" then
    match args with FInteger i :: args => ret (addnum2buff b (VInt i)) args | _ => None end
  else if c =? ch "f" then
    match args with FNumber n :: args => ret (addnum2buff b (VFlt n)) args | _ => None end
  else if c =? ch "p" then
    match args with
    | FPointer text :: args =>
        let sz := 3 * 8 + 8 in
        let b := getbuff b sz in
        if zlen text + 1 <=? sz then ret (addspace b text) args else None
    | _ => None
    end
  else if c =? ch "U" then
    match args with FUtf8 x :: args => s ← luaO_utf8esc x; ret (addstr2buff b s) args | _ => None end
  else if c =? ch "%" then ret (addstr2buff b [ch "%"]) args
  else Some (Err "invalid conversion to 'lua_pushfstring'").

Fixpoint pushvfstring_loop (fuel : nat) (fmt : list Z) (args : list fsarg) (b : BuffFS) : option (res (list Z)) :=
  match fuel with
  | O => None
  | S fuel' =>
      let '(pre, rest) := split_percent fmt in
      b ← addstr2buff b pre;
      match rest with
      | None => Some (Ok (default [] (b_pushed (clearbuff b))))
      | Some rest =>
          r ← fs_conversion (peek rest) args b;
          match r with
          | Err e => Some (Err e)
          | Ok (b, args) => pushvfstring_loop fuel' (tail rest) args b
          end
      end
  end.

(** [luaO_pushvfstring] *)
Definition luaO_pushvfstring (fmt : list Z) (args : list fsarg) : option (res (list Z)) :=
  pushvfstring_loop (S (length fmt)) fmt args (MkBuffFS None []).
End text.

(** ** Chunk names *)

Definition RETS : list Z := bytes "...".
Definition PRE : list Z := bytes "[string " ++ [34].
Definition POS : list Z := [34] ++ bytes "]".

(** [strchr(source, '\n')]: the index of the first newline. *)
Fixpoint find_nl (s : list Z) : option Z :=
  match s with
  | [] => None
  | c :: s' => if c =? 0 then None else if c =? 10 then Some 0 else i ← find_nl s'; Some (i + 1)
  end.

(** [memcpy] of [n] bytes from the string with its final zero. *)
Definition copy (src : list Z) (from n : Z) : option (list Z) :=
  if (0 <=? from) && (0 <=? n) && (from + n <=? zlen src + 1)
  then Some (take (Z.to_nat n) (drop (Z.to_nat from) (src ++ [0]))) else None.

(** [luaO_chunkid]: the bytes written to [out]. *)
Definition luaO_chunkid (source : list Z) : option (list Z) :=
  let srclen := zlen source in
  let bufflen := LUA_IDSIZE in
  if peek source =? ch "=" then
    if srclen <=? bufflen then copy source 1 srclen
    else s ← copy source 1 (bufflen - 1); Some (s ++ [0])
  else if peek source =? ch "@" then
    if srclen <=? bufflen then copy source 1 srclen
    else
      let bufflen := bufflen - zlen RETS in
      s ← copy source (1 + srclen - bufflen) bufflen;
      Some (RETS ++ s)
  else
    let nl := find_nl source in
    let bufflen := bufflen - (zlen (PRE ++ RETS ++ POS) + 1) in
    if (srclen <? bufflen) && match nl with None => true | Some _ => false end then
      s ← copy source 0 srclen; Some (PRE ++ s ++ POS ++ [0])
    else
      let srclen := match nl with Some i => i | None => srclen end in
      let srclen := if srclen >? bufflen then bufflen else srclen in
      s ← copy source 0 srclen; Some (PRE ++ s ++ RETS ++ POS ++ [0]).

(** ** String order *)

(** [strcoll] in the C locale: the sign of the first difference of two C
    strings. *)
Fixpoint strcoll (s1 s2 : list Z) : Z :=
  match s1, s2 with
  | [], [] => 0
  | [], _ => -1
  | _, [] => 1
  | c1 :: s1', c2 :: s2' => if c1 <? c2 then -1 else if c2 <? c1 then 1 else strcoll s1' s2'
  end.

(** [l_strcmp] on the bytes of two Lua strings. *)
Fixpoint l_strcmp (fuel : nat) (s1 s2 : list Z) : option Z :=
  match fuel with
  | O => None
  | S fuel' =>
      let temp := strcoll (c_prefix s1) (c_prefix s2) in
      if negb (temp =? 0) then Some temp
      else
        let zl1 := zlen (c_prefix s1) in
        let zl2 := zlen (c_prefix s2) in
        if zl2 =? zlen s2 then Some (if zl1 =? zlen s1 then 0 else 1)
        else if zl1 =? zlen s1 then Some (-1)
        else l_strcmp fuel' (drop (Z.to_nat (zl1 + 1)) s1) (drop (Z.to_nat (zl2 + 1)) s2)
  end.

(** ** The logarithm *)

Lemma log2_up_byte (x : Z) :
  256 <= x -> Z.log2_up (x + 1) = 8 + Z.log2_up (Z.shiftr x 8 + 1).
Proof.
  intros Hx. rewrite Z.shiftr_div_pow2 by lia. change (2 ^ 8) with 256.
  pose proof (Z.div_mod x 256 ltac:(lia)). pose proof (Z.mod_pos_bound x 256 ltac:(lia)).
  assert (1 <= x / 256) by (apply Z.div_le_lower_bound; lia). set (y := x / 256) in *.
  pose proof (Z.log2_up_spec (y + 1) ltac:(lia)) as [HL HU]. pose proof (Z.log2_up_pos (y + 1) ltac:(lia)).
  apply Z.log2_up_unique; [lia|]. rewrite Z.pow_add_r, <- Z.add_pred_r, Z.pow_add_r by lia.
  change (2 ^ 8) with 256. lia.
Qed.

Lemma log_2_spec (x : Z) : 0 <= x < 256 -> log_2 !! Z.to_nat x = Some (Z.log2_up (x + 1)).
Proof.
  intros Hx. assert (HP : bool_decide (log_2 !! Z.to_nat x = Some (Z.log2_up (x + 1))) = true).
  { revert x Hx. apply (byte_all _ 0 256). vm_compute. reflexivity. }
  by apply bool_decide_eq_true in HP.
Qed.

Lemma ceillog2_loop_spec (fuel : nat) (x l : Z) :
  0 <= x < 256 * 256 ^ Z.of_nat fuel ->
  exists y l', ceillog2_loop fuel x l = Some (y, l') /\ 0 <= y < 256 /\
    l' + Z.log2_up (y + 1) = l + Z.log2_up (x + 1).
Proof.
  revert x l. induction fuel as [|fuel IH]; intros x l Hx; cbn [ceillog2_loop];
    destruct (Z.geb_spec x 256).
  - rewrite Z.pow_0_r in Hx. lia.
  - exists x, l. split_and!; [done|lia|lia|done].
  - rewrite Nat2Z.inj_succ, Z.pow_succ_r in Hx by lia.
    destruct (IH (Z.shiftr x 8) (l + 8)) as (y & l' & -> & Hy & E).
    { rewrite Z.shiftr_div_pow2 by lia. change (2 ^ 8) with 256.
      split; [apply Z.div_pos; lia|]. apply Z.div_lt_upper_bound; lia. }
    exists y, l'. split_and!; [done|lia|lia|]. rewrite E, (log2_up_byte x) by lia. lia.
  - exists x, l. split_and!; [done|lia|lia|done].
Qed.

(** The logarithm as a total function. *)
Lemma ceillog2_spec (x : Z) : 1 <= x < 2 ^ 32 -> luaO_ceillog2 x = Some (Z.log2_up x).
Proof.
  intros Hx. unfold luaO_ceillog2. rewrite wrap_small by (unfold in_u; lia).
  destruct (ceillog2_loop_spec 4 (x - 1) 0) as (y & l' & -> & Hy & E).
  { change (256 * 256 ^ Z.of_nat 4) with (2 ^ 40). lia. }
  cbn [mbind option_bind]. rewrite log_2_spec by done. cbn [mbind option_bind]. f_equal.
  rewrite Z.sub_add in E. lia.
Qed.

(** [luaO_ceillog2] computes the ceiling of the binary logarithm of every
    positive 32-bit number. *)
Theorem luaO_ceillog2_correct (x : Z) (Hx : 1 <= x < 2 ^ 32) :
  exists l, luaO_ceillog2 x = Some l /\ x <= 2 ^ l /\ forall k, 0 <= k -> x <= 2 ^ k -> l <= k.
Proof.
  exists (Z.log2_up x). split; [by apply ceillog2_spec|]. split.
  - destruct (Z.eq_dec x 1) as [->|]; [done|]. apply Z.log2_up_spec. lia.
  - intros k Hk Hle. by apply Z.log2_up_le_pow2; lia.
Qed.

Lemma luaO_ceillog2_correct_witness : exists l, luaO_ceillog2 1000 = Some l /\ 1000 <= 2 ^ l.
Proof. destruct (luaO_ceillog2_correct 1000) as (l & H & Hl & _); [lia|]. exists l. done. Defined.

(** ** Chunk names *)

Lemma copy_all (src : list Z) (from n : Z) :
  0 <= from <= zlen src -> from + n = zlen src + 1 -> copy src from n = Some (drop (Z.to_nat from) src ++ [0]).
Proof.
  intros Hf Hn. unfold copy.
  rewrite (proj2 (Z.leb_le 0 from)), (proj2 (Z.leb_le 0 n)), (proj2 (Z.leb_le _ _)) by lia. cbn [andb].
  rewrite drop_app_le by lia. rewrite take_ge; [done|]. rewrite length_app, length_drop. simpl. lia.
Qed.

Lemma copy_some (src : list Z) (from n : Z) :
  0 <= from -> 0 <= n -> from + n <= zlen src + 1 -> exists s, copy src from n = Some s /\ zlen s = n.
Proof.
  intros Hf Hn Hle. unfold copy.
  rewrite (proj2 (Z.leb_le 0 from)), (proj2 (Z.leb_le 0 n)), (proj2 (Z.leb_le _ _)) by lia. cbn [andb].
  eexists. split; [done|]. rewrite length_take, length_drop, length_app. simpl. lia.
Qed.

Lemma find_nl_range (s : list Z) (i : Z) : find_nl s = Some i -> 0 <= i < zlen s.
Proof.
  revert i. induction s as [|c s IH]; intros i; [done|]. cbn [find_nl length].
  destruct (c =? 0); [done|]. destruct (c =? 10); [intros [= <-]; lia|].
  destruct (find_nl s) as [j|]; [|done]. cbn [mbind option_bind]. intros [= <-]. specialize (IH j eq_refl). lia.
Qed.

(** For every source name, [luaO_chunkid] reads inside the name and writes at
    most LUA_IDSIZE bytes, the last of which is the terminating zero. *)
Theorem luaO_chunkid_fits (source : list Z) :
  exists s, luaO_chunkid source = Some (s ++ [0]) /\ zlen s < LUA_IDSIZE.
Proof.
  unfold luaO_chunkid, LUA_IDSIZE.
  assert (Hne : peek source <> 0 -> 1 <= zlen source) by (destruct source; cbn [peek length]; lia).
  destruct (Z.eqb_spec (peek source) (ch "=")) as [E|_]; [specialize (Hne ltac:(by rewrite E))|].
  { destruct (Z.leb_spec (zlen source) 60).
    - rewrite copy_all by lia. eexists. split; [done|]. rewrite length_drop. lia.
    - destruct (copy_some source 1 (60 - 1)) as (s & -> & Hs); [lia..|]. exists s. split; [done|lia]. }
  destruct (Z.eqb_spec (peek source) (ch "@")) as [E|_]; [specialize (Hne ltac:(by rewrite E))|].
  { destruct (Z.leb_spec (zlen source) 60).
    - rewrite copy_all by lia. eexists. split; [done|]. rewrite length_drop. lia.
    - change (zlen RETS) with 3. rewrite copy_all by lia. cbn [mbind option_bind].
      eexists. rewrite app_assoc. split; [done|]. rewrite length_app, length_drop. simpl. lia. }
  change (60 - (zlen (PRE ++ RETS ++ POS) + 1)) with 45. clear Hne.
  destruct ((zlen source <? 45) && _) eqn:E.
  - apply andb_true_iff in E as [E _]. apply Z.ltb_lt in E.
    destruct (copy_some source 0 (zlen source)) as (s & -> & Hs); [lia..|]. cbn [mbind option_bind].
    exists (PRE ++ s ++ POS). rewrite <- !app_assoc. split; [done|]. rewrite !length_app. simpl. lia.
  - set (n := match find_nl source with Some i => i | None => zlen source end).
    assert (0 <= n <= zlen source).
    { subst n. destruct (find_nl source) as [i|] eqn:En; [apply find_nl_range in En|]; lia. }
    destruct (copy_some source 0 (if n >? 45 then 45 else n)) as (s & -> & Hs);
      [lia|destruct (Z.gtb_spec n 45); lia..|]. cbn [mbind option_bind].
    exists (PRE ++ s ++ RETS ++ POS). rewrite <- !app_assoc. split; [done|]. rewrite !length_app.
    destruct (Z.gtb_spec n 45); simpl; lia.
Qed.

(** ** String order *)

(** Lexicographic order on bytes. *)
Fixpoint lex (s1 s2 : list Z) : comparison :=
  match s1, s2 with
  | [], [] => Eq
  | [], _ => Lt
  | _, [] => Gt
  | c1 :: s1', c2 :: s2' => match c1 ?= c2 with Eq => lex s1' s2' | c => c end
  end.

Definition sign (c : comparison) : Z := match c with Lt => -1 | Eq => 0 | Gt => 1 end.

Lemma c_prefix_split (s : list Z) :
  zlen (c_prefix s) = zlen s /\ s = c_prefix s \/
  exists t, s = c_prefix s ++ 0 :: t /\ drop (Z.to_nat (zlen (c_prefix s) + 1)) s = t /\
    zlen (c_prefix s) <> zlen s.
Proof.
  induction s as [|c s IH]; [by left|]. cbn [c_prefix]. destruct (Z.eqb_spec c 0) as [->|Hc].
  - right. exists s. cbn [length]. split_and!; [done|done|lia].
  - destruct IH as [[Hl He]|(t & Ht & Hd & Hl)].
    + left. cbn [length]. split; [lia|by f_equal].
    + right. exists t. cbn [app length]. split_and!; [by f_equal| |lia].
      rewrite <- Hd. replace (Z.to_nat _) with (S (Z.to_nat (zlen (c_prefix s) + 1))) by lia. done.
Qed.

Lemma c_prefix_nonzero (s : list Z) : Forall (fun c => c <> 0) (c_prefix s).
Proof.
  induction s as [|c s IH]; [constructor|]. cbn [c_prefix]. destruct (Z.eqb_spec c 0); constructor; done.
Qed.

(** Comparing the segments before the first zeros decides, or they are equal. *)
Lemma strcoll_lex (a b : list Z) (ta tb : list Z) :
  Forall (fun c => 0 < c) a -> Forall (fun c => 0 < c) b ->
  (ta = [] \/ exists t, ta = 0 :: t) -> (tb = [] \/ exists t, tb = 0 :: t) ->
  strcoll a b <> 0 /\ strcoll a b = sign (lex (a ++ ta) (b ++ tb)) \/
  strcoll a b = 0 /\ a = b.
Proof.
  intros Ha Hb Hta Htb. revert b Hb. induction Ha as [|x a Hx Ha IH]; intros b Hb.
  - destruct Hb as [|y b Hy Hb]; [by right|]. left. cbn [strcoll app]. split; [lia|].
    destruct Hta as [->|[t ->]]; [done|]. cbn [lex]. by rewrite (proj2 (Z.compare_lt_iff 0 y)).
  - destruct Hb as [|y b Hy Hb].
    + left. cbn [strcoll app]. split; [lia|]. destruct Htb as [->|[t ->]]; [done|]. cbn [lex].
      by rewrite (proj2 (Z.compare_gt_iff x 0)).
    + cbn [strcoll app lex]. destruct (Z.compare_spec x y) as [->| |].
      * rewrite Z.ltb_irrefl. destruct (IH b Hb) as [[H1 H2]|[H1 ->]]; auto.
      * rewrite (proj2 (Z.ltb_lt x y)) by done. left. done.
      * rewrite (proj2 (Z.ltb_ge x y)), (proj2 (Z.ltb_lt y x)) by lia. left. done.
Qed.

Lemma lex_app (a s1 s2 : list Z) : lex (a ++ s1) (a ++ s2) = lex s1 s2.
Proof. induction a as [|x a IH]; [done|]. cbn [app lex]. by rewrite Z.compare_refl. Qed.

Lemma c_prefix_pos (s : list Z) : Forall (fun c => 0 <= c) s -> Forall (fun c => 0 < c) (c_prefix s).
Proof.
  induction 1 as [|c s Hc Hs IH]; [constructor|]. cbn [c_prefix].
  destruct (Z.eqb_spec c 0); constructor; [lia|done].
Qed.

(** The string comparison of Lua, which calls [strcoll] segment by segment
    between embedded zeros, is the lexicographic order on all bytes (in the C
    locale), and terminates. *)
Theorem l_strcmp_lex (s1 s2 : list Z) (fuel : nat)
  (H1 : Forall (fun c => 0 <= c) s1) (H2 : Forall (fun c => 0 <= c) s2) (Hf : (length s1 < fuel)%nat) :
  l_strcmp fuel s1 s2 = Some (sign (lex s1 s2)).
Proof.
  revert s1 s2 H1 H2 Hf. induction fuel as [|fuel IH]; intros s1 s2 H1 H2 Hf; [lia|].
  cbn [l_strcmp].
  pose proof (c_prefix_pos s1 H1) as P1. pose proof (c_prefix_pos s2 H2) as P2.
  pose proof (c_prefix_split s1) as S1. pose proof (c_prefix_split s2) as S2.
  set (p1 := c_prefix s1) in *. set (p2 := c_prefix s2) in *. clearbody p1 p2.
  destruct S1 as [[L1 E1]|(t1 & E1 & D1 & L1)], S2 as [[L2 E2]|(t2 & E2 & D2 & L2)].
  - destruct (strcoll_lex p1 p2 [] []) as [[Hn Hs]|[Hz He]]; [done|done|auto|auto| |].
    + rewrite (proj2 (Z.eqb_neq _ _) Hn), Hs, !app_nil_r, <- E1, <- E2. done.
    + rewrite Hz, L1, L2, !Z.eqb_refl. cbn [negb Z.eqb]. subst.
      pose proof (lex_app p2 [] []) as H. rewrite !app_nil_r in H. by rewrite H.
  - destruct (strcoll_lex p1 p2 [] (0 :: t2)) as [[Hn Hs]|[Hz He]]; [done|done|eauto|eauto| |].
    + rewrite (proj2 (Z.eqb_neq _ _) Hn), Hs, app_nil_r, <- E1, <- E2. done.
    + rewrite Hz, (proj2 (Z.eqb_neq _ _) L2), L1, !Z.eqb_refl. cbn [negb]. subst.
      pose proof (lex_app p2 [] (0 :: t2)) as H. rewrite app_nil_r in H. by rewrite H.
  - destruct (strcoll_lex p1 p2 (0 :: t1) []) as [[Hn Hs]|[Hz He]]; [done|done|eauto|eauto| |].
    + rewrite (proj2 (Z.eqb_neq _ _) Hn), Hs, app_nil_r, <- E1, <- E2. done.
    + rewrite Hz, L2, !Z.eqb_refl, (proj2 (Z.eqb_neq _ _) L1). cbn [negb Z.eqb]. subst.
      pose proof (lex_app p2 (0 :: t1) []) as H. rewrite app_nil_r in H. by rewrite H.
  - destruct (strcoll_lex p1 p2 (0 :: t1) (0 :: t2)) as [[Hn Hs]|[Hz He]]; [done|done|eauto|eauto| |].
    + rewrite (proj2 (Z.eqb_neq _ _) Hn), Hs, <- E1, <- E2. done.
    + rewrite Hz, (proj2 (Z.eqb_neq _ _) L2), (proj2 (Z.eqb_neq _ _) L1). cbn [negb Z.eqb].
      rewrite D1, D2. clear D1 D2 L1 L2. subst. rewrite Forall_app, Forall_cons in H1, H2.
      rewrite length_app in Hf. cbn [length] in Hf. rewrite IH; [|tauto|tauto|lia].
      by rewrite lex_app.
Qed.

Lemma l_strcmp_lex_witness : l_strcmp 10 [97; 0; 98] [97; 0; 99] = Some (-1).
Proof. rewrite (l_strcmp_lex [97; 0; 98] [97; 0; 99] 10); [reflexivity|repeat constructor; lia..|simpl; lia]. Defined.

(** ** Messages without the buffer *)

Section messages.
Context (number2str : double -> list Z) (decpoint : Z).

(** The text of one conversion and the arguments left. *)
Definition fs_piece (c : Z) (args : list fsarg) : option (res (list Z * list fsarg)) :=
  if c =? ch "s" then
    match args with FString s :: args => Some (Ok (default (bytes "(null)") s, args)) | _ => None end
  else if c =? ch "c" then
    match args with FChar x :: args => Some (Ok ([u8 x], args)) | _ => None end
  else if c =? ch "d" then
    match args with FInt i :: args => Some (Ok (dec_text i, args)) | _ => None end
  else if c =? ch "I" then
    match args with FInteger i :: args => Some (Ok (dec_text i, args)) | _ => None end
  else if c =? ch "f" then
    match args with
    | FNumber n :: args => s ← tostringbuff number2str decpoint (VFlt n); Some (Ok (s, args))
    | _ => None
    end
  else if c =? ch "p" then
    match args with FPointer t :: args => Some (Ok (t, args)) | _ => None end
  else if c =? ch "U" then
    match args with FUtf8 x :: args => s ← luaO_utf8esc x; Some (Ok (s, args)) | _ => None end
  else if c =? ch "%" then Some (Ok ([ch "%"], args))
  else Some (Err "invalid conversion to 'lua_pushfstring'").

Fixpoint fs_text (fuel : nat) (fmt : list Z) (args : list fsarg) : option (res (list Z)) :=
  match fuel with
  | O => None
  | S fuel' =>
      match split_percent fmt with
      | (pre, None) => Some (Ok pre)
      | (pre, Some rest) =>
          r ← fs_piece (peek rest) args;
          match r with
          | Err e => Some (Err e)
          | Ok (piece, args) =>
              r ← fs_text fuel' (tail rest) args;
              Some (match r with Ok t => Ok (pre ++ piece ++ t) | Err e => Err e end)
          end
      end
  end.

Lemma split_percent_shorter (fmt pre rest : list Z) :
  split_percent fmt = (pre, Some rest) -> (length rest < length fmt)%nat.
Proof.
  revert pre. induction fmt as [|c fmt IH]; intros pre; [done|]. cbn [split_percent length].
  destruct (c =? ch "%"); [intros [= _ ->]; lia|].
  destruct (split_percent fmt) as [pre' rest']. intros [= _ ->]. specialize (IH _ eq_refl). lia.
Qed.

(** The fuel only has to exceed the length of the format. *)
Lemma fs_text_fuel (f1 f2 : nat) (fmt : list Z) (args : list fsarg) :
  (length fmt < f1)%nat -> (length fmt < f2)%nat -> fs_text f1 fmt args = fs_text f2 fmt args.
Proof.
  revert f2 fmt args. induction f1 as [|f1 IH]; intros [|f2] fmt args H1 H2; try lia.
  cbn [fs_text]. destruct (split_percent fmt) as [pre [rest|]] eqn:E; [|done].
  apply split_percent_shorter in E. destruct (fs_piece (peek rest) args) as [[[p a]|]|]; [|done..].
  cbn [mbind option_bind]. rewrite (IH f2); [done|destruct rest; cbn [tail length] in *; lia..].
Qed.

(** What the buffer stands for, and its bound. *)
Definition btext (b : BuffFS) : list Z := default [] (b_pushed b) ++ b_space b.
Definition buff_ok (b : BuffFS) : Prop := zlen (b_space b) <= BUFVFS.

Lemma getbuff_text (b : BuffFS) (sz : Z) :
  buff_ok b -> 0 <= sz <= BUFVFS ->
  btext (getbuff b sz) = btext b /\ zlen (b_space (getbuff b sz)) + sz <= BUFVFS.
Proof.
  intros Hb Hsz. unfold getbuff. destruct (Z.gtb_spec sz (BUFVFS - zlen (b_space b))); [|split; [done|lia]].
  destruct b as [[p|] s]; unfold btext; simpl; rewrite ?app_nil_r; split; done || lia.
Qed.

Lemma addspace_text (b b0 : BuffFS) (s : list Z) :
  btext b = btext b0 -> zlen (b_space b) + zlen s <= BUFVFS ->
  exists b', addspace b s = Some b' /\ btext b' = btext b0 ++ s /\ buff_ok b'.
Proof.
  intros Hb Hl. unfold addspace. rewrite (proj2 (Z.leb_le _ _)) by done. eexists. split; [done|].
  unfold buff_ok, btext in *. simpl. rewrite length_app, app_assoc, Hb. split; [done|lia].
Qed.

Lemma addstr2buff_text (b : BuffFS) (s : list Z) :
  buff_ok b -> exists b', addstr2buff b s = Some b' /\ btext b' = btext b ++ s /\ buff_ok b'.
Proof.
  intros Hb. unfold addstr2buff. destruct (Z.leb_spec (zlen s) BUFVFS).
  - destruct (getbuff_text b (zlen s) Hb) as [Ht Hl]; [lia|]. by apply addspace_text.
  - eexists. split; [done|]. split; [|by vm_compute]. destruct b as [[p|] sp]; unfold btext; simpl;
      by rewrite ?app_nil_r.
Qed.

Lemma dec_text_len (i : Z) : in_s 64 i -> zlen (dec_text i) <= 21.
Proof.
  intros [H1 H2]. unfold dec_text. rewrite length_app, length_reverse, length_map.
  assert ((length (digits 10 (Z.abs i)) <= 20)%nat).
  { apply digits_length; [lia| |lia]. change (10 ^ Z.of_nat 20) with 100000000000000000000. lia. }
  destruct (i <? 0); cbn [length]; lia.
Qed.

Lemma addnum2buff_text (b : BuffFS) (v : TValue) (s : list Z) :
  buff_ok b -> tostringbuff number2str decpoint v = Some s -> zlen s <= MAXNUMBER2STR ->
  exists b', addnum2buff number2str decpoint b v = Some b' /\ btext b' = btext b ++ s /\ buff_ok b'.
Proof.
  intros Hb Hv Hl. unfold addnum2buff. rewrite Hv. cbn [mbind option_bind].
  rewrite (proj2 (Z.leb_le _ _)) by done.
  destruct (getbuff_text b MAXNUMBER2STR Hb) as [Ht Hs]; [by split; vm_compute|].
  apply addspace_text; [done|lia].
Qed.

(** Arguments in the ranges of their C types; pointers print in the space the
    code provides for them. *)
Definition arg_ok (a : fsarg) : Prop :=
  match a with
  | FInt i => in_s 32 i
  | FInteger i => in_s 64 i
  | FPointer t => zlen t < 32
  | _ => True
  end.

Context (Hnum : forall n, zlen (number2str n) <= MAXNUMBER2STR - 2).

Lemma number_text (n : double) :
  exists s, tostringbuff number2str decpoint (VFlt n) = Some s /\ zlen s <= MAXNUMBER2STR.
Proof.
  specialize (Hnum n). unfold MAXNUMBER2STR in *. cbn [tostringbuff].
  unfold MAXNUMBER2STR. rewrite (proj2 (Z.leb_le _ _)) by lia. eexists. split; [done|].
  destruct (looks_like_int _); rewrite ?length_app; simpl; lia.
Qed.

Lemma integer_text (i : Z) :
  in_s 64 i -> tostringbuff number2str decpoint (VInt i) = Some (dec_text i) /\ zlen (dec_text i) <= MAXNUMBER2STR.
Proof.
  intros Hi%dec_text_len. unfold MAXNUMBER2STR. cbn [tostringbuff]. unfold MAXNUMBER2STR.
  rewrite (proj2 (Z.leb_le _ _)) by lia. split; [done|lia].
Qed.

(** A conversion that appends [s] to the buffer. *)
Lemma conversion_ret (b : BuffFS) (s : list Z) (args : list fsarg) (r : option BuffFS) :
  Forall arg_ok args -> (exists b', r = Some b' /\ btext b' = btext b ++ s /\ buff_ok b') ->
  Forall arg_ok args /\ exists b', (b ← r; Some (Ok (b, args))) = Some (Ok (b', args)) /\
    btext b' = btext b ++ s /\ buff_ok b'.
Proof. intros Ha (b' & -> & Hb'). split; [done|]. by exists b'. Qed.

Lemma fs_conversion_text (c : Z) (args : list fsarg) (b : BuffFS) :
  buff_ok b -> Forall arg_ok args ->
  match fs_piece c args with
  | Some (Ok (s, args')) => Forall arg_ok args' /\ exists b',
      fs_conversion number2str decpoint c args b = Some (Ok (b', args')) /\ btext b' = btext b ++ s /\ buff_ok b'
  | Some (Err e) => fs_conversion number2str decpoint c args b = Some (Err e)
  | None => fs_conversion number2str decpoint c args b = None
  end.
Proof.
  intros Hb Ha. unfold fs_piece, fs_conversion.
  destruct (c =? ch "s").
  { destruct Ha as [|[] args Hx Ha]; try done. apply conversion_ret; [done|]. by apply addstr2buff_text. }
  destruct (c =? ch "c").
  { destruct Ha as [|[] args Hx Ha]; try done. apply conversion_ret; [done|]. by apply addstr2buff_text. }
  destruct (c =? ch "d").
  { destruct Ha as [|[] args Hx Ha]; try done. apply conversion_ret; [done|].
    destruct (integer_text i) as [Hi Hl]; [unfold arg_ok, in_s in *; lia|]. by apply addnum2buff_text. }
  destruct (c =? ch "I").
  { destruct Ha as [|[] args Hx Ha]; try done. apply conversion_ret; [done|].
    destruct (integer_text i Hx) as [Hi Hl]. by apply addnum2buff_text. }
  destruct (c =? ch "f").
  { destruct Ha as [|[] args Hx Ha]; try done. destruct (number_text n) as (s & Hs & Hl). rewrite Hs.
    apply conversion_ret; [done|]. by apply addnum2buff_text. }
  destruct (c =? ch "p").
  { destruct Ha as [|[] args Hx Ha]; try done. simpl in Hx. change (3 * 8 + 8) with 32.
    rewrite (proj2 (Z.leb_le _ _)) by lia. apply conversion_ret; [done|].
    destruct (getbuff_text b 32 Hb) as [Ht Hs]; [by split; vm_compute|]. apply addspace_text; [done|lia]. }
  destruct (c =? ch "U").
  { destruct Ha as [|[] args Hx Ha]; try done. destruct (luaO_utf8esc x); [|done].
    apply conversion_ret; [done|]. by apply addstr2buff_text. }
  destruct (c =? ch "%"); [|done]. apply conversion_ret; [done|]. by apply addstr2buff_text.
Qed.

Lemma pushvfstring_loop_text (fuel : nat) (fmt : list Z) (args : list fsarg) (b : BuffFS) :
  buff_ok b -> Forall arg_ok args ->
  pushvfstring_loop number2str decpoint fuel fmt args b =
  match fs_text fuel fmt args with
  | Some (Ok t) => Some (Ok (btext b ++ t))
  | r => r
  end.
Proof.
  revert fmt args b. induction fuel as [|fuel IH]; intros fmt args b Hb Ha; [done|].
  cbn [pushvfstring_loop fs_text]. destruct (split_percent fmt) as [pre rest].
  destruct (addstr2buff_text b pre Hb) as (b1 & -> & Hb1 & Hok1). cbn [mbind option_bind].
  destruct rest as [rest|].
  - pose proof (fs_conversion_text (peek rest) args b1 Hok1 Ha) as Hc.
    destruct (fs_piece (peek rest) args) as [[[s args']|e]|]; [|by rewrite Hc..].
    destruct Hc as (Ha' & b2 & -> & Hb2 & Hok2). cbn [mbind option_bind]. rewrite IH by done.
    destruct (fs_text fuel (tail rest) args') as [[t|e]|]; [|done..]. cbn [mbind option_bind].
    by rewrite Hb2, Hb1, <- !app_assoc.
  - do 2 f_equal. rewrite <- Hb1. destruct b1 as [[p|] sp]; done.
Qed.

(** The fixed-size buffer behind [lua_pushfstring] is transparent: it never
    overflows, and the message is the concatenation of the literal text and the
    converted arguments, whatever their lengths; an unknown conversion raises the
    error. *)
Theorem luaO_pushvfstring_correct (fmt : list Z) (args : list fsarg) (fuel : nat)
  (Ha : Forall arg_ok args) (Hfuel : (length fmt < fuel)%nat) :
  luaO_pushvfstring number2str decpoint fmt args = fs_text fuel fmt args.
Proof.
  unfold luaO_pushvfstring. rewrite pushvfstring_loop_text by done.
  rewrite (fs_text_fuel fuel (S (length fmt))) by lia.
  by destruct (fs_text _ fmt args) as [[t|e]|].
Qed.
End messages.

Lemma luaO_pushvfstring_correct_witness :
  luaO_pushvfstring (fun _ => bytes "1.5") 46 (bytes "line %d: %s") [FInt (-7); FString (Some (replicate 300 120))] =
  Some (Ok (bytes "line -7: " ++ replicate 300 120)).
Proof.
  rewrite (luaO_pushvfstring_correct (fun _ => bytes "1.5") 46) with (fuel := 20%nat);
    [reflexivity|intros; vm_compute; discriminate|repeat constructor; discriminate|simpl; lia].
Defined.
End LuaObject.
