(* ===== verification/LuaTable.v ===== *)
(** * Lua tables

    The implementation of ltable.c: an array part and a hash part of chained
    scatter nodes (Brent's variation).  A node is identified by its index in the
    node vector, a slot by the array or node index it lies at; [None] and [Stuck]
    stand for an access outside a vector, a broken assertion, or lack of fuel.
    Memory allocation may fail: [alloc_ok] says whether a vector of that many
    elements can be obtained. *)

From Stdlib Require Import SpecFloat.
From S2P Require Import Prelude CFloat LuaValue LuaNumber LuaObject.

Module LuaTable.
Import CFloat LuaValue LuaNumber LuaObject.
Open Scope cell_scope.
Open Scope string_scope.
Open Scope list_scope.
Open Scope Z_scope.

(** ** Data *)

(** The key fields of a node: none, a dead key (which keeps the address of the
    collected object), or a value. *)
Inductive nkey := KNil | KDead (p : Z) | KVal (v : TValue).

(** [Node]; [n_next] is the offset to the next node of the chain, 0 at its end. *)
Record Node := MkNode { n_val : TValue; n_key : nkey; n_next : Z }.

(** [Table]: [t_real] is [isrealasize], [t_lastfree] is NULL for the dummy node. *)
Record Table := MkTable {
  t_real : bool;
  t_alimit : Z;
  t_array : list TValue;
  t_lsizenode : Z;
  t_node : list Node;
  t_lastfree : option nat }.

Definition dummynode : Node := MkNode VEmpty KNil 0.

Definition isdummy (t : Table) : bool := match t_lastfree t with None => true | Some _ => false end.
Definition sizenode (t : Table) : Z := Z.shiftl 1 (t_lsizenode t).
Definition allocsizenode (t : Table) : Z := if isdummy t then 0 else sizenode t.

Definition with_alimit (t : Table) (a : Z) : Table :=
  MkTable (t_real t) a (t_array t) (t_lsizenode t) (t_node t) (t_lastfree t).
Definition with_real (t : Table) (r : bool) : Table :=
  MkTable r (t_alimit t) (t_array t) (t_lsizenode t) (t_node t) (t_lastfree t).
Definition with_array (t : Table) (a : list TValue) : Table :=
  MkTable (t_real t) (t_alimit t) a (t_lsizenode t) (t_node t) (t_lastfree t).
Definition with_nodes (t : Table) (ns : list Node) : Table :=
  MkTable (t_real t) (t_alimit t) (t_array t) (t_lsizenode t) ns (t_lastfree t).
Definition with_lastfree (t : Table) (f : option nat) : Table :=
  MkTable (t_real t) (t_alimit t) (t_array t) (t_lsizenode t) (t_node t) f.

Definition set_val (n : Node) (v : TValue) : Node := MkNode v (n_key n) (n_next n).
Definition set_next (n : Node) (d : Z) : Node := MkNode (n_val n) (n_key n) d.

(** ** Hashing *)

(** [lmod(s, size)] and [hashmod]: node indices. *)
Definition hashpow2 (lsize : Z) (n : Z) : nat := Z.to_nat (Z.land n (Z.shiftl 1 lsize - 1)).
Definition hashmod (lsize : Z) (n : Z) : nat := Z.to_nat (n mod (Z.lor (Z.shiftl 1 lsize - 1) 1)).

Definition INT_MAX : Z := 2 ^ 31 - 1.

Definition hashint (lsize : Z) (i : Z) : nat := hashmod lsize (u64 i).

(** [point2uint] *)
Definition point2uint (p : Z) : Z := Z.land p (2 ^ 32 - 1).
Definition hashpointer (lsize : Z) (p : Z) : nat := hashmod lsize (point2uint p).

(** [frexp]: mantissa in [1/2, 1) and exponent. *)
Definition frexp (n : double) : double * Z := SFfrexp 53 1024 n.

Definition l_hashfloat (n : double) : Z :=
  let '(m, i) := frexp n in
  let n := dmul m (dneg (d_of_Z (- 2 ^ 31))) in
  match lua_numbertointeger n with
  | None => 0
  | Some ni =>
      let u := u32 (u32 i + u32 ni) in
      s32 (if u <=? INT_MAX then u else u32 (Z.lnot u))
  end.

(** [mainpositionTV]; a nil key has none. *)
Definition mainposition (lsize : Z) (key : TValue) : option nat :=
  match key with
  | VInt i => Some (hashint lsize i)
  | VFlt n => Some (hashmod lsize (l_hashfloat n))
  | VShrStr ts => Some (hashpow2 lsize (ts_hash ts))
  | VLngStr ts => Some (hashpow2 lsize (fst (luaS_hashlongstr ts)))
  | VFalse => Some (hashpow2 lsize 0)
  | VTrue => Some (hashpow2 lsize 1)
  | VLightUD p => Some (hashpointer lsize p)
  | VLCF f => Some (hashpointer lsize f)
  | VGC _ p => Some (hashpointer lsize p)
  | VNil | VEmpty | VAbstKey => None
  end.

(** [equalkey] *)
Definition equalkey (k1 : TValue) (n2 : Node) (deadok : bool) : bool :=
  match n_key n2 with
  | KNil => match k1 with VNil => true | _ => false end
  | KDead p => deadok && match gcvalue k1 with Some q => q =? p | None => false end
  | KVal k2 =>
      match k1, k2 with
      | VFalse, VFalse | VTrue, VTrue => true
      | VInt i, VInt j => i =? j
      | VFlt a, VFlt b => deq a b
      | VLightUD p, VLightUD q => p =? q
      | VLCF f, VLCF g => f =? g
      | VLngStr a, VLngStr b => luaS_eqlngstr a b
      | VShrStr a, VShrStr b => ts_addr a =? ts_addr b
      | VGC g p, VGC h q => bool_decide (g = h) && (p =? q)
      | _, _ => false
      end
  end.

(** ** The size of the array part *)

Definition ispow2 (x : Z) : bool := Z.land x (u32 (x - 1)) =? 0.
Definition limitequalsasize (t : Table) : bool := t_real t || ispow2 (t_alimit t).

Definition luaH_realasize (t : Table) : Z :=
  if limitequalsasize t then t_alimit t
  else
    let size := t_alimit t in
    let size := Z.lor size (Z.shiftr size 1) in
    let size := Z.lor size (Z.shiftr size 2) in
    let size := Z.lor size (Z.shiftr size 4) in
    let size := Z.lor size (Z.shiftr size 8) in
    let size := Z.lor size (Z.shiftr size 16) in
    u32 (size + 1).

Definition ispow2realasize (t : Table) : bool := negb (t_real t) || ispow2 (t_alimit t).

Definition setlimittosize (t : Table) : Table := with_real (with_alimit t (luaH_realasize t)) true.

(** ** Searching *)

(** The node [d] places after [i]. *)
Definition node_step (i : nat) (d : Z) : option nat :=
  if Z.of_nat i + d <? 0 then None else Some (Z.to_nat (Z.of_nat i + d)).

(** The search loop shared by the get functions: the index of the first node of
    the chain from [i] on that satisfies [p]. *)
Fixpoint chain_search (fuel : nat) (ns : list Node) (p : Node -> bool) (i : nat) : option (option nat) :=
  match fuel with
  | O => None
  | S fuel' =>
      n ← ns !! i;
      if p n then Some (Some i)
      else if n_next n =? 0 then Some None
      else j ← node_step i (n_next n); chain_search fuel' ns p j
  end.

(** Where a value lies. *)
Inductive slot := SArray (i : Z) | SNode (i : nat) | SAbsent.

#[export] Instance slot_eq_dec : EqDecision slot.
Proof. solve_decision. Defined.

Definition node_slot (r : option nat) : slot := match r with Some i => SNode i | None => SAbsent end.

(** [t->array[i]] *)
Definition array_get (a : list TValue) (i : Z) : option TValue :=
  if i <? 0 then None else a !! Z.to_nat i.
Definition array_set (a : list TValue) (i : Z) (v : TValue) : option (list TValue) :=
  if (0 <=? i) && (i <? zlen a) then Some (<[Z.to_nat i := v]> a) else None.

Definition slot_val (t : Table) (s : slot) : option TValue :=
  match s with
  | SArray i => array_get (t_array t) i
  | SNode i => n ← t_node t !! i; Some (n_val n)
  | SAbsent => Some VAbstKey
  end.

Definition getgeneric (t : Table) (key : TValue) (deadok : bool) : option slot :=
  mp ← mainposition (t_lsizenode t) key;
  r ← chain_search (length (t_node t)) (t_node t) (fun n => equalkey key n deadok) mp;
  Some (node_slot r).

Definition key_is_int (key : Z) (n : Node) : bool :=
  match n_key n with KVal (VInt i) => i =? key | _ => false end.

(** [luaH_getint]: the slot, and the table with the limit it may have moved. *)
Definition luaH_getint (t : Table) (key : Z) : option (Table * slot) :=
  let alimit := t_alimit t in
  if u64 (u64 key - 1) <? alimit then Some (t, SArray (key - 1))
  else if negb (t_real t) &&
          (Z.land (u64 (u64 key - 1)) (u64 (Z.lnot (u64 (alimit - 1)))) <? alimit) then
    Some (with_alimit t (u32 key), SArray (key - 1))
  else
    r ← chain_search (length (t_node t)) (t_node t) (key_is_int key) (hashint (t_lsizenode t) key);
    Some (t, node_slot r).

Definition key_is_shrstr (key : TString) (n : Node) : bool :=
  match n_key n with KVal (VShrStr ts) => eqshrstr ts key | _ => false end.

Definition luaH_getshortstr (t : Table) (key : TString) : option slot :=
  r ← chain_search (length (t_node t)) (t_node t) (key_is_shrstr key) (hashpow2 (t_lsizenode t) (ts_hash key));
  Some (node_slot r).

Definition luaH_getstr (t : Table) (key : TValue) : option slot :=
  match key with
  | VShrStr ts => luaH_getshortstr t ts
  | VLngStr _ => getgeneric t key false
  | _ => None
  end.

Definition luaH_get (t : Table) (key : TValue) : option (Table * slot) :=
  match key with
  | VShrStr ts => s ← luaH_getshortstr t ts; Some (t, s)
  | VInt i => luaH_getint t i
  | VNil => Some (t, SAbsent)
  | VFlt n =>
      match luaV_flttointeger n F2Ieq with
      | Some k => luaH_getint t k
      | None => s ← getgeneric t key false; Some (t, s)
      end
  | _ => s ← getgeneric t key false; Some (t, s)
  end.

(** ** Traversal *)

Definition arrayindex (k : Z) : Z := if u64 (u64 k - 1) <? MAXASIZE then u32 k else 0.

(** [findindex]: [Err] for a key that is not in the table. *)
Definition findindex (t : Table) (key : TValue) (asize : Z) : option (res Z) :=
  if ttisnil key then Some (Ok 0)
  else
    let i := match key with VInt k => arrayindex k | _ => 0 end in
    if u32 (i - 1) <? asize then Some (Ok i)
    else
      s ← getgeneric t key true;
      match s with
      | SNode i => Some (Ok (u32 (Z.of_nat i + 1 + asize)))
      | _ => Some (Err "invalid key to 'next'")
      end.

(** The key in a node as a value ([getnodekey]). *)
Definition nodekey (n : Node) : option TValue :=
  match n_key n with KVal v => Some v | _ => None end.

(** The array half of [luaH_next]: the next index with a value. *)
Fixpoint next_array (fuel : nat) (t : Table) (asize i : Z) : option (option (Z * TValue) ) :=
  if i <? asize then
    match fuel with
    | O => None
    | S fuel' =>
        v ← array_get (t_array t) i;
        if negb (isempty v) then Some (Some (i, v)) else next_array fuel' t asize (i + 1)
    end
  else Some None.

Fixpoint next_hash (fuel : nat) (t : Table) (i : Z) : option (option (TValue * TValue)) :=
  if s32 i <? sizenode t then
    match fuel with
    | O => None
    | S fuel' =>
        n ← (if i <? 0 then None else t_node t !! Z.to_nat i);
        if negb (isempty (n_val n)) then k ← nodekey n; Some (Some (k, n_val n))
        else next_hash fuel' t (i + 1)
    end
  else Some None.

(** [luaH_next]: the next key and value, [Ok None] at the end. *)
Definition luaH_next (t : Table) (key : TValue) : option (res (option (TValue * TValue))) :=
  let asize := luaH_realasize t in
  r ← findindex t key asize;
  match r with
  | Err e => Some (Err e)
  | Ok i =>
      r ← next_array (length (t_array t)) t asize i;
      match r with
      | Some (i, v) => Some (Ok (Some (VInt (i + 1), v)))
      | None =>
          let i := if i <? asize then asize else i in
          r ← next_hash (length (t_node t)) t (u32 (i - asize));
          Some (Ok r)
      end
  end.

(** ** Rehash *)

(** [computesizes]: the optimal array size and the number of keys that go there. *)
Fixpoint computesizes_loop (fuel : nat) (nums : list Z) (pna : Z) (i : nat) (twotoi a na optimal : Z)
  : option (Z * Z) :=
  if (twotoi >? 0) && (pna >? twotoi / 2) then
    match fuel with
    | O => None
    | S fuel' =>
        c ← nums !! i;
        let a := u32 (a + c) in
        if a >? twotoi / 2
        then computesizes_loop fuel' nums pna (S i) (u32 (twotoi * 2)) a a twotoi
        else computesizes_loop fuel' nums pna (S i) (u32 (twotoi * 2)) a na optimal
    end
  else Some (optimal, na).

Definition computesizes (nums : list Z) (pna : Z) : option (Z * Z) :=
  computesizes_loop 33 nums pna 0 1 0 0 0.

(** [nums[i]++] and [countint]: the new counts and the number of keys counted. *)
Definition count_at (nums : list Z) (i c : Z) : option (list Z) :=
  x ← nums !! Z.to_nat i; Some (<[Z.to_nat i := u32 (x + c)]> nums).

Definition countint (key : Z) (nums : list Z) : option (list Z * Z) :=
  let k := arrayindex key in
  if negb (k =? 0) then
    lg ← luaO_ceillog2 k;
    nums ← count_at nums lg 1;
    Some (nums, 1)
  else Some (nums, 0).

(** The inner loop of [numusearray]: non-empty entries from [i] to [lim]. *)
Fixpoint count_slice (fuel : nat) (a : list TValue) (i lim lc : Z) : option (Z * Z) :=
  if i <=? lim then
    match fuel with
    | O => None
    | S fuel' =>
        v ← array_get a (i - 1);
        count_slice fuel' a (i + 1) lim (if negb (isempty v) then lc + 1 else lc)
    end
  else Some (i, lc).

Fixpoint numusearray_loop (fuel : nat) (a : list TValue) (asize lg ttlg i ause : Z) (nums : list Z)
  : option (list Z * Z) :=
  match fuel with
  | O => Some (nums, ause)
  | S fuel' =>
      if (ttlg >? asize) && (i >? asize) then Some (nums, ause)
      else
        let lim := if ttlg >? asize then asize else ttlg in
        '(i, lc) ← count_slice (length a) a i lim 0;
        nums ← count_at nums lg lc;
        numusearray_loop fuel' a asize (lg + 1) (u32 (ttlg * 2)) i (u32 (ause + lc)) nums
  end.

(** [numusearray]: slices 0 to MAXABITS. *)
Definition numusearray (t : Table) (nums : list Z) : option (list Z * Z) :=
  numusearray_loop 32 (t_array t) (t_alimit t) 0 1 1 0 nums.

(** [numusehash], from the last node to the first: counts, total and integer uses. *)
Fixpoint numusehash_loop (ns : list Node) (nums : list Z) (totaluse ause : Z) : option (list Z * Z * Z) :=
  match ns with
  | [] => Some (nums, totaluse, ause)
  | n :: ns' =>
      if negb (isempty (n_val n)) then
        match n_key n with
        | KVal (VInt i) =>
            '(nums, c) ← countint i nums;
            numusehash_loop ns' nums (totaluse + 1) (ause + c)
        | _ => numusehash_loop ns' nums (totaluse + 1) ause
        end
      else numusehash_loop ns' nums totaluse ause
  end.

Definition numusehash (t : Table) (nums : list Z) : option (list Z * Z * Z) :=
  numusehash_loop (reverse (t_node t)) nums 0 0.

(** [rehash] counts in an [int]: its overflow is undefined. *)
Definition int_ok (x : Z) : bool := (- 2 ^ 31 <=? x) && (x <=? INT_MAX).

(** ** Insertion *)

(** [getfreepos]: the node, and the table with [lastfree] moved down to it. *)
Fixpoint freepos_loop (ns : list Node) (lf : nat) : option (nat * option nat) :=
  match lf with
  | O => Some (O, None)
  | S lf' =>
      n ← ns !! lf';
      match n_key n with
      | KNil => Some (lf', Some lf')
      | _ => freepos_loop ns lf'
      end
  end.

Definition getfreepos (t : Table) : option (Table * option nat) :=
  match t_lastfree t with
  | None => Some (t, None)
  | Some lf => '(lf, f) ← freepos_loop (t_node t) lf; Some (with_lastfree t (Some lf), f)
  end.

(** The node before [mp] in the chain that starts at [i]. *)
Fixpoint find_previous (fuel : nat) (ns : list Node) (i mp : nat) : option nat :=
  match fuel with
  | O => None
  | S fuel' =>
      n ← ns !! i;
      j ← node_step i (n_next n);
      if (j =? mp)%nat then Some i else find_previous fuel' ns j mp
  end.

(** The collision cases of [luaH_newkey]: the nodes, and where the new key goes.
    [f] is the free node. *)
Definition make_room (lsize : Z) (ns : list Node) (mp f : nat) : option (list Node * nat) :=
  nmp ← ns !! mp;
  nf ← ns !! f;
  k ← nodekey nmp;
  othern ← mainposition lsize k;
  if negb (othern =? mp)%nat then
    prev ← find_previous (length ns) ns othern mp;
    np ← ns !! prev;
    let ns := <[prev := set_next np (Z.of_nat f - Z.of_nat prev)]> ns in
    nmp ← ns !! mp;
    if negb (n_next nmp =? 0) then
      let ns := <[f := set_next nmp (n_next nmp + (Z.of_nat mp - Z.of_nat f))]> ns in
      Some (<[mp := set_val (set_next nmp 0) VEmpty]> ns, mp)
    else
      let ns := <[f := nmp]> ns in
      Some (<[mp := set_val nmp VEmpty]> ns, mp)
  else
    let nf := if negb (n_next nmp =? 0)
              then set_next nf (Z.of_nat mp + n_next nmp - Z.of_nat f) else nf in
    let ns := <[f := nf]> ns in
    Some (<[mp := set_next nmp (Z.of_nat f - Z.of_nat mp)]> ns, f).

(** [setnodekey] and the final [setobj2t]. *)
Definition set_node (ns : list Node) (i : nat) (key value : TValue) : option (list Node) :=
  n ← ns !! i; Some (<[i := MkNode value (KVal key) (n_next n)]> ns).

(** The key under which [luaH_newkey] stores: an integral float becomes an
    integer, nil and NaN are errors. *)
Definition normkey (key : TValue) : res TValue :=
  if ttisnil key then Err "table index is nil"
  else match key with
       | VFlt f =>
           match luaV_flttointeger f F2Ieq with
           | Some k => Ok (VInt k)
           | None => if negb (deq f f) then Err "table index is NaN" else Ok key
           end
       | _ => Ok key
       end.

Definition lift {S A} (s : S) (x : option A) (k : A -> outcome S unit) : outcome S unit :=
  match x with Some a => k a | None => Stuck end.

(** [luaH_finishset], [luaH_set] and [luaH_setint], given [luaH_newkey]. *)
Section Set_.
Variable newkey : Table -> TValue -> TValue -> outcome Table unit.

Definition set_slot (t : Table) (s : slot) (value : TValue) : outcome Table unit :=
  match s with
  | SArray i => lift t (array_set (t_array t) i value) (fun a => Ret (with_array t a) tt)
  | SNode i =>
      lift t (t_node t !! i) (fun n => Ret (with_nodes t (<[i := set_val n value]> (t_node t))) tt)
  | SAbsent => Stuck
  end.

Definition finishset (t : Table) (key : TValue) (s : slot) (value : TValue) : outcome Table unit :=
  lift t (slot_val t s) (fun v => if isabstkey v then newkey t key value else set_slot t s value).

Definition set_with (t : Table) (key value : TValue) : outcome Table unit :=
  lift t (luaH_get t key) (fun '(t, s) => finishset t key s value).

Definition setint_with (t : Table) (key : Z) (value : TValue) : outcome Table unit :=
  lift t (luaH_getint t key) (fun '(t, s) => finishset t (VInt key) s value).

(** [reinsert], from node [j] of the old hash part on. *)
Fixpoint reinsert (ot : list Node) (t : Table) : outcome Table unit :=
  match ot with
  | [] => Ret t tt
  | old :: ot' =>
      if negb (isempty (n_val old)) then
        lift t (nodekey old) (fun k =>
          let@ (t, _) := set_with t k (n_val old) in reinsert ot' t)
      else reinsert ot' t
  end.

(** The vanishing slice of a shrinking array. *)
Fixpoint vanish (fuel : nat) (i oldasize : Z) (t : Table) : outcome Table unit :=
  if i <? oldasize then
    match fuel with
    | O => Stuck
    | S fuel' =>
        lift t (array_get (t_array t) i) (fun v =>
          if negb (isempty v) then
            let@ (t, _) := setint_with t (u32 (i + 1)) v in vanish fuel' (i + 1) oldasize t
          else vanish fuel' (i + 1) oldasize t)
    end
  else Ret t tt.
End Set_.

Definition exchangehashpart (t1 t2 : Table) : Table * Table :=
  (MkTable (t_real t1) (t_alimit t1) (t_array t1) (t_lsizenode t2) (t_node t2) (t_lastfree t2),
   MkTable (t_real t2) (t_alimit t2) (t_array t2) (t_lsizenode t1) (t_node t1) (t_lastfree t1)).

(** A table whose hash part is not set up yet. *)
Definition raw_table : Table := MkTable true 0 [] 0 [] None.

Section Alloc.
(** Whether a vector of so many nodes or values can be allocated. *)
Variable alloc_node alloc_array : Z -> bool.

(** [setnodevector] *)
Definition setnodevector (t : Table) (size : Z) : option (res Table) :=
  if size =? 0 then
    Some (Ok (MkTable (t_real t) (t_alimit t) (t_array t) 0 [dummynode] None))
  else
    lsize ← luaO_ceillog2 size;
    if (lsize >? MAXHBITS) || (Z.shiftl 1 lsize >? MAXHSIZE) then Some (Err "table overflow")
    else
      let size := Z.shiftl 1 lsize in
      if alloc_node size then
        Some (Ok (MkTable (t_real t) (t_alimit t) (t_array t) lsize
                    (replicate (Z.to_nat size) (MkNode VEmpty KNil 0)) (Some (Z.to_nat size))))
      else Some (Err "not enough memory").

Definition luaH_new : option (res Table) := setnodevector raw_table 0.

(** [luaM_reallocvector] of the array and the clearing of its new part. *)
Definition realloc_array (a : list TValue) (oldasize newasize : Z) : list TValue :=
  take (Z.to_nat (Z.min oldasize newasize)) a ++ replicate (Z.to_nat (newasize - oldasize)) VEmpty.

(** The shrinking half of [luaH_resize]: the elements beyond [newasize] go to the
    new hash part. *)
Definition move_vanishing (newkey : Table -> TValue -> TValue -> outcome Table unit)
    (t newt : Table) (newasize oldasize : Z) : outcome Table Table :=
  if newasize <? oldasize then
    let '(t, newt) := exchangehashpart (with_alimit t newasize) newt in
    let@ (t, _) := vanish newkey (length (t_array t)) newasize oldasize t in
    let '(t, newt) := exchangehashpart (with_alimit t oldasize) newt in
    Ret t newt
  else Ret t newt.

Definition luaH_resize (newkey : Table -> TValue -> TValue -> outcome Table unit)
    (t : Table) (newasize nhsize : Z) : outcome Table unit :=
  let t := setlimittosize t in
  let oldasize := t_alimit t in
  match setnodevector raw_table nhsize with
  | None => Stuck
  | Some (Err e) => Throw t e
  | Some (Ok newt) =>
      let@ (t, newt) := move_vanishing newkey t newt newasize oldasize in
      if (newasize >? 0) && negb (alloc_array newasize) then Throw t "not enough memory"
      else
        let '(t, newt) := exchangehashpart t newt in
        let t := with_alimit (with_array t (realloc_array (t_array t) oldasize newasize)) newasize in
        reinsert newkey (t_node newt) t
  end.

Definition luaH_resizearray (newkey : Table -> TValue -> TValue -> outcome Table unit)
    (t : Table) (nasize : Z) : outcome Table unit :=
  luaH_resize newkey t nasize (allocsizenode t).

(** The counting half of [rehash]: the new array size and the size asked of the
    hash part. *)
Definition rehash_sizes (t : Table) (ek : TValue) : option (Z * Z) :=
  '(nums, na) ← numusearray t (replicate 32 0);
  let totaluse := s32 na in
  '(nums, hashuse, hashints) ← numusehash t nums;
  let na := u32 (na + hashints) in
  if int_ok (totaluse + hashuse) then
    let totaluse := totaluse + hashuse in
    '(nums, c) ← (if ttisinteger ek then match ek with VInt k => countint k nums | _ => None end
                  else Some (nums, 0));
    let na := u32 (na + c) in
    if int_ok (totaluse + 1) then
      let totaluse := totaluse + 1 in
      '(asize, na) ← computesizes nums na;
      Some (asize, u32 (totaluse - na))
    else None
  else None.

Definition rehash (newkey : Table -> TValue -> TValue -> outcome Table unit)
    (t : Table) (ek : TValue) : outcome Table unit :=
  let t := setlimittosize t in
  lift t (rehash_sizes t ek) (fun '(asize, nhsize) => luaH_resize newkey t asize nhsize).

(** [luaH_newkey]; the fuel counts nested rehashes. *)
Fixpoint luaH_newkey (fuel : nat) (t : Table) (key value : TValue) : outcome Table unit :=
  match fuel with
  | O => Stuck
  | S fuel' =>
      match normkey key with
      | Err e => Throw t e
      | Ok key =>
          if ttisnil value then Ret t tt
          else
            lift t (mainposition (t_lsizenode t) key) (fun mp =>
            lift t (t_node t !! mp) (fun nmp =>
            if negb (isempty (n_val nmp)) || isdummy t then
              lift t (getfreepos t) (fun '(t, f) =>
              match f with
              | None =>
                  let@ (t, _) := rehash (luaH_newkey fuel') t key in
                  set_with (luaH_newkey fuel') t key value
              | Some f =>
                  lift t (make_room (t_lsizenode t) (t_node t) mp f) (fun '(ns, pos) =>
                  lift t (set_node ns pos key value) (fun ns => Ret (with_nodes t ns) tt))
              end)
            else lift t (set_node (t_node t) mp key value) (fun ns => Ret (with_nodes t ns) tt)))
      end
  end.

(** A rehash leaves room for the key that caused it, so one nested level is all
    there is. *)
Definition luaH_set (t : Table) (key value : TValue) : outcome Table unit :=
  set_with (luaH_newkey 2) t key value.
Definition luaH_setint (t : Table) (key : Z) (value : TValue) : outcome Table unit :=
  setint_with (luaH_newkey 2) t key value.
Definition luaH_finishset (t : Table) (key : TValue) (s : slot) (value : TValue) : outcome Table unit :=
  finishset (luaH_newkey 2) t key s value.
End Alloc.

(** ** The length operator *)

(** [isempty(&array[i])] *)
Definition array_empty (a : list TValue) (i : Z) : option bool :=
  v ← array_get a i; Some (isempty v).

(** [isempty(luaH_getint(t, k))]; the search may move [alimit]. *)
Definition getint_empty (t : Table) (k : Z) : option (Table * bool) :=
  '(t, s) ← luaH_getint t k; v ← slot_val t s; Some (t, isempty v).

(** The doubling loop of [hash_search]; [inr] is its early return. *)
Fixpoint hash_double (fuel : nat) (t : Table) (j : Z) : option (Table * (Z * Z + Z)) :=
  match fuel with
  | O => None
  | S fuel' =>
      let i := j in
      if j <=? LUA_MAXINTEGER / 2 then
        let j := j * 2 in
        '((t, e) : Table * bool) ← getint_empty t j;
        if e then Some (t, inl (i, j)) else hash_double fuel' t j
      else
        let j := LUA_MAXINTEGER in
        '((t, e) : Table * bool) ← getint_empty t j;
        if e then Some (t, inl (i, j)) else Some (t, inr j)
  end.

Fixpoint hash_binsearch (fuel : nat) (t : Table) (i j : Z) : option (Table * Z) :=
  if j - i >? 1 then
    match fuel with
    | O => None
    | S fuel' =>
        let m := u64 (i + j) / 2 in
        '((t, e) : Table * bool) ← getint_empty t m;
        if e then hash_binsearch fuel' t i m else hash_binsearch fuel' t m j
    end
  else Some (t, i).

(** [hash_search]; 64 rounds of each loop are enough for 63-bit keys. *)
Definition hash_search (t : Table) (j : Z) : option (Table * Z) :=
  let j := if j =? 0 then j + 1 else j in
  '(t, r) ← hash_double 64 t j;
  match r with
  | inr j => Some (t, j)
  | inl (i, j) => hash_binsearch 64 t i j
  end.

Fixpoint binsearch (fuel : nat) (a : list TValue) (i j : Z) : option Z :=
  if j - i >? 1 then
    match fuel with
    | O => None
    | S fuel' =>
        let m := u32 (i + j) / 2 in
        e ← array_empty a (m - 1);
        if (e : bool) then binsearch fuel' a i m else binsearch fuel' a m j
    end
  else Some i.

(** Part (3) of [luaH_getn]. *)
Definition getn_hash (t : Table) (limit : Z) : option (Table * Z) :=
  if isdummy t then Some (t, limit)
  else
    '((t, e) : Table * bool) ← getint_empty t (u32 (limit + 1));
    if e then Some (t, limit) else hash_search t limit.

Definition luaH_getn (t : Table) : option (Table * Z) :=
  let limit := t_alimit t in
  e1 ← (if limit >? 0 then array_empty (t_array t) (limit - 1) else Some false);
  if (e1 : bool) then
    e2 ← (if limit >=? 2 then e ← array_empty (t_array t) (limit - 2); Some (negb e) else Some false);
    if (e2 : bool) then
      if ispow2realasize t && negb (ispow2 (limit - 1))
      then Some (with_real (with_alimit t (limit - 1)) false, limit - 1)
      else Some (t, limit - 1)
    else
      boundary ← binsearch 33 (t_array t) 0 limit;
      if ispow2realasize t && (boundary >? luaH_realasize t / 2)
      then Some (with_real (with_alimit t boundary) false, boundary)
      else Some (t, boundary)
  else if negb (limitequalsasize t) then
    e ← array_empty (t_array t) limit;
    if (e : bool) then Some (t, limit)
    else
      let limit := luaH_realasize t in
      e ← array_empty (t_array t) (limit - 1);
      if (e : bool) then
        boundary ← binsearch 33 (t_array t) (t_alimit t) limit;
        Some (with_alimit t boundary, boundary)
      else getn_hash t limit
  else getn_hash t limit.
End LuaTable.
