(* ===== verification/TableInv.v ===== *)
(** * The invariant of Lua tables

    The abstract keys a table maps, the chains of the hash part, the invariant
    the functions of ltable.c maintain, the finite map a table represents, and
    the search functions shown to compute that map. *)

From Stdlib Require Import SpecFloat.
From S2P Require Import Prelude CFloat FloatFacts LuaValue LuaNumber LuaObject LuaTable.

Module TableInv.
Import CFloat FloatFacts LuaValue LuaNumber LuaObject LuaTable.
Open Scope list_scope.
Open Scope Z_scope.

(** ** Abstract keys *)

#[export] Instance double_eq_dec : EqDecision spec_float.
Proof. solve_decision. Defined.

(** Keys up to raw equality: integral floats are integers, long strings are their
    bytes, the other objects their address. *)
Inductive akey :=
  | AFalse | ATrue
  | AInt (i : Z)
  | AFlt (n : double)
  | AShr (addr : Z)
  | ALng (s : list Z)
  | ALud (p : Z)
  | ALcf (f : Z)
  | AGc (tag : gctag) (p : Z).

#[export] Instance akey_eq_dec : EqDecision akey.
Proof. solve_decision. Defined.

(** The abstract key of a value; nil and NaN have none. *)
Definition akey_of (v : TValue) : option akey :=
  match v with
  | VNil | VEmpty | VAbstKey => None
  | VFalse => Some AFalse
  | VTrue => Some ATrue
  | VInt i => Some (AInt i)
  | VFlt n =>
      match luaV_flttointeger n F2Ieq with
      | Some i => Some (AInt i)
      | None => if deq n n then Some (AFlt n) else None
      end
  | VShrStr ts => Some (AShr (ts_addr ts))
  | VLngStr ts => Some (ALng (ts_data ts))
  | VLightUD p => Some (ALud p)
  | VLCF f => Some (ALcf f)
  | VGC g p => Some (AGc g p)
  end.

Definition node_key (n : Node) : option akey :=
  match n_key n with KVal k => akey_of k | _ => None end.

Definition nkey_at (ns : list Node) (i : nat) : option akey := n ← ns !! i; node_key n.

(** A present value. *)
Definition present (v : TValue) : option TValue := if isempty v then None else Some v.

(** ** Chains *)

Section Chains.
Context (nx : nat -> option nat).

(** [path i l]: the chain from [i] on is [l], and ends. *)
Inductive path : nat -> list nat -> Prop :=
  | path_end i : nx i = None -> path i [i]
  | path_step i j l : nx i = Some j -> path j l -> path i (i :: l).

Definition reach : nat -> nat -> Prop := rtc (fun i j => nx i = Some j).

Lemma path_det i l l' : path i l -> path i l' -> l = l'.
Proof.
  intros P. revert l'. induction P; inversion 1; simplify_eq; try done. f_equal. eauto.
Qed.

Lemma path_suffix i l j : path i l -> j ∈ l -> exists l1 l2, l = l1 ++ l2 /\ path j l2.
Proof.
  induction 1 as [i E|i k l E P IH]; intros Hj.
  - apply list_elem_of_singleton in Hj as ->. exists [], [i]. split; [done|]. by constructor.
  - apply elem_of_cons in Hj as [->|Hj].
    + exists [], (i :: l). split; [done|]. by econstructor.
    + destruct (IH Hj) as (l1 & l2 & -> & P2). by exists (i :: l1), l2.
Qed.

Lemma path_NoDup i l : path i l -> NoDup l.
Proof.
  induction 1 as [i E|i j l E P IH]; [apply NoDup_singleton|].
  constructor; [|done]. intros Hi. destruct (path_suffix _ _ _ P Hi) as (l1 & l2 & -> & P2).
  assert (i :: l1 ++ l2 = l2) as H by (eapply path_det; [by econstructor|done]).
  apply (f_equal length) in H. rewrite length_cons, length_app in H. lia.
Qed.

Lemma path_reach i l j : path i l -> reach i j -> j ∈ l.
Proof.
  intros P R. revert l P. induction R as [i|i k j E R IH]; intros l P; inversion P; simplify_eq; set_solver.
Qed.

Lemma path_irrefl i l : path i l -> nx i <> Some i.
Proof. intros P E. pose proof (path_NoDup _ _ (path_step i i l E P)) as H. inversion H; subst.
  destruct P; set_solver.
Qed.
End Chains.

Arguments path_end {nx}. Arguments path_step {nx}.

(** A renaming of nodes that respects the links carries chains over. *)
Section Rename.
Context (nx nx' : nat -> option nat) (s : nat -> nat) (D : nat -> Prop).
Context (Hs : forall j, D j -> nx' (s j) = s <$> nx j).
Context (HD : forall j k, D j -> nx j = Some k -> D k).

Lemma path_map i l : D i -> path nx i l -> path nx' (s i) (s <$> l).
Proof using Hs HD.
  intros Di. induction 1 as [i E|i j l E P IH]; [constructor|econstructor; [|eauto]]; rewrite Hs, E by done; done.
Qed.

Lemma reach_map i j : D i -> reach nx i j -> reach nx' (s i) (s j).
Proof using Hs HD.
  intros Di. induction 1 as [i|i k j E R IH]; [apply rtc_refl|].
  eapply rtc_l; [|by apply IH; eauto]. rewrite Hs, E by done. done.
Qed.
End Rename.

Lemma path_ext (nx nx' : nat -> option nat) i l : (forall j, nx' j = nx j) -> path nx i l -> path nx' i l.
Proof. intros E. induction 1; [apply path_end|eapply path_step; [|done]]; by rewrite E. Qed.

Lemma reach_ext (nx nx' : nat -> option nat) i j : (forall j, nx' j = nx j) -> reach nx i j -> reach nx' i j.
Proof. intros E. induction 1; [apply rtc_refl|eapply rtc_l; [|done]]; by rewrite E. Qed.

(** ** The size of the array part *)

(** [s] is the real size of an array with this limit: the limit itself, or the
    power of two the limit is in the upper half of. *)
Definition asize_ok (real : bool) (alimit s : Z) : Prop :=
  0 <= s <= 2 ^ 29 /\
  if real then alimit = s else exists p, 0 <= p /\ s = 2 ^ p /\ alimit <= s < 2 * alimit.

Lemma testbit_top (x q : Z) : 0 <= q -> 2 ^ q <= x < 2 ^ (q + 1) -> Z.testbit x q = true.
Proof.
  intros Hq Hx. apply Z.testbit_true; [done|]. rewrite Z.pow_add_r in Hx by lia.
  replace (x / 2 ^ q) with 1; [done|]. pose proof (pow2_pos q Hq).
  apply (Z.div_unique x (2 ^ q) 1 (x - 2 ^ q)); lia.
Qed.

Lemma ispow2_pow (q : Z) : 0 <= q < 32 -> ispow2 (2 ^ q) = true.
Proof.
  intros Hq. pose proof (pow2_pos q). pose proof (Z.pow_le_mono_r 2 q 31).
  unfold ispow2. rewrite wrap_small by (unfold in_u; lia). apply Z.eqb_eq.
  rewrite Z.sub_1_r, <-Z.ones_equiv, Z.land_ones by lia. apply Z.mod_same. lia.
Qed.

Lemma ispow2_between (x q : Z) : 0 <= q < 32 -> 2 ^ q < x < 2 ^ (q + 1) -> ispow2 x = false.
Proof.
  intros Hq Hx. pose proof (Z.pow_le_mono_r 2 (q + 1) 32). pose proof (pow2_pos q).
  unfold ispow2. rewrite wrap_small by (unfold in_u; lia). apply Z.eqb_neq. intros E.
  apply (f_equal (fun z => Z.testbit z q)) in E.
  rewrite Z.land_spec, Z.bits_0, !testbit_top in E by lia. done.
Qed.

(** [x] has its highest one at [q], and [m] ones from there down. *)
Definition ones_from (q m x : Z) : Prop :=
  forall j, 0 <= j -> (q < j -> Z.testbit x j = false) /\ (q - m < j <= q -> Z.testbit x j = true).

Lemma ones_from_double (q m x : Z) :
  0 <= m -> ones_from q m x -> ones_from q (2 * m) (Z.lor x (Z.shiftr x m)).
Proof.
  intros Hm H j Hj. rewrite Z.lor_spec, Z.shiftr_spec by lia.
  destruct (H j Hj) as [Ha Hb]. destruct (H (j + m)) as [Ha' Hb']; [lia|]. split; intros.
  - rewrite Ha, Ha' by lia. done.
  - destruct (decide (q - m < j)); [by rewrite Hb by lia|]. rewrite Hb' by lia. apply orb_true_r.
Qed.

Lemma ones_from_all (q m x : Z) : 0 <= q < m -> ones_from q m x -> x = 2 ^ (q + 1) - 1.
Proof.
  intros Hq H. rewrite Z.sub_1_r, <-Z.ones_equiv. apply Z.bits_inj'. intros j Hj.
  destruct (H j Hj) as [Ha Hb]. destruct (decide (q < j)).
  - rewrite Ha, Z.ones_spec_high by lia. done.
  - rewrite Hb, Z.ones_spec_low by lia. done.
Qed.

Lemma ones_from_start (q x : Z) : 0 <= q -> 2 ^ q <= x < 2 ^ (q + 1) -> ones_from q 1 x.
Proof.
  intros Hq Hx j Hj. split; intros.
  - pose proof (pow2_pos q Hq). pose proof (Z.pow_le_mono_r 2 (q + 1) j).
    apply Z.bits_above_log2; [lia|]. apply Z.log2_lt_pow2; lia.
  - assert (j = q) as -> by lia. by apply testbit_top.
Qed.

(** The bit tricks of [luaH_realasize] find the next power of two. *)
Lemma realasize_ok (t : Table) (s : Z) :
  asize_ok (t_real t) (t_alimit t) s -> luaH_realasize t = s.
Proof.
  intros [Hs H]. unfold luaH_realasize, limitequalsasize. set (x := t_alimit t) in *. clearbody x.
  destruct (t_real t); [done|]. destruct H as (p & Hp & E & Hx). cbn [orb].
  assert (p < 30) as Hp' by (apply (Z.pow_lt_mono_r_iff 2); lia).
  destruct (decide (x = s)) as [->|Hne]; [subst s; by rewrite ispow2_pow by lia|].
  assert (1 <= p) as Hp1 by (destruct (decide (p = 0)); [subst; simpl in *; lia|lia]).
  assert (exists q, p = q + 1) as [q ->] by (exists (p - 1); lia).
  assert (s = 2 * 2 ^ q) as E' by (rewrite E, Z.pow_add_r; lia).
  rewrite (ispow2_between x q) by lia.
  assert (2 ^ q <= x < 2 ^ (q + 1)) as Hb by lia.
  pose proof (ones_from_start q x ltac:(lia) Hb) as H.
  do 5 apply ones_from_double in H; try lia.
  apply ones_from_all in H; [|lia].
  change (2 * 1) with 2 in H; change (2 * 2) with 4 in H; change (2 * 4) with 8 in H; change (2 * 8) with 16 in H.
  cbn zeta. rewrite H, Z.sub_add.
  rewrite wrap_small by (unfold in_u; lia). lia.
Qed.

(** The mask of [luaH_getint]: a number below 2^64 is below the power of two the
    limit is in the upper half of. *)
Lemma xmilia (k x p : Z) :
  0 <= k < 2 ^ 64 -> 0 <= p < 32 -> 2 ^ p < 2 * x -> x <= 2 ^ p ->
  (Z.land k (u64 (Z.lnot (u64 (x - 1)))) <? x) = (k <? 2 ^ p).
Proof.
  intros Hk Hp Hx1 Hx2. pose proof (pow2_pos p). pose proof (Z.pow_le_mono_r 2 p 31).
  assert (u64 (Z.lnot (u64 (x - 1))) = 2 ^ 64 - x) as ->.
  { rewrite (wrap_small 64 (x - 1)) by (unfold in_u; lia). unfold Z.lnot, wrap.
    symmetry. apply (Z.mod_unique _ _ (-1)); lia. }
  assert (Z.land k (2 ^ 64 - x) / 2 ^ p = k / 2 ^ p) as Hhi.
  { rewrite <-!Z.shiftr_div_pow2, Z.shiftr_land by lia.
    replace ((2 ^ 64 - x) ≫ p) with (Z.ones (64 - p)).
    - rewrite Z.land_ones by lia. apply Z.mod_small. rewrite Z.shiftr_div_pow2 by lia.
      split; [apply Z.div_pos; lia|]. apply Z.div_lt_upper_bound; [lia|].
      rewrite <-Z.pow_add_r by lia. replace (p + (64 - p)) with 64 by lia. lia.
    - rewrite Z.shiftr_div_pow2, Z.ones_equiv by lia.
      apply (Z.div_unique _ _ _ (2 ^ p - x)); [lia|].
      replace (2 ^ 64) with (2 ^ p * 2 ^ (64 - p)) by (rewrite <-Z.pow_add_r by lia; f_equal; lia). lia. }
  assert (0 <= Z.land k (2 ^ 64 - x)) as Hpos by (apply Z.land_nonneg; lia).
  destruct (Z.ltb_spec k (2 ^ p)) as [Hlt|Hge].
  - apply Z.ltb_lt. destruct (decide (p = 0)) as [->|].
    { rewrite (Z.div_small k) in Hhi by lia. simpl in *. rewrite Z.div_1_r in Hhi. lia. }
    assert (exists q, p = q + 1) as [q ->] by (exists (p - 1); lia).
    rewrite Z.pow_add_r in * by lia. change (2 ^ 1) with 2 in *. pose proof (pow2_pos q).
    assert (Z.land k (2 ^ 64 - x) / 2 ^ q = 0) as Hz; [|apply Z.div_small_iff in Hz; lia].
    rewrite <-!Z.shiftr_div_pow2, Z.shiftr_land, !Z.shiftr_div_pow2 by lia.
    replace ((2 ^ 64 - x) / 2 ^ q) with (Z.shiftl (2 ^ (63 - q) - 1) 1).
    + assert (0 <= k / 2 ^ q < 2) as Hkq
        by (split; [apply Z.div_pos; lia|apply Z.div_lt_upper_bound; lia]).
      assert (k / 2 ^ q = 0 \/ k / 2 ^ q = 1) as [-> | ->] by lia; [done|].
      rewrite Z.land_comm. rewrite (Z.land_ones _ 1), Z.shiftl_mul_pow2 by lia.
      apply Z.mod_mul. lia.
    + rewrite Z.shiftl_mul_pow2 by lia. apply (Z.div_unique _ _ _ (2 * 2 ^ q - x)); [lia|].
      replace (2 ^ 64) with (2 * 2 ^ q * 2 ^ (63 - q))
        by (rewrite <-Z.mul_assoc, <-Z.pow_add_r, <-Z.pow_succ_r by lia; f_equal; lia). lia.
  - apply Z.ltb_ge. assert (1 <= k / 2 ^ p) by (apply Z.div_le_lower_bound; lia).
    rewrite <-Hhi in *. pose proof (Z.mul_div_le (Z.land k (2 ^ 64 - x)) (2 ^ p)). nia.
Qed.

Section Keys.
(** The seed of string hashes, and the bytes of the string at an address. *)
Context (seed : Z) (strs : Z -> list Z).

(** Values as the rest of the interpreter builds them: machine integers and
    doubles, strings whose bytes are those at their address and whose hash, when
    computed, is the hash of these bytes. *)
Definition wf_key (v : TValue) : Prop :=
  match v with
  | VInt i => in_s 64 i
  | VFlt n => valid n
  | VShrStr ts => ts_data ts = strs (ts_addr ts) /\ ts_hash ts = luaS_hash (ts_data ts) seed
  | VLngStr ts =>
      ts_data ts = strs (ts_addr ts) /\ fst (luaS_hashlongstr ts) = luaS_hash (ts_data ts) seed
  | _ => True
  end.

(** The main position of an abstract key. *)
Definition amp (lsize : Z) (a : akey) : nat :=
  match a with
  | AFalse => hashpow2 lsize 0
  | ATrue => hashpow2 lsize 1
  | AInt i => hashint lsize i
  | AFlt n => hashmod lsize (l_hashfloat n)
  | AShr addr => hashpow2 lsize (luaS_hash (strs addr) seed)
  | ALng s => hashpow2 lsize (luaS_hash s seed)
  | ALud p | ALcf p | AGc _ p => hashpointer lsize p
  end.

Lemma flt_int_range (n : double) (i : Z) : valid n -> luaV_flttointeger n F2Ieq = Some i -> in_s 64 i.
Proof.
  intros V. destruct (finite n) eqn:E.
  - rewrite (flttointeger_finite n (units n) F2Ieq) by (by split_and!).
    unfold in_range. destruct (rounded _ _); [|done]. by case_bool_decide; [|done]; intros [= <-].
  - by rewrite flttointeger_special.
Qed.

Lemma deq_key (a b : double) :
  valid a -> valid b -> luaV_flttointeger a F2Ieq = None -> luaV_flttointeger b F2Ieq = None ->
  deq a a = true -> deq a b = bool_decide (a = b).
Proof.
  intros Va Vb Ia Ib Ra. case_bool_decide as E; [by subst|].
  destruct (deq a b) eqn:Hd; [|done]. apply deq_inv in Hd as [?|(Ua & _ & Fa & _)]; [done|].
  rewrite (flttointeger_finite a 0 F2Ieq) in Ia by done. vm_compute in Ia. done.
Qed.

(** What [luaH_newkey] does to a key. *)
Lemma normkey_ok (k : TValue) (a : akey) :
  wf_key k -> akey_of k = Some a ->
  exists k', normkey k = Ok k' /\ wf_key k' /\ akey_of k' = Some a /\ normkey k' = Ok k'.
Proof.
  unfold normkey. destruct k; cbn [akey_of ttisnil]; intros W E; try done; try (eexists; split_and!; eauto; done).
  destruct (luaV_flttointeger n F2Ieq) eqn:F.
  - eexists. split_and!; eauto. simpl. eapply flt_int_range; eauto.
  - destruct (deq n n) eqn:D; [|done]. exists (VFlt n). cbn. by rewrite F, D.
Qed.

Lemma normkey_err (k : TValue) : akey_of k = None -> exists e, normkey k = Err e.
Proof.
  unfold normkey. destruct k; cbn [akey_of ttisnil]; try done; eauto.
  destruct (luaV_flttointeger n F2Ieq); [done|]. destruct (deq n n); eauto; done.
Qed.

(** A key in the form in which it is stored. *)
Definition stored (k : TValue) (a : akey) : Prop :=
  wf_key k /\ akey_of k = Some a /\ normkey k = Ok k.

Lemma stored_flt (n : double) (a : akey) :
  stored (VFlt n) a ->
  valid n /\ luaV_flttointeger n F2Ieq = None /\ deq n n = true /\ a = AFlt n.
Proof.
  intros (W & E & N). unfold normkey in N. cbn in *.
  destruct (luaV_flttointeger n F2Ieq); [done|]. destruct (deq n n); [|done]. by simplify_eq.
Qed.

Lemma mainposition_stored (lsize : Z) (k : TValue) (a : akey) :
  stored k a -> mainposition lsize k = Some (amp lsize a).
Proof.
  intros S. destruct k; try (by destruct S as (_ & [= <-] & _)).
  - by apply stored_flt in S as (_ & _ & _ & ->).
  - destruct S as ([E H] & [= <-] & _). simpl. by rewrite H, E.
  - destruct S as ([E H] & [= <-] & _). simpl. by rewrite H.
Qed.

Lemma eqlngstr_data (x y : TString) :
  ts_data x = strs (ts_addr x) -> ts_data y = strs (ts_addr y) ->
  luaS_eqlngstr x y = bool_decide (ts_data x = ts_data y).
Proof.
  intros Hx Hy. unfold luaS_eqlngstr. case_bool_decide as E.
  - rewrite E, Z.eqb_refl. by rewrite orb_true_r.
  - rewrite andb_false_r, orb_false_r. apply Z.eqb_neq. intros A. apply E. by rewrite Hx, Hy, A.
Qed.

Lemma equalkey_stored (k : TValue) (a : akey) (n : Node) :
  stored k a -> (forall k', n_key n = KVal k' -> exists a', stored k' a') ->
  equalkey k n false = bool_decide (node_key n = Some a).
Proof.
  intros S Hn. unfold equalkey, node_key. destruct (n_key n) as [|p|k'] eqn:Hk.
  - case_bool_decide; [done|]. destruct k; try done. by destruct S as (_ & ? & _).
  - by case_bool_decide.
  - destruct (Hn k' eq_refl) as (a' & S'). rewrite (proj1 (proj2 S')).
    transitivity (bool_decide (a' = a)); [|apply bool_decide_ext; split; congruence].
    destruct k as [| | | | | |x|x|x| | |]; try (by destruct S as (_ & ? & _)); cycle 3;
      [apply stored_flt in S as (V & I & R & ->)|..];
      (destruct k' as [| | | | | |y|y|y| | |]; try (by destruct S' as (_ & ? & _)); cycle 3;
      [apply stored_flt in S' as (V' & I' & R' & ->)|..]).
    all: try (destruct S as (W & [= <-] & _)); try (destruct S' as (W' & [= <-] & _)); try done.
    all: try (rewrite deq_key by done); try (rewrite eqlngstr_data by apply W || apply W').
    all: repeat case_bool_decide; simplify_eq; cbn [andb]; try apply Z.eqb_neq; done || lia || congruence.
Qed.

(** ** The hash part *)

Definition link (ns : list Node) (i : nat) : option nat :=
  n ← ns !! i; if n_next n =? 0 then None else Some (Z.to_nat (Z.of_nat i + n_next n)).

(** Free and dead nodes hold no value; keys are stored in normal form. *)
Definition node_ok (n : Node) : Prop :=
  n_val n <> VAbstKey /\
  match n_key n with
  | KNil => n_next n = 0 /\ isempty (n_val n) = true
  | KDead _ => isempty (n_val n) = true
  | KVal k => exists a, stored k a
  end.

(** Node [m] is not free, and its key, when not dead, is at its main position. *)
Definition home (ns : list Node) (lsize : Z) (m : nat) : Prop :=
  exists n, ns !! m = Some n /\
    match n_key n with
    | KNil => False
    | KDead _ => True
    | KVal k => exists a, akey_of k = Some a /\ amp lsize a = m
    end.

Record hinv (lsize : Z) (ns : list Node) (lf : option nat) : Prop := MkHinv {
  hi_size : 0 <= lsize <= 30;
  hi_len : length ns = Z.to_nat (2 ^ lsize);
  hi_next i n : ns !! i = Some n -> n_next n <> 0 ->
    0 <= Z.of_nat i + n_next n /\
    exists n', ns !! Z.to_nat (Z.of_nat i + n_next n) = Some n' /\ n_key n' <> KNil;
  hi_nodes : Forall node_ok ns;
  hi_inj i j k : link ns i = Some k -> link ns j = Some k -> i = j;
  hi_path i : (i < length ns)%nat -> exists l, path (link ns) i l;
  hi_home i a : nkey_at ns i = Some a -> reach (link ns) (amp lsize a) i /\ home ns lsize (amp lsize a);
  hi_uniq i j a : nkey_at ns i = Some a -> nkey_at ns j = Some a -> i = j;
  hi_free : match lf with
            | Some lf => (lf <= length ns)%nat /\
                         forall i n, (lf <= i)%nat -> ns !! i = Some n -> n_key n <> KNil
            | None => ns = [dummynode]
            end }.

Section Nodes.
Context (lsize : Z) (ns : list Node) (lf : option nat) (H : hinv lsize ns lf).

Lemma hi_node i n : ns !! i = Some n -> node_ok n.
Proof using H. apply (Forall_lookup_1 _ _ _ _ (hi_nodes _ _ _ H)). Qed.

Lemma hi_nil i n : ns !! i = Some n -> n_key n = KNil -> n_next n = 0 /\ isempty (n_val n) = true.
Proof using H. intros E K. apply hi_node in E as [_ Hn]. by rewrite K in Hn. Qed.

Lemma hi_val i n : ns !! i = Some n -> n_val n <> VAbstKey.
Proof using H. intros E. by apply hi_node in E as [? _]. Qed.

Lemma hi_key i n k : ns !! i = Some n -> n_key n = KVal k -> exists a, stored k a.
Proof using H. intros E K. apply hi_node in E as [_ Hn]. by rewrite K in Hn. Qed.
End Nodes.

Lemma hashpow2_bound (lsize n : Z) : 0 <= lsize -> (hashpow2 lsize n < Z.to_nat (2 ^ lsize))%nat.
Proof.
  intros. unfold hashpow2. rewrite Z.shiftl_1_l.
  replace (2 ^ lsize - 1) with (Z.ones lsize) by (rewrite Z.ones_equiv; lia).
  rewrite Z.land_ones by lia. pose proof (pow2_pos lsize). pose proof (Z.mod_pos_bound n (2 ^ lsize)). lia.
Qed.

Lemma hashmod_bound (lsize n : Z) : 0 <= lsize -> (hashmod lsize n < Z.to_nat (2 ^ lsize))%nat.
Proof.
  intros. unfold hashmod. rewrite Z.shiftl_1_l.
  assert (0 < Z.lor (2 ^ lsize - 1) 1 <= 2 ^ lsize) as Hb.
  { destruct (decide (lsize = 0)) as [->|]; [done|].
    assert (2 ^ lsize = 2 * 2 ^ (lsize - 1)) as -> by (rewrite <-Z.pow_succ_r by lia; f_equal; lia).
    pose proof (pow2_pos (lsize - 1) ltac:(lia)).
    assert (Z.lor (2 * 2 ^ (lsize - 1) - 1) 1 = 2 * 2 ^ (lsize - 1) - 1) as ->; [|lia].
    set (m := 2 ^ (lsize - 1) - 1). replace (2 * 2 ^ (lsize - 1) - 1) with (m * 2 ^ 1 + 1) by lia.
    rewrite <-(lor_shift m 1 1) by lia. by rewrite <-Z.lor_assoc. }
  pose proof (Z.mod_pos_bound n (Z.lor (2 ^ lsize - 1) 1)). lia.
Qed.

Lemma amp_bound (lsize : Z) (a : akey) : 0 <= lsize -> (amp lsize a < Z.to_nat (2 ^ lsize))%nat.
Proof. destruct a; intros; (by apply hashpow2_bound) || (by apply hashmod_bound). Qed.

(** *** Searching a chain *)

Section Search.
Context (lsize : Z) (ns : list Node) (lf : option nat) (Hinv : hinv lsize ns lf).

Lemma link_some i j : link ns i = Some j ->
  exists n n', ns !! i = Some n /\ ns !! j = Some n' /\ n_key n' <> KNil /\ n_key n <> KNil /\
    n_next n <> 0 /\ node_step i (n_next n) = Some j.
Proof using Hinv.
  unfold link. destruct (ns !! i) as [n|] eqn:E; [|done]. cbn.
  destruct (Z.eqb_spec (n_next n) 0) as [|Hn]; [done|]. intros [= <-].
  destruct (hi_next _ _ _ Hinv _ _ E Hn) as (Hp & n' & E' & K').
  exists n, n'. split_and!; try done.
  - intros K. by destruct (hi_nil _ _ _ Hinv _ _ E K).
  - unfold node_step. by destruct (Z.ltb_spec (Z.of_nat i + n_next n) 0); [lia|].
Qed.

Lemma path_bound i l : (i < length ns)%nat -> path (link ns) i l -> (length l <= length ns)%nat.
Proof using Hinv.
  intros Hi P. rewrite <-(length_seq (length ns) 0). apply submseteq_length, NoDup_submseteq.
  { by eapply path_NoDup. }
  intros j Hj. apply elem_of_seq. split; [lia|]. revert Hi j Hj.
  induction P as [i E|i k l E P IH]; [by intros ? j ->%list_elem_of_singleton|]. intros Hi j [->|Hj]%elem_of_cons; [done|].
  apply IH; [|done]. apply link_some in E as (? & ? & _ & E & _). by apply lookup_lt_Some in E.
Qed.

Lemma search_path (p : Node -> bool) fuel i l :
  (i < length ns)%nat -> path (link ns) i l -> (length l <= fuel)%nat ->
  exists r, chain_search fuel ns p i = Some r /\
    match r with
    | Some j => exists n, ns !! j = Some n /\ p n = true
    | None => forall j n, j ∈ l -> ns !! j = Some n -> p n = false
    end.
Proof using Hinv.
  intros Hi P. revert fuel Hi. induction P as [i E|i k l E P IH]; intros [|fuel] Hi Hl; cbn in Hl; try lia.
  - unfold link in E. destruct (lookup_lt_is_Some_2 _ _ Hi) as (n & En). cbn. rewrite En in *. cbn in *.
    destruct (p n) eqn:Ep; [by exists (Some i); eauto|]. destruct (Z.eqb_spec (n_next n) 0); [|done].
    eexists. split; [done|]. intros j n' ->%list_elem_of_singleton ?. congruence.
  - apply link_some in E as (n & n' & En & En' & _ & _ & Hn & Hstep). cbn. rewrite En. cbn.
    destruct (p n) eqn:Ep; [by exists (Some i); eauto|]. destruct (Z.eqb_spec (n_next n) 0); [done|]. rewrite Hstep. cbn.
    destruct (IH fuel) as (r & -> & Hr); [by apply lookup_lt_Some in En'|lia|].
    eexists. split; [done|]. destruct r; [done|]. intros j m [->|Hj]%elem_of_cons Em; [congruence|eauto].
Qed.

(** A search for key [a] from its main position finds the node that holds it. *)
Lemma search_key (a : akey) (p : Node -> bool) :
  (forall i n, ns !! i = Some n -> p n = bool_decide (node_key n = Some a)) ->
  exists r, chain_search (length ns) ns p (amp lsize a) = Some r /\
    match r with
    | Some i => nkey_at ns i = Some a
    | None => forall i, nkey_at ns i <> Some a
    end.
Proof using Hinv.
  intros Hp. pose proof (hi_size _ _ _ Hinv) as Hs. pose proof (hi_len _ _ _ Hinv) as Hl.
  assert (amp lsize a < length ns)%nat as Hb by (rewrite Hl; apply amp_bound; lia).
  destruct (hi_path _ _ _ Hinv _ Hb) as (l & P).
  destruct (search_path p _ _ _ Hb P (path_bound _ _ Hb P)) as (r & -> & Hr).
  eexists. split; [done|]. destruct r as [i|].
  - destruct Hr as (n & En & Ep). unfold nkey_at. rewrite En. cbn.
    rewrite (Hp _ _ En) in Ep. by apply bool_decide_eq_true in Ep.
  - intros i Hi. destruct (hi_home _ _ _ Hinv _ _ Hi) as (R & _).
    apply (path_reach _ _ _ _ P) in R. unfold nkey_at in Hi. destruct (ns !! i) as [n|] eqn:En; [|done].
    specialize (Hr _ _ R En). rewrite (Hp _ _ En) in Hr. by apply bool_decide_eq_false in Hr.
Qed.
End Search.
(** ** Tables *)

(** The key lies in an array part of size [s]. *)
Definition in_array (s : Z) (a : akey) : bool :=
  match a with AInt i => (1 <=? i) && (i <=? s) | _ => false end.

Definition abs_hash (ns : list Node) (a : akey) : option TValue :=
  '(_, n) ← list_find (fun n => node_key n = Some a) ns; present (n_val n).

Definition abs_array (l : list TValue) (a : akey) : option TValue :=
  match a with AInt i => v ← array_get l (i - 1); present v | _ => None end.

(** The map a table with an array part of size [s] represents. *)
Definition abs (s : Z) (t : Table) (a : akey) : option TValue :=
  if in_array s a then abs_array (t_array t) a else abs_hash (t_node t) a.

(** The invariant of a table with an array part of size [s]; while [luaH_resize]
    shrinks the array, the vector is longer than that. *)
Record tinv (s : Z) (t : Table) : Prop := MkTinv {
  ti_hash : hinv (t_lsizenode t) (t_node t) (t_lastfree t);
  ti_asize : asize_ok (t_real t) (t_alimit t) s;
  ti_len : s <= zlen (t_array t);
  ti_aval i v : t_array t !! i = Some v -> v <> VAbstKey;
  ti_sep i a : nkey_at (t_node t) i = Some a -> in_array s a = false }.

Lemma abs_hash_at lsize ns lf i n a :
  hinv lsize ns lf -> ns !! i = Some n -> node_key n = Some a -> abs_hash ns a = present (n_val n).
Proof.
  intros H En Ea. unfold abs_hash. destruct (list_find _ ns) as [[j m]|] eqn:E.
  - apply list_find_Some in E as (Em & Ka & _). cbn.
    assert (i = j) as ->; [|by simplify_eq].
    eapply (hi_uniq _ _ _ H _ _ a); unfold nkey_at; [by rewrite En|by rewrite Em].
  - apply list_find_None in E. rewrite Forall_lookup in E. by destruct (E _ _ En).
Qed.

Lemma abs_hash_none ns a : (forall i, nkey_at ns i <> Some a) -> abs_hash ns a = None.
Proof.
  intros H. unfold abs_hash. destruct (list_find _ ns) as [[j m]|] eqn:E; [|done].
  apply list_find_Some in E as (Em & Ka & _). destruct (H j). unfold nkey_at. by rewrite Em.
Qed.

(** Where a search for [a] must end. *)
Definition slot_for (s : Z) (t : Table) (a : akey) (sl : slot) : Prop :=
  match sl with
  | SArray i => a = AInt (i + 1) /\ 0 <= i < s
  | SNode i => in_array s a = false /\ nkey_at (t_node t) i = Some a
  | SAbsent => in_array s a = false /\ forall i, nkey_at (t_node t) i <> Some a
  end.

Lemma slot_for_val s t a sl :
  tinv s t -> slot_for s t a sl ->
  exists v, slot_val t sl = Some v /\ present v = abs s t a /\ (v = VAbstKey <-> sl = SAbsent).
Proof.
  intros [Hh Ha Hl Hv Hs] S. unfold abs. destruct sl as [i|i|]; cbn in S.
  - destruct S as [-> Hi]. unfold slot_val, abs_array, array_get. cbn [in_array].
    rewrite (proj2 (Z.leb_le 1 (i + 1))), (proj2 (Z.leb_le (i + 1) s)) by lia. cbn [andb].
    replace (i + 1 - 1) with i by lia. rewrite (proj2 (Z.ltb_ge i 0)) by lia.
    destruct (lookup_lt_is_Some_2 (t_array t) (Z.to_nat i)) as [v Ev]; [lia|].
    rewrite Ev. exists v. split_and!; try done. split; [|done]. intros ->. by destruct (Hv _ _ Ev).
  - destruct S as [-> S]. unfold nkey_at in S. cbn. destruct (t_node t !! i) as [n|] eqn:En; [|done].
    exists (n_val n). split_and!; [done| |].
    + symmetry. by eapply abs_hash_at.
    + split; [|done]. intros E. by destruct (hi_val _ _ _ Hh _ _ En).
  - destruct S as [-> S]. exists VAbstKey. split_and!; try done. by rewrite abs_hash_none.
Qed.

Lemma in_array_int s i : in_array s (AInt i) = true <-> 1 <= i <= s.
Proof. unfold in_array. rewrite andb_true_iff, !Z.leb_le. done. Qed.

(** The tables a search may return. *)
Definition same_but_limit (s : Z) (t t' : Table) : Prop :=
  exists x, t' = with_alimit t x /\ asize_ok (t_real t) x s.

Lemma same_but_limit_refl s t : tinv s t -> same_but_limit s t t.
Proof. intros H. exists (t_alimit t). split; [by destruct t|]. apply H. Qed.

Lemma same_but_limit_inv s t t' :
  same_but_limit s t t' -> tinv s t -> tinv s t' /\ forall a, abs s t' a = abs s t a.
Proof. intros (x & -> & Hx) []. split; [|done]. by constructor. Qed.

Lemma node_slot_ok s t a r :
  in_array s a = false ->
  match r with
  | Some i => nkey_at (t_node t) i = Some a
  | None => forall i, nkey_at (t_node t) i <> Some a
  end -> slot_for s t a (node_slot r).
Proof. intros. by destruct r. Qed.

Lemma key_is_int_ok (key : Z) (n : Node) :
  (forall k, n_key n = KVal k -> exists a, stored k a) ->
  key_is_int key n = bool_decide (node_key n = Some (AInt key)).
Proof.
  intros H. unfold key_is_int, node_key. destruct (n_key n) as [| |k] eqn:Ek; try (by case_bool_decide).
  destruct (H k eq_refl) as (a & Hst). destruct k; try (by case_bool_decide).
  - cbn. case_bool_decide; simplify_eq; lia || (apply Z.eqb_neq; congruence).
  - destruct (stored_flt _ _ Hst) as (_ & I & D & _). cbn. rewrite I, D. by case_bool_decide.
Qed.

Lemma key_is_shrstr_ok (key : TString) (n : Node) :
  (forall k, n_key n = KVal k -> exists a, stored k a) ->
  key_is_shrstr key n = bool_decide (node_key n = Some (AShr (ts_addr key))).
Proof.
  intros H. unfold key_is_shrstr, node_key. destruct (n_key n) as [| |k] eqn:Ek; try (by case_bool_decide).
  destruct (H k eq_refl) as (a & Hst). destruct k; try (by case_bool_decide).
  - destruct (stored_flt _ _ Hst) as (_ & I & D & _). cbn. rewrite I, D. by case_bool_decide.
  - cbn. unfold eqshrstr. case_bool_decide; simplify_eq; lia || (apply Z.eqb_neq; congruence).
Qed.

(** 'key' in [1, x]? *)
Lemma index_test (key x : Z) :
  in_s 64 key -> 0 <= x <= 2 ^ 32 -> (u64 (u64 key - 1) <? x) = (1 <=? key) && (key <=? x).
Proof.
  intros Hk Hx. unfold in_s in *. change (2 ^ (64 - 1)) with (2 ^ 63) in Hk. rewrite wrap_sub_l. unfold wrap.
  destruct (decide (1 <= key)); [rewrite Z.mod_small by lia; lia|].
  rewrite <-(Z.mod_unique (key - 1) (2 ^ 64) (-1) (key - 1 + 2 ^ 64)); lia.
Qed.

Lemma asize_limit real alimit s : asize_ok real alimit s -> 0 <= alimit <= s.
Proof. intros [Hs H]. destruct real; [lia|]. destruct H as (p & Hp & -> & Hx). lia. Qed.

Lemma limit_test real alimit s key :
  asize_ok real alimit s -> in_s 64 key -> negb real = true ->
  (Z.land (u64 (u64 key - 1)) (u64 (Z.lnot (u64 (alimit - 1)))) <? alimit) = (1 <=? key) && (key <=? s).
Proof.
  intros [Hs H] Hk Er. destruct real; [done|]. destruct H as (p & Hp & -> & Hx).
  assert (p < 32) by (apply (Z.pow_lt_mono_r_iff 2); lia).
  rewrite (xmilia _ _ p); [apply index_test; [done|lia]| |lia..].
  apply (wrap_range 64). lia.
Qed.

Lemma getint_ok s t key :
  tinv s t -> in_s 64 key ->
  exists t' sl, luaH_getint t key = Some (t', sl) /\ same_but_limit s t t' /\ slot_for s t' (AInt key) sl.
Proof.
  intros Ht Hk. pose proof (same_but_limit_refl _ _ Ht) as Hsame. destruct Ht as [Hh Ha Hl Hv Hsep].
  pose proof (asize_limit _ _ _ Ha) as Hlim. pose proof (proj1 Ha) as Hs.
  unfold luaH_getint. rewrite index_test by (done || lia).
  destruct ((1 <=? key) && (key <=? t_alimit t)) eqn:E1.
  { eexists _, _. split_and!; [done|done|]. simpl. split; [f_equal|]; lia. }
  set (c := negb (t_real t) && _). destruct c eqn:Ec; subst c.
  - apply andb_prop in Ec as [Er Ec]. rewrite (limit_test _ _ s) in Ec by done.
    eexists _, _. split_and!; [done| |simpl; split; [f_equal|]; lia].
    exists key. rewrite (wrap_small 32) by (unfold in_u; lia). split; [done|]. split; [done|].
    destruct (t_real t); [done|]. destruct Ha as (_ & p & Hp & ? & ?). exists p. split_and!; lia.
  - destruct (search_key _ _ _ Hh (AInt key) (key_is_int key)) as (r & Er & Hr).
    { intros i n En. apply key_is_int_ok. intros k. by eapply hi_key. }
    cbn [amp] in Er. rewrite Er. eexists _, _. split_and!; [done|done|]. apply node_slot_ok; [|done].
    unfold in_array. destruct (negb (t_real t)) eqn:Er'; cbn [andb] in Ec.
    + by rewrite (limit_test _ _ s) in Ec by done.
    + destruct (t_real t); [|done]. by rewrite (proj2 Ha) in E1.
Qed.

Lemma getgeneric_ok s t k a :
  tinv s t -> stored k a -> in_array s a = false ->
  exists sl, getgeneric t k false = Some sl /\ slot_for s t a sl.
Proof.
  intros Ht Hst Hin. unfold getgeneric. rewrite (mainposition_stored _ _ _ Hst). cbn.
  destruct (search_key _ _ _ (ti_hash _ _ Ht) a (fun n => equalkey k n false)) as (r & -> & Hr).
  { intros i n En. apply equalkey_stored; [done|]. intros k'. eapply hi_key; [apply Ht|done]. }
  eexists. split; [done|]. by apply node_slot_ok.
Qed.

Lemma getshortstr_ok s t ts :
  tinv s t -> wf_key (VShrStr ts) ->
  exists sl, luaH_getshortstr t ts = Some sl /\ slot_for s t (AShr (ts_addr ts)) sl.
Proof.
  intros Ht [Ed Eh]. unfold luaH_getshortstr.
  destruct (search_key _ _ _ (ti_hash _ _ Ht) (AShr (ts_addr ts)) (key_is_shrstr ts)) as (r & Er & Hr).
  { intros i n En. apply key_is_shrstr_ok. intros k'. eapply hi_key; [apply Ht|done]. }
  cbn [amp] in Er. rewrite Eh, Ed, Er. eexists. split; [done|]. by apply node_slot_ok.
Qed.

(** The main search: a key that can index a table is found where it must be. *)
Lemma get_ok s t k a :
  tinv s t -> wf_key k -> akey_of k = Some a ->
  exists t' sl, luaH_get t k = Some (t', sl) /\ same_but_limit s t t' /\ slot_for s t' a sl.
Proof.
  intros Ht Hw Hk. pose proof (same_but_limit_refl _ _ Ht) as Hsame.
  assert (Hgen : (forall i, a <> AInt i) -> normkey k = Ok k ->
    exists t' sl, (s0 ← getgeneric t k false; Some (t, s0)) = Some (t', sl) /\
      same_but_limit s t t' /\ slot_for s t' a sl).
  { intros Hi Hn. destruct (getgeneric_ok s t k a Ht) as (sl & -> & Hsl).
    - done.
    - destruct a; try done. by destruct (Hi i).
    - by exists t, sl. }
  destruct k; cbn in Hk; simplify_eq; cbn [luaH_get]; try (by apply Hgen).
  - by apply getint_ok.
  - destruct (luaV_flttointeger n F2Ieq) as [i|] eqn:E; simplify_eq.
    + apply getint_ok; [done|]. by eapply flt_int_range.
    + destruct (deq n n) eqn:D; [|done]. simplify_eq. apply Hgen; [done|].
      unfold normkey. cbn. by rewrite E, D.
  - destruct (getshortstr_ok s t ts Ht Hw) as (sl & -> & Hsl). by exists t, sl.
Qed.

(** A key that cannot index a table is absent from it. *)
Lemma get_none s t k :
  tinv s t -> wf_key k -> akey_of k = None -> k <> VEmpty -> k <> VAbstKey -> luaH_get t k = Some (t, SAbsent).
Proof.
  intros Ht Hw Hk He Ha. destruct k as [| | | | | |n| | | | |]; try done. cbn in Hk. cbn [luaH_get].
  destruct (luaV_flttointeger n F2Ieq) eqn:E; [done|]. destruct (deq n n) eqn:D; [done|].
  unfold getgeneric. cbn [mainposition mbind option_bind].
  pose proof (ti_hash _ _ Ht) as Hh. pose proof (hi_size _ _ _ Hh). pose proof (hi_len _ _ _ Hh) as Hlen.
  assert (hashmod (t_lsizenode t) (l_hashfloat n) < length (t_node t))%nat as Hb
    by (rewrite Hlen; apply hashmod_bound; lia).
  destruct (hi_path _ _ _ Hh _ Hb) as (l & P).
  destruct (search_path _ _ _ Hh (fun m => equalkey (VFlt n) m false) _ _ _ Hb P (path_bound _ _ _ Hh _ _ Hb P))
    as (r & -> & Hr).
  destruct r as [i|]; [|done]. destruct Hr as (m & _ & Em). exfalso. revert Em. unfold equalkey.
  destruct (n_key m) as [| |k]; try done. destruct k; try done.
  intros Hd. destruct (deq_inv _ _ Hd) as [->|(U & _ & F & _)]; [congruence|].
  rewrite (flttointeger_finite n 0 F2Ieq) in E by done. vm_compute in E. done.
Qed.
End Keys.
End TableInv.
