(* ===== verification/TableInsert.v ===== *)
(** * Insertion into the hash part

    [luaH_newkey] when the hash part has room: the three ways a new key finds its
    node (its free main position; a free node behind its main position; its main
    position after the displaced key there has moved to a free node) keep the
    invariant and add the key to the map. *)

From S2P Require Import Prelude CFloat LuaValue LuaNumber LuaObject LuaTable TableInv.

Module TableInsert.
Import CFloat LuaValue LuaNumber LuaObject LuaTable TableInv.
Open Scope list_scope.
Open Scope Z_scope.

Section Insert.
Context (seed : Z) (strs : Z -> list Z).
Abbreviation hinv := (TableInv.hinv seed strs).
Abbreviation tinv := (TableInv.tinv seed strs).
Abbreviation stored := (TableInv.stored seed strs).
Abbreviation amp := (TableInv.amp seed strs).
Abbreviation node_ok := (TableInv.node_ok seed strs).

(** ** Views of a node vector *)

Lemma nkey_lookup ns i n : ns !! i = Some n -> nkey_at ns i = node_key n.
Proof. intros E. unfold nkey_at. by rewrite E. Qed.

Lemma link_lookup ns i n :
  ns !! i = Some n ->
  link ns i = if n_next n =? 0 then None else Some (Z.to_nat (Z.of_nat i + n_next n)).
Proof. intros E. unfold link. by rewrite E. Qed.

Lemma nkey_insert ns i j n :
  (i < length ns)%nat -> nkey_at (<[i := n]> ns) j = if decide (j = i) then node_key n else nkey_at ns j.
Proof.
  intros Hi. unfold nkey_at. case_decide as E.
  - subst. by rewrite list_lookup_insert_eq.
  - by rewrite list_lookup_insert_ne.
Qed.

Definition next_of (i : nat) (n : Node) : option nat :=
  if n_next n =? 0 then None else Some (Z.to_nat (Z.of_nat i + n_next n)).

Lemma link_insert ns i j n :
  (i < length ns)%nat -> link (<[i := n]> ns) j = if decide (j = i) then next_of i n else link ns j.
Proof.
  intros Hi. unfold link, next_of. case_decide as E.
  - subst. by rewrite list_lookup_insert_eq.
  - by rewrite list_lookup_insert_ne.
Qed.

(** Offsets and links. *)
Lemma next_of_offset (i j : nat) v k : i <> j -> next_of i (MkNode v k (Z.of_nat j - Z.of_nat i)) = Some j.
Proof.
  intros. unfold next_of. cbn. rewrite (proj2 (Z.eqb_neq _ 0)) by lia. f_equal. lia.
Qed.

(** A node vector with the keys of another at most filled in. *)
Definition grows (ns ns' : list Node) : Prop :=
  forall i n, ns !! i = Some n -> n_key n <> KNil -> exists n', ns' !! i = Some n' /\ n_key n' <> KNil.

Lemma grows_insert ns i n : n_key n <> KNil -> grows ns (<[i := n]> ns).
Proof.
  intros Hn j m E K. destruct (decide (i = j)) as [->|].
  - exists n. rewrite list_lookup_insert_eq; [done|]. by apply lookup_lt_Some in E.
  - exists m. by rewrite list_lookup_insert_ne.
Qed.

Lemma grows_same ns i n m : ns !! i = Some m -> n_key n = n_key m -> grows ns (<[i := n]> ns).
Proof.
  intros Em Hk j m' E K. destruct (decide (i = j)) as [->|].
  - exists n. rewrite list_lookup_insert_eq by (by apply lookup_lt_Some in E). split; [done|]. congruence.
  - exists m'. by rewrite list_lookup_insert_ne.
Qed.

Lemma grows_trans a b c : grows a b -> grows b c -> grows a c.
Proof. intros H1 H2 i n E K. destruct (H1 i n E K) as (n' & E' & K'). eauto. Qed.

(** ** Counting used nodes *)

Definition used (ns : list Node) : nat :=
  length (List.filter (fun n => match n_key n with KNil => false | _ => true end) ns).

Lemma used_app a b : used (a ++ b) = (used a + used b)%nat.
Proof. unfold used. by rewrite List.filter_app, length_app. Qed.

Lemma used_insert ns i n m :
  ns !! i = Some m -> (n_key m <> KNil \/ n_key n = KNil -> (used (<[i := n]> ns) <= used ns)%nat) /\
  (used (<[i := n]> ns) <= S (used ns))%nat.
Proof.
  intros E. assert (i < length ns)%nat as Hi by (by apply lookup_lt_Some in E).
  rewrite insert_take_drop by done. 
  assert (used ns = used (take i ns ++ m :: drop (S i) ns)) as -> by (by rewrite take_drop_middle).
  rewrite !used_app. unfold used. cbn [List.filter].
  destruct (n_key n), (n_key m); cbn [length]; (split; [intros [?|?]|]); done || lia.
Qed.

Lemma used_keep ns i n m : ns !! i = Some m -> n_key m <> KNil -> (used (<[i := n]> ns) <= used ns)%nat.
Proof. intros E K. apply (used_insert _ _ _ _ E). by left. Qed.

Lemma used_add ns i n m : ns !! i = Some m -> (used (<[i := n]> ns) <= S (used ns))%nat.
Proof. intros E. apply (used_insert _ _ _ _ E). Qed.

Lemma used_free ns : (used ns < length ns)%nat -> exists i n, ns !! i = Some n /\ n_key n = KNil.
Proof.
  unfold used. induction ns as [|n ns IH]; cbn [length List.filter]; [lia|].
  destruct (n_key n) eqn:K; [by exists 0%nat, n|..]; cbn [length]; intros H;
    (destruct IH as (i & m & ? & ?); [lia|]; by exists (S i), m).
Qed.

Lemma used_fresh n : used (replicate n (MkNode VEmpty KNil 0)) = 0%nat.
Proof. induction n; done. Qed.

(** ** The free pointer *)

Lemma freepos_ok ns lf :
  (lf <= length ns)%nat -> (forall i n, (lf <= i)%nat -> ns !! i = Some n -> n_key n <> KNil) ->
  exists lf' r, freepos_loop ns lf = Some (lf', r) /\
    match r with
    | Some f => lf' = f /\ (exists n, ns !! f = Some n /\ n_key n = KNil) /\
                forall i n, (f < i)%nat -> ns !! i = Some n -> n_key n <> KNil
    | None => lf' = 0%nat /\ forall i n, ns !! i = Some n -> n_key n <> KNil
    end.
Proof.
  induction lf as [|lf IH]; intros Hl Hf; cbn [freepos_loop].
  { eexists _, None. split_and!; try done. intros i n. apply Hf. lia. }
  destruct (lookup_lt_is_Some_2 ns lf) as (n & En); [lia|]. rewrite En. cbn.
  assert (n_key n <> KNil -> forall i m, (lf <= i)%nat -> ns !! i = Some m -> n_key m <> KNil) as Hf'.
  { intros Kn i m Hi Em. destruct (decide (i = lf)) as [->|]; [congruence|]. eapply Hf; [|done]. lia. }
  destruct (n_key n) eqn:K; [|exact (IH ltac:(lia) (Hf' ltac:(done)))..].
  exists lf, (Some lf). split; [done|]. split; [done|]. split; [by exists n|]. intros i m Hi. apply Hf. lia.
Qed.

(** ** The map after an insertion *)

Lemma key_cases ns b :
  (exists i n, ns !! i = Some n /\ node_key n = Some b) \/ (forall i, nkey_at ns i <> Some b).
Proof.
  destruct (list_find (fun n => node_key n = Some b) ns) as [[i n]|] eqn:E.
  - apply list_find_Some in E as (? & ? & _). left. eauto.
  - apply list_find_None in E. rewrite Forall_lookup in E. right. intros i. unfold nkey_at.
    destruct (ns !! i) as [n|] eqn:En; [|done]. by apply (E i).
Qed.

Definition holds_at (ns : list Node) (b : akey) (v : TValue) : Prop :=
  exists i n, ns !! i = Some n /\ node_key n = Some b /\ n_val n = v.

Lemma abs_hash_update lsize lsize' ns ns' lf lf' a v :
  hinv lsize ns lf -> hinv lsize' ns' lf' -> holds_at ns' a v ->
  (forall b w, b <> a -> isempty w = false -> holds_at ns b w -> holds_at ns' b w) ->
  (forall b w, b <> a -> holds_at ns' b w -> holds_at ns b w) ->
  forall b, abs_hash ns' b = if decide (b = a) then present v else abs_hash ns b.
Proof.
  intros H H' (i & n & En & Ka & <-) Hto Hfrom b. case_decide as Eb.
  { subst. by eapply abs_hash_at. }
  destruct (key_cases ns' b) as [(j & m & Em & Kb)|Hno].
  - destruct (Hfrom b (n_val m)) as (j' & m' & Em' & Kb' & Ev); [done|by exists j, m|].
    rewrite (abs_hash_at _ _ _ _ _ _ _ _ H' Em Kb), (abs_hash_at _ _ _ _ _ _ _ _ H Em' Kb'). by rewrite Ev.
  - rewrite abs_hash_none by done. destruct (key_cases ns b) as [(j & m & Em & Kb)|Hno']; [|by rewrite abs_hash_none].
    rewrite (abs_hash_at _ _ _ _ _ _ _ _ H Em Kb). unfold present. destruct (isempty (n_val m)) eqn:Ev; [done|].
    destruct (Hto b (n_val m)) as (j' & m' & Em' & Kb' & _); [done|done|by exists j, m|].
    destruct (Hno j'). by rewrite (nkey_lookup _ _ _ Em').
Qed.

(** What an insertion of [a] with value [v] promises. *)
Record inserted (lsize : Z) (ns ns' : list Node) (lf' : nat) (a : akey) (v : TValue) : Prop := MkInserted {
  ins_inv : hinv lsize ns' (Some lf');
  ins_abs b : abs_hash ns' b = if decide (b = a) then present v else abs_hash ns b;
  ins_keys i b : nkey_at ns' i = Some b -> b = a \/ exists j, nkey_at ns j = Some b;
  ins_used : (used ns' <= S (used ns))%nat }.

(** ** A value for a key that is there *)

Lemma holds_at_insert ns i n b v :
  (i < length ns)%nat ->
  (holds_at (<[i := n]> ns) b v <->
   (node_key n = Some b /\ n_val n = v) \/
   exists j m, j <> i /\ ns !! j = Some m /\ node_key m = Some b /\ n_val m = v).
Proof.
  intros Hi. split.
  - intros (j & m & E & K & V). destruct (decide (j = i)) as [->|].
    + rewrite list_lookup_insert_eq in E by done. simplify_eq. by left.
    + rewrite list_lookup_insert_ne in E by done. right. eauto 10.
  - intros [[K V]|(j & m & Hj & E & K & V)].
    + exists i, n. by rewrite list_lookup_insert_eq.
    + exists j, m. by rewrite list_lookup_insert_ne.
Qed.

(** Changes of one node that keep the links. *)
Lemma home_key ns lsize m n a :
  ns !! m = Some n -> node_key n = Some a -> amp lsize a = m -> home seed strs ns lsize m.
Proof.
  intros E K A. exists n. split; [done|]. unfold node_key in K. destruct (n_key n); try done. eauto.
Qed.

Lemma home_ne ns lsize i n m : m <> i -> home seed strs ns lsize m -> home seed strs (<[i := n]> ns) lsize m.
Proof. intros Hm (n' & E & H). exists n'. by rewrite list_lookup_insert_ne. Qed.

Lemma next_ok_insert lsize ns lf i n m :
  hinv lsize ns lf -> ns !! i = Some m -> n_key n <> KNil -> n_next n = n_next m ->
  forall j n', <[i := n]> ns !! j = Some n' -> n_next n' <> 0 ->
    0 <= Z.of_nat j + n_next n' /\
    exists n'', <[i := n]> ns !! Z.to_nat (Z.of_nat j + n_next n') = Some n'' /\ n_key n'' <> KNil.
Proof.
  intros H Em Hk Hnx j n' E' Hn'.
  assert (exists m', ns !! j = Some m' /\ n_next m' = n_next n') as (m' & Em' & Ex).
  { destruct (decide (i = j)) as [->|].
    - rewrite list_lookup_insert_eq in E' by (by apply lookup_lt_Some in Em). simplify_eq. eauto.
    - rewrite list_lookup_insert_ne in E' by done. eauto. }
  rewrite <-Ex in *. destruct (hi_next _ _ _ _ _ H _ _ Em' Hn') as (Hp & n'' & E'' & K'').
  split; [done|]. by eapply grows_insert.
Qed.

(** Changes of one node that keep the links. *)
Lemma hinv_insert lsize ns lf lf' i n m :
  hinv lsize ns lf -> ns !! i = Some m -> n_next n = n_next m -> node_ok n -> n_key n <> KNil ->
  (lf' <= length ns)%nat -> (forall j m, (lf' <= j)%nat -> ns !! j = Some m -> n_key m <> KNil) ->
  (forall b, node_key n = Some b ->
     nkey_at ns i = Some b \/ (amp lsize b = i /\ forall j, nkey_at ns j <> Some b)) ->
  (forall j b, j <> i -> nkey_at ns j = Some b -> amp lsize b = i ->
     exists a, node_key n = Some a /\ amp lsize a = i) ->
  hinv lsize (<[i := n]> ns) (Some lf').
Proof.
  intros H Em Hnx Hok Hnil Hlf Hfree Hkey Hhome.
  assert (i < length ns)%nat as Hi by (by apply lookup_lt_Some in Em).
  assert (forall j, link (<[i := n]> ns) j = link ns j) as Hlink.
  { intros j. rewrite link_insert by done. case_decide; [subst|done].
    rewrite (link_lookup _ _ _ Em). unfold next_of. by rewrite Hnx. }
  assert (Hat : <[i := n]> ns !! i = Some n) by (by rewrite list_lookup_insert_eq).
  constructor.
  - apply H.
  - rewrite length_insert. apply H.
  - by eapply next_ok_insert.
  - apply Forall_insert; [apply H|done].
  - intros j1 j2 k. rewrite !Hlink. apply H.
  - intros j. rewrite length_insert. intros Hj. destruct (hi_path _ _ _ _ _ H j Hj) as (l & P).
    exists l. by eapply path_ext.
  - intros j b. rewrite nkey_insert by done. case_decide as Ej; [subst j|].
    + intros Kb. destruct (Hkey b Kb) as [Kb'|[Ea _]].
      * destruct (hi_home _ _ _ _ _ H _ _ Kb') as [R Hm]. split; [by eapply reach_ext|].
        destruct (decide (amp lsize b = i)) as [Ea|]; [|by apply home_ne]. rewrite Ea. by eapply home_key.
      * rewrite Ea. split; [apply rtc_refl|]. by eapply home_key.
    + intros Kb. destruct (hi_home _ _ _ _ _ H _ _ Kb) as [R Hm]. split; [by eapply reach_ext|].
      destruct (decide (amp lsize b = i)) as [Ea|]; [|by apply home_ne].
      destruct (Hhome j b Ej Kb Ea) as (a & Ka & Aa). rewrite Ea. by eapply home_key.
  - assert (forall j b, j <> i -> node_key n = Some b -> nkey_at ns j <> Some b) as Hu.
    { intros j b Hj Kb Kj. destruct (Hkey b Kb) as [Kb'|[_ Hno]]; [|by eapply Hno].
      apply Hj. by eapply (hi_uniq _ _ _ _ _ H). }
    intros j1 j2 b. rewrite !nkey_insert by done. repeat case_decide; subst; intros K1 K2; try done;
      [by destruct (Hu j2 b)|by destruct (Hu j1 b)|by eapply (hi_uniq _ _ _ _ _ H)].
  - rewrite length_insert. split; [done|]. intros j n' Hj E'. destruct (decide (i = j)) as [->|].
    + rewrite list_lookup_insert_eq in E' by done. by simplify_eq.
    + rewrite list_lookup_insert_ne in E' by done. eauto.
Qed.

Lemma hinv_lastfree lsize ns lf i a : hinv lsize ns lf -> nkey_at ns i = Some a -> exists f, lf = Some f.
Proof.
  intros H K. destruct lf as [f|]; [by exists f|]. pose proof (hi_free _ _ _ _ _ H) as Hf. cbn in Hf. subst.
  destruct i; done.
Qed.

Lemma stored_node v k a d : stored k a -> isempty v = false -> node_ok (MkNode v (KVal k) d).
Proof. intros Hs Hv. split; cbn; [by intros ->|by exists a]. Qed.

(** Storing a value in the node of a key. *)
Lemma set_val_ok lsize ns lf i n a v :
  hinv lsize ns lf -> ns !! i = Some n -> node_key n = Some a -> v <> VAbstKey ->
  hinv lsize (<[i := set_val n v]> ns) lf /\
  (forall b, abs_hash (<[i := set_val n v]> ns) b = if decide (b = a) then present v else abs_hash ns b) /\
  (forall j, nkey_at (<[i := set_val n v]> ns) j = nkey_at ns j) /\
  (used (<[i := set_val n v]> ns) <= used ns)%nat.
Proof.
  intros H En Ka Hv. assert (Hi : (i < length ns)%nat) by (by apply lookup_lt_Some in En).
  assert (Hka : nkey_at ns i = Some a) by (by rewrite (nkey_lookup _ _ _ En)).
  destruct (hinv_lastfree _ _ _ _ _ H Hka) as [f ->]. destruct (hi_free _ _ _ _ _ H) as [Hlf Hfree].
  assert (exists k, n_key n = KVal k) as [k Kk] by (unfold node_key in Ka; destruct (n_key n); eauto; done).
  assert (H' : hinv lsize (<[i := set_val n v]> ns) (Some f)).
  { eapply (hinv_insert lsize ns (Some f) f i (set_val n v) n); try done.
    - destruct (hi_key _ _ _ _ _ H _ _ _ En Kk) as [a' Hst]. split; [done|]. cbn. rewrite Kk. by exists a'.
    - cbn. by rewrite Kk.
    - intros b Kb. left. by rewrite (nkey_lookup _ _ _ En).
    - intros j b Hj Kb Eb. destruct (hi_home _ _ _ _ _ H _ _ Kb) as [_ (m & Em & Hm)].
      rewrite Eb in Em. simplify_eq. rewrite Kk in Hm. unfold node_key. cbn. by rewrite Kk. }
  split; [done|]. split_and!.
  - eapply abs_hash_update; [done|done|..].
    + exists i, (set_val n v). by rewrite list_lookup_insert_eq.
    + intros b w Hb Hw (j & m & Em & Kb & Ew). apply holds_at_insert; [done|]. right.
      exists j, m. split_and!; try done. intros ->. congruence.
    + intros b w Hb [[Kb _]|(j & m & _ & ?)]%holds_at_insert; [|by exists j, m|done].
      change (node_key n = Some b) in Kb. congruence.
  - intros j. rewrite nkey_insert by done. case_decide; [subst|done]. by rewrite (nkey_lookup _ _ _ En).
  - apply (used_keep _ _ _ _ En). by rewrite Kk.
Qed.

(** The main position is free: the key goes there. *)
Lemma main_free_ok lsize ns lf k a v n :
  hinv lsize ns (Some lf) -> stored k a -> (forall i, nkey_at ns i <> Some a) ->
  ns !! amp lsize a = Some n -> isempty (n_val n) = true -> isempty v = false ->
  inserted lsize ns (<[amp lsize a := MkNode v (KVal k) (n_next n)]> ns) lf a v.
Proof.
  intros H Hst Hnew En Hempty Hv. set (i := amp lsize a) in *.
  set (n' := MkNode v (KVal k) (n_next n)). assert (node_key n' = Some a) as Ka by apply Hst.
  destruct (hi_free _ _ _ _ _ H) as [Hlf Hfree].
  assert (Hi : (i < length ns)%nat) by (by apply lookup_lt_Some in En).
  assert (H' : hinv lsize (<[i := n']> ns) (Some lf)).
  { eapply (hinv_insert lsize ns (Some lf) lf i n' n); try done.
    - by eapply stored_node.
    - intros b Kb. right. by simplify_eq.
    - intros j b Hj Kb Eb. by exists a. }
  constructor.
  - done.
  - eapply abs_hash_update; [done|done|..].
    + exists i, n'. by rewrite list_lookup_insert_eq.
    + intros b w Hb Hw (j & m & Em & Kb & Ew). apply holds_at_insert; [done|]. right.
      exists j, m. split_and!; try done. intros ->. congruence.
    + intros b w Hb [[Kb _]|(j & m & _ & ?)]%holds_at_insert; [congruence|by exists j, m|done].
  - intros j b. rewrite nkey_insert by done. case_decide; intros Kb; [left; congruence|right; eauto].
  - by apply (used_add _ _ _ _ En).
Qed.

(** ** Collisions *)

(** The node vector around a collision: [f] is free, the nodes above it are not,
    and the main position [mp] of the new key [a] holds the key [a0]. *)
Section Collision.
Context (lsize : Z) (ns : list Node) (f mp : nat) (nf nmp : Node) (k : TValue) (a a0 : akey) (v : TValue).
Context (H : hinv lsize ns (Some (S f))).
Context (Ef : ns !! f = Some nf) (Kf : n_key nf = KNil).
Context (Emp : ns !! mp = Some nmp) (K0 : node_key nmp = Some a0).
Context (Hst : stored k a) (Hnew : forall i, nkey_at ns i <> Some a) (Ha : amp lsize a = mp).
Context (Hv : isempty v = false).

Lemma f_ne_mp : f <> mp.
Proof using Ef Kf Emp K0. unfold node_key in K0. destruct (n_key nmp) eqn:K; congruence. Qed.

Lemma link_f : link ns f = None.
Proof using H Ef Kf.
  rewrite (link_lookup _ _ _ Ef). by destruct (hi_nil _ _ _ _ _ H _ _ Ef Kf) as [-> _].
Qed.

Lemma link_to_f i : link ns i <> Some f.
Proof using H Ef Kf. intros E. apply (link_some _ _ _ _ _ H) in E as (? & n' & _ & E & K & _). congruence. Qed.

Lemma home_ne_f m : home seed strs ns lsize m -> m <> f.
Proof using Ef Kf. intros (n & E & Hm) Em. destruct (n_key n) eqn:K; [done|congruence..]. Qed.

(** What the vector after the collision must look like. *)
Record moved (ns' : list Node) (prev : option nat) : Prop := MkMoved {
  mv_len : length ns' = length ns;
  mv_used : (used ns' <= S (used ns))%nat;
  mv_nodes : Forall node_ok ns';
  mv_off i n : ns' !! i = Some n -> n_next n <> 0 -> 0 <= Z.of_nat i + n_next n;
  mv_other j n : j <> mp -> j <> f -> ns' !! j = Some n ->
    exists n0, ns !! j = Some n0 /\ n_key n = n_key n0 /\ n_val n = n_val n0;
  mv_link j : j <> mp -> j <> f -> prev <> Some j -> link ns' j = link ns j }.

Lemma moved_other ns' prev : moved ns' prev -> forall j, j <> mp -> j <> f -> nkey_at ns' j = nkey_at ns j.
Proof.
  intros M j Hj Hj'. unfold nkey_at. destruct (ns' !! j) as [n|] eqn:E.
  - destruct (mv_other _ _ M j n Hj Hj' E) as (n0 & -> & Ek & _). cbn. unfold node_key. by rewrite Ek.
  - apply lookup_ge_None in E. rewrite (mv_len _ _ M) in E. apply lookup_ge_None in E. by rewrite E.
Qed.

Lemma moved_node ns' prev j n0 :
  moved ns' prev -> j <> mp -> j <> f -> ns !! j = Some n0 ->
  exists n, ns' !! j = Some n /\ n_key n = n_key n0 /\ n_val n = n_val n0.
Proof.
  intros M Hj Hj' E. destruct (lookup_lt_is_Some_2 ns' j) as (n & En).
  { rewrite (mv_len _ _ M). by apply lookup_lt_Some in E. }
  destruct (mv_other _ _ M j n Hj Hj' En) as (n1 & E1 & ? & ?). simplify_eq. by exists n.
Qed.

Lemma moved_home ns' prev m :
  moved ns' prev -> m <> mp -> home seed strs ns lsize m -> home seed strs ns' lsize m.
Proof using Ef Kf.
  intros M Hm Hh. pose proof (home_ne_f m Hh) as Hf. destruct Hh as (n0 & E & Hk).
  destruct (moved_node _ _ _ _ M Hm Hf E) as (n & En & Ek & _). exists n. by rewrite Ek.
Qed.

Lemma moved_next ns' prev :
  moved ns' prev ->
  (exists n, ns' !! mp = Some n /\ n_key n <> KNil) -> (exists n, ns' !! f = Some n /\ n_key n <> KNil) ->
  (forall i j, link ns' i = Some j -> j = f \/ exists i', link ns i' = Some j) ->
  forall i n, ns' !! i = Some n -> n_next n <> 0 ->
    0 <= Z.of_nat i + n_next n /\
    exists n', ns' !! Z.to_nat (Z.of_nat i + n_next n) = Some n' /\ n_key n' <> KNil.
Proof using H.
  intros M Hmp Hf Hl i n En Hn. split; [by eapply mv_off|].
  assert (link ns' i = Some (Z.to_nat (Z.of_nat i + n_next n))) as E.
  { rewrite (link_lookup _ _ _ En). by rewrite (proj2 (Z.eqb_neq _ 0)). }
  set (j := Z.to_nat _) in *. clearbody j.
  destruct (decide (j = f)) as [->|Hjf]; [done|]. destruct (decide (j = mp)) as [->|Hjm]; [done|].
  apply Hl in E as [?|(i' & E)]; [done|].
  apply (link_some _ _ _ _ _ H) in E as (_ & n0 & _ & E0 & K0' & _).
  destruct (moved_node _ _ _ _ M Hjm Hjf E0) as (n' & En' & Ek & _). exists n'. by rewrite Ek.
Qed.

Lemma moved_free ns' prev :
  moved ns' prev ->
  (exists n, ns' !! mp = Some n /\ n_key n <> KNil) -> (exists n, ns' !! f = Some n /\ n_key n <> KNil) ->
  (f <= length ns')%nat /\ forall i n, (f <= i)%nat -> ns' !! i = Some n -> n_key n <> KNil.
Proof using H Ha Kf.
  intros M (n1 & E1 & N1) (n2 & E2 & N2). split; [apply lookup_lt_Some in E2; lia|]. intros i n Hi En.
  destruct (decide (i = f)) as [Hif|Hif]; [congruence|]. destruct (decide (i = mp)) as [Him|Him]; [congruence|].
  destruct (mv_other _ _ M i n Him Hif En) as (n0 & E0 & -> & _).
  destruct (hi_free _ _ _ _ _ H) as [_ Hfree]. apply (Hfree i); [lia|done].
Qed.

Definition node_is (ns' : list Node) (i : nat) (key : nkey) (w : TValue) : Prop :=
  exists n, ns' !! i = Some n /\ n_key n = key /\ n_val n = w.

Lemma node_is_key ns' i key w : node_is ns' i key w -> key <> KNil -> exists n, ns' !! i = Some n /\ n_key n <> KNil.
Proof. intros (n & E & <- & _) Hk. by exists n. Qed.

Lemma node_is_nkey ns' i n w : node_is ns' i (n_key n) w -> nkey_at ns' i = node_key n.
Proof. intros (n' & E & K & _). rewrite (nkey_lookup _ _ _ E). unfold node_key. by rewrite K. Qed.

Lemma node_is_new ns' i w : node_is ns' i (KVal k) w -> nkey_at ns' i = Some a.
Proof using Hst.
  intros (n' & E & K & _). rewrite (nkey_lookup _ _ _ E). unfold node_key. rewrite K. apply Hst.
Qed.

Lemma nmp_key_nonnil : n_key nmp <> KNil.
Proof using K0. intros E. unfold node_key in K0. by rewrite E in K0. Qed.

(** The map after the collision: the colliding key is at [old], the new one at [new]. *)
Lemma moved_inserted ns' prev (old new : nat) :
  (old = mp /\ new = f) \/ (old = f /\ new = mp) ->
  moved ns' prev -> hinv lsize ns' (Some f) ->
  node_is ns' old (n_key nmp) (n_val nmp) -> node_is ns' new (KVal k) v ->
  inserted lsize ns ns' f a v.
Proof using All.
  intros Hon M H' Nold Nnew.
  assert (forall j, j <> old -> j <> new -> j <> mp /\ j <> f) as Hother by (destruct Hon as [[-> ->]|[-> ->]]; auto).
  constructor; [done| | |apply M].
  - eapply abs_hash_update; [done|done|..].
    + destruct Nnew as (n & En & Kn & Vn). exists new, n. split_and!; try done. unfold node_key. rewrite Kn. apply Hst.
    + intros b w Hb Hw (j & m & Em & Kb & Ew). destruct (decide (j = mp)) as [->|Hj].
      * destruct Nold as (n & En & Kn & Vn). exists old, n. simplify_eq. split_and!; try done.
        unfold node_key. by rewrite Kn.
      * destruct (decide (j = f)) as [->|Hjf]; [simplify_eq; unfold node_key in Kb; by rewrite Kf in Kb|].
        destruct (moved_node _ _ _ _ M Hj Hjf Em) as (n & En & Kn & Vn). exists j, n.
        split_and!; [done| |congruence]. unfold node_key. by rewrite Kn.
    + intros b w Hb (j & n & En & Kb & Ew). destruct (decide (j = new)) as [->|Hjn].
      { destruct Nnew as (n' & En' & Kn & _). simplify_eq. unfold node_key in Kb. rewrite Kn in Kb.
        destruct Hst as (_ & Hak & _). congruence. }
      destruct (decide (j = old)) as [->|Hjo].
      { destruct Nold as (n' & En' & Kn & Vn). exists mp, nmp. simplify_eq. split_and!; try done.
        unfold node_key in *. by rewrite <-Kn. }
      destruct (Hother j Hjo Hjn) as [Hj1 Hj2]. destruct (mv_other _ _ M j n Hj1 Hj2 En) as (n0 & E0 & Kn & Vn).
      exists j, n0. split_and!; [done| |congruence]. unfold node_key in *. by rewrite <-Kn.
  - intros i b Kb. destruct (decide (i = new)) as [->|Hin].
    { left. rewrite (node_is_new _ _ _ Nnew) in Kb. congruence. }
    right. destruct (decide (i = old)) as [->|Hio].
    { exists mp. by rewrite (nkey_lookup _ _ _ Emp), <-(node_is_nkey _ _ _ _ Nold). }
    destruct (Hother i Hio Hin) as [Hj1 Hj2]. exists i. by rewrite <-(moved_other _ _ M).
Qed.

(** The colliding key is at its main position: the new key goes behind it. *)
Section Behind.
Context (ns' : list Node) (M : moved ns' None) (Hhome : amp lsize a0 = mp).
Context (Nmp : node_is ns' mp (n_key nmp) (n_val nmp)) (Nf : node_is ns' f (KVal k) v).
Context (Lmp : link ns' mp = Some f) (Lf : link ns' f = link ns mp).

Lemma behind_link j : j <> mp -> j <> f -> link ns' j = link ns j.
Proof using M. intros. by eapply mv_link. Qed.

Lemma behind_inj i j x : link ns' i = Some x -> link ns' j = Some x -> i = j.
Proof using All.
  pose proof f_ne_mp as Hne.
  assert (forall i, i <> mp -> link ns' i <> Some f) as Hto.
  { intros i' Hi. destruct (decide (i' = f)) as [->|]; [rewrite Lf|rewrite behind_link by done]; apply link_to_f. }
  assert (forall i x, i <> mp -> link ns' i = Some x -> exists i0, i0 <> f /\ link ns i0 = Some x /\ i = if decide (i0 = mp) then f else i0) as Hfrom.
  { intros i' x' Hi E. destruct (decide (i' = f)) as [->|Hf].
    - rewrite Lf in E. exists mp. by rewrite decide_True.
    - rewrite behind_link in E by done. exists i'. by rewrite decide_False. }
  intros Ei Ej. destruct (decide (i = mp)) as [->|Hi], (decide (j = mp)) as [->|Hj]; try done.
  - by rewrite Lmp in Ei; simplify_eq; destruct (Hto j).
  - by rewrite Lmp in Ej; simplify_eq; destruct (Hto i).
  - apply Hfrom in Ei as (i0 & _ & Ei & ->), Ej as (j0 & _ & Ej & ->); [|done..].
    by rewrite (hi_inj _ _ _ _ _ H _ _ _ Ei Ej).
Qed.

Lemma behind_path i : i <> f -> (exists l, path (link ns) i l) -> exists l, path (link ns') i l.
Proof using All.
  intros Hi [l P]. induction P as [i E|i j l E P IH].
  - destruct (decide (i = mp)) as [->|Hne].
    + eexists. eapply path_step; [done|]. apply path_end. by rewrite Lf.
    + eexists. apply path_end. by rewrite behind_link.
  - destruct IH as [l' P']; [intros ->; by apply link_to_f in E|].
    destruct (decide (i = mp)) as [->|Hne].
    + eexists. eapply path_step; [done|]. eapply path_step; [|done]. by rewrite Lf.
    + eexists. eapply path_step; [|done]. by rewrite behind_link.
Qed.

Lemma behind_reach i j : i <> f -> reach (link ns) i j -> reach (link ns') i j.
Proof using All.
  intros Hi R. induction R as [i|i x j E R IH]; [apply rtc_refl|].
  assert (x <> f) as Hx by (intros ->; by apply link_to_f in E). specialize (IH Hx).
  destruct (decide (i = mp)) as [->|Hne].
  - eapply rtc_l; [done|]. eapply rtc_l; [|done]. by rewrite Lf.
  - eapply rtc_l; [|done]. by rewrite behind_link.
Qed.

Lemma behind_nkey i : nkey_at ns' i = if decide (i = f) then Some a else nkey_at ns i.
Proof using All.
  case_decide; [subst; by eapply node_is_new|]. destruct (decide (i = mp)) as [->|].
  - rewrite (node_is_nkey _ _ _ _ Nmp), (nkey_lookup _ _ _ Emp). done.
  - by eapply moved_other.
Qed.

Lemma behind_hinv : hinv lsize ns' (Some f).
Proof using All.
  pose proof (node_is_key _ _ _ _ Nmp nmp_key_nonnil) as Kmp'.
  pose proof (node_is_key _ _ _ _ Nf ltac:(done)) as Kf'.
  constructor.
  - apply H.
  - rewrite (mv_len _ _ M). apply H.
  - eapply moved_next; [done..|]. intros i j E.
    destruct (decide (i = mp)) as [->|]; [left; congruence|]. right.
    destruct (decide (i = f)) as [->|]; [exists mp; congruence|]. exists i. by rewrite <-behind_link.
  - apply M.
  - apply behind_inj.
  - intros i. rewrite (mv_len _ _ M). intros Hi. destruct (decide (i = f)) as [->|]; [|eauto using behind_path, hi_path].
    destruct (behind_path mp) as [l P]; [by apply not_eq_sym, f_ne_mp|eapply hi_path, lookup_lt_Some, Emp; done|].
    inversion P; simplify_eq. eauto.
  - intros i b. rewrite behind_nkey. case_decide as Ei.
    + intros [= <-]. subst i. rewrite Ha. split; [by apply rtc_once|].
      destruct Nmp as (n & En & Ek & _). eapply home_key; [done| |exact Hhome]. unfold node_key. by rewrite Ek.
    + intros Kb. destruct (hi_home _ _ _ _ _ H _ _ Kb) as [R Hm]. pose proof (home_ne_f _ Hm).
      split; [by apply behind_reach|]. destruct (decide (amp lsize b = mp)) as [->|]; [|by eapply moved_home].
      destruct Nmp as (n & En & Ek & _). eapply home_key; [done| |exact Hhome]. unfold node_key. by rewrite Ek.
  - intros i j b. rewrite !behind_nkey. repeat case_decide; subst; intros Ki Kj; try done.
    + simplify_eq. by destruct (Hnew j).
    + simplify_eq. by destruct (Hnew i).
    + by eapply (hi_uniq _ _ _ _ _ H).
  - by eapply moved_free.
Qed.
End Behind.

(** The colliding key is not at its main position: it moves to the free node. *)
Section Displace.
Context (ns' : list Node) (prev : nat) (M : moved ns' (Some prev)) (Haway : amp lsize a0 <> mp).
Context (Hprev : link ns prev = Some mp).
Context (Nf : node_is ns' f (n_key nmp) (n_val nmp)) (Nmp : node_is ns' mp (KVal k) v).
Context (Lmp : link ns' mp = None) (Lf : link ns' f = link ns mp) (Lprev : link ns' prev = Some f).

(** Where the nodes of the old vector are in the new one. *)
Definition sigma (j : nat) : nat := if decide (j = mp) then f else j.

Lemma sigma_other j : j <> mp -> sigma j = j.
Proof. intros. unfold sigma. by rewrite decide_False. Qed.

Lemma sigma_mp : sigma mp = f.
Proof. unfold sigma. by rewrite decide_True. Qed.

Lemma sigma_inj i j : i <> f -> j <> f -> sigma i = sigma j -> i = j.
Proof. unfold sigma. repeat case_decide; congruence. Qed.

Lemma sigma_onto j : j <> mp -> exists i, i <> f /\ j = sigma i.
Proof using Ef Kf Emp K0.
  intros Hj. destruct (decide (j = f)) as [->|Hf].
  - exists mp. rewrite sigma_mp. split; [apply not_eq_sym, f_ne_mp|done].
  - exists j. by rewrite sigma_other.
Qed.

Lemma displace_link j : j <> f -> link ns' (sigma j) = sigma <$> link ns j.
Proof using All.
  intros Hj. destruct (decide (j = mp)) as [->|Hm].
  - rewrite sigma_mp, Lf. destruct (link ns mp) as [x|] eqn:E; [|done]. cbn. rewrite sigma_other; [done|].
    intros ->. destruct (hi_path _ _ _ _ _ H mp) as [l P]; [by apply lookup_lt_Some in Emp|].
    by apply (path_irrefl _ _ _ P).
  - rewrite sigma_other by done. destruct (decide (j = prev)) as [->|Hp].
    + rewrite Lprev, Hprev. cbn. by rewrite sigma_mp.
    + rewrite (mv_link _ _ M) by congruence. destruct (link ns j) as [x|] eqn:E; [|done]. cbn.
      rewrite sigma_other; [done|]. intros ->. by destruct Hp; eapply (hi_inj _ _ _ _ _ H).
Qed.

Lemma keeps_f j x : j <> f -> link ns j = Some x -> x <> f.
Proof using H Ef Kf. intros _ E ->. by apply link_to_f in E. Qed.

Lemma displace_nkey j : j <> f -> nkey_at ns' (sigma j) = nkey_at ns j.
Proof using All.
  intros Hj. destruct (decide (j = mp)) as [->|Hm].
  - rewrite sigma_mp, (node_is_nkey _ _ _ _ Nf), (nkey_lookup _ _ _ Emp). done.
  - rewrite sigma_other by done. by eapply moved_other.
Qed.

Lemma displace_home j b :
  j <> f -> nkey_at ns j = Some b -> reach (link ns') (amp lsize b) (sigma j) /\ home seed strs ns' lsize (amp lsize b).
Proof using All.
  intros Hj Kb. destruct (hi_home _ _ _ _ _ H _ _ Kb) as [R Hm].
  assert (amp lsize b <> mp) as Hb.
  { intros E. rewrite E in Hm. destruct Hm as (n & En & Hn). assert (n = nmp) as -> by congruence. unfold node_key in K0.
    destruct (n_key nmp); try done. destruct Hn as (a1 & E1 & A1). congruence. }
  split; [|by eapply moved_home]. rewrite <-(sigma_other (amp lsize b)) by done.
  apply (reach_map _ _ sigma (fun j => j <> f) displace_link keeps_f); [by apply home_ne_f|done].
Qed.

Lemma displace_hinv : hinv lsize ns' (Some f).
Proof using All.
  pose proof (node_is_key _ _ _ _ Nf nmp_key_nonnil) as Kf'.
  pose proof (node_is_key _ _ _ _ Nmp ltac:(done)) as Kmp'.
  assert (Hfrom : forall i j, link ns' i = Some j ->
    exists i0 j0, i = sigma i0 /\ j = sigma j0 /\ i0 <> f /\ link ns i0 = Some j0).
  { intros i j E. destruct (sigma_onto i) as (i0 & Hi & ->); [congruence|].
    rewrite displace_link in E by done. destruct (link ns i0) as [j0|] eqn:E0; [|done]. cbn in E. simplify_eq.
    by exists i0, j0. }
  constructor.
  - apply H.
  - rewrite (mv_len _ _ M). apply H.
  - eapply moved_next; [done..|]. intros i j E. destruct (Hfrom i j E) as (i0 & j0 & -> & -> & Hi & E0).
    unfold sigma. case_decide; [by left|right; eauto].
  - apply M.
  - intros i j x Ei Ej. destruct (Hfrom _ _ Ei) as (i0 & x0 & -> & -> & Hi & Ei0).
    destruct (Hfrom _ _ Ej) as (j0 & x1 & -> & Ex & Hj & Ej0).
    apply sigma_inj in Ex; [|exact (keeps_f _ _ Hi Ei0)|exact (keeps_f _ _ Hj Ej0)]. subst. by rewrite (hi_inj _ _ _ _ _ H _ _ _ Ei0 Ej0).
  - intros i. rewrite (mv_len _ _ M). intros Hi. destruct (decide (i = mp)) as [->|Hm]; [exists [mp]; by apply path_end|].
    destruct (sigma_onto i Hm) as (i0 & Hi0 & ->). destruct (hi_path _ _ _ _ _ H i0) as [l P].
    { revert Hi. unfold sigma. case_decide; [subst; intros; by apply lookup_lt_Some in Emp|done]. }
    eexists. by apply (path_map _ _ sigma (fun j => j <> f) displace_link keeps_f).
  - intros i b Kb. destruct (decide (i = mp)) as [->|Hm].
    + rewrite (node_is_new _ _ _ Nmp) in Kb. simplify_eq. rewrite Ha. split; [apply rtc_refl|].
      destruct Nmp as (n & En & Ek & _). eapply home_key; [done| |exact Ha]. unfold node_key. rewrite Ek. apply Hst.
    + destruct (sigma_onto i Hm) as (i0 & Hi0 & ->). rewrite displace_nkey in Kb by done. by apply displace_home.
  - intros i j b Ki Kj. pose proof (node_is_new _ _ _ Nmp) as Kmp.
    destruct (decide (i = mp)) as [->|Hi], (decide (j = mp)) as [->|Hj]; try done.
    + destruct (sigma_onto j Hj) as (j0 & Hj0 & ->). rewrite displace_nkey in Kj by done. simplify_eq. by destruct (Hnew j0).
    + destruct (sigma_onto i Hi) as (i0 & Hi0 & ->). rewrite displace_nkey in Ki by done. simplify_eq. by destruct (Hnew i0).
    + destruct (sigma_onto i Hi) as (i0 & Hi0 & ->), (sigma_onto j Hj) as (j0 & Hj0 & ->).
      rewrite displace_nkey in Ki, Kj by done. by rewrite (hi_uniq _ _ _ _ _ H _ _ _ Ki Kj).
  - by eapply moved_free.
Qed.
End Displace.

(** *** The code of the two cases *)

Lemma nmp_ok : node_ok nmp.
Proof using H Emp. by eapply hi_node. Qed.

Lemma node_ok_next n d : node_ok n -> n_key n <> KNil -> node_ok (set_next n d).
Proof. unfold node_ok. cbn. by destruct (n_key n). Qed.

Lemma lookup_insert_cases {A} (l : list A) i j x y :
  <[i := x]> l !! j = Some y -> (j = i /\ y = x) \/ (j <> i /\ l !! j = Some y).
Proof. rewrite list_lookup_insert_Some. intros [(-> & -> & _)|[]]; auto. Qed.

Definition behind_vec : list Node :=
  <[f := MkNode v (KVal k) (if n_next nmp =? 0 then 0 else Z.of_nat mp + n_next nmp - Z.of_nat f)]>
    (<[mp := set_next nmp (Z.of_nat f - Z.of_nat mp)]> ns).

Lemma nmp_stored : exists k0, n_key nmp = KVal k0 /\ stored k0 a0.
Proof using H Emp K0.
  pose proof nmp_ok as [_ Hok]. unfold node_key in K0. destruct (n_key nmp) as [| |k0]; try done.
  destruct Hok as (a1 & Hs1). exists k0. split; [done|]. pose proof (proj1 (proj2 Hs1)) as E1.
  rewrite K0 in E1. injection E1 as ->. done.
Qed.

Lemma behind_code :
  amp lsize a0 = mp ->
  ('(ns1, pos) ← make_room lsize ns mp f; set_node ns1 pos k v) = Some behind_vec.
Proof using All.
  intros Hh. pose proof f_ne_mp as Hne. unfold make_room. rewrite Emp, Ef. cbn [mbind option_bind].
  destruct nmp_stored as (k0 & Kk & Hs0).
  unfold nodekey. rewrite Kk. cbn [mbind option_bind]. rewrite (mainposition_stored _ _ _ _ _ Hs0). cbn [mbind option_bind].
  rewrite Hh, Nat.eqb_refl. cbn [negb]. unfold set_node. cbn [mbind option_bind].
  rewrite list_lookup_insert_ne, list_lookup_insert_eq by (done || by apply lookup_lt_Some in Ef).
  cbn [mbind option_bind]. f_equal. rewrite (list_insert_insert_ne ns mp f), list_insert_insert_eq by done.
  unfold behind_vec. f_equal. f_equal. destruct (n_next nmp =? 0); cbn [negb]; [|done].
  by destruct (hi_nil _ _ _ _ _ H _ _ Ef Kf).
Qed.

Lemma f_lt : (f < length ns)%nat. Proof using Ef. by apply lookup_lt_Some in Ef. Qed.
Lemma mp_lt : (mp < length ns)%nat. Proof using Emp. by apply lookup_lt_Some in Emp. Qed.

Lemma nmp_next : n_next nmp <> 0 -> 0 <= Z.of_nat mp + n_next nmp.
Proof using H Emp. intros Hn. by destruct (hi_next _ _ _ _ _ H _ _ Emp Hn). Qed.

(** The link of [mp], taken over by [f]. *)
Lemma next_of_moved w key :
  next_of f (MkNode w key (if n_next nmp =? 0 then 0 else Z.of_nat mp + n_next nmp - Z.of_nat f)) = link ns mp.
Proof using All.
  rewrite (link_lookup _ _ _ Emp). unfold next_of. cbn. destruct (Z.eqb_spec (n_next nmp) 0) as [E|E]; [done|].
  destruct (hi_next _ _ _ _ _ H _ _ Emp E) as (Hp & n' & E' & K').
  destruct (Z.eqb_spec (Z.of_nat mp + n_next nmp - Z.of_nat f) 0) as [E0|E0]; [|f_equal; lia].
  assert (Z.to_nat (Z.of_nat mp + n_next nmp) = f) as Eq by lia. rewrite Eq in E'. congruence.
Qed.

Lemma behind_moved : moved behind_vec None.
Proof using All.
  pose proof f_ne_mp. pose proof f_lt. pose proof mp_lt. unfold behind_vec. constructor.
  - by rewrite !length_insert.
  - etransitivity; [eapply used_add; rewrite list_lookup_insert_ne by done; exact Ef|].
    apply le_n_S, (used_keep _ _ _ _ Emp), nmp_key_nonnil.
  - apply Forall_insert; [apply Forall_insert; [apply H|]|by eapply stored_node].
    apply node_ok_next; [apply nmp_ok|apply nmp_key_nonnil].
  - intros i n [[-> ->]|[Hi [[-> ->]|[Hi' E]]%lookup_insert_cases]]%lookup_insert_cases; cbn [n_next set_next].
    + pose proof nmp_next. destruct (Z.eqb_spec (n_next nmp) 0); lia.
    + lia.
    + intros Hn. by destruct (hi_next _ _ _ _ _ H _ _ E Hn).
  - intros j n Hj Hj' E. rewrite !list_lookup_insert_ne in E by done. by exists n.
  - intros j Hj Hj' _. rewrite !link_insert by (by rewrite ?length_insert). by rewrite !decide_False.
Qed.

Lemma behind_ok : amp lsize a0 = mp -> inserted lsize ns behind_vec f a v.
Proof using All.
  intros Hh. pose proof f_ne_mp. pose proof f_lt. pose proof mp_lt.
  assert (Nmp : node_is behind_vec mp (n_key nmp) (n_val nmp)).
  { eexists. unfold behind_vec. by rewrite list_lookup_insert_ne, list_lookup_insert_eq. }
  assert (Nf : node_is behind_vec f (KVal k) v).
  { eexists. unfold behind_vec. by rewrite list_lookup_insert_eq by (by rewrite length_insert). }
  eapply (moved_inserted _ None mp f); [by left|apply behind_moved| |done|done].
  apply behind_hinv; [apply behind_moved|done|done|done|..]; unfold behind_vec;
    rewrite !link_insert by (by rewrite ?length_insert).
  - rewrite decide_False, decide_True by done. by apply next_of_offset, not_eq_sym.
  - rewrite decide_True by done. apply next_of_moved.
Qed.

Definition displace_vec (prev : nat) (np : Node) : list Node :=
  <[mp := MkNode v (KVal k) 0]>
    (<[f := MkNode (n_val nmp) (n_key nmp) (if n_next nmp =? 0 then 0 else Z.of_nat mp + n_next nmp - Z.of_nat f)]>
      (<[prev := set_next np (Z.of_nat f - Z.of_nat prev)]> ns)).

Lemma find_previous_ok fuel i l :
  (length l <= fuel)%nat -> path (link ns) i l -> reach (link ns) i mp -> i <> mp ->
  exists prev, find_previous fuel ns i mp = Some prev /\ link ns prev = Some mp.
Proof using H.
  clear Ha. intros Hl P. revert fuel Hl. induction P as [i E|i j l E P IH]; intros [|fuel] Hl R Hi; cbn in Hl; try lia;
    inversion R as [|? x ? E' R']; simplify_eq.
  pose proof E as Ec. apply (link_some _ _ _ _ _ H) in Ec as (n & _ & En & _ & _ & _ & _ & Hs).
  cbn. rewrite En. cbn. rewrite Hs. cbn. destruct (Nat.eqb_spec j mp) as [->|Hx]; [by exists i|].
  apply IH; [lia|done|done].
Qed.

Section DisplaceCode.
Context (Haway : amp lsize a0 <> mp).

Lemma displace_code :
  exists prev np, link ns prev = Some mp /\ ns !! prev = Some np /\
    ('(ns1, pos) ← make_room lsize ns mp f; set_node ns1 pos k v) = Some (displace_vec prev np).
Proof using All.
  pose proof f_ne_mp as Hne. pose proof f_lt. pose proof mp_lt as Hmp. destruct nmp_stored as (k0 & Kk & Hs0).
  assert (Hk0 : nkey_at ns mp = Some a0) by (by rewrite (nkey_lookup _ _ _ Emp)).
  destruct (hi_home _ _ _ _ _ H _ _ Hk0) as [R Hm].
  assert (Hb : (amp lsize a0 < length ns)%nat) by (destruct Hm as (? & E & _); by apply lookup_lt_Some in E).
  destruct (hi_path _ _ _ _ _ H _ Hb) as [l P].
  destruct (find_previous_ok (length ns) _ l (path_bound _ _ _ _ _ H _ _ Hb P) P R Haway) as (prev & Fp & Lp).
  pose proof Lp as Lp'. apply (link_some _ _ _ _ _ H) in Lp' as (np & _ & Enp & _).
  exists prev, np. split; [done|]. split; [done|]. unfold make_room. rewrite Emp, Ef. cbn [mbind option_bind].
  unfold nodekey. rewrite Kk. cbn [mbind option_bind]. rewrite (mainposition_stored _ _ _ _ _ Hs0). cbn [mbind option_bind].
  rewrite (proj2 (Nat.eqb_neq _ _)) by done. cbn [negb]. rewrite Fp. cbn [mbind option_bind]. rewrite Enp. cbn [mbind option_bind].
  assert (prev <> mp) as Hpm.
  { intros ->. destruct (hi_path _ _ _ _ _ H mp Hmp) as [l' P']. by apply (path_irrefl _ _ _ P'). }
  rewrite list_lookup_insert_ne, Emp by done. cbn [mbind option_bind]. unfold displace_vec, set_node.
  destruct (Z.eqb_spec (n_next nmp) 0) as [En|En]; cbn [negb mbind option_bind];
    rewrite list_lookup_insert_eq by (by rewrite !length_insert); cbn [mbind option_bind]; f_equal;
    rewrite list_insert_insert_eq; repeat f_equal; cbn; try done.
  - destruct nmp as [w key d]. cbn in *. by subst.
  - unfold set_next. f_equal. lia.
Qed.

Context (prev : nat) (np : Node) (Lp : link ns prev = Some mp) (Enp : ns !! prev = Some np).

Lemma prev_ne : prev <> mp /\ prev <> f.
Proof using All.
  split; intros ->.
  - destruct (hi_path _ _ _ _ _ H mp mp_lt) as [l' P']. by apply (path_irrefl _ _ _ P').
  - by rewrite link_f in Lp.
Qed.

Lemma np_key : n_key np <> KNil.
Proof using All.
  pose proof Lp as L. apply (link_some _ _ _ _ _ H) in L as (n & _ & E & _ & _ & K & _).
  rewrite Enp in E. by simplify_eq.
Qed.

Lemma displace_moved : moved (displace_vec prev np) (Some prev).
Proof using All.
  pose proof f_ne_mp. pose proof f_lt. pose proof mp_lt. destruct prev_ne as [Hpm Hpf]. unfold displace_vec. constructor.
  - by rewrite !length_insert.
  - etransitivity; [eapply used_keep; [rewrite !list_lookup_insert_ne by done; exact Emp|apply nmp_key_nonnil]|].
    etransitivity; [eapply used_add; rewrite list_lookup_insert_ne by done; exact Ef|].
    apply le_n_S, (used_keep _ _ _ _ Enp), np_key.
  - apply Forall_insert; [apply Forall_insert; [apply Forall_insert; [apply H|]|]|by eapply stored_node].
    + apply node_ok_next; [by eapply hi_node|apply np_key].
    + apply (node_ok_next nmp); [apply nmp_ok|apply nmp_key_nonnil].
  - intros i n [[-> ->]|[Hi [[-> ->]|[Hi' [[-> ->]|[Hi'' E]]%lookup_insert_cases]]%lookup_insert_cases]]%lookup_insert_cases;
      cbn [n_next set_next].
    + done.
    + pose proof nmp_next. destruct (Z.eqb_spec (n_next nmp) 0); lia.
    + lia.
    + intros Hn. by destruct (hi_next _ _ _ _ _ H _ _ E Hn).
  - intros j n Hj Hj' E. rewrite !(list_lookup_insert_ne _ _ j) in E by done.
    apply lookup_insert_cases in E as [[-> ->]|[_ E]]; [by exists np|by exists n].
  - intros j Hj Hj' Hp. rewrite !link_insert by (rewrite ?length_insert; by eapply lookup_lt_Some || done).
    rewrite !decide_False by congruence. done.
Qed.

Lemma displace_ok : inserted lsize ns (displace_vec prev np) f a v.
Proof using All.
  pose proof f_ne_mp. pose proof f_lt. pose proof mp_lt. destruct prev_ne as [Hpm Hpf].
  assert (Hpl : (prev < length ns)%nat) by (by apply lookup_lt_Some in Enp).
  assert (Nmp : node_is (displace_vec prev np) mp (KVal k) v).
  { eexists. unfold displace_vec. by rewrite list_lookup_insert_eq by (by rewrite !length_insert). }
  assert (Nf : node_is (displace_vec prev np) f (n_key nmp) (n_val nmp)).
  { eexists. unfold displace_vec. by rewrite list_lookup_insert_ne, list_lookup_insert_eq by (done || by rewrite length_insert). }
  eapply (moved_inserted _ (Some prev) f mp); [by right|apply displace_moved| |done|done].
  eapply (displace_hinv _ prev); try done; [apply displace_moved|..]; unfold displace_vec;
    rewrite !link_insert by (by rewrite ?length_insert).
  - by rewrite decide_True.
  - rewrite decide_False, decide_True by done. apply next_of_moved.
  - rewrite !(decide_False (P := prev = _)), decide_True by done. by apply next_of_offset.
Qed.
End DisplaceCode.
End Collision.

(** ** [luaH_newkey] *)

(** A table that differs from [t] in its hash part only. *)
Definition with_hash (t : Table) (ns : list Node) (lf : option nat) : Table :=
  with_lastfree (with_nodes t ns) lf.

Lemma hinv_weaken lsize ns lf lf' :
  hinv lsize ns (Some lf) -> (lf' <= length ns)%nat ->
  (forall i n, (lf' <= i)%nat -> ns !! i = Some n -> n_key n <> KNil) -> hinv lsize ns (Some lf').
Proof. intros [] Hl Hf. by constructor. Qed.

(** No free node is left: the vector is the dummy node, or every node has had a key. *)
Definition full (ns : list Node) (lf : option nat) : Prop :=
  match lf with
  | None => ns = [dummynode]
  | Some _ => forall i n, ns !! i = Some n -> n_key n <> KNil
  end.

Section NewKey.
Context (alloc_node alloc_array : Z -> bool).
Abbreviation newkey := (luaH_newkey alloc_node alloc_array).

Lemma collision_ok lsize ns f mp nf nmp k a v :
  hinv lsize ns (Some (S f)) -> ns !! f = Some nf -> n_key nf = KNil -> ns !! mp = Some nmp ->
  isempty (n_val nmp) = false -> stored k a -> (forall i, nkey_at ns i <> Some a) -> amp lsize a = mp ->
  isempty v = false ->
  exists ns1 pos ns', make_room lsize ns mp f = Some (ns1, pos) /\ set_node ns1 pos k v = Some ns' /\
    inserted lsize ns ns' f a v.
Proof.
  intros H Ef Kf Emp Hne Hst Hnew Ha Hv.
  assert (exists a0, node_key nmp = Some a0) as [a0 K0].
  { destruct (hi_node _ _ _ _ _ H _ _ Emp) as [_ Hok]. unfold node_key.
    destruct (n_key nmp) as [| |k0]; [destruct Hok; congruence|congruence|].
    destruct Hok as (a0 & _ & E0 & _). by exists a0. }
  assert (Hfin : forall ns', ('(ns1, pos) ← make_room lsize ns mp f; set_node ns1 pos k v) = Some ns' ->
    exists ns1 pos, make_room lsize ns mp f = Some (ns1, pos) /\ set_node ns1 pos k v = Some ns').
  { intros ns' E. destruct (make_room lsize ns mp f) as [[ns1 pos]|]; [|done]. by exists ns1, pos. }
  destruct (decide (amp lsize a0 = mp)) as [Eh|Eh].
  - destruct (Hfin (behind_vec ns f mp nmp k v)) as (ns1 & pos & E1 & E2); [by eapply behind_code|].
    exists ns1, pos, (behind_vec ns f mp nmp k v). split_and!; try done. by eapply behind_ok.
  - destruct (displace_code lsize ns f mp nf nmp k a a0 v) as (prev & np & Lp & Enp & E); try done.
    apply Hfin in E as (ns1 & pos & E1 & E2). exists ns1, pos, (displace_vec ns f mp nmp k v prev np).
    split_and!; try done. by eapply displace_ok.
Qed.

Lemma newkey_cases fuel s t k a v :
  tinv s t -> wf_key seed strs k -> akey_of k = Some a -> (forall i, nkey_at (t_node t) i <> Some a) ->
  isempty v = false ->
  (exists ns' lf', newkey (S fuel) t k v = Ret (with_hash t ns' (Some lf')) tt /\
     t_lastfree t <> None /\ inserted (t_lsizenode t) (t_node t) ns' lf' a v) \/
  (exists lf k', stored k' a /\ hinv (t_lsizenode t) (t_node t) lf /\ full (t_node t) lf /\
     (lf = None <-> t_lastfree t = None) /\
     newkey (S fuel) t k v =
       obind (rehash alloc_node alloc_array (newkey fuel) (with_lastfree t lf) k')
         (fun t _ => set_with (newkey fuel) t k' v)).
Proof.
  intros Ht Hw Hk Hnew Hv. pose proof (ti_hash _ _ _ _ Ht) as Hh.
  destruct (normkey_ok seed strs k a Hw Hk) as (k' & Hn & Hw' & Hk' & Hn').
  assert (Hst : stored k' a) by done. cbn [luaH_newkey]. rewrite Hn. change (ttisnil v) with (isempty v). rewrite Hv.
  rewrite (mainposition_stored _ _ _ _ _ Hst). cbn [lift].
  assert (Hb : (amp (t_lsizenode t) a < length (t_node t))%nat).
  { rewrite (hi_len _ _ _ _ _ Hh). apply amp_bound. pose proof (hi_size _ _ _ _ _ Hh). lia. }
  destruct (lookup_lt_is_Some_2 _ _ Hb) as (nmp & Emp). rewrite Emp. cbn [lift].
  unfold isdummy, getfreepos. destruct (t_lastfree t) as [lf|] eqn:Elf.
  - destruct (isempty (n_val nmp)) eqn:Ev; cbn [negb orb].
    + left. unfold set_node. rewrite Emp. cbn. eexists _, lf. split; [|split; [done|by eapply main_free_ok]].
      f_equal. unfold with_hash, with_lastfree, with_nodes. by rewrite Elf.
    + destruct (hi_free _ _ _ _ _ Hh) as [Hlf Hfree].
      destruct (freepos_ok (t_node t) lf Hlf Hfree) as (lf' & r & Er & Hr). rewrite Er. cbn [mbind option_bind lift].
      destruct r as [f|].
      * destruct Hr as (-> & (nf & Ef & Kf) & Hab). left.
        assert (hinv (t_lsizenode t) (t_node t) (Some (S f))) as Hh'
          by (eapply hinv_weaken; [done|by apply lookup_lt_Some in Ef|done]).
        destruct (collision_ok _ _ f _ nf nmp k' a v Hh' Ef Kf Emp Ev Hst Hnew eq_refl Hv)
          as (ns1 & pos & ns' & E1 & E2 & Hins).
        cbn [t_lsizenode t_node with_lastfree]. rewrite E1. cbn [lift]. rewrite E2. cbn [lift]. by exists ns', f.
      * destruct Hr as (-> & Hall). right. exists (Some 0%nat), k'. split; [done|]. split; [|done].
        eapply hinv_weaken; [done|lia|]. intros i n _. apply Hall.
  - rewrite orb_true_r. cbn [lift]. right. exists None, k'. split_and!; try done.
    + by apply (hi_free _ _ _ _ _ Hh).
    + unfold with_lastfree. rewrite <-Elf. by destruct t.
Qed.
End NewKey.
End Insert.
End TableInsert.
