(* ===== verification/TableCount.v ===== *)
(** * Counting keys for a rehash

    [numusearray], [numusehash] and [countint] count the integer keys of a table
    by the slice (2^(i-1), 2^i] they lie in, and [computesizes] finds the largest
    power of two such that an array of that size would be more than half full. *)

From S2P Require Import Prelude CFloat LuaValue LuaNumber LuaObject LuaTable TableInv.

Module TableCount.
Import CFloat LuaValue LuaNumber LuaObject LuaTable TableInv.
Open Scope list_scope.
Open Scope Z_scope.

(** ** Counts *)

Definition cnt {A} (P : A -> bool) (l : list A) : Z := zlen (List.filter P l).

Lemma cnt_nil {A} (P : A -> bool) : cnt P [] = 0.
Proof. done. Qed.

Lemma cnt_cons {A} (P : A -> bool) x l : cnt P (x :: l) = (if P x then 1 else 0) + cnt P l.
Proof. unfold cnt. cbn [List.filter]. destruct (P x); cbn [length]; lia. Qed.

Lemma cnt_app {A} (P : A -> bool) l1 l2 : cnt P (l1 ++ l2) = cnt P l1 + cnt P l2.
Proof. unfold cnt. rewrite List.filter_app, length_app. lia. Qed.

Lemma cnt_pos {A} (P : A -> bool) l : 0 <= cnt P l.
Proof. unfold cnt. lia. Qed.

Lemma cnt_mono {A} (P Q : A -> bool) l :
  (forall x, x ∈ l -> P x = true -> Q x = true) -> cnt P l <= cnt Q l.
Proof.
  induction l as [|x l IH]; intros H; [done|]. rewrite !cnt_cons.
  specialize (IH ltac:(intros; apply H; [by right|done])). pose proof (H x ltac:(left)).
  destruct (P x), (Q x); lia || naive_solver.
Qed.

Lemma cnt_ext {A} (P Q : A -> bool) l : (forall x, x ∈ l -> P x = Q x) -> cnt P l = cnt Q l.
Proof.
  intros H. apply Z.le_antisymm; apply cnt_mono; intros x Hx; by rewrite (H x Hx).
Qed.

Lemma cnt_split {A} (P Q R : A -> bool) l :
  (forall x, x ∈ l -> (if P x then 1 else 0) = (if Q x then 1 else 0) + (if R x then 1 else 0)) ->
  cnt P l = cnt Q l + cnt R l.
Proof.
  induction l as [|x l IH]; intros H; [done|]. rewrite !cnt_cons, (H x ltac:(left)), IH; [lia|].
  intros y Hy. apply H. by right.
Qed.

Lemma cnt_all {A} (P : A -> bool) l : (forall x, x ∈ l -> P x = true) -> cnt P l = zlen l.
Proof.
  induction l as [|x l IH]; intros H; [done|]. rewrite cnt_cons, (H x ltac:(left)), IH; [cbn [length]; lia|].
  intros y Hy. apply H. by right.
Qed.

Lemma cnt_none {A} (P : A -> bool) l : (forall x, x ∈ l -> P x = false) -> cnt P l = 0.
Proof.
  induction l as [|x l IH]; intros H; [done|]. rewrite cnt_cons, (H x ltac:(left)), IH; [done|].
  intros y Hy. apply H. by right.
Qed.

Lemma cnt_le {A} (P : A -> bool) l : cnt P l <= zlen l.
Proof. unfold cnt. pose proof (List.filter_length_le P l). lia. Qed.

(** ** Slices *)

Definition in_slice (i : nat) (k : Z) : bool := Z.log2_up k =? Z.of_nat i.

(** The keys that may go to an array. *)
Definition candidate (k : Z) : Prop := 1 <= k <= 2 ^ 31.

(** [nums] counts the candidates [ks]. *)
Definition nums_ok (ks nums : list Z) : Prop :=
  length nums = 32%nat /\ forall i, (i < 32)%nat -> nums !! i = Some (cnt (in_slice i) ks).

Lemma candidate_log2 k : candidate k -> 0 <= Z.log2_up k <= 31.
Proof.
  intros Hk. split; [apply Z.log2_up_nonneg|]. apply Z.log2_up_le_pow2; unfold candidate in Hk; lia.
Qed.

Lemma nums_ok_nil : nums_ok [] (replicate 32 0).
Proof. split; [done|]. intros i Hi. by rewrite lookup_replicate_2. Qed.

Lemma count_at_ok ks nums (i : nat) l :
  nums_ok ks nums -> (i < 32)%nat -> (forall k, k ∈ l -> Z.log2_up k = Z.of_nat i) -> zlen l + zlen ks < 2 ^ 32 ->
  exists nums', count_at nums (Z.of_nat i) (zlen l) = Some nums' /\ nums_ok (ks ++ l) nums'.
Proof.
  intros [Hl Hn] Hi Hs Hb. unfold count_at. rewrite Nat2Z.id, (Hn i Hi). cbn. eexists. split; [done|].
  split; [by rewrite length_insert|]. intros j Hj. rewrite cnt_app.
  destruct (decide (i = j)) as [<-|Hne].
  - rewrite list_lookup_insert_eq by lia. f_equal.
    rewrite (cnt_all _ l) by (intros k Hk; unfold in_slice; rewrite (Hs k Hk); apply Z.eqb_refl).
    pose proof (cnt_le (in_slice i) ks). pose proof (cnt_pos (in_slice i) ks). apply wrap_small. unfold in_u. lia.
  - rewrite list_lookup_insert_ne, Hn by done. f_equal.
    rewrite (cnt_none _ l); [lia|]. intros k Hk. unfold in_slice. rewrite (Hs k Hk). apply Z.eqb_neq. lia.
Qed.

(** [arrayindex] *)
Lemma arrayindex_ok k : in_s 64 k -> arrayindex k = if (1 <=? k) && (k <=? 2 ^ 31) then k else 0.
Proof.
  intros Hk. unfold arrayindex, MAXASIZE. rewrite index_test by (done || lia).
  destruct ((1 <=? k) && (k <=? 2 ^ 31)) eqn:E; [|done]. apply wrap_small. unfold in_u. lia.
Qed.

(** The candidate a key is, if it is one. *)
Definition cand (k : Z) : list Z := if (1 <=? k) && (k <=? 2 ^ 31) then [k] else [].

Lemma countint_ok ks nums k :
  nums_ok ks nums -> in_s 64 k -> 1 + zlen ks < 2 ^ 32 ->
  exists nums', countint k nums = Some (nums', zlen (cand k)) /\ nums_ok (ks ++ cand k) nums'.
Proof.
  intros Hn Hk Hb. unfold countint, cand. rewrite arrayindex_ok by done.
  destruct ((1 <=? k) && (k <=? 2 ^ 31)) eqn:E.
  - rewrite (proj2 (Z.eqb_neq k 0)) by lia. cbn [negb]. rewrite ceillog2_spec by lia. cbn [mbind option_bind].
    pose proof (candidate_log2 k ltac:(unfold candidate; lia)).
    destruct (count_at_ok ks nums (Z.to_nat (Z.log2_up k)) [k] Hn) as (nums' & E' & Hn').
    + lia.
    + intros ? ->%list_elem_of_singleton. lia.
    + done.
    + rewrite Z2Nat.id in E' by lia. cbn [length] in E'. change (Z.of_nat 1) with 1 in E'. rewrite E'.
      cbn. eauto.
  - cbn. exists nums. by rewrite app_nil_r.
Qed.

(** ** The array part *)

Definition filled (a : list TValue) (k : Z) : bool :=
  match array_get a (k - 1) with Some v => negb (isempty v) | None => false end.

(** The keys [k] in [i .. j] with a value in the array. *)
Definition akeys (a : list TValue) (i j : Z) : list Z := List.filter (filled a) (seqZ i (j - i + 1)).

Lemma akeys_in a i j k : k ∈ akeys a i j -> i <= k <= j /\ filled a k = true.
Proof.
  unfold akeys. rewrite list_elem_of_In, List.filter_In, <-list_elem_of_In, elem_of_seqZ. intros [? ?]. split; [lia|done].
Qed.

Lemma akeys_app a i m j : i <= m + 1 -> m <= j -> akeys a i m ++ akeys a (m + 1) j = akeys a i j.
Proof.
  intros. unfold akeys. rewrite <-List.filter_app. f_equal.
  replace (j - i + 1) with ((m - i + 1) + (j - (m + 1) + 1)) by lia. rewrite (seqZ_app i (m - i + 1)) by lia. f_equal. f_equal. lia.
Qed.

Lemma akeys_nil a i j : j < i -> akeys a i j = [].
Proof. intros. unfold akeys. by rewrite seqZ_nil by lia. Qed.

Lemma akeys_cons a i j : i <= j -> akeys a i j = (if filled a i then [i] else []) ++ akeys a (i + 1) j.
Proof.
  intros. unfold akeys. rewrite seqZ_cons by lia. cbn [List.filter].
  replace (Z.pred (j - i + 1)) with (j - (i + 1) + 1) by lia. rewrite <-Z.add_1_r.
  by destruct (filled a i).
Qed.

Lemma akeys_length a i j : i <= j + 1 -> zlen (akeys a i j) <= j - i + 1.
Proof.
  intros. unfold akeys. etransitivity; [apply (cnt_le (filled a))|]. rewrite length_seqZ. lia.
Qed.

Lemma count_slice_ok a fuel i lim lc :
  1 <= i -> i <= lim + 1 -> lim <= zlen a -> lim - i < Z.of_nat fuel ->
  count_slice fuel a i lim lc = Some (lim + 1, lc + zlen (akeys a i lim)).
Proof.
  revert i lc. induction fuel as [|fuel IH]; intros i lc Hi Hl Ha Hf; cbn [count_slice].
  - rewrite (proj2 (Z.leb_gt i lim)), akeys_nil by lia. f_equal. cbn. f_equal; lia.
  - destruct (Z.leb_spec i lim).
    + assert (Hg : exists v, array_get a (i - 1) = Some v).
      { unfold array_get. rewrite (proj2 (Z.ltb_ge _ 0)) by lia. apply lookup_lt_is_Some_2. lia. }
      destruct Hg as [v Hg]. rewrite Hg. cbn [mbind option_bind]. rewrite IH by lia.
      rewrite (akeys_cons a i) by lia. replace (filled a i) with (negb (isempty v)) by (unfold filled; by rewrite Hg). f_equal. f_equal.
      rewrite length_app. destruct (isempty v); cbn [negb length]; lia.
    + rewrite akeys_nil by lia. f_equal. cbn. f_equal; lia.
Qed.

Lemma log2_up_slice k (lg : Z) : 0 <= lg -> 1 <= k <= 2 ^ lg -> (0 < lg -> 2 ^ (lg - 1) < k) -> Z.log2_up k = lg.
Proof.
  intros Hg Hk Hlo. destruct (decide (lg = 0)) as [->|].
  - change (2 ^ 0) with 1 in Hk. replace k with 1 by lia. done.
  - apply Z.log2_up_unique; [lia|]. rewrite <-Z.sub_1_r. split; [apply Hlo; lia|lia].
Qed.

(** Slice [lg] starts at [i]. *)
Definition slice_start (asize lg i : Z) : Prop :=
  i = if lg =? 0 then 1 else Z.min (2 ^ (lg - 1)) asize + 1.

Lemma numusearray_loop_ok a fuel lg nums :
  zlen a <= 2 ^ 31 -> 0 <= lg -> lg + Z.of_nat fuel = 32 ->
  forall i, slice_start (zlen a) lg i -> nums_ok (akeys a 1 (i - 1)) nums ->
  exists nums', numusearray_loop fuel a (zlen a) lg (u32 (2 ^ lg)) i (zlen (akeys a 1 (i - 1))) nums =
    Some (nums', zlen (akeys a 1 (zlen a))) /\ nums_ok (akeys a 1 (zlen a)) nums'.
Proof.
  intros Ha. revert lg nums. induction fuel as [|fuel IH]; intros lg nums Hlg Hf i Hi Hn; cbn [numusearray_loop].
  - assert (i = zlen a + 1) as ->.
    { unfold slice_start in Hi. replace lg with 32 in Hi by lia. simpl in Hi. lia. }
    rewrite Z.add_simpl_r in *. eauto.
  - pose proof (pow2_pos lg Hlg). pose proof (Z.pow_le_mono_r 2 lg 31).
    rewrite (wrap_small 32 (2 ^ lg)) by (unfold in_u; lia).
    assert (Hstart : 1 <= i <= Z.min (2 ^ lg) (zlen a) + 1).
    { unfold slice_start in Hi. destruct (Z.eqb_spec lg 0); [subst; simpl; lia|].
      pose proof (pow2_split lg). pose proof (pow2_pos (lg - 1)). lia. }
    destruct ((2 ^ lg >? zlen a) && (i >? zlen a)) eqn:Eb.
    { assert (i = zlen a + 1) as -> by lia. rewrite Z.add_simpl_r in *. eauto. }
    set (lim := if 2 ^ lg >? zlen a then zlen a else 2 ^ lg).
    assert (lim = Z.min (2 ^ lg) (zlen a)) as Elim by (subst lim; destruct (Z.gtb_spec (2 ^ lg) (zlen a)); lia).
    clearbody lim. rewrite count_slice_ok by lia. cbn [mbind option_bind]. rewrite Z.add_0_l.
    pose proof (akeys_length a 1 (i - 1)). pose proof (akeys_length a i lim).
    destruct (count_at_ok _ _ (Z.to_nat lg) (akeys a i lim) Hn) as (nums' & Ec & Hn'); [lia| |lia|].
    { intros k [Hk _]%akeys_in. rewrite Z2Nat.id by lia. apply log2_up_slice; [lia|lia|]. intros.
      unfold slice_start in Hi. rewrite (proj2 (Z.eqb_neq lg 0)) in Hi by lia. lia. }
    rewrite Z2Nat.id in Ec by lia. rewrite Ec. cbn [mbind option_bind].
    pose proof (akeys_app a 1 (i - 1) lim ltac:(lia) ltac:(lia)) as Eapp. rewrite Z.sub_add in Eapp.
    rewrite Eapp in Hn'. replace (u32 (zlen (akeys a 1 (i - 1)) + zlen (akeys a i lim)))
      with (zlen (akeys a 1 (lim + 1 - 1))).
    2:{ rewrite Z.add_simpl_r, <-Eapp, length_app, wrap_small by (unfold in_u; lia). lia. }
    replace (u32 (2 ^ lg * 2)) with (u32 (2 ^ (lg + 1))) by (rewrite Z.pow_add_r by lia; done).
    apply IH; [lia|lia| |by rewrite Z.add_simpl_r].
    unfold slice_start. rewrite (proj2 (Z.eqb_neq (lg + 1) 0)), Z.add_simpl_r by lia. lia.
Qed.

Lemma numusearray_ok t :
  t_alimit t = zlen (t_array t) -> zlen (t_array t) <= 2 ^ 31 ->
  exists nums, numusearray t (replicate 32 0) = Some (nums, zlen (akeys (t_array t) 1 (zlen (t_array t)))) /\
    nums_ok (akeys (t_array t) 1 (zlen (t_array t))) nums.
Proof.
  intros El Hl. unfold numusearray. rewrite El.
  apply (numusearray_loop_ok (t_array t) 32 0 (replicate 32 0) Hl ltac:(lia) ltac:(lia) 1).
  - done.
  - apply nums_ok_nil.
Qed.

(** ** The hash part *)

Definition live (n : Node) : bool := negb (isempty (n_val n)).

(** The candidates among the keys of live nodes. *)
Definition node_cand (n : Node) : list Z :=
  if live n then match n_key n with KVal (VInt i) => cand i | _ => [] end else [].
Definition hkeys (ns : list Node) : list Z := ns ≫= node_cand.

Lemma hkeys_cons n ns : hkeys (n :: ns) = node_cand n ++ hkeys ns.
Proof. done. Qed.

Lemma cand_length k : zlen (cand k) <= 1.
Proof. unfold cand. destruct (_ && _); cbn; lia. Qed.

Lemma hkeys_length ns : zlen (hkeys ns) <= cnt live ns.
Proof.
  induction ns as [|n ns IH]; [done|]. rewrite hkeys_cons, length_app, cnt_cons. unfold node_cand.
  destruct (live n); [|cbn; lia]. destruct (n_key n) as [| |[]]; cbn [length]; try lia.
  pose proof (cand_length i). lia.
Qed.

Lemma numusehash_loop_ok ns : forall ks nums tot ause,
  (forall n i, n ∈ ns -> n_key n = KVal (VInt i) -> in_s 64 i) ->
  nums_ok ks nums -> zlen ks + cnt live ns < 2 ^ 32 ->
  exists nums', numusehash_loop ns nums tot ause = Some (nums', tot + cnt live ns, ause + zlen (hkeys ns)) /\
    nums_ok (ks ++ hkeys ns) nums'.
Proof.
  induction ns as [|n ns IH]; intros ks nums tot ause Hint Hn Hb.
  { exists nums. change (hkeys []) with (@nil Z). by rewrite cnt_nil, app_nil_r, !Z.add_0_r. }
  cbn [numusehash_loop]. change (negb (isempty (n_val n))) with (live n). rewrite cnt_cons in *. rewrite hkeys_cons.
  assert (Hint' : forall m i, m ∈ ns -> n_key m = KVal (VInt i) -> in_s 64 i) by (intros m i Hm; apply Hint; by right).
  pose proof (cnt_pos live ns) as Hpos.
  assert (Hskip : node_cand n = [] -> forall tot', tot' + cnt live ns = tot + ((if live n then 1 else 0) + cnt live ns) ->
    exists nums', numusehash_loop ns nums tot' ause =
      Some (nums', tot + ((if live n then 1 else 0) + cnt live ns), ause + zlen (node_cand n ++ hkeys ns)) /\
      nums_ok (ks ++ node_cand n ++ hkeys ns) nums').
  { intros -> tot' <-. apply IH; [done|done|]. destruct (live n); lia. }
  unfold node_cand in *. destruct (live n); [|apply Hskip; [done|lia]].
  destruct (n_key n) as [| |[| | | | |i| | | | | |]] eqn:Ek; try (apply Hskip; [done|lia]).
  destruct (countint_ok ks nums i Hn) as (nums1 & -> & Hn1); [by eapply Hint; [left|]|lia|]. cbn [mbind option_bind].
  destruct (IH (ks ++ cand i) nums1 (tot + 1) (ause + zlen (cand i)) Hint' Hn1) as (nums' & -> & Hn').
  { rewrite length_app. pose proof (cand_length i). lia. }
  exists nums'. rewrite <-app_assoc in Hn'. split; [|done].
  rewrite length_app, Nat2Z.inj_add, !Z.add_assoc. done.
Qed.

Lemma hkeys_perm (P : Z -> bool) l1 l2 : l1 ≡ₚ l2 -> cnt P (hkeys l1) = cnt P (hkeys l2).
Proof.
  induction 1; rewrite ?hkeys_cons, ?cnt_app in *; lia.
Qed.

Lemma cnt_perm {A} (P : A -> bool) l1 l2 : l1 ≡ₚ l2 -> cnt P l1 = cnt P l2.
Proof. induction 1; rewrite ?cnt_cons in *; lia. Qed.

Lemma zlen_cnt {A} (l : list A) : zlen l = cnt (fun _ => true) l.
Proof. symmetry. by apply cnt_all. Qed.

Lemma numusehash_ok t ks nums :
  (forall n i, n ∈ t_node t -> n_key n = KVal (VInt i) -> in_s 64 i) ->
  nums_ok ks nums -> zlen ks + cnt live (t_node t) < 2 ^ 32 ->
  exists nums', numusehash t nums = Some (nums', cnt live (t_node t), zlen (hkeys (t_node t))) /\
    nums_ok (ks ++ hkeys (t_node t)) nums'.
Proof.
  intros Hint Hn Hb. unfold numusehash.
  pose proof (reverse_Permutation (t_node t)) as Hp.
  destruct (numusehash_loop_ok (reverse (t_node t)) ks nums 0 0) as (nums' & -> & [Hl Hn']).
  - intros n i Hi. apply Hint. by rewrite <-Hp.
  - done.
  - by rewrite (cnt_perm _ _ _ Hp).
  - exists nums'. rewrite (cnt_perm _ _ _ Hp), !zlen_cnt, (hkeys_perm _ _ _ Hp). split; [done|].
    split; [done|]. intros j Hj. rewrite (Hn' j Hj), !cnt_app, (hkeys_perm _ _ _ Hp). done.
Qed.

(** ** The best size *)

(** The candidates up to [n]. *)
Definition upto (n : Z) (ks : list Z) : Z := cnt (fun k => k <=? n) ks.

(** [size] is the largest power of two, or 0, such that more than half of the
    slots 1 .. [size] are in use. *)
Definition best_size (ks : list Z) (size : Z) : Prop :=
  (size = 0 \/ exists p, 0 <= p <= 31 /\ size = 2 ^ p /\ size / 2 < upto size ks) /\
  forall q, 0 <= q -> size < 2 ^ q -> upto (2 ^ q) ks <= 2 ^ q / 2.

Lemma upto_slice ks (i : nat) :
  (forall k, k ∈ ks -> candidate k) ->
  upto (2 ^ Z.of_nat i) ks = (if (i =? 0)%nat then 0 else upto (2 ^ (Z.of_nat i - 1)) ks) + cnt (in_slice i) ks.
Proof.
  intros Hc. unfold upto. destruct (Nat.eqb_spec i 0) as [->|Hi].
  - rewrite Z.add_0_l. apply cnt_ext. intros k Hk. specialize (Hc k Hk). unfold candidate, in_slice in *.
    change (2 ^ Z.of_nat 0) with 1. apply eq_bool_prop_intro. rewrite !Is_true_true, Z.leb_le, Z.eqb_eq.
    change (Z.of_nat 0) with 0. rewrite Z.log2_up_null. lia.
  - apply cnt_split. intros k Hk. specialize (Hc k Hk). unfold candidate, in_slice in *.
    pose proof (Z.log2_up_le_pow2 k (Z.of_nat i) ltac:(lia)) as E1.
    pose proof (Z.log2_up_le_pow2 k (Z.of_nat i - 1) ltac:(lia)) as E2.
    destruct (Z.leb_spec k (2 ^ Z.of_nat i)), (Z.leb_spec k (2 ^ (Z.of_nat i - 1))),
      (Z.eqb_spec (Z.log2_up k) (Z.of_nat i)); lia.
Qed.

(** What the loop knows before round [i]. *)
Definition best_below (ks : list Z) (i : Z) (na optimal : Z) : Prop :=
  ((optimal = 0 /\ na = 0) \/ exists p, 0 <= p < i /\ optimal = 2 ^ p /\ optimal / 2 < na /\ na = upto optimal ks) /\
  forall q, 0 <= q < i -> optimal < 2 ^ q -> upto (2 ^ q) ks <= 2 ^ q / 2.

Lemma upto_le ks n : upto n ks <= zlen ks.
Proof. apply cnt_le. Qed.

Lemma upto_zero ks : (forall k, k ∈ ks -> candidate k) -> upto 0 ks = 0.
Proof. intros Hc. apply cnt_none. intros k Hk. specialize (Hc k Hk). unfold candidate in *. lia. Qed.

Lemma best_below_step ks (i : Z) na optimal :
  0 <= i -> best_below ks i na optimal ->
  if upto (2 ^ i) ks >? 2 ^ i / 2 then best_below ks (i + 1) (upto (2 ^ i) ks) (2 ^ i)
  else best_below ks (i + 1) na optimal.
Proof.
  intros Hi [Ho Hq]. destruct (Z.gtb_spec (upto (2 ^ i) ks) (2 ^ i / 2)) as [Hg|Hg].
  - split; [right; exists i; split_and!; done || lia|]. intros q Hq' Hlt.
    apply Z.pow_lt_mono_r_iff in Hlt; lia.
  - split.
    + destruct Ho as [|(p & Hp & ?)]; [by left|]. right. exists p. split; [lia|done].
    + intros q Hq' Hlt. destruct (decide (q = i)) as [->|]; [lia|]. apply Hq; [lia|done].
Qed.

Lemma best_below_end ks (i : Z) na optimal :
  (forall k, k ∈ ks -> candidate k) -> 0 <= i <= 32 -> best_below ks i na optimal -> zlen ks <= 2 ^ i / 2 ->
  best_size ks optimal /\ na = upto optimal ks.
Proof.
  intros Hc Hi [Ho Hq] Hend. split; [split|].
  - destruct Ho as [[-> _]|(p & Hp & -> & Hlt & ->)]; [by left|]. right. exists p. split_and!; done || lia.
  - intros q Hq0 Hlt. destruct (decide (q < i)) as [Hlt'|Hge]; [apply Hq; [lia|done]|].
    etransitivity; [apply upto_le|]. etransitivity; [done|]. apply Z.div_le_mono; [lia|].
    apply Z.pow_le_mono_r; lia.
  - destruct Ho as [[-> ->]|(p & Hp & -> & Hlt & ->)]; [|done]. by rewrite upto_zero.
Qed.

Lemma computesizes_loop_ok ks nums fuel (i : nat) na optimal :
  nums_ok ks nums -> (forall k, k ∈ ks -> candidate k) -> zlen ks < 2 ^ 31 -> (i + fuel = 33)%nat -> (i <= 32)%nat ->
  best_below ks (Z.of_nat i) na optimal ->
  exists size, computesizes_loop fuel nums (zlen ks) i (u32 (2 ^ Z.of_nat i))
      (if (i =? 0)%nat then 0 else upto (2 ^ (Z.of_nat i - 1)) ks) na optimal = Some (size, upto size ks) /\
    best_size ks size.
Proof.
  intros [Hl Hn] Hc Hks. revert i na optimal. induction fuel as [|fuel IH]; intros i na optimal Hf Hi Hb; [lia|].
  cbn [computesizes_loop]. destruct (decide (i = 32%nat)) as [->|Hne].
  { change (u32 (2 ^ Z.of_nat 32)) with 0. change (0 >? 0) with false. cbn [andb].
    assert (zlen ks <= 2 ^ 32 / 2) as Hks' by (change (2 ^ 32 / 2) with (2 ^ 31); lia).
    destruct (best_below_end ks 32 na optimal Hc ltac:(lia) Hb Hks') as [Hs ->]. by exists optimal. }
  pose proof (pow2_pos (Z.of_nat i)). pose proof (Z.pow_le_mono_r 2 (Z.of_nat i) 31).
  rewrite (wrap_small 32 (2 ^ Z.of_nat i)) by (unfold in_u; lia).
  rewrite (proj2 (Z.gtb_lt _ 0)) by lia. cbn [andb].
  destruct (Z.gtb_spec (zlen ks) (2 ^ Z.of_nat i / 2)) as [Hg|Hg].
  - rewrite (Hn i) by lia. cbn [mbind option_bind].
    rewrite <-(upto_slice ks i Hc). rewrite (wrap_small 32 (upto _ ks)) by
      (unfold in_u; pose proof (upto_le ks (2 ^ Z.of_nat i)); pose proof (cnt_pos (fun k => k <=? 2 ^ Z.of_nat i) ks); unfold upto in *; lia).
    pose proof (best_below_step ks (Z.of_nat i) na optimal ltac:(lia) Hb) as Hstep.
    assert (Hnext : forall na' opt', best_below ks (Z.of_nat i + 1) na' opt' ->
      exists size, computesizes_loop fuel nums (zlen ks) (S i) (u32 (2 ^ Z.of_nat i * 2)) (upto (2 ^ Z.of_nat i) ks) na' opt' =
        Some (size, upto size ks) /\ best_size ks size).
    { intros na' opt' Hb'. specialize (IH (S i) na' opt'). cbn [Nat.eqb] in IH.
      replace (Z.of_nat (S i) - 1) with (Z.of_nat i) in IH by lia.
      replace (2 ^ Z.of_nat (S i)) with (2 ^ Z.of_nat i * 2) in IH by (rewrite Nat2Z.inj_succ, Z.pow_succ_r; lia).
      apply IH; [lia|lia|]. by rewrite Nat2Z.inj_succ, <-Z.add_1_r. }
    destruct (upto (2 ^ Z.of_nat i) ks >? 2 ^ Z.of_nat i / 2); by apply Hnext.
  - destruct (best_below_end ks (Z.of_nat i) na optimal Hc ltac:(lia) Hb Hg) as [Hs ->]. by exists optimal.
Qed.

Lemma computesizes_ok ks nums :
  nums_ok ks nums -> (forall k, k ∈ ks -> candidate k) -> zlen ks < 2 ^ 31 ->
  exists size, computesizes nums (zlen ks) = Some (size, upto size ks) /\ best_size ks size.
Proof.
  intros Hn Hc Hks. apply (computesizes_loop_ok ks nums 33 0 0 0 Hn Hc Hks); [lia|lia|].
  split; [by left|]. intros q Hq. cbn in Hq. lia.
Qed.
End TableCount.
