(* ===== verification/TableResize.v ===== *)
(** * Assignment and resizing

    [luaH_set] on a table with room, [reinsert] and the vanishing slice of a
    shrinking array, [luaH_resize], the sizes [rehash] asks for, and assignment
    in general: a rehash always leaves room for the key that caused it. *)

From S2P Require Import Prelude CFloat LuaValue LuaNumber LuaObject LuaTable TableInv TableInsert TableCount.

Module TableResize.
Import CFloat LuaValue LuaNumber LuaObject LuaTable TableInv TableInsert TableCount.
Open Scope cell_scope.
Open Scope list_scope.
Open Scope Z_scope.

(** The free nodes of the hash part. *)
Definition room (t : Table) : Z :=
  match t_lastfree t with
  | None => 0
  | Some _ => zlen (t_node t) - Z.of_nat (used (t_node t))
  end.

Section Resize.
Context (seed : Z) (strs : Z -> list Z) (alloc_node alloc_array : Z -> bool).
Abbreviation hinv := (TableInv.hinv seed strs).
Abbreviation tinv := (TableInv.tinv seed strs).
Abbreviation wf_key := (TableInv.wf_key seed strs).
Abbreviation stored := (TableInv.stored seed strs).
Abbreviation newkey := (luaH_newkey alloc_node alloc_array).

(** [t'] is [t] with [v] assigned to [a]. *)
Record updated (s : Z) (t t' : Table) (a : akey) (v : TValue) : Prop := MkUpdated {
  up_inv : tinv s t';
  up_abs b : abs s t' b = if decide (b = a) then present v else abs s t b;
  up_alen : length (t_array t') = length (t_array t);
  up_array : in_array s a = false -> t_array t' = t_array t;
  up_real : t_real t' = t_real t;
  up_room : room t - (if in_array s a then 0 else 1) <= room t' }.

(** ** Storing in a slot *)

Lemma array_set_ok s t i v :
  tinv s t -> 0 <= i < s -> v <> VAbstKey ->
  exists t', set_slot t (SArray i) v = Ret t' tt /\ updated s t t' (AInt (i + 1)) v.
Proof.
  intros Ht Hi Hv. pose proof (ti_len _ _ _ _ Ht) as Hl. unfold set_slot, array_set.
  rewrite (proj2 (Z.leb_le 0 i)), (proj2 (Z.ltb_lt i _)) by lia. cbn [andb lift].
  assert (Hin : in_array s (AInt (i + 1)) = true) by (apply in_array_int; lia).
  eexists. split; [done|]. constructor; cbn [with_array t_array t_real].
  - destruct Ht. constructor; cbn; try done.
    + by rewrite length_insert.
    + intros j w E. apply lookup_insert_cases in E as [[_ ->]|[_ E]]; eauto.
  - intros b. unfold abs. cbn [with_array t_array t_node]. case_decide as Eb.
    + subst. rewrite Hin. unfold abs_array, array_get. rewrite Z.add_simpl_r, (proj2 (Z.ltb_ge i 0)) by lia.
      by rewrite list_lookup_insert_eq by lia.
    + destruct (in_array s b) eqn:Eb'; [|done]. destruct b; try done. unfold abs_array, array_get.
      apply in_array_int in Eb'. rewrite (proj2 (Z.ltb_ge (i0 - 1) 0)) by lia.
      rewrite list_lookup_insert_ne; [done|]. intros E. apply Eb. f_equal. lia.
  - by rewrite length_insert.
  - by rewrite Hin.
  - done.
  - rewrite Hin. change (room t - 0 <= room t). lia.
Qed.

Lemma node_set_ok s t i a v :
  tinv s t -> in_array s a = false -> nkey_at (t_node t) i = Some a -> v <> VAbstKey ->
  exists t', set_slot t (SNode i) v = Ret t' tt /\ updated s t t' a v.
Proof.
  intros Ht Hin Hk Hv. unfold nkey_at in Hk. destruct (t_node t !! i) as [n|] eqn:En; [|done]. cbn in Hk.
  destruct (set_val_ok _ _ _ _ _ i n a v (ti_hash _ _ _ _ Ht) En Hk Hv) as (Hh & Habs & Hkeys & Hu).
  unfold set_slot. rewrite En. cbn [lift]. eexists. split; [done|]. constructor; cbn [with_nodes t_array t_real]; try done.
  - destruct Ht. constructor; cbn; try done. intros j b. rewrite Hkeys. eauto.
  - intros b. unfold abs. cbn [with_nodes t_array t_node]. rewrite Habs. case_decide; [subst; by rewrite Hin|done].
  - rewrite Hin. unfold room. cbn [with_nodes t_lastfree t_node]. destruct (t_lastfree t); [|lia].
    rewrite length_insert. lia.
Qed.

Lemma set_slot_ok s t a sl v :
  tinv s t -> slot_for s t a sl -> sl <> SAbsent -> v <> VAbstKey ->
  exists t', set_slot t sl v = Ret t' tt /\ updated s t t' a v.
Proof.
  intros Ht Hs Hne Hv. destruct sl as [i|i|]; [| |done]; destruct Hs as [? ?].
  - subst. by apply array_set_ok.
  - by apply node_set_ok.
Qed.

(** ** A new key *)

Lemma inserted_updated s t ns' lf' a v :
  tinv s t -> t_lastfree t <> None -> in_array s a = false ->
  inserted seed strs (t_lsizenode t) (t_node t) ns' lf' a v ->
  updated s t (with_hash t ns' (Some lf')) a v.
Proof.
  intros Ht Hlf Hin [Hh Habs Hkeys Hu]. constructor; try done.
  - destruct Ht. constructor; cbn; try done. intros i b Kb. apply Hkeys in Kb as [->|(j & Kb)]; eauto.
  - intros b. unfold abs. cbn [with_hash with_nodes with_lastfree t_array t_node]. rewrite Habs. case_decide; [subst; by rewrite Hin|done].
  - rewrite Hin. unfold room. cbn [with_hash with_nodes with_lastfree t_lastfree t_node]. destruct (t_lastfree t); [|done].
    rewrite (hi_len _ _ _ _ _ Hh), (hi_len _ _ _ _ _ (ti_hash _ _ _ _ Ht)). lia.
Qed.

Lemma room_free t : 0 < room t -> t_lastfree t <> None /\ ~ full (t_node t) (t_lastfree t).
Proof.
  unfold room, full. destruct (t_lastfree t); [|lia]. intros Hr. split; [done|]. intros Hf.
  destruct (used_free (t_node t)) as (i & m & Em & Km); [lia|]. by apply (Hf i m).
Qed.

Lemma updated_same_limit s t t1 t' a v :
  same_but_limit s t t1 -> tinv s t -> updated s t1 t' a v -> updated s t t' a v.
Proof. intros (x & -> & _) Ht []. by constructor. Qed.

(** Assignment when the key has a slot, or the hash part has room. *)
Lemma set_room fuel s t k a v :
  tinv s t -> wf_key k -> akey_of k = Some a -> isempty v = false ->
  (in_array s a = true \/ 0 < room t) ->
  exists t', set_with (newkey (S fuel)) t k v = Ret t' tt /\ updated s t t' a v.
Proof.
  intros Ht Hw Hk Hv Hroom. destruct (get_ok _ _ s t k a Ht Hw Hk) as (t1 & sl & Eg & Hsame & Hsl).
  pose proof (proj1 (same_but_limit_inv _ _ _ _ _ Hsame Ht)) as Ht1.
  destruct (slot_for_val _ _ _ _ _ _ Ht1 Hsl) as (w & Ew & _ & Hw0).
  assert (v <> VAbstKey) as Hva by (by intros ->).
  unfold set_with. rewrite Eg. cbn [lift]. unfold finishset. rewrite Ew. cbn [lift].
  destruct (decide (sl = SAbsent)) as [->|Hne].
  - assert (w = VAbstKey) as -> by (by apply Hw0). cbn [isabstkey]. destruct Hsl as [Hin Hno].
    destruct Hroom as [?|Hr]; [congruence|].
    assert (Hr1 : 0 < room t1) by (destruct Hsame as (x & -> & _); done).
    destruct (room_free _ Hr1) as [Hlf Hnf].
    destruct (newkey_cases _ _ alloc_node alloc_array fuel s t1 k a v Ht1 Hw Hk Hno Hv)
      as [(ns' & lf' & E & _ & Hins)|(lf & k' & _ & _ & Hf & Hnone & _)].
    + eexists. split; [done|]. eapply updated_same_limit; [done..|]. by apply inserted_updated.
    + exfalso. apply Hnf. unfold full in *. destruct (t_lastfree t1); [|done]. destruct lf; [done|].
      by destruct Hnone as [Hnone _]; specialize (Hnone eq_refl).
  - assert (isabstkey w = false) as -> by (destruct w; try done; by destruct Hne; apply Hw0).
    destruct (set_slot_ok s t1 a sl v Ht1 Hsl Hne Hva) as (t' & E & Hup). exists t'. split; [done|].
    by eapply updated_same_limit.
Qed.

(** ** Reinsertion *)

(** A live node whose key has no place in an array of size [s]. *)
Definition goes_hash (s : Z) (n : Node) : bool :=
  live n && match node_key n with Some a => negb (in_array s a) | None => true end.

Definition over (x y : option TValue) : option TValue := match x with Some v => Some v | None => y end.

Lemma abs_hash_cons n ns b :
  abs_hash (n :: ns) b = if decide (node_key n = Some b) then present (n_val n) else abs_hash ns b.
Proof.
  unfold abs_hash. cbn [list_find]. case_decide; [done|]. by destruct (list_find _ ns) as [[]|].
Qed.

Definition unique_keys (ns : list Node) : Prop :=
  forall i j a, nkey_at ns i = Some a -> nkey_at ns j = Some a -> i = j.

Lemma unique_keys_tail n ns :
  unique_keys (n :: ns) -> unique_keys ns /\ forall a, node_key n = Some a -> abs_hash ns a = None.
Proof.
  intros Hu. split.
  - intros i j a Hi Hj. specialize (Hu (S i) (S j) a Hi Hj). lia.
  - intros a Ha. apply abs_hash_none. intros i Hi. specialize (Hu 0%nat (S i) a Ha Hi). lia.
Qed.

(** What a sequence of assignments leaves of the table. *)
Record extended (s : Z) (t t' : Table) (m : akey -> option TValue) (need : Z) : Prop := MkExtended {
  ex_inv : tinv s t';
  ex_abs b : abs s t' b = over (m b) (abs s t b);
  ex_alen : length (t_array t') = length (t_array t);
  ex_real : t_real t' = t_real t;
  ex_room : room t - need <= room t' }.

Lemma reinsert_ok fuel s ot : forall t,
  tinv s t -> Forall (node_ok seed strs) ot -> unique_keys ot -> cnt (goes_hash s) ot <= room t ->
  exists t', reinsert (newkey (S fuel)) ot t = Ret t' tt /\ extended s t t' (abs_hash ot) (cnt (goes_hash s) ot).
Proof.
  induction ot as [|n ot IH]; intros t Ht Hok Hu Hr.
  { exists t. split; [done|]. constructor; try done. rewrite cnt_nil. lia. }
  apply Forall_cons in Hok as [Hn Hok]. apply unique_keys_tail in Hu as [Hu Hnone].
  cbn [reinsert]. change (negb (isempty (n_val n))) with (live n). rewrite cnt_cons in *.
  pose proof (cnt_pos (goes_hash s) ot) as Hpos. unfold goes_hash in Hr at 1. unfold goes_hash at 1.
  destruct (live n) eqn:El; cbn [andb] in *.
  - unfold live in El. destruct Hn as [_ Hn]. unfold nodekey.
    destruct (n_key n) as [|p|k] eqn:Ek; [destruct Hn as [_ Hn]; by rewrite Hn in El|by rewrite Hn in El|].
    destruct Hn as (a & Hw & Ha & _). assert (node_key n = Some a) as Hna by (unfold node_key; by rewrite Ek).
    rewrite Hna in *. cbn [lift].
    destruct (set_room fuel s t k a (n_val n) Ht Hw Ha) as (t1 & -> & [U1 U2 U3 _ U5 U6]).
    { by destruct (isempty (n_val n)). }
    { destruct (in_array s a); [by left|right; cbn in Hr; lia]. }
    cbn [obind]. destruct (IH t1 U1 Hok Hu) as (t' & -> & [E1 E2 E3 E4 E5]).
    { destruct (in_array s a); cbn in Hr; lia. }
    exists t'. split; [done|]. constructor; [done| |congruence|congruence|].
    + intros b. rewrite E2, U2, abs_hash_cons, Hna. destruct (decide (b = a)) as [->|Hb].
      * rewrite decide_True, Hnone by done. unfold over, present. by destruct (isempty (n_val n)).
      * rewrite decide_False by congruence. done.
    + destruct (in_array s a); cbn in *; lia.
  - destruct (IH t Ht Hok Hu ltac:(lia)) as (t' & -> & [E1 E2 E3 E4 E5]).
    exists t'. split; [done|]. constructor; try done.
    intros b. rewrite E2, abs_hash_cons. case_decide as Hb; [|done]. rewrite Hnone by done.
    unfold live in El. unfold present. by destruct (isempty (n_val n)).
Qed.

(** ** The vanishing slice *)

(** The entries of [arr] at the indices in [i+1 .. j]. *)
Definition slice_map (arr : list TValue) (i j : Z) (b : akey) : option TValue :=
  if in_array j b && negb (in_array i b) then abs_array arr b else None.

Lemma slice_map_step arr i j v b :
  0 <= i < j -> array_get arr i = Some v ->
  slice_map arr i j b = if decide (b = AInt (i + 1)) then present v else slice_map arr (i + 1) j b.
Proof.
  intros Hij Hv. unfold slice_map. case_decide as E.
  - subst. unfold in_array, abs_array. rewrite Z.add_simpl_r, Hv.
    rewrite (proj2 (Z.leb_le 1 (i + 1))), (proj2 (Z.leb_le (i + 1) j)), (proj2 (Z.leb_gt (i + 1) i)) by lia. done.
  - destruct b; try done. assert (i0 <> i + 1) by congruence. unfold in_array.
    destruct (Z.leb_spec 1 i0), (Z.leb_spec i0 j), (Z.leb_spec i0 i), (Z.leb_spec i0 (i + 1)); cbn; done || lia.
Qed.

Lemma slice_map_self arr i j : 0 <= i -> slice_map arr (i + 1) j (AInt (i + 1)) = None.
Proof.
  intros. unfold slice_map. unfold in_array at 2.
  by rewrite (proj2 (Z.leb_le 1 (i + 1))), Z.leb_refl, andb_false_r by lia.
Qed.

Lemma vanish_ok fuel s old gas : forall i t,
  s <= i <= old -> old - i <= Z.of_nat gas -> old <= zlen (t_array t) -> old <= 2 ^ 29 ->
  tinv s t -> zlen (akeys (t_array t) (i + 1) old) <= room t ->
  exists t', vanish (newkey (S fuel)) gas i old t = Ret t' tt /\ t_array t' = t_array t /\
    extended s t t' (slice_map (t_array t) i old) (zlen (akeys (t_array t) (i + 1) old)).
Proof.
  induction gas as [|gas IH]; intros i t Hi Hg Hl Hb Ht Hr; cbn [vanish].
  all: pose proof (proj1 (ti_asize _ _ _ _ Ht)) as Hs.
  all: assert (Hend : i = old -> exists t', Ret t tt = Ret t' tt /\ t_array t' = t_array t /\
    extended s t t' (slice_map (t_array t) i old) (zlen (akeys (t_array t) (i + 1) old))).
  1,3: intros ->; exists t; split_and!; try done; constructor; try done; [|rewrite akeys_nil by lia; change (zlen (@nil Z)) with 0; lia];
    intros b; unfold slice_map; by destruct (in_array old b).
  { rewrite (proj2 (Z.ltb_ge i old)) by lia. apply Hend. lia. }
  destruct (Z.ltb_spec i old) as [Hlt|]; [|apply Hend; lia].
  assert (Hgv : exists v, array_get (t_array t) i = Some v).
  { unfold array_get. rewrite (proj2 (Z.ltb_ge _ 0)) by lia. apply lookup_lt_is_Some_2. lia. }
  destruct Hgv as [v Hv]. rewrite Hv. cbn [lift].
  rewrite (akeys_cons _ (i + 1)) in * by lia. unfold filled in *. fold (filled (t_array t)) in *.
  rewrite Z.add_simpl_r, Hv in *. rewrite length_app in *.
  destruct (isempty v) eqn:Ev; cbn [negb length] in *.
  - destruct (IH (i + 1) t) as (t' & -> & Ea & [E1 E2 E3 E4 E5]); [lia|lia|done|done|done|lia|].
    exists t'. split; [done|]. split; [done|]. constructor; try done.
    intros b. rewrite E2, (slice_map_step _ i old v) by (done || lia). case_decide as Eb; [|done]. subst.
    unfold present. by rewrite Ev, slice_map_self by lia.
  - rewrite (wrap_small 32) by (unfold in_u; lia).
    assert (Hin : in_array s (AInt (i + 1)) = false) by (apply not_true_iff_false; rewrite in_array_int; lia).
    change (setint_with (newkey (S fuel)) t (i + 1) v) with (set_with (newkey (S fuel)) t (VInt (i + 1)) v).
    destruct (set_room fuel s t (VInt (i + 1)) (AInt (i + 1)) v Ht) as (t1 & -> & [U1 U2 U3 U4 U5 U6]);
      [cbn; unfold in_s; lia|done|done|right; lia|].
    rewrite Hin in U6. cbn [obind]. specialize (U4 Hin).
    destruct (IH (i + 1) t1) as (t' & -> & Ea & [E1 E2 E3 E4 E5]); rewrite ?U4 in *; try done; try lia.
    exists t'. split; [done|]. split; [congruence|]. constructor; try congruence; [|lia].
    intros b. rewrite E2, U2, (slice_map_step _ i old v) by (done || lia). case_decide as Eb; [|done]. subst.
    unfold present. by rewrite Ev, slice_map_self by lia.
Qed.

(** ** Resizing *)

(** A table outside [luaH_resize], and the map it represents. *)
Definition table_ok (t : Table) : Prop := tinv (zlen (t_array t)) t.
Definition content (t : Table) (b : akey) : option TValue := abs (zlen (t_array t)) t b.

(** The hash part of a table with no keys. *)
Definition empty_hash (t : Table) : Prop :=
  hinv (t_lsizenode t) (t_node t) (t_lastfree t) /\ forall i, nkey_at (t_node t) i = None.

Lemma fresh_hinv (lsize : Z) :
  0 <= lsize <= 30 ->
  hinv lsize (replicate (Z.to_nat (2 ^ lsize)) (MkNode VEmpty KNil 0)) (Some (Z.to_nat (2 ^ lsize))).
Proof.
  intros Hl. set (ns := replicate _ _).
  assert (Hn : forall i n, ns !! i = Some n -> n = MkNode VEmpty KNil 0) by (intros i n [-> _]%lookup_replicate_1; done).
  assert (Hk : forall i, nkey_at ns i = None).
  { intros i. unfold nkey_at. destruct (ns !! i) as [n|] eqn:E; [|done]. by rewrite (Hn _ _ E). }
  assert (Hlink : forall i, link ns i = None).
  { intros i. unfold link. destruct (ns !! i) as [n|] eqn:E; [|done]. by rewrite (Hn _ _ E). }
  constructor.
  - done.
  - apply length_replicate.
  - intros i n E. by rewrite (Hn _ _ E).
  - apply Forall_lookup. intros i n E. by rewrite (Hn _ _ E).
  - intros i j k. by rewrite Hlink.
  - intros i _. exists [i]. by apply path_end.
  - intros i a. by rewrite Hk.
  - intros i j a. by rewrite Hk.
  - subst ns. split; [by rewrite length_replicate|]. intros i n Hi E. apply lookup_lt_Some in E.
    rewrite length_replicate in E. lia.
Qed.

Lemma dummy_hinv : hinv 0 [dummynode] None.
Proof.
  assert (Hlink : forall i, link [dummynode] i = None) by (by intros [|[]]).
  constructor; try done.
  - by intros [|[]] m [= <-].
  - by repeat constructor.
  - intros i j k. by rewrite Hlink.
  - intros i _. exists [i]. by apply path_end.
  - by intros [|[]] a.
  - by intros [|[]] j a.
Qed.

(** Why a resize to these sizes fails: there are more nodes than a table can have, or
    the allocator has no room for the node vector, of the next power of two, or for the
    array. *)
Definition refused (newasize nhsize : Z) (e : string) : Prop :=
  e = "table overflow"%string /\ 2 ^ 30 < nhsize \/
  e = "not enough memory"%string /\
    (0 < nhsize <= 2 ^ 30 /\ alloc_node (2 ^ Z.log2_up nhsize) = false \/ 0 < newasize /\ alloc_array newasize = false).

Lemma setnodevector_ok size :
  0 <= size < 2 ^ 32 ->
  exists r, setnodevector alloc_node raw_table size = Some r /\
    match r with
    | Ok newt => empty_hash newt /\ size <= room newt
    | Err e => forall new, refused new size e
    end.
Proof.
  intros Hs. unfold setnodevector. destruct (Z.eqb_spec size 0) as [->|Hne].
  { eexists. split; [done|]. split; [|done]. split; [apply dummy_hinv|by intros [|[]]]. }
  rewrite ceillog2_spec by lia. cbn [mbind option_bind].
  pose proof (Z.log2_up_nonneg size) as Hlog. rewrite Z.shiftl_1_l. unfold MAXHBITS, MAXHSIZE.
  destruct ((Z.log2_up size >? 30) || _) eqn:Eb.
  { eexists. split; [done|]. intros new. left. split; [done|]. destruct (decide (size <= 2 ^ 30)) as [Hle|]; [|lia].
    apply Z.log2_up_le_mono in Hle. rewrite Z.log2_up_pow2 in Hle by lia.
    assert (2 ^ Z.log2_up size <= 2 ^ 30) by (apply Z.pow_le_mono_r; lia). lia. }
  assert (Hl : 0 <= Z.log2_up size <= 30) by lia.
  destruct (alloc_node _) eqn:Ea.
  2:{ eexists. split; [done|]. intros new. right. split; [done|]. left. split; [|done]. split; [lia|].
      destruct (decide (size = 1)) as [->|]; [done|]. etransitivity; [apply Z.log2_up_spec; lia|apply Z.pow_le_mono_r; lia]. }
  eexists. split; [done|]. split; [split|].
  - by apply fresh_hinv.
  - intros i. unfold nkey_at. cbn. destruct (_ !! i) as [n|] eqn:E; [|done]. by apply lookup_replicate_1 in E as [-> _].
  - unfold room. cbn [t_lastfree t_node]. rewrite used_fresh, length_replicate.
    assert (size <= 2 ^ Z.log2_up size); [|lia].
    destruct (decide (size = 1)) as [->|]; [done|]. apply Z.log2_up_spec. lia.
Qed.

(** The table after [setlimittosize]. *)
Lemma setlimit_ok t : table_ok t ->
  table_ok (setlimittosize t) /\ t_alimit (setlimittosize t) = zlen (t_array t) /\
  t_real (setlimittosize t) = true /\ t_array (setlimittosize t) = t_array t /\
  (forall b, content (setlimittosize t) b = content t b) /\ t_node (setlimittosize t) = t_node t.
Proof.
  intros Ht. unfold setlimittosize. rewrite (realasize_ok t (zlen (t_array t))) by apply Ht.
  split_and!; try done. destruct Ht as [Hh Ha Hl Hv Hs]. constructor; cbn; try done. split; [apply Ha|done].
Qed.

Lemma empty_abs_hash ns b : (forall i, nkey_at ns i = None) -> abs_hash ns b = None.
Proof. intros H. apply abs_hash_none. intros i. by rewrite H. Qed.

Lemma present_abs arr s b : in_array s b = true -> slice_map arr 0 s b = abs_array arr b.
Proof.
  intros H. unfold slice_map. rewrite H. destruct b; try done. unfold in_array in *.
  by destruct (Z.leb_spec i 0); [lia|]; rewrite andb_false_r.
Qed.

Lemma move_ok fuel t newt new :
  let arr := t_array t in let old := zlen arr in
  table_ok t -> t_real t = true -> t_alimit t = old -> 0 <= new -> empty_hash newt ->
  zlen (akeys arr (new + 1) old) <= room newt ->
  exists newt', move_vanishing (newkey (S fuel)) t newt new old = Ret t newt' /\
    hinv (t_lsizenode newt') (t_node newt') (t_lastfree newt') /\
    (forall i a, nkey_at (t_node newt') i = Some a -> in_array new a = false) /\
    (forall b, abs_hash (t_node newt') b = slice_map arr new old b) /\
    room newt - zlen (akeys arr (new + 1) old) <= room newt'.
Proof.
  intros arr old Ht Hreal Hlim Hnew [Hh Hk] Hr. unfold move_vanishing.
  pose proof (proj1 (ti_asize _ _ _ _ Ht)) as Hold. fold arr old in Hold.
  destruct (Z.ltb_spec new old) as [Hlt|Hge].
  - cbn [exchangehashpart with_alimit t_real t_alimit t_array t_lsizenode t_node t_lastfree].
    set (t1 := MkTable _ _ _ _ _ _).
    assert (Ht1 : tinv new t1).
    { constructor; cbn; try done; try lia.
      - split; [lia|]. by rewrite Hreal.
      - subst old arr. lia.
      - apply Ht.
      - intros i a. by rewrite Hk. }
    destruct (vanish_ok fuel new old (length (t_array t)) new t1) as (t' & -> & Ea & [E1 E2 E3 E4 E5]);
      [lia|subst old arr; lia|cbn; subst old arr; lia|lia|done|done|].
    cbn [obind exchangehashpart with_alimit t_real t_alimit t_array t_lsizenode t_node t_lastfree].
    eexists. split; [f_equal; rewrite Ea, E4; cbn; rewrite <-Hlim; by destruct t|].
    cbn [t_lsizenode t_node t_lastfree]. split_and!.
    + apply E1.
    + apply E1.
    + intros b. specialize (E2 b). unfold abs in E2 at 1.
      destruct (in_array new b) eqn:Eb.
      * rewrite abs_hash_none; [unfold slice_map; by rewrite Eb, andb_false_r|].
        intros i Hi. apply (ti_sep _ _ _ _ E1) in Hi. congruence.
      * rewrite E2. unfold abs. rewrite Eb, (empty_abs_hash (t_node t1)) by done.
        unfold over. by destruct (slice_map _ new old b).
    + exact E5.
  - exists newt. split_and!; try done.
    + intros i a. by rewrite Hk.
    + intros b. rewrite empty_abs_hash by done. unfold slice_map.
      destruct b; try done. unfold in_array. destruct (Z.leb_spec 1 i), (Z.leb_spec i old), (Z.leb_spec i new); cbn; done || lia.
    + lia.
Qed.

(** The array after [luaM_reallocvector]. *)
Lemma realloc_array_ok arr new :
  let old := zlen arr in
  0 <= new ->
  zlen (realloc_array arr old new) = new /\
  (forall b, in_array new b = true -> abs_array (realloc_array arr old new) b = if in_array old b then abs_array arr b else None) /\
  (forall i v, realloc_array arr old new !! i = Some v -> v = VEmpty \/ arr !! i = Some v).
Proof.
  intros old Hnew. unfold realloc_array.
  assert (Hlen : length (take (Z.to_nat (Z.min old new)) arr) = Z.to_nat (Z.min old new)) by (rewrite length_take; lia).
  split_and!.
  - rewrite length_app, length_replicate, Hlen. lia.
  - intros b Hb. destruct b; try done. apply in_array_int in Hb. unfold abs_array, array_get, in_array.
    rewrite (proj2 (Z.ltb_ge (i - 1) 0)), (proj2 (Z.leb_le 1 i)) by lia. cbn [andb].
    destruct (Z.leb_spec i old).
    + rewrite lookup_app_l by lia. by rewrite lookup_take_lt by lia.
    + rewrite lookup_app_r by lia. rewrite lookup_replicate_2 by lia. done.
  - intros i v. rewrite lookup_app_Some. intros [E|[_ E]].
    + right. by apply lookup_take_Some in E as [? _].
    + left. by apply lookup_replicate_1 in E as [-> _].
Qed.

(** The hash nodes a resize to these sizes needs. *)
Definition hash_need (t : Table) (newasize : Z) : Z :=
  zlen (akeys (t_array t) (newasize + 1) (zlen (t_array t))) + cnt (goes_hash newasize) (t_node t).

Lemma resize_ok fuel t new nh :
  (forall n, alloc_array n = true -> n <= 2 ^ 29) ->
  table_ok t -> 0 <= new -> 0 <= nh < 2 ^ 32 -> hash_need t new <= nh ->
  (exists t' e, luaH_resize alloc_node alloc_array (newkey (S fuel)) t new nh = Throw t' e /\
     table_ok t' /\ (forall b, content t' b = content t b) /\ refused new nh e) \/
  (exists t', luaH_resize alloc_node alloc_array (newkey (S fuel)) t new nh = Ret t' tt /\
     table_ok t' /\ (forall b, content t' b = content t b) /\
     zlen (t_array t') = new /\ nh - hash_need t new <= room t').
Proof.
  intros Halloc Ht Hnew Hnh Hneed. unfold luaH_resize.
  destruct (setlimit_ok t Ht) as (Ht0 & Hlim & Hreal & Harr & Hcont & Hns).
  set (t0 := setlimittosize t) in *. clearbody t0. rewrite Hlim.
  destruct (setnodevector_ok nh Hnh) as ([newt|e] & -> & Hnewt); [|left; exists t0, e; by split_and!].
  destruct Hnewt as [Hempty Hroom]. unfold hash_need in *. rewrite <-Harr, <-Hns in Hneed |- *. rewrite <-Harr in Hlim.
  pose proof (cnt_pos (goes_hash new) (t_node t0)).
  destruct (move_ok fuel t0 newt new Ht0 Hreal Hlim Hnew Hempty ltac:(lia)) as (newt' & -> & Hh & Hsep & Habs & Hr).
  cbn [obind]. destruct ((new >? 0) && negb (alloc_array new)) eqn:Eal.
  { left. eexists t0, _. split_and!; [done|done|done|]. right. split; [done|]. right. apply andb_true_iff in Eal as [E1 E2].
    split; [lia|]. by apply negb_true_iff. }
  right. cbn [exchangehashpart t_array t_node].
  destruct (realloc_array_ok (t_array t0) new Hnew) as (Hlen & Hra & Hrv).
  set (arr' := realloc_array (t_array t0) (zlen (t_array t0)) new) in *. clearbody arr'.
  set (t3 := with_alimit _ _).
  assert (new <= 2 ^ 29) as Hb by (destruct (Z.gtb_spec new 0); [apply Halloc; by destruct (alloc_array new)|lia]).
  assert (Ht3 : tinv new t3).
  { constructor; cbn; try done; try lia.
    - split; [lia|]. by rewrite Hreal.
    - intros i v [->|E]%Hrv; [done|]. by eapply (ti_aval _ _ _ _ Ht0). }
  destruct (reinsert_ok fuel new (t_node t0) t3 Ht3) as (t' & -> & [E1 E2 E3 E4 E5]).
  - apply Ht0.
  - intros i j a. apply Ht0.
  - change (room t3) with (room newt'). lia.
  - exists t'. split; [done|]. change (t_array t3) with arr' in E3. 
    assert (Hl' : zlen (t_array t') = new) by (by rewrite E3).
    split_and!; [unfold table_ok; by rewrite Hl'| |done|change (room t3) with (room newt') in E5; lia].
    intros b. rewrite <-Hcont. unfold content. rewrite Hl', E2. unfold abs. subst t3. cbn [with_alimit with_array t_array t_node]. rewrite Habs.
    destruct (in_array (zlen (t_array t0)) b) eqn:Eo.
    + rewrite (abs_hash_none (t_node t0) b).
      2:{ intros i Hi. apply (ti_sep _ _ _ _ Ht0) in Hi. congruence. }
      cbn [over]. destruct (in_array new b) eqn:En; [by rewrite Hra, Eo|]. unfold slice_map. by rewrite Eo, En.
    + destruct (abs_hash (t_node t0) b); [done|]. cbn [over].
      destruct (in_array new b) eqn:En; [by rewrite Hra, Eo|]. unfold slice_map. by rewrite Eo.
Qed.

(** ** The sizes a rehash asks for *)

Definition key_cand (k : TValue) : list Z := match k with VInt i => cand i | _ => [] end.

Lemma upto_app n l1 l2 : upto n (l1 ++ l2) = upto n l1 + upto n l2.
Proof. apply cnt_app. Qed.

Lemma upto_pos n l : 0 <= upto n l.
Proof. apply cnt_pos. Qed.

(** A key goes to the array exactly if it is among the counted keys. *)
Lemma key_cand_upto size k a :
  stored k a -> size <= 2 ^ 31 -> upto size (key_cand k) = if in_array size a then 1 else 0.
Proof.
  intros Hst Hs. unfold upto. destruct k; cbn [key_cand];
    try (destruct Hst as (_ & [= <-] & _); done); [|by apply stored_flt in Hst as (_ & _ & _ & ->)].
  destruct Hst as (_ & [= <-] & _). unfold cand, in_array.
  destruct (Z.leb_spec 1 i), (Z.leb_spec i size), (Z.leb_spec i (2 ^ 31)); cbn [andb]; rewrite ?cnt_cons, ?cnt_nil;
    try lia; destruct (Z.leb_spec i size); lia.
Qed.

Lemma key_cand_ok k : forall c, c ∈ key_cand k -> candidate c.
Proof.
  unfold key_cand, cand, candidate. destruct k; try set_solver.
  destruct ((1 <=? i) && (i <=? 2 ^ 31)) eqn:E; [|set_solver]. intros c ->%list_elem_of_singleton. lia.
Qed.

Lemma node_cand_key n : node_cand n = if live n then match n_key n with KVal k => key_cand k | _ => [] end else [].
Proof. unfold node_cand. destruct (live n); [|done]. by destruct (n_key n) as [| |[]]. Qed.

Lemma hkeys_ok ns : forall c, c ∈ hkeys ns -> candidate c.
Proof.
  induction ns as [|n ns IH]; [set_solver|]. rewrite hkeys_cons, node_cand_key. intros c [Hc|Hc]%elem_of_app; [|by apply IH].
  destruct (live n); [|set_solver]. destruct (n_key n); [set_solver..|]. by eapply key_cand_ok.
Qed.

Lemma goes_hash_count ns size :
  Forall (node_ok seed strs) ns -> size <= 2 ^ 31 ->
  cnt (goes_hash size) ns = cnt live ns - upto size (hkeys ns).
Proof.
  intros Hok Hs. induction Hok as [|n ns Hn Hok IH]; [done|].
  rewrite !cnt_cons, hkeys_cons, upto_app, IH, node_cand_key. unfold goes_hash.
  destruct (live n) eqn:El; cbn [andb]; [|change (upto size []) with 0; lia].
  unfold node_key. destruct Hn as [_ Hn]. destruct (n_key n) as [| |k]; [change (upto size []) with 0; lia..|].
  destruct Hn as (a & Hst). rewrite (key_cand_upto size k a) by done. rewrite (proj1 (proj2 Hst)).
  destruct (in_array size a); cbn; lia.
Qed.

Lemma akeys_upto arr size old :
  0 <= size -> 0 <= old -> zlen (akeys arr (size + 1) old) = zlen (akeys arr 1 old) - upto size (akeys arr 1 old).
Proof.
  intros Hs Ho. assert (Hall : forall n, n <= size -> upto size (akeys arr 1 n) = zlen (akeys arr 1 n)).
  { intros n Hn. apply cnt_all. intros k [Hk _]%akeys_in. lia. }
  destruct (decide (size <= old)).
  - rewrite <-(akeys_app arr 1 size old) by lia. rewrite upto_app, length_app, Hall by lia.
    assert (upto size (akeys arr (size + 1) old) = 0); [|lia].
    apply cnt_none. intros k [Hk _]%akeys_in. lia.
  - rewrite akeys_nil, Hall by lia. cbn [length]. lia.
Qed.

(** The integer keys a rehash for [k] counts. *)
Definition all_cands (t : Table) (k : TValue) : list Z :=
  (akeys (t_array t) 1 (zlen (t_array t)) ++ hkeys (t_node t)) ++ key_cand k.

Definition array_use (t : Table) : Z := zlen (akeys (t_array t) 1 (zlen (t_array t))).

Lemma use_bounds t k :
  table_ok t -> 0 <= array_use t <= 2 ^ 29 /\ zlen (hkeys (t_node t)) <= cnt live (t_node t) <= 2 ^ 30 /\
  zlen (key_cand k) <= 1 /\ zlen (all_cands t k) = array_use t + zlen (hkeys (t_node t)) + zlen (key_cand k).
Proof.
  intros Ht. pose proof (proj1 (ti_asize _ _ _ _ Ht)) as Hold. pose proof (ti_hash _ _ _ _ Ht) as Hh.
  pose proof (akeys_length (t_array t) 1 (zlen (t_array t)) ltac:(lia)). unfold array_use. split_and!.
  - lia.
  - lia.
  - apply hkeys_length.
  - etransitivity; [apply cnt_le|]. rewrite (hi_len _ _ _ _ _ Hh).
    pose proof (hi_size _ _ _ _ _ Hh). pose proof (pow2_pos (t_lsizenode t)).
    pose proof (Z.pow_le_mono_r 2 (t_lsizenode t) 30). lia.
  - destruct k; cbn; try lia. apply cand_length.
  - unfold all_cands. rewrite !length_app. lia.
Qed.

Lemma rehash_counts_ok t k a :
  table_ok t -> t_alimit t = zlen (t_array t) -> stored k a ->
  exists nums, nums_ok (all_cands t k) nums /\
    rehash_sizes t k =
      '(size, na) ← computesizes nums (zlen (all_cands t k));
      Some (size, u32 (array_use t + cnt live (t_node t) + 1 - na)).
Proof.
  intros Ht Hlim Hst. pose proof (proj1 (ti_asize _ _ _ _ Ht)) as Hold. pose proof (ti_hash _ _ _ _ Ht) as Hh.
  destruct (use_bounds t k Ht) as (Hb1 & Hb2 & Hb3 & Hb4). unfold array_use, all_cands in *.
  unfold rehash_sizes. destruct (numusearray_ok t Hlim) as (nums1 & -> & Hn1); [lia|]. cbn [mbind option_bind].
  set (K1 := akeys (t_array t) 1 (zlen (t_array t))) in *.
  assert (Hint : forall n i, n ∈ t_node t -> n_key n = KVal (VInt i) -> in_s 64 i).
  { intros n i Hn Ek. apply list_elem_of_lookup in Hn as [j Ej].
    by destruct (hi_key _ _ _ _ _ Hh _ _ _ Ej Ek) as (? & ? & _). }
  destruct (numusehash_ok t K1 nums1 Hint Hn1) as (nums2 & -> & Hn2); [lia|]. cbn [mbind option_bind].
  set (K2 := hkeys (t_node t)) in *.
  rewrite (swrap_small 32 (zlen K1)) by (unfold in_s; lia).
  assert (Hi1 : int_ok (zlen K1 + cnt live (t_node t)) = true) by (unfold int_ok, INT_MAX; lia). rewrite Hi1.
  assert (Hc : exists nums3, (if ttisinteger k then match k with VInt i => countint i nums2 | _ => None end else Some (nums2, 0)) =
    Some (nums3, zlen (key_cand k)) /\ nums_ok ((K1 ++ K2) ++ key_cand k) nums3).
  { destruct k; cbn [ttisinteger key_cand]; try (exists nums2; by rewrite app_nil_r).
    apply countint_ok; [done|apply Hst|]. rewrite length_app. lia. }
  destruct Hc as (nums3 & -> & Hn3). cbn [mbind option_bind]. exists nums3. split; [done|].
  assert (Hi2 : int_ok (zlen K1 + cnt live (t_node t) + 1) = true) by (unfold int_ok, INT_MAX; lia). rewrite Hi2.
  rewrite wrap_add_l, wrap_small by (unfold in_u; lia). by rewrite Hb4.
Qed.

Lemma rehash_sizes_ok t k a :
  table_ok t -> t_alimit t = zlen (t_array t) -> stored k a ->
  exists size nh, rehash_sizes t k = Some (size, nh) /\ best_size (all_cands t k) size /\
    0 <= size /\ 0 <= nh < 2 ^ 32 /\ nh = hash_need t size + (if in_array size a then 0 else 1).
Proof.
  intros Ht Hlim Hst. destruct (rehash_counts_ok t k a Ht Hlim Hst) as (nums & Hn & ->).
  destruct (use_bounds t k Ht) as (Hb1 & Hb2 & Hb3 & Hb4). pose proof (proj1 (ti_asize _ _ _ _ Ht)) as Hold.
  destruct (computesizes_ok (all_cands t k) nums Hn) as (size & -> & Hbest); [|lia|].
  { intros c. unfold all_cands. rewrite !elem_of_app. intros [[[? _]%akeys_in|Hc]|Hc].
    - unfold candidate. lia.
    - by eapply hkeys_ok.
    - by eapply key_cand_ok. }
  cbn [mbind option_bind]. exists size.
  assert (Hsize : 0 <= size <= 2 ^ 31).
  { destruct Hbest as [[->|(p & Hp & -> & _)] _]; [lia|]. split; [lia|]. apply Z.pow_le_mono_r; lia. }
  unfold hash_need. pose proof (akeys_upto (t_array t) size (zlen (t_array t)) ltac:(lia) ltac:(lia)) as Hu1.
  pose proof (goes_hash_count (t_node t) size ltac:(apply Ht) ltac:(lia)) as Hu2.
  pose proof (key_cand_upto size k a Hst ltac:(lia)) as Hu3.
  assert (upto size (all_cands t k) = upto size (akeys (t_array t) 1 (zlen (t_array t))) +
    upto size (hkeys (t_node t)) + upto size (key_cand k)) as Hu by (unfold all_cands; by rewrite !upto_app).
  pose proof (upto_le (all_cands t k) size). pose proof (upto_pos size (all_cands t k)). unfold array_use in *.
  eexists. split; [done|]. rewrite wrap_small by (unfold in_u; lia). split_and!; try done; try lia.
  destruct (in_array size a); lia.
Qed.

(** ** Assignment *)

(** An assignment to the absent key [a] fails: the array of the best size or the nodes for
    all other keys cannot be had. *)
Definition no_room (t : Table) (a : akey) (e : string) : Prop :=
  exists k size, stored k a /\ best_size (all_cands t k) size /\
    refused size (hash_need t size + (if in_array size a then 0 else 1)) e.

Lemma no_room_ext t t1 a e : t_array t1 = t_array t -> t_node t1 = t_node t -> no_room t1 a e -> no_room t a e.
Proof. unfold no_room, all_cands, hash_need. by intros -> ->. Qed.

(** A rehash for [k] fails with the content unchanged, or leaves room for [k]. *)
Lemma rehash_ok fuel t k a :
  (forall n, alloc_array n = true -> n <= 2 ^ 29) ->
  table_ok t -> stored k a ->
  (exists t' e, rehash alloc_node alloc_array (newkey (S fuel)) t k = Throw t' e /\
     table_ok t' /\ (forall b, content t' b = content t b) /\ no_room t a e) \/
  (exists t', rehash alloc_node alloc_array (newkey (S fuel)) t k = Ret t' tt /\
     table_ok t' /\ (forall b, content t' b = content t b) /\
     (in_array (zlen (t_array t')) a = true \/ 0 < room t')).
Proof.
  intros Halloc Ht Hst. unfold rehash. destruct (setlimit_ok t Ht) as (Ht0 & Hlim & Hreal & Harr & Hcont & Hns).
  set (t0 := setlimittosize t) in *. clearbody t0. rewrite <-Harr in Hlim.
  destruct (rehash_sizes_ok t0 k a Ht0 Hlim Hst) as (size & nh & -> & Hbest & Hs & Hnh & Hneed). cbn [lift].
  destruct (resize_ok fuel t0 size nh Halloc Ht0 Hs Hnh) as [(t' & e & -> & Ht' & Hc & Href)|(t' & -> & Ht' & Hc & Hl & Hr)].
  - destruct (in_array size a); lia.
  - left. exists t', e. split_and!; try done; [intros b; by rewrite Hc|]. apply (no_room_ext t t0); [done..|].
    exists k, size. split_and!; [done|done|]. by rewrite <- Hneed.
  - right. exists t'. split_and!; try done; [intros b; by rewrite Hc|]. rewrite Hl.
    destruct (in_array size a); [by left|right; lia].
Qed.

Lemma updated_ok t t' a v :
  updated (zlen (t_array t)) t t' a v ->
  table_ok t' /\ forall b, content t' b = if decide (b = a) then present v else content t b.
Proof. intros [U1 U2 U3 _ _ _]. unfold table_ok, content. by rewrite U3. Qed.

(** What an assignment of [v] to [a] may do. *)
Definition assigned (t : Table) (a : akey) (v : TValue) (r : outcome Table unit) : Prop :=
  match r with
  | Ret t' _ => table_ok t' /\ forall b, content t' b = if decide (b = a) then present v else content t b
  | Throw t' e => table_ok t' /\ (forall b, content t' b = content t b) /\ content t a = None /\ no_room t a e
  | Stuck => False
  end.

Lemma assigned_ext t t1 a v r :
  (forall b, content t1 b = content t b) -> t_array t1 = t_array t -> t_node t1 = t_node t ->
  assigned t1 a v r -> assigned t a v r.
Proof.
  intros Hc Ea En. destruct r as [t' []|t' e|]; cbn; [| |done].
  - intros [Ht Ha]. split; [done|]. intros b. rewrite Ha. case_decide; [done|apply Hc].
  - intros (Ht & Ha & Hn & Hr). split_and!; [done|intros b; by rewrite Ha|by rewrite <-Hc|by eapply no_room_ext].
Qed.

Lemma newkey_ok fuel t k a v :
  (forall n, alloc_array n = true -> n <= 2 ^ 29) ->
  table_ok t -> wf_key k -> akey_of k = Some a -> v <> VEmpty -> v <> VAbstKey ->
  in_array (zlen (t_array t)) a = false -> (forall i, nkey_at (t_node t) i <> Some a) ->
  assigned t a v (newkey (S (S fuel)) t k v).
Proof.
  intros Halloc Ht Hw Hk He Hab Hin Hno.
  assert (content t a = None) as Hnone by (unfold content, abs; by rewrite Hin, abs_hash_none).
  destruct (isempty v) eqn:Hv.
  { destruct (normkey_ok _ _ k a Hw Hk) as (k' & Hn & _). cbn [luaH_newkey]. rewrite Hn.
    change (ttisnil v) with (isempty v). rewrite Hv. split; [done|]. intros b. case_decide; [|done]. subst.
    unfold present. by rewrite Hv. }
  destruct (newkey_cases _ _ alloc_node alloc_array (S fuel) _ t k a v Ht Hw Hk Hno Hv)
    as [(ns' & lf' & -> & Hlf & Hins)|(lf & k' & Hst & Hh & Hf & Hlf & ->)].
  - by apply updated_ok, inserted_updated.
  - assert (Ht1 : table_ok (with_lastfree t lf)) by (destruct Ht; by constructor).
    destruct (rehash_ok fuel (with_lastfree t lf) k' a Halloc Ht1 Hst) as [(t' & e & -> & Ht' & Hc & Hr)|(t' & -> & Ht' & Hc & Hr)].
    + cbn. split_and!; done.
    + cbn [obind]. destruct (set_room fuel _ t' k' a v Ht') as (t2 & -> & Hup); [apply Hst|apply Hst|done|done|].
      apply updated_ok in Hup as [Ht2 Hc2]. split; [done|]. intros b. rewrite Hc2. case_decide; [done|apply Hc].
Qed.

(** Assignment: the map is updated, or an error leaves it as it was. *)
Lemma set_ok fuel t k a v :
  (forall n, alloc_array n = true -> n <= 2 ^ 29) ->
  table_ok t -> wf_key k -> akey_of k = Some a -> v <> VEmpty -> v <> VAbstKey ->
  assigned t a v (set_with (newkey (S (S fuel))) t k v).
Proof.
  intros Halloc Ht Hw Hk He Hab. destruct (get_ok _ _ _ t k a Ht Hw Hk) as (t1 & sl & Eg & Hsame & Hsl).
  destruct (same_but_limit_inv _ _ _ _ _ Hsame Ht) as [Ht1 Hc1].
  assert (Harr : t_array t1 = t_array t) by (by destruct Hsame as (x & -> & _)).
  assert (Hok1 : table_ok t1) by (unfold table_ok; by rewrite Harr).
  assert (Hcont : forall b, content t1 b = content t b) by (intros b; unfold content; by rewrite Harr, Hc1).
  destruct (slot_for_val _ _ _ _ _ _ Ht1 Hsl) as (w & Ew & _ & Hw0).
  unfold set_with. rewrite Eg. cbn [lift]. unfold finishset. rewrite Ew. cbn [lift].
  apply (assigned_ext t t1); [done|done|by destruct Hsame as (x & -> & _)|]. destruct (decide (sl = SAbsent)) as [->|Hne].
  - assert (w = VAbstKey) as -> by (by apply Hw0). cbn [isabstkey]. destruct Hsl as [Hin Hno].
    apply newkey_ok; try done. by rewrite Harr.
  - assert (isabstkey w = false) as -> by (destruct w; try done; by destruct Hne; apply Hw0).
    rewrite <-Harr in Ht1, Hsl. destruct (set_slot_ok _ t1 a sl v Ht1 Hsl Hne Hab) as (t' & -> & Hup).
    by apply updated_ok.
Qed.
End Resize.
End TableResize.
