(* ===== verification/TableLen.v ===== *)
(** * The length of a table

    [luaH_getn] and its searches ([binsearch], [hash_search]) find a border: an
    index that is present, or 0, whose successor is absent. *)

From S2P Require Import Prelude CFloat LuaValue LuaNumber LuaObject LuaTable TableInv TableInsert TableCount TableResize.

Module TableLen.
Import CFloat LuaValue LuaNumber LuaObject LuaTable TableInv TableInsert TableCount TableResize.
Open Scope list_scope.
Open Scope Z_scope.

Section Len.
Context (seed : Z) (strs : Z -> list Z).
Abbreviation table_ok := (TableResize.table_ok seed strs).

Definition there (t : Table) (k : Z) : Prop := content t (AInt k) <> None.

(** A border of [t]; the largest integer has no successor. *)
Definition border (t : Table) (n : Z) : Prop :=
  0 <= n <= LUA_MAXINTEGER /\ (n = 0 \/ there t n) /\ (n = LUA_MAXINTEGER \/ ~ there t (n + 1)).

(** ** The array part *)

Lemma there_array t k : 1 <= k <= zlen (t_array t) -> (there t k <-> filled (t_array t) k = true).
Proof.
  intros Hk. unfold there, content, abs. rewrite (proj2 (in_array_int _ _)) by done.
  unfold abs_array, filled. destruct (array_get (t_array t) (k - 1)) as [v|]; cbn; [|by split; intros].
  unfold present. destruct (isempty v); cbn; split; intros; congruence.
Qed.

Lemma array_empty_ok arr k : 1 <= k <= zlen arr -> array_empty arr (k - 1) = Some (negb (filled arr k)).
Proof.
  intros Hk. unfold array_empty, filled.
  destruct (array_get arr (k - 1)) as [v|] eqn:E; cbn; [by rewrite negb_involutive|].
  unfold array_get in E. rewrite (proj2 (Z.ltb_ge _ 0)) in E by lia. apply lookup_ge_None in E. lia.
Qed.

Lemma binsearch_ok arr fuel : forall i j,
  0 <= i < j -> j <= zlen arr -> zlen arr <= 2 ^ 29 -> j - i <= 2 ^ Z.of_nat fuel ->
  (i = 0 \/ filled arr i = true) -> filled arr j = false ->
  exists m, binsearch fuel arr i j = Some m /\ i <= m < j /\ (m = 0 \/ filled arr m = true) /\ filled arr (m + 1) = false.
Proof.
  induction fuel as [|fuel IH]; intros i j Hij Hj Hl Hf Hi Hjf; cbn [binsearch].
  all: destruct (Z.gtb_spec (j - i) 1) as [Hgt|Hle].
  all: try (assert (j = i + 1) as -> by lia; exists i; split_and!; done || lia).
  rewrite (wrap_small 32) by (unfold in_u; lia). set (m := (i + j) / 2).
  assert (i < m < j /\ m - i <= 2 ^ Z.of_nat fuel /\ j - m <= 2 ^ Z.of_nat fuel) as (Hm & Hb1 & Hb2).
  { rewrite Nat2Z.inj_succ, Z.pow_succ_r in Hf by lia. subst m. Z.div_mod_to_equations. lia. }
  clearbody m. rewrite array_empty_ok by lia. cbn [mbind option_bind].
  destruct (filled arr m) eqn:Em; cbn [negb].
  - destruct (IH m j) as (r & -> & Hr & Hr2); [lia..|by right|done|]. exists r. split_and!; try done; try lia; apply Hr2.
  - destruct (IH i m) as (r & -> & Hr & Hr2); [lia..|done|done|]. exists r. split_and!; try done; try lia; apply Hr2.
Qed.

(** ** The hash part *)

(** The table a search leaves. *)
Definition searched (t t' : Table) : Prop :=
  table_ok t' /\ (forall b, content t' b = content t b) /\ t_array t' = t_array t.

Lemma searched_there t t' k : searched t t' -> (there t' k <-> there t k).
Proof. intros (_ & Hc & _). unfold there. by rewrite Hc. Qed.

Lemma searched_refl t : table_ok t -> searched t t.
Proof. done. Qed.

Lemma border_here t i : 1 <= i < LUA_MAXINTEGER -> there t i -> ~ there t (i + 1) -> border t i.
Proof. intros. split_and!; [lia|lia|by right|by right]. Qed.

Lemma searched_trans t1 t2 t3 : searched t1 t2 -> searched t2 t3 -> searched t1 t3.
Proof. intros (? & H1 & ?) (? & H2 & ?). split_and!; [done| |congruence]. intros b. by rewrite H2. Qed.

Lemma getint_empty_ok t k :
  table_ok t -> in_s 64 k ->
  exists t' e, getint_empty t k = Some (t', e) /\ searched t t' /\ (e = false <-> there t k).
Proof.
  intros Ht Hk. destruct (getint_ok _ _ _ t k Ht Hk) as (t' & sl & Eg & Hsame & Hsl).
  destruct (same_but_limit_inv _ _ _ _ _ Hsame Ht) as [Ht' Hc].
  assert (Harr : t_array t' = t_array t) by (by destruct Hsame as (x & -> & _)).
  destruct (slot_for_val _ _ _ _ _ _ Ht' Hsl) as (w & Ew & Hw & _).
  unfold getint_empty. rewrite Eg. cbn [mbind option_bind]. rewrite Ew. cbn [mbind option_bind].
  exists t', (isempty w). split; [done|]. split.
  - split_and!; [unfold TableResize.table_ok; by rewrite Harr| |done]. intros b. unfold content. by rewrite Harr, Hc.
  - unfold there, content. rewrite <-Hc, <-Hw. unfold present. destruct (isempty w); split; intros; congruence.
Qed.

Lemma hash_binsearch_ok fuel : forall t i j,
  table_ok t -> 1 <= i < j -> j <= LUA_MAXINTEGER -> j - i <= 2 ^ Z.of_nat fuel -> there t i -> ~ there t j ->
  exists t' m, hash_binsearch fuel t i j = Some (t', m) /\ searched t t' /\ border t m.
Proof.
  unfold LUA_MAXINTEGER.
  induction fuel as [|fuel IH]; intros t i j Ht Hij Hj Hf Hi Hjn; cbn [hash_binsearch].
  all: destruct (Z.gtb_spec (j - i) 1) as [Hgt|Hle].
  all: try (assert (j = i + 1) as -> by lia; exists t, i; split; [done|];
            split; [done|apply border_here; unfold LUA_MAXINTEGER; done || lia]).
  { change (2 ^ Z.of_nat 0) with 1 in Hf. lia. }
  rewrite (wrap_small 64) by (unfold in_u; lia). set (m := (i + j) / 2).
  assert (i < m < j /\ m - i <= 2 ^ Z.of_nat fuel /\ j - m <= 2 ^ Z.of_nat fuel) as (Hm & Hb1 & Hb2).
  { rewrite Nat2Z.inj_succ, Z.pow_succ_r in Hf by lia. subst m. Z.div_mod_to_equations. lia. }
  clearbody m. destruct (getint_empty_ok t m Ht) as (t1 & e & -> & Hs & He); [unfold in_s; lia|]. cbn [mbind option_bind].
  assert (Hgo : forall i' j', 1 <= i' < j' -> j' <= j -> j' - i' <= 2 ^ Z.of_nat fuel -> there t i' -> ~ there t j' ->
    exists t' m, hash_binsearch fuel t1 i' j' = Some (t', m) /\ searched t t' /\ border t m).
  { intros i' j' H1 H2 H3 H4 H5. destruct (IH t1 i' j') as (t' & r & -> & Hs' & Hb).
    - apply Hs.
    - done.
    - lia.
    - done.
    - by apply (searched_there t t1).
    - by rewrite (searched_there t t1).
    - exists t', r. split_and!; [done|by eapply searched_trans|]. unfold border in *. by rewrite <-!(searched_there t t1). }
  destruct e; apply Hgo; try lia; try done.
  - intros Hm'. apply He in Hm'. done.
  - by apply He.
Qed.

Lemma hash_double_ok fuel : forall t j,
  table_ok t -> 1 <= j <= LUA_MAXINTEGER -> 2 ^ (64 - Z.of_nat fuel) <= j -> (fuel <= 64)%nat -> there t j ->
  exists t' r, hash_double fuel t j = Some (t', r) /\ searched t t' /\
    match r with
    | inl (i, j) => 1 <= i < j /\ j <= LUA_MAXINTEGER /\ there t i /\ ~ there t j
    | inr j => border t j
    end.
Proof.
  induction fuel as [|fuel IH]; intros t j Ht Hj Hp Hf Hth; cbn [hash_double].
  { change (2 ^ (64 - Z.of_nat 0)) with (2 ^ 64) in Hp. unfold LUA_MAXINTEGER in Hj. lia. }
  assert (E : LUA_MAXINTEGER / 2 = 2 ^ 62 - 1) by done. rewrite E. unfold LUA_MAXINTEGER in Hj.
  destruct (Z.leb_spec j (2 ^ 62 - 1)).
  - destruct (getint_empty_ok t (j * 2) Ht) as (t1 & e & -> & Hs & He); [unfold in_s; lia|]. cbn [mbind option_bind].
    destruct e.
    + exists t1, (inl (j, j * 2)). split_and!; try done; unfold LUA_MAXINTEGER; try lia. intros Hn. apply He in Hn. done.
    + destruct (IH t1 (j * 2)) as (t' & r & -> & Hs' & Hr).
      * apply Hs.
      * unfold LUA_MAXINTEGER. lia.
      * replace (64 - Z.of_nat fuel) with (Z.succ (64 - Z.of_nat (S fuel))) by lia. rewrite Z.pow_succ_r by lia. lia.
      * lia.
      * apply (searched_there t t1 _ Hs). by apply He.
      * exists t', r. split_and!; [done|by eapply searched_trans|].
        destruct r as [[i' j']|m]; [by rewrite <-!(searched_there t t1)|]. unfold border in *. by rewrite <-!(searched_there t t1).
  - destruct (getint_empty_ok t LUA_MAXINTEGER Ht) as (t1 & e & -> & Hs & He); [unfold in_s, LUA_MAXINTEGER; lia|].
    cbn [mbind option_bind]. destruct e.
    + exists t1, (inl (j, LUA_MAXINTEGER)). assert (~ there t LUA_MAXINTEGER) as Hn by (intros Hn; by apply He in Hn).
      assert (j <> LUA_MAXINTEGER) by (by intros ->). split_and!; try done; unfold LUA_MAXINTEGER in *; lia.
    + exists t1, (inr LUA_MAXINTEGER). split; [done|]. split; [done|]. split; [unfold LUA_MAXINTEGER; lia|].
      split; [right; by apply He|by left].
Qed.

Lemma hash_search_ok t j :
  table_ok t -> 0 <= j < LUA_MAXINTEGER -> (j = 0 \/ there t j) -> there t (j + 1) ->
  exists t' m, hash_search t j = Some (t', m) /\ searched t t' /\ border t m.
Proof.
  intros Ht Hj Hth Hth1. unfold hash_search. set (j1 := if j =? 0 then j + 1 else j).
  assert (1 <= j1 <= LUA_MAXINTEGER /\ there t j1) as [Hj1 Ht1].
  { subst j1. destruct (Z.eqb_spec j 0); [split; [lia|done]|]. split; [lia|]. by destruct Hth. }
  clearbody j1. destruct (hash_double_ok 64 t j1 Ht Hj1) as (t1 & r & -> & Hs & Hr); [done || lia|done|done|].
  cbn [mbind option_bind]. destruct r as [[i j']|m]; [|by exists t1, m].
  destruct Hr as (Hij & Hj' & Hi & Hn).
  destruct (hash_binsearch_ok 64 t1 i j') as (t' & m & -> & Hs' & Hb); try done.
  - apply Hs.
  - unfold LUA_MAXINTEGER in *. change (2 ^ Z.of_nat 64) with (2 ^ 64). lia.
  - by rewrite (searched_there t t1).
  - by rewrite (searched_there t t1).
  - exists t', m. split_and!; [done|by eapply searched_trans|]. unfold border in *. by rewrite <-!(searched_there t t1).
Qed.

(** Part (3): the array is full to its end. *)
Lemma getn_hash_ok t :
  let s := zlen (t_array t) in
  table_ok t -> (s = 0 \/ filled (t_array t) s = true) ->
  exists t' n, getn_hash t s = Some (t', n) /\ searched t t' /\ border t n.
Proof.
  intros s Ht Hf. pose proof (proj1 (ti_asize _ _ _ _ Ht)) as Hs. fold s in Hs.
  assert (Hths : s = 0 \/ there t s).
  { destruct (decide (s = 0)); [by left|right]. destruct Hf; [done|]. apply there_array; [subst s; lia|done]. }
  unfold getn_hash, isdummy. destruct (t_lastfree t) eqn:Elf.
  - rewrite (wrap_small 32) by (unfold in_u; lia).
    destruct (getint_empty_ok t (s + 1) Ht) as (t1 & e & -> & Hs1 & He); [unfold in_s; lia|]. cbn [mbind option_bind].
    destruct e.
    + exists t1, s. split; [done|]. split; [done|]. split; [unfold LUA_MAXINTEGER; lia|]. split; [done|].
      right. intros Hn. by apply He in Hn.
    + destruct (hash_search_ok t1 s) as (t' & m & -> & Hs' & Hb).
      * apply Hs1.
      * unfold LUA_MAXINTEGER. lia.
      * by rewrite (searched_there t t1).
      * apply (searched_there t t1 _ Hs1). by apply He.
      * exists t', m. split_and!; [done|by eapply searched_trans|]. unfold border in *. by rewrite <-!(searched_there t t1).
  - exists t, s. split; [done|]. split; [done|]. split; [unfold LUA_MAXINTEGER; lia|]. split; [done|]. right.
    unfold there, content, abs. pose proof (hi_free _ _ _ _ _ (ti_hash _ _ _ _ Ht)) as Hd. rewrite Elf in Hd.
    assert (in_array s (AInt (s + 1)) = false) as E by (apply not_true_iff_false; rewrite in_array_int; lia).
    fold s. rewrite E, Hd. by intros H.
Qed.

(** *** New limits *)

Lemma ispow2_inv x : 0 < x < 2 ^ 32 -> ispow2 x = true -> exists p, 0 <= p < 32 /\ x = 2 ^ p.
Proof.
  intros Hx Hp. exists (Z.log2 x). pose proof (Z.log2_spec x ltac:(lia)) as Hl. pose proof (Z.log2_nonneg x).
  assert (Z.log2 x < 32) by (apply Z.log2_lt_pow2; lia). split; [lia|].
  destruct (decide (x = 2 ^ Z.log2 x)); [done|]. rewrite (ispow2_between x (Z.log2 x)) in Hp; [done|lia|].
  rewrite Z.add_1_r. lia.
Qed.

(** A limit in the upper half of an array whose size is a power of two. *)
Lemma new_limit t s x :
  asize_ok (t_real t) (t_alimit t) s -> ispow2realasize t = true -> 0 < s -> x <= s < 2 * x -> asize_ok false x s.
Proof.
  intros [Hs Ha] Hp Hpos Hx. split; [done|]. unfold ispow2realasize in Hp. destruct (t_real t); cbn in Hp.
  - rewrite Ha in Hp. apply ispow2_inv in Hp as (p & Hp & ->); [|lia]. exists p. split_and!; lia.
  - destruct Ha as (p & Hp' & -> & _). exists p. split_and!; lia.
Qed.

Lemma relimit_ok t real x :
  table_ok t -> asize_ok real x (zlen (t_array t)) -> searched t (with_real (with_alimit t x) real).
Proof. intros [] Ha. split_and!; by try constructor. Qed.

Lemma border_array t n :
  zlen (t_array t) <= 2 ^ 29 -> 0 <= n < zlen (t_array t) -> (n = 0 \/ filled (t_array t) n = true) ->
  filled (t_array t) (n + 1) = false -> border t n.
Proof.
  intros Hl Hn Hf Hf1. split; [unfold LUA_MAXINTEGER; lia|]. split.
  - destruct (decide (n = 0)); [by left|right]. apply there_array; [lia|]. by destruct Hf.
  - right. rewrite there_array by lia. by rewrite Hf1.
Qed.

Lemma half_lt s m : s / 2 < m -> s < 2 * m.
Proof. intros H. Z.div_mod_to_equations. lia. Qed.

Lemma pow2_size t s :
  asize_ok (t_real t) (t_alimit t) s -> ispow2realasize t = true -> 0 < s ->
  exists p, 0 <= p < 32 /\ s = 2 ^ p /\ s < 2 * t_alimit t.
Proof.
  intros [Hs Ha] Hp Hpos. unfold ispow2realasize in Hp. destruct (t_real t); cbn in Hp.
  - rewrite Ha in *. apply ispow2_inv in Hp as (p & Hp & E); [|lia]. exists p. split_and!; done || lia.
  - destruct Ha as (p & Hp' & E & Hx). exists p. split_and!; try done; [|lia].
    apply (Z.pow_lt_mono_r_iff 2); lia.
Qed.

Lemma limit_minus_one t s :
  asize_ok (t_real t) (t_alimit t) s -> ispow2realasize t = true -> 2 <= t_alimit t -> ispow2 (t_alimit t - 1) = false ->
  s < 2 * (t_alimit t - 1).
Proof.
  intros Has Hp Hx Hn. pose proof (asize_limit _ _ _ Has). destruct (pow2_size t s Has Hp) as (p & Hp' & E & Hlt); [lia|].
  destruct (decide (p = 0)) as [->|]; [simpl in E; lia|]. pose proof (pow2_split p ltac:(lia)).
  destruct (decide (t_alimit t - 1 = 2 ^ (p - 1))) as [E'|]; [|lia].
  rewrite E', ispow2_pow in Hn by lia. done.
Qed.

(** The search with the fuel of [luaH_getn], as a function to abstract over. *)
Definition finds_border (bs : list TValue -> Z -> Z -> option Z) : Prop := forall arr i j,
  0 <= i < j -> j <= zlen arr -> zlen arr <= 2 ^ 29 ->
  (i = 0 \/ filled arr i = true) -> filled arr j = false ->
  exists m, bs arr i j = Some m /\ i <= m < j /\ (m = 0 \/ filled arr m = true) /\ filled arr (m + 1) = false.

Lemma binsearch_finds : finds_border (binsearch 33).
Proof.
  intros arr i j Hij Hj Hl Hi Hjf. assert (j - i <= 2 ^ Z.of_nat 33) by (transitivity (2 ^ 29); [lia|done]).
  by apply binsearch_ok.
Qed.

(** Part (1): the element at the limit is empty. *)
Lemma getn_before t :
  table_ok t -> 0 < t_alimit t -> filled (t_array t) (t_alimit t) = false ->
  exists t' n, luaH_getn t = Some (t', n) /\ searched t t' /\ border t n.
Proof.
  intros Ht Hpos Hf. pose proof (asize_limit _ _ _ (ti_asize _ _ _ _ Ht)) as Hlim.
  pose proof (ti_asize _ _ _ _ Ht) as Has. pose proof (proj1 Has) as Hs.
  pose proof binsearch_finds as Hbs. unfold luaH_getn. revert Hbs. generalize (binsearch 33). intros bs Hbs.
  rewrite (proj2 (Z.gtb_lt (t_alimit t) 0)) by lia.
  rewrite (array_empty_ok (t_array t) (t_alimit t)) by lia. rewrite Hf. cbn [negb mbind option_bind].
  rewrite (realasize_ok t _ Has). destruct ((t_alimit t >=? 2) && filled (t_array t) (t_alimit t - 1)) eqn:E2.
  - apply andb_prop in E2 as [E2 Ef]. rewrite E2. apply Z.geb_le in E2.
    replace (t_alimit t - 2) with (t_alimit t - 1 - 1) by lia.
    rewrite (array_empty_ok (t_array t) (t_alimit t - 1)) by lia. rewrite Ef. cbn [negb mbind option_bind].
    assert (Hb : border t (t_alimit t - 1)) by (apply border_array; [lia|lia|by right|by rewrite Z.sub_add]).
    destruct (ispow2realasize t && negb (ispow2 (t_alimit t - 1))) eqn:Ep; [|by exists t, (t_alimit t - 1)].
    apply andb_prop in Ep as [Ep En]. apply negb_true_iff in En. eexists _, (t_alimit t - 1).
    split; [done|]. split; [|done]. apply relimit_ok; [done|]. apply (new_limit t); [done|done|lia|].
    pose proof (limit_minus_one t _ Has Ep E2 En). lia.
  - assert (He2 : (if t_alimit t >=? 2 then e ← array_empty (t_array t) (t_alimit t - 2); Some (negb e) else Some false) = Some false).
    { destruct (t_alimit t >=? 2) eqn:Eg; [|done]. apply Z.geb_le in Eg. cbn [andb] in E2.
      replace (t_alimit t - 2) with (t_alimit t - 1 - 1) by lia. rewrite array_empty_ok by lia. by rewrite E2. }
    rewrite He2. cbn [mbind option_bind].
    destruct (Hbs (t_array t) 0 (t_alimit t)) as (m & -> & Hm & Hm1 & Hm2); [lia|lia|lia|by left|done|].
    cbn [mbind option_bind]. assert (Hb : border t m) by (apply border_array; done || lia).
    destruct (ispow2realasize t && (m >? zlen (t_array t) / 2)) eqn:Ep; [|by exists t, m].
    apply andb_prop in Ep as [Ep Em]. apply Z.gtb_lt in Em. eexists _, m. split; [done|]. split; [|done].
    apply relimit_ok; [done|]. apply (new_limit t); [done|done|lia|].
    apply half_lt in Em. lia.
Qed.

(** Parts (2) and (3): the element at the limit is there, or the limit is 0. *)
Lemma getn_after t :
  table_ok t -> (t_alimit t = 0 \/ filled (t_array t) (t_alimit t) = true) ->
  exists t' n, luaH_getn t = Some (t', n) /\ searched t t' /\ border t n.
Proof.
  intros Ht Hf. pose proof (ti_asize _ _ _ _ Ht) as Has. pose proof (asize_limit _ _ _ Has) as Hlim.
  pose proof (proj1 Has) as Hs. pose proof binsearch_finds as Hbs. unfold luaH_getn.
  revert Hbs. generalize (binsearch 33). intros bs Hbs.
  assert (He1 : (if t_alimit t >? 0 then array_empty (t_array t) (t_alimit t - 1) else Some false) = Some false).
  { destruct (Z.gtb_spec (t_alimit t) 0); [|done]. rewrite array_empty_ok by lia. destruct Hf as [?|Hf]; [lia|]. by rewrite Hf. }
  rewrite He1. cbn [mbind option_bind]. rewrite (realasize_ok t _ Has).
  destruct (limitequalsasize t) eqn:El; cbn [negb].
  - assert (t_alimit t = zlen (t_array t)) as Es.
    { rewrite <-(realasize_ok t _ Has). unfold luaH_realasize. by rewrite El. }
    rewrite Es. apply getn_hash_ok; [done|]. by rewrite <-Es.
  - unfold limitequalsasize in El. apply orb_false_iff in El as [Er Ep].
    assert (t_alimit t <> 0) by (intros E; by rewrite E in Ep). destruct Hf as [|Hf]; [done|].
    pose proof Has as [_ Ha]. rewrite Er in Ha. destruct Ha as (p & Hp & Es & Hx).
    assert (t_alimit t <> zlen (t_array t)).
    { intros E. rewrite E, Es, ispow2_pow in Ep; [done|]. split; [done|]. apply (Z.pow_lt_mono_r_iff 2); lia. }
    assert (array_empty (t_array t) (t_alimit t) = Some (negb (filled (t_array t) (t_alimit t + 1)))) as ->
      by (rewrite <-array_empty_ok by lia; by rewrite Z.add_simpl_r). cbn [mbind option_bind].
    destruct (filled (t_array t) (t_alimit t + 1)) eqn:Ef1; cbn [negb].
    + rewrite (array_empty_ok (t_array t) (zlen (t_array t))) by lia. cbn [mbind option_bind].
      destruct (filled (t_array t) (zlen (t_array t))) eqn:Efs; cbn [negb].
      * apply getn_hash_ok; [done|by right].
      * destruct (Hbs (t_array t) (t_alimit t) (zlen (t_array t))) as (m & -> & Hm & Hm1 & Hm2);
          [lia|lia|lia|by right|done|].
        cbn [mbind option_bind]. eexists _, m. split; [done|]. split; [|apply border_array; done || lia].
        replace (with_alimit t m) with (with_real (with_alimit t m) false) by (unfold with_real, with_alimit; by rewrite Er).
        apply relimit_ok; [done|]. split; [done|]. exists p. split_and!; done || lia.
    + exists t, (t_alimit t). split; [done|]. split; [done|]. apply border_array; [lia|lia|by right|done].
Qed.

Lemma getn_ok t :
  table_ok t ->
  exists t' n, luaH_getn t = Some (t', n) /\ border t n /\ table_ok t' /\ forall b, content t' b = content t b.
Proof.
  intros Ht.
  pose proof (asize_limit _ _ _ (ti_asize _ _ _ _ Ht)) as Hlim.
  destruct (decide (t_alimit t = 0 \/ filled (t_array t) (t_alimit t) = true)) as [Hf|Hf].
  - destruct (getn_after t Ht Hf) as (t' & n & E & (H1 & H2 & _) & Hb). by exists t', n.
  - destruct (getn_before t Ht) as (t' & n & E & (H1 & H2 & _) & Hb).
    + destruct (decide (t_alimit t = 0)); [by destruct Hf; left|lia].
    + apply not_true_iff_false. intros E. apply Hf. by right.
    + by exists t', n.
Qed.
End Len.
End TableLen.
