(* ===== verification/TableNext.v ===== *)
(** * Traversal of a table

    [luaH_next] goes through the array part and then the nodes; repeated from nil
    it visits every entry of the map exactly once. *)

From S2P Require Import Prelude CFloat LuaValue LuaNumber LuaObject LuaTable TableInv TableInsert TableCount TableResize.

Module TableNext.
Import CFloat LuaValue LuaNumber LuaObject LuaTable TableInv TableInsert TableCount TableResize.
Open Scope list_scope.
Open Scope Z_scope.

(** ** The slots in order of traversal *)

Definition array_slot (i : nat) (v : TValue) : option (TValue * TValue) :=
  if isempty v then None else Some (VInt (Z.of_nat i + 1), v).

Definition node_entry (n : Node) : option (TValue * TValue) :=
  if isempty (n_val n) then None else k ← nodekey n; Some (k, n_val n).

Definition slots (t : Table) : list (option (TValue * TValue)) :=
  imap array_slot (t_array t) ++ map node_entry (t_node t).

Definition entry (t : Table) (p : nat) : option (TValue * TValue) := mjoin (slots t !! p).

(** The entries of a table in order. *)
Definition entries (t : Table) : list (TValue * TValue) := omap id (slots t).

Lemma entry_array t p v : t_array t !! p = Some v -> entry t p = array_slot p v.
Proof.
  intros E. unfold entry, slots. rewrite lookup_app_l by (rewrite length_imap; by apply lookup_lt_Some in E).
  by rewrite list_lookup_imap, E.
Qed.

Lemma entry_node t p n : t_node t !! p = Some n -> entry t (length (t_array t) + p) = node_entry n.
Proof.
  intros E. unfold entry, slots. rewrite lookup_app_r by (rewrite length_imap; lia).
  rewrite length_imap, Nat.add_comm, Nat.add_sub, list_lookup_fmap, E. done.
Qed.

Lemma entry_cases t p e :
  entry t p = Some e ->
  (exists v, t_array t !! p = Some v /\ isempty v = false /\ e = (VInt (Z.of_nat p + 1), v)) \/
  (exists i n k, p = (length (t_array t) + i)%nat /\ t_node t !! i = Some n /\ isempty (n_val n) = false /\
     n_key n = KVal k /\ e = (k, n_val n)).
Proof.
  intros E. destruct (t_array t !! p) as [v|] eqn:Ev.
  - left. rewrite (entry_array _ _ _ Ev) in E. unfold array_slot in E.
    destruct (isempty v) eqn:Em; [done|]. exists v. by simplify_eq.
  - right. apply lookup_ge_None in Ev. destruct (t_node t !! (p - length (t_array t))%nat) as [n|] eqn:En.
    + replace p with (length (t_array t) + (p - length (t_array t)))%nat in E by lia.
      rewrite (entry_node _ _ _ En) in E. unfold node_entry, nodekey in E.
      destruct (isempty (n_val n)) eqn:Em; [done|]. destruct (n_key n) as [| |k] eqn:Ek; try done. cbn in E. simplify_eq.
      eexists _, n, k. split_and!; try done. lia.
    + unfold entry, slots in E. rewrite lookup_app_r in E by (rewrite length_imap; lia).
      by rewrite length_imap, list_lookup_fmap, En in E.
Qed.

(** The first entry at or after a position. *)
Definition first_from (t : Table) (i : nat) (r : option (TValue * TValue)) : Prop :=
  match r with
  | Some e => exists p, (i <= p)%nat /\ entry t p = Some e /\ forall x, (i <= x < p)%nat -> entry t x = None
  | None => forall x, (i <= x)%nat -> entry t x = None
  end.

Section Next.
Context (seed : Z) (strs : Z -> list Z).
Abbreviation table_ok := (TableResize.table_ok seed strs).

(** ** The scans *)

Lemma next_array_ok t fuel (i : nat) :
  (i <= length (t_array t) <= i + fuel)%nat ->
  exists r, next_array fuel t (zlen (t_array t)) (Z.of_nat i) = Some r /\
    match r with
    | Some (j, v) => exists p, j = Z.of_nat p /\ (i <= p)%nat /\ entry t p = Some (VInt (j + 1), v) /\
                     forall x, (i <= x < p)%nat -> entry t x = None
    | None => forall x, (i <= x < length (t_array t))%nat -> entry t x = None
    end.
Proof.
  revert i. induction fuel as [|fuel IH]; intros i Hi; cbn [next_array].
  { rewrite (proj2 (Z.ltb_ge _ _)) by lia. exists None. split; [done|]. lia. }
  destruct (Z.ltb_spec (Z.of_nat i) (zlen (t_array t))); [|exists None; split; [done|lia]].
  destruct (lookup_lt_is_Some_2 (t_array t) i) as [v Ev]; [lia|].
  unfold array_get. rewrite (proj2 (Z.ltb_ge _ 0)), Nat2Z.id, Ev by lia. cbn [mbind option_bind].
  destruct (isempty v) eqn:Em; cbn [negb].
  - destruct (IH (S i)) as (r & Er & Hr); [lia|]. replace (Z.of_nat i + 1) with (Z.of_nat (S i)) by lia.
    exists r. split; [done|].
    assert (Hi0 : entry t i = None) by (rewrite (entry_array _ _ _ Ev); unfold array_slot; by rewrite Em).
    destruct r as [[j w]|].
    + destruct Hr as (p & -> & Hp & He & Hx). exists p. split_and!; try done; [lia|].
      intros x Hx'. destruct (decide (x = i)) as [->|]; [done|]. apply Hx. lia.
    + intros x Hx. destruct (decide (x = i)) as [->|]; [done|]. apply Hr. lia.
  - exists (Some (Z.of_nat i, v)). split; [done|]. exists i. split_and!; try done; [|lia].
    rewrite (entry_array _ _ _ Ev). unfold array_slot. by rewrite Em.
Qed.

Lemma next_hash_ok t fuel (i : nat) :
  table_ok t -> (i <= length (t_node t) <= i + fuel)%nat ->
  exists r, next_hash fuel t (Z.of_nat i) = Some r /\ first_from t (length (t_array t) + i) r.
Proof.
  intros Ht. pose proof (ti_hash _ _ _ _ Ht) as Hh. pose proof (hi_size _ _ _ _ _ Hh) as Hs.
  pose proof (hi_len _ _ _ _ _ Hh) as Hl. pose proof (pow2_pos (t_lsizenode t)).
  pose proof (Z.pow_le_mono_r 2 (t_lsizenode t) 30).
  assert (Hsz : sizenode t = zlen (t_node t)) by (unfold sizenode; rewrite Z.shiftl_1_l; lia).
  assert (Hend : forall j, (length (t_node t) <= j)%nat -> first_from t (length (t_array t) + j) None).
  { intros j Hj x Hx. unfold entry. rewrite lookup_ge_None_2; [done|]. unfold slots.
    rewrite length_app, length_imap, length_map. lia. }
  revert i. induction fuel as [|fuel IH]; intros i Hi; cbn [next_hash]; rewrite Hsz, (swrap_small 32) by (unfold in_s; lia).
  { rewrite (proj2 (Z.ltb_ge _ _)) by lia. exists None. split; [done|]. apply Hend. lia. }
  destruct (Z.ltb_spec (Z.of_nat i) (zlen (t_node t))); [|exists None; split; [done|apply Hend; lia]].
  destruct (lookup_lt_is_Some_2 (t_node t) i) as [n En]; [lia|].
  rewrite (proj2 (Z.ltb_ge _ 0)), Nat2Z.id, En by lia. cbn [mbind option_bind].
  destruct (isempty (n_val n)) eqn:Em; cbn [negb].
  - destruct (IH (S i)) as (r & Er & Hr); [lia|]. replace (Z.of_nat i + 1) with (Z.of_nat (S i)) by lia.
    exists r. split; [done|].
    assert (Hi0 : entry t (length (t_array t) + i) = None) by (rewrite (entry_node _ _ _ En); unfold node_entry; by rewrite Em).
    destruct r as [e|].
    + destruct Hr as (p & Hp & He & Hx). exists p. split_and!; try done; [lia|].
      intros x Hx'. destruct (decide (x = length (t_array t) + i)%nat) as [->|]; [done|]. apply Hx. lia.
    + intros x Hx. destruct (decide (x = length (t_array t) + i)%nat) as [->|]; [done|]. apply Hr. lia.
  - destruct (hi_node _ _ _ _ _ Hh _ _ En) as [_ Hok]. unfold nodekey.
    destruct (n_key n) as [| |k] eqn:Ek; [destruct Hok; congruence|congruence|].
    cbn. exists (Some (k, n_val n)). split; [done|]. exists (length (t_array t) + i)%nat. split_and!; [lia| |lia].
    rewrite (entry_node _ _ _ En). unfold node_entry, nodekey. by rewrite Em, Ek.
Qed.

Lemma sizes_bound t :
  table_ok t -> luaH_realasize t = zlen (t_array t) /\ zlen (t_array t) <= 2 ^ 29 /\ zlen (t_node t) <= 2 ^ 30.
Proof.
  intros Ht. pose proof (proj1 (ti_asize _ _ _ _ Ht)). pose proof (ti_hash _ _ _ _ Ht) as Hh.
  split; [by apply realasize_ok, Ht|]. rewrite (hi_len _ _ _ _ _ Hh). pose proof (hi_size _ _ _ _ _ Hh).
  pose proof (pow2_pos (t_lsizenode t)). pose proof (Z.pow_le_mono_r 2 (t_lsizenode t) 30). lia.
Qed.

(** [luaH_next] after the index of its key is known. *)
Lemma next_from t key (i : nat) :
  table_ok t -> findindex t key (zlen (t_array t)) = Some (Ok (Z.of_nat i)) ->
  (i <= length (slots t))%nat ->
  exists r, luaH_next t key = Some (Ok r) /\ first_from t i r.
Proof.
  intros Ht Hf Hi. destruct (sizes_bound t Ht) as (Hsz & Hb1 & Hb2). unfold luaH_next. rewrite Hsz, Hf.
  cbn [mbind option_bind]. unfold slots in Hi. rewrite length_app, length_imap, length_map in Hi.
  assert (Hhash : forall j, (length (t_array t) <= j)%nat -> j = Z.to_nat (Z.max (Z.of_nat i) (zlen (t_array t))) ->
    exists r, next_hash (length (t_node t)) t (u32 (Z.max (Z.of_nat i) (zlen (t_array t)) - zlen (t_array t))) = Some r /\ first_from t j r).
  { intros j Hj Ej. rewrite wrap_small by (unfold in_u; lia).
    destruct (next_hash_ok t (length (t_node t)) (j - length (t_array t)) Ht) as (r & Er & Hr); [lia|].
    exists r. replace (length (t_array t) + (j - length (t_array t)))%nat with j in Hr by lia. split; [|done].
    rewrite <-Er. f_equal. lia. }
  destruct (decide (i < length (t_array t))%nat) as [Hlt|Hge].
  - destruct (next_array_ok t (length (t_array t)) i) as (r & -> & Hr); [lia|]. cbn [mbind option_bind].
    destruct r as [[j v]|].
    + destruct Hr as (p & -> & Hp & He & Hx). eexists. split; [done|]. by exists p.
    + rewrite (proj2 (Z.ltb_lt _ _)) by lia. destruct (Hhash (length (t_array t))) as (r & Er & Hfr); [lia|lia|].
      replace (Z.max (Z.of_nat i) (zlen (t_array t))) with (zlen (t_array t)) in Er by lia. rewrite Er. cbn [mbind option_bind].
      exists r. split; [done|]. destruct r as [e|].
      * destruct Hfr as (p & Hp & He & Hx). exists p. split_and!; try done; [lia|].
        intros x Hx'. destruct (decide (x < length (t_array t))%nat); [apply Hr; lia|apply Hx; lia].
      * intros x Hx. destruct (decide (x < length (t_array t))%nat); [apply Hr; lia|apply Hfr; lia].
  - assert (next_array (length (t_array t)) t (zlen (t_array t)) (Z.of_nat i) = Some None) as ->.
    { destruct (length (t_array t)); cbn [next_array]; by rewrite (proj2 (Z.ltb_ge _ _)) by lia. }
    cbn [mbind option_bind]. rewrite (proj2 (Z.ltb_ge _ _)) by lia.
    destruct (Hhash i) as (r & Er & Hfr); [lia|lia|].
    replace (Z.max (Z.of_nat i) (zlen (t_array t))) with (Z.of_nat i) in Er by lia. rewrite Er. cbn. eauto.
Qed.

(** ** Finding the place of a key *)

(** No dead key has the address of an object that is a key now. *)
Definition no_reuse (t : Table) : Prop := forall n p n' k,
  n ∈ t_node t -> n_key n = KDead p -> n' ∈ t_node t -> n_key n' = KVal k -> gcvalue k <> Some p.

(** Indices that are not in the array part. *)
Lemma not_array_index k s :
  in_s 64 k -> 0 <= s <= 2 ^ 29 -> in_array s (AInt k) = false -> (u32 (arrayindex k - 1) <? s) = false.
Proof.
  intros Hk Hs Hin. rewrite arrayindex_ok by done. apply Z.ltb_ge. unfold in_array in Hin.
  destruct ((1 <=? k) && (k <=? 2 ^ 31)) eqn:E; [|unfold wrap; change ((0 - 1) mod 2 ^ 32) with (2 ^ 32 - 1); lia].
  rewrite wrap_small by (unfold in_u; lia). lia.
Qed.

Lemma findindex_node t i n k :
  table_ok t -> no_reuse t -> t_node t !! i = Some n -> n_key n = KVal k ->
  findindex t k (zlen (t_array t)) = Some (Ok (Z.of_nat (S (length (t_array t) + i)))).
Proof.
  intros Ht Hnr En Ek. pose proof (ti_hash _ _ _ _ Ht) as Hh. destruct (sizes_bound t Ht) as (_ & Hb1 & Hb2).
  destruct (hi_key _ _ _ _ _ Hh _ _ _ En Ek) as (a & Hst).
  assert (Ha : nkey_at (t_node t) i = Some a).
  { rewrite (nkey_lookup _ _ _ En). unfold node_key. rewrite Ek. apply Hst. }
  assert (Hin := ti_sep _ _ _ _ Ht _ _ Ha). unfold findindex.
  assert (ttisnil k = false) as -> by (destruct k; try done; by destruct Hst as (_ & ? & _)).
  assert ((u32 (match k with VInt k => arrayindex k | _ => 0 end - 1) <? zlen (t_array t)) = false) as ->.
  { destruct k; try (unfold wrap; change ((0 - 1) mod 2 ^ 32) with (2 ^ 32 - 1); lia).
    destruct Hst as (Hw & [= <-] & _). apply not_array_index; [done|lia|done]. }
  unfold getgeneric. rewrite (mainposition_stored _ _ _ _ _ Hst). cbn [mbind option_bind].
  destruct (search_key _ _ _ _ _ Hh a (fun n => equalkey k n true)) as (r & -> & Hr).
  { intros j m Em. rewrite <-(equalkey_stored _ _ k a m Hst).
    - unfold equalkey. destruct (n_key m) as [|p|] eqn:Em'; try done. cbn [andb].
      destruct (gcvalue k) as [q|] eqn:Eg; [|done]. destruct (Z.eqb_spec q p) as [->|]; [|done]. exfalso.
      eapply (Hnr m p n k); try done; by eapply list_elem_of_lookup_2.
    - intros k'. by eapply hi_key. }
  cbn [mbind option_bind]. destruct r as [j|]; [|by destruct (Hr i)]. cbn [node_slot].
  assert (j = i) as -> by (by eapply (hi_uniq _ _ _ _ _ Hh)).
  assert (i < length (t_node t))%nat by (by apply lookup_lt_Some in En).
  f_equal. f_equal. rewrite wrap_small by (unfold in_u; lia). lia.
Qed.

Lemma findindex_entry t p k v :
  table_ok t -> no_reuse t -> entry t p = Some (k, v) ->
  findindex t k (zlen (t_array t)) = Some (Ok (Z.of_nat (S p))).
Proof.
  intros Ht Hnr [(w & Ev & _ & [= -> ->])|(i & n & k' & -> & En & _ & Ek & [= -> ->])]%entry_cases;
    [|by eapply findindex_node].
  destruct (sizes_bound t Ht) as (_ & Hb1 & _). apply lookup_lt_Some in Ev. unfold findindex. cbn [ttisnil].
  rewrite arrayindex_ok by (unfold in_s; lia).
  rewrite (proj2 (Z.leb_le 1 _)), (proj2 (Z.leb_le _ (2 ^ 31))) by lia. cbn [andb].
  rewrite wrap_small by (unfold in_u; lia). rewrite (proj2 (Z.ltb_lt _ _)) by lia. do 2 f_equal. lia.
Qed.

(** ** Whole traversals *)

(** Repeated [luaH_next]. *)
Fixpoint traverse (fuel : nat) (t : Table) (key : TValue) : option (list (TValue * TValue)) :=
  match fuel with
  | O => None
  | S fuel' =>
      match luaH_next t key with
      | Some (Ok (Some (k, v))) => l ← traverse fuel' t k; Some ((k, v) :: l)
      | Some (Ok None) => Some []
      | _ => None
      end
  end.

Lemma omap_none {A} (l : list (option A)) : (forall x, mjoin (l !! x) = None) -> omap id l = [].
Proof.
  induction l as [|[a|] l IH]; intros H; [done|by specialize (H 0%nat)|]. apply IH. intros x. apply (H (S x)).
Qed.

Lemma omap_first {A} (l : list (option A)) (p : nat) (e : A) :
  mjoin (l !! p) = Some e -> (forall x, (x < p)%nat -> mjoin (l !! x) = None) ->
  omap id l = e :: omap id (drop (S p) l).
Proof.
  revert l. induction p as [|p IH]; intros [|[a|] l] He Hx; try done.
  - cbn in He. simplify_eq. cbn. by rewrite drop_0.
  - by specialize (Hx 0%nat ltac:(lia)).
  - cbn. apply IH; [done|]. intros x Hlt. apply (Hx (S x)). lia.
Qed.

Lemma traverse_from t key (i : nat) fuel :
  table_ok t -> no_reuse t -> findindex t key (zlen (t_array t)) = Some (Ok (Z.of_nat i)) ->
  (i <= length (slots t))%nat -> (length (slots t) - i < fuel)%nat ->
  traverse fuel t key = Some (omap id (drop i (slots t))).
Proof.
  intros Ht Hnr. revert key i. induction fuel as [|fuel IH]; intros key i Hf Hi Hfuel; [lia|]. cbn [traverse].
  destruct (next_from t key i Ht Hf Hi) as (r & -> & Hr).
  assert (Hd : forall x, mjoin (drop i (slots t) !! x) = entry t (i + x)) by (intros x; by rewrite lookup_drop).
  destruct r as [[k v]|].
  - destruct Hr as (p & Hp & He & Hx).
    assert (p < length (slots t))%nat as Hlt.
    { unfold entry in He. destruct (slots t !! p) eqn:E; [|done]. by apply lookup_lt_Some in E. }
    rewrite (IH k (S p)) by (try lia; by eapply findindex_entry). cbn.
    rewrite (omap_first (drop i (slots t)) (p - i) (k, v)).
    + rewrite drop_drop. do 4 f_equal. lia.
    + rewrite Hd. by replace (i + (p - i))%nat with p by lia.
    + intros x Hx'. rewrite Hd. apply Hx. lia.
  - rewrite (omap_none (drop i (slots t))); [done|]. intros x. rewrite Hd. apply Hr. lia.
Qed.

(** ** Entries and the map *)

Lemma elem_of_entries t k v : (k, v) ∈ entries t <-> exists p, entry t p = Some (k, v).
Proof.
  unfold entries, entry. rewrite list_elem_of_omap. split.
  - intros (o & Ho & Eo). apply list_elem_of_lookup in Ho as [p Ep]. exists p. rewrite Ep. done.
  - intros [p Ep]. destruct (slots t !! p) as [o|] eqn:E; [|done]. exists o.
    split; [by eapply list_elem_of_lookup_2|done].
Qed.

Lemma entry_content t p k v :
  table_ok t -> entry t p = Some (k, v) -> exists a, akey_of k = Some a /\ content t a = Some v.
Proof.
  intros Ht [(w & Ev & Em & [= -> ->])|(i & n & k' & -> & En & Em & Ek & [= -> ->])]%entry_cases.
  - exists (AInt (Z.of_nat p + 1)). split; [done|]. pose proof Ev as Hp. apply lookup_lt_Some in Hp.
    unfold content, abs. rewrite (proj2 (in_array_int _ _)) by lia. unfold abs_array, array_get.
    rewrite (proj2 (Z.ltb_ge _ 0)) by lia. replace (Z.to_nat (Z.of_nat p + 1 - 1)) with p by lia. rewrite Ev. cbn.
    unfold present. by rewrite Em.
  - pose proof (ti_hash _ _ _ _ Ht) as Hh. destruct (hi_key _ _ _ _ _ Hh _ _ _ En Ek) as (a & Hst).
    assert (Ha : node_key n = Some a) by (unfold node_key; rewrite Ek; apply Hst).
    exists a. split; [apply Hst|]. unfold content, abs. rewrite (ti_sep _ _ _ _ Ht i a).
    + rewrite (abs_hash_at _ _ _ _ _ _ _ _ Hh En Ha). unfold present. by rewrite Em.
    + by rewrite (nkey_lookup _ _ _ En).
Qed.

Lemma content_entry t a v :
  table_ok t -> content t a = Some v -> exists p k, entry t p = Some (k, v) /\ akey_of k = Some a.
Proof.
  intros Ht Hc. unfold content, abs in Hc. destruct (in_array (zlen (t_array t)) a) eqn:Ein.
  - destruct a; try done. apply in_array_int in Ein. unfold abs_array, array_get in Hc.
    rewrite (proj2 (Z.ltb_ge _ 0)) in Hc by lia. destruct (t_array t !! Z.to_nat (i - 1)) as [w|] eqn:Ew; [|done].
    cbn in Hc. unfold present in Hc. destruct (isempty w) eqn:Em; [done|]. simplify_eq.
    exists (Z.to_nat (i - 1)), (VInt i). split; [|done]. rewrite (entry_array _ _ _ Ew). unfold array_slot. rewrite Em.
    do 3 f_equal. lia.
  - destruct (key_cases (t_node t) a) as [(i & n & En & Ka)|Hno]; [|by rewrite abs_hash_none in Hc].
    rewrite (abs_hash_at _ _ _ _ _ _ _ _ (ti_hash _ _ _ _ Ht) En Ka) in Hc. unfold present in Hc.
    destruct (isempty (n_val n)) eqn:Em; [done|]. simplify_eq. unfold node_key in Ka.
    destruct (n_key n) as [| |k] eqn:Ek; try done. exists (length (t_array t) + i)%nat, k. split; [|done].
    rewrite (entry_node _ _ _ En). unfold node_entry, nodekey. by rewrite Em, Ek.
Qed.

Lemma entry_inj t p q k v k' v' a :
  table_ok t -> entry t p = Some (k, v) -> entry t q = Some (k', v') ->
  akey_of k = Some a -> akey_of k' = Some a -> p = q.
Proof.
  intros Ht Hp Hq Ek Ek'.
  assert (Hcase : forall x k v, entry t x = Some (k, v) -> akey_of k = Some a ->
    (in_array (zlen (t_array t)) a = true /\ a = AInt (Z.of_nat x + 1)) \/
    (in_array (zlen (t_array t)) a = false /\ exists i, x = (length (t_array t) + i)%nat /\ nkey_at (t_node t) i = Some a)).
  { intros x k0 v0 [(w & Ev & Em & [= -> ->])|(i & n & k1 & -> & En & Em & Ekk & [= -> ->])]%entry_cases Hk.
    - left. cbn in Hk. simplify_eq. split; [|done]. apply in_array_int. apply lookup_lt_Some in Ev. lia.
    - right. assert (nkey_at (t_node t) i = Some a) as Ha by (rewrite (nkey_lookup _ _ _ En); unfold node_key; by rewrite Ekk).
      split; [by eapply ti_sep|]. by exists i. }
  destruct (Hcase _ _ _ Hp Ek) as [[? E1]|[? (i & -> & Hi)]], (Hcase _ _ _ Hq Ek') as [[? E2]|[? (j & -> & Hj)]]; try congruence.
  - assert (Z.of_nat p + 1 = Z.of_nat q + 1) by congruence. lia.
  - f_equal. by eapply (hi_uniq _ _ _ _ _ (ti_hash _ _ _ _ Ht)).
Qed.

Lemma NoDup_omap_key {A B} (f : A -> B) (l : list (option A)) :
  (forall p q x y, mjoin (l !! p) = Some x -> mjoin (l !! q) = Some y -> f x = f y -> p = q) ->
  NoDup (f <$> omap id l).
Proof.
  induction l as [|[a|] l IH]; intros H; [constructor| |].
  - cbn. constructor.
    + rewrite list_elem_of_fmap. intros (b & Eb & Hb). apply list_elem_of_omap in Hb as (o & Ho & Hid).
      apply list_elem_of_lookup in Ho as [q Eq]. cbn in Hid. subst o.
      assert (mjoin (l !! q) = Some b) as Hq by (by rewrite Eq). by specialize (H 0%nat (S q) a b eq_refl Hq Eb).
    + apply IH. intros p q x y Hp Hq E. by specialize (H (S p) (S q) x y Hp Hq E); simplify_eq.
  - apply IH. intros p q x y Hp Hq E. by specialize (H (S p) (S q) x y Hp Hq E); simplify_eq.
Qed.

Lemma entries_nodup t : table_ok t -> NoDup ((fun e => akey_of (fst e)) <$> entries t).
Proof.
  intros Ht. apply NoDup_omap_key. intros p q [k v] [k' v'] Hp Hq E. cbn in E.
  destruct (entry_content t p k v Ht Hp) as (a & Ea & _). eapply (entry_inj t p q k v k' v' a); try done. by rewrite <-E.
Qed.
End Next.
End TableNext.
