(* ===== verification/TableSpec.v ===== *)
(** * Lua tables are maps

    The theorems on tables: searching, assigning, resizing, the size of the array
    part, the length operator and traversal, stated against the map from keys to
    values that a table represents ([TableResize.content]). *)

From S2P Require Import Prelude CFloat LuaValue LuaNumber LuaObject LuaTable TableInv TableInsert TableCount TableResize TableLen TableNext.

Module TableSpec.
Import CFloat LuaValue LuaNumber LuaObject LuaTable TableInv TableInsert TableCount TableResize TableLen TableNext.
Open Scope string_scope.
Open Scope list_scope.
Open Scope Z_scope.

(** A value a Lua program can hold. *)
Definition lua_value (v : TValue) : Prop := v <> VEmpty /\ v <> VAbstKey.

(** A table with an array part only. *)
Definition array_table (arr : list TValue) : Table := MkTable true (zlen arr) arr 0 [dummynode] None.

Lemma array_table_ok seed strs arr :
  Forall (fun v => v <> VAbstKey) arr -> zlen arr <= 2 ^ 29 -> table_ok seed strs (array_table arr).
Proof.
  intros Hv Hl. constructor; cbn; try done.
  - apply dummy_hinv.
  - split; [lia|done].
  - intros i v E. by apply (Forall_lookup_1 _ _ _ _ Hv E).
  - by intros [|[]] a.
Qed.

Section Spec.
Context (seed : Z) (strs : Z -> list Z) (alloc_node alloc_array : Z -> bool).

(** C2: searching a table returns the value its map holds for the key: absent keys,
    nil and NaN give an empty value.  The search may move the limit of the array
    part, which changes neither the invariant nor the map. *)
Theorem luaH_get_correct (t : Table) (k : TValue)
    (Ht : table_ok seed strs t) (Hw : wf_key seed strs k) (Hk : lua_value k) :
  exists t' sl v, luaH_get t k = Some (t', sl) /\ slot_val t' sl = Some v /\
    present v = (a ← akey_of k; content t a) /\
    table_ok seed strs t' /\ forall b, content t' b = content t b.
Proof.
  destruct (akey_of k) as [a|] eqn:Ek.
  - destruct (get_ok _ _ _ t k a Ht Hw Ek) as (t' & sl & Eg & Hsame & Hsl).
    destruct (same_but_limit_inv _ _ _ _ _ Hsame Ht) as [Ht' Hc].
    assert (Harr : t_array t' = t_array t) by (by destruct Hsame as (x & -> & _)).
    destruct (slot_for_val _ _ _ _ _ _ Ht' Hsl) as (v & Ev & Hv & _).
    exists t', sl, v. split_and!; try done; cbn.
    + by rewrite Hv, Hc.
    + unfold table_ok. by rewrite Harr.
    + intros b. unfold content. by rewrite Harr, Hc.
  - destruct Hk. exists t, SAbsent, VAbstKey. split_and!; try done. by apply (get_none seed strs (zlen (t_array t))).
Qed.

(** C1: assigning to a table.  With nil or NaN as key it raises the error of the
    manual and the table is as before.  With any other key the assignment either
    succeeds, and the map of the new table is the old one with the value put at the
    key (removed, if the value is nil), or the key is absent and the table cannot grow:
    with the best array size for its keys and the new one, the allocator refuses that
    array or a vector for the other keys, or these are more than 2^30.  Then the map stays
    as it was.  The invariant holds in all cases, and no case gets stuck. *)
Theorem luaH_set_correct (t : Table) (k v : TValue)
    (Halloc : forall n, alloc_array n = true -> n <= 2 ^ 29)
    (Ht : table_ok seed strs t) (Hw : wf_key seed strs k) (Hk : lua_value k) (Hv : lua_value v) :
  match akey_of k with
  | None => luaH_set alloc_node alloc_array t k v =
              Throw t (if ttisnil k then "table index is nil" else "table index is NaN")
  | Some a => assigned seed strs alloc_node alloc_array t a v (luaH_set alloc_node alloc_array t k v)
  end.
Proof.
  destruct Hk as [Hk1 Hk2], Hv as [Hv1 Hv2]. destruct (akey_of k) as [a|] eqn:Ek; [by apply set_ok|].
  unfold luaH_set, set_with. rewrite (get_none seed strs (zlen (t_array t))) by done. cbn.
  unfold normkey. destruct k; try done. cbn in Ek. cbn [ttisnil].
  destruct (luaV_flttointeger n F2Ieq); [done|]. by destruct (deq n n).
Qed.

(** Growing the array part ([luaH_resizearray] with a size no smaller than the
    present one) keeps the map: it gives a table with an array of the size asked
    for, or fails with the map unchanged. *)
Theorem luaH_resizearray_correct (t : Table) (nasize : Z)
    (Halloc : forall n, alloc_array n = true -> n <= 2 ^ 29)
    (Ht : table_ok seed strs t) (Hn : zlen (t_array t) <= nasize) :
  match luaH_resizearray alloc_node alloc_array (luaH_newkey alloc_node alloc_array 1) t nasize with
  | Ret t' _ => table_ok seed strs t' /\ (forall b, content t' b = content t b) /\ zlen (t_array t') = nasize
  | Throw t' e => table_ok seed strs t' /\ (forall b, content t' b = content t b) /\
      refused alloc_node alloc_array nasize (allocsizenode t) e
  | Stuck => False
  end.
Proof.
  pose proof (ti_hash _ _ _ _ Ht) as Hh. pose proof (hi_len _ _ _ _ _ Hh) as Hl.
  pose proof (hi_size _ _ _ _ _ Hh) as Hs. pose proof (pow2_pos (t_lsizenode t)).
  pose proof (Z.pow_le_mono_r 2 (t_lsizenode t) 30). unfold luaH_resizearray.
  assert (Hsz : sizenode t = zlen (t_node t)) by (unfold sizenode; rewrite Z.shiftl_1_l; lia).
  assert (Hneed : hash_need t nasize <= allocsizenode t /\ 0 <= allocsizenode t < 2 ^ 32).
  { unfold hash_need, allocsizenode, isdummy. rewrite akeys_nil by lia. cbn [length]. rewrite Hsz.
    pose proof (cnt_le (goes_hash nasize) (t_node t)). destruct (t_lastfree t) eqn:E; [lia|].
    pose proof (hi_free _ _ _ _ _ Hh) as Hd. cbn in Hd. rewrite Hd. done. }
  destruct (resize_ok seed strs alloc_node alloc_array 0 t nasize (allocsizenode t) Halloc Ht) as
    [(t' & e & -> & Ht' & Hc & Hr)|(t' & -> & Ht' & Hc & Hla & _)]; try done || lia.
Qed.

(** C5: [rehash] for a key [k] chooses as array size the largest power of two (or 0)
    such that more than half of the slots are in use by integer keys of the table
    and [k], and asks for a node for each other key, [k] included. *)
Theorem rehash_sizes_best (t : Table) (k : TValue) (a : akey)
    (Ht : table_ok seed strs t) (Hlim : t_alimit t = zlen (t_array t)) (Hk : stored seed strs k a) :
  exists size nh, rehash_sizes t k = Some (size, nh) /\ best_size (all_cands t k) size /\
    nh = hash_need t size + (if in_array size a then 0 else 1).
Proof.
  destruct (rehash_sizes_ok seed strs t k a Ht Hlim Hk) as (size & nh & E & Hb & _ & _ & Hn).
  by exists size, nh.
Qed.

(** C4: the length operator terminates with a border of the table: 0 or a present
    index whose successor is absent (or the largest integer).  The map and the
    invariant are unchanged by the new limit it may store. *)
Theorem luaH_getn_correct (t : Table) (Ht : table_ok seed strs t) :
  exists t' n, luaH_getn t = Some (t', n) /\ border t n /\
    table_ok seed strs t' /\ forall b, content t' b = content t b.
Proof. by apply getn_ok. Qed.

(** C3: calling [luaH_next] from nil until it reports the end visits every entry of
    the map exactly once, provided no dead key has the address of a key of the
    table: the list of pairs it returns has no key twice and holds a pair for
    exactly the present keys, with their values. *)
Theorem luaH_next_traversal (t : Table) (Ht : table_ok seed strs t) (Hnr : no_reuse t) :
  exists l, traverse (S (length (slots t))) t VNil = Some l /\
    NoDup ((fun e => akey_of (fst e)) <$> l) /\
    forall a v, content t a = Some v <-> exists k, (k, v) ∈ l /\ akey_of k = Some a.
Proof.
  exists (entries t). split_and!.
  - rewrite (traverse_from seed strs t VNil 0) by (done || lia). by rewrite drop_0.
  - by apply (entries_nodup seed strs).
  - intros a v. split.
    + intros Hc. destruct (content_entry seed strs t a v Ht Hc) as (p & k & Ep & Ek).
      exists k. split; [|done]. apply elem_of_entries. eauto.
    + intros (k & [p Ep]%elem_of_entries & Ek).
      destruct (entry_content seed strs t p k v Ht Ep) as (a' & Ek' & Hc). congruence.
Qed.
End Spec.

(** ** A sample table *)

Definition sample_strs : Z -> list Z := fun _ => [].
Definition sample : Table := array_table [VTrue; VNil; VInt 7].

Lemma sample_ok : table_ok 0 sample_strs sample.
Proof. apply array_table_ok; [by repeat constructor|cbn; lia]. Qed.

Lemma luaH_get_correct_witness :
  exists t' sl v, luaH_get sample (VFlt (d_of_Z 3)) = Some (t', sl) /\ slot_val t' sl = Some v /\ present v = Some (VInt 7).
Proof.
  destruct (luaH_get_correct 0 sample_strs sample (VFlt (d_of_Z 3)) sample_ok) as (t' & sl & v & E & Ev & Hv & _).
  - reflexivity.
  - by split.
  - exists t', sl, v. split; [done|]. split; [done|]. rewrite Hv. vm_compute. reflexivity.
Defined.

Lemma luaH_set_correct_witness :
  assigned 0 sample_strs (fun _ => true) (fun n => n <=? 2 ^ 29) sample (AInt 10) VTrue (luaH_set (fun _ => true) (fun n => n <=? 2 ^ 29) sample (VInt 10) VTrue).
Proof.
  apply (luaH_set_correct 0 sample_strs (fun _ => true) (fun n => n <=? 2 ^ 29) sample (VInt 10) VTrue).
  - intros n. apply Z.leb_le.
  - exact sample_ok.
  - split; [discriminate|reflexivity].
  - by split.
  - by split.
Defined.

Lemma luaH_resizearray_correct_witness :
  match luaH_resizearray (fun _ => true) (fun n => n <=? 2 ^ 29)
          (luaH_newkey (fun _ => true) (fun n => n <=? 2 ^ 29) 1) sample 5 with
  | Ret t' _ => zlen (t_array t') = 5
  | _ => False
  end.
Proof.
  pose proof (luaH_resizearray_correct 0 sample_strs (fun _ => true) (fun n => n <=? 2 ^ 29) sample 5
    (fun n => proj1 (Z.leb_le n (2 ^ 29))) sample_ok ltac:(cbn; lia)) as H.
  revert H. vm_compute. intros [_ [_ H]]. exact H.
Defined.

Lemma rehash_sizes_best_witness :
  exists size nh, rehash_sizes sample (VInt 2) = Some (size, nh) /\ best_size (all_cands sample (VInt 2)) size.
Proof.
  destruct (rehash_sizes_best 0 sample_strs sample (VInt 2) (AInt 2) sample_ok) as (size & nh & E & Hb & _).
  - reflexivity.
  - split; [split; [discriminate|reflexivity]|]. split; reflexivity.
  - by exists size, nh.
Defined.

Lemma luaH_getn_correct_witness : exists t' n, luaH_getn sample = Some (t', n) /\ border sample n.
Proof.
  destruct (luaH_getn_correct 0 sample_strs sample sample_ok) as (t' & n & E & Hb & _). by exists t', n.
Defined.

Lemma luaH_next_traversal_witness : exists l, traverse 5 sample VNil = Some l /\ (VInt 3, VInt 7) ∈ l.
Proof.
  destruct (luaH_next_traversal 0 sample_strs sample sample_ok) as (l & E & _ & Hc).
  - intros n p n' k Hn Hd. apply list_elem_of_singleton in Hn as ->. discriminate Hd.
  - exists l. split; [exact E|]. destruct (Hc (AInt 3) (VInt 7)) as [H _].
    destruct (H eq_refl) as (k & Hk & Ek). vm_compute in E. injection E as <-. right. left.
Defined.
End TableSpec.
