(* ===== verification/LuaPattern.v ===== *)
(** * Pattern matching in Lua

    The pattern-matching engine of lstrlib.c and the library functions on top of
    it: [string.find], [string.match], [string.gmatch] and [string.gsub].

    Subject and pattern are lists of bytes, each followed by a zero in memory; a
    pointer into one of them is an offset.  A nested call of [match] is on a later
    position of the pattern, so that the length of the pattern bounds the recursion. *)

From S2P Require Import Prelude LuaValue.

Module LuaPattern.
Import LuaValue.
Open Scope string_scope.
Open Scope list_scope.
Open Scope Z_scope.

(** ** Characters in the C locale *)

Definition between (lo hi c : Z) : bool := (lo <=? c) && (c <=? hi).

Definition isupper (c : Z) : bool := between (ch "A") (ch "Z") c.
Definition islower (c : Z) : bool := between (ch "a") (ch "z") c.
Definition isalpha (c : Z) : bool := isupper c || islower c.
Definition isdigit (c : Z) : bool := between (ch "0") (ch "9") c.
Definition isalnum (c : Z) : bool := isalpha c || isdigit c.
Definition isxdigit (c : Z) : bool := isdigit c || between (ch "a") (ch "f") c || between (ch "A") (ch "F") c.
Definition isspace (c : Z) : bool := (c =? 32) || between 9 13 c.
Definition isgraph (c : Z) : bool := between 33 126 c.
Definition ispunct (c : Z) : bool := isgraph c && negb (isalnum c).
Definition iscntrl (c : Z) : bool := between 0 31 c || (c =? 127).
Definition tolower (c : Z) : Z := if isupper c then c + 32 else c.
Definition toupper (c : Z) : Z := if islower c then c - 32 else c.

(** ** The state of a match *)

Definition LUA_MAXCAPTURES : nat := 32.
Definition MAXCCALLS : nat := 200.
Definition CAP_UNFINISHED : Z := -1.
Definition CAP_POSITION : Z := -2.
Definition L_ESC : Z := ch "%".
Definition SPECIALS : list Z := bytes "^$*+?.([%-".

(** The fields of [MatchState] that a match changes; [matchdepth] is what is left of the
    nesting of [match], and an error leaves it as it is. *)
Record MatchState := MkMS { level : Z; capture : list (Z * Z); matchdepth : Z }.

(** Code that changes the match state, raises an error, or has no defined
    behaviour.  An error message is the format string of the C code. *)
Abbreviation M := (ST MatchState).
Definition luaL_error {A} (msg : string) : M A := throw msg.

(** The byte at offset [i]: the bytes of the string and the zero after them. *)
Definition rd (l : list Z) (i : Z) : option Z :=
  if i <? 0 then None else if i =? zlen l then Some 0 else l !! Z.to_nat i.
Definition load (l : list Z) (i : Z) : M Z :=
  fun ms => match rd l i with Some c => Ret ms c | None => Stuck end.

(** The [n] bytes from offset [a] on. *)
Definition slice (l : list Z) (a n : Z) : option (list Z) :=
  if (0 <=? a) && (0 <=? n) && (a + n <=? zlen l)
  then Some (take (Z.to_nat n) (drop (Z.to_nat a) l)) else None.
Definition loads (l : list Z) (a n : Z) : M (list Z) :=
  fun ms => match slice l a n with Some x => Ret ms x | None => Stuck end.

Definition get_capture (l : Z) : M (Z * Z) :=
  fun ms => match capture ms !! Z.to_nat l with Some x => Ret ms x | None => Stuck end.
Definition set_capture (l : Z) (x : Z * Z) : M unit :=
  fun ms =>
    if (0 <=? l) && (l <? zlen (capture ms))
    then Ret (MkMS (level ms) (<[Z.to_nat l := x]> (capture ms)) (matchdepth ms)) tt else Stuck.
Definition get_level : M Z := fun ms => Ret ms (level ms).
(** [level] is an [unsigned char]. *)
Definition set_level (l : Z) : M unit := fun ms => Ret (MkMS (u8 l) (capture ms) (matchdepth ms)) tt.
Definition get_depth : M Z := fun ms => Ret ms (matchdepth ms).
Definition set_depth (d : Z) : M unit := fun ms => Ret (MkMS (level ms) (capture ms) d) tt.

(** ** Captures by number *)

Definition check_capture (l : Z) : M Z :=
  let l := l - ch "1" in
  level ← get_level;
  if (l <? 0) || (l >=? level) then luaL_error "invalid capture index %%%d"
  else
    '(_, len) ← get_capture l;
    if len =? CAP_UNFINISHED then luaL_error "invalid capture index %%%d" else mret l.

(** The loop of [capture_to_close] over the levels below [n]. *)
Fixpoint to_close (n : nat) : M Z :=
  match n with
  | O => luaL_error "invalid pattern capture"
  | S n' =>
      '(_, len) ← get_capture (Z.of_nat n');
      if len =? CAP_UNFINISHED then mret (Z.of_nat n') else to_close n'
  end.
Definition capture_to_close : M Z := level ← get_level; to_close (Z.to_nat level).

(** ** Character classes *)

Definition match_class (c cl : Z) : bool :=
  let sign (res : bool) := if islower cl then res else negb res in
  let k := tolower cl in
  if k =? ch "a" then sign (isalpha c)
  else if k =? ch "c" then sign (iscntrl c)
  else if k =? ch "d" then sign (isdigit c)
  else if k =? ch "g" then sign (isgraph c)
  else if k =? ch "l" then sign (islower c)
  else if k =? ch "p" then sign (ispunct c)
  else if k =? ch "s" then sign (isspace c)
  else if k =? ch "u" then sign (isupper c)
  else if k =? ch "w" then sign (isalnum c)
  else if k =? ch "x" then sign (isxdigit c)
  else if k =? ch "z" then sign (c =? 0)
  else cl =? c.

Section engine.
(** The subject and the pattern; [src_end] and [p_end] are their ends. *)
Context (src pat : list Z).
Definition src_end : Z := zlen src.
Definition p_end : Z := zlen pat.

(** The do-while loop of [classend] that looks for the closing bracket. *)
Fixpoint bracket_end (fuel : nat) (p : Z) : M Z :=
  match fuel with
  | O => fun _ => Stuck
  | S fuel' =>
      if p =? p_end then luaL_error "malformed pattern (missing ']')"
      else
        c ← load pat p;
        let p := p + 1 in
        let p := if (c =? L_ESC) && (p <? p_end) then p + 1 else p in
        c ← load pat p;
        if negb (c =? ch "]") then bracket_end fuel' p else mret (p + 1)
  end.

Definition classend (p : Z) : M Z :=
  c ← load pat p;
  let p := p + 1 in
  if c =? L_ESC then
    if p =? p_end then luaL_error "malformed pattern (ends with '%%')" else mret (p + 1)
  else if c =? ch "[" then
    c ← load pat p;
    bracket_end (S (length pat)) (if c =? ch "^" then p + 1 else p)
  else mret p.

(** The loop of [matchbracketclass], after the first [++p]. *)
Fixpoint bracket_loop (fuel : nat) (c p ec : Z) (sig : bool) : M bool :=
  if p <? ec then
    match fuel with
    | O => fun _ => Stuck
    | S fuel' =>
        x ← load pat p;
        if x =? L_ESC then
          cl ← load pat (p + 1);
          if match_class c cl then mret sig else bracket_loop fuel' c (p + 2) ec sig
        else
          y ← load pat (p + 1);
          if (y =? ch "-") && (p + 2 <? ec) then
            hi ← load pat (p + 2);
            if (x <=? c) && (c <=? hi) then mret sig else bracket_loop fuel' c (p + 3) ec sig
          else if x =? c then mret sig
          else bracket_loop fuel' c (p + 1) ec sig
    end
  else mret (negb sig).

Definition matchbracketclass (c p ec : Z) : M bool :=
  x ← load pat (p + 1);
  if x =? ch "^" then bracket_loop (length pat) c (p + 2) ec false
  else bracket_loop (length pat) c (p + 1) ec true.

Definition singlematch (s p ep : Z) : M bool :=
  if s >=? src_end then mret false
  else
    c ← load src s;
    x ← load pat p;
    if x =? ch "." then mret true
    else if x =? L_ESC then cl ← load pat (p + 1); mret (match_class c cl)
    else if x =? ch "[" then matchbracketclass c p (ep - 1)
    else mret (x =? c).

(** ** Items other than single characters *)

(** The loop of [matchbalance], after the first [++s]; the counter is an [int]. *)
Fixpoint balance_loop (fuel : nat) (s b e cont : Z) : M (option Z) :=
  if s <? src_end then
    match fuel with
    | O => fun _ => Stuck
    | S fuel' =>
        x ← load src s;
        if x =? e then
          if cont - 1 =? 0 then mret (Some (s + 1)) else balance_loop fuel' (s + 1) b e (cont - 1)
        else if x =? b then
          if cont <? 2 ^ 31 - 1 then balance_loop fuel' (s + 1) b e (cont + 1) else fun _ => Stuck
        else balance_loop fuel' (s + 1) b e cont
    end
  else mret None.

Definition matchbalance (s p : Z) : M (option Z) :=
  if p >=? p_end - 1 then luaL_error "malformed pattern (missing arguments to '%%b')"
  else
    x ← load src s;
    b ← load pat p;
    if negb (x =? b) then mret None
    else e ← load pat (p + 1); balance_loop (length src) (s + 1) b e 1.

(** The length is converted to [size_t], which makes that of a position capture
    larger than any string. *)
Definition match_capture (s l : Z) : M (option Z) :=
  l ← check_capture l;
  '(init, len) ← get_capture l;
  let len := u64 len in
  if src_end - s >=? len then
    x ← loads src init len;
    y ← loads src s len;
    mret (if bool_decide (x = y) then Some (s + len) else None)
  else mret None.

Section recursion.
(** The recursive calls of [match]. *)
Variable rec : Z -> Z -> M (option Z).

(** The two loops of [max_expand]. *)
Fixpoint max_count (fuel : nat) (s p ep i : Z) : M Z :=
  match fuel with
  | O => fun _ => Stuck
  | S fuel' =>
      m ← singlematch (s + i) p ep;
      if m : bool then max_count fuel' s p ep (i + 1) else mret i
  end.

Fixpoint max_try (i : nat) (s ep : Z) : M (option Z) :=
  res ← rec (s + Z.of_nat i) (ep + 1);
  match res with
  | Some e => mret (Some e)
  | None => match i with O => mret None | S i' => max_try i' s ep end
  end.

Definition max_expand (s p ep : Z) : M (option Z) :=
  i ← max_count (S (length src)) s p ep 0;
  max_try (Z.to_nat i) s ep.

Fixpoint min_expand_loop (fuel : nat) (s p ep : Z) : M (option Z) :=
  match fuel with
  | O => fun _ => Stuck
  | S fuel' =>
      res ← rec s (ep + 1);
      match res with
      | Some e => mret (Some e)
      | None =>
          m ← singlematch s p ep;
          if m : bool then min_expand_loop fuel' (s + 1) p ep else mret None
      end
  end.
Definition min_expand (s p ep : Z) : M (option Z) := min_expand_loop (S (length src)) s p ep.

Definition start_capture (s p what : Z) : M (option Z) :=
  level ← get_level;
  if level >=? Z.of_nat LUA_MAXCAPTURES then luaL_error "too many captures"
  else
    _ ← set_capture level (s, what);
    _ ← set_level (level + 1);
    res ← rec s p;
    match res with
    | Some e => mret (Some e)
    | None => level ← get_level; _ ← set_level (level - 1); mret None
    end.

Definition end_capture (s p : Z) : M (option Z) :=
  l ← capture_to_close;
  '(init, _) ← get_capture l;
  _ ← set_capture l (init, s - init);
  res ← rec s p;
  match res with
  | Some e => mret (Some e)
  | None => _ ← set_capture l (init, CAP_UNFINISHED); mret None
  end.

(** The default case of [match]: a class with an optional suffix.  [init] is the
    continuation at the label [init], for a [goto init]. *)
Definition match_default (init : Z -> Z -> M (option Z)) (s p : Z) : M (option Z) :=
  ep ← classend p;
  m ← singlematch s p ep;
  x ← load pat ep;
  if negb m then
    if (x =? ch "*") || (x =? ch "?") || (x =? ch "-") then init s (ep + 1) else mret None
  else if x =? ch "?" then
    res ← rec (s + 1) (ep + 1);
    match res with
    | Some e => mret (Some e)
    | None => init s (ep + 1)
    end
  else if x =? ch "+" then max_expand (s + 1) p ep
  else if x =? ch "*" then max_expand s p ep
  else if x =? ch "-" then min_expand s p ep
  else init (s + 1) ep.

(** The case of a percent sign. *)
Definition match_escape (init : Z -> Z -> M (option Z)) (s p : Z) : M (option Z) :=
  y ← load pat (p + 1);
  if y =? ch "b" then
    res ← matchbalance s (p + 2);
    match res with
    | Some s => init s (p + 4)
    | None => mret None
    end
  else if y =? ch "f" then
    let p := p + 2 in
    z ← load pat p;
    if negb (z =? ch "[") then luaL_error "missing '[' after '%%f' in pattern"
    else
      ep ← classend p;
      previous ← (if s =? 0 then mret 0 else load src (s - 1));
      out ← matchbracketclass previous p (ep - 1);
      if negb out then
        c ← load src s;
        into ← matchbracketclass c p (ep - 1);
        if into : bool then init s ep else mret None
      else mret None
  else if isdigit y then
    res ← match_capture s y;
    match res with
    | Some s => init s (p + 2)
    | None => mret None
    end
  else match_default init s p.

(** [match] from its label [init] on; a [goto init] is a round of the loop. *)
Fixpoint match_loop (fuel : nat) (s p : Z) : M (option Z) :=
  match fuel with
  | O => fun _ => Stuck
  | S fuel' =>
      if p =? p_end then mret (Some s)
      else
        x ← load pat p;
        if x =? ch "(" then
          y ← load pat (p + 1);
          if y =? ch ")" then start_capture s (p + 2) CAP_POSITION
          else start_capture s (p + 1) CAP_UNFINISHED
        else if x =? ch ")" then end_capture s (p + 1)
        else if x =? ch "$" then
          if negb (p + 1 =? p_end) then match_default (match_loop fuel') s p
          else mret (if s =? src_end then Some s else None)
        else if x =? L_ESC then match_escape (match_loop fuel') s p
        else match_default (match_loop fuel') s p
  end.
End recursion.

(** [match] *)
Fixpoint match_ (fuel : nat) (s p : Z) : M (option Z) :=
  match fuel with
  | O => fun _ => Stuck
  | S fuel' =>
      d ← get_depth;
      _ ← set_depth (d - 1);
      if d =? 0 then luaL_error "pattern too complex"
      else
        e ← match_loop (match_ fuel') (S (length pat)) s p;
        d ← get_depth;
        _ ← set_depth (d + 1);
        mret e
  end.
End engine.

(** ** Searching for a plain string *)

(** [memchr] over the [n] bytes from offset [a] on. *)
Fixpoint index_of (c : Z) (l : list Z) : option nat :=
  match l with
  | [] => None
  | x :: l' => if x =? c then Some O else S <$> index_of c l'
  end.
Definition memchr (l : list Z) (a c n : Z) : M (option Z) :=
  x ← loads l a n; mret ((fun i => a + Z.of_nat i) <$> index_of c x).

(** The loop of [lmemfind]: [l1] start positions remain from [s1] on, and [l2] is
    the length of the pattern without its first byte. *)
Fixpoint lmemfind_loop (fuel : nat) (s s2 : list Z) (s1 l1 l2 : Z) : M (option Z) :=
  if l1 >? 0 then
    match fuel with
    | O => fun _ => Stuck
    | S fuel' =>
        c ← load s2 0;
        init ← memchr s s1 c l1;
        match init with
        | None => mret None
        | Some init =>
            let init := init + 1 in
            x ← loads s init l2;
            y ← loads s2 1 l2;
            if bool_decide (x = y) then mret (Some (init - 1))
            else lmemfind_loop fuel' s s2 init (l1 - (init - s1)) l2
        end
    end
  else mret None.

(** [lmemfind (s + s1, l1, s2, l2)] *)
Definition lmemfind (s : list Z) (s1 l1 : Z) (s2 : list Z) (l2 : Z) : M (option Z) :=
  if l2 =? 0 then mret (Some s1)
  else if l2 >? l1 then mret None
  else lmemfind_loop (length s) s s2 s1 (l1 - (l2 - 1)) (l2 - 1).

(** The bytes before the first zero: what the C string functions see. *)
Fixpoint cstr (l : list Z) : list Z :=
  match l with
  | [] => []
  | c :: l' => if c =? 0 then [] else c :: cstr l'
  end.

(** The do-while loop of [nospecials]; [strpbrk] and [strlen] on the string at
    [p + upto]. *)
Fixpoint nospecials_loop (fuel : nat) (p : list Z) (upto l : Z) : M bool :=
  match fuel with
  | O => fun _ => Stuck
  | S fuel' =>
      let str := cstr (drop (Z.to_nat upto) p) in
      if existsb (fun c => existsb (Z.eqb c) SPECIALS) str then mret false
      else
        let upto := upto + (zlen str + 1) in
        if upto <=? l then nospecials_loop fuel' p upto l else mret true
  end.
Definition nospecials (p : list Z) (l : Z) : M bool := nospecials_loop (S (length p)) p 0 l.

(** ** Results of a match *)

(** The values the functions push. *)
Inductive pval :=
  | PFail
  | PInt (i : Z)
  | PStr (s : list Z).

(** A captured string or position. *)
Inductive capt :=
  | CapString (init len : Z)
  | CapPosition (pos : Z).

Section results.
Context (src pat : list Z).

(** [get_onecapture]; [s] is [None] for the NULL that [str_find_aux] passes. *)
Definition get_onecapture (i : Z) (s : option Z) (e : Z) : M capt :=
  level ← get_level;
  if i >=? level then
    if negb (i =? 0) then luaL_error "invalid capture index %%%d"
    else match s with Some s => mret (CapString s (e - s)) | None => fun _ => Stuck end
  else
    '(init, capl) ← get_capture i;
    if capl =? CAP_UNFINISHED then luaL_error "unfinished capture"
    else if capl =? CAP_POSITION then mret (CapPosition (init + 1))
    else mret (CapString init capl).

Definition push_onecapture (i : Z) (s : option Z) (e : Z) : M pval :=
  c ← get_onecapture i s e;
  match c with
  | CapString init len => x ← loads src init len; mret (PStr x)
  | CapPosition pos => mret (PInt pos)
  end.

Fixpoint push_from (n : nat) (i : Z) (s : option Z) (e : Z) : M (list pval) :=
  match n with
  | O => mret []
  | S n' => v ← push_onecapture i s e; vs ← push_from n' (i + 1) s e; mret (v :: vs)
  end.

(** [push_captures]; [stack_ok] stands for [luaL_checkstack]. *)
Definition push_captures (stack_ok : Z -> bool) (s : option Z) (e : Z) : M (list pval) :=
  level ← get_level;
  let nlevels := if (level =? 0) && bool_decide (is_Some s) then 1 else level in
  if negb (stack_ok nlevels) then luaL_error "too many captures"
  else push_from (Z.to_nat nlevels) 0 s e.

Definition prepstate : M unit := set_depth (Z.of_nat MAXCCALLS).
Definition reprepstate : M unit := set_level 0.

(** A match at [s] against the pattern from [p] on, without captures at first. *)
Definition match_at (s p : Z) : M (option Z) :=
  _ ← reprepstate; match_ src pat (S (length pat)) s p.
End results.

Definition posrelatI (pos len : Z) : Z :=
  if pos >? 0 then pos
  else if pos =? 0 then 1
  else if pos <? - len then 1
  else u64 (len + u64 pos + 1).

(** ** The library functions *)

(** The variables of [str_gsub] that its loop changes. *)
Record GSub (W : Type) := MkGSub {
  gs_world : W;
  gs_src : Z;
  gs_lastmatch : option Z;
  gs_n : Z;
  gs_changed : bool;
  gs_buf : list Z }.
Arguments MkGSub {W}. Arguments gs_world {W}. Arguments gs_src {W}. Arguments gs_lastmatch {W}.
Arguments gs_n {W}. Arguments gs_changed {W}. Arguments gs_buf {W}.

Section lib.
Context (stack_ok : Z -> bool).

(** The do-while loop of [str_find_aux] over the start positions. *)
Fixpoint find_loop (fuel : nat) (src pat : list Z) (s1 p : Z) (anchor find : bool) : M (list pval) :=
  match fuel with
  | O => fun _ => Stuck
  | S fuel' =>
      res ← match_at src pat s1 p;
      match res with
      | Some e =>
          if find then
            vs ← push_captures src stack_ok None 0;
            mret (PInt (s1 + 1) :: PInt e :: vs)
          else push_captures src stack_ok (Some s1) e
      | None =>
          if (s1 <? src_end src) && negb anchor
          then find_loop fuel' src pat (s1 + 1) p anchor find
          else mret [PFail]
      end
  end.

(** [str_find_aux (L, find)] on the arguments [s], [p], [init] and [plain]. *)
Definition str_find_aux (find : bool) (s p : list Z) (init : Z) (plain : bool) : M (list pval) :=
  let ls := zlen s in
  let lp := zlen p in
  let init := u64 (posrelatI init ls - 1) in
  if init >? ls then mret [PFail]
  else
    special ← (if find then if plain then mret false else n ← nospecials p lp; mret (negb n)
               else mret true);
    if negb special then
      s2 ← lmemfind s init (ls - init) p lp;
      match s2 with
      | Some s2 => mret [PInt (s2 + 1); PInt (s2 + lp)]
      | None => mret [PFail]
      end
    else
      c ← load p 0;
      let anchor := c =? ch "^" in
      _ ← prepstate;
      find_loop (S (length s)) s p init (if anchor then 1 else 0) anchor find.

Definition str_find := str_find_aux true.
Definition str_match := str_find_aux false.

(** The state of an iteration, which lives on between its calls: the match state and the
    fields of [GMatchState] that a call changes. *)
Record GMatchState := MkGM { gm_ms : MatchState; gm_src : Z; gm_lastmatch : option Z }.
Abbreviation G := (ST GMatchState).

Definition on_ms {A} (m : M A) : G A := fun gm =>
  match m (gm_ms gm) with
  | Ret ms a => Ret (MkGM ms (gm_src gm) (gm_lastmatch gm)) a
  | Throw ms msg => Throw (MkGM ms (gm_src gm) (gm_lastmatch gm)) msg
  | Stuck => Stuck
  end.
Definition get_lastmatch : G (option Z) := fun gm => Ret gm (gm_lastmatch gm).
(** [gm->src = gm->lastmatch = e] *)
Definition set_lastmatch (e : Z) : G unit := fun gm => Ret (MkGM (gm_ms gm) e (Some e)) tt.

(** The loop of [gmatch_aux]; no values end the iteration. *)
Fixpoint gmatch_loop (fuel : nat) (s p : list Z) (src : Z) : G (list pval) :=
  if src <=? src_end s then
    match fuel with
    | O => fun _ => Stuck
    | S fuel' =>
        res ← on_ms (match_at s p src 0);
        last ← get_lastmatch;
        match res with
        | Some e =>
            if bool_decide (Some e <> last) then
              _ ← set_lastmatch e; on_ms (push_captures s stack_ok (Some src) e)
            else gmatch_loop fuel' s p (src + 1)
        | None => gmatch_loop fuel' s p (src + 1)
        end
    end
  else mret [].
Definition gmatch_aux (s p : list Z) : G (list pval) := fun gm => gmatch_loop (S (length s)) s p (gm_src gm) gm.

(** [gmatch]: the state of the new iteration, in a fresh user data. *)
Definition get_state : M MatchState := fun ms => Ret ms ms.
Definition gmatch (s : list Z) (init : Z) : M GMatchState :=
  let init := u64 (posrelatI init (zlen s) - 1) in
  let init := if init >? zlen s then zlen s + 1 else init in
  _ ← prepstate;
  ms ← get_state;
  mret (MkGM ms init None).

(** ** Substitution *)

(** What a call of the replacement function or an access to the replacement
    table gives: false or nil, a string or number (its text), or another value. *)
Inductive rval :=
  | RFalse
  | RText (s : list Z)
  | ROther.

(** The third argument of [gsub].  A function or a table (which may have an
    [__index] metamethod) is what it gives on the captures, in the state [W] of
    the rest of the program; it may raise an error. *)
Inductive repl (W : Type) :=
  | ReplString (news : list Z)
  | ReplFunction (call : W -> list pval -> W * res rval)
  | ReplTable (get : W -> pval -> W * res rval)
  | ReplBad.

Definition raise {A} (r : res A) : M A := match r with Ok a => mret a | Err msg => luaL_error msg end.

(** The text of the value [luaL_addvalue] or [luaL_addlstring] adds for a capture. *)
Definition capt_text (src : list Z) (c : capt) : M (list Z) :=
  match c with
  | CapString init len => loads src init len
  | CapPosition pos => mret (dec_text pos)
  end.

(** The loop of [add_s]; [l] bytes of the replacement string remain from [i] on. *)
Fixpoint add_s_loop (fuel : nat) (src news : list Z) (i l s e : Z) (b : list Z) : M (list Z) :=
  match fuel with
  | O => fun _ => Stuck
  | S fuel' =>
      p ← memchr news i L_ESC l;
      match p with
      | None => x ← loads news i l; mret (b ++ x)
      | Some p =>
          x ← loads news i (p - i);
          let b := b ++ x in
          let p := p + 1 in
          c ← load news p;
          x ← (if c =? L_ESC then mret [c]
               else if c =? ch "0" then loads src s (e - s)
               else if isdigit c then
                 cap ← get_onecapture (c - ch "1") (Some s) e; capt_text src cap
               else luaL_error "invalid use of '%c' in replacement string");
          add_s_loop fuel' src news (p + 1) (l - (p + 1 - i)) s e (b ++ x)
      end
  end.
Definition add_s (src news : list Z) (s e : Z) (b : list Z) : M (list Z) :=
  add_s_loop (S (length news)) src news 0 (zlen news) s e b.

(** [add_value]: the state of the program, the buffer and whether the text
    changed. *)
Definition add_value {W} (src : list Z) (w : W) (b : list Z) (s e : Z) (r : repl W) : M (W * list Z * bool) :=
  let finish (w : W) (v : rval) :=
    match v with
    | RFalse => x ← loads src s (e - s); mret (w, b ++ x, false)
    | RText t => mret (w, b ++ t, true)
    | ROther => luaL_error "invalid replacement value (a %s)"
    end in
  match r with
  | ReplFunction _ call =>
      vs ← push_captures src stack_ok (Some s) e;
      let '(w, v) := call w vs in
      v ← raise v; finish w v
  | ReplTable _ get =>
      v ← push_onecapture src 0 (Some s) e;
      let '(w, v) := get w v in
      v ← raise v; finish w v
  | ReplString _ news => b ← add_s src news s e b; mret (w, b, true)
  | ReplBad _ => fun _ => Stuck
  end.

(** The main loop of [str_gsub]. *)
Fixpoint gsub_loop {W} (fuel : nat) (src pat : list Z) (p max_s : Z) (anchor : bool) (r : repl W) (g : GSub W)
    : M (GSub W) :=
  if gs_n g <? max_s then
    match fuel with
    | O => fun _ => Stuck
    | S fuel' =>
        res ← match_at src pat (gs_src g) p;
        let skip :=
          if gs_src g <? src_end src then
            c ← load src (gs_src g);
            let g := MkGSub (gs_world g) (gs_src g + 1) (gs_lastmatch g) (gs_n g) (gs_changed g) (gs_buf g ++ [c]) in
            if anchor then mret g else gsub_loop fuel' src pat p max_s anchor r g
          else mret g in
        match res with
        | Some e =>
            if bool_decide (Some e <> gs_lastmatch g) then
              '(w, b, changed) ← add_value src (gs_world g) (gs_buf g) (gs_src g) e r;
              let g := MkGSub w e (Some e) (gs_n g + 1) (changed || gs_changed g) b in
              if anchor then mret g else gsub_loop fuel' src pat p max_s anchor r g
            else skip
        | None => skip
        end
    end
  else mret g.

(** [str_gsub]: the resulting string and the number of matches.  [max_s] is the
    fourth argument, if given. *)
Definition str_gsub {W} (w : W) (src p : list Z) (r : repl W) (max_s : option Z) : M (W * list Z * Z) :=
  let max_s := default (zlen src + 1) max_s in
  c ← load p 0;
  let anchor := c =? ch "^" in
  match r with
  | ReplBad _ => luaL_error "string/function/table"
  | _ =>
      _ ← prepstate;
      g ← gsub_loop (2 * length src + 2) src p (if anchor then 1 else 0) max_s anchor r
            (MkGSub w 0 None 0 false []);
      if negb (gs_changed g) then mret (gs_world g, src, gs_n g)
      else
        x ← loads src (gs_src g) (src_end src - gs_src g);
        mret (gs_world g, gs_buf g ++ x, gs_n g)
  end.
End lib.

End LuaPattern.
