(* ===== verification/PatternFacts.v ===== *)
(** * The pattern engine implements the reference semantics *)

From S2P Require Import Prelude LuaValue LuaPattern PatternRef.

Module PatternFacts.
Import LuaValue LuaPattern PatternRef.
Open Scope string_scope.
Open Scope list_scope.
Open Scope Z_scope.

(** ** Pointers as suffixes *)

(** [p] points at the text [l], the rest of the string [L]. *)
Definition suf (L : list Z) (p : Z) (l : list Z) : Prop :=
  0 <= p /\ p + zlen l = zlen L /\ drop (Z.to_nat p) L = l.

Lemma suf_start (L : list Z) : suf L 0 L.
Proof. split_and!; [lia|lia|done]. Qed.

Lemma suf_at (L : list Z) p : 0 <= p <= zlen L -> suf L p (drop (Z.to_nat p) L).
Proof. intros H. split_and!; [lia| |done]. rewrite length_drop. lia. Qed.

Lemma suf_app (L : list Z) p l1 l2 : suf L p (l1 ++ l2) -> suf L (p + zlen l1) l2.
Proof.
  intros (H1 & H2 & H3). rewrite length_app in H2. split_and!; [lia|lia|].
  rewrite Z2Nat.inj_add, Nat2Z.id, <- drop_drop, H3 by lia. apply drop_app_length.
Qed.

Lemma suf_cons (L : list Z) p x l : suf L p (x :: l) -> suf L (p + 1) l.
Proof. apply (suf_app L p [x] l). Qed.

Lemma suf_nil (L : list Z) p : suf L p [] -> p = zlen L.
Proof. intros (_ & H & _). simpl in H. lia. Qed.

Lemma suf_rd (L : list Z) p l : suf L p l -> rd L p = Some (hd 0 l).
Proof.
  intros (H1 & H2 & H3). unfold rd. destruct (Z.ltb_spec p 0); [lia|].
  destruct l as [|x l]; simpl in *.
  - destruct (Z.eqb_spec p (zlen L)); [done|lia].
  - destruct (Z.eqb_spec p (zlen L)); [lia|].
    rewrite <- (Nat.add_0_r (Z.to_nat p)), <- lookup_drop, H3. done.
Qed.

Lemma suf_load (L : list Z) p l ms : suf L p l -> load L p ms = Ret ms (hd 0 l).
Proof. intros H. unfold load. by rewrite (suf_rd L p l). Qed.

Lemma suf_slice (L : list Z) p l n :
  suf L p l -> 0 <= n <= zlen l -> slice L p n = Some (take (Z.to_nat n) l).
Proof.
  intros (H1 & H2 & H3) Hn. unfold slice.
  rewrite (proj2 (Z.leb_le 0 p)), (proj2 (Z.leb_le 0 n)), (proj2 (Z.leb_le (p + n) (zlen L))) by lia.
  simpl. by rewrite H3.
Qed.

Lemma suf_loads (L : list Z) p l n ms :
  suf L p l -> 0 <= n <= zlen l -> loads L p n ms = Ret ms (take (Z.to_nat n) l).
Proof. intros H Hn. unfold loads. by rewrite (suf_slice L p l n). Qed.

Lemma at_loads (L : list Z) p n ms :
  0 <= p -> 0 <= n -> p + n <= zlen L ->
  loads L p n ms = Ret ms (take (Z.to_nat n) (drop (Z.to_nat p) L)).
Proof. intros. apply suf_loads; [apply suf_at; lia|]. rewrite length_drop. lia. Qed.

(** Runs the loads of the next byte at a known pointer. *)
Ltac loadp H := erewrite bind_Ret; [|apply (suf_load _ _ _ _ H)]; cbn [hd].

(** ** Classes *)

Section facts.
Context (src pat : list Z).

Lemma bracket_end_ok fuel p l ms :
  suf pat p l -> (length l < fuel)%nat ->
  match scan_set l with
  | None => bracket_end pat fuel p ms = Throw ms "malformed pattern (missing ']')"
  | Some (body, r) =>
      exists ep, bracket_end pat fuel p ms = Ret ms ep /\ suf pat ep r /\ l = body ++ ch "]" :: r
  end.
Proof.
  revert p l. induction fuel as [|fuel IH]; intros p l Hp Hf; [lia|].
  destruct l as [|x r]; simpl; unfold p_end.
  { apply suf_nil in Hp. by rewrite (proj2 (Z.eqb_eq p (zlen pat))). }
  pose proof Hp as (H1 & H2 & _). rewrite length_cons in H2; cbn [length] in Hf.
  rewrite (proj2 (Z.eqb_neq p (zlen pat))) by lia. loadp Hp.
  pose proof (suf_cons _ _ _ _ Hp) as Hr.
  assert (Hgo : forall pre q r, suf pat q r -> (length r < fuel)%nat -> x :: r = x :: r ->
    match (if bool_decide (head r = Some (ch "]")) then Some (pre, tail r)
           else ('(b, r) ← scan_set r; Some (pre ++ b, r))) with
    | None =>
        (c ← load pat q; if negb (c =? ch "]") then bracket_end pat fuel q else mret (q + 1)) ms =
        Throw ms "malformed pattern (missing ']')"
    | Some (body, r') =>
        exists ep,
          (c ← load pat q; if negb (c =? ch "]") then bracket_end pat fuel q else mret (q + 1)) ms = Ret ms ep /\
          suf pat ep r' /\ pre ++ r = body ++ ch "]" :: r'
    end).
  { clear -IH. intros pre q r Hq Hl _. loadp Hq.
    case_bool_decide as Hh.
    - destruct r as [|y r]; simplify_eq/=. exists (q + 1). split_and!; [done| |done].
      by apply suf_cons in Hq.
    - assert ((hd 0 r =? ch "]") = false) as ->.
      { destruct r as [|y r]; [done|]. simpl. apply Z.eqb_neq. intros ->. by apply Hh. }
      simpl. specialize (IH q r Hq Hl). destruct (scan_set r) as [[b r']|]; simpl; [|done].
      destruct IH as (ep & He & Hs & ->). exists ep. split_and!; [done|done|]. by rewrite app_assoc. }
  destruct (Z.eqb_spec x L_ESC) as [->|Hx]; simpl.
  - destruct r as [|y r'].
    + rewrite (proj2 (Z.ltb_ge (p + 1) (zlen pat))) by (cbn [length] in *; lia).
      loadp Hr. apply (IH (p + 1) [] Hr). simpl; lia.
    + rewrite (proj2 (Z.ltb_lt (p + 1) (zlen pat))) by (cbn [length] in *; lia).
      apply (Hgo [L_ESC; y] _ _ (suf_cons _ _ _ _ Hr)); [simpl in *; lia|done].
  - apply (Hgo [x] _ _ Hr); [lia|done].
Qed.

Lemma bracket_loop_ok fuel c p body r sig ms :
  suf pat p (body ++ ch "]" :: r) -> (length body <= fuel)%nat ->
  bracket_loop pat fuel c p (p + zlen body) sig ms =
  Ret ms (if existsb (elem_match c) (elems body) then sig else negb sig).
Proof.
  assert (Hend : forall fuel p ec, ec <= p -> bracket_loop pat fuel c p ec sig ms = Ret ms (negb sig)).
  { intros f q ec Hq. destruct f; simpl; by rewrite (proj2 (Z.ltb_ge q ec)) by lia. }
  revert p body. induction fuel as [|fuel IH]; intros p body Hp Hf.
  { destruct body; [|simpl in Hf; lia]. apply Hend. simpl. lia. }
  destruct body as [|x b]; [apply Hend; simpl; lia|].
  simpl. rewrite (proj2 (Z.ltb_lt p _)) by lia.
  simpl in Hf, Hp. loadp Hp. pose proof (suf_cons _ _ _ _ Hp) as Hp1.
  destruct (Z.eqb_spec x L_ESC) as [->|Hx].
  - loadp Hp1. destruct b as [|cl b]; simpl in *.
    + destruct (match_class c (ch "]")); simpl; [done|]. apply Hend. lia.
    + destruct (match_class c cl); simpl; [done|].
      pose proof (suf_cons _ _ _ _ Hp1) as Hp2. rewrite <- Z.add_assoc in Hp2.
      etransitivity; [|apply (IH _ b Hp2); lia]. f_equal; lia.
  - loadp Hp1.
    assert (Hlit : (if x =? c then mret sig else bracket_loop pat fuel c (p + 1) (p + Z.of_nat (S (length b))) sig) ms
                   = Ret ms (if existsb (elem_match c) (EChar x :: elems b) then sig else negb sig)).
    { simpl. destruct (x =? c); simpl; [done|].
      etransitivity; [|apply (IH _ b Hp1); lia]. f_equal; lia. }
    destruct b as [|y b].
    { simpl. exact Hlit. }
    simpl in *. destruct b as [|hi b].
    { rewrite (proj2 (Z.ltb_ge (p + 2) _)) by (simpl; lia). rewrite andb_false_r. exact Hlit. }
    rewrite (proj2 (Z.ltb_lt (p + 2) _)), andb_true_r by (simpl; lia).
    destruct (Z.eqb_spec y (ch "-")) as [->|Hy]; [|exact Hlit].
    pose proof (suf_cons _ _ _ _ Hp1) as Hp2. rewrite <- Z.add_assoc in Hp2.
    loadp Hp2. simpl. destruct ((x <=? c) && (c <=? hi)); simpl; [done|].
    pose proof (suf_cons _ _ _ _ Hp2) as Hp3. rewrite <- Z.add_assoc in Hp3.
    etransitivity; [|apply (IH _ b Hp3); simpl in *; lia]. simpl. f_equal; lia.
Qed.

Lemma suf_inj (L : list Z) p q l : suf L p l -> suf L q l -> p = q.
Proof. intros (_ & H1 & _) (_ & H2 & _). lia. Qed.

(** The end of a class and the character test agree with the parsed class. *)
Definition class_at (k : cls) (p ep : Z) : Prop :=
  forall s rest ms, suf src s rest ->
    singlematch src pat s p ep ms = Ret ms (match rest with c :: _ => cls_match k c | [] => false end).

Lemma singlematch_ok p x l (k : cls) ep :
  suf pat p (x :: l) ->
  (forall c ms,
     (if x =? ch "." then mret true
      else if x =? L_ESC then cl ← load pat (p + 1); mret (match_class c cl)
      else if x =? ch "[" then matchbracketclass pat c p (ep - 1)
      else mret (x =? c)) ms = Ret ms (cls_match k c)) ->
  class_at k p ep.
Proof.
  intros Hp Hk s rest ms Hs. unfold singlematch, src_end. pose proof Hs as (? & Hl & _).
  destruct rest as [|c rest].
  - rewrite Z.geb_leb, (proj2 (Z.leb_le (zlen src) s)) by (simpl in *; lia). done.
  - rewrite Z.geb_leb, (proj2 (Z.leb_gt (zlen src) s)) by (simpl in *; lia).
    loadp Hs. loadp Hp. apply Hk.
Qed.

Lemma bracket_class_ok p l ms :
  suf pat p (ch "[" :: l) ->
  match parse_class (ch "[") l with
  | Err msg => classend pat p ms = Throw ms msg
  | Ok (k, r) =>
      exists ep, classend pat p ms = Ret ms ep /\ suf pat ep r /\
        forall c ms, matchbracketclass pat c p (ep - 1) ms = Ret ms (cls_match k c)
  end.
Proof.
  intros Hp. unfold parse_class. simpl. pose proof (suf_cons _ _ _ _ Hp) as Hp1.
  set (neg := bool_decide (head l = Some (ch "^"))). set (l1 := if neg then tail l else l).
  assert (Hneg : (hd 0 l =? ch "^") = neg).
  { subst neg. destruct l as [|y l]; simpl; [done|]. case_bool_decide; simplify_eq; [done|].
    apply Z.eqb_neq. congruence. }
  assert (Hl1 : suf pat (if neg then p + 1 + 1 else p + 1) l1).
  { subst l1. destruct neg eqn:E; [|done]. destruct l as [|y l]; [by subst neg|].
    by apply suf_cons in Hp1. }
  assert (Hlen : (length l1 < S (length pat))%nat).
  { destruct Hl1 as (? & Hl & _). destruct neg; lia. }
  assert (Hcl : classend pat p ms = bracket_end pat (S (length pat)) (if neg then p + 1 + 1 else p + 1) ms).
  { unfold classend. loadp Hp. cbn [Z.eqb]. change (ch "[" =? L_ESC) with false.
    change (ch "[" =? ch "[") with true. cbn iota. loadp Hp1. by rewrite Hneg. }
  rewrite Hcl. pose proof (bracket_end_ok (S (length pat)) _ _ ms Hl1 Hlen) as Hb.
  destruct (scan_set l1) as [[body r]|]; [|done].
  destruct Hb as (ep & He & Hs & Hbody). exists ep. split_and!; [done|done|]. clear Hcl He.
  intros c ms'. unfold matchbracketclass. loadp Hp1. rewrite Hneg.
  rewrite Hbody in Hl1.
  assert (Hep : ep - 1 = (if neg then p + 1 + 1 else p + 1) + zlen body).
  { apply suf_app, suf_cons in Hl1. pose proof (suf_inj _ _ _ _ Hs Hl1). lia. }
  assert (length body <= length pat)%nat.
  { rewrite Hbody, length_app in Hlen. simpl in Hlen. lia. }
  rewrite Hep. destruct neg; simpl.
  - replace (p + 1 + 1) with (p + 2) in * by lia. by apply bracket_loop_ok with r.
  - by apply bracket_loop_ok with r.
Qed.

Lemma class_ok p x l ms :
  suf pat p (x :: l) ->
  match parse_class x l with
  | Err msg => classend pat p ms = Throw ms msg
  | Ok (k, r) => exists ep, classend pat p ms = Ret ms ep /\ suf pat ep r /\ class_at k p ep
  end.
Proof.
  intros Hp. pose proof (suf_cons _ _ _ _ Hp) as Hp1.
  destruct (Z.eqb_spec x (ch "[")) as [->|Hbr].
  { pose proof (bracket_class_ok p l ms Hp) as H. destruct (parse_class (ch "[") l) as [[k r]|msg]; [|done].
    destruct H as (ep & He & Hs & Hk). exists ep. split_and!; [done|done|].
    apply (singlematch_ok p (ch "[") l); [done|]. intros c ms'. apply Hk. }
  unfold parse_class, classend. destruct (Z.eqb_spec x L_ESC) as [->|He].
  - destruct l as [|cl r].
    + loadp Hp. simpl. rewrite (suf_nil _ _ Hp1). unfold p_end. by rewrite Z.eqb_refl.
    + exists (p + 2). split_and!.
      * loadp Hp. simpl. destruct Hp1 as (? & Hl & _). unfold p_end.
        rewrite (proj2 (Z.eqb_neq (p + 1) (zlen pat))) by (simpl in Hl; lia).
        unfold mret, st_ret. f_equal. lia.
      * apply suf_cons in Hp1. by rewrite <- Z.add_assoc in Hp1.
      * apply (singlematch_ok p L_ESC (cl :: r)); [done|]. intros c ms'. simpl. by loadp Hp1.
  - rewrite (proj2 (Z.eqb_neq x (ch "["))) by done.
    assert (Hce : (c ← load pat p;
                   if c =? L_ESC then
                     if p + 1 =? p_end pat then luaL_error "malformed pattern (ends with '%%')"
                     else mret (p + 1 + 1)
                   else if c =? ch "[" then
                     c ← load pat (p + 1);
                     bracket_end pat (S (length pat)) (if c =? ch "^" then p + 1 + 1 else p + 1)
                   else mret (p + 1)) ms = Ret ms (p + 1)).
    { loadp Hp. by rewrite (proj2 (Z.eqb_neq x L_ESC)), (proj2 (Z.eqb_neq x (ch "["))) by done. }
    destruct (x =? ch ".") eqn:Hd; exists (p + 1); (split_and!; [exact Hce|done|]);
      apply (singlematch_ok p x l); try done; intros c ms'; rewrite Hd; [done|].
    by rewrite (proj2 (Z.eqb_neq x L_ESC)), (proj2 (Z.eqb_neq x (ch "["))) by done.
Qed.

End facts.
End PatternFacts.
