(* ===== verification/PatternMatch.v ===== *)
(** * The backtracking engine finds the first match of the reference semantics *)

From S2P Require Import Prelude LuaValue LuaPattern PatternRef PatternFacts.

Module PatternMatch.
Import LuaValue LuaPattern PatternRef PatternFacts.
Open Scope string_scope.
Open Scope list_scope.
Open Scope Z_scope.

Section depth.
(** The nesting left to a call of [match], which it restores. *)
Context (dep : Z).

(** ** States *)

(** A state of the type of the C code, and the captures in use. *)
Definition good (ms : MatchState) : Prop :=
  0 <= level ms <= Z.of_nat LUA_MAXCAPTURES /\ length (capture ms) = LUA_MAXCAPTURES /\ matchdepth ms = dep.
Definition live (ms : MatchState) : caps := take (Z.to_nat (level ms)) (capture ms).

(** Captures that lie before position [s]. *)
Definition cap_ok (s : Z) (c : Z * Z) : Prop :=
  0 <= c.1 <= s /\ (c.2 = CAP_UNFINISHED \/ c.2 = CAP_POSITION \/ 0 <= c.2 /\ c.1 + c.2 <= s).
Definition caps_ok (s : Z) (cs : caps) : Prop := Forall (cap_ok s) cs.

Lemma caps_ok_mono s s' cs : s <= s' -> caps_ok s cs -> caps_ok s' cs.
Proof. intros H Hc. eapply Forall_impl; [exact Hc|]. unfold cap_ok. intros [i n]; simpl. lia. Qed.

Lemma live_length ms : good ms -> Z.of_nat (length (live ms)) = level ms.
Proof. intros (H1 & H2 & _). unfold live. rewrite length_take, H2. lia. Qed.

Lemma live_get ms l x : good ms -> live ms !! l = Some x -> get_capture (Z.of_nat l) ms = Ret ms x.
Proof.
  intros Hg Hx. unfold get_capture. rewrite Nat2Z.id. unfold live in Hx.
  apply lookup_take_Some in Hx as [-> _]. done.
Qed.

Lemma live_set ms l x :
  good ms -> (l < length (live ms))%nat ->
  exists ms', set_capture (Z.of_nat l) x ms = Ret ms' tt /\ good ms' /\ level ms' = level ms /\
              live ms' = <[l := x]> (live ms).
Proof.
  intros Hg Hl. pose proof (live_length ms Hg) as Hn. destruct Hg as (H1 & H2 & H3).
  exists (MkMS (level ms) (<[l := x]> (capture ms)) (matchdepth ms)). unfold set_capture. rewrite H2.
  rewrite (proj2 (Z.leb_le 0 (Z.of_nat l))), (proj2 (Z.ltb_lt (Z.of_nat l) _)) by lia. simpl.
  rewrite Nat2Z.id. split_and!; [done| |done|].
  - split; [done|]. simpl. by rewrite length_insert.
  - unfold live. simpl. apply take_insert_lt. lia.
Qed.

Lemma live_push ms x :
  good ms -> (length (live ms) < LUA_MAXCAPTURES)%nat ->
  exists ms', (_ ← set_capture (level ms) x; set_level (level ms + 1)) ms = Ret ms' tt /\ good ms' /\
              live ms' = live ms ++ [x].
Proof.
  intros Hg Hl. pose proof (live_length ms Hg) as Hn. destruct Hg as (H1 & H2 & H3).
  assert (Hlt : level ms < 32) by (unfold LUA_MAXCAPTURES in *; lia).
  exists (MkMS (level ms + 1) (<[Z.to_nat (level ms) := x]> (capture ms)) (matchdepth ms)).
  split_and!.
  - unfold mbind, st_bind, set_capture. rewrite H2.
    rewrite (proj2 (Z.leb_le 0 (level ms))), (proj2 (Z.ltb_lt (level ms) _)) by (unfold LUA_MAXCAPTURES; lia).
    simpl. unfold set_level. rewrite wrap_small by (unfold in_u; lia). done.
  - split; simpl; [unfold LUA_MAXCAPTURES; lia|]. by rewrite length_insert.
  - unfold live. simpl. replace (Z.to_nat (level ms + 1)) with (S (Z.to_nat (level ms))) by lia.
    rewrite (take_S_r _ _ x).
    + by rewrite take_insert_ge by lia.
    + apply list_lookup_insert_eq. rewrite H2. unfold LUA_MAXCAPTURES. lia.
Qed.

Lemma live_pop ms cs x :
  good ms -> live ms = cs ++ [x] ->
  exists ms', (l ← get_level; _ ← set_level (l - 1); mret (None (A := Z))) ms = Ret ms' None /\ good ms' /\
              live ms' = cs.
Proof.
  intros Hg Hl. pose proof (live_length ms Hg) as Hn. rewrite Hl, length_app in Hn. simpl in Hn.
  destruct Hg as (H1 & H2 & H3). unfold LUA_MAXCAPTURES in H1.
  exists (MkMS (level ms - 1) (capture ms) (matchdepth ms)). split_and!.
  - unfold mbind, st_bind, get_level, set_level. simpl. rewrite wrap_small by (unfold in_u; lia). done.
  - split; simpl; [unfold LUA_MAXCAPTURES; lia|done].
  - unfold live in *. simpl. replace (Z.to_nat (level ms - 1)) with (length cs) by lia.
    transitivity (take (length cs) (take (Z.to_nat (level ms)) (capture ms))).
    + rewrite take_take. f_equal. lia.
    + rewrite Hl. apply take_app_length.
Qed.

(** ** Agreement with a list of matches *)

(** The outcome is the head of the list; [deep] is what holds when the engine
    gives up because of the depth of its recursion. *)
Definition agrees (deep : Prop) (o : outcome MatchState (option Z)) (cs : caps) (l : list (res (Z * caps))) : Prop :=
  (deep /\ exists ms', o = Throw ms' "pattern too complex") \/
  match l with
  | [] => exists ms', o = Ret ms' None /\ good ms' /\ live ms' = cs
  | Ok (e, cs') :: _ => exists ms', o = Ret ms' (Some e) /\ good ms' /\ live ms' = cs'
  | Err msg :: _ => exists ms', o = Throw ms' msg
  end.

Lemma agrees_deep (P Q : Prop) o cs l : (P -> Q) -> agrees P o cs l -> agrees Q o cs l.
Proof. intros HPQ [[HP H]|H]; [left; auto|by right]. Qed.

Lemma agrees_fail D ms : good ms -> agrees D (Ret ms None) (live ms) [].
Proof. right. eauto. Qed.

(** An alternative after a failed attempt. *)
Lemma agrees_or D (m : M (option Z)) (k : M (option Z)) ms l1 l2 :
  agrees D (m ms) (live ms) l1 ->
  (forall ms', good ms' -> live ms' = live ms -> agrees D (k ms') (live ms) l2) ->
  agrees D ((res ← m; match res with Some e => mret (Some e) | None => k end) ms) (live ms) (l1 ++ l2).
Proof.
  intros [[HD [ms' H]]|H] Hk.
  { left. split; [done|]. exists ms'. by apply bind_Throw. }
  destruct l1 as [|[[e cs']|msg] l1]; simpl.
  - destruct H as (ms' & H & Hg & Hl). rewrite (bind_Ret _ _ _ _ _ H). by apply Hk.
  - right. destruct H as (ms' & H & Hg & Hl). rewrite (bind_Ret _ _ _ _ _ H). by exists ms'.
  - right. destruct H as (ms' & H). exists ms'. by apply bind_Throw.
Qed.

(** What follows a failed attempt does not change its result. *)
Lemma agrees_then D (m : M (option Z)) (k : M (option Z)) ms cs0 cs1 l :
  agrees D (m ms) cs1 l ->
  (forall ms', good ms' -> live ms' = cs1 -> exists ms2, k ms' = Ret ms2 None /\ good ms2 /\ live ms2 = cs0) ->
  agrees D ((res ← m; match res with Some e => mret (Some e) | None => k end) ms) cs0 l.
Proof.
  intros [[HD [ms' H]]|H] Hk.
  { left. split; [done|]. exists ms'. by apply bind_Throw. }
  right. destruct l as [|[[e cs']|msg] l]; simpl.
  - destruct H as (ms' & H & Hg & Hl). rewrite (bind_Ret _ _ _ _ _ H). by apply Hk.
  - destruct H as (ms' & H & Hg & Hl). rewrite (bind_Ret _ _ _ _ _ H). by exists ms'.
  - destruct H as (ms' & H). exists ms'. by apply bind_Throw.
Qed.

(** ** Facts on the reference *)

Lemma reps_le k l : (reps k l <= length l)%nat.
Proof. induction l as [|c l IH]; simpl; [lia|]. destruct (cls_match k c); lia. Qed.

Lemma last_open_Some cs n l :
  last_open cs n = Some l -> exists init, cs !! l = Some (init, CAP_UNFINISHED).
Proof.
  induction n as [|n IH]; simpl; [done|]. destruct (cs !! n) as [[i len]|] eqn:E; [|done].
  destruct (Z.eqb_spec len CAP_UNFINISHED) as [->|]; [|done]. intros [= <-]. eauto.
Qed.

Lemma balanced_le b e cont l n : balanced b e cont l = Some n -> (n <= length l)%nat.
Proof.
  revert cont n. induction l as [|x l IH]; intros cont n; [done|]. cbn [balanced length].
  rewrite fmap_Some. intros (m & Hm & ->). destruct (x =? e); [destruct cont as [|[|]]|];
    try (apply IH in Hm; lia). simplify_eq. lia.
Qed.

Lemma match_end_range src b e s s' : 0 <= s <= zlen src -> match_end src b e s = Some s' -> s <= s' <= zlen src.
Proof.
  intros Hs. unfold match_end. pose proof (suf_at src s Hs) as (_ & Hn & _).
  destruct (drop (Z.to_nat s) src) as [|x rest]; [done|]. destruct (x =? b); [|done].
  rewrite fmap_Some. intros (n & H & ->). apply balanced_le in H. rewrite length_cons in Hn. lia.
Qed.

Lemma unmatched k rest :
  match rest with c :: _ => cls_match k c | [] => false end = false -> reps k rest = 0%nat.
Proof. destruct rest; simpl; [done|]. by intros ->. Qed.

Section main.
Context (src pat : list Z) (Hsrc : zlen src < 2 ^ 31).

(** ** Repetitions *)

Lemma max_count_ok k p ep fuel s i rest ms :
  class_at src pat k p ep -> suf src (s + i) rest -> (length rest < fuel)%nat ->
  max_count src pat fuel s p ep i ms = Ret ms (i + Z.of_nat (reps k rest)).
Proof.
  intros Hk. revert i rest. induction fuel as [|fuel IH]; intros i rest Hs Hf; [lia|].
  simpl. rewrite (bind_Ret _ _ _ _ _ (Hk _ _ ms Hs)). destruct rest as [|c rest]; simpl.
  { unfold mret, st_ret. f_equal. lia. }
  destruct (cls_match k c); [|unfold mret, st_ret; f_equal; lia].
  rewrite (IH (i + 1) rest); [f_equal; lia| |simpl in Hf; lia].
  rewrite Z.add_assoc. by apply suf_cons in Hs.
Qed.

Section rec.
(** What the recursive calls do on the rest of the pattern. *)
Context (rec : Z -> Z -> M (option Z)) (D : Prop) (ep : Z) (next : Z -> caps -> list (res (Z * caps))).
Hypothesis rec_ok : forall s ms,
  0 <= s <= zlen src -> good ms -> caps_ok s (live ms) ->
  agrees D (rec s (ep + 1) ms) (live ms) (next s (live ms)).

Definition tries (s : Z) (cs : caps) (ns : list nat) : list (res (Z * caps)) :=
  concat (map (fun i => next (s + Z.of_nat i) cs) ns).

Lemma tries_map s cs ns : tries s cs (map S ns) = tries (s + 1) cs ns.
Proof. unfold tries. rewrite map_map. f_equal. apply map_ext. intros i. f_equal. lia. Qed.

Lemma tries_shift s cs n : tries s cs (seq 1 n) = tries (s + 1) cs (seq 0 n).
Proof. by rewrite <- seq_shift, tries_map. Qed.

Lemma tries_shift_rev s cs n : tries s cs (reverse (seq 1 n)) = tries (s + 1) cs (reverse (seq 0 n)).
Proof. by rewrite <- seq_shift, <- map_reverse, tries_map. Qed.

Lemma max_try_ok i s ms :
  0 <= s -> s + Z.of_nat i <= zlen src -> good ms -> caps_ok s (live ms) ->
  agrees D (max_try rec i s ep ms) (live ms) (tries s (live ms) (reverse (seq 0 (S i)))).
Proof.
  revert ms. induction i as [|i IH]; intros ms H0 H1 Hg Hc.
  - unfold tries. simpl. rewrite app_nil_r. rewrite <- (app_nil_r (next _ _)).
    apply agrees_or.
    + apply rec_ok; [simpl; lia|done|]. eapply caps_ok_mono; [|done]. simpl; lia.
    + intros ms' Hg' Hl. rewrite <- Hl. by apply agrees_fail.
  - rewrite seq_S, reverse_snoc. unfold tries. simpl map. simpl concat.
    unfold max_try; fold max_try. apply agrees_or.
    + apply rec_ok; [lia|done|]. eapply caps_ok_mono; [|done]. lia.
    + intros ms' Hg' Hl. rewrite <- Hl. apply IH; try done; [lia|]. by rewrite Hl.
Qed.

Lemma max_expand_ok k p s rest ms :
  class_at src pat k p ep -> suf src s rest -> good ms -> caps_ok s (live ms) ->
  agrees D (max_expand src pat rec s p ep ms) (live ms)
    (tries s (live ms) (reverse (seq 0 (S (reps k rest))))).
Proof.
  intros Hk Hs Hg Hc. unfold max_expand. pose proof Hs as (H1 & H2 & _).
  pose proof (reps_le k rest).
  rewrite (bind_Ret _ _ _ _ _ (max_count_ok k p ep (S (length src)) s 0 rest ms Hk ltac:(by rewrite Z.add_0_r) ltac:(lia))).
  rewrite Z.add_0_l, Nat2Z.id. apply max_try_ok; try done; lia.
Qed.

Lemma min_expand_ok k p fuel s rest ms :
  class_at src pat k p ep -> suf src s rest -> (length rest < fuel)%nat -> good ms -> caps_ok s (live ms) ->
  agrees D (min_expand_loop src pat rec fuel s p ep ms) (live ms)
    (tries s (live ms) (seq 0 (S (reps k rest)))).
Proof.
  intros Hk. revert s rest ms. induction fuel as [|fuel IH]; intros s rest ms Hs Hf Hg Hc; [lia|].
  pose proof Hs as (H1 & H2 & _). rewrite <- cons_seq.
  change (tries s ?cs (0%nat :: ?ns)) with (next (s + 0) cs ++ tries s cs ns).
  rewrite Z.add_0_r, tries_shift. simpl min_expand_loop. apply agrees_or.
  { apply rec_ok; [lia|done|done]. }
  intros ms' Hg' Hl. rewrite (bind_Ret _ _ _ _ _ (Hk _ _ ms' Hs)). rewrite <- Hl.
  destruct rest as [|c rest]; [by apply agrees_fail|]. cbn [reps].
  destruct (cls_match k c); [|by apply agrees_fail].
  apply IH; [by apply suf_cons in Hs|simpl in Hf; lia|done|].
  rewrite Hl. eapply caps_ok_mono; [|done]. lia.
Qed.
End rec.

(** ** Captures *)

Section captures.
Context (rec : Z -> Z -> M (option Z)) (D : Prop) (p : Z) (next : Z -> caps -> list (res (Z * caps))).
Hypothesis rec_ok : forall s ms,
  0 <= s <= zlen src -> good ms -> caps_ok s (live ms) ->
  agrees D (rec s p ms) (live ms) (next s (live ms)).

Lemma start_capture_ok s what ms :
  0 <= s <= zlen src -> good ms -> caps_ok s (live ms) ->
  what = CAP_UNFINISHED \/ what = CAP_POSITION ->
  agrees D (start_capture rec s p what ms) (live ms)
    (if (LUA_MAXCAPTURES <=? length (live ms))%nat then [Err "too many captures"]
     else next s (live ms ++ [(s, what)])).
Proof.
  intros Hs Hg Hc Hw. unfold start_capture. erewrite bind_Ret by reflexivity.
  pose proof (live_length ms Hg) as Hn. rewrite Z.geb_leb.
  destruct (Nat.leb_spec LUA_MAXCAPTURES (length (live ms))) as [Hb|Hb].
  { rewrite (proj2 (Z.leb_le _ (level ms))) by lia. right. by exists ms. }
  rewrite (proj2 (Z.leb_gt _ (level ms))) by lia.
  destruct (live_push ms (s, what) Hg Hb) as (ms' & Hset & Hg' & Hl').
  assert (Hc' : caps_ok s (live ms')).
  { rewrite Hl'. apply Forall_app; split; [done|]. constructor; [|constructor].
    unfold cap_ok; simpl. destruct Hw; split; auto; lia. }
  rewrite (bind_two _ _ _ _ _ _ Hset), <- Hl'.
  apply (agrees_then D _ _ ms' (live ms) (live ms')); [by apply rec_ok|].
  intros ms2 Hg2 Hl2. apply (live_pop ms2 _ (s, what)); [done|]. by rewrite Hl2.
Qed.

Lemma to_close_ok ms n :
  good ms -> (n <= length (live ms))%nat ->
  to_close n ms = match last_open (live ms) n with
                  | Some l => Ret ms (Z.of_nat l)
                  | None => Throw ms "invalid pattern capture"
                  end.
Proof.
  intros Hg. induction n as [|n IH]; intros Hn; [done|]. simpl.
  destruct (lookup_lt_is_Some_2 (live ms) n) as [[i len] Hx]; [lia|].
  rewrite (bind_Ret _ _ _ _ _ (live_get ms n _ Hg Hx)), Hx. simpl.
  destruct (len =? CAP_UNFINISHED); [done|]. apply IH. lia.
Qed.

Lemma end_capture_ok s ms :
  0 <= s <= zlen src -> good ms -> caps_ok s (live ms) ->
  agrees D (end_capture rec s p ms) (live ms)
    match last_open (live ms) (length (live ms)) with
    | None => [Err "invalid pattern capture"]
    | Some l =>
        let init := from_option fst 0 (live ms !! l) in
        next s (<[l := (init, s - init)]> (live ms))
    end.
Proof.
  intros Hs Hg Hc. unfold end_capture, capture_to_close.
  pose proof (live_length ms Hg) as Hn.
  assert (Hcl : (level ← get_level; to_close (Z.to_nat level)) ms = to_close (length (live ms)) ms).
  { erewrite bind_Ret by reflexivity. f_equal. lia. }
  rewrite to_close_ok in Hcl by (done || lia).
  destruct (last_open (live ms) (length (live ms))) as [l|] eqn:El.
  2: { right. exists ms. by apply bind_Throw. }
  apply last_open_Some in El as [init Hl]. rewrite Hl. simpl.
  rewrite (bind_Ret _ _ _ _ _ Hcl), (bind_Ret _ _ _ _ _ (live_get ms l _ Hg Hl)). simpl.
  destruct (live_set ms l (init, s - init) Hg) as (ms' & Hset & Hg' & _ & Hl').
  { by eapply lookup_lt_Some. }
  rewrite (bind_Ret _ _ _ _ _ Hset). rewrite <- Hl'.
  assert (Hc' : caps_ok s (live ms')).
  { rewrite Hl'. apply Forall_insert; [done|].
    pose proof (Forall_lookup_1 _ _ _ _ Hc Hl) as [? _]. split; simpl in *; [lia|]. right. right. lia. }
  apply (agrees_then D _ _ ms' (live ms) (live ms')); [by apply rec_ok|].
  intros ms2 Hg2 Hl2. destruct (live_set ms2 l (init, CAP_UNFINISHED) Hg2) as (ms3 & Hset3 & Hg3 & _ & Hl3).
  { rewrite Hl2, Hl', length_insert. by eapply lookup_lt_Some. }
  exists ms3. rewrite (bind_Ret _ _ _ _ _ Hset3). split_and!; [done|done|].
  rewrite Hl3, Hl2, Hl', list_insert_insert_eq. by apply list_insert_id.
Qed.
End captures.

(** ** Back references and balanced text *)

Lemma match_capture_ok s rest d ms :
  suf src s rest -> good ms -> caps_ok s (live ms) -> isdigit d = true ->
  match (if d - ch "1" <? 0 then None else live ms !! Z.to_nat (d - ch "1")) with
  | None => match_capture src s d ms = Throw ms "invalid capture index %%%d"
  | Some (init, len) =>
      match_capture src s d ms =
      if len =? CAP_UNFINISHED then Throw ms "invalid capture index %%%d"
      else if len =? CAP_POSITION then Ret ms None
      else if bool_decide (take (Z.to_nat len) (drop (Z.to_nat init) src) `prefix_of` rest)
           then Ret ms (Some (s + len)) else Ret ms None
  end.
Proof.
  intros Hs Hg Hc Hd. unfold match_capture, check_capture. set (l := d - ch "1").
  pose proof (live_length ms Hg) as Hn. pose proof Hs as (Hs0 & Hs1 & _).
  destruct (Z.ltb_spec l 0) as [Hl|Hl].
  { apply bind_Throw. by erewrite bind_Ret by reflexivity. }
  destruct (live ms !! Z.to_nat l) as [[init len]|] eqn:Hx.
  2: { apply lookup_ge_None in Hx. apply bind_Throw. erewrite bind_Ret by reflexivity.
       rewrite Z.geb_leb, (proj2 (Z.leb_le (level ms) l)) by lia. done. }
  pose proof (lookup_lt_Some _ _ _ Hx) as Hlt.
  pose proof (live_get ms _ _ Hg Hx) as Hget. rewrite Z2Nat.id in Hget by lia.
  destruct (Z.eqb_spec len CAP_UNFINISHED) as [->|Hu].
  { apply bind_Throw. erewrite bind_Ret by reflexivity.
    rewrite Z.geb_leb, (proj2 (Z.leb_gt (level ms) l)) by lia. simpl.
    by rewrite (bind_Ret _ _ _ _ _ Hget). }
  assert (Hck : (level ← get_level;
     if false || (l >=? level) then luaL_error "invalid capture index %%%d"
     else '(_, len) ← get_capture l;
          if len =? CAP_UNFINISHED then luaL_error "invalid capture index %%%d" else mret l) ms = Ret ms l).
  { erewrite bind_Ret by reflexivity.
    rewrite Z.geb_leb, (proj2 (Z.leb_gt (level ms) l)) by lia. simpl.
    rewrite (bind_Ret _ _ _ _ _ Hget). by rewrite (proj2 (Z.eqb_neq len CAP_UNFINISHED)). }
  rewrite (bind_Ret _ _ _ _ _ Hck), (bind_Ret _ _ _ _ _ Hget). unfold src_end. rewrite Z.geb_leb.
  pose proof (Forall_lookup_1 _ _ _ _ Hc Hx) as [H1 H2]. simpl in H1, H2.
  destruct (Z.eqb_spec len CAP_POSITION) as [->|Hp].
  { change (u64 CAP_POSITION) with (2 ^ 64 - 2). rewrite (proj2 (Z.leb_gt _ (zlen src - s))) by lia. done. }
  assert (Hlen : 0 <= len /\ init + len <= s) by (destruct H2 as [?|[?|?]]; done). clear H2.
  rewrite wrap_small by (unfold in_u; lia).
  assert (Htext : length (take (Z.to_nat len) (drop (Z.to_nat init) src)) = Z.to_nat len).
  { rewrite length_take, length_drop. lia. }
  destruct (Z.leb_spec len (zlen src - s)) as [Hfit|Hfit].
  - rewrite (bind_Ret _ _ _ _ _ (at_loads src init len ms ltac:(lia) ltac:(lia) ltac:(lia))).
    rewrite (bind_Ret _ _ _ _ _ (suf_loads src s rest len ms Hs ltac:(lia))).
    case_bool_decide as Heq; case_bool_decide as Hpre; try done.
    + exfalso. apply Hpre. rewrite Heq. eexists. symmetry. apply take_drop.
    + exfalso. apply Heq. destruct Hpre as [k ->]. by rewrite take_app_length' by done.
  - rewrite bool_decide_eq_false_2; [done|]. intros Hpre%prefix_length. lia.
Qed.

Lemma balance_loop_ok b e fuel s rest cont ms :
  suf src s rest -> (length rest <= fuel)%nat -> 1 <= Z.of_nat cont <= s ->
  balance_loop src fuel s b e (Z.of_nat cont) ms =
  Ret ms ((fun n => s + Z.of_nat n) <$> balanced b e cont rest).
Proof.
  revert s rest cont. induction fuel as [|fuel IH]; intros s rest cont Hs Hf Hc;
    pose proof Hs as (Hs0 & Hs1 & _).
  { destruct rest; [|simpl in Hf; lia]. simpl in *. unfold src_end.
    by rewrite (proj2 (Z.ltb_ge s (zlen src))) by lia. }
  destruct rest as [|x rest]; simpl balance_loop; unfold src_end.
  { by rewrite (proj2 (Z.ltb_ge s (zlen src))) by (simpl in *; lia). }
  rewrite length_cons in Hs1. rewrite (proj2 (Z.ltb_lt s (zlen src))) by lia.
  loadp Hs. pose proof (suf_cons _ _ _ _ Hs) as Hr. simpl in Hf. cbn [balanced].
  assert (Hsh : forall o : option nat,
    (fun n => s + Z.of_nat n) <$> (S <$> o) = (fun n => s + 1 + Z.of_nat n) <$> o).
  { intros [n|]; [|done]. cbn. f_equal. lia. }
  destruct (x =? e).
  - destruct (Z.eqb_spec (Z.of_nat cont - 1) 0) as [H1|H1].
    + replace cont with 1%nat by lia. rewrite Hsh. cbn. unfold mret, st_ret. do 2 f_equal. lia.
    + destruct cont as [|[|cont]]; [lia|lia|]. rewrite Hsh. cbn [Nat.pred].
      rewrite <- (IH _ rest (S cont) Hr) by lia. f_equal. lia.
  - rewrite Hsh. destruct (x =? b).
    + rewrite (proj2 (Z.ltb_lt _ (2 ^ 31 - 1))) by lia.
      rewrite <- (IH _ rest (S cont) Hr) by lia. f_equal. lia.
    + apply (IH _ rest cont Hr); lia.
Qed.

Lemma matchbalance_ok s p b e r ms :
  0 <= s <= zlen src -> suf pat p (b :: e :: r) ->
  matchbalance src pat s p ms = Ret ms (match_end src b e s).
Proof.
  intros Hs Hp. unfold matchbalance, match_end. pose proof Hp as (_ & Hp1 & _). rewrite !length_cons in Hp1.
  unfold p_end. rewrite Z.geb_leb, (proj2 (Z.leb_gt (zlen pat - 1) p)) by lia.
  pose proof (suf_at src s Hs) as Hss. set (rest := drop _ src) in *. loadp Hss. loadp Hp.
  destruct rest as [|x rest].
  - cbn [hd]. destruct (Z.eqb_spec 0 b); cbn [negb]; [|done]. pose proof (suf_cons _ _ _ _ Hp) as Hp2. loadp Hp2.
    apply suf_nil in Hss. subst s.
    assert (forall fuel, balance_loop src fuel (zlen src + 1) b e 1 ms = Ret ms None) as ->; [|done].
    intros []; simpl; unfold src_end; by rewrite (proj2 (Z.ltb_ge (zlen src + 1) (zlen src))) by lia.
  - cbn [hd]. destruct (x =? b); cbn [negb]; [|done]. pose proof (suf_cons _ _ _ _ Hp) as Hp2. loadp Hp2.
    pose proof Hss as (_ & Hl & _). rewrite length_cons in Hl.
    apply (balance_loop_ok b e _ (s + 1) rest 1); [by apply suf_cons in Hss|lia|lia].
Qed.

(** ** One item *)

Section item.
Context (d len : nat) (rec init : Z -> Z -> M (option Z)).
Hypothesis rec_ok : forall s p l ms,
  (length l <= len)%nat ->
  0 <= s <= zlen src -> suf pat p l -> good ms -> caps_ok s (live ms) ->
  agrees (d <= length (parse l))%nat (rec s p ms) (live ms) (run src (parse l) s (live ms)).
Hypothesis init_ok : forall s p l ms,
  (length l <= len)%nat ->
  0 <= s <= zlen src -> suf pat p l -> good ms -> caps_ok s (live ms) ->
  agrees (S d <= length (parse l))%nat (init s p ms) (live ms) (run src (parse l) s (live ms)).

(** The agreement to prove for an item and the rest of the pattern. *)
Definition item_agrees (o : outcome MatchState (option Z)) (ir : item * list Z) (s : Z) (cs : caps) : Prop :=
  agrees (S d <= S (length (parse ir.2)))%nat o cs (run src (ir.1 :: parse ir.2) s cs).

Lemma item_rec s p l ms it s' :
  (length l <= len)%nat ->
  0 <= s' <= zlen src -> suf pat p l -> good ms -> caps_ok s' (live ms) ->
  run src (it :: parse l) s (live ms) = run src (parse l) s' (live ms) ->
  item_agrees (rec s' p ms) (it, l) s (live ms).
Proof.
  intros Hl Hs Hp Hg Hc Hr. unfold item_agrees. simpl fst; simpl snd. rewrite Hr.
  eapply agrees_deep; [|by apply rec_ok]. lia.
Qed.

Lemma item_init s p l ms it s' :
  (length l <= len)%nat ->
  0 <= s' <= zlen src -> suf pat p l -> good ms -> caps_ok s' (live ms) ->
  run src (it :: parse l) s (live ms) = run src (parse l) s' (live ms) ->
  item_agrees (init s' p ms) (it, l) s (live ms).
Proof.
  intros Hl Hs Hp Hg Hc Hr. unfold item_agrees. simpl fst; simpl snd. rewrite Hr.
  eapply agrees_deep; [|by apply init_ok]. lia.
Qed.

Lemma item_fail s l ms it :
  good ms -> run src (it :: parse l) s (live ms) = [] -> item_agrees (Ret ms None) (it, l) s (live ms).
Proof. intros Hg Hr. unfold item_agrees. simpl fst; simpl snd. rewrite Hr. by apply agrees_fail. Qed.

Lemma item_throw s l ms it msg cs :
  run src (it :: parse l) s cs = [Err msg] -> item_agrees (Throw ms msg) (it, l) s cs.
Proof. intros Hr. unfold item_agrees. simpl fst; simpl snd. rewrite Hr. right. by exists ms. Qed.

Section suffix.
(** A class that ends at [ep], a subject that continues with [rest]. *)
Context (k : cls) (p ep s : Z) (rest : list Z) (ms : MatchState).
Hypothesis (Hk : class_at src pat k p ep) (Hs : suf src s rest) (Hg : good ms) (Hc : caps_ok s (live ms)).

Lemma rest_drop : drop (Z.to_nat s) src = rest.
Proof. apply Hs. Qed.

Lemma suffix_star r :
  suf pat (ep + 1) r -> (length r <= len)%nat -> item_agrees (max_expand src pat rec s p ep ms) (IStar k, r) s (live ms).
Proof.
  intros Hr Hlr. unfold item_agrees. simpl. rewrite rest_drop.
  eapply (max_expand_ok rec _ ep (run src (parse r))); try done.
  intros s' ms' Hs' Hg' Hc'. eapply agrees_deep; [|by apply rec_ok]. lia.
Qed.

Lemma suffix_min r :
  suf pat (ep + 1) r -> (length r <= len)%nat -> item_agrees (min_expand src pat rec s p ep ms) (IMin k, r) s (live ms).
Proof.
  intros Hr Hlr. unfold item_agrees. simpl. rewrite rest_drop. pose proof Hs as (? & ? & _).
  eapply (min_expand_ok rec _ ep (run src (parse r))); try done; [|lia].
  intros s' ms' Hs' Hg' Hc'. eapply agrees_deep; [|by apply rec_ok]. lia.
Qed.

Lemma suffix_plus c rest' r :
  rest = c :: rest' -> cls_match k c = true ->
  suf pat (ep + 1) r -> (length r <= len)%nat -> item_agrees (max_expand src pat rec (s + 1) p ep ms) (IPlus k, r) s (live ms).
Proof.
  intros -> Hm Hr Hlr. unfold item_agrees. cbn [fst snd run]. rewrite (proj2 (proj2 Hs)). cbn [reps]. rewrite Hm.
  change (concat _) with (tries (run src (parse r)) s (live ms) (reverse (seq 1 (S (reps k rest'))))).
  rewrite tries_shift_rev.
  eapply (max_expand_ok rec _ ep (run src (parse r))); try done.
  - intros s' ms' Hs' Hg' Hc'. eapply agrees_deep; [|by apply rec_ok]. lia.
  - by apply suf_cons in Hs.
  - eapply caps_ok_mono; [|done]. lia.
Qed.

Lemma suffix_opt c rest' r :
  rest = c :: rest' -> cls_match k c = true -> (length r <= len)%nat -> suf pat (ep + 1) r ->
  item_agrees
    ((res ← rec (s + 1) (ep + 1);
      match res with Some e => mret (Some e) | None => init s (ep + 1) end) ms) (IOpt k, r) s (live ms).
Proof.
  intros -> Hm Hl Hr. unfold item_agrees. cbn [fst snd run]. rewrite (proj2 (proj2 Hs)). cbn [reps]. rewrite Hm.
  cbn [Nat.ltb Nat.leb]. pose proof Hs as (? & Hn & _). rewrite length_cons in Hn.
  apply agrees_or.
  - eapply agrees_deep; [|apply rec_ok; try done]; [lia|lia|]. eapply caps_ok_mono; [|done]. lia.
  - intros ms' Hg' Hl'. rewrite <- Hl'. eapply agrees_deep; [|apply init_ok; try done]; [lia|lia|].
    by rewrite Hl'.
Qed.
End suffix.

(** The run of an item that may be empty, on no match of its class. *)
Lemma run_empty k it l s ms :
  it = IStar k \/ it = IOpt k \/ it = IMin k ->
  reps k (drop (Z.to_nat s) src) = 0%nat ->
  run src (it :: parse l) s (live ms) = run src (parse l) s (live ms).
Proof.
  intros H Hr. destruct H as [->|[->| ->]]; cbn [run]; rewrite Hr; cbn; rewrite ?Z.add_0_r, ?app_nil_r; done.
Qed.

Lemma match_default_ok x l s p ms :
  suf pat p (x :: l) -> (length l <= len)%nat ->
  0 <= s <= zlen src -> good ms -> caps_ok s (live ms) ->
  item_agrees (match_default src pat rec init s p ms) (parse_single x l) s (live ms).
Proof.
  intros Hp Hl Hs Hg Hc. unfold match_default, parse_single.
  pose proof (class_ok src pat p x l ms Hp) as Hclass.
  pose proof (suf_at src s Hs) as Hss.
  destruct (parse_class x l) as [[k r]|msg] eqn:Epc.
  2: { rewrite (bind_Throw _ _ _ _ _ Hclass). by apply item_throw. }
  apply parse_class_shorter in Epc.
  destruct Hclass as (ep & Hce & Her & Hk).
  rewrite (bind_Ret _ _ _ _ _ Hce), (bind_Ret _ _ _ _ _ (Hk _ _ ms Hss)).
  rewrite (bind_Ret _ _ _ _ _ (suf_load _ _ _ ms Her)).
  destruct (match drop (Z.to_nat s) src with c :: _ => cls_match k c | [] => false end) eqn:Em; cbn [negb].
  - destruct (drop (Z.to_nat s) src) as [|c rest'] eqn:Er; [done|].
    pose proof Hss as (_ & Hn & _). rewrite length_cons in Hn.
    assert (Hone : forall r, suf pat ep r -> (length r <= len)%nat ->
      item_agrees (init (s + 1) ep ms) (IOne k, r) s (live ms)).
    { intros r0 Hr0 Hl0. apply item_init; try done; [lia| |]; [eapply caps_ok_mono; [|done]; lia|].
      cbn [run]. by rewrite Er, Em. }
    destruct r as [|y r]; [apply Hone; [done|simpl; lia]|].
    pose proof (suf_cons _ _ _ _ Her) as Her1. simpl in Epc. cbn [hd].
    destruct (Z.eqb_spec y (ch "*")) as [->|]; [apply (suffix_star k p ep s (c :: rest')); done || lia|].
    destruct (Z.eqb_spec y (ch "?")) as [->|].
    { apply (suffix_opt k ep s (c :: rest') ms Hss Hg Hc c rest'); try done. lia. }
    destruct (Z.eqb_spec y (ch "+")) as [->|].
    { apply (suffix_plus k p ep s (c :: rest') ms Hk Hss Hg Hc c rest'); done || lia. }
    destruct (Z.eqb_spec y (ch "-")) as [->|]; [apply (suffix_min k p ep s (c :: rest')); done || lia|].
    apply Hone; [done|simpl; lia].
  - pose proof (unmatched _ _ Em) as Hr0.
    assert (Hnone : forall r it, it = IOne k \/ it = IPlus k -> item_agrees (Ret ms None) (it, r) s (live ms)).
    { intros r0 it [-> | ->]; (apply item_fail; [done|]); cbn [run]; [|by rewrite Hr0].
      destruct (drop (Z.to_nat s) src); [done|]. by rewrite Em. }
    destruct r as [|y r]; [apply Hnone; by left|].
    pose proof (suf_cons _ _ _ _ Her) as Her1. simpl in Epc. cbn [hd].
    destruct (Z.eqb_spec y (ch "*")) as [->|]; [apply item_init; try done; [lia|apply run_empty with k; auto]|].
    destruct (Z.eqb_spec y (ch "?")) as [->|]; [apply item_init; try done; [lia|apply run_empty with k; auto]|].
    destruct (Z.eqb_spec y (ch "-")) as [->|]; [apply item_init; try done; [lia|apply run_empty with k; auto]|].
    cbn [orb]. destruct (y =? ch "+"); apply Hnone; auto.
Qed.

Lemma frontier_ok k l s p ms :
  suf pat p (ch "[" :: l) -> (length l <= len)%nat ->
  0 <= s <= zlen src -> good ms -> caps_ok s (live ms) ->
  parse_class (ch "[") l = Ok k ->
  item_agrees
    ((ep ← classend pat p;
      previous ← (if s =? 0 then mret 0 else load src (s - 1));
      out ← matchbracketclass pat previous p (ep - 1);
      if negb out then
        c ← load src s;
        into ← matchbracketclass pat c p (ep - 1);
        if into : bool then init s ep else mret None
      else mret None) ms) (IFront k.1, k.2) s (live ms).
Proof.
  destruct k as [k r]. simpl. intros Hp Hl Hs Hg Hc Epc.
  pose proof (bracket_class_ok pat p l ms Hp) as Hclass. rewrite Epc in Hclass.
  apply parse_class_shorter in Epc. destruct Hclass as (ep & Hce & Her & Hk).
  rewrite (bind_Ret _ _ _ _ _ Hce).
  set (prev := if s =? 0 then 0 else nth (Z.to_nat (s - 1)) src 0).
  assert (Hnth : forall i, 0 <= i <= zlen src -> load src i ms = Ret ms (nth (Z.to_nat i) src 0)).
  { intros i Hi. rewrite (suf_load src i _ ms (suf_at src i Hi)). f_equal.
    rewrite <- (Nat.add_0_r (Z.to_nat i)) at 2. rewrite <- nth_skipn. by destruct (skipn _ _). }
  assert (Hprev : (if s =? 0 then mret 0 else load src (s - 1)) ms = Ret ms prev).
  { subst prev. destruct (Z.eqb_spec s 0); [done|]. apply Hnth. lia. }
  rewrite (bind_Ret _ _ _ _ _ Hprev), (bind_Ret _ _ _ _ _ (Hk prev ms)).
  destruct (cls_match k prev) eqn:Eo; cbn [negb].
  { apply item_fail; [done|]. cbn [run]. fold prev. by rewrite Eo. }
  rewrite (bind_Ret _ _ _ _ _ (Hnth s Hs)), (bind_Ret _ _ _ _ _ (Hk _ ms)).
  destruct (cls_match k (nth (Z.to_nat s) src 0)) eqn:Ei.
  - apply item_init; try done; [lia|]. cbn [run]. fold prev. by rewrite Eo, Ei.
  - apply item_fail; [done|]. cbn [run]. fold prev. by rewrite Eo, Ei.
Qed.

Lemma match_escape_ok l s p ms :
  suf pat p (L_ESC :: l) -> (length l <= len)%nat ->
  0 <= s <= zlen src -> good ms -> caps_ok s (live ms) ->
  item_agrees (match_escape src pat rec init s p ms) (parse_escape L_ESC l) s (live ms).
Proof.
  intros Hp Hl Hs Hg Hc. unfold match_escape. pose proof (suf_cons _ _ _ _ Hp) as Hp1. loadp Hp1.
  destruct l as [|y r]; [by apply match_default_ok|]. cbn [hd parse_escape].
  pose proof (suf_cons _ _ _ _ Hp1) as Hp2. rewrite <- Z.add_assoc in Hp2. simpl in Hl.
  destruct (Z.eqb_spec y (ch "b")) as [->|_].
  { destruct r as [|b [|e r]].
    1,2: rewrite (bind_Throw _ _ _ ms "malformed pattern (missing arguments to '%%b')"); [by apply item_throw|];
      destruct Hp2 as (_ & Hn & _); simpl in Hn; unfold matchbalance, p_end;
      by rewrite Z.geb_leb, (proj2 (Z.leb_le (zlen pat - 1) (p + 2))) by lia.
    rewrite (bind_Ret _ _ _ _ _ (matchbalance_ok s (p + 2) b e r ms Hs Hp2)).
    destruct (match_end src b e s) as [s'|] eqn:Em.
    - pose proof (match_end_range _ _ _ _ _ Hs Em). simpl in Hl.
      apply item_init; try done; [lia|lia| | |].
      + apply suf_cons, suf_cons in Hp2. by rewrite <- !Z.add_assoc in Hp2.
      + eapply caps_ok_mono; [|done]. lia.
      + cbn [run]. by rewrite Em.
    - apply item_fail; [done|]. cbn [run]. by rewrite Em. }
  destruct (Z.eqb_spec y (ch "f")) as [->|_].
  { rewrite (bind_Ret _ _ _ _ _ (suf_load _ _ _ ms Hp2)).
    case_bool_decide as Hh.
    - destruct r as [|z r]; [done|]. simplify_eq/=.
      destruct (parse_class (ch "[") r) as [k|msg] eqn:Epc.
      + destruct k as [k r']. apply (frontier_ok (k, r') r); try done. simpl in Hl. lia.
      + pose proof (bracket_class_ok pat (p + 2) r ms Hp2) as Hclass. rewrite Epc in Hclass.
        rewrite (bind_Throw _ _ _ _ _ Hclass). by apply item_throw.
    - assert ((hd 0 r =? ch "[") = false) as ->; [|by apply item_throw].
      destruct r as [|z r]; [done|]. simpl in *. apply Z.eqb_neq. congruence. }
  destruct (isdigit y) eqn:Ed; [|by apply match_default_ok].
  pose proof (suf_at src s Hs) as Hss.
  pose proof (match_capture_ok s _ y ms Hss Hg Hc Ed) as Hcap.
  destruct (if y - ch "1" <? 0 then None else live ms !! Z.to_nat (y - ch "1")) as [[i n]|] eqn:El.
  2: { rewrite (bind_Throw _ _ _ _ _ Hcap). apply item_throw. cbn [run]. by rewrite El. }
  destruct (n =? CAP_UNFINISHED) eqn:Eu.
  { rewrite (bind_Throw _ _ _ _ _ Hcap). apply item_throw. cbn [run]. by rewrite El, Eu. }
  destruct (n =? CAP_POSITION) eqn:Ep.
  { rewrite (bind_Ret _ _ _ _ _ Hcap). apply item_fail; [done|]. cbn [run]. by rewrite El, Eu, Ep. }
  destruct (bool_decide _) eqn:Eb in Hcap.
  2: { rewrite (bind_Ret _ _ _ _ _ Hcap). apply item_fail; [done|]. cbn [run]. by rewrite El, Eu, Ep, Eb. }
  rewrite (bind_Ret _ _ _ _ _ Hcap). pose proof (bool_decide_eq_true_1 _ Eb) as Hpre.
  assert (Hn : 0 <= n /\ s + n <= zlen src).
  { destruct (y - ch "1" <? 0); [done|]. pose proof (Forall_lookup_1 _ _ _ _ Hc El) as [H1 H2]. simpl in H1, H2.
    apply Z.eqb_neq in Eu, Ep. destruct H2 as [?|[?|[H2 H3]]]; [done|done|]. split; [done|].
    apply prefix_length in Hpre. rewrite length_take, !length_drop in Hpre. lia. }
  apply item_init; try done; [lia|lia| |].
  - eapply caps_ok_mono; [|done]. lia.
  - cbn [run]. by rewrite El, Eu, Ep, Eb.
Qed.

End item.

End main.
End depth.

(** ** The engine *)

Section engine.
Context (src pat : list Z) (Hsrc : zlen src < 2 ^ 31).

(** The nesting is restored. *)
Lemma agrees_restore d D (m : M (option Z)) ms cs l :
  agrees d D (m ms) cs l ->
  agrees (d + 1) D ((e ← m; x ← get_depth; _ ← set_depth (x + 1); mret e) ms) cs l.
Proof.
  assert (Hset : forall ms' e, good d ms' -> let ms2 := MkMS (level ms') (capture ms') (d + 1) in
    (x ← get_depth; _ ← set_depth (x + 1); mret e) ms' = Ret ms2 (e : option Z) /\ good (d + 1) ms2 /\ live ms2 = live ms').
  { intros ms' e (H1 & H2 & <-). by split_and!. }
  intros [[HD [ms' H]]|H]; [left; split; [done|]; exists ms'; by apply bind_Throw|]. right.
  destruct l as [|[[e cs']|msg] l].
  - destruct H as (ms' & H & Hg & <-). rewrite (bind_Ret _ _ _ _ _ H). destruct (Hset ms' None Hg) as (-> & H2 & H3). eauto.
  - destruct H as (ms' & H & Hg & <-). rewrite (bind_Ret _ _ _ _ _ H). destruct (Hset ms' (Some e) Hg) as (-> & H2 & H3). eauto.
  - destruct H as (ms' & H). exists ms'. by apply bind_Throw.
Qed.

(** [match_] at the text [l] of the pattern, with [d] levels of nesting left, agrees
    with the reference. *)
Definition match_ok (fuel : nat) : Prop := forall d s p l ms,
  (length l < fuel)%nat ->
  0 <= s <= zlen src -> suf pat p l -> good (Z.of_nat d) ms -> caps_ok s (live ms) ->
  agrees (Z.of_nat d) (d <= length (parse l))%nat (match_ src pat fuel s p ms) (live ms) (run src (parse l) s (live ms)).

Lemma match_loop_ok rfuel d fuel s p l ms :
  match_ok rfuel -> (length l <= rfuel)%nat -> (length l < fuel)%nat ->
  0 <= s <= zlen src -> suf pat p l -> good (Z.of_nat d) ms -> caps_ok s (live ms) ->
  agrees (Z.of_nat d) (S d <= length (parse l))%nat (match_loop src pat (match_ src pat rfuel) fuel s p ms) (live ms)
    (run src (parse l) s (live ms)).
Proof.
  intros Hd. revert s p l ms. induction fuel as [|fuel IH]; intros s p l ms Hrf Hf Hs Hp Hg Hc; [lia|].
  cbn [match_loop]. unfold p_end. destruct l as [|x l].
  { rewrite (suf_nil _ _ Hp), Z.eqb_refl. right. exists ms. done. }
  pose proof Hp as (_ & Hn & _). rewrite length_cons in Hn. simpl in Hf, Hrf.
  rewrite (proj2 (Z.eqb_neq p (zlen pat))) by lia. loadp Hp. rewrite parse_cons.
  lazymatch goal with |- agrees ?dep _ ?o _ _ => change (item_agrees dep src d o (parse_item x l) s (live ms)) end.
  pose proof (suf_cons _ _ _ _ Hp) as Hp1.
  assert (Hinit : forall s p l' ms, (length l' <= length l)%nat ->
    0 <= s <= zlen src -> suf pat p l' -> good (Z.of_nat d) ms -> caps_ok s (live ms) ->
    agrees (Z.of_nat d) (S d <= length (parse l'))%nat (match_loop src pat (match_ src pat rfuel) fuel s p ms) (live ms)
      (run src (parse l') s (live ms))) by (intros; apply IH; try done; lia).
  assert (Hrec : forall s p l' ms, (length l' <= length l)%nat ->
    0 <= s <= zlen src -> suf pat p l' -> good (Z.of_nat d) ms -> caps_ok s (live ms) ->
    agrees (Z.of_nat d) (d <= length (parse l'))%nat (match_ src pat rfuel s p ms) (live ms)
      (run src (parse l') s (live ms))) by (intros; apply Hd; try done; lia).
  assert (Hcapt : forall q r, suf pat q r -> (length r <= length l)%nat ->
    forall s ms, 0 <= s <= zlen src -> good (Z.of_nat d) ms -> caps_ok s (live ms) ->
    agrees (Z.of_nat d) (S d <= S (length (parse r)))%nat (match_ src pat rfuel s q ms) (live ms) (run src (parse r) s (live ms))).
  { intros q r Hq Hlr s' ms' Hs' Hg' Hc'. eapply agrees_deep; [|by apply Hrec]. lia. }
  unfold parse_item. destruct (Z.eqb_spec x (ch "(")) as [->|_].
  { loadp Hp1. case_bool_decide as Hh.
    - destruct l as [|y r]; [done|]. simplify_eq/=. apply suf_cons in Hp1. rewrite <- Z.add_assoc in Hp1.
      apply (start_capture_ok _ _ _ _ _ _ (Hcapt _ _ Hp1 ltac:(simpl; lia))); auto.
    - assert ((hd 0 l =? ch ")") = false) as ->.
      { destruct l as [|y r]; [done|]. simpl in *. apply Z.eqb_neq. congruence. }
      apply (start_capture_ok _ _ _ _ _ _ (Hcapt _ _ Hp1 ltac:(lia))); auto. }
  destruct (Z.eqb_spec x (ch ")")) as [->|_].
  { apply (end_capture_ok _ _ _ _ _ _ (Hcapt _ _ Hp1 ltac:(lia))); auto. }
  destruct (Z.eqb_spec x (ch "$")) as [->|_]; cbn [andb].
  { destruct l as [|y r].
    - rewrite (suf_nil _ _ Hp1), Z.eqb_refl. unfold item_agrees. cbn. unfold src_end.
      destruct (s =? zlen src); [right; by exists ms|by apply agrees_fail].
    - destruct Hp1 as (_ & Hn1 & _). rewrite length_cons in Hn1.
      rewrite (proj2 (Z.eqb_neq (p + 1) (zlen pat))) by lia.
      rewrite bool_decide_eq_false_2 by done. by apply (match_default_ok _ src pat d (length (y :: r))). }
  destruct (Z.eqb_spec x L_ESC) as [->|_].
  - by apply (match_escape_ok _ src pat Hsrc d (length l)).
  - by apply (match_default_ok _ src pat d (length l)).
Qed.

Lemma match_all_ok fuel : match_ok fuel.
Proof.
  induction fuel as [|fuel IH]; intros d s p l ms Hl Hs Hp Hg Hc; [lia|]. cbn [match_].
  pose proof Hg as (H1 & H2 & H3). erewrite bind_Ret by reflexivity. erewrite bind_Ret by reflexivity. rewrite H3.
  destruct d as [|d]; [left; split; [lia|]; by eexists|]. rewrite (proj2 (Z.eqb_neq _ 0)) by lia.
  rewrite Nat2Z.inj_succ, Z.sub_1_r, Z.pred_succ, <- Z.add_1_r. set (ms1 := MkMS _ _ _).
  change (live ms) with (live ms1). apply agrees_restore. apply match_loop_ok; try done; [lia|]. destruct Hp as (? & Hn & _). lia.
Qed.
End engine.
End PatternMatch.
