(* ===== verification/PatternSpec.v ===== *)
(** * What the pattern functions of the string library compute *)

From S2P Require Import Prelude LuaValue LuaPattern PatternRef PatternFacts PatternMatch.

Module PatternSpec.
Import LuaValue LuaPattern PatternRef PatternFacts PatternMatch.
Open Scope string_scope.
Open Scope list_scope.
Open Scope Z_scope.

(** ** Matches lie inside the subject *)

(** A match that ends at or after [s] and whose captures lie before its end. *)
Definition in_range (src : list Z) (s : Z) (r : res (Z * caps)) : Prop :=
  match r with Ok (e, cs) => s <= e <= zlen src /\ caps_ok e cs | Err _ => True end.

Lemma in_range_mono src s s' l : s <= s' -> Forall (in_range src s') l -> Forall (in_range src s) l.
Proof.
  intros Hs H. eapply Forall_impl; [exact H|]. intros [[e cs]|]; simpl; [|done]. intros [? ?]. split; [lia|done].
Qed.

Lemma tries_range src s (next : Z -> caps -> list (res (Z * caps))) cs ns n :
  (forall i, (i <= n)%nat -> Forall (in_range src (s + Z.of_nat i)) (next (s + Z.of_nat i) cs)) ->
  Forall (fun i => i <= n)%nat ns ->
  Forall (in_range src s) (concat (map (fun i => next (s + Z.of_nat i) cs) ns)).
Proof.
  intros Hn Hns. apply Forall_concat, Forall_map. eapply Forall_impl; [exact Hns|].
  intros i Hi. simpl. apply (in_range_mono src s (s + Z.of_nat i)); [lia|by apply Hn].
Qed.

Lemma Forall_seq_le a n : (Forall (fun i => i < a + n) (seq a n))%nat.
Proof. apply Forall_forall. intros i Hi%elem_of_seq. lia. Qed.

Lemma run_range src its s cs :
  0 <= s <= zlen src -> caps_ok s cs -> Forall (in_range src s) (run src its s cs).
Proof.
  revert s cs. induction its as [|it its IH]; intros s cs Hs Hc.
  { repeat constructor; done || lia. }
  assert (Hrest : zlen (drop (Z.to_nat s) src) = zlen src - s) by (rewrite length_drop; lia).
  assert (Hnext : forall s', s <= s' <= zlen src -> Forall (in_range src s) (run src its s' cs)).
  { intros s' Hs'. apply (in_range_mono src s s'); [lia|]. apply IH; [lia|].
    eapply caps_ok_mono; [|done]. lia. }
  assert (Hmany : forall k ns, Forall (fun i => i <= reps k (drop (Z.to_nat s) src))%nat ns ->
    Forall (in_range src s) (concat (map (fun i => run src its (s + Z.of_nat i) cs) ns))).
  { intros k ns Hns. eapply (tries_range src s (run src its) cs ns); [|exact Hns]. intros i Hi.
    pose proof (reps_le k (drop (Z.to_nat s) src)). apply IH; [lia|]. eapply caps_ok_mono; [|done]. lia. }
  destruct it as [k|k|k|k|k| | | | |b e|k|d|msg]; cbn [run].
  - destruct (drop (Z.to_nat s) src) as [|c rest]; [done|]. destruct (cls_match k c); [|done].
    rewrite length_cons in Hrest. apply Hnext. lia.
  - apply Forall_app; split; [|apply Hnext; lia].
    destruct (Nat.ltb_spec 0 (reps k (drop (Z.to_nat s) src))); [|done].
    pose proof (reps_le k (drop (Z.to_nat s) src)). apply Hnext. lia.
  - apply (Hmany k), Forall_reverse. eapply Forall_impl; [apply Forall_seq_le|]. simpl. lia.
  - apply (Hmany k), Forall_reverse. eapply Forall_impl; [apply Forall_seq_le|]. simpl. lia.
  - apply (Hmany k). eapply Forall_impl; [apply Forall_seq_le|]. simpl. lia.
  - destruct (LUA_MAXCAPTURES <=? length cs)%nat; [by repeat constructor|]. apply IH; [lia|].
    apply Forall_app; split; [done|]. constructor; [|constructor]. split; simpl; [lia|auto].
  - destruct (LUA_MAXCAPTURES <=? length cs)%nat; [by repeat constructor|]. apply IH; [lia|].
    apply Forall_app; split; [done|]. constructor; [|constructor]. split; simpl; [lia|auto].
  - destruct (last_open cs (length cs)) as [l|] eqn:El; [|by repeat constructor].
    apply last_open_Some in El as [i Hl]. rewrite Hl. cbn [from_option fst]. apply IH; [lia|].
    apply Forall_insert; [done|]. pose proof (Forall_lookup_1 _ _ _ _ Hc Hl) as [H1 _]. simpl in H1.
    split; simpl; [lia|]. right; right. lia.
  - destruct (s =? zlen src); [apply Hnext; lia|done].
  - destruct (match_end src b e s) as [s'|] eqn:E; [|done]. apply match_end_range in E; [|done]. by apply Hnext.
  - destruct (_ && _); [apply Hnext; lia|done].
  - destruct (if d - ch "1" <? 0 then _ else _) as [[i n]|] eqn:El; [|by repeat constructor].
    destruct (Z.eqb_spec n CAP_UNFINISHED); [by repeat constructor|].
    destruct (Z.eqb_spec n CAP_POSITION); [done|]. case_bool_decide as Hpre; [|done].
    destruct (d - ch "1" <? 0); [done|]. pose proof (Forall_lookup_1 _ _ _ _ Hc El) as [H1 H2]. simpl in H1, H2.
    apply prefix_length in Hpre. rewrite length_take, !length_drop in Hpre. apply Hnext. lia.
  - by repeat constructor.
Qed.

(** ** Results and errors *)

Definition rbind {A B} (r : res A) (k : A -> res B) : res B :=
  match r with Ok a => k a | Err msg => Err msg end.

(** A [MatchState] as the C code allocates it, with any contents. *)
Definition raw (ms : MatchState) : Prop := length (capture ms) = LUA_MAXCAPTURES.

(** After [prepstate], and after every match since that raised no error. *)
Definition ready (ms : MatchState) : Prop := raw ms /\ matchdepth ms = Z.of_nat MAXCCALLS.
Abbreviation good := (PatternMatch.good (Z.of_nat MAXCCALLS)).

Lemma good_ready ms : good ms -> ready ms.
Proof. by intros (_ & H1 & H2). Qed.

(** The outcome is the given result, with a state of the right type. *)
Definition yields {A} (I : MatchState -> Prop) (o : outcome MatchState A) (r : res A) : Prop :=
  match r with
  | Ok a => exists ms, o = Ret ms a /\ I ms
  | Err msg => exists ms, o = Throw ms msg
  end.

Lemma yields_weaken {A} (I J : MatchState -> Prop) (o : outcome MatchState A) r :
  (forall ms, I ms -> J ms) -> yields I o r -> yields J o r.
Proof. intros H. destruct r; simpl; [|done]. intros (ms & ? & ?). eauto. Qed.

Lemma yields_bind {A B} I (m : M A) (k : A -> M B) ms ra rb :
  yields I (m ms) ra -> (forall a ms', ra = Ok a -> I ms' -> yields I (k a ms') (rb a)) ->
  yields I ((m ≫= k) ms) (rbind ra rb).
Proof.
  destruct ra as [a|msg]; simpl.
  - intros (ms' & H & Hg) Hk. rewrite (bind_Ret _ _ _ _ _ H). by apply Hk.
  - intros (ms' & H) _. exists ms'. by apply bind_Throw.
Qed.

(** ** The values of the captures *)

Definition text (src : list Z) (s e : Z) : list Z := take (Z.to_nat (e - s)) (drop (Z.to_nat s) src).

Definition cap_val (src : list Z) (c : Z * Z) : res pval :=
  if c.2 =? CAP_UNFINISHED then Err "unfinished capture"
  else if c.2 =? CAP_POSITION then Ok (PInt (c.1 + 1))
  else Ok (PStr (text src c.1 (c.1 + c.2))).

Fixpoint cap_vals (src : list Z) (cs : caps) : res (list pval) :=
  match cs with
  | [] => Ok []
  | c :: cs' => rbind (cap_val src c) (fun v => rbind (cap_vals src cs') (fun vs => Ok (v :: vs)))
  end.

(** All captures, or the whole match if there are none. *)
Definition captured (stack_ok : Z -> bool) (src : list Z) (whole : option (Z * Z)) (cs : caps) : res (list pval) :=
  let n := match cs, whole with [], Some _ => 1 | _, _ => zlen cs end in
  if negb (stack_ok n) then Err "too many captures"
  else match cs, whole with
       | [], Some (s, e) => Ok [PStr (text src s e)]
       | _, _ => cap_vals src cs
       end.

Section captured.
Context (stack_ok : Z -> bool) (src : list Z).

Lemma push_one_ok ms (i : nat) c s e :
  good ms -> caps_ok (zlen src) (live ms) -> live ms !! i = Some c ->
  yields ready (push_onecapture src (Z.of_nat i) s e ms) (cap_val src c) /\
  forall ms' v, push_onecapture src (Z.of_nat i) s e ms = Ret ms' v -> ms' = ms.
Proof.
  intros Hg Hc Hi. unfold push_onecapture, get_onecapture. destruct c as [init len].
  pose proof (live_length _ ms Hg) as Hn. pose proof (lookup_lt_Some _ _ _ Hi) as Hlt.
  assert (Hget : (level ← get_level;
     if Z.of_nat i >=? level then
       if negb (Z.of_nat i =? 0) then luaL_error "invalid capture index %%%d"
       else match s with Some s => mret (CapString s (e - s)) | None => fun _ => Stuck end
     else
       '(init, capl) ← get_capture (Z.of_nat i);
       if capl =? CAP_UNFINISHED then luaL_error "unfinished capture"
       else if capl =? CAP_POSITION then mret (CapPosition (init + 1))
       else mret (CapString init capl)) ms =
     (if len =? CAP_UNFINISHED then luaL_error "unfinished capture"
      else if len =? CAP_POSITION then mret (CapPosition (init + 1))
      else mret (CapString init len)) ms).
  { erewrite bind_Ret by reflexivity. rewrite Z.geb_leb, (proj2 (Z.leb_gt (level ms) (Z.of_nat i))) by lia.
    by rewrite (bind_Ret _ _ _ _ _ (live_get _ ms i _ Hg Hi)). }
  unfold cap_val. cbn [fst snd]. pose proof (Forall_lookup_1 _ _ _ _ Hc Hi) as [H1 H2]. simpl in H1, H2.
  destruct (Z.eqb_spec len CAP_UNFINISHED).
  { rewrite (bind_Throw _ _ _ _ _ Hget). split; [exists ms; auto using good_ready|done]. }
  destruct (Z.eqb_spec len CAP_POSITION).
  { rewrite (bind_Ret _ _ _ _ _ Hget). split; [exists ms; auto using good_ready|]. by intros ms' v [= ->]. }
  rewrite (bind_Ret _ _ _ _ _ Hget).
  rewrite (bind_Ret _ _ _ _ _ (at_loads src init len ms ltac:(lia) ltac:(lia) ltac:(lia))).
  unfold text. replace (init + len - init) with len by lia. split; [exists ms; auto using good_ready|]. by intros ms' v [= ->].
Qed.

Lemma push_from_ok ms n (i : nat) s e :
  good ms -> caps_ok (zlen src) (live ms) -> length (live ms) = (i + n)%nat ->
  yields ready (push_from src n (Z.of_nat i) s e ms) (cap_vals src (drop i (live ms))).
Proof.
  intros Hg Hc. revert i. induction n as [|n IH]; intros i Hn.
  { rewrite drop_ge by lia. exists ms; auto using good_ready. }
  destruct (lookup_lt_is_Some_2 (live ms) i) as [c Hi]; [lia|].
  rewrite (drop_S _ c) by done. cbn [push_from cap_vals].
  destruct (push_one_ok ms i c s e Hg Hc Hi) as [Hy Hsame].
  destruct (cap_val src c) as [v|msg]; simpl in Hy |- *.
  - destruct Hy as (ms' & Hp & _). pose proof (Hsame _ _ Hp) as ->. rewrite (bind_Ret _ _ _ _ _ Hp).
    apply yields_bind; [|intros vs ms' _ Hg'; exists ms'; auto using good_ready].
    replace (Z.of_nat i + 1) with (Z.of_nat (S i)) by lia. apply IH. lia.
  - destruct Hy as (ms' & Hp). exists ms'. by apply bind_Throw.
Qed.

Lemma push_captures_ok ms (whole : option (Z * Z)) :
  good ms -> caps_ok (zlen src) (live ms) ->
  (forall s e, whole = Some (s, e) -> 0 <= s <= e /\ e <= zlen src) ->
  yields ready (push_captures src stack_ok (fst <$> whole) (from_option snd 0 whole) ms)
    (captured stack_ok src whole (live ms)).
Proof.
  intros Hg Hc Hw. unfold push_captures, captured. erewrite bind_Ret by reflexivity.
  pose proof (live_length _ ms Hg) as Hn.
  destruct (live ms) as [|c cs] eqn:El.
  - change (zlen []) with 0 in Hn. rewrite <- Hn. destruct whole as [[s e]|]; cbn -[push_from Z.to_nat].
    + destruct (stack_ok 1); cbn -[push_from]; [|exists ms; auto using good_ready]. specialize (Hw s e eq_refl).
      change (Z.to_nat 1) with 1%nat. cbn [push_from]. unfold push_onecapture, get_onecapture.
      unfold mbind, st_bind. cbn. rewrite <- Hn. cbn.
      rewrite at_loads by lia. exists ms; auto using good_ready.
    + change (Z.of_nat 0) with 0. destruct (stack_ok 0); exists ms; auto using good_ready.
  - replace ((level ms =? 0) && _) with false.
    2: { symmetry. rewrite <- Hn, length_cons. by rewrite (proj2 (Z.eqb_neq _ 0)) by lia. }
    rewrite <- Hn. replace (match whole with Some _ => zlen (c :: cs) | None => _ end) with (zlen (c :: cs)) by
      by destruct whole.
    destruct (stack_ok (zlen (c :: cs))); cbn [negb].
    + rewrite Nat2Z.id. pose proof (push_from_ok ms (length (c :: cs)) 0 (fst <$> whole) (from_option snd 0 whole)) as Hp.
      rewrite El in Hp. by apply Hp.
    + exists ms; auto using good_ready.
Qed.
End captured.

(** ** A match at one position *)

(** The preferred match, if there is one. *)
Definition first_match (src : list Z) (its : list item) (s : Z) : option (res (Z * caps)) := head (run src its s []).

(** The items of the pattern from offset [p] on. *)
Definition items_at (pat : list Z) (p : Z) : list item := parse (drop (Z.to_nat p) pat).

(** An outcome of [match_at] that agrees with the preferred match. *)
Definition finds (o : outcome MatchState (option Z)) (r : option (res (Z * caps))) : Prop :=
  match r with
  | None => exists ms, o = Ret ms None /\ good ms
  | Some (Ok (e, cs)) => exists ms, o = Ret ms (Some e) /\ good ms /\ live ms = cs
  | Some (Err msg) => exists ms, o = Throw ms msg
  end.

Lemma match_at_agrees src pat s p ms :
  zlen src < 2 ^ 31 -> 0 <= s <= zlen src -> 0 <= p <= zlen pat -> ready ms ->
  agrees (Z.of_nat MAXCCALLS) (MAXCCALLS <= length (items_at pat p))%nat (match_at src pat s p ms) [] (run src (items_at pat p) s []).
Proof.
  intros Hsrc Hs Hp [Hms Hd]. unfold match_at, reprepstate.
  set (ms1 := MkMS 0 (capture ms) (matchdepth ms)). rewrite (bind_Ret _ _ _ ms1 tt) by done.
  change [] with (live ms1). apply match_all_ok; [done| |done|by apply suf_at| |constructor].
  - rewrite length_drop. lia.
  - split; [simpl; unfold LUA_MAXCAPTURES; lia|done].
Qed.

(** The pattern has too many items for the engine, which says so. *)
Definition too_complex {S A} (its : list item) (o : outcome S A) : Prop :=
  (MAXCCALLS <= length its)%nat /\ exists s, o = Throw s "pattern too complex".

Lemma too_complex_bind {S A B} its (m : ST S A) (k : A -> ST S B) s : too_complex its (m s) -> too_complex its ((m ≫= k) s).
Proof. intros [H [s' E]]. split; [done|]. exists s'. by apply bind_Throw. Qed.

Lemma match_at_finds src pat s p ms :
  zlen src < 2 ^ 31 -> 0 <= s <= zlen src -> 0 <= p <= zlen pat -> ready ms ->
  too_complex (items_at pat p) (match_at src pat s p ms) \/
  finds (match_at src pat s p ms) (first_match src (items_at pat p) s).
Proof.
  intros Hsrc Hs Hp Hms. destruct (match_at_agrees src pat s p ms) as [H|H]; try done; [by left|right].
  unfold first_match. destruct (run src (items_at pat p) s []) as [|[[e cs]|msg] l]; simpl in *; [|done|done].
  destruct H as (ms' & ? & ? & _). by exists ms'.
Qed.

Lemma first_match_range src its s e cs :
  0 <= s <= zlen src -> first_match src its s = Some (Ok (e, cs)) -> s <= e <= zlen src /\ caps_ok e cs.
Proof.
  intros Hs H. unfold first_match in H.
  assert (Hc : caps_ok s []) by constructor.
  pose proof (run_range src its s [] Hs Hc) as Hr.
  destruct (run src its s []) as [|r l]; simplify_eq/=. by apply Forall_cons in Hr as [Hr _].
Qed.

(** ** Searching *)

(** The match at the first of the positions [s], ..., [s + n] that has one. *)
Fixpoint search (src : list Z) (its : list item) (n : nat) (s : Z) : option (res (Z * Z * caps)) :=
  match first_match src its s with
  | Some (Ok (e, cs)) => Some (Ok (s, e, cs))
  | Some (Err msg) => Some (Err msg)
  | None => match n with O => None | S n' => search src its n' (s + 1) end
  end.

(** The values [string.find] and [string.match] return for it. *)
Definition found (stack_ok : Z -> bool) (find : bool) (src : list Z) (r : option (res (Z * Z * caps)))
    : res (list pval) :=
  match r with
  | None => Ok [PFail]
  | Some (Err msg) => Err msg
  | Some (Ok (s, e, cs)) =>
      if find then rbind (captured stack_ok src None cs) (fun vs => Ok (PInt (s + 1) :: PInt e :: vs))
      else captured stack_ok src (Some (s, e)) cs
  end.

Section find.
Context (stack_ok : Z -> bool) (src pat : list Z).
Hypothesis Hsrc : zlen src < 2 ^ 31.

Lemma find_loop_ok fuel s1 p (anchor find : bool) ms :
  0 <= s1 <= zlen src -> 0 <= p <= zlen pat -> zlen src - s1 < Z.of_nat fuel -> ready ms ->
  too_complex (items_at pat p) (find_loop stack_ok fuel src pat s1 p anchor find ms) \/
  yields ready (find_loop stack_ok fuel src pat s1 p anchor find ms)
    (found stack_ok find src
       (search src (items_at pat p) (if anchor then O else Z.to_nat (zlen src - s1)) s1)).
Proof.
  revert s1 ms. induction fuel as [|fuel IH]; intros s1 ms Hs Hp Hf Hms; [lia|]. cbn [find_loop].
  destruct (match_at_finds src pat s1 p ms Hsrc Hs Hp Hms) as [Hm|Hm]; [left; by apply too_complex_bind|].
  replace (search _ _ _ _) with
    (match first_match src (items_at pat p) s1 with
     | Some (Ok (e, cs)) => Some (Ok (s1, e, cs))
     | Some (Err msg) => Some (Err msg)
     | None =>
         match (if anchor then O else Z.to_nat (zlen src - s1)) with
         | O => None
         | S n' => search src (items_at pat p) n' (s1 + 1)
         end
     end) by by destruct anchor, (Z.to_nat (zlen src - s1)).
  destruct (first_match src (items_at pat p) s1) as [[[e cs]|msg]|] eqn:Ef; simpl in Hm.
  - destruct Hm as (ms' & Hm & Hg & Hl).
    rewrite (bind_Ret _ _ _ _ _ Hm). apply first_match_range in Ef as [He Hc]; [|done].
    assert (Hc' : caps_ok (zlen src) (live ms')) by (rewrite Hl; by eapply caps_ok_mono; [|done]; lia).
    right. cbn [found]. destruct find.
    + apply yields_bind; [|intros vs ms2 _ Hg2; by exists ms2]. rewrite <- Hl.
      by apply (push_captures_ok stack_ok src ms' None).
    + rewrite <- Hl. apply (push_captures_ok stack_ok src ms' (Some (s1, e))); try done.
      intros ? ? [= <- <-]. lia.
  - right. destruct Hm as (ms' & Hm). exists ms'. by apply bind_Throw.
  - destruct Hm as (ms' & Hm & Hg). rewrite (bind_Ret _ _ _ _ _ Hm). unfold src_end.
    destruct anchor; [right; rewrite andb_false_r; exists ms'; auto using good_ready|]. rewrite andb_true_r.
    destruct (Z.ltb_spec s1 (zlen src)) as [Hlt|Hge].
    + replace (Z.to_nat (zlen src - s1)) with (S (Z.to_nat (zlen src - (s1 + 1)))) by lia.
      apply IH; try done; [lia|lia|]. by apply good_ready.
    + replace (Z.to_nat (zlen src - s1)) with O by lia. right. exists ms'; auto using good_ready.
Qed.
End find.

(** ** Plain search *)

(** [p] occurs in [s] at offset [i]. *)
Definition occurs (s p : list Z) (i : Z) : Prop := p `prefix_of` drop (Z.to_nat i) s.

#[export] Instance occurs_dec s p i : Decision (occurs s p i).
Proof. unfold occurs. apply _. Defined.

(** [r] is the first occurrence from [i] on. *)
Definition first_occurrence (s p : list Z) (i : Z) (r : option Z) : Prop :=
  match r with
  | Some j => i <= j /\ j + zlen p <= zlen s /\ occurs s p j /\ forall k, i <= k < j -> ~ occurs s p k
  | None => forall k, i <= k <= zlen s -> ~ occurs s p k
  end.

Lemma occurs_fits s p i : 0 <= i <= zlen s -> occurs s p i -> i + zlen p <= zlen s.
Proof. intros Hi H%prefix_length. rewrite length_drop in H. lia. Qed.

Lemma index_of_spec c l :
  match index_of c l with
  | Some i => l !! i = Some c /\ forall j, (j < i)%nat -> l !! j <> Some c
  | None => forall j, l !! j <> Some c
  end.
Proof.
  induction l as [|x l IH]; [done|]. cbn [index_of]. destruct (Z.eqb_spec x c) as [->|Hx].
  - split; [done|]. lia.
  - destruct (index_of c l) as [i|]; cbn.
    + destruct IH as [H1 H2]. split; [done|]. intros [|j] Hj; [by intros [= ->]|]. apply H2. lia.
    + intros [|j]; [by intros [= ->]|]. apply IH.
Qed.

Lemma occurs_cons s c p i :
  0 <= i -> occurs s (c :: p) i <-> s !! Z.to_nat i = Some c /\ occurs s p (i + 1).
Proof.
  intros Hi. unfold occurs. replace (Z.to_nat (i + 1)) with (S (Z.to_nat i)) by lia.
  split.
  - intros [k Hk]. assert (Hl : s !! Z.to_nat i = Some c).
    { rewrite <- (Nat.add_0_r (Z.to_nat i)), <- lookup_drop, Hk. done. }
    split; [done|]. rewrite (drop_S _ c) in Hk by done. simplify_eq/=. rewrite Hk. by eexists.
  - intros [Hl [k Hk]]. rewrite (drop_S _ c), Hk by done. by eexists.
Qed.

Lemma occurs_slice s p i :
  0 <= i -> i + zlen p <= zlen s -> occurs s p i <-> take (length p) (drop (Z.to_nat i) s) = p.
Proof.
  intros Hi Hfit. split.
  - intros [k ->]. apply take_app_length.
  - intros H. exists (drop (length p) (drop (Z.to_nat i) s)). rewrite <- H at 1. symmetry. apply take_drop.
Qed.

Lemma lmemfind_loop_ok s c p fuel s1 l1 ms :
  0 <= s1 -> l1 = zlen s - s1 - zlen p -> (Z.to_nat l1 <= fuel)%nat -> s1 <= zlen s ->
  exists r, lmemfind_loop fuel s (c :: p) s1 l1 (zlen p) ms = Ret ms r /\ first_occurrence s (c :: p) s1 r.
Proof.
  revert s1 l1. induction fuel as [|fuel IH]; intros s1 l1 Hs1 Hl1 Hf Hle; cbn [lmemfind_loop].
  all: rewrite Z.gtb_ltb; destruct (Z.ltb_spec 0 l1) as [Hpos|Hpos]; [lia || idtac|].
  1,3: exists None; split; [done|]; intros k Hk Hocc; apply occurs_fits in Hocc; simpl in *; lia.
  assert (Hc0 : load (c :: p) 0 ms = Ret ms c) by done.
  rewrite (bind_Ret _ _ _ _ _ Hc0). clear Hc0.
  unfold memchr. rewrite bind_Ret with (s' := ms)
    (a := (fun i => s1 + Z.of_nat i) <$> index_of c (take (Z.to_nat l1) (drop (Z.to_nat s1) s))).
  2: { rewrite (bind_Ret _ _ _ _ _ (at_loads s s1 l1 ms ltac:(lia) ltac:(lia) ltac:(lia))). done. }
  pose proof (index_of_spec c (take (Z.to_nat l1) (drop (Z.to_nat s1) s))) as Hidx.
  assert (Hbefore : forall k i, s1 <= k < s1 + Z.of_nat i -> Z.of_nat i <= l1 ->
    (forall j, (j < i)%nat -> take (Z.to_nat l1) (drop (Z.to_nat s1) s) !! j <> Some c) ->
    ~ occurs s (c :: p) k).
  { intros k i Hk Hi Hj [Hl _]%occurs_cons; [|lia]. apply (Hj (Z.to_nat (k - s1))); [lia|].
    rewrite lookup_take_lt, lookup_drop by lia. rewrite <- Hl. f_equal. lia. }
  destruct (index_of c _) as [i|]; cbn [fmap option_fmap option_map].
  2: { exists None. split; [done|]. intros k Hk Hocc.
       assert (Hkl : k < s1 + l1) by (apply occurs_fits in Hocc; simpl in *; lia).
       revert Hocc. apply (Hbefore k (Z.to_nat l1)); [lia|lia|]. intros j _. apply Hidx. }
  destruct Hidx as [Hi Hj]. pose proof (lookup_lt_Some _ _ _ Hi) as Hil. rewrite length_take, length_drop in Hil.
  rewrite lookup_take_lt, lookup_drop in Hi by lia.
  rewrite (bind_Ret _ _ _ _ _ (at_loads s (s1 + Z.of_nat i + 1) (zlen p) ms ltac:(lia) ltac:(lia) ltac:(lia))).
  rewrite (bind_Ret _ _ _ _ _ (at_loads (c :: p) 1 (zlen p) ms ltac:(lia) ltac:(lia) ltac:(simpl; lia))).
  rewrite Nat2Z.id. change (drop (Z.to_nat 1) (c :: p)) with p. rewrite (take_ge p (length p)) by lia.
  assert (Hat : occurs s (c :: p) (s1 + Z.of_nat i) <->
                take (length p) (drop (Z.to_nat (s1 + Z.of_nat i + 1)) s) = p).
  { rewrite occurs_cons by lia. rewrite <- occurs_slice by lia. split; [by intros []|]. intros H. split; [|done].
    rewrite <- Hi. f_equal. lia. }
  case_bool_decide as Heq.
  - exists (Some (s1 + Z.of_nat i + 1 - 1)). split; [done|].
    replace (s1 + Z.of_nat i + 1 - 1) with (s1 + Z.of_nat i) by lia.
    split_and!; [lia|simpl; lia|by apply Hat|]. intros k Hk. apply (Hbefore k i); [lia|lia|done].
  - destruct (IH (s1 + Z.of_nat i + 1) (l1 - (s1 + Z.of_nat i + 1 - s1))) as (r & Hr & Hocc); [lia|lia|lia|lia|].
    exists r. split; [done|].
    assert (Hskip : forall k, s1 <= k < s1 + Z.of_nat i + 1 -> ~ occurs s (c :: p) k).
    { intros k Hk. destruct (decide (k = s1 + Z.of_nat i)) as [->|]; [by rewrite Hat|].
      apply (Hbefore k i); [lia|lia|done]. }
    destruct r as [j|]; simpl in Hocc |- *.
    + destruct Hocc as (H1 & H2 & H3 & H4). split_and!; [lia|done|done|]. intros k Hk.
      destruct (decide (k < s1 + Z.of_nat i + 1)); [apply Hskip; lia|apply H4; lia].
    + intros k Hk. destruct (decide (k < s1 + Z.of_nat i + 1)); [apply Hskip; lia|apply Hocc; lia].
Qed.

Lemma lmemfind_ok s p i ms :
  0 <= i <= zlen s ->
  exists r, lmemfind s i (zlen s - i) p (zlen p) ms = Ret ms r /\ first_occurrence s p i r.
Proof.
  intros Hi. unfold lmemfind. destruct p as [|c p].
  - exists (Some i). split; [done|]. split_and!; [lia|simpl; lia| |lia]. by exists (drop (Z.to_nat i) s).
  - rewrite (proj2 (Z.eqb_neq _ 0)) by (simpl; lia). rewrite Z.gtb_ltb.
    destruct (Z.ltb_spec (zlen s - i) (zlen (c :: p))) as [Hlt|Hge].
    + exists None. split; [done|]. intros k Hk Hocc. apply occurs_fits in Hocc; [|lia]. lia.
    + rewrite length_cons in *. replace (Z.of_nat (S (length p)) - 1) with (zlen p) by lia.
      apply lmemfind_loop_ok; lia.
Qed.

Definition special (c : Z) : bool := existsb (Z.eqb c) SPECIALS.

Lemma cstr_split l :
  (l = cstr l) \/ exists r, l = cstr l ++ 0 :: r.
Proof.
  induction l as [|c l IH]; [by left|]. simpl. destruct (Z.eqb_spec c 0) as [->|]; [right; by exists l|].
  destruct IH as [IH|[r IH]]; [left; by f_equal|right; exists r; simpl; by f_equal].
Qed.

Lemma nospecials_loop_ok p fuel l upto ms :
  suf p upto l -> (length l < fuel)%nat ->
  nospecials_loop fuel p upto (zlen p) ms = Ret ms (negb (existsb special l)).
Proof.
  revert upto l. induction fuel as [|fuel IH]; intros upto l Hu Hf; [lia|]. cbn [nospecials_loop].
  pose proof Hu as (H0 & Hn & Hd). rewrite Hd. fold special.
  destruct (cstr_split l) as [Hl|[r Hl]].
  - rewrite <- Hl. destruct (existsb special l); [done|].
    rewrite (proj2 (Z.leb_gt _ (zlen p))) by lia. done.
  - assert (Hsp : existsb special l = existsb special (cstr l) || existsb special r).
    { rewrite Hl at 1. by rewrite existsb_app. }
    rewrite Hsp. destruct (existsb special (cstr l)); [done|]. cbn [orb].
    assert (Hlen : length l = (length (cstr l) + S (length r))%nat).
    { rewrite Hl at 1. by rewrite length_app. }
    rewrite (proj2 (Z.leb_le _ (zlen p))) by lia. apply IH; [|lia].
    rewrite Hl in Hu. apply suf_app, suf_cons in Hu. by rewrite <- Z.add_assoc in Hu.
Qed.

Lemma nospecials_ok p ms : nospecials p (zlen p) ms = Ret ms (negb (existsb special p)).
Proof. apply nospecials_loop_ok; [apply suf_start|lia]. Qed.

(** ** Patterns of plain characters *)

Definition literal (p : list Z) : Prop := Forall (fun c => special c = false /\ c <> ch ")") p.

Lemma not_special c x : special c = false -> In x SPECIALS -> c <> x.
Proof.
  unfold special. intros H Hin ->. rewrite <- not_true_iff_false in H. apply H.
  apply existsb_exists. exists x. split; [done|]. apply Z.eqb_refl.
Qed.

Lemma special_tests c :
  special c = false ->
  (c =? ch "(") = false /\ (c =? ch "$") = false /\ (c =? L_ESC) = false /\ (c =? ch "[") = false /\
  (c =? ch ".") = false /\ (c =? ch "*") = false /\ (c =? ch "?") = false /\ (c =? ch "-") = false /\
  (c =? ch "+") = false /\ (c =? ch "^") = false.
Proof.
  intros H. split_and!; apply Z.eqb_neq, (not_special _ _ H); vm_compute; tauto.
Qed.

Lemma parse_literal p : literal p -> parse p = map (fun c => IOne (CLit c)) p.
Proof.
  induction p as [|c p IH]; intros Hp; [done|]. apply Forall_cons in Hp as [[Hc Hne] Hp].
  apply special_tests in Hc as (H1 & H2 & H3 & H4 & H5 & _). apply Z.eqb_neq in Hne.
  rewrite parse_cons.
  assert (Hs : parse_item c p = (IOne (CLit c), p)).
  { unfold parse_item. rewrite H1, Hne, H2, H3. cbn [andb]. unfold parse_single, parse_class.
    rewrite H3, H4, H5. destruct p as [|y p]; [done|]. apply Forall_cons in Hp as [[Hy _] _].
    apply special_tests in Hy as (_ & _ & _ & _ & _ & E1 & E2 & E3 & E4 & _). by rewrite E1, E2, E3, E4. }
  rewrite Hs. simpl. by rewrite IH.
Qed.

Lemma run_literal src p s cs :
  0 <= s <= zlen src ->
  run src (map (fun c => IOne (CLit c)) p) s cs =
  if bool_decide (occurs src p s) then [Ok (s + zlen p, cs)] else [].
Proof.
  revert s. induction p as [|c p IH]; intros s Hs.
  - rewrite bool_decide_eq_true_2 by (by exists (drop (Z.to_nat s) src)). simpl. by rewrite Z.add_0_r.
  - cbn [map run]. pose proof (suf_at src s Hs) as Hss.
    destruct (drop (Z.to_nat s) src) as [|x rest] eqn:Ed.
    { rewrite bool_decide_eq_false_2; [done|]. unfold occurs. rewrite Ed. by intros [k Hk]. }
    cbn [cls_match]. pose proof Hss as (_ & Hn & _). rewrite length_cons in Hn.
    assert (Hx : src !! Z.to_nat s = Some x).
    { rewrite <- (Nat.add_0_r (Z.to_nat s)), <- lookup_drop, Ed. done. }
    destruct (Z.eqb_spec c x) as [->|Hc].
    + rewrite IH by lia. assert (Hiff : occurs src p (s + 1) <-> occurs src (x :: p) s).
      { rewrite occurs_cons by lia. tauto. }
      rewrite (bool_decide_ext _ _ Hiff). case_bool_decide; [|done]. do 3 f_equal. rewrite length_cons. lia.
    + rewrite bool_decide_eq_false_2; [done|]. rewrite occurs_cons by lia. intros [H _]. congruence.
Qed.

Lemma search_literal src p n s r :
  literal p -> 0 <= s -> s + Z.of_nat n = zlen src -> first_occurrence src p s r ->
  search src (parse p) n s = (fun j => Ok (j, j + zlen p, [])) <$> r.
Proof.
  intros Hp. rewrite parse_literal by done. revert s.
  induction n as [|n IH]; intros s Hs Hn Hr; cbn [search]; unfold first_match; rewrite run_literal by lia.
  all: case_bool_decide as Ho.
  1,3: destruct r as [j|]; [|exfalso; apply (Hr s); [lia|done]]; destruct Hr as (H1 & _ & _ & H4);
    destruct (decide (j = s)) as [->|]; [done|exfalso; apply (H4 s); [lia|done]].
  - destruct r as [j|]; [|done]. exfalso. destruct Hr as (H1 & H2 & H3 & _).
    replace j with s in * by lia. done.
  - cbn. apply IH; [lia|lia|]. destruct r as [j|]; simpl in Hr |- *.
    + destruct Hr as (H1 & H2 & H3 & H4). assert (j <> s) by (by intros ->).
      split_and!; [lia|done|done|]. intros k Hk. apply H4. lia.
    + intros k Hk. apply Hr. lia.
Qed.

(** ** The search functions *)

(** The offset that an initial position denotes. *)
Definition start_of (init len : Z) : Z :=
  if 0 <? init then init - 1 else if (init =? 0) || (init <? - len) then 0 else len + init.

Lemma posrelatI_start init len :
  in_s 64 init -> 0 <= len < 2 ^ 63 -> u64 (posrelatI init len - 1) = start_of init len.
Proof.
  intros [Hi1 Hi2] Hl. unfold posrelatI, start_of. rewrite Z.gtb_ltb.
  destruct (Z.ltb_spec 0 init); [apply wrap_small; unfold in_u; lia|].
  destruct (Z.eqb_spec init 0); [done|]. cbn [orb].
  destruct (Z.ltb_spec init (- len)); [done|].
  transitivity (u64 (len + init)); [wrap_eq|]. apply wrap_small. unfold in_u. lia.
Qed.

(** The items of a pattern without its anchor, and whether it has one. *)
Definition anchored (p : list Z) : bool := hd 0 p =? ch "^".
Definition items_of (p : list Z) : list item := parse (if anchored p then tail p else p).

Lemma items_at_anchor p : items_at p (if anchored p then 1 else 0) = items_of p.
Proof. unfold items_of, items_at. by destruct (anchored p). Qed.

Lemma anchor_range p : 0 <= (if anchored p then 1 else 0) <= zlen p.
Proof. unfold anchored. destruct p as [|c p]; [done|]. rewrite length_cons. destruct (_ =? _); lia. Qed.

(** What a search from offset [i] gives by the reference semantics. *)
Definition find_ref (stack_ok : Z -> bool) (find : bool) (s p : list Z) (i : Z) : res (list pval) :=
  if i >? zlen s then Ok [PFail]
  else found stack_ok find s
         (search s (items_of p) (if anchored p then O else Z.to_nat (zlen s - i)) i).

Section aux.
Context (stack_ok : Z -> bool) (s p : list Z) (init : Z).
Hypothesis (Hs : zlen s < 2 ^ 31) (Hinit : in_s 64 init).

Lemma start_of_nonneg : 0 <= start_of init (zlen s).
Proof.
  unfold start_of. destruct (Z.ltb_spec 0 init); [lia|]. destruct (Z.eqb_spec init 0); [done|].
  cbn [orb]. destruct (Z.ltb_spec init (- zlen s)); lia.
Qed.

(** The search with the engine. *)
Lemma find_pattern_ok (find plain : bool) ms :
  raw ms -> find && (plain || negb (existsb special p)) = false ->
  let o := str_find_aux stack_ok find s p init plain ms in
  too_complex (items_of p) o \/ yields raw o (find_ref stack_ok find s p (start_of init (zlen s))).
Proof.
  intros Hms Hmode. cbv zeta. unfold str_find_aux, find_ref. rewrite posrelatI_start by (done || lia).
  pose proof start_of_nonneg as Hi0. set (i := start_of init (zlen s)) in *.
  destruct (i >? zlen s) eqn:Eg; [right; by exists ms|].
  rewrite Z.gtb_ltb in Eg. apply Z.ltb_ge in Eg.
  assert (Hsp : (if find then if plain then mret false else n ← nospecials p (zlen p); mret (negb n)
                 else mret true) ms = Ret ms true).
  { destruct find; [|done]. cbn [andb] in Hmode. apply orb_false_iff in Hmode as [-> Hx%negb_false_iff].
    rewrite (bind_Ret _ _ _ _ _ (nospecials_ok p ms)), Hx. done. }
  rewrite (bind_Ret _ _ _ _ _ Hsp). cbn [negb].
  rewrite (bind_Ret _ _ _ _ _ (suf_load p 0 p ms (suf_start p))). fold (anchored p).
  set (ms1 := MkMS (level ms) (capture ms) (Z.of_nat MAXCCALLS)). rewrite (bind_Ret prepstate _ ms ms1 tt) by done.
  rewrite <- items_at_anchor.
  destruct (find_loop_ok stack_ok s p Hs (S (length s)) i (if anchored p then 1 else 0) (anchored p) find ms1)
    as [H|H]; [lia|apply anchor_range|lia|done|by left|right].
  eapply yields_weaken; [|exact H]. by intros ? [].
Qed.

(** The result of a plain search from offset [i]. *)
Definition plain_ref (i : Z) (vs : list pval) : Prop :=
  if i >? zlen s then vs = [PFail]
  else exists r, first_occurrence s p i r /\
    vs = match r with Some j => [PInt (j + 1); PInt (j + zlen p)] | None => [PFail] end.

Lemma find_plain_ok (plain : bool) ms :
  plain || negb (existsb special p) = true ->
  exists vs, str_find_aux stack_ok true s p init plain ms = Ret ms vs /\ plain_ref (start_of init (zlen s)) vs.
Proof.
  intros Hmode. unfold str_find_aux, plain_ref. rewrite posrelatI_start by (done || lia).
  pose proof start_of_nonneg as Hi0. set (i := start_of init (zlen s)) in *.
  destruct (i >? zlen s) eqn:Eg; [by eexists|]. rewrite Z.gtb_ltb in Eg. apply Z.ltb_ge in Eg.
  assert (Hsp : (if plain then mret false else n ← nospecials p (zlen p); mret (negb n)) ms = Ret ms false).
  { destruct plain; [done|]. apply negb_true_iff in Hmode.
    rewrite (bind_Ret _ _ _ _ _ (nospecials_ok p ms)), Hmode. done. }
  rewrite (bind_Ret _ _ _ _ _ Hsp). cbn [negb].
  destruct (lmemfind_ok s p i ms ltac:(lia)) as (r & Hr & Ho).
  rewrite (bind_Ret _ _ _ _ _ Hr). destruct r as [j|]; (eexists; split; [done|]); [by exists (Some j)|by exists None].
Qed.
End aux.

(** ** Theorems *)

(** C21: The pattern engine has no undefined behaviour and terminates, on every
    subject of less than 2^31 bytes and every pattern, well formed or not.  It gives up only on patterns
    with at least [MAXCCALLS] items; otherwise it fails, succeeds or raises an
    error as the first match of the reference semantics says, with the end and
    the captures of that match, which lie inside the subject. *)
Theorem match_correct (src pat : list Z) (s p : Z) (ms : MatchState) :
  zlen src < 2 ^ 31 -> 0 <= s <= zlen src -> 0 <= p <= zlen pat -> ready ms ->
  (MAXCCALLS <= length (items_at pat p))%nat /\ (exists ms', match_at src pat s p ms = Throw ms' "pattern too complex") \/
  match first_match src (items_at pat p) s with
  | None => exists ms', match_at src pat s p ms = Ret ms' None
  | Some (Ok (e, cs)) =>
      s <= e <= zlen src /\ caps_ok e cs /\
      exists ms', match_at src pat s p ms = Ret ms' (Some e) /\ live ms' = cs
  | Some (Err msg) => exists ms', match_at src pat s p ms = Throw ms' msg
  end.
Proof.
  intros Hsrc Hs Hp Hms. destruct (match_at_agrees src pat s p ms) as [H|H]; try done; [by left|]. right.
  destruct (first_match src (items_at pat p) s) as [[[e cs]|msg]|] eqn:Ef; [apply first_match_range in Ef as Hr; [|done]|..].
  all: unfold first_match in Ef; destruct (run src (items_at pat p) s []) as [|r l]; simplify_eq/=.
  - destruct H as (ms' & H & _ & Hl). destruct Hr as [H1 H2]. split_and!; [lia|lia|done|by exists ms'].
  - done.
  - destruct H as (ms' & H & _). by exists ms'.
Qed.

(** C30: [string.find] and [string.match], in every mode, on subjects of less than 2^31
    bytes.  A plain search, asked for or because the pattern has no special character,
    returns the bounds of the first occurrence from the requested position on.  Otherwise
    they search from there for the first position with a match (only there for an anchored
    pattern) and return the bounds and captures of the preferred match, or its error;
    patterns of 200 items and more may instead be refused as too complex. *)
Theorem str_find_aux_correct (stack_ok : Z -> bool) (s p : list Z) (init : Z) (find plain : bool) (ms : MatchState) :
  zlen s < 2 ^ 31 -> in_s 64 init -> raw ms ->
  let i := start_of init (zlen s) in
  let o := str_find_aux stack_ok find s p init plain ms in
  if find && (plain || negb (existsb special p)) then exists vs, o = Ret ms vs /\ plain_ref s p i vs
  else too_complex (items_of p) o \/ yields raw o (find_ref stack_ok find s p i).
Proof.
  intros Hs Hi Hms. cbv zeta. destruct (find && _) eqn:E; [|by apply find_pattern_ok].
  destruct find; [|done]. by apply find_plain_ok.
Qed.

(** The shortcut of [string.find] for patterns without special characters is
    correct: the plain search returns what the search with the pattern engine would. *)
Theorem str_find_shortcut (stack_ok : Z -> bool) (s p : list Z) (init : Z) (ms : MatchState) :
  zlen s < 2 ^ 31 -> in_s 64 init -> raw ms -> literal p -> stack_ok 0 = true ->
  yields raw (str_find stack_ok s p init false ms) (find_ref stack_ok true s p (start_of init (zlen s))).
Proof.
  intros Hs Hi Hms Hlit Hok.
  assert (Hnosp : existsb special p = false).
  { apply not_true_iff_false. rewrite existsb_exists. intros (c & Hin & Hc).
    apply list_elem_of_In in Hin. apply (proj1 (Forall_forall _ _) Hlit) in Hin as [H _]. congruence. }
  assert (Hanch : anchored p = false).
  { unfold anchored. destruct p as [|c p]; [done|]. apply Forall_cons in Hlit as [[Hc _] _].
    apply special_tests in Hc. cbn [hd]. tauto. }
  pose proof (start_of_nonneg s init) as H0. unfold str_find, find_ref.
  destruct (find_plain_ok stack_ok s p init Hs Hi false ms) as (vs & -> & Hv); [by rewrite Hnosp|]. unfold plain_ref in Hv.
  destruct (start_of init (zlen s) >? zlen s) eqn:Eg; [subst vs; by exists ms|]. rewrite Z.gtb_ltb in Eg. apply Z.ltb_ge in Eg.
  destruct Hv as (r & Hr & ->). unfold items_of. rewrite Hanch, (search_literal s p _ _ r) by (done || lia).
  destruct r as [j|]; cbn; [|by exists ms]. unfold captured. change (zlen []) with 0. rewrite Hok. by exists ms.
Qed.

(** ** The theorems on examples *)

Definition some_state : MatchState := MkMS 7 (replicate 32 (3, 3)) 200.

Lemma match_correct_witness :
  exists ms, match_at (bytes "key = 12") (bytes "(%w+)%s*=%s*(%d+)") 0 0 some_state = Ret ms (Some 8) /\
             live ms = [(0, 3); (6, 2)].
Proof.
  pose proof (match_correct (bytes "key = 12") (bytes "(%w+)%s*=%s*(%d+)") 0 0 some_state
    ltac:(vm_compute; reflexivity) ltac:(vm_compute; split; discriminate) ltac:(vm_compute; split; discriminate)
    ltac:(split; vm_compute; reflexivity)) as [[H _]|H].
  - exfalso. apply Nat.leb_le in H. vm_compute in H. discriminate.
  - destruct H as (_ & _ & H). exact H.
Defined.

Lemma str_find_aux_correct_witness :
  exists ms, str_find_aux (fun _ => true) false (bytes "THE (quick) fox") (bytes "%((%a+)%)") (-12) false some_state =
             Ret ms [PStr (bytes "quick")] /\ raw ms.
Proof.
  destruct (str_find_aux_correct (fun _ => true) (bytes "THE (quick) fox") (bytes "%((%a+)%)") (-12) false false some_state
    ltac:(vm_compute; reflexivity) ltac:(split; vm_compute; (discriminate || reflexivity)) ltac:(vm_compute; reflexivity)) as [[H _]|H].
  - exfalso. apply Nat.leb_le in H. vm_compute in H. discriminate.
  - exact H.
Defined.

Lemma str_find_shortcut_witness :
  exists ms, str_find (fun _ => true) (bytes "a.b") (bytes "b") 1 false some_state = Ret ms [PInt 3; PInt 3] /\ raw ms.
Proof.
  apply (str_find_shortcut (fun _ => true) (bytes "a.b") (bytes "b") 1 some_state).
  - vm_compute; reflexivity.
  - split; vm_compute; (discriminate || reflexivity).
  - vm_compute; reflexivity.
  - repeat constructor. vm_compute. discriminate.
  - reflexivity.
Defined.

End PatternSpec.
