(* ===== verification/PatternSub.v ===== *)
(** * Substitution by patterns: [string.gsub] *)

From S2P Require Import Prelude LuaValue LuaPattern PatternRef PatternFacts PatternMatch PatternSpec.

Module PatternSub.
Import LuaValue LuaPattern PatternRef PatternFacts PatternMatch PatternSpec.
Open Scope string_scope.
Open Scope list_scope.
Open Scope Z_scope.

(** ** Replacement strings *)

(** The text of the capture with index [i] (from 0), for a match of [s] to [e]. *)
Definition capture_text (src : list Z) (s e : Z) (cs : caps) (i : Z) : res (list Z) :=
  match cs !! Z.to_nat i with
  | None => if i =? 0 then Ok (text src s e) else Err "invalid capture index %%%d"
  | Some (init, len) =>
      if len =? CAP_UNFINISHED then Err "unfinished capture"
      else if len =? CAP_POSITION then Ok (dec_text (init + 1))
      else Ok (text src init (init + len))
  end.

(** The text a replacement string stands for. *)
Fixpoint expand (src : list Z) (s e : Z) (cs : caps) (news : list Z) : res (list Z) :=
  match news with
  | [] => Ok []
  | c :: r =>
      if c =? L_ESC then
        match r with
        | [] => Err "invalid use of '%c' in replacement string"
        | d :: r' =>
            let here :=
              if d =? L_ESC then Ok [d]
              else if d =? ch "0" then Ok (text src s e)
              else if isdigit d then capture_text src s e cs (d - ch "1")
              else Err "invalid use of '%c' in replacement string" in
            rbind here (fun x => rbind (expand src s e cs r') (fun y => Ok (x ++ y)))
        end
      else rbind (expand src s e cs r) (fun y => Ok (c :: y))
  end.

(** Results in which the state does not change. *)
Definition gives {A} (m : M A) (ms : MatchState) (r : res A) : Prop :=
  match r with Ok a => m ms = Ret ms a | Err msg => exists ms', m ms = Throw ms' msg end.

Lemma gives_bind {A B} (m : M A) (k : A -> M B) ms ra rb :
  gives m ms ra -> (forall a, ra = Ok a -> gives (k a) ms (rb a)) -> gives (m ≫= k) ms (rbind ra rb).
Proof.
  destruct ra as [a|msg]; simpl.
  - intros H Hk. specialize (Hk a eq_refl). unfold gives in *. by rewrite (bind_Ret _ _ _ _ _ H).
  - intros (ms' & H) _. exists ms'. by apply bind_Throw.
Qed.

Lemma gives_step {A B} (m : M A) (k : A -> M B) ms a r : m ms = Ret ms a -> gives (k a) ms r -> gives (m ≫= k) ms r.
Proof. intros H Hk. unfold gives in *. by rewrite (bind_Ret _ _ _ _ _ H). Qed.

Section expand.
Context (src : list Z) (s e : Z) (ms : MatchState).
Hypothesis (Hse : 0 <= s <= e /\ e <= zlen src) (Hg : good ms) (Hc : caps_ok e (live ms)).

Lemma capture_text_ok i :
  0 <= i -> gives (cap ← get_onecapture i (Some s) e; capt_text src cap) ms (capture_text src s e (live ms) i).
Proof.
  intros Hi. unfold get_onecapture, capture_text. pose proof (live_length _ ms Hg) as Hn.
  destruct (live ms !! Z.to_nat i) as [[init len]|] eqn:El.
  - pose proof (lookup_lt_Some _ _ _ El) as Hlt. pose proof (live_get _ ms _ _ Hg El) as Hget.
    rewrite Z2Nat.id in Hget by lia.
    assert (Hcap : forall k : capt -> M (list Z),
      ((level ← get_level;
        if i >=? level then
          if negb (i =? 0) then luaL_error "invalid capture index %%%d" else mret (CapString s (e - s))
        else
          '(init, capl) ← get_capture i;
          if capl =? CAP_UNFINISHED then luaL_error "unfinished capture"
          else if capl =? CAP_POSITION then mret (CapPosition (init + 1))
          else mret (CapString init capl)) ≫= k) ms =
      ((if len =? CAP_UNFINISHED then luaL_error "unfinished capture"
        else if len =? CAP_POSITION then mret (CapPosition (init + 1))
        else mret (CapString init len)) ≫= k) ms).
    { intros k. apply bind_same. erewrite bind_Ret by reflexivity.
      rewrite Z.geb_leb, (proj2 (Z.leb_gt (level ms) i)) by lia. by rewrite (bind_Ret _ _ _ _ _ Hget). }
    pose proof (Forall_lookup_1 _ _ _ _ Hc El) as [H1 H2]. simpl in H1, H2.
    unfold gives. rewrite Hcap. destruct (Z.eqb_spec len CAP_UNFINISHED); [by exists ms|].
    destruct (Z.eqb_spec len CAP_POSITION); [done|].
    erewrite bind_Ret by reflexivity. cbn [capt_text]. unfold text.
    replace (init + len - init) with len by lia. apply at_loads; lia.
  - apply lookup_ge_None in El. unfold gives. destruct (Z.eqb_spec i 0) as [->|Hi0]; cbn [negb].
    + erewrite bind_Ret; [|erewrite bind_Ret by reflexivity;
        rewrite Z.geb_leb, (proj2 (Z.leb_le (level ms) 0)) by lia; reflexivity].
      cbn [capt_text]. apply at_loads; lia.
    + exists ms. apply bind_Throw. erewrite bind_Ret by reflexivity.
      by rewrite Z.geb_leb, (proj2 (Z.leb_le (level ms) i)) by lia.
Qed.

Lemma expand_plain cs pre r :
  Forall (fun c => c <> L_ESC) pre ->
  expand src s e cs (pre ++ r) = rbind (expand src s e cs r) (fun y => Ok (pre ++ y)).
Proof.
  induction pre as [|c pre IH]; intros Hp; simpl; [by destruct (expand src s e cs r)|].
  apply Forall_cons in Hp as [Hc0 Hp]. rewrite (proj2 (Z.eqb_neq c L_ESC)), IH by done.
  by destruct (expand src s e cs r).
Qed.

Lemma add_s_ok news fuel i r b :
  suf news i r -> (length r < fuel)%nat ->
  gives (add_s_loop fuel src news i (zlen r) s e b) ms
    (rbind (expand src s e (live ms) r) (fun y => Ok (b ++ y))).
Proof.
  revert i r b. induction fuel as [|fuel IH]; intros i r b Hi Hf; [lia|]. cbn [add_s_loop].
  assert (Hm : memchr news i L_ESC (zlen r) ms =
               Ret ms ((fun j => i + Z.of_nat j) <$> index_of L_ESC r)).
  { unfold memchr. rewrite (bind_Ret _ _ _ _ _ (suf_loads _ _ _ (zlen r) ms Hi ltac:(lia))).
    by rewrite Nat2Z.id, take_ge by lia. }
  pose proof (index_of_spec L_ESC r) as Hidx. apply (gives_step _ _ _ _ _ Hm).
  destruct (index_of L_ESC r) as [j|]; cbn [fmap option_fmap option_map].
  2: { assert (Hno : Forall (fun c => c <> L_ESC) r).
       { apply Forall_forall. intros x [k Hk]%list_elem_of_lookup_1 ->. by apply (Hidx k). }
       pose proof (expand_plain (live ms) r [] Hno) as Hp. rewrite app_nil_r in Hp. rewrite Hp.
       simpl. rewrite app_nil_r. rewrite (bind_Ret _ _ _ _ _ (suf_loads _ _ _ (zlen r) ms Hi ltac:(lia))).
       by rewrite Nat2Z.id, take_ge by lia. }
  destruct Hidx as [Hj Hbefore]. pose proof (lookup_lt_Some _ _ _ Hj) as Hjl.
  apply (gives_step _ _ _ _ _ (suf_loads _ _ _ (i + Z.of_nat j - i) ms Hi ltac:(lia))).
  replace (Z.to_nat (i + Z.of_nat j - i)) with j by lia.
  assert (Hr : r = take j r ++ L_ESC :: drop (S j) r) by (symmetry; by apply take_drop_middle).
  set (pre := take j r) in *. set (post := drop (S j) r) in *.
  assert (Hpre : Forall (fun c => c <> L_ESC) pre).
  { apply Forall_forall. intros x [k Hk]%list_elem_of_lookup_1 ->. subst pre.
    apply lookup_take_Some in Hk as [Hk Hkj]. by apply (Hbefore k). }
  assert (Hlp : length pre = j) by (subst pre; rewrite length_take; lia).
  assert (Hlr : length r = (j + S (length post))%nat) by (rewrite Hr, length_app; simpl; lia).
  assert (Hi1 : suf news (i + Z.of_nat j + 1) post).
  { pose proof Hi as Hi'. rewrite Hr in Hi'. apply suf_app in Hi'. rewrite Hlp in Hi'. by apply suf_cons in Hi'. }
  apply (gives_step _ _ _ _ _ (suf_load _ _ _ ms Hi1)).
  replace (expand src s e (live ms) r) with
    (rbind (expand src s e (live ms) (L_ESC :: post)) (fun y => Ok (pre ++ y))) by
    (by rewrite <- expand_plain, <- Hr).
  cbn [expand]. rewrite Z.eqb_refl.
  destruct post as [|d post].
  { simpl. exists ms. by apply bind_Throw. }
  cbn [hd]. set (here := if d =? L_ESC then Ok [d] else _).
  assert (Hhere : gives (if d =? L_ESC then mret [d] else if d =? ch "0" then loads src s (e - s)
     else if isdigit d then cap ← get_onecapture (d - ch "1") (Some s) e; capt_text src cap
     else luaL_error "invalid use of '%c' in replacement string") ms here).
  { subst here. destruct (d =? L_ESC); [done|]. destruct (Z.eqb_spec d (ch "0")).
    - apply at_loads; lia.
    - destruct (isdigit d) eqn:Ed; [|by exists ms]. apply capture_text_ok.
      unfold isdigit, between in Ed. apply andb_true_iff in Ed as [?%Z.leb_le ?%Z.leb_le].
      change (ch "0") with 48 in *. change (ch "1") with 49. lia. }
  replace (rbind (rbind (rbind here _) _) _) with
    (rbind here (fun x => rbind (expand src s e (live ms) post) (fun y => Ok (((b ++ pre) ++ x) ++ y)))).
  2: { destruct here; simpl; [|done]. destruct (expand src s e (live ms) post); simpl; [|done].
       by rewrite <- !app_assoc. }
  apply gives_bind; [done|]. intros x _.
  replace (zlen r - (i + Z.of_nat j + 1 + 1 - i)) with (zlen post) by (simpl in Hlr; lia).
  apply IH; [by apply suf_cons in Hi1|simpl in Hlr; lia].
Qed.
End expand.

(** ** The substituted text *)

(** A replaced part of the subject: from where to where, and by what. *)
Abbreviation part := (Z * Z * list Z)%type.

(** The subject from [pos] on with the parts replaced. *)
Fixpoint weave (src : list Z) (pos : Z) (l : list part) : list Z :=
  match l with
  | [] => drop (Z.to_nat pos) src
  | (s, e, t) :: l' => text src pos s ++ t ++ weave src e l'
  end.

(** No match at [k] counts: there is none, or only one that ends where the last
    one did. *)
Definition no_match (src : list Z) (its : list item) (last : option Z) (k : Z) : Prop :=
  match first_match src its k with
  | None => True
  | Some (Ok (e, _)) => last = Some e
  | Some (Err _) => False
  end.

(** The parts are the matches from left to right, at most [left] of them, each the
    preferred one at the first position with a match, and [fill] gives their
    replacements. *)
Fixpoint replaced (src : list Z) (its : list item) (fill : Z -> Z -> caps -> res (list Z))
    (left : Z) (last : option Z) (pos : Z) (l : list part) : Prop :=
  match l with
  | [] => left <= 0 \/ forall k, pos <= k <= zlen src -> no_match src its last k
  | (s, e, t) :: l' =>
      0 < left /\ pos <= s <= e /\ e <= zlen src /\ (forall k, pos <= k < s -> no_match src its last k) /\
      last <> Some e /\
      (exists cs, first_match src its s = Some (Ok (e, cs)) /\ fill s e cs = Ok t) /\
      replaced src its fill (left - 1) (Some e) e l'
  end.

Lemma text_cons src pos s c :
  0 <= pos < s -> src !! Z.to_nat pos = Some c -> text src pos s = c :: text src (pos + 1) s.
Proof.
  intros Hp Hc. unfold text. rewrite (drop_S _ c) by done.
  replace (Z.to_nat (s - pos)) with (S (Z.to_nat (s - (pos + 1)))) by lia. cbn [take firstn].
  by replace (Z.to_nat (pos + 1)) with (S (Z.to_nat pos)) by lia.
Qed.

Lemma replaced_start src its fill left last pos s e t l :
  replaced src its fill left last pos ((s, e, t) :: l) -> pos <= s.
Proof. simpl. lia. Qed.

Lemma weave_skip src its fill left last pos c l :
  0 <= pos -> src !! Z.to_nat pos = Some c ->
  replaced src its fill left last (pos + 1) l -> weave src pos l = c :: weave src (pos + 1) l.
Proof.
  intros Hp Hc Hr. destruct l as [|[[s e] t] l].
  - simpl. rewrite (drop_S _ c) by done. by replace (Z.to_nat (pos + 1)) with (S (Z.to_nat pos)) by lia.
  - apply replaced_start in Hr. simpl. rewrite (text_cons src pos s c) by (done || lia). done.
Qed.

Lemma replaced_skip src its fill left last pos l :
  no_match src its last pos -> 0 < left ->
  replaced src its fill left last (pos + 1) l -> replaced src its fill left last pos l.
Proof.
  intros Hn Hleft. destruct l as [|[[s e] t] l]; simpl.
  - intros [H|H]; [by left|]. right. intros k Hk. destruct (decide (k = pos)) as [->|]; [done|]. apply H. lia.
  - intros (H1 & H2 & H3 & H4 & H5 & H6 & H7). split_and!; try done; [lia|lia|].
    intros k Hk. destruct (decide (k = pos)) as [->|]; [done|]. apply H4. lia.
Qed.

(** With the text of the match itself as its replacement, nothing changes. *)
Lemma weave_same src its fill left last pos l :
  (forall s e cs, 0 <= s <= e -> e <= zlen src -> fill s e cs = Ok (text src s e)) ->
  0 <= pos <= zlen src ->
  replaced src its fill left last pos l -> weave src pos l = drop (Z.to_nat pos) src.
Proof.
  intros Hf. revert left last pos. induction l as [|[[s e] t] l IH]; intros left last pos Hp Hr; [done|].
  destruct Hr as (_ & H1 & H2 & _ & _ & (cs & _ & Ht) & Hr). cbn [weave].
  rewrite Hf in Ht by lia. simplify_eq. rewrite (IH _ _ e ltac:(lia) Hr). unfold text.
  replace (drop (Z.to_nat e) src) with (drop (Z.to_nat (e - s)) (drop (Z.to_nat s) src))
    by (rewrite drop_drop; f_equal; lia).
  rewrite take_drop.
  replace (drop (Z.to_nat s) src) with (drop (Z.to_nat (s - pos)) (drop (Z.to_nat pos) src))
    by (rewrite drop_drop; f_equal; lia).
  apply take_drop.
Qed.

(** An anchored pattern: the match at the start, if there is one and it is asked for. *)
Definition replaced_first (src : list Z) (its : list item) (fill : Z -> Z -> caps -> res (list Z)) (left : Z) (l : list part)
    : Prop :=
  match l with
  | [] => left <= 0 \/ no_match src its None 0
  | [(s, e, t)] => 0 < left /\ s = 0 /\ exists cs, first_match src its 0 = Some (Ok (e, cs)) /\ fill 0 e cs = Ok t
  | _ => False
  end.

(** ** The loop *)

Section loop.
Context {W : Type} (stack_ok : Z -> bool) (src pat news : list Z) (p : Z).
Hypothesis Hsrc : zlen src < 2 ^ 31.
Hypothesis Hp : 0 <= p <= zlen pat.

Abbreviation its := (items_at pat p).
Definition fill (s e : Z) (cs : caps) : res (list Z) := expand src s e cs news.

(** An error the loop may raise, at a position up to [upto]. *)
Definition error_at (s : Z) (msg : string) : Prop :=
  (MAXCCALLS <= length its)%nat /\ msg = "pattern too complex" \/ first_match src its s = Some (Err msg) \/
  exists e cs, first_match src its s = Some (Ok (e, cs)) /\ fill s e cs = Err msg.
Definition gsub_error (upto : Z) (msg : string) : Prop := exists s, 0 <= s <= upto /\ error_at s msg.

(** Each round shortens the rest of the subject, or forbids an empty match. *)
Definition rounds (g : GSub W) : Z :=
  2 * (zlen src - gs_src g) + (if bool_decide (gs_lastmatch g = Some (gs_src g)) then 1 else 2).

Definition loop_inv (g : GSub W) : Prop :=
  0 <= gs_src g <= zlen src /\ forall e, gs_lastmatch g = Some e -> e <= gs_src g.

Definition loop_post (max_s : Z) (g : GSub W) (o : outcome MatchState (GSub W)) : Prop :=
  match o with
  | Stuck => False
  | Throw _ msg => gsub_error (zlen src) msg
  | Ret ms g' =>
      ready ms /\ 0 <= gs_src g' <= zlen src /\ gs_world g' = gs_world g /\
      exists l, replaced src its fill (max_s - gs_n g) (gs_lastmatch g) (gs_src g) l /\
        gs_n g' = gs_n g + zlen l /\ gs_changed g' = gs_changed g || negb (bool_decide (l = [])) /\
        gs_buf g' ++ drop (Z.to_nat (gs_src g')) src = gs_buf g ++ weave src (gs_src g) l
  end.

(** The state after a match of [s] to [e] replaced by [t], and after a skipped
    character. *)
Definition step_match (g : GSub W) (e : Z) (t : list Z) : GSub W :=
  MkGSub (gs_world g) e (Some e) (gs_n g + 1) true (gs_buf g ++ t).
Definition step_skip (g : GSub W) (c : Z) : GSub W :=
  MkGSub (gs_world g) (gs_src g + 1) (gs_lastmatch g) (gs_n g) (gs_changed g) (gs_buf g ++ [c]).

Lemma post_match max_s g e cs t o :
  loop_inv g -> gs_n g < max_s -> gs_src g <= e <= zlen src -> gs_lastmatch g <> Some e ->
  first_match src its (gs_src g) = Some (Ok (e, cs)) -> fill (gs_src g) e cs = Ok t ->
  loop_post max_s (step_match g e t) o -> loop_post max_s g o.
Proof.
  intros [Hs Hl] Hn He Hlast Hm Ht. destruct o as [ms g'|ms msg|]; [|done|done]. simpl.
  intros (Hr & Hs' & Hw & l & Hrep & Hgn & Hch & Hbuf). split_and!; [done|lia|lia|done|].
  exists ((gs_src g, e, t) :: l). split_and!.
  - cbn [replaced]. split_and!; try done; try lia; [by exists cs|].
    by replace (max_s - gs_n g - 1) with (max_s - (gs_n g + 1)) by lia.
  - rewrite Hgn, length_cons. lia.
  - rewrite Hch. by destruct (gs_changed g).
  - rewrite Hbuf. cbn [weave]. unfold text at 1. rewrite Z.sub_diag. simpl. by rewrite <- app_assoc.
Qed.

Lemma post_skip max_s g c o :
  loop_inv g -> gs_n g < max_s -> src !! Z.to_nat (gs_src g) = Some c ->
  no_match src its (gs_lastmatch g) (gs_src g) ->
  loop_post max_s (step_skip g c) o -> loop_post max_s g o.
Proof.
  intros [Hs Hl] Hn Hc Hno. destruct o as [ms g'|ms msg|]; [|done|done]. simpl.
  intros (Hr & Hs' & Hw & l & Hrep & Hgn & Hch & Hbuf). split_and!; [done|lia|lia|done|].
  exists l. split_and!; try done.
  - apply replaced_skip; [done|lia|done].
  - rewrite Hbuf. rewrite (weave_skip _ _ _ _ _ (gs_src g) c l ltac:(lia) Hc Hrep). by rewrite <- app_assoc.
Qed.

Lemma post_stop max_s g ms :
  loop_inv g -> ready ms -> max_s <= gs_n g \/ gs_src g = zlen src /\ no_match src its (gs_lastmatch g) (gs_src g) ->
  loop_post max_s g (Ret ms g).
Proof.
  intros [Hs Hl] Hr Hstop. split_and!; try done; try lia. exists []. split_and!.
  - simpl. destruct Hstop as [?|[Hend Hno]]; [left; lia|right]. intros k Hk. by replace k with (gs_src g) by lia.
  - simpl. lia.
  - by rewrite orb_false_r.
  - done.
Qed.

(** One round: an error, a match that is replaced, or none that counts, at a character
    that is skipped or at the end. *)
Lemma gsub_round max_s fuel (anchor : bool) g ms :
  loop_inv g -> ready ms -> gs_n g < max_s ->
  let loop fuel := gsub_loop stack_ok fuel src pat p max_s anchor (ReplString W news) in
  let next g := if anchor then mret g else loop fuel g in
  let o := loop (S fuel) g ms in
  (exists ms' msg, o = Throw ms' msg /\ error_at (gs_src g) msg) \/
  (exists e cs t ms', o = next (step_match g e t) ms' /\ ready ms' /\ gs_src g <= e <= zlen src /\ gs_lastmatch g <> Some e /\
    first_match src its (gs_src g) = Some (Ok (e, cs)) /\ fill (gs_src g) e cs = Ok t) \/
  no_match src its (gs_lastmatch g) (gs_src g) /\ exists ms', ready ms' /\
    ((exists c, o = next (step_skip g c) ms' /\ src !! Z.to_nat (gs_src g) = Some c) \/ gs_src g = zlen src /\ o = Ret ms' g).
Proof.
  intros [Hs Hl] Hms Hn. cbv zeta. cbn [gsub_loop]. rewrite (proj2 (Z.ltb_lt _ _) Hn).
  destruct (match_at_finds src pat (gs_src g) p ms Hsrc Hs Hp Hms) as [(Hd & ms' & Hm)|Hm].
  { left. eexists _, _. split; [by apply bind_Throw|]. left. done. }
  set (skip := if gs_src g <? src_end src then _ else _).
  assert (Hskip : forall ms', (exists c, skip ms' = (if anchor then mret (step_skip g c) else
      gsub_loop stack_ok fuel src pat p max_s anchor (ReplString W news) (step_skip g c)) ms' /\ src !! Z.to_nat (gs_src g) = Some c) \/
      gs_src g = zlen src /\ skip ms' = Ret ms' g).
  { intros ms'. subst skip. unfold src_end. destruct (Z.ltb_spec (gs_src g) (zlen src)) as [Hlt|Hge]; [left|right; split; [lia|done]].
    pose proof (suf_at src (gs_src g) Hs) as Hss.
    destruct (drop (Z.to_nat (gs_src g)) src) as [|c rest] eqn:Ed; [apply suf_nil in Hss; lia|].
    exists c. rewrite (bind_Ret _ _ _ _ _ (suf_load _ _ _ ms' Hss)). split; [done|].
    rewrite <- (Nat.add_0_r (Z.to_nat (gs_src g))), <- lookup_drop, Ed. done. }
  destruct (first_match src its (gs_src g)) as [[[e cs]|msg]|] eqn:Ef; simpl in Hm.
  - destruct Hm as (ms' & Hm & Hg & Hlive). rewrite (bind_Ret _ _ _ _ _ Hm).
    apply first_match_range in Ef as Hrange; [|done]. destruct Hrange as [He Hc].
    case_bool_decide as Hlast.
    2: { right. right. split; [unfold no_match; by rewrite Ef|]. exists ms'. by split; [apply good_ready|]. }
    assert (Hadd : gives (add_s src news (gs_src g) e (gs_buf g)) ms'
                     (rbind (fill (gs_src g) e cs) (fun y => Ok (gs_buf g ++ y)))).
    { rewrite <- Hlive. unfold fill. apply add_s_ok; [lia|done|by rewrite Hlive|apply suf_start|lia]. }
    cbn [add_value]. destruct (fill (gs_src g) e cs) as [t|msg] eqn:Et; simpl in Hadd.
    + right. left. exists e, cs, t, ms'. split; [|split_and!; try done; try lia; by apply good_ready].
      rewrite bind_Ret with (s' := ms') (a := (gs_world g, gs_buf g ++ t, true)); [done|]. by rewrite (bind_Ret _ _ _ _ _ Hadd).
    + left. destruct Hadd as (ms2 & Hadd). exists ms2, msg. split; [|right; right; by exists e, cs].
      by apply bind_Throw, bind_Throw.
  - destruct Hm as (ms' & Hm). left. exists ms', msg. split; [by apply bind_Throw|]. by right; left.
  - destruct Hm as (ms' & Hm & Hg). rewrite (bind_Ret _ _ _ _ _ Hm). right. right.
    split; [unfold no_match; by rewrite Ef|]. exists ms'. by split; [apply good_ready|].
Qed.

Lemma gsub_loop_ok max_s fuel g ms :
  loop_inv g -> ready ms -> rounds g <= Z.of_nat fuel ->
  loop_post max_s g (gsub_loop stack_ok fuel src pat p max_s false (ReplString W news) g ms).
Proof.
  revert g ms. induction fuel as [|fuel IH]; intros g ms Hinv Hms Hf; pose proof Hinv as [Hs Hl].
  { unfold rounds in Hf. case_bool_decide; lia. }
  destruct (decide (gs_n g < max_s)) as [Hn|Hn].
  2: { cbn [gsub_loop]. rewrite (proj2 (Z.ltb_ge _ _)) by lia. apply post_stop; [done|done|left; lia]. }
  destruct (gsub_round max_s fuel false g ms Hinv Hms Hn)
    as [(ms' & msg & -> & He)|[(e & cs & t & ms' & -> & Hms' & He & Hlast & Ef & Et)|(Hno & ms' & Hms' & H)]].
  - exists (gs_src g). done.
  - apply (post_match max_s g e cs t); try done. apply IH; [|done|].
    + split; simpl; [lia|]. intros e' [= ->]. lia.
    + unfold rounds in *. simpl. rewrite (bool_decide_eq_true_2 (Some e = Some e)) by done.
      case_bool_decide; [|lia]. assert (e <> gs_src g) by congruence. lia.
  - destruct H as [(c & -> & Hc)|[Hend ->]]; [|apply post_stop; auto].
    apply (post_skip max_s g c); try done. apply lookup_lt_Some in Hc. apply IH; [|done|].
    + split; simpl; [lia|]. intros e He. specialize (Hl e He). lia.
    + unfold rounds in *. simpl. rewrite (bool_decide_eq_false_2 (gs_lastmatch g = Some (gs_src g + 1))).
      * case_bool_decide; lia.
      * intros He. specialize (Hl _ He). lia.
Qed.

(** An anchored pattern has one round. *)
Lemma gsub_once_ok max_s fuel (w : W) ms :
  ready ms -> let g := MkGSub w 0 None 0 false [] in
  match gsub_loop stack_ok (S fuel) src pat p max_s true (ReplString W news) g ms with
  | Stuck => False
  | Throw _ msg => gsub_error 0 msg
  | Ret ms g' =>
      0 <= gs_src g' <= zlen src /\ gs_world g' = w /\
      exists l, replaced_first src its fill max_s l /\ gs_n g' = zlen l /\ gs_changed g' = negb (bool_decide (l = [])) /\
        gs_buf g' ++ drop (Z.to_nat (gs_src g')) src = weave src 0 l
  end.
Proof.
  intros Hms g. destruct (decide (0 < max_s)) as [Hn|Hn].
  2: { cbn [gsub_loop gs_n g]. rewrite (proj2 (Z.ltb_ge _ _)) by lia. cbn. split_and!; [lia|lia|done|]. exists [].
       split_and!; [left; lia|done..]. }
  assert (Hinv : loop_inv g) by (split; [simpl; lia|done]).
  destruct (gsub_round max_s fuel true g ms Hinv Hms Hn)
    as [(ms' & msg & -> & He)|[(e & cs & t & ms' & -> & Hms' & He & Hlast & Ef & Et)|(Hno & ms' & Hms' & H)]].
  - exists 0. done.
  - cbn. simpl in He. split_and!; [lia|lia|done|]. exists [(0, e, t)].
    split_and!; [split_and!; [done|done|by exists cs]|done|done|]. cbn. unfold text. by rewrite Z.sub_diag.
  - destruct H as [(c & -> & Hc)|[Hend ->]]; cbn; simpl in Hno.
    + apply lookup_lt_Some in Hc as Hlt. split_and!; [lia|lia|done|]. exists []. split_and!; [by right|done|done|].
      cbn. destruct src as [|x src']; [done|]. simpl in Hc. by injection Hc as ->.
    + split_and!; [lia|lia|done|]. exists []. split_and!; [by right|done|done|done].
Qed.
End loop.

(** ** Iteration: [string.gmatch] *)

Section iterate.
Context (stack_ok : Z -> bool) (src pat : list Z).
Hypothesis Hsrc : zlen src < 2 ^ 31.

Abbreviation its := (items_at pat 0).

(** The result of a call of the iterator whose search starts at [k]: the captures
    of the preferred match at the first position that has one, which the next
    call starts after, or no values.  The match state can be used again. *)
Definition iterated (last : option Z) (k : Z) (o : outcome GMatchState (list pval)) : Prop :=
  exists j, k <= j /\ (forall i, k <= i < j -> no_match src its last i) /\
    if zlen src <? j then exists gm, o = Ret gm [] /\ ready (gm_ms gm) /\ gm_lastmatch gm = last
    else match first_match src its j with
         | Some (Ok (e, cs)) =>
             last <> Some e /\ e <= zlen src /\
             match captured stack_ok src (Some (j, e)) cs with
             | Ok vs => exists ms, o = Ret (MkGM ms e (Some e)) vs /\ ready ms
             | Err msg => exists gm, o = Throw gm msg
             end
         | Some (Err msg) => exists gm, o = Throw gm msg
         | None => False
         end.

Lemma on_ms_Ret {A} (m : M A) gm ms a :
  m (gm_ms gm) = Ret ms a -> on_ms m gm = Ret (MkGM ms (gm_src gm) (gm_lastmatch gm)) a.
Proof. unfold on_ms. by intros ->. Qed.
Lemma on_ms_Throw {A} (m : M A) gm ms msg :
  m (gm_ms gm) = Throw ms msg -> on_ms m gm = Throw (MkGM ms (gm_src gm) (gm_lastmatch gm)) msg.
Proof. unfold on_ms. by intros ->. Qed.

Lemma gmatch_loop_ok fuel k gm :
  0 <= k -> zlen src - k < Z.of_nat fuel -> ready (gm_ms gm) ->
  let o := gmatch_loop stack_ok fuel src pat k gm in too_complex its o \/ iterated (gm_lastmatch gm) k o.
Proof.
  revert k gm. induction fuel as [|fuel IH]; intros k gm Hk Hf Hms; cbn [gmatch_loop]; unfold src_end.
  all: destruct (Z.leb_spec k (zlen src)) as [Hle|Hgt]; [lia || idtac|].
  1,3: right; exists k; split_and!; [lia|lia|]; rewrite (proj2 (Z.ltb_lt (zlen src) k)) by lia; by exists gm.
  cbv zeta. destruct (match_at_finds src pat k 0 (gm_ms gm) Hsrc ltac:(lia) ltac:(lia) Hms) as [(Hd & ms' & Hm)|Hm].
  { left. split; [done|]. eexists. apply bind_Throw. by apply on_ms_Throw. }
  assert (Hnext : forall ms', ready ms' -> no_match src its (gm_lastmatch gm) k ->
    let o := gmatch_loop stack_ok fuel src pat (k + 1) (MkGM ms' (gm_src gm) (gm_lastmatch gm)) in
    too_complex its o \/ iterated (gm_lastmatch gm) k o).
  { intros ms' Hms' Hno.
    destruct (IH (k + 1) (MkGM ms' (gm_src gm) (gm_lastmatch gm)) ltac:(lia) ltac:(lia) Hms') as [?|(j & Hj & Hgap & H)]; [by left|right].
    exists j. split_and!; [lia| |done]. intros i Hi. destruct (decide (i = k)) as [->|]; [done|]. apply Hgap. lia. }
  destruct (first_match src its k) as [[[e cs]|msg]|] eqn:Ef; simpl in Hm.
  - destruct Hm as (ms' & Hm & Hg & Hl). rewrite (bind_Ret _ _ _ _ _ (on_ms_Ret _ _ _ _ Hm)). erewrite bind_Ret by reflexivity.
    cbn [gm_lastmatch]. case_bool_decide as Hlast.
    + apply first_match_range in Ef as Hr; [|lia]. destruct Hr as [He Hc]. erewrite bind_Ret by reflexivity.
      right. exists k. split_and!; [lia|lia|]. rewrite (proj2 (Z.ltb_ge (zlen src) k)), Ef by lia. split; [congruence|]. split; [lia|].
      assert (Hy : yields ready (push_captures src stack_ok (Some k) e ms') (captured stack_ok src (Some (k, e)) cs)).
      { rewrite <- Hl. apply (push_captures_ok stack_ok src ms' (Some (k, e))); [done| |by intros ? ? [= <- <-]; lia].
        rewrite Hl. eapply caps_ok_mono; [|done]. lia. }
      destruct (captured _ _ _ _) as [vs|msg]; destruct Hy as (ms2 & Hy).
      * destruct Hy as [Hy Hr2]. exists ms2. split; [|done]. by apply (on_ms_Ret _ (MkGM ms' e (Some e))).
      * eexists. by apply (on_ms_Throw _ (MkGM ms' e (Some e))).
    + apply Hnext; [by apply good_ready|]. unfold no_match. by rewrite Ef.
  - destruct Hm as (ms' & Hm). rewrite (bind_Throw _ _ _ _ _ (on_ms_Throw _ _ _ _ Hm)). right. exists k. split_and!; [lia|lia|].
    rewrite (proj2 (Z.ltb_ge (zlen src) k)), Ef by lia. by eexists.
  - destruct Hm as (ms' & Hm & Hg). rewrite (bind_Ret _ _ _ _ _ (on_ms_Ret _ _ _ _ Hm)). erewrite bind_Ret by reflexivity.
    apply Hnext; [by apply good_ready|]. unfold no_match. by rewrite Ef.
Qed.
End iterate.

(** ** Theorems *)

(** What [gsub] with a replacement string may give. *)
Definition substituted (src pat news : list Z) (max_s : option Z) {W} (w : W) (o : outcome MatchState (W * list Z * Z)) : Prop :=
  let left := default (zlen src + 1) max_s in
  match o with
  | Ret _ (w', out, n) =>
      w' = w /\
      exists l, out = weave src 0 l /\ n = zlen l /\
        if anchored pat then replaced_first src (items_of pat) (fill src news) left l
        else replaced src (items_of pat) (fill src news) left None 0 l
  | Throw _ msg => gsub_error src pat news (if anchored pat then 1 else 0) (if anchored pat then 0 else zlen src) msg
  | Stuck => False
  end.

(** The end of [str_gsub]. *)
Lemma gsub_finish {W} (w : W) src (l : list part) (g : GSub W) ms :
  0 <= gs_src g <= zlen src -> gs_world g = w -> gs_n g = zlen l -> gs_changed g = negb (bool_decide (l = [])) ->
  gs_buf g ++ drop (Z.to_nat (gs_src g)) src = weave src 0 l ->
  (if negb (gs_changed g) then mret (gs_world g, src, gs_n g)
   else x ← loads src (gs_src g) (src_end src - gs_src g); mret (gs_world g, gs_buf g ++ x, gs_n g)) ms
  = Ret ms (w, weave src 0 l, zlen l).
Proof.
  intros Hs <- Hn Hch Hbuf. rewrite Hch, Hn, negb_involutive. destruct (decide (l = [])) as [->|Hl].
  - by rewrite (bool_decide_eq_true_2 ([] = [])) by done.
  - rewrite bool_decide_eq_false_2 by done. unfold src_end.
    rewrite (bind_Ret _ _ _ _ _ (at_loads src (gs_src g) (zlen src - gs_src g) ms ltac:(lia) ltac:(lia) ltac:(lia))).
    rewrite <- Hbuf. rewrite take_ge; [done|]. rewrite length_drop. lia.
Qed.

Lemma gsub_string_ok (W : Type) (w : W) (stack_ok : Z -> bool) (src pat news : list Z) (max_s : option Z)
    (ms : MatchState) :
  zlen src < 2 ^ 31 -> raw ms -> substituted src pat news max_s w (str_gsub stack_ok w src pat (ReplString W news) max_s ms).
Proof.
  intros Hs Hms. unfold str_gsub, substituted. rewrite (bind_Ret _ _ _ _ _ (suf_load pat 0 pat ms (suf_start pat))).
  fold (anchored pat). set (ms1 := MkMS (level ms) (capture ms) (Z.of_nat MAXCCALLS)). rewrite (bind_Ret prepstate _ ms ms1 tt) by done.
  set (m := default (zlen src + 1) max_s). pose proof (anchor_range pat) as Hp. rewrite <- items_at_anchor.
  assert (Hr1 : ready ms1) by done. cbv zeta. replace (2 * length src + 2)%nat with (S (2 * length src + 1)) by lia.
  destruct (anchored pat).
  - pose proof (gsub_once_ok stack_ok src pat news 1 Hs Hp m (2 * length src + 1) w ms1 Hr1) as H. cbv zeta in H.
    destruct (gsub_loop _ _ _ _ _ _ _ _ _ ms1) as [ms' g'|ms' msg|] eqn:E in H; [|by rewrite (bind_Throw _ _ _ _ _ E)|done].
    rewrite (bind_Ret _ _ _ _ _ E).
    destruct H as (H1 & H2 & l & H3 & H4 & H5 & H6). rewrite (gsub_finish w src l g' ms' H1 H2 H4 H5 H6). split; [done|]. by exists l.
  - assert (Hinv : loop_inv src (MkGSub w 0 None 0 false [])) by (split; simpl; [lia|done]).
    pose proof (gsub_loop_ok stack_ok src pat news 0 Hs Hp m (S (2 * length src + 1)) _ ms1 Hinv Hr1
      ltac:(unfold rounds; simpl; lia)) as H.
    destruct (gsub_loop _ _ _ _ _ _ _ _ _ ms1) as [ms' g'|ms' msg|] eqn:E in H; [|by rewrite (bind_Throw _ _ _ _ _ E)|done].
    rewrite (bind_Ret _ _ _ _ _ E). destruct H as (_ & H1 & H2 & l & H3 & H4 & H5 & H6).
    simpl in H3, H4, H5, H6. rewrite Z.sub_0_r in H3. rewrite (gsub_finish w src l g' ms' H1 H2 H4 H5 H6). split; [done|]. by exists l.
Qed.

(** A call of the [gmatch] iterator, on a state whose calls raised no error so far,
    terminates and returns the captures of the preferred match at the first position that
    has one, other than an empty match at the end of the previous one; the state it leaves
    can be used for the next call. *)
Theorem gmatch_aux_correct (stack_ok : Z -> bool) (src pat : list Z) (gm : GMatchState) :
  zlen src < 2 ^ 31 -> 0 <= gm_src gm -> ready (gm_ms gm) ->
  let o := gmatch_aux stack_ok src pat gm in
  too_complex (items_at pat 0) o \/ iterated stack_ok src pat (gm_lastmatch gm) (gm_src gm) o.
Proof. intros Hs Hk Hms. apply gmatch_loop_ok; [done|done|lia|done]. Qed.


(** The same at the start only. *)
Lemma weave_first src its fill left l :
  (forall s e cs, 0 <= s <= e -> e <= zlen src -> fill s e cs = Ok (text src s e)) ->
  replaced_first src its fill left l -> weave src 0 l = src.
Proof.
  intros Hf. destruct l as [|[[s e] t] [|]]; [done| |done]. intros (_ & -> & cs & Hm & Ht).
  apply first_match_range in Hm as [He _]; [|lia]. rewrite Hf in Ht by lia. injection Ht as <-.
  cbn [weave]. unfold text. rewrite Z.sub_diag, Z.sub_0_r. apply take_drop.
Qed.

(** Replacing every match by itself, with the replacement string ["%0"], gives
    back the subject, whatever the pattern. *)
Theorem str_gsub_identity (W : Type) (w : W) (stack_ok : Z -> bool) (src pat : list Z) (max_s : option Z)
    (ms ms' : MatchState) (out : list Z) (n : Z) :
  zlen src < 2 ^ 31 -> raw ms ->
  str_gsub stack_ok w src pat (ReplString W (bytes "%0")) max_s ms = Ret ms' (w, out, n) ->
  out = src.
Proof.
  intros Hs Hms H. pose proof (gsub_string_ok W w stack_ok src pat (bytes "%0") max_s ms Hs Hms) as Hg.
  rewrite H in Hg. destruct Hg as (_ & l & -> & _ & Hr).
  assert (Hfill : forall s e cs, fill src (bytes "%0") s e cs = Ok (text src s e)).
  { intros s e cs. unfold fill. simpl. by rewrite app_nil_r. }
  destruct (anchored pat); [eapply weave_first; [|exact Hr]; auto|]. eapply weave_same in Hr; [exact Hr|auto|lia].
Qed.

(** ** The theorems on an example *)

Definition ms0 : MatchState := MkMS 0 (replicate 32 (0, 0)) 200.

Lemma gmatch_aux_correct_witness :
  (let o := gmatch_aux (fun _ => true) (bytes "ab cd") (bytes "%a+") (MkGM ms0 2 (Some 2)) in
   too_complex (items_at (bytes "%a+") 0) o \/ iterated (fun _ => true) (bytes "ab cd") (bytes "%a+") (Some 2) 2 o) /\
  exists ms, gmatch_aux (fun _ => true) (bytes "ab cd") (bytes "%a+") (MkGM ms0 2 (Some 2)) =
             Ret (MkGM ms 5 (Some 5)) [PStr (bytes "cd")].
Proof.
  split.
  - apply (gmatch_aux_correct (fun _ => true) (bytes "ab cd") (bytes "%a+") (MkGM ms0 2 (Some 2))).
    + vm_compute. reflexivity.
    + simpl. lia.
    + split; vm_compute; reflexivity.
  - eexists. vm_compute. reflexivity.
Defined.

(** After an error of the pattern the counter of the nesting is lower, and stays so. *)
Example gmatch_error_keeps_depth :
  match gmatch_aux (fun _ => true) (bytes "abc") (bytes "a(b[") (MkGM ms0 0 None) with
  | Throw gm msg => msg = "malformed pattern (missing ']')" /\ matchdepth (gm_ms gm) = 198
  | _ => False
  end.
Proof. vm_compute. by split. Qed.


Lemma str_gsub_identity_witness : bytes "aab" = bytes "aab".
Proof.
  eapply (str_gsub_identity unit tt (fun _ => true) (bytes "aab") (bytes "a*") None ms0 _ _ 2).
  - vm_compute; reflexivity.
  - vm_compute; reflexivity.
  - vm_compute. reflexivity.
Defined.

End PatternSub.
