(* ===== verification/LuaDump.v ===== *)
(** * Precompiled Lua chunks

    Function prototypes (lobject.h), the buffered streams of lzio.c, and the
    binary form of a function: written by ldump.c, read by lundump.c.

    The strings of a prototype are a parameter of its type: [TString] objects for
    the writer, which compares their addresses, and the bytes of the strings it
    creates for the reader.  Allocation always succeeds here. *)

From S2P Require Import Prelude CFloat LuaValue.

Module LuaDump.
Import CFloat LuaValue.
Open Scope string_scope.
Open Scope list_scope.
Open Scope Z_scope.

(** ** Prototypes *)

Record Upvaldesc (Str : Type) := MkUpval {
  uv_name : option Str;
  instack : Z;
  idx : Z;
  kind : Z }.
Arguments MkUpval {Str}. Arguments uv_name {Str}. Arguments instack {Str}.
Arguments idx {Str}. Arguments kind {Str}.

Record LocVar (Str : Type) := MkLocVar {
  varname : option Str;
  startpc : Z;
  endpc : Z }.
Arguments MkLocVar {Str}. Arguments varname {Str}. Arguments startpc {Str}. Arguments endpc {Str}.

(** The values that occur as constants. *)
Inductive konst (Str : Type) :=
  | KNil | KFalse | KTrue
  | KFlt (n : double)
  | KInt (i : Z)
  | KShrStr (s : Str)
  | KLngStr (s : Str).
Arguments KNil {Str}. Arguments KFalse {Str}. Arguments KTrue {Str}. Arguments KFlt {Str}.
Arguments KInt {Str}. Arguments KShrStr {Str}. Arguments KLngStr {Str}.

(** [Proto]; the sizes of the arrays are the lengths of the lists. *)
Unset Elimination Schemes.
Inductive Proto (Str : Type) := MkProto {
  source : option Str;
  linedefined : Z;
  lastlinedefined : Z;
  numparams : Z;
  is_vararg : Z;
  maxstacksize : Z;
  code : list Z;
  k : list (konst Str);
  upvalues : list (Upvaldesc Str);
  p : list (Proto Str);
  lineinfo : list Z;
  abslineinfo : list (Z * Z);
  locvars : list (LocVar Str) }.
Set Elimination Schemes.
Arguments MkProto {Str}. Arguments source {Str}. Arguments linedefined {Str}. Arguments lastlinedefined {Str}.
Arguments numparams {Str}. Arguments is_vararg {Str}. Arguments maxstacksize {Str}. Arguments code {Str}.
Arguments k {Str}. Arguments upvalues {Str}. Arguments p {Str}. Arguments lineinfo {Str}.
Arguments abslineinfo {Str}. Arguments locvars {Str}.

(** ** The format *)

Definition LUA_SIGNATURE : list Z := [27; 76; 117; 97].
Definition LUAC_VERSION : Z := 504 / 100 * 16 + 504 mod 100.
Definition LUAC_FORMAT : Z := 0.
Definition LUAC_DATA : list Z := [0x19; 0x93; 13; 10; 0x1a; 10].
Definition LUAC_INT : Z := 0x5678.
Definition LUAC_NUM : double := ddiv (d_of_Z 741) (d_of_Z 2).
Definition LUAI_MAXSHORTLEN : Z := 40.

(** [ttypetag]: the variant tags. *)
Definition ttypetag {Str} (o : konst Str) : Z :=
  match o with
  | KNil => 0
  | KFalse => 1
  | KTrue => 17
  | KInt _ => 3
  | KFlt _ => 19
  | KShrStr _ => 4
  | KLngStr _ => 20
  end.

(** The bytes of a [w]-byte integer in memory, and the integer in [w] bytes; the
    targets are little-endian. *)
Fixpoint le_bytes (w : nat) (x : Z) : list Z :=
  match w with
  | O => []
  | S w' => x mod 256 :: le_bytes w' (x / 256)
  end.
Definition le_value (bs : list Z) : Z := foldr (fun b a => b + 256 * a) 0 bs.

(** ** Writing *)

Section dump.
(** The writer of the client, on a state of its own: it returns 0 or an error
    status. *)
Context {W : Type} (writer : W -> list Z -> W * Z) (strip : bool).

(** The fields of [DumpState] that change. *)
Record DumpState := MkDump { d_status : Z; d_data : W }.
Abbreviation D := (ST DumpState).

Definition dumpBlock (b : list Z) : D unit := fun d =>
  if (d_status d =? 0) && (0 <? zlen b) then
    let '(w, s) := writer (d_data d) b in Ret (MkDump s w) tt
  else Ret d tt.

Definition dumpByte (y : Z) : D unit := dumpBlock [u8 y].

Definition DIBS : Z := (8 * 8 + 6) / 7.

(** The do-while loop of [dumpSize]: the buffer from [DIBS - n] on, which fills
    backwards. *)
Fixpoint dumpSize_loop (fuel : nat) (x : Z) (buff : list Z) : option (list Z) :=
  match fuel with
  | O => None
  | S fuel' =>
      if zlen buff <? DIBS then
        let buff := Z.land x 0x7f :: buff in
        let x := Z.shiftr x 7 in
        if negb (x =? 0) then dumpSize_loop fuel' x buff else Some buff
      else None
  end.

(** [buff[DIBS - 1] |= 0x80] *)
Definition mark_last (buff : list Z) : list Z := alter (fun b => Z.lor b 0x80) (length buff - 1)%nat buff.

Definition dumpSize (x : Z) : D unit :=
  match dumpSize_loop 11 x [] with
  | Some buff => dumpBlock (mark_last buff)
  | None => fun _ => Stuck
  end.

(** The conversion from [int] to [size_t]. *)
Definition dumpInt (x : Z) : D unit := dumpSize (u64 x).

Definition dumpNumber (x : double) : D unit := dumpBlock (le_bytes 8 (d_bits x)).
Definition dumpInteger (x : Z) : D unit := dumpBlock (le_bytes 8 (u64 x)).

Definition dumpString (s : option TString) : D unit :=
  match s with
  | None => dumpSize 0
  | Some s =>
      let size := zlen (ts_data s) in
      _ ← dumpSize (u64 (size + 1)); dumpBlock (ts_data s)
  end.

(** [for (i = 0; i < n; i++) dump(v[i])] *)
Definition dump_each {A} (dump : A -> D unit) : list A -> D unit :=
  fix go l := match l with [] => mret tt | x :: l' => _ ← dump x; go l' end.

Definition dumpCode (f : Proto TString) : D unit :=
  _ ← dumpInt (zlen (code f));
  dumpBlock (concat (map (le_bytes 4) (code f))).

Definition dumpConstant (o : konst TString) : D unit :=
  _ ← dumpByte (ttypetag o);
  match o with
  | KFlt n => dumpNumber n
  | KInt i => dumpInteger i
  | KShrStr s | KLngStr s => dumpString (Some s)
  | KNil | KFalse | KTrue => mret tt
  end.
Definition dumpConstants (f : Proto TString) : D unit :=
  _ ← dumpInt (zlen (k f)); dump_each dumpConstant (k f).

Definition dumpUpvalues (f : Proto TString) : D unit :=
  _ ← dumpInt (zlen (upvalues f));
  dump_each (fun u => _ ← dumpByte (instack u); _ ← dumpByte (idx u); dumpByte (kind u)) (upvalues f).

(** An array of debug information, left out when stripping. *)
Definition unless_strip {A} (l : list A) : list A := if strip then [] else l.

Definition dumpDebug (f : Proto TString) : D unit :=
  _ ← dumpInt (zlen (unless_strip (lineinfo f)));
  _ ← dumpBlock (map u8 (unless_strip (lineinfo f)));
  _ ← dumpInt (zlen (unless_strip (abslineinfo f)));
  _ ← dump_each (fun a => _ ← dumpInt a.1; dumpInt a.2) (unless_strip (abslineinfo f));
  _ ← dumpInt (zlen (unless_strip (locvars f)));
  _ ← dump_each (fun v => _ ← dumpString (varname v); _ ← dumpInt (startpc v); dumpInt (endpc v))
        (unless_strip (locvars f));
  _ ← dumpInt (zlen (unless_strip (upvalues f)));
  dump_each (fun u => dumpString (uv_name u)) (unless_strip (upvalues f)).

(** Equality of the pointers. *)
Definition same_string (a b : option TString) : bool :=
  match a, b with
  | None, None => true
  | Some a, Some b => ts_addr a =? ts_addr b
  | _, _ => false
  end.

(** [dumpFunction], with [dumpProtos] in the place of its call. *)
Fixpoint dumpFunction (f : Proto TString) (psource : option TString) : D unit :=
  _ ← (if strip || same_string (source f) psource then dumpString None else dumpString (source f));
  _ ← dumpInt (linedefined f);
  _ ← dumpInt (lastlinedefined f);
  _ ← dumpByte (numparams f);
  _ ← dumpByte (is_vararg f);
  _ ← dumpByte (maxstacksize f);
  _ ← dumpCode f;
  _ ← dumpConstants f;
  _ ← dumpUpvalues f;
  _ ← dumpInt (zlen (p f));
  _ ← dump_each (fun g => dumpFunction g (source f)) (p f);
  dumpDebug f.

Definition dumpHeader : D unit :=
  _ ← dumpBlock LUA_SIGNATURE;
  _ ← dumpByte LUAC_VERSION;
  _ ← dumpByte LUAC_FORMAT;
  _ ← dumpBlock LUAC_DATA;
  _ ← dumpByte 4;
  _ ← dumpByte 8;
  _ ← dumpByte 8;
  _ ← dumpInteger LUAC_INT;
  dumpNumber LUAC_NUM.

Definition get_status : D Z := fun d => Ret d (d_status d).

(** [luaU_dump]: the status and the writer's state. *)
Definition luaU_dump (f : Proto TString) (data : W) : outcome DumpState Z :=
  (_ ← dumpHeader;
   _ ← dumpByte (zlen (upvalues f));
   _ ← dumpFunction f None;
   get_status) (MkDump 0 data).
End dump.
Arguments MkDump {W}. Arguments d_status {W}. Arguments d_data {W}.

(** ** Buffered streams *)

(** [ZIO]: the bytes unread, the current buffer with the position in it, and what
    the reader returns on its next calls (nothing stands for NULL). *)
Record ZIO := MkZIO {
  z_n : Z;
  z_buf : list Z;
  z_pos : Z;
  z_chunks : list (list Z) }.
Abbreviation L := (ST ZIO).

Definition EOZ : Z := -1.

Definition luaZ_init (chunks : list (list Z)) : ZIO := MkZIO 0 [] 0 chunks.

(** The byte at [p] *)
Definition z_at (z : ZIO) : option Z := if z_pos z <? 0 then None else z_buf z !! Z.to_nat (z_pos z).

Definition luaZ_fill : L Z := fun z =>
  match z_chunks z with
  | [] => Ret z EOZ
  | [] :: cs => Ret (MkZIO (z_n z) (z_buf z) (z_pos z) cs) EOZ
  | (c :: _) as buff :: cs => Ret (MkZIO (zlen buff - 1) buff 1 cs) c
  end.

(** [zgetc]; the counter is decremented before the stream is filled. *)
Definition zgetc : L Z := fun z =>
  let z' := MkZIO (u64 (z_n z - 1)) (z_buf z) (z_pos z) (z_chunks z) in
  if z_n z >? 0 then
    match z_at z with
    | Some c => Ret (MkZIO (z_n z') (z_buf z) (z_pos z + 1) (z_chunks z)) c
    | None => Stuck
    end
  else luaZ_fill z'.

(** [memcpy] of [m] bytes from [p] *)
Definition z_take (m : Z) : L (list Z) := fun z =>
  if (0 <=? z_pos z) && (z_pos z + m <=? zlen (z_buf z)) then
    Ret (MkZIO (z_n z - m) (z_buf z) (z_pos z + m) (z_chunks z))
      (take (Z.to_nat m) (drop (Z.to_nat (z_pos z)) (z_buf z)))
  else Stuck.

Definition z_left : L Z := fun z => Ret z (z_n z).
(** [z->n++; z->p--] *)
Definition z_unget : L unit := fun z => Ret (MkZIO (z_n z + 1) (z_buf z) (z_pos z - 1) (z_chunks z)) tt.

(** The loop of [luaZ_read]: the number of missing bytes and the bytes copied. *)
Fixpoint luaZ_read_loop (fuel : nat) (n : Z) (b : list Z) : L (Z * list Z) :=
  if n =? 0 then mret (0, b)
  else
    match fuel with
    | O => fun _ => Stuck
    | S fuel' =>
        left ← z_left;
        eof ← (if left =? 0 then
                 c ← luaZ_fill;
                 if c =? EOZ then mret true else _ ← z_unget; mret false
               else mret false);
        if eof : bool then mret (n, b)
        else
          left ← z_left;
          let m := if n <=? left then n else left in
          x ← z_take m;
          luaZ_read_loop fuel' (n - m) (b ++ x)
    end.
Definition luaZ_read (n : Z) : L (Z * list Z) := fun z =>
  luaZ_read_loop (length (z_chunks z) + 2) n [] z.

(** ** Reading *)

Section load.
(** The chunk name in messages. *)
Context (name : string).

Definition error {A} (why : string) : L A :=
  throw (name ++ ": bad binary format (" ++ why ++ ")").

Definition loadBlock (size : Z) : L (list Z) :=
  '(missing, b) ← luaZ_read size;
  if negb (missing =? 0) then error "truncated chunk" else mret b.

Definition loadByte : L Z :=
  b ← zgetc;
  if b =? EOZ then error "truncated chunk" else mret (u8 b).

(** The do-while loop of [loadUnsigned]; [limit] is already shifted. *)
Fixpoint loadUnsigned_loop (fuel : nat) (x limit : Z) : L Z :=
  match fuel with
  | O => fun _ => Stuck
  | S fuel' =>
      b ← loadByte;
      if x >=? limit then error "integer overflow"
      else
        let x := Z.lor (u64 (Z.shiftl x 7)) (Z.land b 0x7f) in
        if Z.land b 0x80 =? 0 then loadUnsigned_loop fuel' x limit else mret x
  end.
Definition loadUnsigned (limit : Z) : L Z := fun z =>
  loadUnsigned_loop (S (length (z_buf z) + length (concat (z_chunks z)))) 0 (Z.shiftr limit 7) z.

Definition loadSize : L Z := loadUnsigned (2 ^ 64 - 1).
Definition loadInt : L Z := x ← loadUnsigned (2 ^ 31 - 1); mret (s32 x).

Definition loadNumber : L double := b ← loadBlock 8; mret (d_of_bits (le_value b)).
Definition loadInteger : L Z := b ← loadBlock 8; mret (s64 (le_value b)).

(** [loadStringN]: a short string is read into a buffer of [LUAI_MAXSHORTLEN]
    bytes, a long one into its object. *)
Definition loadStringN : L (option (list Z)) :=
  size ← loadSize;
  if size =? 0 then mret None
  else b ← loadBlock (size - 1); mret (Some b).

Definition loadString : L (list Z) :=
  st ← loadStringN;
  match st with Some s => mret s | None => error "bad format for constant string" end.

(** [for (i = 0; i < n; i++) v[i] = load()] *)
Fixpoint load_each {A} (load : L A) (n : nat) : L (list A) :=
  match n with
  | O => mret []
  | S n' => x ← load; l ← load_each load n'; mret (x :: l)
  end.

(** The integers of [w] bytes each in a block. *)
Fixpoint words (w n : nat) (bs : list Z) : list Z :=
  match n with
  | O => []
  | S n' => le_value (take w bs) :: words w n' (drop w bs)
  end.

Definition loadCode : L (list Z) :=
  n ← loadInt;
  b ← loadBlock (n * 4);
  mret (words 4 (Z.to_nat n) b).

(** The tag of a string constant is that of the string created. *)
Definition new_string (s : list Z) : konst (list Z) :=
  if zlen s <=? LUAI_MAXSHORTLEN then KShrStr s else KLngStr s.

Definition loadConstant : L (konst (list Z)) :=
  t ← loadByte;
  if t =? 0 then mret KNil
  else if t =? 1 then mret KFalse
  else if t =? 17 then mret KTrue
  else if t =? 19 then n ← loadNumber; mret (KFlt n)
  else if t =? 3 then i ← loadInteger; mret (KInt i)
  else if (t =? 4) || (t =? 20) then s ← loadString; mret (new_string s)
  else mret KNil.
Definition loadConstants : L (list (konst (list Z))) :=
  n ← loadInt; load_each loadConstant (Z.to_nat n).

Definition loadUpvalue : L (Upvaldesc (list Z)) :=
  a ← loadByte; b ← loadByte; c ← loadByte; mret (MkUpval None a b c).
Definition loadUpvalues : L (list (Upvaldesc (list Z))) :=
  n ← loadInt; load_each loadUpvalue (Z.to_nat n).

Definition loadAbsLine : L (Z * Z) := a ← loadInt; b ← loadInt; mret (a, b).
Definition loadLocVar : L (LocVar (list Z)) :=
  s ← loadStringN; a ← loadInt; b ← loadInt; mret (MkLocVar s a b).

(** The names of the first upvalues. *)
Fixpoint set_names (us : list (Upvaldesc (list Z))) (names : list (option (list Z))) : list (Upvaldesc (list Z)) :=
  match us, names with
  | u :: us', s :: names' => MkUpval s (instack u) (idx u) (kind u) :: set_names us' names'
  | _, _ => us
  end.

(** [loadDebug]: line information, absolute line information, local variables and
    the upvalues with their names. *)
Definition loadDebug (us : list (Upvaldesc (list Z)))
    : L (list Z * list (Z * Z) * list (LocVar (list Z)) * list (Upvaldesc (list Z))) :=
  n ← loadInt;
  lines ← loadBlock n;
  n ← loadInt;
  abs ← load_each loadAbsLine (Z.to_nat n);
  n ← loadInt;
  vars ← load_each loadLocVar (Z.to_nat n);
  n ← loadInt;
  names ← load_each loadStringN (if negb (n =? 0) then length us else O);
  mret (map (swrap 8) lines, abs, vars, set_names us names).

(** [loadFunction] with [loadProtos] in the place of its call; [fuel] bounds the
    nesting of functions. *)
Fixpoint loadFunction (fuel : nat) (psource : option (list Z)) : L (Proto (list Z)) :=
  match fuel with
  | O => fun _ => Stuck
  | S fuel' =>
      source ← loadStringN;
      let source := match source with Some s => Some s | None => psource end in
      linedefined ← loadInt;
      lastlinedefined ← loadInt;
      numparams ← loadByte;
      is_vararg ← loadByte;
      maxstacksize ← loadByte;
      code ← loadCode;
      k ← loadConstants;
      us ← loadUpvalues;
      n ← loadInt;
      ps ← load_each (loadFunction fuel' source) (Z.to_nat n);
      '(lineinfo, abslineinfo, locvars, us) ← loadDebug us;
      mret (MkProto source linedefined lastlinedefined numparams is_vararg maxstacksize code k us ps
              lineinfo abslineinfo locvars)
  end.

(** [checkliteral]; its buffer has 12 bytes. *)
Definition checkliteral (s : list Z) (msg : string) : L unit :=
  if 12 <? zlen s then fun _ => Stuck
  else
    b ← loadBlock (zlen s);
    if bool_decide (s = b) then mret tt else error msg.

Definition fchecksize (size : Z) (tname : string) : L unit :=
  b ← loadByte;
  if b =? size then mret tt else error (tname ++ " size mismatch").

Definition checkHeader : L unit :=
  _ ← checkliteral (tail LUA_SIGNATURE) "not a binary chunk";
  b ← loadByte;
  if negb (b =? LUAC_VERSION) then error "version mismatch"
  else
    b ← loadByte;
    if negb (b =? LUAC_FORMAT) then error "format mismatch"
    else
      _ ← checkliteral LUAC_DATA "corrupted chunk";
      _ ← fchecksize 4 "Instruction";
      _ ← fchecksize 8 "lua_Integer";
      _ ← fchecksize 8 "lua_Number";
      i ← loadInteger;
      if negb (i =? LUAC_INT) then error "integer format mismatch"
      else
        x ← loadNumber;
        if negb (deq x LUAC_NUM) then error "float format mismatch" else mret tt.
End load.

Definition chunk_name (name : string) : string :=
  match name with
  | String.String a rest =>
      if (ch a =? ch "@") || (ch a =? ch "=") then rest
      else if ch a =? 27 then "binary string" else name
  | String.EmptyString => name
  end.

(** [luaU_undump]: the number of upvalues of the closure and its prototype. *)
Definition luaU_undump (name : string) : L (Z * Proto (list Z)) := fun z =>
  let name := chunk_name name in
  (_ ← checkHeader name;
   n ← loadByte name;
   f ← loadFunction name (S (length (z_buf z) + length (concat (z_chunks z)))) None;
   mret (n, f)) z.

End LuaDump.
