(* ===== verification/DumpFacts.v ===== *)
(** * Reading back precompiled chunks *)

From Stdlib Require Import SpecFloat.
From S2P Require Import Prelude CFloat FloatFacts LuaValue LuaDump.

Module DumpFacts.
Import CFloat FloatFacts LuaValue LuaDump.
Open Scope string_scope.
Open Scope list_scope.
Open Scope Z_scope.

(** ** Streams *)

(** The bytes the reader still delivers: an empty chunk ends the stream. *)
Fixpoint stream (cs : list (list Z)) : list Z :=
  match cs with
  | [] | [] :: _ => []
  | c :: cs' => c ++ stream cs'
  end.

(** A stream state whose counter is right, and the bytes left in it. *)
Definition zok (z : ZIO) : Prop := 0 <= z_pos z /\ 0 <= z_n z < 2 ^ 64 /\ z_pos z + z_n z = zlen (z_buf z).
Definition rest (z : ZIO) : list Z := drop (Z.to_nat (z_pos z)) (z_buf z) ++ stream (z_chunks z).

(** Chunks fit in memory, and their elements are bytes. *)
Definition is_byte (c : Z) : Prop := 0 <= c < 256.
Definition zfits (z : ZIO) : Prop :=
  Forall is_byte (z_buf z) /\ Forall (fun c => Forall is_byte c /\ zlen c < 2 ^ 64) (z_chunks z).

Definition zinv (z : ZIO) : Prop := zok z /\ zfits z.

(** The code consumes the bytes [bs] and returns [a]. *)
Definition reads {A} (m : L A) (bs : list Z) (a : A) : Prop :=
  forall z r, zinv z -> rest z = bs ++ r -> exists z', m z = Ret z' a /\ zinv z' /\ rest z' = r.

Lemma reads_ret {A} (a : A) : reads (mret a) [] a.
Proof. intros z r Hz Hr. by exists z. Qed.

Lemma reads_bind {A B} (m : L A) (f : A -> L B) bs1 bs2 a b :
  reads m bs1 a -> reads (f a) bs2 b -> reads (m ≫= f) (bs1 ++ bs2) b.
Proof.
  intros Hm Hf z r Hz Hr. rewrite <- app_assoc in Hr.
  destruct (Hm z _ Hz Hr) as (z1 & H1 & Hz1 & Hr1). destruct (Hf z1 r Hz1 Hr1) as (z2 & H2 & Hz2 & Hr2).
  exists z2. by rewrite (bind_Ret _ _ _ _ _ H1).
Qed.

Lemma reads_map {A B} (m : L A) (f : A -> B) bs a : reads m bs a -> reads (x ← m; mret (f x)) bs (f a).
Proof. intros H. rewrite <- (app_nil_r bs). eapply reads_bind; [exact H|apply reads_ret]. Qed.

(** The end of a stream. *)
Lemma fill_cases z :
  zfits z -> z_pos z = zlen (z_buf z) ->
  (rest z = [] /\ exists z', luaZ_fill z = Ret z' EOZ) \/
  exists c l cs, z_chunks z = (c :: l) :: cs /\ luaZ_fill z = Ret (MkZIO (zlen l) (c :: l) 1 cs) c /\
    rest z = c :: l ++ stream cs.
Proof.
  intros [_ Hf] Hp. unfold rest, luaZ_fill. rewrite drop_ge by lia.
  destruct (z_chunks z) as [|[|c l] cs]; simpl; [left; eauto|left; eauto|]. right. exists c, l, cs.
  split_and!; [done| |done]. do 2 f_equal. lia.
Qed.

Lemma zgetc_reads c z r :
  zinv z -> rest z = c :: r -> exists z', zgetc z = Ret z' c /\ zinv z' /\ rest z' = r.
Proof.
  intros [(Hp & Hn & Hl) Hf] Hr. unfold zgetc. rewrite Z.gtb_ltb.
  destruct (Z.ltb_spec 0 (z_n z)) as [Hpos|Hpos].
  - unfold z_at. rewrite (proj2 (Z.ltb_ge (z_pos z) 0)) by lia.
    destruct (lookup_lt_is_Some_2 (z_buf z) (Z.to_nat (z_pos z))) as [c' Hc]; [lia|].
    rewrite Hc. unfold rest in Hr. rewrite (drop_S _ c') in Hr by done. simplify_eq/=.
    eexists. split; [done|]. split.
    + split; [|done]. unfold zok; simpl. rewrite wrap_small by (unfold in_u; lia). lia.
    + unfold rest. simpl. by replace (Z.to_nat (z_pos z + 1)) with (S (Z.to_nat (z_pos z))) by lia.
  - assert (z_n z = 0) as Hn0 by lia.
    set (z' := MkZIO (u64 (z_n z - 1)) (z_buf z) (z_pos z) (z_chunks z)).
    assert (Hr' : rest z' = c :: r) by done.
    destruct (fill_cases z') as [[He _]|(c' & l & cs & Hcs & Hfill & Hrest)]; [done|simpl; lia|congruence|].
    rewrite Hrest in Hr'. simplify_eq. rewrite Hfill. eexists. split; [done|].
    destruct Hf as [Hb Hc]. simpl in Hcs. rewrite Hcs in Hc. apply Forall_cons in Hc as [[Hc1 Hc2] Hc3].
    rewrite length_cons in Hc2. split.
    + split; [|by split; simpl]. unfold zok; simpl. rewrite ?length_cons. lia.
    + done.
Qed.

Lemma rest_bytes z : zfits z -> Forall is_byte (rest z).
Proof.
  intros [Hb Hc]. unfold rest. apply Forall_app; split; [by apply Forall_drop|].
  induction Hc as [|c cs [Hc _] _ IH]; [constructor|]. simpl. destruct c as [|x c]; [constructor|].
  apply (Forall_app_2 _ (x :: c)); [done|]. by apply IH.
Qed.

Lemma loadByte_reads name c : reads (loadByte name) [c] c.
Proof.
  intros z r Hz Hr. simpl in Hr. destruct (zgetc_reads c z r Hz Hr) as (z' & H & Hz' & Hr').
  assert (Hc : is_byte c).
  { destruct Hz as [_ Hf]. apply rest_bytes in Hf. rewrite Hr in Hf. by apply Forall_cons in Hf as [? _]. }
  exists z'. unfold loadByte. rewrite (bind_Ret _ _ _ _ _ H). unfold EOZ, is_byte in *.
  rewrite (proj2 (Z.eqb_neq c (-1))) by lia. by rewrite wrap_small by (unfold in_u; lia).
Qed.

(** [luaZ_read] *)

Definition read_post (n : Z) (b : list Z) (z : ZIO) (o : outcome ZIO (Z * list Z)) : Prop :=
  if n <=? zlen (rest z) then
    exists z', o = Ret z' (0, b ++ take (Z.to_nat n) (rest z)) /\ zinv z' /\ rest z' = drop (Z.to_nat n) (rest z)
  else exists z' m b', o = Ret z' (m, b') /\ m <> 0.

(** Enough rounds for the chunks left. *)
Definition enough (fuel : nat) (z : ZIO) : Prop := (length (z_chunks z) + (if (z_n z =? 0)%Z then 0 else 1) < fuel)%nat.

Lemma read_copy n b z (k : Z -> list Z -> L (Z * list Z)) :
  zinv z -> 0 < n -> 0 < z_n z ->
  (forall z', zinv z' -> z_chunks z' = z_chunks z -> z_n z' = 0 -> z_n z < n ->
     read_post (n - z_n z) (b ++ drop (Z.to_nat (z_pos z)) (z_buf z)) z'
       (k (n - z_n z) (b ++ drop (Z.to_nat (z_pos z)) (z_buf z)) z')) ->
  (forall b' z', k 0 b' z' = Ret z' (0, b')) ->
  read_post n b z
    ((left ← z_left;
      let m := if n <=? left then n else left in
      x ← z_take m; k (n - m) (b ++ x)) z).
Proof.
  intros [(Hp & Hn & Hl) Hf] Hn0 Hz0 Hk Hend. rewrite (bind_Ret z_left _ z z (z_n z)) by done.
  set (m := if n <=? z_n z then n else z_n z).
  assert (Hm : m <= z_n z /\ 0 < m) by (subst m; destruct (Z.leb_spec n (z_n z)); lia).
  set (z1 := MkZIO (z_n z - m) (z_buf z) (z_pos z + m) (z_chunks z)).
  assert (Ht : z_take m z = Ret z1 (take (Z.to_nat m) (drop (Z.to_nat (z_pos z)) (z_buf z)))).
  { unfold z_take. by rewrite (proj2 (Z.leb_le 0 (z_pos z))), (proj2 (Z.leb_le (z_pos z + m) _)) by lia. }
  rewrite (bind_Ret _ _ _ _ _ Ht).
  assert (Hz1 : zinv z1) by (split; [unfold zok; simpl; lia|done]).
  set (cur := drop (Z.to_nat (z_pos z)) (z_buf z)) in *.
  assert (Hcur : zlen cur = z_n z) by (subst cur; rewrite length_drop; lia).
  assert (Hrest : rest z = cur ++ stream (z_chunks z)) by done.
  assert (Hrest1 : rest z1 = drop (Z.to_nat m) cur ++ stream (z_chunks z)).
  { unfold rest. simpl. subst cur. rewrite drop_drop. do 2 f_equal. lia. }
  unfold read_post. rewrite Hrest, length_app, Nat2Z.inj_add. subst m. destruct (Z.leb_spec n (z_n z)) as [Hle|Hgt].
  - rewrite (proj2 (Z.leb_le n _)) by lia. rewrite Z.sub_diag, Hend. cbn iota. exists z1. split_and!; [|done|].
    + by rewrite take_app_le by lia.
    + by rewrite drop_app_le by lia.
  - rewrite (take_ge cur) by lia. rewrite (drop_ge cur) in Hrest1 by lia.
    specialize (Hk z1 Hz1 eq_refl ltac:(simpl; lia) Hgt). unfold read_post in Hk. rewrite Hrest1 in Hk.
    simpl app in Hk. destruct (Z.leb_spec n (zlen cur + zlen (stream (z_chunks z)))) as [Hfit|Hno].
    + rewrite (proj2 (Z.leb_le (n - z_n z) _)) in Hk by lia. cbn iota in Hk |- *. destruct Hk as (z2 & -> & Hz2 & Hr2).
      exists z2. split_and!; [|done|].
      * rewrite <- app_assoc. do 3 f_equal. rewrite take_app_ge by lia. do 2 f_equal. lia.
      * rewrite Hr2, drop_app_ge by lia. f_equal. lia.
    + by rewrite (proj2 (Z.leb_gt (n - z_n z) _)) in Hk by lia.
Qed.

Lemma read_loop_ok fuel n b z :
  zinv z -> 0 <= n -> enough fuel z -> read_post n b z (luaZ_read_loop fuel n b z).
Proof.
  assert (Hend : forall fuel b z, luaZ_read_loop fuel 0 b z = Ret z (0, b)) by (by intros []).
  revert n b z. induction fuel as [|fuel IH]; intros n b z Hz Hn He; [unfold enough in He; lia|].
  destruct (Z.eqb_spec n 0) as [->|Hn0].
  { rewrite Hend. unfold read_post. rewrite (proj2 (Z.leb_le 0 _)) by lia. cbn iota. exists z.
    split_and!; [by rewrite app_nil_r|done|done]. }
  cbn [luaZ_read_loop]. rewrite (proj2 (Z.eqb_neq n 0)) by done.
  rewrite (bind_Ret z_left _ z z (z_n z)) by done. unfold enough in He.
  destruct (Z.eqb_spec (z_n z) 0) as [Hz0|Hz0].
  - pose proof Hz as [(Hp & Hzn & Hl) Hf].
    destruct (fill_cases z Hf ltac:(lia)) as [[Hr (z' & Hfill)]|(c & l & cs & Hcs & Hfill & Hr)].
    + rewrite bind_Ret with (s' := z') (a := true) by (by rewrite (bind_Ret _ _ _ _ _ Hfill)).
      unfold read_post. rewrite Hr. rewrite (proj2 (Z.leb_gt n _)) by (simpl; lia). cbn iota. by exists z', n, b.
    + assert (Hfz : zfits z) by done. destruct Hf as [Hb Hc]. rewrite Hcs in Hc.
      apply Forall_cons in Hc as [[Hc1 Hc2] Hc3]. rewrite length_cons in Hc2.
      set (z1 := MkZIO (zlen l + 1) (c :: l) 0 cs).
      rewrite bind_Ret with (s' := z1) (a := false).
      2: { rewrite (bind_Ret _ _ _ _ _ Hfill). unfold EOZ. apply Forall_cons in Hc1 as [Hc1 _]. unfold is_byte in Hc1.
           rewrite (proj2 (Z.eqb_neq c (-1))) by lia. done. }
      assert (Hz1 : zinv z1).
      { split; [|done]. unfold zok; simpl; rewrite ?length_cons; lia. }
      assert (Hr1 : rest z1 = rest z) by (rewrite Hr; done).
      assert (Hpost : read_post n b z1 ((left ← z_left;
        let m := if n <=? left then n else left in
        x ← z_take m; luaZ_read_loop fuel (n - m) (b ++ x)) z1)).
      { apply (read_copy n b z1 (luaZ_read_loop fuel)); [done|lia|simpl; lia| |apply Hend].
        intros z' Hz' Hcs' Hn' Hlt. apply IH; [done|lia|]. unfold enough. rewrite Hcs', Hn'. simpl.
        rewrite Hcs in He. simpl in He. lia. }
      unfold read_post in *. by rewrite Hr1 in Hpost.
  - rewrite (bind_Ret (mret false) _ z z false) by done.
    pose proof Hz as [(Hp & Hzn & Hl) Hf].
    apply (read_copy n b z (luaZ_read_loop fuel)); [done|lia|lia| |apply Hend].
    intros z' Hz' Hcs' Hn' Hlt. apply IH; [done|lia|]. unfold enough. rewrite Hcs', Hn'. simpl. lia.
Qed.

Lemma luaZ_read_ok n z : zinv z -> 0 <= n -> read_post n [] z (luaZ_read n z).
Proof.
  intros Hz Hn. apply read_loop_ok; [done|done|]. unfold enough. destruct (_ =? _); lia.
Qed.

Lemma loadBlock_reads name bs : reads (loadBlock name (zlen bs)) bs bs.
Proof.
  intros z r Hz Hr. unfold loadBlock. pose proof (luaZ_read_ok (zlen bs) z Hz ltac:(lia)) as H.
  unfold read_post in H. rewrite Hr, length_app in H. rewrite (proj2 (Z.leb_le (zlen bs) _)) in H by lia.
  destruct H as (z' & H & Hz' & Hr'). rewrite Nat2Z.id, take_app_length in H. rewrite Nat2Z.id, drop_app_length in Hr'.
  exists z'. by rewrite (bind_Ret _ _ _ _ _ H).
Qed.

(** ** Bytes of an integer *)

Lemma le_bytes_length w x : length (le_bytes w x) = w.
Proof. revert x. induction w; intros; simpl; [done|]. by rewrite IHw. Qed.

Lemma le_value_bytes w x : 0 <= x < 256 ^ Z.of_nat w -> le_value (le_bytes w x) = x.
Proof.
  revert x. induction w as [|w IH]; intros x Hx; simpl.
  - change (256 ^ Z.of_nat 0) with 1 in Hx. lia.
  - unfold le_value in IH. rewrite IH.
    + pose proof (Z.div_mod x 256 ltac:(lia)). lia.
    + rewrite Nat2Z.inj_succ, Z.pow_succ_r in Hx by lia.
      split; [apply Z.div_pos; lia|apply Z.div_lt_upper_bound; lia].
Qed.

Lemma le_bytes_byte w x : Forall is_byte (le_bytes w x).
Proof. revert x. induction w; intros; simpl; constructor; [apply Z.mod_pos_bound; lia|done]. Qed.

(** ** Sizes *)

(** Seven bits in each byte, the most significant ones first; the last byte is
    marked. *)
Definition enc_size (x : Z) : list Z :=
  reverse (match digits 128 x with d :: ds => d + 128 :: ds | [] => [] end).

Lemma land_7f x : Z.land x 0x7f = x mod 128.
Proof. change 0x7f with (Z.ones 7). by rewrite Z.land_ones by lia. Qed.

Lemma shiftr_7 x : Z.shiftr x 7 = x / 128.
Proof. by rewrite Z.shiftr_div_pow2 by lia. Qed.

Lemma dumpSize_loop_ok fuel x buff :
  0 <= x -> (length (digits 128 x) + length buff <= 10)%nat -> (length (digits 128 x) <= fuel)%nat ->
  dumpSize_loop fuel x buff = Some (reverse (digits 128 x) ++ buff).
Proof.
  revert x buff. induction fuel as [|fuel IH]; intros x buff Hx Hl Hf.
  { rewrite digits_eq in Hf by lia. simpl in Hf. lia. }
  rewrite digits_eq in * by lia. cbn [length] in Hl, Hf. cbn [dumpSize_loop]. change DIBS with 10.
  rewrite (proj2 (Z.ltb_lt (zlen buff) 10)) by lia. rewrite land_7f, shiftr_7.
  destruct (Z.eqb_spec (x / 128) 0); cbn [negb]; [done|].
  rewrite IH; [|apply Z.div_pos; lia|simpl in *; lia|lia].
  by rewrite reverse_cons, <- app_assoc.
Qed.

Lemma lor_80 d : 0 <= d < 128 -> Z.lor d 0x80 = d + 128.
Proof. intros Hd. apply (byte_eq (fun d => Z.lor d 0x80) (fun d => d + 128) 0 128); [vm_compute; reflexivity|lia]. Qed.

Lemma mark_last_ok x : 0 <= x -> mark_last (reverse (digits 128 x)) = enc_size x.
Proof.
  intros Hx. unfold enc_size, mark_last. rewrite length_reverse.
  rewrite digits_eq by lia. set (ds := if _ =? 0 then [] else _). cbn [length].
  rewrite !reverse_cons. replace (S (length ds) - 1)%nat with (length (reverse ds) + 0)%nat
    by (rewrite length_reverse; lia).
  rewrite alter_app_r. cbn. do 2 f_equal. apply lor_80. apply Z.mod_pos_bound. lia.
Qed.

Definition push7 (a d : Z) : Z := a * 128 + d.

Lemma foldl_push7 ds i : foldl push7 i (reverse ds) = i * 128 ^ zlen ds + eval_digits 128 ds.
Proof.
  induction ds as [|d ds IH]; [simpl; lia|].
  rewrite reverse_cons, foldl_app. cbn [foldl]. unfold push7 at 1. rewrite IH.
  cbn [length eval_digits foldr]. fold (eval_digits 128 ds).
  replace (Z.of_nat (S (length ds))) with (Z.succ (zlen ds)) by lia. rewrite Z.pow_succ_r by lia. lia.
Qed.

Lemma push7_mono ds i : 0 <= i -> Forall (fun d => 0 <= d < 128) ds -> i <= foldl push7 i ds.
Proof.
  revert i. induction ds as [|d ds IH]; intros i Hi Hd; [simpl; lia|]. apply Forall_cons in Hd as [Hd Hds]. simpl.
  unfold push7 at 2. specialize (IH (i * 128 + d) ltac:(lia) Hds). unfold push7 in IH |- *. lia.
Qed.

Lemma lor_push x b : 0 <= x < 2 ^ 57 -> 0 <= b < 128 -> Z.lor (u64 (Z.shiftl x 7)) b = push7 x b.
Proof.
  intros Hx Hb. rewrite Z.shiftl_mul_pow2 by lia. rewrite wrap_small by (unfold in_u; lia).
  unfold push7. change (2 ^ 7) with 128.
  assert (Hl : Z.land (x * 128) b = 0).
  { apply Z.bits_inj'. intros n Hn. rewrite Z.land_spec, Z.bits_0. change 128 with (2 ^ 7).
    destruct (Z.ltb_spec n 7) as [Hlt|Hge].
    - by rewrite Z.mul_pow2_bits_low by lia.
    - rewrite (Z.bits_above_log2 b); [by rewrite andb_false_r|lia|]. destruct (decide (b = 0)) as [->|]; [simpl; lia|].
      apply Z.log2_lt_pow2; [lia|]. eapply Z.lt_le_trans; [apply Hb|].
      change 128 with (2 ^ 7). apply Z.pow_le_mono_r; lia. }
  rewrite <- Z.lxor_lor by done. by rewrite <- Z.add_nocarry_lxor by done.
Qed.

Lemma land_low b : 0 <= b < 128 -> Z.land b 0x7f = b /\ Z.land b 0x80 = 0.
Proof.
  intros Hb. split.
  - rewrite land_7f. apply Z.mod_small. lia.
  - apply (byte_eq (fun b => Z.land b 0x80) (fun _ => 0) 0 128); [vm_compute; reflexivity|lia].
Qed.

Lemma land_high b : 0 <= b < 128 -> Z.land (b + 128) 0x7f = b /\ Z.land (b + 128) 0x80 = 0x80.
Proof.
  intros Hb. split.
  - apply (byte_eq (fun b => Z.land (b + 128) 0x7f) (fun b => b) 0 128); [vm_compute; reflexivity|lia].
  - apply (byte_eq (fun b => Z.land (b + 128) 0x80) (fun _ => 0x80) 0 128); [vm_compute; reflexivity|lia].
Qed.

Lemma loadUnsigned_loop_reads name ds d fuel x limit :
  Forall (fun d => 0 <= d < 128) ds -> 0 <= d < 128 -> 0 <= x -> foldl push7 x ds < limit -> limit <= 2 ^ 57 ->
  (length ds < fuel)%nat ->
  reads (loadUnsigned_loop name fuel x limit) (ds ++ [d + 128]) (push7 (foldl push7 x ds) d).
Proof.
  intros Hds Hd. revert x fuel. induction ds as [|c ds IH]; intros x fuel Hx Hlim Hmax Hf.
  all: destruct fuel as [|fuel]; [simpl in Hf; lia|]; cbn [loadUnsigned_loop].
  - rewrite <- (app_nil_r ([] ++ _)). simpl app. eapply (reads_bind _ _ [d + 128] []); [apply loadByte_reads|].
    simpl in Hlim. rewrite Z.geb_leb, (proj2 (Z.leb_gt limit x)) by lia.
    destruct (land_high d Hd) as [-> ->]. rewrite lor_push by lia. apply reads_ret.
  - apply Forall_cons in Hds as [Hc Hds]. simpl app. eapply (reads_bind _ _ [c]); [apply loadByte_reads|].
    simpl in Hlim. pose proof (push7_mono ds (push7 x c) ltac:(unfold push7; lia) Hds).
    unfold push7 in H at 1. rewrite Z.geb_leb, (proj2 (Z.leb_gt limit x)) by lia.
    destruct (land_low c Hc) as [-> ->]. rewrite lor_push by lia. simpl. apply IH; [done|unfold push7; lia|done|done|].
    simpl in Hf. lia.
Qed.

Lemma stream_length cs : (length (stream cs) <= length (concat cs))%nat.
Proof. induction cs as [|[|x c] cs IH]; simpl; [lia|lia|]. rewrite !length_app. lia. Qed.

Lemma rest_length z : (length (rest z) <= length (z_buf z) + length (concat (z_chunks z)))%nat.
Proof. unfold rest. rewrite length_app, length_drop. pose proof (stream_length (z_chunks z)). lia. Qed.

Lemma loadUnsigned_reads name limit x :
  0 <= x -> 0 <= limit < 2 ^ 64 -> x / 128 < limit / 128 -> reads (loadUnsigned name limit) (enc_size x) x.
Proof.
  intros Hx Hlim Hfit z r Hz Hr. unfold loadUnsigned. rewrite shiftr_7.
  pose proof (eval_digits_digits 128 x ltac:(lia) Hx) as Hev. pose proof (digits_range 128 x ltac:(lia) Hx) as Hds.
  unfold enc_size in Hr. rewrite digits_eq in Hev, Hds, Hr by lia.
  set (ds := if x / 128 =? 0 then [] else digits 128 (x / 128)) in *.
  apply Forall_cons in Hds as [Hd Hds]. cbn [eval_digits foldr] in Hev. fold (eval_digits 128 ds) in Hev.
  rewrite reverse_cons in Hr.
  assert (Hev' : eval_digits 128 ds = x / 128) by (pose proof (Z.div_mod x 128 ltac:(lia)); lia).
  assert (Hval : x = push7 (foldl push7 0 (reverse ds)) (x mod 128)).
  { unfold push7 at 1. rewrite foldl_push7. lia. }
  pose proof (loadUnsigned_loop_reads name (reverse ds) (x mod 128)
    (S (length (z_buf z) + length (concat (z_chunks z)))) 0 (limit / 128)) as Hload.
  rewrite <- Hval in Hload. apply Hload; try done.
  - by apply Forall_reverse.
  - rewrite foldl_push7. lia.
  - assert (limit / 128 < 2 ^ 57); [|lia]. apply Z.div_lt_upper_bound; lia.
  - pose proof (rest_length z) as Hl. rewrite Hr, !length_app in Hl. simpl in Hl. lia.
Qed.

End DumpFacts.
