(* ===== verification/DumpSpec.v ===== *)
(** * Dumping a function and loading it back *)

From Stdlib Require Import SpecFloat.
From S2P Require Import Prelude CFloat FloatFacts LuaValue LuaDump DumpFacts.

Module DumpSpec.
Import CFloat FloatFacts LuaValue LuaDump DumpFacts.
Open Scope string_scope.
Open Scope list_scope.
Open Scope Z_scope.

(** ** Prototypes that can be dumped *)

Lemma Proto_ind {Str} (P : Proto Str -> Prop) : (forall f, Forall P (p f) -> P f) -> forall f, P f.
Proof.
  intros Hstep. fix IH 1. intros f. apply Hstep. destruct f as [? ? ? ? ? ? ? ? ? ps ? ? ?]. cbn [p].
  induction ps as [|g ps IHps]; constructor; [apply IH|exact IHps].
Qed.

(** An [int] that the reader accepts: the last 128 values of the type are
    rejected. *)
Definition int_ok (x : Z) : Prop := 0 <= x < 2 ^ 31 - 128.
Definition bytes_ok (s : list Z) : Prop := Forall is_byte s /\ zlen s < 2 ^ 64 - 129.
Definition str_ok (s : TString) : Prop := bytes_ok (ts_data s).
Definition name_ok (s : option TString) : Prop := match s with Some s => str_ok s | None => True end.

Definition konst_ok (o : konst TString) : Prop :=
  match o with
  | KNil | KFalse | KTrue => True
  | KFlt n => valid n
  | KInt i => in_s 64 i
  | KShrStr s => str_ok s /\ zlen (ts_data s) <= LUAI_MAXSHORTLEN
  | KLngStr s => str_ok s /\ LUAI_MAXSHORTLEN < zlen (ts_data s)
  end.

(** Equal pointers mean equal strings, and a function without a source has no
    parent with one. *)
Definition source_ok (psource src : option TString) : Prop :=
  name_ok src /\
  (same_string src psource = true -> ts_data <$> src = ts_data <$> psource) /\
  (src = None -> psource = None).

Unset Elimination Schemes.
Inductive proto_ok (psource : option TString) (f : Proto TString) : Prop :=
  MkOk {
    ok_source : source_ok psource (source f);
    ok_lines : int_ok (linedefined f) /\ int_ok (lastlinedefined f);
    ok_bytes : is_byte (numparams f) /\ is_byte (is_vararg f) /\ is_byte (maxstacksize f);
    ok_code : int_ok (zlen (code f)) /\ Forall (in_u 32) (code f);
    ok_k : int_ok (zlen (k f)) /\ Forall konst_ok (k f);
    ok_upvalues : int_ok (zlen (upvalues f)) /\
      Forall (fun u => is_byte (instack u) /\ is_byte (idx u) /\ is_byte (kind u) /\ name_ok (uv_name u)) (upvalues f);
    ok_protos : int_ok (zlen (p f)) /\ Forall (proto_ok (source f)) (p f);
    ok_lineinfo : int_ok (zlen (lineinfo f)) /\ Forall (in_s 8) (lineinfo f);
    ok_abslineinfo : int_ok (zlen (abslineinfo f)) /\ Forall (fun a => int_ok a.1 /\ int_ok a.2) (abslineinfo f);
    ok_locvars : int_ok (zlen (locvars f)) /\
      Forall (fun v => name_ok (varname v) /\ int_ok (startpc v) /\ int_ok (endpc v)) (locvars f) }.
Set Elimination Schemes.

(** ** What is loaded *)

Definition k_image (o : konst TString) : konst (list Z) :=
  match o with
  | KNil => KNil
  | KFalse => KFalse
  | KTrue => KTrue
  | KFlt n => KFlt n
  | KInt i => KInt i
  | KShrStr s => KShrStr (ts_data s)
  | KLngStr s => KLngStr (ts_data s)
  end.

(** The same function, without its debug information if stripped. *)
Fixpoint image (strip : bool) (f : Proto TString) : Proto (list Z) :=
  let name (s : option TString) : option (list Z) := if strip then None else ts_data <$> s in
  MkProto (name (source f)) (linedefined f) (lastlinedefined f) (numparams f) (is_vararg f) (maxstacksize f)
    (code f) (map k_image (k f))
    (map (fun u => MkUpval (name (uv_name u)) (instack u) (idx u) (kind u)) (upvalues f))
    (map (image strip) (p f))
    (if strip then [] else lineinfo f) (if strip then [] else abslineinfo f)
    (if strip then [] else map (fun v => MkLocVar (ts_data <$> varname v) (startpc v) (endpc v)) (locvars f)).

(** ** Writing and reading back *)

Section transfer.
(** A writer that keeps what it is given and never fails. *)
Context {W : Type} (writer : W -> list Z -> W * Z) (contents : W -> list Z).
Hypothesis writer_ok : forall w b, contents (writer w b).1 = contents w ++ b /\ (writer w b).2 = 0.
Context (strip : bool) (name : string).

(** The code writes [bs]. *)
Definition emits (m : ST (DumpState (W := W)) unit) (bs : list Z) : Prop :=
  forall d, d_status d = 0 ->
    exists d', m d = Ret d' tt /\ d_status d' = 0 /\ contents (d_data d') = contents (d_data d) ++ bs.

(** What one piece of code writes, at least [n] bytes, the other reads back as [a]. *)
Definition transfersN {A} (n : nat) (m : ST (DumpState (W := W)) unit) (l : L A) (a : A) : Prop :=
  exists bs, emits m bs /\ reads l bs a /\ Forall is_byte bs /\ (n <= length bs)%nat.
Abbreviation transfers := (transfersN 0).

Lemma emits_bind m1 m2 bs1 bs2 : emits m1 bs1 -> emits m2 bs2 -> emits (_ ← m1; m2) (bs1 ++ bs2).
Proof.
  intros H1 H2 d Hd. destruct (H1 d Hd) as (d1 & E1 & Hd1 & C1). destruct (H2 d1 Hd1) as (d2 & E2 & Hd2 & C2).
  exists d2. rewrite (bind_Ret _ _ _ _ _ E1). split_and!; [done|done|]. by rewrite C2, C1, app_assoc.
Qed.

Lemma emits_block b : emits (dumpBlock writer b) b.
Proof.
  intros d Hd. unfold dumpBlock. rewrite Hd. simpl. destruct (Z.ltb_spec 0 (zlen b)) as [Hb|Hb].
  - destruct (writer_ok (d_data d) b) as [H1 H2]. destruct (writer (d_data d) b) as [w s]. simpl in *. subst s.
    exists (MkDump 0 w). done.
  - destruct b; [|simpl in Hb; lia]. exists d. by rewrite app_nil_r.
Qed.

Lemma transfersN_bind {A B} n1 n2 n m1 m2 (l1 : L A) (l2 : A -> L B) a b :
  transfersN n1 m1 l1 a -> transfersN n2 m2 (l2 a) b -> (n <= n1 + n2)%nat ->
  transfersN n (_ ← m1; m2) (l1 ≫= l2) b.
Proof.
  intros (bs1 & E1 & R1 & B1 & N1) (bs2 & E2 & R2 & B2 & N2) Hn. exists (bs1 ++ bs2).
  split_and!; [by apply emits_bind|by eapply reads_bind|by apply Forall_app|]. rewrite length_app. lia.
Qed.

Lemma transfersN_weaken {A} n n' m (l : L A) a : (n' <= n)%nat -> transfersN n m l a -> transfersN n' m l a.
Proof. intros Hn (bs & E & R & B & N). exists bs. split_and!; [done|done|done|lia]. Qed.

Lemma transfers_bind {A B} m1 m2 (l1 : L A) (l2 : A -> L B) a b :
  transfers m1 l1 a -> transfers m2 (l2 a) b -> transfers (_ ← m1; m2) (l1 ≫= l2) b.
Proof. intros H1 H2. eapply transfersN_bind; [exact H1|exact H2|lia]. Qed.

Lemma transfers_map {A B} n m (l : L A) (g : A -> B) a :
  transfersN n m l a -> transfersN n m (x ← l; mret (g x)) (g a).
Proof. intros (bs & E & R & H). exists bs. split_and!; [done|by apply reads_map|apply H|apply H]. Qed.

Lemma transfersN_then {A B} n m (l : L A) (g : A -> L B) a b :
  transfersN n m l a -> g a = mret b -> transfersN n m (l ≫= g) b.
Proof.
  intros (bs & E & R & B0 & N) Hg. exists bs. split_and!; [done| |done|done]. rewrite <- (app_nil_r bs).
  eapply reads_bind; [exact R|]. rewrite Hg. apply reads_ret.
Qed.

Lemma transfers_ret {A} (a : A) : transfers (mret tt) (mret a) a.
Proof.
  exists []. split_and!; [|apply reads_ret|done|simpl; lia]. intros d Hd. exists d. by rewrite app_nil_r.
Qed.

Lemma transfers_block b : Forall is_byte b -> transfers (dumpBlock writer b) (loadBlock name (zlen b)) b.
Proof. intros Hb. exists b. split_and!; [apply emits_block|apply loadBlock_reads|done|lia]. Qed.

Lemma transfers_byte y : is_byte y -> transfers (dumpByte writer y) (loadByte name) y.
Proof.
  intros Hy. unfold dumpByte. rewrite wrap_small by done. exists [y].
  split_and!; [apply emits_block|apply loadByte_reads|by constructor|lia].
Qed.

Lemma emits_size x : 0 <= x < 2 ^ 64 -> emits (dumpSize writer x) (enc_size x).
Proof.
  intros Hx. unfold dumpSize.
  assert (length (digits 128 x) <= 10)%nat by (apply digits_length; [lia| |lia]; split; [lia|]; eapply Z.lt_le_trans; [apply Hx|]; vm_compute; discriminate).
  rewrite dumpSize_loop_ok; [|lia|cbn [length]; lia|lia]. rewrite app_nil_r, mark_last_ok by lia. apply emits_block.
Qed.

(** A size that the limit of the reader admits. *)
Lemma transfers_unsigned limit x :
  0 <= x < 2 ^ 64 -> 0 <= limit < 2 ^ 64 -> x / 128 < limit / 128 ->
  transfersN 1 (dumpSize writer x) (loadUnsigned name limit) x.
Proof.
  intros Hx Hl Hfit. exists (enc_size x). split_and!; [by apply emits_size|apply loadUnsigned_reads; lia| |].
  - apply Forall_reverse. pose proof (digits_range 128 x ltac:(lia) ltac:(lia)) as Hd.
    destruct (digits 128 x) as [|d ds]; [constructor|]. apply Forall_cons in Hd as [Hd Hds].
    constructor; [unfold is_byte; lia|]. eapply Forall_impl; [exact Hds|]. unfold is_byte. simpl. lia.
  - unfold enc_size. rewrite digits_eq by lia. rewrite length_reverse. simpl. lia.
Qed.

Lemma transfers_size x : 0 <= x < 2 ^ 64 - 128 -> transfersN 1 (dumpSize writer x) (loadSize name) x.
Proof.
  intros Hx. apply transfers_unsigned; [lia|lia|].
  change ((2 ^ 64 - 1) / 128) with (2 ^ 57 - 1). apply Z.div_lt_upper_bound; lia.
Qed.

Lemma transfers_int x : int_ok x -> transfers (dumpInt writer x) (loadInt name) x.
Proof.
  intros Hx. unfold int_ok in Hx. unfold dumpInt, loadInt. rewrite wrap_small by (unfold in_u; lia).
  replace x with (s32 x) at 2 by (apply swrap_small; [lia|unfold in_s; lia]). apply transfers_map.
  eapply transfersN_weaken; [|apply transfers_unsigned]; [lia|lia|lia|].
  change ((2 ^ 31 - 1) / 128) with (2 ^ 24 - 1). apply Z.div_lt_upper_bound; lia.
Qed.

Lemma transfers_number x : valid x -> transfers (dumpNumber writer x) (loadNumber name) x.
Proof.
  intros Hx. destruct (d_bits_roundtrip x Hx) as [Hb Hr]. unfold dumpNumber, loadNumber.
  replace x with (d_of_bits (le_value (le_bytes 8 (d_bits x)))) at 2 by (rewrite le_value_bytes; [done|exact Hr]).
  apply (transfers_map _ _ _ (fun b => d_of_bits (le_value b))). apply (transfers_block (le_bytes 8 (d_bits x))), le_bytes_byte.
Qed.

Lemma transfers_integer x : in_s 64 x -> transfers (dumpInteger writer x) (loadInteger name) x.
Proof.
  intros Hx. unfold dumpInteger, loadInteger.
  replace x with (s64 (le_value (le_bytes 8 (u64 x)))) at 2.
  - apply (transfers_map _ _ _ (fun b => s64 (le_value b))). apply (transfers_block (le_bytes 8 (u64 x))), le_bytes_byte.
  - rewrite le_value_bytes by (apply (wrap_range 64); lia). rewrite swrap_wrap. by apply swrap_small; [lia|].
Qed.

Lemma transfersN_string s : name_ok s -> transfersN 1 (dumpString writer s) (loadStringN name) (ts_data <$> s).
Proof.
  destruct s as [s|]; intros Hs; unfold loadStringN.
  - destruct Hs as [Hb Hl]. cbn [dumpString]. rewrite wrap_small by (unfold in_u; lia).
    apply (transfersN_bind 1 0 1 _ _ _ _ (zlen (ts_data s) + 1)); [apply transfers_size; lia| |lia].
    rewrite (proj2 (Z.eqb_neq (zlen (ts_data s) + 1) 0)) by lia.
    apply (transfers_map _ _ _ Some).
    replace (zlen (ts_data s) + 1 - 1) with (zlen (ts_data s)) by lia. by apply transfers_block.
  - cbn [dumpString fmap option_fmap option_map]. eapply transfersN_then; [apply transfers_size; lia|done].
Qed.

Lemma transfers_stringN s : name_ok s -> transfers (dumpString writer s) (loadStringN name) (ts_data <$> s).
Proof. intros Hs. eapply transfersN_weaken; [|by apply transfersN_string]. lia. Qed.

Lemma transfers_each {A B} (dump : A -> ST (DumpState (W := W)) unit) (load : L B) (g : A -> B) l :
  Forall (fun x => transfers (dump x) load (g x)) l ->
  transfers (dump_each dump l) (load_each load (length l)) (map g l).
Proof.
  intros H. induction H as [|x l Hx _ IH]; [apply transfers_ret|].
  cbn [dump_each load_each length map]. eapply transfers_bind; [exact Hx|]. by apply transfers_map.
Qed.

(** An array with its size in front. *)
Lemma transfers_array {A B C} (dump : A -> ST (DumpState (W := W)) unit) (load : L B) (g : A -> B) l
    (m : ST (DumpState (W := W)) unit) (next : list B -> L C) c :
  int_ok (zlen l) -> Forall (fun x => transfers (dump x) load (g x)) l ->
  transfers m (next (map g l)) c ->
  transfers (_ ← dumpInt writer (zlen l); _ ← dump_each dump l; m)
    (n ← loadInt name; xs ← load_each load (Z.to_nat n); next xs) c.
Proof.
  intros Hl Hf Hn. eapply transfers_bind; [by apply transfers_int|]. cbn beta. rewrite Nat2Z.id.
  eapply transfers_bind; [by apply transfers_each|]. done.
Qed.

(** *** The parts of a function *)

Lemma words_concat l : Forall (in_u 32) l -> words 4 (length l) (concat (map (le_bytes 4) l)) = l.
Proof.
  intros H. induction H as [|x l Hx _ IH]; [done|]. cbn [length words map concat].
  rewrite take_app_length' by (by rewrite le_bytes_length).
  rewrite drop_app_length' by (by rewrite le_bytes_length).
  rewrite le_value_bytes by exact Hx. by rewrite IH.
Qed.

Lemma concat_length (l : list Z) : zlen (concat (map (le_bytes 4) l)) = zlen l * 4.
Proof. induction l as [|x l IH]; [done|]. cbn [map concat]. rewrite length_app, le_bytes_length, length_cons. lia. Qed.

Lemma transfers_code f :
  int_ok (zlen (code f)) -> Forall (in_u 32) (code f) -> transfers (dumpCode writer f) (loadCode name) (code f).
Proof.
  intros Hl Hc. eapply transfers_bind; [by apply transfers_int|]. cbn beta. rewrite Nat2Z.id.
  replace (code f) with (words 4 (length (code f)) (concat (map (le_bytes 4) (code f)))) at 3
    by by apply words_concat.
  apply (transfers_map _ _ _ (fun b => words 4 (length (code f)) b)). rewrite <- concat_length. apply transfers_block.
  apply Forall_concat, Forall_map, Forall_true. intros x. apply (le_bytes_byte 4).
Qed.

Lemma transfers_konst o : konst_ok o -> transfers (dumpConstant writer o) (loadConstant name) (k_image o).
Proof.
  intros Ho. unfold dumpConstant, loadConstant.
  assert (Hstr : forall s, str_ok s -> transfers (dumpString writer (Some s)) (loadString name) (ts_data s)).
  { intros s Hs. unfold loadString. eapply transfersN_then; [by apply transfers_stringN|]. done. }
  eapply transfers_bind; [apply transfers_byte; by destruct o|]. destruct o as [| | |n|i|s|s]; cbn.
  - apply transfers_ret.
  - apply transfers_ret.
  - apply transfers_ret.
  - apply transfers_map. by apply transfers_number.
  - apply transfers_map. by apply transfers_integer.
  - destruct Ho as [Hs Hl]. replace (KShrStr (ts_data s)) with (new_string (ts_data s)).
    + apply transfers_map. by apply Hstr.
    + unfold new_string. by rewrite (proj2 (Z.leb_le (zlen (ts_data s)) LUAI_MAXSHORTLEN)).
  - destruct Ho as [Hs Hl]. replace (KLngStr (ts_data s)) with (new_string (ts_data s)).
    + apply transfers_map. by apply Hstr.
    + unfold new_string. by rewrite (proj2 (Z.leb_gt (zlen (ts_data s)) LUAI_MAXSHORTLEN)).
Qed.

Lemma transfers_constants f :
  int_ok (zlen (k f)) -> Forall konst_ok (k f) ->
  transfers (dumpConstants writer f) (loadConstants name) (map k_image (k f)).
Proof.
  intros Hl Hk. eapply transfers_bind; [by apply transfers_int|]. cbn beta. rewrite Nat2Z.id.
  apply transfers_each. eapply Forall_impl; [exact Hk|]. apply transfers_konst.
Qed.

(** The upvalues before their names are set. *)
Definition bare (u : Upvaldesc TString) : Upvaldesc (list Z) := MkUpval None (instack u) (idx u) (kind u).

Lemma transfers_upvalues f :
  int_ok (zlen (upvalues f)) ->
  Forall (fun u => is_byte (instack u) /\ is_byte (idx u) /\ is_byte (kind u) /\ name_ok (uv_name u)) (upvalues f) ->
  transfers (dumpUpvalues writer f) (loadUpvalues name) (map bare (upvalues f)).
Proof.
  intros Hl Hk. eapply transfers_bind; [by apply transfers_int|]. cbn beta. rewrite Nat2Z.id.
  apply transfers_each. eapply Forall_impl; [exact Hk|]. intros u (H1 & H2 & H3 & _).
  eapply transfers_bind; [by apply transfers_byte|]. eapply transfers_bind; [by apply transfers_byte|].
  apply (transfers_map _ _ _ (fun c => MkUpval None (instack u) (idx u) c)). by apply transfers_byte.
Qed.

Lemma set_names_map (us : list (Upvaldesc TString)) :
  set_names (map bare us) (map (fun u => ts_data <$> uv_name u) us) =
  map (fun u => MkUpval (ts_data <$> uv_name u) (instack u) (idx u) (kind u)) us.
Proof. induction us as [|u us IH]; [done|]. simpl. by rewrite IH. Qed.

Lemma map_swrap8 l : Forall (in_s 8) l -> map (swrap 8) (map u8 l) = l.
Proof.
  intros H. induction H as [|x l Hx _ IH]; [done|]. simpl. rewrite IH, swrap_wrap, swrap_small by (lia || done). done.
Qed.

Lemma int_ok_0 : int_ok 0.
Proof. split; lia. Qed.

(** What [loadDebug] returns. *)
Definition debug_image (f : Proto TString) :=
  (if strip then [] else lineinfo f, if strip then [] else abslineinfo f,
   if strip then [] else map (fun v => MkLocVar (ts_data <$> varname v) (startpc v) (endpc v)) (locvars f),
   map (fun u => MkUpval (if strip then None else ts_data <$> uv_name u) (instack u) (idx u) (kind u)) (upvalues f)).

Lemma transfers_debug psource f :
  proto_ok psource f ->
  transfers (dumpDebug writer strip f) (loadDebug name (map bare (upvalues f))) (debug_image f).
Proof.
  intros []. destruct ok_lineinfo0 as [Hl1 Hl2], ok_abslineinfo0 as [Ha1 Ha2], ok_locvars0 as [Hv1 Hv2],
    ok_upvalues0 as [Hu1 Hu2].
  assert (Hz : forall A (l : list A), int_ok (zlen l) -> int_ok (zlen (unless_strip strip l))).
  { intros A l H. unfold unless_strip. destruct strip; [apply int_ok_0|done]. }
  assert (Hf : forall A (P : A -> Prop) l, Forall P l -> Forall P (unless_strip strip l)).
  { intros A P l H. unfold unless_strip. by destruct strip. }
  unfold dumpDebug, loadDebug.
  eapply transfers_bind; [apply transfers_int, Hz, Hl1|]. cbn beta.
  eapply transfers_bind.
  { rewrite <- (length_map u8 (unless_strip strip (lineinfo f))). apply transfers_block.
    apply Forall_map, Forall_true. intros x. apply (wrap_range 8). lia. }
  cbn beta.
  eapply transfers_array; [apply Hz, Ha1| |].
  { apply Hf. eapply Forall_impl; [exact Ha2|]. intros a [H1 H2]. unfold loadAbsLine.
    eapply transfers_bind; [by apply transfers_int|]. cbn beta.
    apply (transfers_map _ _ _ (fun b => (a.1, b))). by apply transfers_int. }
  cbn beta.
  eapply transfers_array; [apply Hz, Hv1| |].
  { apply Hf. eapply Forall_impl; [exact Hv2|]. intros v (H1 & H2 & H3). unfold loadLocVar.
    eapply transfers_bind; [by apply transfers_stringN|]. cbn beta.
    eapply transfers_bind; [by apply transfers_int|]. cbn beta.
    apply (transfers_map _ _ _ (fun b => MkLocVar (ts_data <$> varname v) (startpc v) b)). by apply transfers_int. }
  cbn beta.
  eapply transfers_bind; [apply transfers_int, Hz, Hu1|]. cbn beta.
  eapply transfersN_then.
  { replace (if negb (zlen (unless_strip strip (upvalues f)) =? 0) then length (map bare (upvalues f)) else O)
      with (length (unless_strip strip (upvalues f))).
    - apply (transfers_each _ _ (fun u => ts_data <$> uv_name u)). apply Hf. eapply Forall_impl; [exact Hu2|].
      intros u (_ & _ & _ & H). by apply transfers_stringN.
    - unfold unless_strip. destruct strip; [done|]. rewrite length_map. destruct (upvalues f) as [|u us]; [done|].
      by rewrite (proj2 (Z.eqb_neq _ 0)) by (simpl; lia). }
  f_equal. unfold debug_image, unless_strip. destruct strip.
  - cbn. repeat f_equal. by destruct (upvalues f).
  - rewrite set_names_map, map_swrap8 by done. repeat f_equal. rewrite <- map_id. apply map_ext. by intros [].
Qed.

(** *** Functions *)

(** The number of functions in a prototype. *)
Fixpoint fsize {Str} (f : Proto Str) : nat := S (sum_list (map fsize (p f))).

Lemma transfersN_each {A B} (dump : A -> ST (DumpState (W := W)) unit) (load : L B) (g : A -> B) (size : A -> nat) l :
  Forall (fun x => transfersN (size x) (dump x) load (g x)) l ->
  transfersN (sum_list (map size l)) (dump_each dump l) (load_each load (length l)) (map g l).
Proof.
  intros H. induction H as [|x l Hx _ IH]; [apply transfers_ret|].
  cbn [dump_each load_each length map sum_list]. eapply transfersN_bind; [exact Hx| |reflexivity].
  by apply transfers_map.
Qed.

(** The source the reader has for a function with this source. *)
Definition loaded_source (s : option TString) : option (list Z) := if strip then None else ts_data <$> s.

Lemma transfers_source psource src :
  source_ok psource src ->
  exists s, transfersN 1 (if strip || same_string src psource then dumpString writer None else dumpString writer src)
    (loadStringN name) s /\
    match s with Some s => Some s | None => loaded_source psource end = loaded_source src.
Proof.
  intros (Hn & Hsame & Hnone). unfold loaded_source. destruct strip; cbn [orb].
  { exists None. split; [|done]. by apply (transfersN_string None). }
  destruct (same_string src psource).
  - exists None. split; [by apply (transfersN_string None)|]. by rewrite Hsame.
  - exists (ts_data <$> src). split; [by apply transfersN_string|]. destruct src; [done|]. by rewrite Hnone.
Qed.

Lemma transfers_function f : forall psource fuel,
  proto_ok psource f -> (fsize f <= fuel)%nat ->
  transfersN (fsize f) (dumpFunction writer strip f psource) (loadFunction name fuel (loaded_source psource))
    (image strip f).
Proof.
  induction f as [f IH] using Proto_ind. intros psource fuel Hok Hf.
  pose proof (transfers_debug psource f Hok) as Hdebug. destruct Hok.
  destruct (transfers_source _ _ ok_source0) as (s & Hs & Hsrc).
  destruct ok_lines0, ok_bytes0 as (? & ? & ?), ok_code0, ok_k0, ok_upvalues0, ok_protos0 as [Hp1 Hp2].
  assert (Hsize : fsize f = S (sum_list (map fsize (p f)))) by by destruct f.
  destruct fuel as [|fuel]; [lia|].
  assert (Hdump : dumpFunction writer strip f psource =
    (_ ← (if strip || same_string (source f) psource then dumpString writer None else dumpString writer (source f));
     _ ← dumpInt writer (linedefined f); _ ← dumpInt writer (lastlinedefined f);
     _ ← dumpByte writer (numparams f); _ ← dumpByte writer (is_vararg f); _ ← dumpByte writer (maxstacksize f);
     _ ← dumpCode writer f; _ ← dumpConstants writer f; _ ← dumpUpvalues writer f;
     _ ← dumpInt writer (zlen (p f)); _ ← dump_each (fun g => dumpFunction writer strip g (source f)) (p f);
     dumpDebug writer strip f)) by by destruct f.
  rewrite Hdump, Hsize. cbn [loadFunction].
  apply (transfersN_bind 1 (sum_list (map fsize (p f))) _ _ _ _ _ s); [done| |lia]. cbn zeta. rewrite Hsrc.
  apply (transfersN_bind 0 (sum_list (map fsize (p f))) _ _ _ _ _ (linedefined f)); [by apply transfers_int| |lia].
  apply (transfersN_bind 0 (sum_list (map fsize (p f))) _ _ _ _ _ (lastlinedefined f)); [by apply transfers_int| |lia].
  apply (transfersN_bind 0 (sum_list (map fsize (p f))) _ _ _ _ _ (numparams f)); [by apply transfers_byte| |lia].
  apply (transfersN_bind 0 (sum_list (map fsize (p f))) _ _ _ _ _ (is_vararg f)); [by apply transfers_byte| |lia].
  apply (transfersN_bind 0 (sum_list (map fsize (p f))) _ _ _ _ _ (maxstacksize f)); [by apply transfers_byte| |lia].
  apply (transfersN_bind 0 (sum_list (map fsize (p f))) _ _ _ _ _ (code f)); [by apply transfers_code| |lia].
  apply (transfersN_bind 0 (sum_list (map fsize (p f))) _ _ _ _ _ (map k_image (k f))); [by apply transfers_constants| |lia].
  apply (transfersN_bind 0 (sum_list (map fsize (p f))) _ _ _ _ _ (map bare (upvalues f))); [by apply transfers_upvalues| |lia].
  apply (transfersN_bind 0 (sum_list (map fsize (p f))) _ _ _ _ _ (zlen (p f))); [by apply transfers_int| |lia].
  rewrite Nat2Z.id.
  apply (transfersN_bind (sum_list (map fsize (p f))) 0 _ _ _ _ _ (map (image strip) (p f))); [| |lia].
  - apply transfersN_each. apply Forall_forall. intros g Hg.
    apply (proj1 (Forall_forall _ _) IH g Hg); [exact (proj1 (Forall_forall _ _) Hp2 g Hg)|].
    assert (fsize g <= sum_list (map fsize (p f)))%nat; [|lia].
    clear -Hg. induction (p f) as [|h l IH]; [by apply elem_of_nil in Hg|]. simpl.
    apply elem_of_cons in Hg as [->|Hg]; [lia|]. specialize (IH Hg). lia.
  - eapply transfersN_then; [exact Hdebug|]. unfold debug_image. by destruct f.
Qed.

(** *** Headers *)

(** The header after its first byte. *)
Definition header_tail : list Z :=
  tail LUA_SIGNATURE ++ [LUAC_VERSION] ++ [LUAC_FORMAT] ++ LUAC_DATA ++ [4] ++ [8] ++ [8] ++
  le_bytes 8 LUAC_INT ++ le_bytes 8 (d_bits LUAC_NUM).

Lemma emits_header : emits (dumpHeader writer) (27 :: header_tail).
Proof.
  change (27 :: header_tail) with (LUA_SIGNATURE ++ [LUAC_VERSION] ++ [LUAC_FORMAT] ++ LUAC_DATA ++ [4] ++ [8] ++ [8] ++
    le_bytes 8 LUAC_INT ++ le_bytes 8 (d_bits LUAC_NUM)).
  repeat (apply emits_bind; [apply emits_block|]). apply emits_block.
Qed.

Lemma reads_then {A B} (m : L A) (g : A -> L B) bs a b : reads m bs a -> reads (g a) [] b -> reads (m ≫= g) bs b.
Proof. intros H1 H2. rewrite <- (app_nil_r bs). by eapply reads_bind. Qed.

Lemma checkliteral_reads s msg : zlen s <= 12 -> reads (checkliteral name s msg) s tt.
Proof.
  intros Hs. unfold checkliteral. rewrite (proj2 (Z.ltb_ge 12 (zlen s))) by done.
  apply (reads_then _ _ _ s); [apply loadBlock_reads|].
  rewrite bool_decide_eq_true_2 by done. apply reads_ret.
Qed.

Lemma fchecksize_reads size tname : reads (fchecksize name size tname) [size] tt.
Proof.
  unfold fchecksize. eapply reads_then; [apply loadByte_reads|].
  rewrite Z.eqb_refl. apply reads_ret.
Qed.

Lemma header_reads : reads (checkHeader name) header_tail tt.
Proof.
  unfold checkHeader, header_tail. eapply reads_bind; [apply checkliteral_reads; vm_compute; discriminate|].
  eapply reads_bind; [apply loadByte_reads|]. rewrite Z.eqb_refl. cbn [negb].
  eapply reads_bind; [apply loadByte_reads|]. rewrite Z.eqb_refl. cbn [negb].
  eapply reads_bind; [apply checkliteral_reads; vm_compute; discriminate|].
  do 3 (eapply reads_bind; [apply fchecksize_reads|]).
  eapply (reads_bind _ _ _ _ LUAC_INT).
  { unfold loadInteger. eapply reads_then; [apply (loadBlock_reads name (le_bytes 8 LUAC_INT))|apply (reads_ret LUAC_INT)]. }
  rewrite Z.eqb_refl. cbn [negb]. eapply (reads_then _ _ _ LUAC_NUM).
  { unfold loadNumber. eapply reads_then; [apply (loadBlock_reads name (le_bytes 8 (d_bits LUAC_NUM)))|].
    change LUAC_NUM with (d_of_bits (le_value (le_bytes 8 (d_bits LUAC_NUM)))) at 2. apply reads_ret. }
  apply reads_ret.
Qed.

(** *** Whole chunks *)

Lemma emits_unique m bs bs' (w : W) : emits m bs -> emits m bs' -> bs = bs'.
Proof.
  intros H1 H2. destruct (H1 (MkDump 0 w) eq_refl) as (d1 & E1 & _ & C1).
  destruct (H2 (MkDump 0 w) eq_refl) as (d2 & E2 & _ & C2). assert (d2 = d1) as -> by congruence.
  simpl in *. apply (app_inv_head (contents w)). congruence.
Qed.

(** A division of a byte string into the chunks a reader delivers. *)
Definition split_of (bs : list Z) (chunks : list (list Z)) : Prop :=
  concat chunks = bs /\ Forall (fun c => c <> [] /\ zlen c < 2 ^ 64) chunks.

Lemma stream_split bs chunks : split_of bs chunks -> stream chunks = bs.
Proof.
  intros [<- H]. induction H as [|c cs [Hc _] _ IH]; [done|]. simpl. rewrite <- IH. by destruct c.
Qed.

Lemma init_inv bs chunks :
  split_of bs chunks -> Forall is_byte bs -> zinv (luaZ_init chunks) /\ rest (luaZ_init chunks) = bs.
Proof.
  intros Hsp Hb. split; [|unfold rest; simpl; by apply stream_split]. split; [unfold zok; simpl; lia|].
  split; [constructor|]. simpl. destruct Hsp as [<- H]. apply Forall_forall. intros c Hc.
  split; [|by apply (proj1 (Forall_forall _ _) H c Hc)]. apply Forall_forall. intros x Hx.
  apply (proj1 (Forall_forall _ _) Hb). apply list_elem_of_In, in_concat. exists c. split; by apply list_elem_of_In.
Qed.

End transfer.
(** ** Round trip *)

Section roundtrip.
Context {W : Type} (writer : W -> list Z -> W * Z) (contents : W -> list Z).
Hypothesis writer_ok : forall w b, contents (writer w b).1 = contents w ++ b /\ (writer w b).2 = 0.
Context (strip : bool) (name : string).

Lemma dump_load f w :
  proto_ok None f -> zlen (upvalues f) < 256 ->
  exists d bs, luaU_dump writer strip f w = Ret d 0 /\ contents (d_data d) = contents w ++ bs /\
    forall chunks, split_of bs chunks ->
      exists z z', zgetc (luaZ_init chunks) = Ret z 27 /\
        luaU_undump name z = Ret z' (zlen (upvalues f), image strip f).
Proof.
  intros Hok Hup. set (cname := chunk_name name).
  assert (Hn : is_byte (zlen (upvalues f))) by (unfold is_byte; lia).
  destruct (transfers_byte writer contents writer_ok cname _ Hn) as (b1 & E1 & R1 & B1 & _).
  pose proof (transfers_function writer contents writer_ok strip cname f None) as Hfun.
  destruct (Hfun (fsize f) Hok ltac:(lia)) as (b2 & E2 & _ & B2 & N2).
  destruct (emits_header writer contents writer_ok (MkDump 0 w) eq_refl) as (d0 & H0 & S0 & C0).
  destruct (E1 d0 S0) as (d1 & H1 & S1 & C1). destruct (E2 d1 S1) as (d2 & H2 & S2 & C2).
  exists d2, ((27 :: header_tail) ++ b1 ++ b2). split_and!.
  - unfold luaU_dump. rewrite (bind_Ret _ _ _ _ _ H0), (bind_Ret _ _ _ _ _ H1), (bind_Ret _ _ _ _ _ H2).
    unfold get_status. by rewrite S2.
  - rewrite C2, C1, C0. cbn [d_data]. by rewrite <- !app_assoc.
  - intros chunks Hsp. destruct (init_inv _ _ Hsp) as [Hi Hr].
    { apply Forall_app; split; [|by apply Forall_app]. constructor; [done|].
      unfold header_tail. repeat (apply Forall_app; split); try apply le_bytes_byte; by repeat constructor. }
    destruct (zgetc_reads 27 _ (header_tail ++ b1 ++ b2) Hi Hr) as (z & Hz & Hzi & Hzr). exists z.
    set (fuel := S (length (z_buf z) + length (concat (z_chunks z)))).
    assert (Hfuel : (fsize f <= fuel)%nat).
    { pose proof (rest_length z) as Hl. rewrite Hzr, !length_app in Hl. subst fuel. lia. }
    destruct (Hfun fuel Hok Hfuel) as (b2' & E2' & R2 & _).
    assert (b2' = b2) as -> by (by apply (emits_unique contents (dumpFunction writer strip f None) b2' b2 w)).
    assert (R : reads (_ ← checkHeader cname; n ← loadByte cname; f ← loadFunction cname fuel None; mret (n, f))
      (header_tail ++ b1 ++ b2) (zlen (upvalues f), image strip f)).
    { eapply reads_bind; [apply header_reads|]. eapply reads_bind; [exact R1|].
      eapply reads_then; [|apply reads_ret]. unfold loaded_source in R2. by destruct strip. }
    destruct (R z [] Hzi ltac:(by rewrite app_nil_r)) as (z' & Hz' & _). by exists z'.
Qed.
End roundtrip.

(** ** Loading arbitrary bytes *)

(** With at most [n] bytes left, the code returns a value of [Q] after consuming at
    least [c] of them, or raises an error. *)
Definition sound {A} (n c : nat) (m : L A) (Q : A -> Prop) : Prop :=
  forall z, zinv z -> (length (rest z) <= n)%nat ->
    match m z with
    | Ret z' a => zinv z' /\ (length (rest z') + c <= length (rest z))%nat /\ Q a
    | Throw _ _ => True
    | Stuck => False
    end.

Lemma sound_ret {A} n (a : A) (Q : A -> Prop) : Q a -> sound n 0 (mret a) Q.
Proof. intros HQ z Hz Hn. simpl. split_and!; [done|lia|done]. Qed.

Lemma sound_bind {A B} n c1 c2 (m : L A) (f : A -> L B) Q R :
  sound n c1 m Q -> (forall a, Q a -> (c1 <= n)%nat -> sound (n - c1) c2 (f a) R) -> sound n (c1 + c2) (m ≫= f) R.
Proof.
  intros Hm Hf z Hz Hn. specialize (Hm z Hz Hn). unfold mbind, st_bind, obind.
  destruct (m z) as [z1 a|z1 msg|]; [|done|done]. destruct Hm as (Hz1 & Hl1 & HQ).
  specialize (Hf a HQ ltac:(lia) z1 Hz1 ltac:(lia)). destruct (f a z1) as [z2 b|z2 msg|]; [|done|done].
  destruct Hf as (Hz2 & Hl2 & HR). split_and!; [done|lia|done].
Qed.

Lemma sound_weaken {A} n n' c c' (m : L A) (Q R : A -> Prop) :
  (n' <= n)%nat -> (c' <= c)%nat -> (forall a, Q a -> R a) -> sound n c m Q -> sound n' c' m R.
Proof.
  intros Hn Hc HQ H z Hz Hl. specialize (H z Hz ltac:(lia)). destruct (m z); [|done|done].
  destruct H as (? & ? & ?). split_and!; [done|lia|auto].
Qed.

(** Sequencing when only the first part's consumption counts. *)
Lemma sound_seq {A B} n c (m : L A) (f : A -> L B) Q R :
  sound n c m Q -> (forall a, Q a -> sound (n - c) 0 (f a) R) -> sound n c (m ≫= f) R.
Proof. intros H1 H2. rewrite <- (Nat.add_0_r c). eapply sound_bind; [exact H1|]. auto. Qed.

Lemma sound_not_stuck {A} n c (m : L A) Q z : sound n c m Q -> zinv z -> (length (rest z) <= n)%nat -> m z <> Stuck.
Proof. intros Hs Hz Hn E. specialize (Hs z Hz Hn). by rewrite E in Hs. Qed.

Lemma sound_throw {A} n c msg (Q : A -> Prop) : sound n c (throw msg) Q.
Proof. done. Qed.

Section safety.
Context (name : string).

Lemma loadByte_sound n : sound n 1 (loadByte name) is_byte.
Proof.
  intros z Hz Hn. unfold loadByte. destruct (rest z) as [|c r] eqn:Er.
  - assert (Hg : exists z', zgetc z = Ret z' EOZ).
    { unfold zgetc. destruct Hz as [(Hp & Hzn & Hl) Hf]. unfold rest in Er. apply app_nil in Er as [Er1 Er2].
      apply (f_equal length) in Er1. rewrite length_drop in Er1. simpl in Er1.
      rewrite Z.gtb_ltb, (proj2 (Z.ltb_ge 0 (z_n z))) by lia.
      unfold luaZ_fill. simpl. destruct (z_chunks z) as [|[|x l] cs]; [by eexists|by eexists|done]. }
    destruct Hg as [z' Hg]. rewrite (bind_Ret _ _ _ _ _ Hg). done.
  - destruct (zgetc_reads c z r Hz Er) as (z' & Hg & Hz' & Hr). rewrite (bind_Ret _ _ _ _ _ Hg).
    destruct (_ =? EOZ); [done|]. simpl. rewrite Hr. split_and!; [done|lia|].
    apply (wrap_range 8); lia.
Qed.

Lemma loadBlock_sound n size : 0 <= size -> sound n 0 (loadBlock name size) (fun _ => True).
Proof.
  intros Hs z Hz Hn. unfold loadBlock. pose proof (luaZ_read_ok size z Hz Hs) as H. unfold read_post in H.
  destruct (Z.leb_spec size (zlen (rest z))) as [Hle|Hgt].
  - destruct H as (z' & H & Hz' & Hr). rewrite (bind_Ret _ _ _ _ _ H). simpl. rewrite Hr, length_drop.
    split_and!; [done|lia|done].
  - destruct H as (z' & m & b & H & Hm). rewrite (bind_Ret _ _ _ _ _ H).
    by rewrite (proj2 (Z.eqb_neq m 0)) by done.
Qed.

Lemma loadUnsigned_loop_sound n fuel x limit :
  (n < fuel)%nat -> 0 <= x -> limit <= 2 ^ 57 ->
  sound n 1 (loadUnsigned_loop name fuel x limit) (fun v => 0 <= v < limit * 128).
Proof.
  revert n x. induction fuel as [|fuel IH]; intros n x Hf Hx Hl; [lia|]. cbn [loadUnsigned_loop].
  eapply (sound_bind _ 1 0); [apply loadByte_sound|]. intros b Hb Hn. unfold is_byte in Hb. rewrite Z.geb_leb.
  destruct (Z.leb_spec limit x) as [Hge|Hlt]; [apply sound_throw|].
  assert (0 <= Z.land b 0x7f < 128) by (rewrite land_7f; apply Z.mod_pos_bound; lia).
  rewrite lor_push by lia. unfold push7. destruct (_ =? 0).
  - destruct n as [|n]; [lia|].
    eapply sound_weaken; [| | |apply (IH n)]; [lia|lia|done|lia|lia|done].
  - apply sound_ret. lia.
Qed.

Lemma loadUnsigned_sound n limit :
  0 <= limit < 2 ^ 64 -> sound n 1 (loadUnsigned name limit) (fun v => 0 <= v <= limit).
Proof.
  intros Hl z Hz Hn. unfold loadUnsigned. rewrite shiftr_7.
  pose proof (Z.div_mod limit 128 ltac:(lia)). pose proof (Z.mod_pos_bound limit 128 ltac:(lia)).
  pose proof (loadUnsigned_loop_sound (length (rest z)) (S (length (z_buf z) + length (concat (z_chunks z)))) 0 (limit / 128)
    ltac:(pose proof (rest_length z); lia) ltac:(lia) ltac:(lia) z Hz ltac:(lia)) as Hs.
  destruct (loadUnsigned_loop _ _ _ _ z) as [z' v|z' msg|]; [|done|done]. destruct Hs as (? & ? & ?).
  split_and!; [done|lia|lia|lia].
Qed.

Lemma loadInt_sound n : sound n 1 (loadInt name) (fun v => 0 <= v).
Proof.
  eapply sound_seq; [apply loadUnsigned_sound; lia|]. intros v Hv. cbn beta in Hv. apply sound_ret.
  rewrite swrap_small by (unfold in_s; lia). lia.
Qed.

Lemma loadStringN_sound n : sound n 1 (loadStringN name) (fun _ => True).
Proof.
  eapply sound_seq; [apply loadUnsigned_sound; lia|]. intros v Hv. cbn beta in Hv |- *.
  destruct (Z.eqb_spec v 0); [by apply sound_ret|].
  eapply (sound_seq _ 0); [apply loadBlock_sound; lia|]. intros b _. by apply sound_ret.
Qed.

Lemma load_each_sound {A} n (load : L A) k : sound n 0 load (fun _ => True) -> sound n 0 (load_each load k) (fun _ => True).
Proof.
  intros Hl. induction k as [|k IH]; cbn [load_each]; [by apply sound_ret|].
  eapply sound_seq; [exact Hl|]. intros x _. rewrite Nat.sub_0_r.
  eapply sound_seq; [exact IH|]. intros xs _. by apply sound_ret.
Qed.
Lemma byte_sound0 n (Q : Z -> Prop) : (forall b, is_byte b -> Q b) -> sound n 0 (loadByte name) Q.
Proof. intros H. eapply sound_weaken; [| | |apply (loadByte_sound n)]; [lia|lia|done]. Qed.

Lemma int_sound0 n : sound n 0 (loadInt name) (fun v => 0 <= v).
Proof. eapply sound_weaken; [| | |apply (loadInt_sound n)]; [lia|lia|done]. Qed.

Lemma string_sound0 n : sound n 0 (loadStringN name) (fun _ => True).
Proof. eapply sound_weaken; [| | |apply (loadStringN_sound n)]; [lia|lia|done]. Qed.

(** One step of straight-line code. *)
Ltac sound_step lem := eapply (sound_seq _ 0); [apply lem; auto|intros ? ?; rewrite ?Nat.sub_0_r].

Lemma loadCode_sound n : sound n 0 (loadCode name) (fun _ => True).
Proof.
  sound_step int_sound0. eapply (sound_seq _ 0); [apply loadBlock_sound; cbn beta in *; lia|]. intros b _.
  by apply sound_ret.
Qed.

Lemma loadConstant_sound n : sound n 0 (loadConstant name) (fun _ => True).
Proof.
  eapply (sound_seq _ 0); [apply byte_sound0 with (Q := fun _ => True); done|]. intros t _. rewrite Nat.sub_0_r.
  assert (Hblock : forall A (g : list Z -> A), sound n 0 (b ← loadBlock name 8; mret (g b)) (fun _ => True)).
  { intros A g. eapply (sound_seq _ 0); [apply loadBlock_sound; lia|]. intros b _. by apply sound_ret. }
  do 3 (destruct (_ =? _); [by apply sound_ret|]).
  destruct (t =? 19); [eapply (sound_seq _ 0); [apply Hblock|]; intros x _; by apply sound_ret|].
  destruct (t =? 3); [eapply (sound_seq _ 0); [apply Hblock|]; intros x _; by apply sound_ret|].
  destruct ((t =? 4) || (t =? 20)); [|by apply sound_ret].
  eapply (sound_seq _ 0 _ _ (fun _ => True)); [|intros x _; by apply sound_ret].
  sound_step string_sound0. destruct a; [by apply sound_ret|apply sound_throw].
Qed.

Lemma loadDebug_sound n us : sound n 0 (loadDebug name us) (fun _ => True).
Proof.
  sound_step int_sound0. sound_step loadBlock_sound. sound_step int_sound0.
  eapply (sound_seq _ 0).
  { apply load_each_sound. sound_step int_sound0. sound_step int_sound0. by apply sound_ret. }
  intros ? _. rewrite Nat.sub_0_r. sound_step int_sound0. eapply (sound_seq _ 0).
  { apply load_each_sound. sound_step string_sound0. sound_step int_sound0. sound_step int_sound0. by apply sound_ret. }
  intros ? _. rewrite Nat.sub_0_r. sound_step int_sound0. eapply (sound_seq _ 0).
  { apply load_each_sound, string_sound0. }
  intros ? _. by apply sound_ret.
Qed.

Lemma loadUpvalues_sound n : sound n 0 (loadUpvalues name) (fun _ => True).
Proof.
  sound_step int_sound0. apply load_each_sound.
  do 3 (eapply (sound_seq _ 0); [apply byte_sound0 with (Q := fun _ => True); done|]; intros ? _; rewrite Nat.sub_0_r).
  by apply sound_ret.
Qed.

Lemma loadConstants_sound n : sound n 0 (loadConstants name) (fun _ => True).
Proof. sound_step int_sound0. apply load_each_sound, loadConstant_sound. Qed.

Lemma loadFunction_sound n fuel psource :
  (n < fuel)%nat -> sound n 1 (loadFunction name fuel psource) (fun _ => True).
Proof.
  revert n psource. induction fuel as [|fuel IH]; intros n psource Hf; [lia|]. cbn [loadFunction].
  eapply (sound_bind _ 1 0); [apply loadStringN_sound|]. intros s _ Hn.
  sound_step int_sound0. sound_step int_sound0.
  do 3 (eapply (sound_seq _ 0); [apply byte_sound0 with (Q := fun _ => True); done|]; intros ? _; rewrite Nat.sub_0_r).
  sound_step loadCode_sound. sound_step loadConstants_sound. sound_step loadUpvalues_sound. sound_step int_sound0.
  eapply (sound_seq _ 0).
  { apply load_each_sound. eapply sound_weaken; [| | |apply (IH (n - 1)%nat)]; [lia|lia|done|lia]. }
  intros ps _. rewrite Nat.sub_0_r. eapply (sound_seq _ 0); [apply loadDebug_sound|].
  intros [[[lines abs] vars] us] _. by apply sound_ret.
Qed.

Lemma checkliteral_sound n s msg : zlen s <= 12 -> sound n 0 (checkliteral name s msg) (fun _ => True).
Proof.
  intros Hs. unfold checkliteral. rewrite (proj2 (Z.ltb_ge 12 (zlen s))) by done.
  eapply (sound_seq _ 0); [apply loadBlock_sound; lia|]. intros b _. case_bool_decide; [by apply sound_ret|apply sound_throw].
Qed.

Lemma checkHeader_sound n : sound n 0 (checkHeader name) (fun _ => True).
Proof.
  assert (Hsize : forall size tname, sound n 0 (fchecksize name size tname) (fun _ => True)).
  { intros. eapply (sound_seq _ 0); [apply byte_sound0 with (Q := fun _ => True); done|]. intros b _.
    destruct (_ =? _); [by apply sound_ret|apply sound_throw]. }
  assert (Hblock : forall A (g : list Z -> A), sound n 0 (b ← loadBlock name 8; mret (g b)) (fun _ => True)).
  { intros A g. eapply (sound_seq _ 0); [apply loadBlock_sound; lia|]. intros b _. by apply sound_ret. }
  unfold checkHeader.
  eapply (sound_seq _ 0); [apply checkliteral_sound; vm_compute; discriminate|]. intros _ _. rewrite Nat.sub_0_r.
  eapply (sound_seq _ 0); [apply byte_sound0 with (Q := fun _ => True); done|]. intros b _. rewrite Nat.sub_0_r.
  destruct (negb _); [apply sound_throw|].
  eapply (sound_seq _ 0); [apply byte_sound0 with (Q := fun _ => True); done|]. intros c _. rewrite Nat.sub_0_r.
  destruct (negb _); [apply sound_throw|].
  eapply (sound_seq _ 0); [apply checkliteral_sound; vm_compute; discriminate|]. intros _ _. rewrite Nat.sub_0_r.
  do 3 (eapply (sound_seq _ 0); [apply Hsize|]; intros _ _; rewrite Nat.sub_0_r).
  eapply (sound_seq _ 0); [apply Hblock|]. intros i _. rewrite Nat.sub_0_r. destruct (negb _); [apply sound_throw|].
  eapply (sound_seq _ 0); [apply Hblock|]. intros x _. destruct (negb _); [apply sound_throw|by apply sound_ret].
Qed.

End safety.

(** ** Theorems *)

(** C23: A dumped function is loaded back as it was: for every prototype whose numbers
    fit the format, every writer that keeps what it gets, stripped or not, and
    every division of the bytes into chunks by the reader.  Strings are equal to
    the dumped ones byte by byte, floats bit by bit; stripping removes the debug
    information and nothing else. *)
Theorem luaU_undump_dump (W : Type) (writer : W -> list Z -> W * Z) (contents : W -> list Z) (strip : bool)
    (name : string) (f : Proto TString) (w : W) :
  (forall w b, contents (writer w b).1 = contents w ++ b /\ (writer w b).2 = 0) ->
  proto_ok None f -> zlen (upvalues f) < 256 ->
  exists d bs, luaU_dump writer strip f w = Ret d 0 /\ contents (d_data d) = contents w ++ bs /\
    forall chunks, split_of bs chunks ->
      exists z z', zgetc (luaZ_init chunks) = Ret z 27 /\
        luaU_undump name z = Ret z' (zlen (upvalues f), image strip f).
Proof. intros Hw. by apply dump_load. Qed.

(** C24: Loading a chunk has no undefined behaviour and terminates on every input: on
    any bytes, in any chunks, it returns a function or raises an error. *)
Theorem luaU_undump_safe (name : string) (chunks : list (list Z)) :
  Forall (fun c => Forall is_byte c /\ zlen c < 2 ^ 64) chunks ->
  match zgetc (luaZ_init chunks) with
  | Ret z c =>
      c = EOZ \/ match luaU_undump name z with Stuck => False | _ => True end
  | _ => False
  end.
Proof.
  intros Hc. assert (Hi : zinv (luaZ_init chunks)).
  { split; [unfold zok; simpl; lia|]. by split; [constructor|]. }
  destruct (rest (luaZ_init chunks)) as [|c r] eqn:Er.
  { unfold zgetc. simpl. unfold rest in Er. simpl in Er. destruct chunks as [|[|x l] cs]; [by left|by left|done]. }
  destruct (zgetc_reads c _ r Hi Er) as (z & -> & Hz & _). right. unfold luaU_undump.
  set (fuel := S _). set (n := length (rest z)).
  assert (Hs : sound n 0 (_ ← checkHeader (chunk_name name); n ← loadByte (chunk_name name);
    f ← loadFunction (chunk_name name) fuel None; mret (n, f)) (fun _ => True)).
  { eapply (sound_seq _ 0); [apply checkHeader_sound|]. intros _ _. rewrite Nat.sub_0_r.
    eapply (sound_seq _ 0); [apply byte_sound0 with (Q := fun _ => True); done|]. intros b _. rewrite Nat.sub_0_r.
    eapply (sound_seq _ 0); [|intros f _; by apply sound_ret].
    eapply sound_weaken; [| | |apply (loadFunction_sound _ n)]; [lia|lia|done|].
    subst fuel n. pose proof (rest_length z). lia. }
  cbn zeta. lazymatch goal with |- match ?o with _ => _ end => destruct o eqn:E; [done|done|] end.
  by apply (sound_not_stuck _ _ _ _ z Hs Hz).
Qed.

(** One byte of a number that is not the last one. *)
Lemma loadUnsigned_step name fuel x limit c r z :
  zinv z -> rest z = c :: r -> 0 <= c < 128 -> 0 <= x < limit -> limit <= 2 ^ 57 ->
  exists z', zinv z' /\ rest z' = r /\
    loadUnsigned_loop name (S fuel) x limit z = loadUnsigned_loop name fuel (push7 x c) limit z'.
Proof.
  intros Hz Hr Hc Hx Hl. destruct (loadByte_reads name c z r Hz Hr) as (z' & Hb & Hz' & Hr'). exists z'.
  split_and!; [done|done|]. cbn [loadUnsigned_loop]. rewrite (bind_Ret _ _ _ _ _ Hb).
  rewrite Z.geb_leb, (proj2 (Z.leb_gt limit x)) by lia. destruct (land_low c Hc) as [-> ->].
  by rewrite lor_push by lia.
Qed.

(** A byte after a number that has reached the limit. *)
Lemma loadUnsigned_overflow name fuel x limit c r z :
  zinv z -> rest z = c :: r -> limit <= x ->
  exists z', loadUnsigned_loop name (S fuel) x limit z = Throw z' (name ++ ": bad binary format (integer overflow)").
Proof.
  intros Hz Hr Hx. destruct (loadByte_reads name c z r Hz Hr) as (z' & Hb & _). exists z'.
  cbn [loadUnsigned_loop]. rewrite (bind_Ret _ _ _ _ _ Hb). by rewrite Z.geb_leb, (proj2 (Z.leb_le limit x)) by lia.
Qed.

(** The reader does not accept every [int] the writer produces: the largest 128
    values, which the format can represent, are rejected as an overflow. *)
Theorem loadInt_rejects (name : string) (x : Z) (z : ZIO) (r : list Z) :
  2 ^ 31 - 128 <= x < 2 ^ 31 -> zinv z -> rest z = enc_size x ++ r ->
  exists z', loadInt name z = Throw z' (name ++ ": bad binary format (integer overflow)").
Proof.
  intros Hx Hz Hr.
  assert (Henc : enc_size x = [7; 127; 127; 127; x mod 128 + 128]).
  { unfold enc_size. rewrite digits_eq by lia. replace (x / 128) with 16777215.
    - replace (digits 128 16777215) with [127; 127; 127; 7] by (vm_compute; reflexivity). done.
    - apply (Z.div_unique _ _ _ (x - 16777215 * 128)); lia. }
  rewrite Henc in Hr. pose proof (rest_length z) as Hl. rewrite Hr in Hl. simpl in Hl, Hr.
  assert (Hn : exists n, (length (z_buf z) + length (concat (z_chunks z)))%nat = S (S (S (S n)))).
  { exists (length (z_buf z) + length (concat (z_chunks z)) - 4)%nat. lia. }
  destruct Hn as [n Hn].
  destruct (loadUnsigned_step name (S (S (S (S n)))) 0 16777215 7 _ z Hz Hr ltac:(lia) ltac:(lia) ltac:(lia))
    as (z1 & Hz1 & Hr1 & E1). change (push7 0 7) with 7 in E1.
  destruct (loadUnsigned_step name (S (S (S n))) 7 16777215 127 _ z1 Hz1 Hr1 ltac:(lia) ltac:(lia) ltac:(lia))
    as (z2 & Hz2 & Hr2 & E2). change (push7 7 127) with 1023 in E2.
  destruct (loadUnsigned_step name (S (S n)) 1023 16777215 127 _ z2 Hz2 Hr2 ltac:(lia) ltac:(lia) ltac:(lia))
    as (z3 & Hz3 & Hr3 & E3). change (push7 1023 127) with 131071 in E3.
  destruct (loadUnsigned_step name (S n) 131071 16777215 127 _ z3 Hz3 Hr3 ltac:(lia) ltac:(lia) ltac:(lia))
    as (z4 & Hz4 & Hr4 & E4). change (push7 131071 127) with 16777215 in E4.
  destruct (loadUnsigned_overflow name n 16777215 16777215 _ _ z4 Hz4 Hr4 ltac:(lia)) as (z5 & E5).
  exists z5. apply bind_Throw. unfold loadUnsigned. rewrite Hn.
  change (Z.shiftr (2 ^ 31 - 1) 7) with 16777215. by rewrite E1, E2, E3, E4.
Qed.

(** ** The theorems on an example *)

Definition str (addr : Z) (s : string) : TString := MkTString addr false 0 (bytes s).

Definition sample_inner : Proto TString :=
  MkProto (Some (str 100 "@demo.lua")) 2 3 1 0 2 [0x000000C7] [KNil] [MkUpval (Some (str 200 "x")) 1 0 0] [] [1] [] [].
Definition sample : Proto TString :=
  MkProto (Some (str 100 "@demo.lua")) 0 0 0 1 2 [0x00000051; 0x80000046]
    [KInt (-1); KFlt (d_of_Z 3); KShrStr (str 300 "print"); KTrue] [MkUpval (Some (str 400 "_ENV")) 1 0 0]
    [sample_inner] [1; -1] [(0, 1)] [MkLocVar (Some (str 200 "x")) 1 4].

Ltac check_proto :=
  constructor; cbn; unfold source_ok, int_ok, is_byte, in_u, in_s, valid, str_ok, bytes_ok;
  repeat first [ split | constructor | intros ?; discriminate | intros _; reflexivity | reflexivity | lia
               | vm_compute; (reflexivity || discriminate) ].

Lemma sample_inner_ok : proto_ok (Some (str 100 "@demo.lua")) sample_inner.
Proof. check_proto. Qed.

Lemma sample_proto_ok : proto_ok None sample.
Proof. check_proto; apply sample_inner_ok. Qed.

Definition sample_bytes : list Z :=
  match luaU_dump (fun w b => (w ++ b, 0)) false sample [] with Ret d _ => d_data d | _ => [] end.

Lemma luaU_undump_dump_witness :
  exists z z', zgetc (luaZ_init [take 20 sample_bytes; drop 20 sample_bytes]) = Ret z 27 /\
    luaU_undump "=demo" z = Ret z' (1, image false sample).
Proof.
  destruct (luaU_undump_dump (list Z) (fun w b => (w ++ b, 0)) (fun w => w) false "=demo" sample []
    ltac:(done) sample_proto_ok ltac:(vm_compute; reflexivity)) as (d & bs & Hd & Hc & H).
  apply H. assert (bs = sample_bytes) as ->.
  { unfold sample_bytes. rewrite Hd. simpl in Hc. by rewrite Hc. }
  split; [cbn [concat]; rewrite app_nil_r; apply take_drop|].
  repeat constructor; vm_compute; (discriminate || reflexivity).
Defined.

Lemma luaU_undump_safe_witness :
  match luaU_undump "=x" (MkZIO 3 [27; 76; 117; 98] 1 []) with Stuck => False | _ => True end.
Proof.
  destruct (luaU_undump_safe "=x" [[27; 76; 117; 98]]) as [H|H]; [| |exact H].
  - repeat constructor; vm_compute; (discriminate || reflexivity).
  - vm_compute in H. discriminate.
Defined.

Lemma loadInt_rejects_witness :
  exists z', loadInt "x" (luaZ_init [enc_size (2 ^ 31 - 1)]) =
             Throw z' ("x" ++ ": bad binary format (integer overflow)").
Proof.
  apply (loadInt_rejects "x" (2 ^ 31 - 1) (luaZ_init [enc_size (2 ^ 31 - 1)]) []).
  - lia.
  - split; [unfold zok; simpl; lia|]. split; [constructor|].
    replace (enc_size (2 ^ 31 - 1)) with [7; 127; 127; 127; 255] by (vm_compute; reflexivity).
    repeat constructor; vm_compute; (discriminate || reflexivity).
  - vm_compute. reflexivity.
Defined.

End DumpSpec.
