(* ===== verification/LuaTablib.v ===== *)
(** * The table library of Lua

    The functions of ltablib.c over any objects that can be indexed by integers:
    [ArrayOps] has the operations of the API they use, on a state that holds all
    objects, and [ArrayLaws] what objects without metamethods promise.  Arguments
    are those of the Lua call; popping and pushing become local values. *)

From S2P Require Import Prelude LuaValue.

Module LuaTablib.
Import LuaValue.
Open Scope string_scope.
Open Scope list_scope.
Open Scope Z_scope.

(** ** The interface *)

(** States, objects and values; [lua_geti], [lua_seti] and [luaL_len]. *)
Class ArrayOps (T Obj V : Type) := {
  lua_geti : Obj -> Z -> ST T V;
  lua_seti : Obj -> Z -> V -> ST T unit;
  luaL_len : Obj -> ST T Z;
  lua_nil : V }.

(** What the client relies on: [at_] is the value at an index, [ok] says that the
    object is well formed, [storable] that a value can be stored. *)
Class ArrayLaws (T Obj V : Type) `{EqDecision Obj} `{!ArrayOps T Obj V} := {
  ok : T -> Obj -> Prop;
  at_ : T -> Obj -> Z -> V;
  storable : V -> Prop;
  same (h h' : T) := (forall o, ok h o -> ok h' o) /\ forall o i, at_ h' o i = at_ h o i;
  at_storable h o i : ok h o -> storable (at_ h o i);
  nil_storable : storable lua_nil;
  geti_law h o i : ok h o -> in_s 64 i -> exists h', lua_geti o i h = Ret h' (at_ h o i) /\ same h h';
  seti_law h o i v : ok h o -> in_s 64 i -> storable v ->
    match lua_seti o i v h with
    | Ret h' _ =>
        (forall o', ok h o' -> ok h' o') /\
        forall o' j, at_ h' o' j = if decide (o' = o /\ j = i) then v else at_ h o' j
    | Throw h' _ => at_ h o i = lua_nil /\ v <> lua_nil /\ same h h'
    | Stuck => False
    end;
  len_law h o : ok h o ->
    exists h' n, luaL_len o h = Ret h' n /\ same h h' /\ 0 <= n <= LUA_MAXINTEGER /\
      (n = 0 \/ at_ h o n <> lua_nil) /\ (n = LUA_MAXINTEGER \/ at_ h o (n + 1) = lua_nil) }.

(** ** Checking arguments *)

Definition TAB_R : Z := 1.
Definition TAB_W : Z := 2.
Definition TAB_L : Z := 4.
Definition TAB_RW : Z := Z.lor TAB_R TAB_W.

(** An argument: a table, or another value with the metamethods [__index],
    [__newindex] and [__len], if it has a metatable. *)
Inductive tabarg :=
  | ATable
  | AOther (metatable : option (bool * bool * bool)).

Definition checktab (arg : tabarg) (what : Z) : bool :=
  match arg with
  | ATable => true
  | AOther None => false
  | AOther (Some (index, newindex, len)) =>
      ((Z.land what TAB_R =? 0) || index) && ((Z.land what TAB_W =? 0) || newindex) &&
      ((Z.land what TAB_L =? 0) || len)
  end.

Section tablib.
Context {T Obj V : Type} `{EqDecision Obj} `{!ArrayOps T Obj V}.
Abbreviation M := (ST T).

Definition aux_getn (o : Obj) (arg : tabarg) (w : Z) : M Z :=
  if checktab arg (Z.lor w TAB_L) then luaL_len o else throw "table expected".

(** ** Inserting and removing *)

(** [for (i = e; i > pos; i--) t[i] = t[i - 1]], [n] rounds. *)
Fixpoint move_up (n : nat) (o : Obj) (i : Z) : M unit :=
  match n with
  | O => mret tt
  | S n' => v ← lua_geti o (i - 1); _ ← lua_seti o i v; move_up n' o (i - 1)
  end.

(** The arguments of [tinsert] after the table; the position is what
    [luaL_checkinteger] makes of the second one. *)
Inductive insert_args :=
  | Insert2 (v : V)
  | Insert3 (pos : Z) (v : V)
  | InsertOther.

Definition tinsert (o : Obj) (arg : tabarg) (args : insert_args) : M unit :=
  e ← aux_getn o arg TAB_RW;
  let e := s64 (e + 1) in
  match args with
  | Insert2 v => lua_seti o e v
  | InsertOther => throw "wrong number of arguments to 'insert'"
  | Insert3 pos v =>
      if negb (u64 (u64 pos - 1) <? u64 e) then throw "position out of bounds"
      else
        _ ← move_up (Z.to_nat (e - pos)) o e;
        lua_seti o pos v
  end.

(** [for ( ; pos < size; pos++) t[pos] = t[pos + 1]], [n] rounds; the last
    position. *)
Fixpoint move_down (n : nat) (o : Obj) (pos : Z) : M Z :=
  match n with
  | O => mret pos
  | S n' => v ← lua_geti o (pos + 1); _ ← lua_seti o pos v; move_down n' o (pos + 1)
  end.

Definition tremove (o : Obj) (arg : tabarg) (pos : option Z) : M V :=
  size ← aux_getn o arg TAB_RW;
  let pos := default size pos in
  if negb (pos =? size) && negb (u64 (u64 pos - 1) <=? u64 size) then throw "position out of bounds"
  else
    result ← lua_geti o pos;
    pos ← move_down (Z.to_nat (size - pos)) o pos;
    _ ← lua_seti o pos lua_nil;
    mret result.

(** ** Moving and listing *)

(** The copying loops, in increasing and in decreasing order; [n] rounds. *)
Fixpoint copy_up (n : nat) (o1 o2 : Obj) (f t i : Z) : M unit :=
  match n with
  | O => mret tt
  | S n' => v ← lua_geti o1 (f + i); _ ← lua_seti o2 (t + i) v; copy_up n' o1 o2 f t (i + 1)
  end.
Fixpoint copy_down (n : nat) (o1 o2 : Obj) (f t : Z) : M unit :=
  match n with
  | O => mret tt
  | S n' =>
      let i := Z.of_nat n' in
      v ← lua_geti o1 (f + i); _ ← lua_seti o2 (t + i) v; copy_down n' o1 o2 f t
  end.

(** [tmove]: [tt] is the destination if it is given, and [eq] what [lua_compare]
    says about it and the source. *)
Definition tmove (o1 : Obj) (arg1 : tabarg) (f e t : Z) (tt : option (Obj * tabarg)) (eq : Obj -> Obj -> M bool) : M Obj :=
  let '(o2, arg2) := default (o1, arg1) tt in
  if negb (checktab arg1 TAB_R) then throw "table expected"
  else if negb (checktab arg2 TAB_W) then throw "table expected"
  else if e >=? f then
    if negb ((f >? 0) || (e <? LUA_MAXINTEGER + f)) then throw "too many elements to move"
    else
      let n := e - f + 1 in
      if negb (t <=? LUA_MAXINTEGER - n + 1) then throw "destination wrap around"
      else
        up ← (if (t >? e) || (t <=? f) then mret true
              else match tt with Some _ => b ← eq o1 o2; mret (negb b) | None => mret false end);
        _ ← (if up : bool then copy_up (Z.to_nat n) o1 o2 f t 0 else copy_down (Z.to_nat n) o1 o2 f t);
        mret o2
  else mret o2.

(** [tunpack]; [stack_ok] stands for [lua_checkstack]. *)
Fixpoint get_range (n : nat) (o : Obj) (i : Z) : M (list V) :=
  match n with
  | O => mret []
  | S n' => v ← lua_geti o i; vs ← get_range n' o (i + 1); mret (v :: vs)
  end.
Definition tunpack (stack_ok : Z -> bool) (o : Obj) (i e : option Z) : M (list V) :=
  let i := default 1 i in
  e ← match e with Some e => mret e | None => luaL_len o end;
  if i >? e then mret []
  else
    let n := u64 (u64 e - u64 i) in
    if (n >=? 2 ^ 31 - 1) || negb (stack_ok (n + 1)) then throw "too many results to unpack"
    else
      vs ← get_range (Z.to_nat (e - i)) o i;
      v ← lua_geti o e;
      mret (vs ++ [v]).

(** [tconcat]; [tostr] gives the text of strings and numbers. *)
Section concat.
Context (tostr : V -> option (list Z)).
Definition addfield (o : Obj) (b : list Z) (i : Z) : M (list Z) :=
  v ← lua_geti o i;
  match tostr v with
  | Some s => mret (b ++ s)
  | None => throw "invalid value (%s) at index %I in table for 'concat'"
  end.
Fixpoint concat_loop (n : nat) (o : Obj) (sep b : list Z) (i : Z) : M (list Z * Z) :=
  match n with
  | O => mret (b, i)
  | S n' => b ← addfield o b i; concat_loop n' o sep (b ++ sep) (i + 1)
  end.
Definition tconcat (o : Obj) (arg : tabarg) (sep : list Z) (i last : option Z) : M (list Z) :=
  n ← aux_getn o arg TAB_R;
  let i := default 1 i in
  let last := default n last in
  '(b, i) ← concat_loop (Z.to_nat (last - i)) o sep [] i;
  if i =? last then addfield o b i else mret b.
End concat.

(** ** Sorting *)

Section sort.
(** [lua_compare] with [LUA_OPLT], the comparison function given, and the calls of
    [clock] and [time]. *)
Context (lua_lessthan : V -> V -> M bool) (fn : option (V -> V -> M bool)) (clock time : M Z).

Definition RANLIMIT : Z := 100.

(** The sum of the words of the two values, [unsigned int]s. *)
Definition l_randomizePivot : M Z :=
  c ← clock;
  t ← time;
  mret (foldl (fun rnd w => u32 (rnd + w)) 0
    [u32 (u64 c); Z.shiftr (u64 c) 32; u32 (u64 t); Z.shiftr (u64 t) 32]).

(** [set2]: the values on top of the stack, the topmost first. *)
Definition set2 (o : Obj) (i j : Z) (top next : V) : M unit :=
  _ ← lua_seti o i top; lua_seti o j next.

Definition sort_comp (a b : V) : M bool :=
  match fn with None => lua_lessthan a b | Some f => f a b end.

(** The first inner loop of [partition]: the index and the value it stops at. *)
Fixpoint scan_up (fuel : nat) (o : Obj) (i up : Z) (P : V) : M (Z * V) :=
  match fuel with
  | O => fun _ => Stuck
  | S fuel' =>
      let i := u32 (i + 1) in
      a ← lua_geti o i;
      c ← sort_comp a P;
      if c : bool then
        if i =? u32 (up - 1) then throw "invalid order function for sorting" else scan_up fuel' o i up P
      else mret (i, a)
  end.

(** The second one. *)
Fixpoint scan_down (fuel : nat) (o : Obj) (i j : Z) (P : V) : M (Z * V) :=
  match fuel with
  | O => fun _ => Stuck
  | S fuel' =>
      let j := u32 (j - 1) in
      a ← lua_geti o j;
      c ← sort_comp P a;
      if c : bool then
        if j <? i then throw "invalid order function for sorting" else scan_down fuel' o i j P
      else mret (j, a)
  end.

Fixpoint partition_loop (fuel : nat) (o : Obj) (i j lo up : Z) (P : V) : M Z :=
  match fuel with
  | O => fun _ => Stuck
  | S fuel' =>
      '(i, ai) ← scan_up (Z.to_nat (up - i)) o i up P;
      '(j, aj) ← scan_down (Z.to_nat (j - lo)) o i j P;
      if j <? i then _ ← set2 o (u32 (up - 1)) i ai P; mret i
      else _ ← set2 o i j aj ai; partition_loop fuel' o i j lo up P
  end.
Definition partition (o : Obj) (lo up : Z) (P : V) : M Z :=
  partition_loop (Z.to_nat (up - lo)) o lo (u32 (up - 1)) lo up P.

Definition choosePivot (lo up rnd : Z) : Z :=
  let r4 := u32 (up - lo) / 4 in
  u32 (rnd mod u32 (r4 * 2) + u32 (lo + r4)).

(** The ordering of [a[lo]], [a[p]] and [a[up]] in [auxsort]. *)
Definition order_ends (o : Obj) (lo up : Z) : M unit :=
  alo ← lua_geti o lo;
  aup ← lua_geti o up;
  c ← sort_comp aup alo;
  if c : bool then set2 o lo up aup alo else mret tt.
Definition order_middle (o : Obj) (lo p up : Z) : M unit :=
  ap ← lua_geti o p;
  alo ← lua_geti o lo;
  c ← sort_comp ap alo;
  if c : bool then set2 o p lo alo ap
  else
    aup ← lua_geti o up;
    c ← sort_comp aup ap;
    if c : bool then set2 o p up aup ap else mret tt.

(** [auxsort]; [fuel] bounds the rounds of its loop and the depth of the
    recursion. *)
Fixpoint auxsort (fuel : nat) (o : Obj) (lo up rnd : Z) : M unit :=
  if lo <? up then
    match fuel with
    | O => fun _ => Stuck
    | S fuel' =>
        _ ← order_ends o lo up;
        if u32 (up - lo) =? 1 then mret tt
        else
          let p := if (u32 (up - lo) <? RANLIMIT) || (rnd =? 0) then u32 (lo + up) / 2
                   else choosePivot lo up rnd in
          _ ← order_middle o lo p up;
          if u32 (up - lo) =? 2 then mret tt
          else
            P ← lua_geti o p;
            q ← lua_geti o (u32 (up - 1));
            _ ← set2 o p (u32 (up - 1)) q P;
            p ← partition o lo up P;
            if u32 (p - lo) <? u32 (up - p) then
              _ ← auxsort fuel' o lo (u32 (p - 1)) rnd;
              let n := u32 (p - lo) in
              let lo := u32 (p + 1) in
              rnd ← (if u32 (up - lo) / 128 >? n then l_randomizePivot else mret rnd);
              auxsort fuel' o lo up rnd
            else
              _ ← auxsort fuel' o (u32 (p + 1)) up rnd;
              let n := u32 (up - p) in
              let up := u32 (p - 1) in
              rnd ← (if u32 (up - lo) / 128 >? n then l_randomizePivot else mret rnd);
              auxsort fuel' o lo up rnd
    end
  else mret tt.

(** [sort]; [fn] is nil or a function here, otherwise the call is an error. *)
Definition sort (o : Obj) (arg : tabarg) : M unit :=
  n ← aux_getn o arg TAB_RW;
  if n >? 1 then
    if negb (n <? 2 ^ 31 - 1) then throw "array too big"
    else auxsort (Z.to_nat n) o 1 n 0
  else mret tt.
End sort.
End tablib.

End LuaTablib.
