(* ===== verification/TablibFacts.v ===== *)
(** * Reasoning about the table library

    The content of one object as a function of the index, rearrangements of a segment by swaps, and the effect of
    reading and writing in these terms. *)

From stdpp Require Import sorting.
From S2P Require Import Prelude LuaValue LuaTablib.

Module TablibFacts.
Import LuaValue LuaTablib.
Open Scope Z_scope.

(** ** Segments *)

Definition swap {V} (A : Z -> V) (i j : Z) : Z -> V :=
  fun k => if decide (k = i) then A j else if decide (k = j) then A i else A k.
Definition upd {V} (A : Z -> V) (i : Z) (v : V) : Z -> V :=
  fun k => if decide (k = i) then v else A k.

(** [B] is [A] with elements of [lo..up] swapped. *)
Inductive rearr {V} (lo up : Z) : (Z -> V) -> (Z -> V) -> Prop :=
  | rearr_refl A B : (forall k, B k = A k) -> rearr lo up A B
  | rearr_step A B i j : lo <= i <= up -> lo <= j <= up -> rearr lo up (swap A i j) B -> rearr lo up A B.

(** The elements from [lo] to [up]. *)
Definition seg {V} (A : Z -> V) (lo up : Z) : list V := A <$> seqZ lo (up - lo + 1).

Section segments.
Context {V : Type}.
Implicit Types A B C : Z -> V.

Lemma swap_ext A B i j : (forall k, A k = B k) -> forall k, swap A i j k = swap B i j k.
Proof. intros H k. unfold swap. by repeat case_decide. Qed.

Lemma rearr_ext_l lo up A A' B : (forall k, A k = A' k) -> rearr lo up A B -> rearr lo up A' B.
Proof.
  intros H HR. revert A' H. induction HR as [A B HB|A B i j Hi Hj HR IH]; intros A' H.
  - apply rearr_refl. intros k. by rewrite HB.
  - apply (rearr_step _ _ _ _ i j); [done..|]. apply IH. by apply swap_ext.
Qed.

Lemma rearr_trans lo up A B C : rearr lo up A B -> rearr lo up B C -> rearr lo up A C.
Proof.
  intros HR HC. induction HR as [A B HB|A B i j Hi Hj HR IH].
  - by eapply rearr_ext_l.
  - apply (rearr_step _ _ _ _ i j); eauto.
Qed.

Lemma rearr_swap lo up A B i j :
  lo <= i <= up -> lo <= j <= up -> (forall k, B k = swap A i j k) -> rearr lo up A B.
Proof. intros Hi Hj HB. apply (rearr_step _ _ _ _ i j); [done..|]. by apply rearr_refl. Qed.

Lemma rearr_mono lo up lo' up' A B : lo' <= lo -> up <= up' -> rearr lo up A B -> rearr lo' up' A B.
Proof.
  intros H1 H2 HR. induction HR as [A B HB|A B i j Hi Hj HR IH]; [by apply rearr_refl|].
  apply (rearr_step _ _ _ _ i j); [lia..|done].
Qed.

(** Nothing outside moves. *)
Lemma rearr_outside lo up A B k : rearr lo up A B -> ~ lo <= k <= up -> B k = A k.
Proof.
  intros HR Hk. induction HR as [A B HB|A B i j Hi Hj HR IH]; [done|].
  rewrite IH. unfold swap. repeat case_decide; done || lia.
Qed.

(** What holds of all elements still does. *)
Lemma rearr_all lo up A B (P : V -> Prop) :
  rearr lo up A B -> (forall k, lo <= k <= up -> P (A k)) -> forall k, lo <= k <= up -> P (B k).
Proof.
  intros HR. induction HR as [A B HB|A B i j Hi Hj HR IH]; intros H k Hk; [rewrite HB; by apply H|].
  apply IH; [|done]. intros k' Hk'. unfold swap. repeat case_decide; by apply H.
Qed.

Lemma seg_lookup A lo up (i : nat) :
  Z.of_nat i <= up - lo -> seg A lo up !! i = Some (A (lo + Z.of_nat i)).
Proof. intros Hi. unfold seg. rewrite list_lookup_fmap, lookup_seqZ_lt by lia. done. Qed.

Lemma seg_length A lo up : length (seg A lo up) = Z.to_nat (up - lo + 1).
Proof. unfold seg. by rewrite length_fmap, length_seqZ. Qed.

Lemma seg_ext A B lo up : (forall k, lo <= k <= up -> A k = B k) -> seg A lo up = seg B lo up.
Proof.
  intros H. unfold seg. apply list_fmap_ext. intros i k [-> Hk]%lookup_seqZ. apply H. lia.
Qed.

Lemma seg_upd A lo up i v :
  lo <= i <= up -> seg (upd A i v) lo up = <[Z.to_nat (i - lo) := v]> (seg A lo up).
Proof.
  intros Hi. apply list_eq. intros k. destruct (decide (Z.of_nat k <= up - lo)).
  - rewrite seg_lookup by done. unfold upd. case_decide as E.
    + replace (Z.to_nat (i - lo)) with k by lia. rewrite list_lookup_insert_eq; [done|].
      rewrite seg_length. lia.
    + rewrite list_lookup_insert_ne by lia. by rewrite seg_lookup.
  - rewrite !lookup_ge_None_2; [done| |]; rewrite ?length_insert, seg_length; lia.
Qed.

Lemma seg_swap A lo up i j :
  lo <= i <= up -> lo <= j <= up -> seg (swap A i j) lo up ≡ₚ seg A lo up.
Proof.
  intros Hi Hj.
  assert (seg (swap A i j) lo up = <[Z.to_nat (i - lo) := A j]> (<[Z.to_nat (j - lo) := A i]> (seg A lo up))) as ->.
  { rewrite <-(seg_upd A lo up j) by done. rewrite <-seg_upd by done. by apply seg_ext. }
  apply Permutation_insert_swap.
  - rewrite seg_lookup by lia. f_equal. f_equal. lia.
  - rewrite seg_lookup by lia. f_equal. f_equal. lia.
Qed.

Lemma rearr_perm lo up A B : rearr lo up A B -> seg B lo up ≡ₚ seg A lo up.
Proof.
  induction 1 as [A B HB|A B i j Hi Hj HR IH]; [by rewrite (seg_ext B A)|].
  rewrite IH. by apply seg_swap.
Qed.
End segments.

(** ** The content of one object *)

Section content.
Context {T Obj V : Type} `{EqDecision Obj} `{!ArrayOps T Obj V} `{!ArrayLaws T Obj V}.
Context (o : Obj) (h0 : T).
Implicit Types (A : Z -> V) (h : T).

(** The state differs from [h0] in the content of [o] only, which is [A]. *)
Definition holds A h : Prop :=
  (forall o', ok h0 o' -> ok h o') /\
  forall o' i, at_ h o' i = if decide (o' = o) then A i else at_ h0 o' i.

Lemma holds_init : holds (at_ h0 o) h0.
Proof. split; [done|]. intros o' i. by case_decide; subst. Qed.

Lemma holds_same A h h' : holds A h -> same h h' -> holds A h'.
Proof. intros [H1 H2] [S1 S2]. split; [eauto|]. intros o' i. by rewrite S2. Qed.

Lemma holds_at A h i : holds A h -> at_ h o i = A i.
Proof. intros [_ H]. rewrite H. by case_decide. Qed.

Lemma holds_ext A B h : (forall k, A k = B k) -> holds A h -> holds B h.
Proof. intros E [H1 H2]. split; [done|]. intros o' i. by rewrite H2, E. Qed.

Context (Hok : ok h0 o).

Lemma geti_wp A h i Q E :
  holds A h -> in_s 64 i -> (forall h', holds A h' -> Q (A i) h') -> wp (lua_geti o i) Q E h.
Proof.
  intros H Hi HQ. destruct (geti_law h o i) as (h' & Eg & Hs); [by apply H|done|].
  unfold wp. rewrite Eg, (holds_at A) by done. apply HQ. by eapply holds_same.
Qed.

Lemma seti_wp A h i v (Q : unit -> T -> Prop) E :
  holds A h -> in_s 64 i -> storable v ->
  (forall h', holds (upd A i v) h' -> Q tt h') ->
  (forall h', A i = lua_nil -> v <> lua_nil -> holds A h' -> E h') ->
  wp (lua_seti o i v) Q E h.
Proof.
  intros H Hi Hv HQ HE. pose proof (seti_law h o i v ltac:(by apply H) Hi Hv) as Hl.
  unfold wp. destruct (lua_seti o i v h) as [h' []|h' msg|]; [|destruct Hl as (Hn & Hvn & Hs)|done].
  - apply HQ. destruct Hl as [H1 H2], H as [H3 H4]. split; [eauto|].
    intros o' k. rewrite H2, H4. unfold upd. destruct (decide (o' = o)), (decide (k = i)); by case_decide; intuition.
  - apply HE; [by rewrite <-(holds_at A h)|done|]. by eapply holds_same.
Qed.

(** Writing where there is a value never fails. *)
Lemma seti_present_wp A h i v (Q : unit -> T -> Prop) E :
  holds A h -> in_s 64 i -> storable v -> A i <> lua_nil ->
  (forall h', holds (upd A i v) h' -> Q tt h') -> wp (lua_seti o i v) Q E h.
Proof. intros. by eapply seti_wp. Qed.

Lemma len_wp A h (Q : Z -> T -> Prop) E :
  holds A h ->
  (forall h' n, holds A h' -> 0 <= n <= LUA_MAXINTEGER -> (n = 0 \/ A n <> lua_nil) ->
     (n = LUA_MAXINTEGER \/ A (n + 1) = lua_nil) -> Q n h') ->
  wp (luaL_len o) Q E h.
Proof.
  intros H HQ. destruct (len_law h o) as (h' & n & En & Hs & Hn & Hb1 & Hb2); [by apply H|].
  rewrite !(holds_at A) in * by done. unfold wp. rewrite En. apply HQ; try done. by eapply holds_same.
Qed.
End content.
End TablibFacts.
