(* ===== verification/TablibSort.v ===== *)
(** * Sorting

    [sort] of ltablib.c.  The comparison is described by two relations: [yes a b]
    holds when it said that [a] comes before [b], [no a b] when it said the
    opposite.  With the trivial relations this covers any comparison function,
    with those of a strict weak order it gives sortedness. *)

From S2P Require Import Prelude LuaValue LuaTablib TablibFacts.

Module TablibSort.
Import LuaValue LuaTablib TablibFacts.
Open Scope Z_scope.

(** Every element of [lo..up] stands in order before the later ones. *)
Definition ascending {V} (no : V -> V -> Prop) (A : Z -> V) (lo up : Z) : Prop :=
  forall i j, lo <= i -> i < j -> j <= up -> no (A j) (A i).

Lemma u32_small x : 0 <= x < 2 ^ 32 -> u32 x = x.
Proof. apply (wrap_small 32). Qed.

Lemma idx_in x : 0 <= x < 2 ^ 31 -> in_s 64 x.
Proof. unfold in_s. lia. Qed.

Section sort.
Context {T Obj V : Type} `{EqDecision Obj} `{!ArrayOps T Obj V} `{!ArrayLaws T Obj V}.
Context (lua_lessthan : V -> V -> ST T bool) (fn : option (V -> V -> ST T bool)) (clock time : ST T Z).
Context (o : Obj) (h0 : T) (Hok : ok h0 o).

(** The values compared, and what comparing them may do: answer, or, if [bad]
    holds, raise an error. *)
Context (D : V -> Prop) (yes no : V -> V -> Prop) (bad : Prop).
Context (HD : forall v, D v -> storable v /\ v <> lua_nil).
Abbreviation comp := (sort_comp lua_lessthan fn).
Context (Hcomp : forall a b h, D a -> D b ->
  wp (comp a b) (fun c h' => same h h' /\ if c then yes a b else no a b) (fun h' => bad /\ same h h') h).
Context (Hclock : forall h, wp clock (fun _ h' => same h h') (fun _ => False) h).
Context (Htime : forall h, wp time (fun _ h' => same h h') (fun _ => False) h).
Context (yes_no : forall a b, yes a b -> no b a).
Context (no_trans : forall a b c, no b a -> no c b -> no c a).
Context (clash : forall a b, yes a b -> no a b -> bad).

Implicit Types (A B : Z -> V) (h : T).
Abbreviation holds := (holds o h0).
Definition all_in A lo up : Prop := forall k, lo <= k <= up -> D (A k).

(** An error leaves a rearrangement of the segment. *)
Definition failed lo up A h : Prop := bad /\ exists B, rearr lo up A B /\ holds B h.

Lemma failed_now lo up A h : bad -> holds A h -> failed lo up A h.
Proof. intros Hb H. split; [done|]. exists A. split; [by apply rearr_refl|done]. Qed.

Lemma failed_after lo up lo' up' A B h :
  lo' <= lo -> up <= up' -> rearr lo' up' A B -> failed lo up B h -> failed lo' up' A h.
Proof.
  intros H1 H2 HR [Hb (C & HC & H)]. split; [done|]. exists C. split; [|done].
  eapply rearr_trans; [done|]. by eapply rearr_mono.
Qed.

Lemma comp_wp A h a b (Q : bool -> T -> Prop) (E : T -> Prop) :
  holds A h -> D a -> D b ->
  (forall h' (c : bool), holds A h' -> (if c then yes a b else no a b) -> Q c h') ->
  (forall h', bad -> holds A h' -> E h') -> wp (comp a b) Q E h.
Proof.
  intros H Ha Hb HQ HE. eapply wp_mono; [by apply Hcomp| |].
  - intros c h' [Hs Hc]. apply HQ; [|done]. by eapply holds_same.
  - intros h' [? Hs]. apply HE; [done|]. by eapply holds_same.
Qed.

(** Reading in the segment. *)
Lemma get_wp A h i (Q : V -> T -> Prop) E :
  holds A h -> 0 <= i < 2 ^ 31 -> (forall h', holds A h' -> Q (A i) h') -> wp (lua_geti o i) Q E h.
Proof. intros H Hi HQ. eapply geti_wp; [done..|by apply idx_in|done]. Qed.

(** [set2] with the values of two indices swaps them. *)
Lemma set2_wp A h i j (Q : unit -> T -> Prop) E :
  holds A h -> 0 <= i < 2 ^ 31 -> 0 <= j < 2 ^ 31 -> D (A i) -> D (A j) ->
  (forall h', holds (swap A i j) h' -> Q tt h') -> wp (set2 o i j (A j) (A i)) Q E h.
Proof.
  intros H Hi Hj Di Dj HQ. destruct (HD _ Di) as [Si Ni], (HD _ Dj) as [Sj Nj]. unfold set2.
  apply wp_bind. eapply seti_present_wp; [done..|by apply idx_in|done|done|]. intros h1 H1.
  eapply seti_present_wp; [done|exact H1|by apply idx_in|done|by unfold upd; case_decide|]. intros h2 H2.
  apply HQ. eapply holds_ext, H2. intros k. unfold upd, swap. repeat case_decide; by subst.
Qed.

(** ** The two inner loops *)

Lemma scan_up_wp A fuel i lo up P h (Q : Z * V -> T -> Prop) :
  holds A h -> 0 <= lo -> up < 2 ^ 31 -> lo <= i -> i < up - 1 -> up - 1 - i <= Z.of_nat fuel ->
  all_in A lo up -> A (up - 1) = P ->
  (forall h' i', holds A h' -> i < i' <= up - 1 -> (forall k, i < k < i' -> yes (A k) P) -> no (A i') P ->
     Q (i', A i') h') ->
  wp (scan_up lua_lessthan fn fuel o i up P) Q (failed lo up A) h.
Proof.
  intros H Hlo Hup Hi Hiu Hf HA HP HQ. revert i h H Hi Hiu Hf HQ.
  induction fuel as [|fuel IH]; intros i h H Hi Hiu Hf HQ; [lia|]. cbn [scan_up].
  rewrite !u32_small by lia. apply wp_bind. eapply get_wp; [done|lia|]. intros h1 H1.
  apply wp_bind. eapply comp_wp; [done|apply HA; lia|rewrite <-HP; apply HA; lia| |].
  2: { intros h' Hb H'. by apply failed_now. }
  intros h2 [] H2 Hc.
  - destruct (Z.eqb_spec (i + 1) (up - 1)) as [E|E].
    + apply wp_throw. apply failed_now; [|done]. rewrite E, HP in Hc. eauto.
    + apply IH; [done|lia..|]. intros h' i' H' Hi' Hall Hn. apply HQ; [done|lia| |done].
      intros k Hk. destruct (decide (k = i + 1)) as [->|]; [done|apply Hall; lia].
  - apply wp_ret, HQ; [done|lia| |done]. intros k Hk. lia.
Qed.

Lemma scan_down_wp A fuel i j lo up P h (Q : Z * V -> T -> Prop) :
  holds A h -> 0 <= lo -> up < 2 ^ 31 -> lo < i <= up -> lo < j <= up -> j - lo <= Z.of_nat fuel ->
  all_in A lo up -> D P -> (forall k, lo <= k < i -> no P (A k)) ->
  (forall h' j', holds A h' -> lo <= j' < j -> (forall k, j' < k < j -> yes P (A k)) -> no P (A j') ->
     Q (j', A j') h') ->
  wp (scan_down lua_lessthan fn fuel o i j P) Q (failed lo up A) h.
Proof.
  intros H Hlo Hup Hi Hj Hf HA HP Hle HQ. revert j h H Hj Hf HQ.
  induction fuel as [|fuel IH]; intros j h H Hj Hf HQ; [lia|]. cbn [scan_down].
  rewrite !u32_small by lia. apply wp_bind. eapply get_wp; [done|lia|]. intros h1 H1.
  apply wp_bind. eapply comp_wp; [done|done|apply HA; lia| |].
  2: { intros h' Hb H'. by apply failed_now. }
  intros h2 [] H2 Hc.
  - destruct (Z.ltb_spec (j - 1) i) as [E|E].
    + apply wp_throw. apply failed_now; [|done]. eapply clash; [done|apply Hle; lia].
    + apply IH; [done|lia..|]. intros h' j' H' Hj' Hall Hn. apply HQ; [done|lia| |done].
      intros k Hk. destruct (decide (k = j - 1)) as [->|]; [done|apply Hall; lia].
  - apply wp_ret, HQ; [done|lia| |done]. intros k Hk. lia.
Qed.

(** ** Partition *)

(** [A] is split at [p] by the pivot. *)
Definition split_at A lo p up P : Prop :=
  lo < p < up /\ A p = P /\ (forall k, lo <= k < p -> no P (A k)) /\ (forall k, p < k <= up -> no (A k) P).

Lemma partition_loop_wp fuel A i j lo up P h :
  holds A h -> 0 <= lo -> up < 2 ^ 31 -> lo <= i < up - 1 -> lo < j <= up - 1 -> j - lo <= Z.of_nat fuel ->
  all_in A lo up -> A (up - 1) = P ->
  (forall k, lo <= k <= i -> no P (A k)) -> (forall k, j <= k <= up -> k <> up - 1 -> no (A k) P) ->
  wp (partition_loop lua_lessthan fn fuel o i j lo up P)
    (fun p h' => exists B, holds B h' /\ rearr lo up A B /\ split_at B lo p up P) (failed lo up A) h.
Proof.
  revert A i j h. induction fuel as [|fuel IH]; intros A i j h H Hlo Hup Hi Hj Hf HA HP Hl Hr; [lia|].
  cbn [partition_loop]. apply wp_bind. apply scan_up_wp with (lo := lo); try done || lia.
  intros h1 i1 H1 Hi1 Hy1 Hn1. assert (D P) as DP by (rewrite <-HP; apply HA; lia).
  assert (forall k, lo <= k < i1 -> no P (A k)) as Hle.
  { intros k Hk. destruct (decide (k <= i)); [apply Hl; lia|]. apply yes_no, Hy1. lia. }
  apply wp_bind. apply scan_down_wp with (up := up) (lo := lo); try done || lia.
  intros h2 j1 H2 Hj1 Hy2 Hn2. rewrite u32_small by lia. destruct (Z.ltb_spec j1 i1) as [E|E].
  - apply wp_bind. rewrite <-HP. apply set2_wp; [done|lia..|apply HA; lia|apply HA; lia|]. rewrite HP.
    intros h3 H3. apply wp_ret. exists (swap A (up - 1) i1). split; [done|].
    split; [by apply (rearr_swap _ _ _ _ (up - 1) i1); [lia|lia|]|]. unfold split_at, swap. split_and!; try lia.
    + repeat case_decide; congruence || lia.
    + intros k Hk. rewrite !decide_False by lia. by apply Hle.
    + intros k Hk. destruct (decide (k = up - 1)); [done|]. rewrite decide_False by lia.
      destruct (decide (j <= k)); [by apply Hr; [lia|]|]. apply yes_no, Hy2. lia.
  - apply wp_bind. apply set2_wp; [done|lia..|apply HA; lia|apply HA; lia|]. intros h3 H3.
    assert (HR : rearr lo up A (swap A i1 j1)) by (by apply (rearr_swap _ _ _ _ i1 j1); [lia|lia|]).
    eapply wp_mono; [apply (IH (swap A i1 j1) i1 j1); try done || lia| |].
    + exact (rearr_all _ _ _ _ D HR HA).
    + unfold swap. rewrite !decide_False by lia. done.
    + intros k Hk. unfold swap. case_decide; [done|]. case_decide; [lia|]. apply Hle. lia.
    + intros k Hk Hne. unfold swap. case_decide as E1; [by replace j1 with i1 by lia|].
      case_decide; [done|]. destruct (decide (j <= k)); [by apply Hr; [lia|]|]. apply yes_no, Hy2. lia.
    + intros p h' (B & HB & HRB & Hs). exists B. split_and!; [done| |done]. by eapply rearr_trans.
    + intros h' Hfl. by eapply failed_after.
Qed.

(** ** The recursion *)

Definition rearranged_by (lo up : Z) A (R : (Z -> V) -> Prop) h : Prop :=
  exists B, holds B h /\ rearr lo up A B /\ R B.

Lemma rearranged_now lo up A (R : (Z -> V) -> Prop) h : holds A h -> R A -> rearranged_by lo up A R h.
Proof. intros H HR. exists A. split_and!; [done|by apply rearr_refl|done]. Qed.

Lemma rearranged_swap lo up A (R : (Z -> V) -> Prop) i j h :
  lo <= i <= up -> lo <= j <= up -> holds (swap A i j) h -> R (swap A i j) -> rearranged_by lo up A R h.
Proof. intros Hi Hj H HR. exists (swap A i j). split_and!; [done| |done]. by apply (rearr_swap _ _ _ _ i j). Qed.

Lemma order_ends_wp A lo up h :
  holds A h -> 0 <= lo -> lo < up < 2 ^ 31 -> all_in A lo up ->
  wp (order_ends lua_lessthan fn o lo up)
    (fun _ => rearranged_by lo up A (fun B => no (B up) (B lo))) (failed lo up A) h.
Proof.
  intros H Hlo Hup HA. unfold order_ends. apply wp_bind. eapply get_wp; [done|lia|]. intros h1 H1.
  apply wp_bind. eapply get_wp; [done|lia|]. intros h2 H2.
  apply wp_bind. eapply comp_wp; [done|apply HA; lia|apply HA; lia| |].
  2: { intros h' Hb H'. by apply failed_now. }
  intros h3 [] H3 Hc.
  - apply set2_wp; [done|lia..|apply HA; lia|apply HA; lia|]. intros h4 H4.
    apply (rearranged_swap _ _ _ _ lo up); [lia..|done|]. unfold swap. repeat case_decide; try lia. by apply yes_no.
  - by apply wp_ret, rearranged_now.
Qed.

Lemma order_middle_wp A lo p up h :
  holds A h -> 0 <= lo -> lo < p < up -> up < 2 ^ 31 -> all_in A lo up -> no (A up) (A lo) ->
  wp (order_middle lua_lessthan fn o lo p up)
    (fun _ => rearranged_by lo up A (fun B => no (B p) (B lo) /\ no (B up) (B p))) (failed lo up A) h.
Proof.
  intros H Hlo Hp Hup HA Hul. unfold order_middle. apply wp_bind. eapply get_wp; [done|lia|]. intros h1 H1.
  apply wp_bind. eapply get_wp; [done|lia|]. intros h2 H2.
  apply wp_bind. eapply comp_wp; [done|apply HA; lia|apply HA; lia| |].
  2: { intros h' Hb H'. by apply failed_now. }
  intros h3 [] H3 Hc.
  { apply set2_wp; [done|lia..|apply HA; lia|apply HA; lia|]. intros h4 H4.
    apply (rearranged_swap _ _ _ _ p lo); [lia..|done|]. unfold swap. repeat case_decide; try lia. eauto. }
  apply wp_bind. eapply get_wp; [done|lia|]. intros h4 H4.
  apply wp_bind. eapply comp_wp; [done|apply HA; lia|apply HA; lia| |].
  2: { intros h' Hb H'. by apply failed_now. }
  intros h5 [] H5 Hc2.
  - apply set2_wp; [done|lia..|apply HA; lia|apply HA; lia|]. intros h6 H6.
    apply (rearranged_swap _ _ _ _ p up); [lia..|done|]. unfold swap. repeat case_decide; try lia. eauto.
  - by apply wp_ret, rearranged_now.
Qed.

Lemma choosePivot_range lo up rnd :
  0 <= lo -> RANLIMIT <= up - lo -> up < 2 ^ 31 -> 0 <= rnd -> lo < choosePivot lo up rnd < up.
Proof.
  unfold RANLIMIT. intros Hlo Hd Hup Hr. unfold choosePivot. rewrite (u32_small (up - lo)) by lia.
  pose proof (Z.div_mod (up - lo) 4 ltac:(lia)). pose proof (Z.mod_pos_bound (up - lo) 4 ltac:(lia)).
  rewrite (u32_small (_ * 2)) by lia. rewrite (u32_small (lo + _)) by lia.
  pose proof (Z.mod_pos_bound rnd ((up - lo) / 4 * 2) ltac:(lia)). rewrite u32_small by lia. lia.
Qed.

Lemma l_randomizePivot_wp A h (Q : Z -> T -> Prop) E :
  holds A h -> (forall h' r, holds A h' -> 0 <= r -> Q r h') -> wp (l_randomizePivot clock time) Q E h.
Proof.
  intros H HQ. unfold l_randomizePivot. apply wp_bind. eapply wp_mono; [apply Hclock| |done].
  intros c h1 S1. apply wp_bind. eapply wp_mono; [apply Htime| |done]. intros t h2 S2.
  apply wp_ret, HQ; [by eapply holds_same, S2; eapply holds_same|]. cbn. apply (wrap_range 32). lia.
Qed.

Lemma ascending_ext A B lo up :
  (forall k, lo <= k <= up -> B k = A k) -> ascending no A lo up -> ascending no B lo up.
Proof. intros E H i j Hi Hij Hj. rewrite !E by lia. by apply H. Qed.

(** Two sorted parts around the pivot are sorted. *)
Lemma ascending_join A lo p up P :
  split_at A lo p up P -> ascending no A lo (p - 1) -> ascending no A (p + 1) up -> ascending no A lo up.
Proof.
  intros (Hp & HP & Hl & Hr) H1 H2 i j Hi Hij Hj.
  destruct (decide (j < p)); [apply H1; lia|]. destruct (decide (p < i)); [apply H2; lia|].
  destruct (decide (i = p)) as [->|]; [rewrite HP; apply Hr; lia|].
  destruct (decide (j = p)) as [->|]; [rewrite HP; apply Hl; lia|].
  apply (no_trans _ P); [apply Hl|apply Hr]; lia.
Qed.

Lemma split_rearr A B lo p up P a b :
  split_at A lo p up P -> rearr a b A B -> (a = lo /\ b = p - 1) \/ (a = p + 1 /\ b = up) ->
  split_at B lo p up P.
Proof.
  intros (Hp & HP & Hl & Hr) HR Hab. split; [done|]. split; [rewrite (rearr_outside _ _ _ _ _ HR) by lia; done|].
  destruct Hab as [[-> ->]|[-> ->]]; split.
  - intros k Hk. apply (rearr_all _ _ _ _ (no P) HR); [intros; apply Hl|]; lia.
  - intros k Hk. rewrite (rearr_outside _ _ _ _ _ HR) by lia. by apply Hr.
  - intros k Hk. rewrite (rearr_outside _ _ _ _ _ HR) by lia. by apply Hl.
  - intros k Hk. apply (rearr_all _ _ _ _ (fun v => no v P) HR); [intros; apply Hr|]; lia.
Qed.

Abbreviation sorted_by := (fun lo up A => rearranged_by lo up A (fun B => ascending no B lo up)).

(** Sorting the parts, whichever comes first, sorts the whole. *)
Lemma sorted_parts A B lo p up P a b c d h :
  split_at A lo p up P -> rearr a b A B -> ascending no B a b ->
  (a = lo /\ b = p - 1 /\ c = p + 1 /\ d = up) \/ (a = p + 1 /\ b = up /\ c = lo /\ d = p - 1) ->
  sorted_by c d B h -> sorted_by lo up A h.
Proof.
  intros Hs HR Hasc Hab (C & HC & HRC & HascC). pose proof (proj1 Hs) as Hp.
  exists C. split_and!; [done| |].
  - eapply rearr_trans; eapply rearr_mono; [| |exact HR| | |exact HRC]; lia.
  - apply (ascending_join C lo p up P).
    + eapply split_rearr; [eapply split_rearr; [done|exact HR|]|exact HRC|]; lia.
    + destruct Hab as [(-> & -> & -> & ->)|(-> & -> & -> & ->)]; [|done].
      eapply ascending_ext, Hasc. intros k Hk. apply (rearr_outside _ _ _ _ _ HRC). lia.
    + destruct Hab as [(-> & -> & -> & ->)|(-> & -> & -> & ->)]; [done|].
      eapply ascending_ext, Hasc. intros k Hk. apply (rearr_outside _ _ _ _ _ HRC). lia.
Qed.

(** The end of a round: the smaller part, then the other. *)
Lemma parts_wp fuel A p lo up P rnd h (a b c d n : Z) :
  (forall A lo up rnd h, holds A h -> 1 <= lo -> lo <= up + 1 -> up < 2 ^ 31 - 1 -> up - lo < Z.of_nat fuel ->
     all_in A lo up -> 0 <= rnd ->
     wp (auxsort lua_lessthan fn clock time fuel o lo up rnd) (fun _ => sorted_by lo up A) (failed lo up A) h) ->
  holds A h -> split_at A lo p up P -> 1 <= lo -> up < 2 ^ 31 - 1 -> up - lo <= Z.of_nat fuel ->
  all_in A lo up -> 0 <= rnd ->
  (a = lo /\ b = p - 1 /\ c = p + 1 /\ d = up) \/ (a = p + 1 /\ b = up /\ c = lo /\ d = p - 1) ->
  wp (_ ← auxsort lua_lessthan fn clock time fuel o a b rnd;
      rnd ← (if u32 (d - c) / 128 >? n then l_randomizePivot clock time else mret rnd);
      auxsort lua_lessthan fn clock time fuel o c d rnd) (fun _ => sorted_by lo up A) (failed lo up A) h.
Proof.
  intros IH H Hs Hlo Hup Hf HA Hr Hab. pose proof (proj1 Hs) as Hp.
  assert (Hsub : forall B x y, all_in B lo up -> lo <= x -> y <= up -> all_in B x y).
  { intros B x y HB Hx Hy k Hk. apply HB. lia. }
  apply wp_bind. eapply wp_mono; [apply (IH A); try done; try lia; apply Hsub; done || lia| |].
  2: { intros h'. apply failed_after; [lia..|]. by apply rearr_refl. }
  intros _ h1 (B & HB & HR & Hasc). apply wp_bind.
  assert (HR' : rearr lo up A B) by (eapply rearr_mono; [| |exact HR]; lia).
  assert (HAB : all_in B lo up) by exact (rearr_all _ _ _ _ D HR' HA).
  assert (Hgo : forall h2 r, holds B h2 -> 0 <= r ->
    wp (auxsort lua_lessthan fn clock time fuel o c d r) (fun _ => sorted_by lo up A) (failed lo up A) h2).
  { intros h2 r H2 Hr2. eapply wp_mono; [apply (IH B); try done; try lia; apply Hsub; done || lia| |].
    - intros [] h3. exact (sorted_parts A B lo p up P a b c d h3 Hs HR Hasc Hab).
    - intros h3. apply failed_after; [lia..|done]. }
  destruct (_ >? n); [|by apply wp_ret, Hgo]. eapply l_randomizePivot_wp; [done|]. apply Hgo.
Qed.

(** Moving the pivot to the end and partitioning around it. *)
Lemma pivot_wp C p lo up h (k : Z -> ST T unit) Q (E : T -> Prop) :
  holds C h -> 0 <= lo -> lo < p < up -> 2 < up - lo -> up < 2 ^ 31 - 1 -> all_in C lo up ->
  no (C p) (C lo) -> no (C up) (C p) ->
  (forall q G h', holds G h' -> rearr lo up C G -> split_at G lo q up (C p) -> wp (k q) Q E h') ->
  (forall h', failed lo up C h' -> E h') ->
  wp (P ← lua_geti o p; q ← lua_geti o (up - 1); _ ← set2 o p (up - 1) q P;
      p ← partition lua_lessthan fn o lo up P; k p) Q E h.
Proof.
  intros H Hlo Hp Hd Hup HA Hm1 Hm2 HQ HE.
  apply wp_bind. eapply get_wp; [done|lia|]. intros h3 H3.
  apply wp_bind. eapply get_wp; [done|lia|]. intros h4 H4.
  apply wp_bind. apply set2_wp; [done|lia..|apply HA; lia|apply HA; lia|]. intros h5 H5.
  assert (HR : rearr lo up C (swap C p (up - 1))) by (by apply (rearr_swap _ _ _ _ p (up - 1)); [lia|lia|]).
  apply wp_bind. unfold partition. rewrite u32_small by lia.
  eapply wp_mono; [apply (partition_loop_wp _ (swap C p (up - 1))); try done; try lia| |].
  - exact (rearr_all _ _ _ _ D HR HA).
  - unfold swap. repeat case_decide; done || lia || congruence.
  - intros i Hi. unfold swap. rewrite !decide_False by lia. by replace i with lo by lia.
  - intros i Hi Hne. unfold swap. rewrite !decide_False by lia. by replace i with up by lia.
  - intros q h6 (G & HG & HRG & Hs). eapply HQ; [done| |done]. by eapply rearr_trans.
  - intros h' Hfl. apply HE. by eapply failed_after.
Qed.

Lemma pivot_range lo up rnd :
  0 <= lo -> 1 < up - lo -> up < 2 ^ 31 - 1 -> 0 <= rnd ->
  lo < (if (up - lo <? RANLIMIT) || (rnd =? 0) then (lo + up) / 2 else choosePivot lo up rnd) < up.
Proof.
  intros Hlo Hd Hup Hr. destruct (Z.ltb_spec (up - lo) RANLIMIT); cbn [orb].
  2: destruct (rnd =? 0); [|apply choosePivot_range; lia].
  all: pose proof (Z.div_mod (lo + up) 2 ltac:(lia)).
  all: pose proof (Z.mod_pos_bound (lo + up) 2 ltac:(lia)); lia.
Qed.

Lemma auxsort_wp fuel A lo up rnd h :
  holds A h -> 1 <= lo -> lo <= up + 1 -> up < 2 ^ 31 - 1 -> up - lo < Z.of_nat fuel -> all_in A lo up -> 0 <= rnd ->
  wp (auxsort lua_lessthan fn clock time fuel o lo up rnd) (fun _ => sorted_by lo up A) (failed lo up A) h.
Proof.
  revert A lo up rnd h. induction fuel as [|fuel IH]; intros A lo up rnd h H Hlo Hup Hmax Hf HA Hr; cbn [auxsort].
  { rewrite (proj2 (Z.ltb_ge lo up)) by lia. apply wp_ret, rearranged_now; [done|]. intros i j ???. lia. }
  destruct (Z.ltb_spec lo up) as [Hlt|Hge].
  2: { apply wp_ret, rearranged_now; [done|]. intros i j ???. lia. }
  rewrite (u32_small (up - lo)), (u32_small (up - 1)), (u32_small (lo + up)) by lia.
  apply wp_bind. eapply wp_mono; [apply (order_ends_wp A); done || lia| |done].
  intros _ h1 (B & HB & HRB & Hends). pose proof (rearr_all _ _ _ _ D HRB HA) as HAB.
  destruct (Z.eqb_spec (up - lo) 1) as [E1|E1].
  { apply wp_ret. exists B. split_and!; [done..|]. intros i j ???.
    replace i with lo by lia. by replace j with up by lia. }
  pose proof (pivot_range lo up rnd ltac:(lia) ltac:(lia) ltac:(lia) ltac:(lia)) as Hp. revert Hp.
  match goal with |- context [order_middle _ _ _ _ ?e _] => generalize e; intros p Hp end.
  apply wp_bind. eapply wp_mono; [apply (order_middle_wp B); done || lia| |].
  2: { intros h'. by apply failed_after. }
  intros _ h2 (C & HC & HRC & Hm1 & Hm2). pose proof (rearr_all _ _ _ _ D HRC HAB) as HAC.
  pose proof (rearr_trans _ _ _ _ _ HRB HRC) as HRAC.
  destruct (Z.eqb_spec (up - lo) 2) as [E2|E2].
  { apply wp_ret. exists C. split_and!; [done..|]. intros i j ???.
    destruct (decide (i = p)) as [->|]; [by replace j with up by lia|]. replace i with lo by lia.
    destruct (decide (j = p)) as [->|]; [done|]. replace j with up by lia. by apply (no_trans _ (C p)). }
  apply (pivot_wp C); try done; try lia; [|intros h'; by apply failed_after].
  intros q G h6 HG HRG Hs. pose proof (proj1 Hs) as Hq. pose proof (rearr_trans _ _ _ _ _ HRAC HRG) as HRAG.
  rewrite !(u32_small (q - _)), !(u32_small (up - q)), !(u32_small (q + 1)) by lia.
  destruct (q - lo <? up - q).
  all: eapply wp_mono; [eapply (parts_wp fuel G q lo up); try done; try lia| |].
  all: try exact (rearr_all _ _ _ _ D HRAG HA).
  all: try (intros h'; by apply failed_after).
  all: intros _ h' (K & HK & HRK & Hasc); exists K; split_and!; [done|by eapply rearr_trans|done].
Qed.
End sort.
End TablibSort.
