(* ===== verification/TablibSafe.v ===== *)
(** * Sorting with a comparison that does anything

    The comparison function is Lua code: it may raise errors, be inconsistent and
    change the table while it is sorted.  Whatever it does, the loops of [sort]
    stay between the bounds they were given and end. *)

From S2P Require Import Prelude LuaValue LuaTablib TablibFacts TablibSort.

Module TablibSafe.
Import LuaValue LuaTablib TablibFacts TablibSort.
Open Scope Z_scope.

Section safe.
Context {T Obj V : Type} `{EqDecision Obj} `{!ArrayOps T Obj V} `{!ArrayLaws T Obj V}.
Context (lua_lessthan : V -> V -> ST T bool) (fn : option (V -> V -> ST T bool)) (clock time : ST T Z).
Context (o : Obj).
Implicit Types (h : T).
Abbreviation fine := (fun h => ok h o).
Abbreviation comp := (sort_comp lua_lessthan fn).
Context (Hcomp : forall a b h, ok h o -> wp (comp a b) (fun _ => fine) fine h).
Context (Hclock : forall h, ok h o -> wp clock (fun _ => fine) fine h).
Context (Htime : forall h, ok h o -> wp time (fun _ => fine) fine h).

Lemma get_safe h i (Q : V -> T -> Prop) E :
  ok h o -> 0 <= i < 2 ^ 31 -> (forall v h', ok h' o -> storable v -> Q v h') -> wp (lua_geti o i) Q E h.
Proof.
  intros H Hi HQ. destruct (geti_law h o i H ltac:(by apply idx_in)) as (h' & E' & [Hs _]).
  unfold wp. rewrite E'. apply HQ; [by apply Hs|]. by apply at_storable.
Qed.

Lemma set_safe h i v (Q : unit -> T -> Prop) :
  ok h o -> 0 <= i < 2 ^ 31 -> storable v -> (forall h', ok h' o -> Q tt h') -> wp (lua_seti o i v) Q fine h.
Proof.
  intros H Hi Hv HQ. pose proof (seti_law h o i v H ltac:(by apply idx_in) Hv) as Hl. unfold wp.
  destruct (lua_seti o i v h) as [h' []|h' msg|]; [apply HQ; by apply Hl| |done].
  destruct Hl as (_ & _ & Hs & _). by apply Hs.
Qed.

Lemma set2_safe h i j v w (Q : unit -> T -> Prop) :
  ok h o -> 0 <= i < 2 ^ 31 -> 0 <= j < 2 ^ 31 -> storable v -> storable w ->
  (forall h', ok h' o -> Q tt h') -> wp (set2 o i j v w) Q fine h.
Proof.
  intros H Hi Hj Hv Hw HQ. unfold set2. apply wp_bind, set_safe; [done..|]. intros h' H'. by apply set_safe.
Qed.

Lemma comp_safe h a b (Q : bool -> T -> Prop) :
  ok h o -> (forall c h', ok h' o -> Q c h') -> wp (comp a b) Q fine h.
Proof. intros H HQ. eapply wp_mono; [by apply Hcomp|eauto|done]. Qed.

Lemma scan_up_safe fuel i up P h (Q : Z * V -> T -> Prop) :
  ok h o -> 0 <= i -> up < 2 ^ 31 -> i < up - 1 -> up - 1 - i <= Z.of_nat fuel ->
  (forall h' i' v, ok h' o -> storable v -> i < i' <= up - 1 -> Q (i', v) h') ->
  wp (scan_up lua_lessthan fn fuel o i up P) Q fine h.
Proof.
  revert i h. induction fuel as [|fuel IH]; intros i h H Hi Hup Hiu Hf HQ; [lia|]. cbn [scan_up].
  rewrite !u32_small by lia. apply wp_bind, get_safe; [done|lia|]. intros v h1 H1 Hv.
  apply wp_bind, comp_safe; [done|]. intros [] h2 H2; [|apply wp_ret, HQ; done || lia].
  destruct (Z.eqb_spec (i + 1) (up - 1)); [by apply wp_throw|]. apply IH; [done|lia..|].
  intros h' i' w H' Hw Hi'. apply HQ; done || lia.
Qed.

Lemma scan_down_safe fuel i j lo P h (Q : Z * V -> T -> Prop) :
  ok h o -> 0 <= lo -> lo < i -> lo < j < 2 ^ 31 -> j - lo <= Z.of_nat fuel ->
  (forall h' j' v, ok h' o -> storable v -> lo <= j' < j -> Q (j', v) h') ->
  wp (scan_down lua_lessthan fn fuel o i j P) Q fine h.
Proof.
  revert j h. induction fuel as [|fuel IH]; intros j h H Hlo Hi Hj Hf HQ; [lia|]. cbn [scan_down].
  rewrite !u32_small by lia. apply wp_bind, get_safe; [done|lia|]. intros v h1 H1 Hv.
  apply wp_bind, comp_safe; [done|]. intros [] h2 H2; [|apply wp_ret, HQ; done || lia].
  destruct (Z.ltb_spec (j - 1) i); [by apply wp_throw|]. apply IH; [done|lia..|].
  intros h' j' w H' Hw Hj'. apply HQ; done || lia.
Qed.

Lemma partition_loop_safe fuel i j lo up P h (Q : Z -> T -> Prop) :
  ok h o -> 0 <= lo -> up < 2 ^ 31 -> lo <= i < up - 1 -> lo < j <= up - 1 -> j - lo <= Z.of_nat fuel ->
  storable P -> (forall h' p, ok h' o -> lo < p < up -> Q p h') ->
  wp (partition_loop lua_lessthan fn fuel o i j lo up P) Q fine h.
Proof.
  revert i j h. induction fuel as [|fuel IH]; intros i j h H Hlo Hup Hi Hj Hf HP HQ; [lia|].
  cbn [partition_loop]. apply wp_bind, scan_up_safe; [done|lia..|]. intros h1 i1 ai H1 Hai Hi1.
  apply wp_bind. apply scan_down_safe with (lo := lo); [done|lia..|]. intros h2 j1 aj H2 Haj Hj1.
  rewrite u32_small by lia. destruct (Z.ltb_spec j1 i1).
  - apply wp_bind, set2_safe; try done || lia. intros h3 H3. apply wp_ret, HQ; done || lia.
  - apply wp_bind, set2_safe; try done || lia. intros h3 H3. apply IH; done || lia.
Qed.

Lemma order_ends_safe lo up h :
  ok h o -> 0 <= lo -> lo < up < 2 ^ 31 -> wp (order_ends lua_lessthan fn o lo up) (fun _ => fine) fine h.
Proof.
  intros H Hlo Hup. unfold order_ends. apply wp_bind, get_safe; [done|lia|]. intros v h1 H1 Hv.
  apply wp_bind, get_safe; [done|lia|]. intros w h2 H2 Hw.
  apply wp_bind, comp_safe; [done|]. intros [] h3 H3; [|done]. by apply set2_safe; try lia.
Qed.

Lemma order_middle_safe lo p up h :
  ok h o -> 0 <= lo -> lo < p < up -> up < 2 ^ 31 ->
  wp (order_middle lua_lessthan fn o lo p up) (fun _ => fine) fine h.
Proof.
  intros H Hlo Hp Hup. unfold order_middle. apply wp_bind, get_safe; [done|lia|]. intros v h1 H1 Hv.
  apply wp_bind, get_safe; [done|lia|]. intros w h2 H2 Hw.
  apply wp_bind, comp_safe; [done|]. intros [] h3 H3; [by apply set2_safe; try lia|].
  apply wp_bind, get_safe; [done|lia|]. intros x h4 H4 Hx.
  apply wp_bind, comp_safe; [done|]. intros [] h5 H5; [|done]. by apply set2_safe; try lia.
Qed.

Lemma randomize_safe h (Q : Z -> T -> Prop) :
  ok h o -> (forall r h', ok h' o -> 0 <= r -> Q r h') -> wp (l_randomizePivot clock time) Q fine h.
Proof.
  intros H HQ. unfold l_randomizePivot. apply wp_bind. eapply wp_mono; [by apply Hclock| |done].
  intros c h1 H1. apply wp_bind. eapply wp_mono; [by apply Htime| |done]. intros t h2 H2.
  apply wp_ret, HQ; [done|]. cbn. apply (wrap_range 32). lia.
Qed.

Lemma auxsort_safe fuel lo up rnd h :
  ok h o -> 1 <= lo -> lo <= up + 1 -> up < 2 ^ 31 - 1 -> up - lo < Z.of_nat fuel -> 0 <= rnd ->
  wp (auxsort lua_lessthan fn clock time fuel o lo up rnd) (fun _ => fine) fine h.
Proof.
  revert lo up rnd h. induction fuel as [|fuel IH]; intros lo up rnd h H Hlo Hup Hmax Hf Hr; cbn [auxsort].
  { by rewrite (proj2 (Z.ltb_ge lo up)) by lia. }
  destruct (Z.ltb_spec lo up) as [Hlt|Hge]; [|done].
  rewrite (u32_small (up - lo)), (u32_small (up - 1)), (u32_small (lo + up)) by lia.
  apply wp_bind. eapply wp_mono; [apply order_ends_safe; done || lia| |done]. intros [] h1 H1.
  destruct (Z.eqb_spec (up - lo) 1); [done|].
  pose proof (pivot_range lo up rnd ltac:(lia) ltac:(lia) ltac:(lia) ltac:(lia)) as Hp. revert Hp.
  match goal with |- context [order_middle _ _ _ _ ?e _] => generalize e; intros p Hp end.
  apply wp_bind. eapply wp_mono; [apply order_middle_safe; done || lia| |done]. intros [] h2 H2.
  destruct (Z.eqb_spec (up - lo) 2); [done|].
  apply wp_bind, get_safe; [done|lia|]. intros P h3 H3 HP. apply wp_bind, get_safe; [done|lia|]. intros v h4 H4 Hv.
  apply wp_bind, set2_safe; try done || lia. intros h5 H5.
  apply wp_bind. unfold partition. rewrite u32_small by lia. apply partition_loop_safe; try done || lia.
  intros h6 q H6 Hq. rewrite !(u32_small (q - _)), !(u32_small (up - q)), !(u32_small (q + 1)) by lia.
  destruct (q - lo <? up - q).
  all: apply wp_bind; (eapply wp_mono; [apply IH; done || lia| |done]); intros [] h7 H7; apply wp_bind.
  all: destruct (_ >? _); [apply randomize_safe; [done|]; intros r h8 H8 Hr8|apply wp_ret]; apply IH; done || lia.
Qed.
End safe.
End TablibSafe.
