(* ===== verification/TablibOps.v ===== *)
(** * The loops of the table library

    What [move_up], [move_down], [copy_up], [copy_down], [get_range] and
    [concat_loop] of [LuaTablib] do to the content of an object. *)

From S2P Require Import Prelude LuaValue LuaTablib TablibFacts.

Module TablibOps.
Import LuaValue LuaTablib TablibFacts.
Open Scope Z_scope.

(** The content with [n] elements up to [i] moved up, and from [i] moved down. *)
Definition shift_up {V} (A : Z -> V) (i n : Z) : Z -> V :=
  fun k => if decide (i - n < k <= i) then A (k - 1) else A k.
Definition shift_down {V} (A : Z -> V) (i n : Z) : Z -> V :=
  fun k => if decide (i <= k < i + n) then A (k + 1) else A k.

(** The content [A] with [t..t+n-1] taken from [S] at [f]. *)
Definition pasted {V} (S A : Z -> V) (f t m n : Z) : Z -> V :=
  fun k => if decide (t + m <= k < t + n) then S (f + (k - t)) else A k.

(** The strings of a list with a separator between them. *)
Fixpoint join (sep : list Z) (ss : list (list Z)) : list Z :=
  match ss with
  | [] => []
  | [s] => s
  | s :: ss' => s ++ sep ++ join sep ss'
  end.

Lemma join_cons sep s s' ss : join sep (s :: s' :: ss) = s ++ sep ++ join sep (s' :: ss).
Proof. done. Qed.

Lemma join_snoc sep ss s : join sep (ss ++ [s]) = concat ((fun s => s ++ sep) <$> ss) ++ s.
Proof.
  induction ss as [|s1 ss IH]; [done|]. cbn [app]. destruct (ss ++ [s]) as [|s2 l] eqn:E; [by destruct ss|].
  rewrite join_cons, IH. cbn. by rewrite <-!app_assoc.
Qed.

Lemma mapM_snoc {A B} (f : A -> option B) l x :
  mapM f (l ++ [x]) = (ys ← mapM f l; y ← f x; Some (ys ++ [y])).
Proof.
  induction l as [|a l IH]; cbn; [by destruct (f x)|]. destruct (f a); cbn; [|done]. rewrite IH.
  destruct (mapM f l); cbn; [|done]. by destruct (f x).
Qed.

Lemma seg_snoc {V} (A : Z -> V) lo up : lo <= up -> seg A lo up = seg A lo (up - 1) ++ [A up].
Proof.
  intros H. unfold seg. replace (up - lo + 1) with ((up - 1 - lo + 1) + 1) by lia. rewrite seqZ_app by lia.
  rewrite fmap_app. f_equal. replace (lo + (up - 1 - lo + 1)) with up by lia. done.
Qed.

Lemma seg_cons {V} (A : Z -> V) lo up : lo <= up -> seg A lo up = A lo :: seg A (lo + 1) up.
Proof.
  intros H. unfold seg. rewrite seqZ_cons by lia. cbn. f_equal. f_equal. f_equal; lia.
Qed.
Lemma seg_nil {V} (A : Z -> V) lo up : up < lo -> seg A lo up = [].
Proof. intros H. unfold seg. by rewrite seqZ_nil by lia. Qed.

Section one.
Context {T Obj V : Type} `{EqDecision Obj} `{!ArrayOps T Obj V} `{!ArrayLaws T Obj V}.
Context (o : Obj) (h0 : T) (Hok : ok h0 o).
Implicit Types (A B : Z -> V) (h : T) (E : T -> Prop).
Abbreviation holds := (holds o h0).

(** Values of the object. *)
Definition values A : Prop := forall k, storable (A k).

Lemma values_holds A h : holds A h -> values A.
Proof. intros H k. rewrite <-(holds_at o h0 A h k) by done. apply at_storable. by apply H. Qed.

Lemma move_up_wp n A i h (Q : unit -> T -> Prop) E :
  holds A h -> in_s 64 i -> in_s 64 (i - Z.of_nat n) -> (forall k, i - Z.of_nat n < k <= i -> A k <> lua_nil) ->
  (forall h', holds (shift_up A i (Z.of_nat n)) h' -> Q tt h') -> wp (move_up n o i) Q E h.
Proof.
  revert A i h. induction n as [|n IH]; intros A i h H Hi Hin HA HQ; cbn [move_up].
  - apply wp_ret, HQ. eapply holds_ext, H. intros k. unfold shift_up. rewrite decide_False by lia. done.
  - unfold in_s in *. apply wp_bind. eapply geti_wp; [done|done|unfold in_s; lia|]. intros h1 H1.
    apply wp_bind. eapply seti_present_wp; [done|done|done|by eapply values_holds|apply HA; lia|]. intros h2 H2.
    apply (IH (upd A i (A (i - 1)))); [done|lia..| |].
    + intros k Hk. unfold upd. rewrite decide_False by lia. apply HA. lia.
    + intros h3 H3. apply HQ. eapply holds_ext, H3. intros k. unfold shift_up, upd.
      repeat case_decide; done || lia || (f_equal; lia).
Qed.

Lemma move_down_wp n A i h (Q : Z -> T -> Prop) E :
  holds A h -> in_s 64 i -> in_s 64 (i + Z.of_nat n) ->
  (forall k, i <= k < i + Z.of_nat n -> A k <> lua_nil) ->
  (forall h', holds (shift_down A i (Z.of_nat n)) h' -> Q (i + Z.of_nat n) h') -> wp (move_down n o i) Q E h.
Proof.
  revert A i h. induction n as [|n IH]; intros A i h H Hi Hin HA HQ; cbn [move_down].
  - apply wp_ret. rewrite Z.add_0_r in HQ. apply HQ. eapply holds_ext, H. intros k. unfold shift_down.
    rewrite decide_False by lia. done.
  - unfold in_s in *. apply wp_bind. eapply geti_wp; [done|done|unfold in_s; lia|]. intros h1 H1.
    apply wp_bind. eapply seti_present_wp; [done|done|done|by eapply values_holds|apply HA; lia|]. intros h2 H2.
    apply (IH (upd A i (A (i + 1)))); [done|lia..| |].
    + intros k Hk. unfold upd. rewrite decide_False by lia. apply HA. lia.
    + intros h3 H3. replace (i + 1 + Z.of_nat n) with (i + Z.of_nat (S n)) by lia. apply HQ.
      eapply holds_ext, H3. intros k. unfold shift_down, upd. repeat case_decide; done || lia || (f_equal; lia).
Qed.

Lemma get_range_wp n A i h (Q : list V -> T -> Prop) E :
  holds A h -> in_s 64 i -> in_s 64 (i + Z.of_nat n) ->
  (forall h', holds A h' -> Q (seg A i (i + Z.of_nat n - 1)) h') -> wp (get_range n o i) Q E h.
Proof.
  revert i h Q. induction n as [|n IH]; intros i h Q H Hi Hin HQ; cbn [get_range].
  - apply wp_ret. rewrite seg_nil in HQ by lia. by apply HQ.
  - unfold in_s in *. apply wp_bind. eapply geti_wp; [done|done|done|]. intros h1 H1.
    apply wp_bind. apply IH; [done|lia..|]. intros h2 H2. apply wp_ret.
    rewrite (seg_cons A i) in HQ by lia. replace (i + 1 + Z.of_nat n - 1) with (i + Z.of_nat (S n) - 1) by lia.
    by apply HQ.
Qed.

(** ** Copying from another object, or the same one *)

Context (o1 : Obj) (Hok1 : ok h0 o1).
Abbreviation S0 := (at_ h0 o1).
Abbreviation A0 := (at_ h0 o).

Lemma read_wp A h i (Q : V -> T -> Prop) E :
  holds A h -> in_s 64 i -> (o1 = o -> A i = A0 i) -> (forall h', holds A h' -> Q (S0 i) h') ->
  wp (lua_geti o1 i) Q E h.
Proof.
  intros H Hi Hread HQ. destruct (geti_law h o1 i) as (h' & Eg & Hs); [by apply H|done|].
  unfold wp. rewrite Eg. replace (at_ h o1 i) with (S0 i); [apply HQ; by eapply holds_same|].
  rewrite (proj2 H). case_decide; [|done]. subst. by rewrite Hread.
Qed.

(** An error leaves everything outside the destination. *)
Definition torn f t n h : Prop := exists B, holds B h /\ forall k, B k = A0 k \/ (t <= k < t + n /\ B k = S0 (f + (k - t))).

Lemma torn_now f t a b n h : 0 <= a -> b <= n -> holds (pasted S0 A0 f t a b) h -> torn f t n h.
Proof.
  intros Ha Hb H. eexists. split; [done|]. intros k. unfold pasted. case_decide; [right|by left]. split; [lia|done].
Qed.

Lemma copy_up_wp m f t n i h (Q : unit -> T -> Prop) :
  holds (pasted S0 A0 f t 0 i) h -> in_s 64 f -> in_s 64 t -> in_s 64 (f + n - 1) -> in_s 64 (t + n - 1) ->
  0 <= i -> i + Z.of_nat m = n -> (o1 = o -> t <= f \/ f + n <= t) ->
  (forall h', holds (pasted S0 A0 f t 0 n) h' -> Q tt h') ->
  wp (copy_up m o1 o f t i) Q (torn f t n) h.
Proof.
  intros H Hf Ht Hfn Htn Hi Hm Hov HQ. unfold in_s in *. revert i h H Hi Hm.
  induction m as [|m IH]; intros i h H Hi Hm; cbn [copy_up].
  - apply wp_ret, HQ. replace n with i by lia. done.
  - apply wp_bind. eapply read_wp; [done|unfold in_s; lia| |].
    { intros Eo. unfold pasted. rewrite decide_False; [done|]. specialize (Hov Eo). lia. }
    intros h1 H1. apply wp_bind. eapply seti_wp; [done|done|unfold in_s; lia|by apply at_storable| |].
    + intros h2 H2. apply IH; [|lia..]. eapply holds_ext, H2. intros k. unfold upd, pasted.
      repeat case_decide; try done; lia || (f_equal; lia).
    + intros h2 _ _ H2. eapply torn_now, H2; lia.
Qed.

Lemma copy_down_wp m f t n h (Q : unit -> T -> Prop) :
  holds (pasted S0 A0 f t (Z.of_nat m) n) h ->
  in_s 64 f -> in_s 64 t -> in_s 64 (f + n - 1) -> in_s 64 (t + n - 1) ->
  Z.of_nat m <= n -> (o1 = o -> f < t) ->
  (forall h', holds (pasted S0 A0 f t 0 n) h' -> Q tt h') ->
  wp (copy_down m o1 o f t) Q (torn f t n) h.
Proof.
  intros H Hf Ht Hfn Htn Hm Hov HQ. unfold in_s in *. revert h H Hm.
  induction m as [|m IH]; intros h H Hm; cbn [copy_down].
  - by apply wp_ret, HQ.
  - apply wp_bind. eapply read_wp; [done|unfold in_s; lia| |].
    { intros Eo. unfold pasted. rewrite decide_False; [done|]. specialize (Hov Eo). lia. }
    intros h1 H1. apply wp_bind. eapply seti_wp; [done|done|unfold in_s; lia|by apply at_storable| |].
    + intros h2 H2. apply IH; [|lia]. eapply holds_ext, H2. intros k. unfold upd, pasted.
      repeat case_decide; try done; lia || (f_equal; lia).
    + intros h2 _ _ H2. eapply torn_now, H2; lia.
Qed.
End one.

(** ** Concatenation *)

Section concat.
Context {T Obj V : Type} `{EqDecision Obj} `{!ArrayOps T Obj V} `{!ArrayLaws T Obj V}.
Context (o : Obj) (h0 : T) (Hok : ok h0 o) (tostr : V -> option (list Z)).
Implicit Types (A : Z -> V) (h : T).
Abbreviation holds := (holds o h0).

Lemma addfield_wp A b i h (Q : list Z -> T -> Prop) (E : T -> Prop) :
  holds A h -> in_s 64 i ->
  (forall s h', holds A h' -> tostr (A i) = Some s -> Q (b ++ s) h') ->
  (forall h', holds A h' -> tostr (A i) = None -> E h') -> wp (addfield tostr o b i) Q E h.
Proof.
  intros H Hi HQ HE. unfold addfield. apply wp_bind. eapply geti_wp; [done|done|done|]. intros h1 H1.
  destruct (tostr (A i)) eqn:Es; [by apply wp_ret, HQ|by apply wp_throw, HE].
Qed.

Lemma concat_loop_wp n A sep b i h (Q : list Z * Z -> T -> Prop) (E : T -> Prop) :
  holds A h -> in_s 64 i -> in_s 64 (i + Z.of_nat n) ->
  (forall ss h', holds A h' -> mapM tostr (seg A i (i + Z.of_nat n - 1)) = Some ss ->
     Q (b ++ concat ((fun s => s ++ sep) <$> ss), i + Z.of_nat n) h') ->
  (forall h', holds A h' -> mapM tostr (seg A i (i + Z.of_nat n - 1)) = None -> E h') ->
  wp (concat_loop tostr n o sep b i) Q E h.
Proof.
  revert b i h Q. induction n as [|n IH]; intros b i h Q H Hi Hin HQ HE; cbn [concat_loop].
  - apply wp_ret. rewrite seg_nil in HQ by lia. specialize (HQ [] h H eq_refl).
    cbn in HQ. by rewrite app_nil_r, Z.add_0_r in HQ.
  - unfold in_s in *. rewrite (seg_cons A i) in HQ, HE by lia. apply wp_bind. eapply addfield_wp; [done|done| |].
    + intros s h1 H1 Es. replace (i + Z.of_nat (S n)) with (i + 1 + Z.of_nat n) in * by lia.
      cbn [mapM] in HQ, HE. rewrite Es in HQ, HE. cbn [mbind option_bind] in HQ, HE.
      apply IH; [done|lia..| |].
      * intros ss h2 H2 Ess. rewrite Ess in HQ. specialize (HQ (s :: ss) h2 H2 eq_refl).
        cbn in HQ. rewrite <-!app_assoc in HQ. by rewrite <-!app_assoc.
      * intros h2 H2 Ess. apply HE; [done|]. by rewrite Ess.
    + intros h1 H1 Es. apply HE; [done|]. cbn [mapM]. by rewrite Es.
Qed.
End concat.
End TablibOps.
