(* ===== verification/LuaApi.v ===== *)
(** * Tables through the API

    [lua_geti], [lua_seti] and [luaL_len] on tables without a metatable (lapi.c,
    lauxlib.c, with [luaV_fastgeti], [luaV_finishget], [luaV_finishset] and
    [luaV_objlen] of lvm.h and lvm.c on that path).  The state is the list of all
    tables, an object is a place in it.  They satisfy the interface of the table
    library. *)

From S2P Require Import Prelude CFloat LuaValue LuaNumber LuaObject LuaTable TableInv TableInsert TableCount TableResize TableLen LuaTablib.

Module LuaApi.
Import LuaValue LuaTable TableInv TableResize TableLen LuaTablib.
Open Scope string_scope.
Open Scope Z_scope.

Section api.
Context (seed : Z) (strs : Z -> list Z) (alloc_node alloc_array : Z -> bool).

Abbreviation Heap := (list Table).

(** Run an operation on table [o] of the heap. *)
Definition on_table {A} (o : nat) (f : Table -> outcome Table A) : ST Heap A := fun h =>
  match h !! o with
  | Some t =>
      match f t with
      | Ret t' a => Ret (<[o := t']> h) a
      | Throw t' msg => Throw (<[o := t']> h) msg
      | Stuck => Stuck
      end
  | None => Stuck
  end.

Definition luaV_fastgeti (t : Table) (k : Z) : option (Table * slot) :=
  if u64 (u64 k - 1) <? t_alimit t then Some (t, SArray (k - 1)) else luaH_getint t k.

Definition table_geti (n : Z) (t : Table) : outcome Table TValue :=
  match '(t, s) ← luaV_fastgeti t n; v ← slot_val t s; Some (t, v) with
  | Some (t, v) => if negb (isempty v) then Ret t v else Ret t VNil
  | None => Stuck
  end.

Definition table_seti (n : Z) (v : TValue) (t : Table) : outcome Table unit :=
  match '(t, s) ← luaV_fastgeti t n; w ← slot_val t s; Some (t, s, w) with
  | Some (t, s, w) =>
      if negb (isempty w) then set_slot t s v
      else luaH_finishset alloc_node alloc_array t (VInt n) s v
  | None => Stuck
  end.

Definition table_len (t : Table) : outcome Table Z :=
  match luaH_getn t with Some (t, n) => Ret t (s64 n) | None => Stuck end.

#[export] Instance api_ops : ArrayOps Heap nat TValue := {
  lua_geti o n := on_table o (table_geti n);
  lua_seti o n v := on_table o (table_seti n v);
  luaL_len o := on_table o table_len;
  lua_nil := VNil }.

(** ** The laws *)

Definition heap_ok (h : Heap) (o : nat) : Prop := exists t, h !! o = Some t /\ table_ok seed strs t.
Definition int_at (t : Table) (i : Z) : TValue := default VNil (content t (AInt i)).
Definition heap_at (h : Heap) (o : nat) (i : Z) : TValue :=
  match h !! o with Some t => int_at t i | None => VNil end.
Definition plain (v : TValue) : Prop := v <> VEmpty /\ v <> VAbstKey.

Lemma fastgeti_getint t k : luaV_fastgeti t k = luaH_getint t k.
Proof. unfold luaV_fastgeti, luaH_getint. by destruct (_ <? _). Qed.

Lemma present_full w v : present w = Some v -> isempty v = false.
Proof. unfold present. destruct (isempty w) eqn:E; naive_solver. Qed.

Lemma content_full t a v : content t a = Some v -> isempty v = false.
Proof.
  unfold content, abs, abs_array, abs_hash. destruct (in_array _ _).
  - destruct a; try done. destruct (array_get _ _); [|done]. apply present_full.
  - destruct (list_find _ _) as [[? n]|]; [|done]. apply present_full.
Qed.

Lemma int_at_plain t i : plain (int_at t i).
Proof. unfold int_at. destruct (content t _) as [v|] eqn:E; [|done]. apply content_full in E. by destruct v. Qed.

Lemma int_at_nil t i : int_at t i = VNil <-> content t (AInt i) = None.
Proof.
  unfold int_at. destruct (content t (AInt i)) as [v|] eqn:E; [|done]. apply content_full in E.
  split; [|done]. cbn. intros ->. done.
Qed.

Lemma int_at_present t i w : present w = content t (AInt i) -> int_at t i = if isempty w then VNil else w.
Proof. unfold int_at, present. intros <-. by destruct (isempty w). Qed.

(** The slot of an integer key. *)
Lemma fastgeti_ok t k :
  table_ok seed strs t -> in_s 64 k ->
  exists t' s w, luaV_fastgeti t k = Some (t', s) /\ slot_val t' s = Some w /\
    present w = content t (AInt k) /\ (w = VAbstKey <-> s = SAbsent) /\
    slot_for (zlen (t_array t')) t' (AInt k) s /\
    table_ok seed strs t' /\ forall a, content t' a = content t a.
Proof.
  intros Ht Hk. destruct (getint_ok _ _ _ t k Ht Hk) as (t' & s & Eg & Hsame & Hsl).
  destruct (same_but_limit_inv _ _ _ _ _ Hsame Ht) as [Ht' Hc].
  assert (Harr : t_array t' = t_array t) by (by destruct Hsame as (x & -> & _)).
  destruct (slot_for_val _ _ _ _ _ _ Ht' Hsl) as (w & Ew & Hv & Hab). rewrite fastgeti_getint.
  exists t', s, w. unfold table_ok, content. rewrite Harr. split_and!; try done. by rewrite Hv, Hc.
Qed.

Lemma table_geti_ok t k :
  table_ok seed strs t -> in_s 64 k ->
  exists t', table_geti k t = Ret t' (int_at t k) /\ table_ok seed strs t' /\ forall a, content t' a = content t a.
Proof.
  intros Ht Hk. destruct (fastgeti_ok t k Ht Hk) as (t' & s & w & Ef & Ew & Hw & _ & _ & Ht' & Hc).
  unfold table_geti. rewrite Ef. cbn [mbind option_bind]. rewrite Ew. cbn [mbind option_bind].
  exists t'. rewrite (int_at_present t k w) by done. by destruct (isempty w).
Qed.

Lemma table_seti_ok t k v :
  (forall n, alloc_array n = true -> n <= 2 ^ 29) -> table_ok seed strs t -> in_s 64 k -> plain v ->
  match table_seti k v t with
  | Ret t' _ => table_ok seed strs t' /\ forall i, int_at t' i = if decide (i = k) then v else int_at t i
  | Throw t' _ => int_at t k = VNil /\ v <> VNil /\ table_ok seed strs t' /\ forall i, int_at t' i = int_at t i
  | Stuck => False
  end.
Proof.
  intros Halloc Ht Hk [Hv1 Hv2]. destruct (fastgeti_ok t k Ht Hk) as (t1 & s & w & Ef & Ew & Hw & Hab & Hsl & Ht1 & Hc).
  assert (Hset : table_seti k v t = luaH_finishset alloc_node alloc_array t1 (VInt k) s v).
  { unfold table_seti. rewrite Ef. cbn [mbind option_bind]. rewrite Ew. cbn [mbind option_bind].
    unfold luaH_finishset, finishset. rewrite Ew. cbn [lift]. by destruct w. }
  assert (Hupd : assigned seed strs alloc_node alloc_array t1 (AInt k) v (luaH_finishset alloc_node alloc_array t1 (VInt k) s v)).
  { unfold luaH_finishset, finishset. rewrite Ew. cbn [lift]. destruct (decide (s = SAbsent)) as [->|Hne].
    - rewrite (proj2 Hab) by done. cbn [isabstkey]. destruct Hsl as [Hin Hno]. by apply newkey_ok.
    - assert (isabstkey w = false) as -> by (destruct w; try done; by destruct Hne; apply Hab).
      destruct (set_slot_ok _ _ _ t1 (AInt k) s v Ht1 Hsl Hne Hv2) as (t' & -> & Hup). by eapply updated_ok. }
  assert (Hnil : v = VNil -> forall t' e, luaH_finishset alloc_node alloc_array t1 (VInt k) s v <> Throw t' e).
  { intros -> t' e. unfold luaH_finishset, finishset. rewrite Ew. cbn [lift]. destruct (isabstkey w); [done|].
    unfold set_slot. destruct s; [destruct (array_set _ _ _)|destruct (_ !! _)|]; done. }
  rewrite Hset. destruct (luaH_finishset _ _ _ _ _ _) as [t' []|t' e|]; [| |done]; cbn in Hupd.
  - split; [apply Hupd|]. intros i. unfold int_at. rewrite (proj2 Hupd).
    destruct (decide (i = k)) as [->|Hne]; [rewrite decide_True by done|by rewrite decide_False, Hc by congruence].
    unfold present. by destruct v.
  - destruct Hupd as (Ht' & Hc' & Hn & _). split_and!; [apply int_at_nil; by rewrite <-Hc| |done|].
    + intros Ev. by eapply Hnil.
    + intros i. unfold int_at. by rewrite Hc', Hc.
Qed.

Lemma table_len_ok t :
  table_ok seed strs t ->
  exists t' n, table_len t = Ret t' n /\ table_ok seed strs t' /\ (forall i, int_at t' i = int_at t i) /\
    0 <= n <= LUA_MAXINTEGER /\ (n = 0 \/ int_at t n <> VNil) /\ (n = LUA_MAXINTEGER \/ int_at t (n + 1) = VNil).
Proof.
  intros Ht. destruct (getn_ok seed strs t Ht) as (t' & n & En & (Hn & Hb1 & Hb2) & Ht' & Hc).
  exists t', n. unfold table_len. rewrite En. unfold LUA_MAXINTEGER, there in *.
  rewrite swrap_small by (unfold in_s; lia). rewrite !int_at_nil.
  split_and!; try done; [intros i; unfold int_at; by rewrite Hc|lia..|].
  destruct Hb2 as [|Hb2]; [by left|right]. by destruct (content t (AInt (n + 1))); [destruct Hb2|].
Qed.

(** ** Tables of the heap *)

Lemma heap_ok_insert h o t t' o' :
  h !! o = Some t -> table_ok seed strs t' -> heap_ok h o' -> heap_ok (<[o := t']> h) o'.
Proof.
  intros Eo Ht (t1 & E1 & H1). pose proof (lookup_lt_Some _ _ _ Eo).
  destruct (decide (o' = o)) as [->|]; [exists t'; by rewrite list_lookup_insert_eq|].
  exists t1. by rewrite list_lookup_insert_ne.
Qed.

Lemma heap_at_insert h o t t' o' i :
  h !! o = Some t -> heap_at (<[o := t']> h) o' i = if decide (o' = o) then int_at t' i else heap_at h o' i.
Proof.
  intros Eo. pose proof (lookup_lt_Some _ _ _ Eo). unfold heap_at. case_decide as E.
  - subst. by rewrite list_lookup_insert_eq.
  - by rewrite list_lookup_insert_ne.
Qed.

(** Replacing a table by one with the same content. *)
Lemma heap_same h o t t' :
  h !! o = Some t -> table_ok seed strs t' -> (forall i, int_at t' i = int_at t i) ->
  (forall o', heap_ok h o' -> heap_ok (<[o := t']> h) o') /\
  forall o' i, heap_at (<[o := t']> h) o' i = heap_at h o' i.
Proof.
  intros Eo Ht' Hc. split; [intros o'; by eapply heap_ok_insert|]. intros o' i.
  rewrite (heap_at_insert _ _ t) by done. case_decide; [|done]. subst. unfold heap_at. rewrite Eo. apply Hc.
Qed.

Context (Halloc : forall n, alloc_array n = true -> n <= 2 ^ 29).

#[export] Program Instance api_laws : ArrayLaws Heap nat TValue := {
  ok := heap_ok; at_ := heap_at; storable := plain }.
Next Obligation. intros h o i (t & Et & _). unfold heap_at. rewrite Et. apply int_at_plain. Qed.
Next Obligation. done. Qed.
Next Obligation.
  intros h o i (t & Et & Ht) Hi. destruct (table_geti_ok t i Ht Hi) as (t' & Eg & Ht' & Hc).
  exists (<[o := t']> h). cbn. unfold on_table. rewrite Et, Eg. split; [unfold heap_at; by rewrite Et|].
  apply (heap_same _ _ t); [done..|]. intros j. unfold int_at. by rewrite Hc.
Qed.
Next Obligation.
  intros h o i v (t & Et & Ht) Hi Hv. pose proof (table_seti_ok t i v Halloc Ht Hi Hv) as Hs.
  cbn. unfold on_table. rewrite Et. destruct (table_seti i v t) as [t' []|t' e|]; [| |done].
  - split; [intros o'; by eapply heap_ok_insert, Hs|]. intros o' j. rewrite (heap_at_insert _ _ t) by done.
    destruct (decide (o' = o)) as [->|]; [|by rewrite decide_False by (by intros [? ?])]. rewrite (proj2 Hs).
    destruct (decide (j = i)); [by rewrite decide_True by done|]. rewrite decide_False by (by intros [? ?]).
    unfold heap_at. by rewrite Et.
  - destruct Hs as (Hn & Hvn & Ht' & Hc). split; [unfold heap_at; by rewrite Et|]. split; [done|].
    by apply (heap_same _ _ t).
Qed.
Next Obligation.
  intros h o (t & Et & Ht). destruct (table_len_ok t Ht) as (t' & n & En & Ht' & Hc & Hn & Hb1 & Hb2).
  exists (<[o := t']> h), n. cbn. unfold on_table. rewrite Et, En. split; [done|].
  split; [by apply (heap_same _ _ t)|]. unfold heap_at. by rewrite Et.
Qed.
End api.
End LuaApi.
