(* ===== verification/TablibSpec.v ===== *)
(** * The table library

    The theorems on [table.sort], [insert], [remove], [move], [unpack] and
    [concat], for any objects with the laws of [LuaTablib.ArrayLaws], and their
    use on Lua tables ([LuaApi]). *)

From S2P Require Import Prelude CFloat LuaValue LuaTable TableInv TableResize TableSpec LuaTablib TablibFacts TablibSort TablibSafe TablibOps LuaApi.

Module TablibSpec.
Import LuaValue LuaTable TableSpec LuaTablib TablibFacts TablibSort TablibOps.
Open Scope string_scope.
Open Scope list_scope.
Open Scope Z_scope.

Section spec.
Context {T Obj V : Type} `{EqDecision Obj} `{!ArrayOps T Obj V} `{!ArrayLaws T Obj V}.
Implicit Types (o : Obj) (h : T) (v : V).

(** Nothing but the elements [lo..up] of [o] has changed. *)
Definition only_changes o lo up h h' : Prop :=
  (forall o', ok h o' -> ok h' o') /\
  forall o' i, ~ (o' = o /\ lo <= i <= up) -> at_ h' o' i = at_ h o' i.

(** A sequence of length [n]: what [luaL_len] says, with no nil in it. *)
Definition sequence o n h : Prop :=
  (exists h1, luaL_len o h = Ret h1 n) /\ forall i, 1 <= i <= n -> at_ h o i <> lua_nil.

Lemma len_is o h h1 n (Q : Z -> T -> Prop) E :
  ok h o -> luaL_len o h = Ret h1 n ->
  (forall h', holds o h (at_ h o) h' -> 0 <= n <= LUA_MAXINTEGER -> Q n h') -> wp (luaL_len o) Q E h.
Proof.
  intros Hok En HQ. destruct (len_law h o Hok) as (h' & m & Em & Hs & Hm & _). rewrite En in Em.
  injection Em as <- <-. unfold wp. rewrite En. apply HQ; [|done]. eapply holds_same; [apply holds_init|done].
Qed.

Lemma aux_getn_wp o arg w h h1 n (Q : Z -> T -> Prop) E :
  ok h o -> checktab arg (Z.lor w TAB_L) = true -> luaL_len o h = Ret h1 n ->
  (forall h', holds o h (at_ h o) h' -> 0 <= n <= LUA_MAXINTEGER -> Q n h') -> wp (aux_getn o arg w) Q E h.
Proof. intros Hok Ha En HQ. unfold aux_getn. rewrite Ha. by eapply len_is. Qed.

Lemma rearr_only o lo up h h' B :
  holds o h B h' -> rearr lo up (at_ h o) B -> only_changes o lo up h h'.
Proof.
  intros [H1 H2] HR. split; [done|]. intros o' i Hi. rewrite H2. case_decide; [|done]. subst.
  apply (rearr_outside _ _ _ _ _ HR). by intros Hk; apply Hi.
Qed.

Lemma holds_seg o lo up h B h' : holds o h B h' -> seg (at_ h' o) lo up = seg B lo up.
Proof. intros H. apply seg_ext. intros k _. by eapply holds_at. Qed.

Section sorting.
Context (lua_lessthan : V -> V -> ST T bool) (fn : option (V -> V -> ST T bool)) (clock time : ST T Z).
Abbreviation comp := (sort_comp lua_lessthan fn).
Abbreviation sort := (sort lua_lessthan fn clock time).

(** C22: [table.sort] with a comparison that is a strict weak order on the values of
    the sequence ends, without an error, and the elements 1 to n are then a
    permutation of what they were in which no element is less than an earlier
    one.  Nothing else changes. *)
Theorem sort_correct (D : V -> Prop) (lt : V -> V -> bool) o arg n h
    (HD : forall v, D v -> storable v)
    (Hcomp : forall a b h, D a -> D b -> exists h', comp a b h = Ret h' (lt a b) /\ same h h')
    (Hirr : forall a, D a -> lt a a = false)
    (Htrans : forall a b c, D a -> D b -> D c -> lt a b = true -> lt b c = true -> lt a c = true)
    (Hweak : forall a b c, D a -> D b -> D c -> lt a b = false -> lt b c = false -> lt a c = false)
    (Hclock : forall h, exists h' c, clock h = Ret h' c /\ same h h')
    (Htime : forall h, exists h' c, time h = Ret h' c /\ same h h')
    (Hok : ok h o) (Harg : checktab arg (Z.lor TAB_RW TAB_L) = true) (Hn : sequence o n h)
    (Hbig : n < 2 ^ 31 - 1) (Hall : forall i, 1 <= i <= n -> D (at_ h o i)) :
  exists h', sort o arg h = Ret h' tt /\ only_changes o 1 n h h' /\
    seg (at_ h' o) 1 n ≡ₚ seg (at_ h o) 1 n /\
    forall i j, 1 <= i -> i < j -> j <= n -> lt (at_ h' o j) (at_ h' o i) = false.
Proof.
  destruct Hn as [[h1 En] Hnn].
  set (P := fun v => D v /\ v <> lua_nil).
  set (no := fun a b => P a /\ P b /\ lt a b = false). set (yes := fun a b => P a /\ P b /\ lt a b = true).
  assert (Hno : forall a b, yes a b -> no b a).
  { intros a b (Ha & Hb & E). split_and!; try done. destruct (lt b a) eqn:E'; [|done].
    by rewrite <-(Hirr a), (Htrans a b a) by first [apply Ha|apply Hb|done]. }
  assert (Hsort : wp (sort o arg) (fun _ h' => rearranged_by o h 1 n (at_ h o) (fun B => ascending no B 1 n) h') (fun _ => False) h).
  { unfold LuaTablib.sort. apply wp_bind. eapply aux_getn_wp; [done|done|done|]. intros h2 H2 Hn0.
    destruct (Z.gtb_spec n 1).
    2: { apply wp_ret, rearranged_now; [done|]. intros i j ???. lia. }
    rewrite (proj2 (Z.ltb_lt n _)) by lia. cbn [negb].
    eapply wp_mono; [eapply (auxsort_wp lua_lessthan fn clock time o h Hok P yes no False)| |].
    - intros v [Hv Hvn]. by split; [apply HD|].
    - intros a b h3 Ha Hb. destruct (Hcomp a b h3 (proj1 Ha) (proj1 Hb)) as (h4 & E & Hs). unfold wp. rewrite E.
      split; [done|]. by destruct (lt a b) eqn:El.
    - intros h3. destruct (Hclock h3) as (h4 & c & E & Hs). unfold wp. by rewrite E.
    - intros h3. destruct (Htime h3) as (h4 & c & E & Hs). unfold wp. by rewrite E.
    - done.
    - intros a b c (Hb & Ha & E1) (Hc & _ & E2). split_and!; try done. by apply (Hweak c b a); first [apply Ha|apply Hb|apply Hc|done].
    - intros a b (_ & _ & E1) (_ & _ & E2). congruence.
    - exact H2.
    - lia.
    - lia.
    - done.
    - lia.
    - intros k Hk. split; [by apply Hall|by apply Hnn].
    - lia.
    - done.
    - intros h3 [[] _]. }
  apply wp_Ret in Hsort as (h' & [] & E & B & HB & HR & Hasc). exists h'.
  split_and!; [done|by eapply rearr_only| |].
  - rewrite (holds_seg _ _ _ _ _ _ HB). by apply rearr_perm.
  - intros i j Hi Hij Hj. rewrite !(holds_at _ _ _ _ _ HB). by apply Hasc.
Qed.

(** C25: with any comparison that leaves the objects alone, however inconsistent, and
    even if it raises errors, [table.sort] on a sequence ends, normally or with an
    error, and the elements are a permutation of what they were. *)
Theorem sort_permutes o arg n h
    (Hcomp : forall a b h, match comp a b h with Ret h' _ | Throw h' _ => same h h' | Stuck => False end)
    (Hclock : forall h, exists h' c, clock h = Ret h' c /\ same h h')
    (Htime : forall h, exists h' c, time h = Ret h' c /\ same h h')
    (Hok : ok h o) (Harg : checktab arg (Z.lor TAB_RW TAB_L) = true) (Hn : sequence o n h) :
  match sort o arg h with
  | Ret h' _ | Throw h' _ => only_changes o 1 n h h' /\ seg (at_ h' o) 1 n ≡ₚ seg (at_ h o) 1 n
  | Stuck => False
  end.
Proof.
  destruct Hn as [[h1 En] Hnn]. set (yes := fun _ _ : V => True).
  set (R := fun h' => rearranged_by o h 1 n (at_ h o) (fun _ => True) h').
  assert (Hsort : wp (sort o arg) (fun _ => R) R h).
  { unfold LuaTablib.sort. apply wp_bind. eapply aux_getn_wp; [done|done|done|]. intros h2 H2 Hn0.
    destruct (Z.gtb_spec n 1); [|by apply wp_ret, rearranged_now].
    destruct (Z.ltb_spec n (2 ^ 31 - 1)); cbn [negb]; [|by apply wp_throw, rearranged_now].
    eapply wp_mono; [eapply (auxsort_wp lua_lessthan fn clock time o h Hok
      (fun v => storable v /\ v <> lua_nil) yes yes True)| |].
    - done.
    - intros a b h3 _ _. specialize (Hcomp a b h3). unfold wp. destruct (comp a b h3) as [? []|?|]; done.
    - intros h3. destruct (Hclock h3) as (h4 & c & E & Hs). unfold wp. by rewrite E.
    - intros h3. destruct (Htime h3) as (h4 & c & E & Hs). unfold wp. by rewrite E.
    - done.
    - done.
    - done.
    - exact H2.
    - lia.
    - lia.
    - done.
    - lia.
    - intros k Hk. split; [by apply at_storable|by apply Hnn].
    - lia.
    - intros _ h3 (B & HB & HR & _). by exists B.
    - intros h3 [_ (B & HR & HB)]. by exists B. }
  assert (HR : forall h', R h' -> only_changes o 1 n h h' /\ seg (at_ h' o) 1 n ≡ₚ seg (at_ h o) 1 n).
  { intros h' (B & HB & HR & _). split; [by eapply rearr_only|].
    rewrite (holds_seg _ _ _ _ _ _ HB). by apply rearr_perm. }
  unfold wp in Hsort. destruct (sort o arg h) as [h' []|h' e|]; [by apply HR|by apply HR|done].
Qed.

(** C26: whatever the comparison does, also if it changes the table being sorted
    (which must stay a table), [table.sort] ends, normally or with an error: its
    loops never run away. *)
Theorem sort_terminates o arg h
    (Hcomp : forall a b h, ok h o -> match comp a b h with Ret h' _ | Throw h' _ => ok h' o | Stuck => False end)
    (Hclock : forall h, ok h o -> exists h' c, clock h = Ret h' c /\ ok h' o)
    (Htime : forall h, ok h o -> exists h' c, time h = Ret h' c /\ ok h' o) (Hok : ok h o) :
  match sort o arg h with Ret h' _ | Throw h' _ => ok h' o | Stuck => False end.
Proof.
  assert (Hsort : wp (sort o arg) (fun _ h' => ok h' o) (fun h' => ok h' o) h); [|exact Hsort].
  unfold LuaTablib.sort, aux_getn. destruct (checktab _ _); [|by apply wp_bind, wp_throw].
  destruct (len_law h o Hok) as (h1 & n & En & [Hs _] & Hn & _).
  apply wp_bind. unfold wp at 1. rewrite En. apply Hs in Hok.
  destruct (Z.gtb_spec n 1); [|done]. destruct (Z.ltb_spec n (2 ^ 31 - 1)); [cbn [negb]|done].
  apply TablibSafe.auxsort_safe; try done; try lia.
  - intros h2 H2. destruct (Hclock h2 H2) as (h3 & c & E & H3). unfold wp. by rewrite E.
  - intros h2 H2. destruct (Htime h2 H2) as (h3 & c & E & H3). unfold wp. by rewrite E.
Qed.
End sorting.

(** ** Inserting and removing *)

(** The position tests. *)
Lemma insert_test pos n :
  in_s 64 pos -> 0 <= n < LUA_MAXINTEGER -> (u64 (u64 pos - 1) <? u64 (n + 1)) = (1 <=? pos) && (pos <=? n + 1).
Proof.
  unfold in_s, LUA_MAXINTEGER. change (2 ^ (64 - 1)) with (2 ^ 63). intros Hp Hn.
  rewrite wrap_sub_l, (wrap_small 64 (n + 1)) by (unfold in_u; lia). unfold wrap.
  destruct (decide (1 <= pos)); [rewrite Z.mod_small by lia; lia|].
  rewrite <-(Z.mod_unique (pos - 1) (2 ^ 64) (-1) (pos - 1 + 2 ^ 64)); lia.
Qed.

Definition inserted (A : Z -> V) (n pos : Z) v : Z -> V :=
  fun i => if decide (i = pos) then v else if decide (pos < i <= n + 1) then A (i - 1) else A i.
Definition removed (A : Z -> V) (n pos : Z) : Z -> V :=
  fun i => if decide (i = n) then lua_nil else if decide (pos <= i < n) then A (i + 1) else A i.

(** The content of [o] is now [B], everything else is as in [h]. *)
Definition becomes o (B : Z -> V) h h' : Prop :=
  (forall o', ok h o' -> ok h' o') /\
  forall o' i, at_ h' o' i = if decide (o' = o) then B i else at_ h o' i.

(** [table.insert] at a position of a sequence of length n, or after its end,
    moves the elements from there on up by one and stores the value; without a
    position it stores it at the end.  It can fail for lack of memory, with
    nothing changed.  A position outside 1 to n+1 is an error. *)
Theorem tinsert_correct o arg pos v n h
    (Hok : ok h o) (Harg : checktab arg (Z.lor TAB_RW TAB_L) = true) (Hn : sequence o n h)
    (Hmax : n < LUA_MAXINTEGER) (Hpos : in_s 64 pos) (Hv : storable v) :
  tinsert o arg (Insert2 v) h = tinsert o arg (Insert3 (n + 1) v) h /\
  match tinsert o arg (Insert3 pos v) h with
  | Ret h' _ => 1 <= pos <= n + 1 /\ becomes o (inserted (at_ h o) n pos v) h h'
  | Throw h' e => same h h' /\ (~ 1 <= pos <= n + 1 -> e = "position out of bounds")
  | Stuck => False
  end.
Proof.
  destruct Hn as [[h1 En] Hnn]. destruct (len_law h o Hok) as (h1' & n' & En' & Hs & Hn0 & _).
  rewrite En in En'. injection En' as <- <-.
  assert (H1 : holds o h (at_ h o) h1) by (eapply holds_same; [apply holds_init|done]).
  assert (He : s64 (n + 1) = n + 1) by (apply swrap_small; unfold in_s, LUA_MAXINTEGER in *; lia).
  unfold tinsert, aux_getn. rewrite Harg, !(bind_Ret _ _ _ _ _ En), He, !insert_test by done || (unfold in_s, LUA_MAXINTEGER in *; lia).
  split.
  { rewrite (proj2 (Z.leb_le 1 (n + 1))), (proj2 (Z.leb_le (n + 1) (n + 1))) by lia. cbn [andb negb].
    by rewrite Z.sub_diag. }
  destruct (Z.leb_spec 1 pos), (Z.leb_spec pos (n + 1)); cbn [andb negb]; [|by split..].
  assert (Hin : forall k, pos <= k <= n + 1 -> in_s 64 k) by (unfold in_s, LUA_MAXINTEGER in *; lia).
  enough (wp (_ ← move_up (Z.to_nat (n + 1 - pos)) o (n + 1); lua_seti o pos v)
    (fun _ h' => holds o h (inserted (at_ h o) n pos v) h') (fun h' => holds o h (at_ h o) h') h1) as Hwp.
  { unfold wp in Hwp. destruct ((move_up _ o _ ≫= _) h1) as [h' []|h' e|]; [by split| |done].
    split; [|lia]. split; [apply Hwp|]. intros o' i. rewrite (proj2 Hwp). by case_decide; subst. }
  apply wp_bind. destruct (Z.to_nat (n + 1 - pos)) as [|m] eqn:Em; cbn [move_up].
  - apply wp_ret. eapply seti_wp; [done|done|apply Hin; lia|done| |done]. intros h' H'.
    eapply holds_ext, H'. intros k. unfold upd, inserted. repeat case_decide; done || lia.
  - apply wp_bind. eapply geti_wp; [done|done|apply Hin; lia|]. intros h2 H2. replace (n + 1 - 1) with n by lia.
    apply wp_bind. eapply seti_wp; [done|done|apply Hin; lia|by apply at_storable| |done]. intros h3 H3.
    eapply move_up_wp; [done|exact H3|apply Hin; lia|apply Hin; lia| |].
    { intros k Hk. unfold upd. rewrite decide_False by lia. apply Hnn. lia. }
    intros h4 H4. eapply seti_present_wp; [done|exact H4|done|done| |].
    { unfold shift_up, upd. repeat case_decide; try lia. apply Hnn. lia. }
    intros h5 H5. eapply holds_ext, H5. intros k. unfold inserted, upd, shift_up.
    repeat case_decide; done || lia || (f_equal; lia).
Qed.

(** [table.remove] at a position 1 to n of a sequence of length n returns the
    element, moves the later ones down by one and clears the last place; it
    cannot fail.  Without a position it removes the last element.  A position
    that is neither n nor from 1 to n+1 is an error. *)
Theorem tremove_correct o arg pos n h
    (Hok : ok h o) (Harg : checktab arg (Z.lor TAB_RW TAB_L) = true) (Hn : sequence o n h) (Hpos : in_s 64 pos) :
  tremove o arg None h = tremove o arg (Some n) h /\
  (1 <= pos <= n ->
   exists h', tremove o arg (Some pos) h = Ret h' (at_ h o pos) /\ becomes o (removed (at_ h o) n pos) h h') /\
  (pos <> n -> n < LUA_MAXINTEGER -> ~ 1 <= pos <= n + 1 ->
   exists h', tremove o arg (Some pos) h = Throw h' "position out of bounds" /\ same h h').
Proof.
  destruct Hn as [[h1 En] Hnn]. destruct (len_law h o Hok) as (h1' & n' & En' & Hs & Hn0 & _).
  rewrite En in En'. injection En' as <- <-.
  assert (H1 : holds o h (at_ h o) h1) by (eapply holds_same; [apply holds_init|done]).
  unfold tremove, aux_getn. rewrite Harg, !(bind_Ret _ _ _ _ _ En). cbn [default from_option id].
  split; [done|]. split.
  - intros Hp. assert (Hin : forall k, pos <= k <= n -> in_s 64 k) by (unfold in_s, LUA_MAXINTEGER in *; lia).
    assert (negb (pos =? n) && negb (u64 (u64 pos - 1) <=? u64 n) = false) as ->.
    { unfold LUA_MAXINTEGER in *. rewrite !(wrap_small 64) by (unfold in_u; rewrite ?(wrap_small 64) by (unfold in_u; lia); lia). lia. }
    enough (wp (result ← lua_geti o pos; p ← move_down (Z.to_nat (n - pos)) o pos; _ ← lua_seti o p lua_nil; mret result)
      (fun r h' => r = at_ h o pos /\ holds o h (removed (at_ h o) n pos) h') (fun _ => False) h1) as Hwp.
    { apply wp_Ret in Hwp as (h' & r & -> & -> & Hh). by exists h'. }
    apply wp_bind. eapply geti_wp; [done|done|done|]. intros h2 H2.
    apply wp_bind. eapply move_down_wp; [done|exact H2|done|apply Hin; lia|intros k Hk; apply Hnn; lia|].
    intros h3 H3. replace (pos + Z.of_nat (Z.to_nat (n - pos))) with n by lia.
    apply wp_bind. eapply seti_wp; [done|exact H3|apply Hin; lia|apply nil_storable| |done].
    intros h4 H4. apply wp_ret. split; [done|]. eapply holds_ext, H4. intros k.
    unfold removed, upd, shift_down. repeat case_decide; done || lia || (f_equal; lia).
  - intros Hne Hlt Hb. rewrite (proj2 (Z.eqb_neq pos n)) by done. exists h1. split; [|done]. cbn [negb andb].
    pose proof (insert_test pos n Hpos ltac:(lia)) as Ht. unfold LUA_MAXINTEGER in *.
    rewrite (wrap_small 64 (n + 1)) in Ht by (unfold in_u; lia). rewrite (wrap_small 64 n) by (unfold in_u; lia).
    by replace (u64 (u64 pos - 1) <=? n) with false by lia.
Qed.

(** ** Moving and listing *)

Lemma torn_only o1 o2 f t n h h' : torn o2 h o1 f t n h' -> only_changes o2 t (t + n - 1) h h'.
Proof.
  intros (B & [H1 H2] & HB). split; [done|]. intros o' i Hi. rewrite H2. case_decide; [|done]. subst.
  destruct (HB i) as [|[? _]]; [done|]. destruct Hi. split; [done|lia].
Qed.

(** Both directions of copying, as [tmove] chooses between them. *)
Lemma copy_wp o1 o2 f t n (up : bool) h h1 :
  ok h o1 -> ok h o2 -> in_s 64 f -> in_s 64 t -> 0 < n -> in_s 64 (f + n - 1) -> in_s 64 (t + n - 1) ->
  holds o2 h (at_ h o2) h1 -> (up = true -> o1 = o2 -> t <= f \/ f + n <= t) -> (up = false -> f < t) ->
  wp (_ ← (if up then copy_up (Z.to_nat n) o1 o2 f t 0 else copy_down (Z.to_nat n) o1 o2 f t); mret o2)
    (fun o h' => o = o2 /\ holds o2 h (pasted (at_ h o1) (at_ h o2) f t 0 n) h') (torn o2 h o1 f t n) h1.
Proof.
  intros Hok1 Hok2 Hf Ht Hn Hfn Htn H1 Hup Hdown. apply wp_bind. destruct up.
  - apply copy_up_wp; try done; try lia; [|by apply Hup].
    eapply holds_ext, H1. intros k. unfold pasted. by rewrite decide_False by lia.
  - apply copy_down_wp; try done; try lia.
    eapply holds_ext, H1. intros k. unfold pasted. by rewrite decide_False by lia.
Qed.

(** [table.move] of f..e to t, within a table or to another one, whether the
    ranges overlap or not: the destination then holds at t+i what the source held
    at f+i before the call, and nothing else changes.  An empty range moves
    nothing; too many elements, or a destination beyond the largest integer, are
    errors before anything moves; if memory runs out, only the destination range
    may have changed. *)
Theorem tmove_correct o1 arg1 f e t dest (eq : Obj -> Obj -> ST T bool) h
    (o2 := fst (default (o1, arg1) dest)) (arg2 := snd (default (o1, arg1) dest))
    (Hok1 : ok h o1) (Hok2 : ok h o2) (Hf : in_s 64 f) (He : in_s 64 e) (Ht : in_s 64 t)
    (Harg1 : checktab arg1 TAB_R = true) (Harg2 : checktab arg2 TAB_W = true)
    (Heq : forall h, exists h' c, eq o1 o2 h = Ret h' c /\ same h h' /\ (o1 = o2 -> c = true)) :
  match tmove o1 arg1 f e t dest eq h with
  | Ret h' o =>
      o = o2 /\
      becomes o2 (fun k => if decide (t <= k <= t + (e - f)) then at_ h o1 (f + (k - t)) else at_ h o2 k) h h'
  | Throw h' msg =>
      f <= e /\ only_changes o2 t (t + (e - f)) h h' /\
      (LUA_MAXINTEGER < e - f + 1 -> msg = "too many elements to move" /\ h' = h) /\
      (e - f + 1 <= LUA_MAXINTEGER < t + (e - f) -> msg = "destination wrap around" /\ h' = h)
  | Stuck => False
  end.
Proof.
  unfold in_s in Hf, He, Ht. change (2 ^ (64 - 1)) with (2 ^ 63) in *. unfold tmove.
  rewrite (surjective_pairing (default (o1, arg1) dest)). fold o2 arg2. rewrite Harg1, Harg2. cbn [negb].
  assert (Hsame : becomes o2 (at_ h o2) h h) by apply holds_init.
  destruct (Z.geb_spec e f) as [Hef|Hef].
  2: { split; [done|]. eapply (holds_ext o2 h), Hsame. intros k. by rewrite decide_False by lia. }
  destruct (negb _) eqn:G1.
  { unfold throw. split_and!; try done. unfold LUA_MAXINTEGER in *. lia. }
  destruct (negb (t <=? _)) eqn:G2.
  { unfold throw. split_and!; try done. unfold LUA_MAXINTEGER in *. lia. }
  unfold LUA_MAXINTEGER in G1, G2. set (n := e - f + 1) in *. assert (Hn : n <= LUA_MAXINTEGER) by (unfold LUA_MAXINTEGER; lia).
  enough (Hwp : wp (up ← (if (t >? e) || (t <=? f) then mret true
      else match dest with Some _ => b ← eq o1 o2; mret (negb b) | None => mret false end);
    _ ← (if up : bool then copy_up (Z.to_nat n) o1 o2 f t 0 else copy_down (Z.to_nat n) o1 o2 f t); mret o2)
    (fun o h' => o = o2 /\ holds o2 h (pasted (at_ h o1) (at_ h o2) f t 0 n) h') (torn o2 h o1 f t n) h).
  { unfold wp in Hwp. match type of Hwp with match ?r with _ => _ end => destruct r as [h' o|h' msg|] end;
      [|apply torn_only in Hwp|done].
    - destruct Hwp as [-> Hh]. split; [done|]. eapply (holds_ext o2 h), Hh. intros k. unfold pasted.
      destruct (decide (t <= k <= t + (e - f))); [by rewrite decide_True by lia|by rewrite decide_False by lia].
    - replace (t + (e - f)) with (t + n - 1) by lia. unfold LUA_MAXINTEGER in *. split_and!; try done; lia. }
  apply wp_bind. destruct ((t >? e) || (t <=? f)) eqn:G3.
  { apply wp_ret, (copy_wp o1 o2 f t n true); try done; try (unfold in_s; lia). }
  destruct dest as [d|].
  2: { apply wp_ret, (copy_wp o1 o2 f t n false); try done; try (unfold in_s; lia). }
  apply wp_bind. destruct (Heq h) as (h1 & c & Ec & Hs & Hc). unfold wp at 1. rewrite Ec.
  apply wp_ret, (copy_wp o1 o2 f t n (negb c)); try done; try (unfold in_s; lia).
  - eapply holds_same; [apply holds_init|done].
  - intros Hb Eo. by rewrite Hc in Hb.
Qed.

Lemma becomes_seg o B lo up h h' : becomes o B h h' -> seg (at_ h' o) lo up = seg B lo up.
Proof. apply holds_seg. Qed.

Lemma same_refl h : same h h.
Proof. by split. Qed.

Lemma holds_unchanged o h h' : holds o h (at_ h o) h' -> same h h'.
Proof. intros [H1 H2]. split; [done|]. intros o' k. rewrite H2. by case_decide; subst. Qed.

(** [table.concat] returns the texts of the elements from i to j (1 and the
    length, if not given) with the separator between them, or raises an error if
    one of them is not a string or a number.  It changes nothing. *)
Theorem tconcat_correct (tostr : V -> option (list Z)) o arg sep oi olast n h h1
    (i := default 1 oi) (last := default n olast)
    (Hok : ok h o) (Harg : checktab arg (Z.lor TAB_R TAB_L) = true) (Hn : luaL_len o h = Ret h1 n)
    (Hi : in_s 64 i) (Hlast : in_s 64 last) :
  match tconcat tostr o arg sep oi olast h with
  | Ret h' s => same h h' /\ exists ss, mapM tostr (seg (at_ h o) i last) = Some ss /\ s = join sep ss
  | Throw h' _ => same h h' /\ mapM tostr (seg (at_ h o) i last) = None
  | Stuck => False
  end.
Proof.
  enough (Hwp : wp (tconcat tostr o arg sep oi olast)
    (fun s h' => same h h' /\ exists ss, mapM tostr (seg (at_ h o) i last) = Some ss /\ s = join sep ss)
    (fun h' => same h h' /\ mapM tostr (seg (at_ h o) i last) = None) h) by exact Hwp.
  unfold tconcat. apply wp_bind. eapply aux_getn_wp; [done|done|done|]. intros h2 H2 Hn0.
  fold i last. apply wp_bind. destruct (Z.leb_spec i last).
  2: { replace (Z.to_nat (last - i)) with O by lia. cbn [concat_loop]. apply wp_ret.
       rewrite (proj2 (Z.eqb_neq i last)) by lia. apply wp_ret. split; [by eapply holds_unchanged|]. exists [].
       by rewrite seg_nil by lia. }
  eapply concat_loop_wp; [done|exact H2|done|by replace (i + _) with last by lia| |].
  all: replace (i + Z.of_nat (Z.to_nat (last - i))) with last by lia; rewrite (seg_snoc _ i last), mapM_snoc by done.
  - intros ss h3 H3 Ess. rewrite Z.eqb_refl, Ess. eapply addfield_wp; [done|exact H3|done| |].
    + intros s h4 H4 Es. split; [by eapply holds_unchanged|]. exists (ss ++ [s]). by rewrite Es, join_snoc.
    + intros h4 H4 Es. split; [by eapply holds_unchanged|]. cbn. by rewrite Es.
  - intros h3 H3 Ess. split; [by eapply holds_unchanged|]. by rewrite Ess.
Qed.

(** [table.unpack] returns the elements from i to j (1 and the length, if not
    given), or raises an error if there are too many for the stack.  It changes
    nothing. *)
Theorem tunpack_correct (stack_ok : Z -> bool) o oi olast n h h1
    (i := default 1 oi) (last := default n olast)
    (Hok : ok h o) (Hn : luaL_len o h = Ret h1 n) (Hi : in_s 64 i) (Hlast : in_s 64 last) :
  match tunpack stack_ok o oi olast h with
  | Ret h' vs => same h h' /\ vs = seg (at_ h o) i last
  | Throw h' _ => same h h' /\ (last - i >= 2 ^ 31 - 1 \/ stack_ok (last - i + 1) = false)
  | Stuck => False
  end.
Proof.
  enough (Hwp : wp (tunpack stack_ok o oi olast) (fun vs h' => same h h' /\ vs = seg (at_ h o) i last)
    (fun h' => same h h' /\ (last - i >= 2 ^ 31 - 1 \/ stack_ok (last - i + 1) = false)) h) by exact Hwp.
  unfold tunpack. fold i. apply wp_bind.
  enough (Hgo : forall h2, holds o h (at_ h o) h2 -> wp (if i >? last then mret []
    else let n := u64 (u64 last - u64 i) in
      if (n >=? 2 ^ 31 - 1) || negb (stack_ok (n + 1)) then throw "too many results to unpack"
      else vs ← get_range (Z.to_nat (last - i)) o i; v ← lua_geti o last; mret (vs ++ [v]))
    (fun vs h' => same h h' /\ vs = seg (at_ h o) i last)
    (fun h' => same h h' /\ (last - i >= 2 ^ 31 - 1 \/ stack_ok (last - i + 1) = false)) h2).
  { destruct olast as [l|]; [apply wp_ret, Hgo, holds_init|]. eapply len_is; [done|done|]. intros h2 H2 _. by apply Hgo. }
  intros h2 H2. destruct (Z.gtb_spec i last); [apply wp_ret; by rewrite seg_nil; [split; [by eapply holds_unchanged|]|]|].
  unfold in_s in Hi, Hlast. change (2 ^ (64 - 1)) with (2 ^ 63) in *. cbv zeta.
  rewrite wrap_sub_l, wrap_sub_r, (wrap_small 64) by (unfold in_u; lia).
  destruct (_ || _) eqn:G; [apply wp_throw; split; [by eapply holds_unchanged|destruct (stack_ok _); [lia|by right]]|].
  apply wp_bind. eapply get_range_wp; [done|exact H2|unfold in_s; lia|unfold in_s; lia|]. intros h3 H3.
  apply wp_bind. eapply geti_wp; [done|exact H3|unfold in_s; lia|]. intros h4 H4. apply wp_ret.
  split; [by eapply holds_unchanged|]. rewrite (seg_snoc _ i last) by done. do 2 f_equal. lia.
Qed.
End spec.
(** ** On Lua tables *)

Definition alloc_any : Z -> bool := fun _ => true.
Definition alloc_some : Z -> bool := fun n => n <=? 2 ^ 29.
Lemma alloc_some_ok n : alloc_some n = true -> n <= 2 ^ 29.
Proof. apply Z.leb_le. Qed.

#[local] Instance sample_ops : ArrayOps (list Table) nat TValue := LuaApi.api_ops alloc_any alloc_some.
#[local] Instance sample_laws : ArrayLaws (list Table) nat TValue :=
  LuaApi.api_laws 0 sample_strs alloc_any alloc_some alloc_some_ok.

(** Two tables, and a comparison of integers. *)
Definition heap : list Table := [array_table [VInt 3; VInt 1; VInt 5; VInt 1]; array_table [VTrue]].
Definition int_lt (a b : TValue) : bool := match a, b with VInt i, VInt j => i <? j | _, _ => false end.
Definition int_less (a b : TValue) : ST (list Table) bool := mret (int_lt a b).
Definition tick : ST (list Table) Z := mret 0.
Definition is_int (v : TValue) : Prop := exists i, v = VInt i.
Definition int_text (v : TValue) : option (list Z) := match v with VInt i => Some [48 + i] | _ => None end.

Lemma heap_all_ok o : (o < 2)%nat -> ok heap o.
Proof.
  intros Ho. destruct o as [|[|]]; [| |lia]; (eexists; split; [reflexivity|]; apply array_table_ok; [by repeat constructor|cbn; lia]).
Qed.

Lemma heap_values i : 1 <= i <= 4 -> is_int (at_ heap 0%nat i).
Proof.
  intros Hi. assert (i = 1 \/ i = 2 \/ i = 3 \/ i = 4) as [->|[->|[->| ->]]] by lia; eexists; vm_compute; reflexivity.
Qed.

Lemma heap_sequence : sequence 0%nat 4 heap.
Proof.
  split; [eexists; vm_compute; reflexivity|]. intros i Hi. destruct (heap_values i Hi) as [x ->]. done.
Qed.

Lemma tick_ok h : exists h' c, tick h = Ret h' c /\ same h h'.
Proof. by exists h, 0. Qed.

Lemma int_order :
  (forall v, is_int v -> storable v) /\
  (forall a b h, is_int a -> is_int b ->
     exists h', sort_comp int_less None a b h = Ret h' (int_lt a b) /\ same h h') /\
  (forall a, is_int a -> int_lt a a = false) /\
  (forall a b c, is_int a -> is_int b -> is_int c -> int_lt a b = true -> int_lt b c = true -> int_lt a c = true) /\
  (forall a b c, is_int a -> is_int b -> is_int c -> int_lt a b = false -> int_lt b c = false -> int_lt a c = false).
Proof.
  split_and!.
  - by intros v [i ->].
  - intros a b h _ _. by exists h.
  - intros a [i ->]. cbn. lia.
  - intros a b c [i ->] [j ->] [k ->]. cbn. lia.
  - intros a b c [i ->] [j ->] [k ->]. cbn. lia.
Qed.

Lemma sort_correct_witness :
  exists h', LuaTablib.sort int_less None tick tick 0%nat ATable heap = Ret h' tt /\
    seg (at_ h' 0%nat) 1 4 = [VInt 1; VInt 1; VInt 3; VInt 5] /\ at_ h' 1%nat 1 = VTrue.
Proof.
  destruct int_order as (H1 & H2 & H3 & H4 & H5).
  destruct (sort_correct int_less None tick tick is_int int_lt 0%nat ATable 4 heap H1 H2 H3 H4 H5 tick_ok tick_ok
    (heap_all_ok 0%nat ltac:(lia)) eq_refl heap_sequence ltac:(lia) heap_values) as (h' & E & Hc & _).
  exists h'. split; [exact E|]. split; [|by rewrite (proj2 Hc) by (intros [? _]; lia)].
  vm_compute in E. injection E as <-. vm_compute. reflexivity.
Defined.

(** A comparison that always says yes makes [sort] fail. *)
Lemma sort_permutes_witness :
  exists h' msg, LuaTablib.sort (fun _ _ => mret true) None tick tick 0%nat ATable heap = Throw h' msg /\
    seg (at_ h' 0%nat) 1 4 ≡ₚ [VInt 3; VInt 1; VInt 5; VInt 1].
Proof.
  pose proof (sort_permutes (fun _ _ => mret true) None tick tick 0%nat ATable 4 heap
    (fun _ _ h => same_refl h) tick_ok tick_ok (heap_all_ok 0%nat ltac:(lia)) eq_refl heap_sequence) as H.
  destruct (LuaTablib.sort _ _ _ _ _ _ heap) as [h' []|h' msg|] eqn:E; [vm_compute in E; discriminate E| |destruct H].
  exists h', msg. split; [reflexivity|]. apply H.
Defined.

(** A comparison that replaces the table while it is sorted. *)
Definition vandal (a b : TValue) : ST (list Table) bool :=
  fun h => Ret (<[0%nat := array_table [VTrue]]> h) (int_lt a b).
Lemma sort_terminates_witness :
  match LuaTablib.sort vandal None tick tick 0%nat ATable heap with
  | Ret h' _ | Throw h' _ => ok h' 0%nat
  | Stuck => False
  end.
Proof.
  apply (sort_terminates vandal None tick tick 0%nat ATable heap).
  - intros a b h (t & Et & Ht). apply (LuaApi.heap_ok_insert 0 sample_strs h 0%nat t); [exact Et| |by exists t].
    apply array_table_ok; [by repeat constructor|cbn; lia].
  - intros h Hh. exists h, 0. by split.
  - intros h Hh. exists h, 0. by split.
  - apply heap_all_ok. lia.
Defined.

Lemma true_storable : storable VTrue.
Proof. by split. Qed.

Lemma tinsert_correct_witness :
  match tinsert 0%nat ATable (Insert3 2 VTrue) heap with
  | Ret h' _ => seg (at_ h' 0%nat) 1 5 = [VInt 3; VTrue; VInt 1; VInt 5; VInt 1]
  | _ => False
  end.
Proof.
  destruct (tinsert_correct 0%nat ATable 2 VTrue 4 heap (heap_all_ok 0%nat ltac:(lia)) eq_refl heap_sequence
    ltac:(unfold LUA_MAXINTEGER; lia) ltac:(unfold in_s; lia) true_storable) as [_ H].
  destruct (tinsert _ _ _ heap) as [h' []|h' msg|] eqn:E; [|vm_compute in E; discriminate E|destruct H].
  destruct H as [_ H]. rewrite (becomes_seg _ _ _ _ _ _ H). vm_compute. reflexivity.
Defined.

Lemma tremove_correct_witness :
  exists h', tremove 0%nat ATable (Some 1) heap = Ret h' (VInt 3) /\
    seg (at_ h' 0%nat) 1 4 = [VInt 1; VInt 5; VInt 1; VNil].
Proof.
  destruct (tremove_correct 0%nat ATable 1 4 heap (heap_all_ok 0%nat ltac:(lia)) eq_refl heap_sequence
    ltac:(unfold in_s; lia)) as (_ & H & _).
  destruct (H ltac:(lia)) as (h' & E & Hb). exists h'. split; [exact E|].
  rewrite (becomes_seg _ _ _ _ _ _ Hb). vm_compute. reflexivity.
Defined.

(** Moving 1..3 one place up within the table. *)
Lemma tmove_correct_witness :
  exists h', tmove 0%nat ATable 1 3 2 None (fun _ _ => mret true) heap = Ret h' 0%nat /\
    seg (at_ h' 0%nat) 1 4 = [VInt 3; VInt 3; VInt 1; VInt 5].
Proof.
  pose proof (tmove_correct 0%nat ATable 1 3 2 None (fun _ _ => mret true) heap
    (heap_all_ok 0%nat ltac:(lia)) (heap_all_ok 0%nat ltac:(lia)) ltac:(unfold in_s; lia) ltac:(unfold in_s; lia)
    ltac:(unfold in_s; lia) eq_refl eq_refl (fun h => ex_intro _ h (ex_intro _ true (conj eq_refl (conj (same_refl h) (fun _ => eq_refl)))))) as H.
  destruct (tmove _ _ _ _ _ _ _ heap) as [h' r|h' msg|] eqn:E; [|vm_compute in E; discriminate E|destruct H].
  destruct H as [-> H]. exists h'. split; [reflexivity|].
  rewrite (becomes_seg _ _ _ _ _ _ H). vm_compute. reflexivity.
Defined.

Lemma tconcat_correct_witness :
  match tconcat int_text 0%nat ATable [44] None (Some 3) heap with
  | Ret _ s => s = [51; 44; 49; 44; 53]
  | _ => False
  end.
Proof.
  pose proof (tconcat_correct int_text 0%nat ATable [44] None (Some 3) 4 heap heap (heap_all_ok 0%nat ltac:(lia)) eq_refl
    eq_refl ltac:(unfold in_s; cbn; lia) ltac:(unfold in_s; cbn; lia)) as H.
  destruct (tconcat _ _ _ _ _ _ heap) as [h' s|h' msg|] eqn:E; [|vm_compute in E; discriminate E|destruct H].
  destruct H as (_ & ss & Es & ->). vm_compute in Es. injection Es as <-. reflexivity.
Defined.

Lemma tunpack_correct_witness :
  exists h', tunpack (fun _ => true) 0%nat (Some 2) None heap = Ret h' [VInt 1; VInt 5; VInt 1].
Proof.
  pose proof (tunpack_correct (fun _ => true) 0%nat (Some 2) None 4 heap heap (heap_all_ok 0%nat ltac:(lia))
    eq_refl ltac:(unfold in_s; cbn; lia) ltac:(unfold in_s; cbn; lia)) as H.
  destruct (tunpack _ _ _ _ heap) as [h' vs|h' msg|] eqn:E; [|vm_compute in E; discriminate E|destruct H].
  exists h'. destruct H as [_ ->]. reflexivity.
Defined.
End TablibSpec.
