(* ===== verification/LuaPack.v ===== *)
(** * Binary packing

    [string.pack], [string.packsize] and [string.unpack] of lstrlib.c.  The state
    is the header with the rest of the format, a C string; an argument is what
    [luaL_checkinteger], [luaL_checknumber] and [luaL_checklstring] make of it. *)

From S2P Require Import Prelude CFloat LuaValue LuaPattern LuaDump.

Module LuaPack.
Import CFloat LuaValue.
Import LuaPattern (slice, cstr, posrelatI).
Import LuaDump (le_bytes, le_value).
Open Scope string_scope.
Open Scope list_scope.
Open Scope Z_scope.

Definition LUAL_PACKPADBYTE : Z := 0.
Definition MAXINTSIZE : Z := 16.
Definition NB : Z := 8.
Definition MC : Z := Z.shiftl 1 NB - 1.
Definition SZINT : Z := 8.
Definition MAXSIZE : Z := 2 ^ 31 - 1.
(** [nativeendian.little] *)
Definition native_little : bool := true.

(** [Header], and the characters of the format that are left. *)
Record Header := MkHeader { islittle : bool; maxalign : Z; fmt : list Z }.
Abbreviation M := (ST Header).

Definition initheader (format : list Z) : Header := MkHeader native_little 1 (cstr format).

Inductive KOption :=
  | Kint | Kuint | Kfloat | Knumber | Kdouble | Kchar | Kstring | Kzstr
  | Kpadding | Kpaddalign | Knop.

#[export] Instance KOption_eq_dec : EqDecision KOption.
Proof. solve_decision. Defined.

(** No defined behaviour. *)
Definition stuck {A} : M A := fun _ => Stuck.

(** The next character of the format, and reading it. *)
Definition peek : M Z := fun h => Ret h (default 0 (head (fmt h))).
Definition advance : M Z := fun h =>
  match fmt h with
  | [] => Stuck
  | c :: f => Ret (MkHeader (islittle h) (maxalign h) f) c
  end.
Definition get_little : M bool := fun h => Ret h (islittle h).
Definition get_maxalign : M Z := fun h => Ret h (maxalign h).
Definition set_little (b : bool) : M unit := fun h => Ret (MkHeader b (maxalign h) (fmt h)) tt.
Definition set_maxalign (a : Z) : M unit := fun h => Ret (MkHeader (islittle h) a (fmt h)) tt.

(** ** Options *)

Definition digit (c : Z) : bool := (ch "0" <=? c) && (c <=? ch "9").

(** The do-while loop of [getnum]; [a] is an [int]. *)
Fixpoint getnum_loop (fuel : nat) (a : Z) : M Z :=
  match fuel with
  | O => stuck
  | S fuel' =>
      c ← advance;
      let a := a * 10 + (c - ch "0") in
      if a >? 2 ^ 31 - 1 then stuck
      else
        d ← peek;
        if digit d && (a <=? (MAXSIZE - 9) / 10) then getnum_loop fuel' a else mret a
  end.
Definition get_left : M nat := fun h => Ret h (length (fmt h)).
Definition getnum (df : Z) : M Z :=
  c ← peek;
  if negb (digit c) then mret df else n ← get_left; getnum_loop n 0.

Definition getnumlimit (df : Z) : M Z :=
  sz ← getnum df;
  if (sz >? MAXINTSIZE) || (sz <=? 0) then throw "integral size (%d) out of limits [1,%d]" else mret sz.

(** [getoption]: the option and its size. *)
Definition getoption : M (KOption * Z) :=
  opt ← advance;
  if opt =? ch "b" then mret (Kint, 1)
  else if opt =? ch "B" then mret (Kuint, 1)
  else if opt =? ch "h" then mret (Kint, 2)
  else if opt =? ch "H" then mret (Kuint, 2)
  else if opt =? ch "l" then mret (Kint, 8)
  else if opt =? ch "L" then mret (Kuint, 8)
  else if opt =? ch "j" then mret (Kint, 8)
  else if opt =? ch "J" then mret (Kuint, 8)
  else if opt =? ch "T" then mret (Kuint, 8)
  else if opt =? ch "f" then mret (Kfloat, 4)
  else if opt =? ch "n" then mret (Knumber, 8)
  else if opt =? ch "d" then mret (Kdouble, 8)
  else if opt =? ch "i" then size ← getnumlimit 4; mret (Kint, size)
  else if opt =? ch "I" then size ← getnumlimit 4; mret (Kuint, size)
  else if opt =? ch "s" then size ← getnumlimit 8; mret (Kstring, size)
  else if opt =? ch "c" then
    size ← getnum (-1);
    if size =? -1 then throw "missing size for format option 'c'" else mret (Kchar, size)
  else if opt =? ch "z" then mret (Kzstr, 0)
  else if opt =? ch "x" then mret (Kpadding, 1)
  else if opt =? ch "X" then mret (Kpaddalign, 0)
  else if opt =? ch " " then mret (Knop, 0)
  else if opt =? ch "<" then _ ← set_little true; mret (Knop, 0)
  else if opt =? ch ">" then _ ← set_little false; mret (Knop, 0)
  else if opt =? ch "=" then _ ← set_little native_little; mret (Knop, 0)
  else if opt =? ch "!" then a ← getnumlimit 8; _ ← set_maxalign a; mret (Knop, 0)
  else throw "invalid format option '%c'".

(** The alignment an option asks for: usually its size. *)
Definition wanted_align (opt : KOption) (size : Z) : M Z :=
  if bool_decide (opt = Kpaddalign) then
    c ← peek;
    if c =? 0 then throw "invalid next option for option 'X'"
    else
      '(opt2, align) ← getoption;
      if bool_decide (opt2 = Kchar) || (align =? 0) then throw "invalid next option for option 'X'"
      else mret align
  else mret size.

(** [getdetails]: the option, its size and the padding before it. *)
Definition getdetails (totalsize : Z) : M (KOption * Z * Z) :=
  '(opt, psize) ← getoption;
  align ← wanted_align opt psize;
  if (align <=? 1) || bool_decide (opt = Kchar) then mret (opt, psize, 0)
  else
    maxalign ← get_maxalign;
    let align := if align >? maxalign then maxalign else align in
    if negb (Z.land align (align - 1) =? 0) then throw "format asks for alignment not power of 2"
    else mret (opt, psize, Z.land (align - Z.land totalsize (align - 1)) (align - 1)).

(** ** Packing *)

(** The bytes of [n], least significant first. *)
Fixpoint int_bytes (n : Z) (size : nat) : list Z :=
  match size with
  | O => []
  | S size' => Z.land n MC :: int_bytes (Z.shiftr n NB) size'
  end.

Definition packint (n : Z) (little : bool) (size : nat) (neg : bool) : list Z :=
  let bytes := int_bytes n size in
  let bytes := if neg && (Z.of_nat size >? SZINT)
               then take (Z.to_nat SZINT) bytes ++ replicate (size - Z.to_nat SZINT) MC else bytes in
  if little then bytes else reverse bytes.

Definition copywithendian (src : list Z) (little : bool) : list Z :=
  if Bool.eqb little native_little then src else reverse src.

(** An argument seen as an integer, a number or a string. *)
Record parg := MkArg {
  luaL_checkinteger : res Z;
  luaL_checknumber : res double;
  luaL_checklstring : res (list Z) }.

Definition check {A} (r : res A) : M A := match r with Ok a => mret a | Err msg => throw msg end.
Definition no_value : parg := MkArg (Err "number expected, got no value")
  (Err "number expected, got no value") (Err "string expected, got no value").

(** The cases of [str_pack] that use an argument: the bytes to add, and what they
    add to [totalsize] besides the size of the option. *)
Definition pack_arg (opt : KOption) (size : Z) (a : parg) : M (list Z * Z) :=
  little ← get_little;
  match opt with
  | Kint =>
      n ← check (luaL_checkinteger a);
      let lim := Z.shiftl 1 (size * NB - 1) in
      if (size <? SZINT) && negb ((- lim <=? n) && (n <? lim)) then throw "integer overflow"
      else mret (packint (u64 n) little (Z.to_nat size) (n <? 0), 0)
  | Kuint =>
      n ← check (luaL_checkinteger a);
      if (size <? SZINT) && negb (u64 n <? Z.shiftl 1 (size * NB)) then throw "unsigned overflow"
      else mret (packint (u64 n) little (Z.to_nat size) false, 0)
  | Kfloat =>
      d ← check (luaL_checknumber a);
      mret (copywithendian (le_bytes 4 (f_bits (f_of_d d))) little, 0)
  | Knumber | Kdouble =>
      d ← check (luaL_checknumber a);
      mret (copywithendian (le_bytes 8 (d_bits d)) little, 0)
  | Kchar =>
      s ← check (luaL_checklstring a);
      if negb (zlen s <=? size) then throw "string longer than given size"
      else mret (s ++ replicate (Z.to_nat (size - zlen s)) LUAL_PACKPADBYTE, 0)
  | Kstring =>
      s ← check (luaL_checklstring a);
      if negb ((size >=? 8) || (zlen s <? Z.shiftl 1 (size * NB)))
      then throw "string length does not fit in given size"
      else mret (packint (zlen s) little (Z.to_nat size) false ++ s, zlen s)
  | Kzstr =>
      s ← check (luaL_checklstring a);
      if negb (zlen (cstr s) =? zlen s) then throw "string contains zeros"
      else mret (s ++ [0], zlen s + 1)
  | Kpadding | Kpaddalign | Knop => stuck
  end.

(** The main loop of [str_pack]; [fuel] bounds the number of options. *)
Fixpoint pack_loop (fuel : nat) (args : list parg) (totalsize : Z) (b : list Z) : M (list Z) :=
  c ← peek;
  if c =? 0 then mret b
  else
    match fuel with
    | O => stuck
    | S fuel' =>
        '(opt, size, ntoalign) ← getdetails totalsize;
        let totalsize := u64 (totalsize + ntoalign + size) in
        let b := b ++ replicate (Z.to_nat ntoalign) LUAL_PACKPADBYTE in
        match opt with
        | Kpadding => pack_loop fuel' args totalsize (b ++ [LUAL_PACKPADBYTE])
        | Kpaddalign | Knop => pack_loop fuel' args totalsize b
        | _ =>
            '(x, more) ← pack_arg opt size (default no_value (head args));
            pack_loop fuel' (tail args) (u64 (totalsize + more)) (b ++ x)
        end
    end.
Definition str_pack (format : list Z) (args : list parg) : outcome Header (list Z) :=
  pack_loop (length (cstr format)) args 0 [] (initheader format).

(** The loop of [str_packsize]. *)
Fixpoint packsize_loop (fuel : nat) (totalsize : Z) : M Z :=
  c ← peek;
  if c =? 0 then mret totalsize
  else
    match fuel with
    | O => stuck
    | S fuel' =>
        '(opt, size, ntoalign) ← getdetails totalsize;
        if bool_decide (opt = Kstring) || bool_decide (opt = Kzstr) then throw "variable-length format"
        else
          let size := size + ntoalign in
          if negb (totalsize <=? u64 (MAXSIZE - size)) then throw "format result too large"
          else packsize_loop fuel' (totalsize + size)
    end.
Definition str_packsize (format : list Z) : outcome Header Z :=
  packsize_loop (length (cstr format)) 0 (initheader format).

(** ** Unpacking *)

(** The values pushed. *)
Inductive uval :=
  | UInt (i : Z)
  | UNum (d : double)
  | UStr (s : list Z).

(** The [n] bytes of [data] at [pos]. *)
Definition at_pos (data : list Z) (pos n : Z) : M (list Z) := fun h =>
  match slice data pos n with Some x => Ret h x | None => Stuck end.

(** [unpackint] on the bytes of the integer. *)
Definition unpackint (str : list Z) (little : bool) (size : nat) (issigned : bool) : M Z :=
  let str := if little then str else reverse str in
  let limit := if Z.of_nat size <=? SZINT then size else Z.to_nat SZINT in
  let res := foldr (fun b res => Z.lor (u64 (Z.shiftl res NB)) b) 0 (take limit str) in
  if Z.of_nat size <? SZINT then
    if issigned then
      let mask := Z.shiftl 1 (Z.of_nat size * NB - 1) in
      mret (s64 (Z.lxor res mask - mask))
    else mret (s64 res)
  else if Z.of_nat size >? SZINT then
    let mask := if negb issigned || (s64 res >=? 0) then 0 else MC in
    if forallb (Z.eqb mask) (drop limit str) then mret (s64 res)
    else throw "%d-byte integer does not fit into Lua Integer"
  else mret (s64 res).

(** The cases of [str_unpack] that push a value, and how far they move [pos]
    besides the size of the option. *)
Definition unpack_value (data : list Z) (opt : KOption) (size pos : Z) : M (uval * Z) :=
  little ← get_little;
  match opt with
  | Kint | Kuint =>
      str ← at_pos data pos size;
      n ← unpackint str little (Z.to_nat size) (bool_decide (opt = Kint));
      mret (UInt n, 0)
  | Kfloat =>
      str ← at_pos data pos 4;
      mret (UNum (d_of_f (f_of_bits (le_value (copywithendian str little)))), 0)
  | Knumber | Kdouble =>
      str ← at_pos data pos 8;
      mret (UNum (d_of_bits (le_value (copywithendian str little))), 0)
  | Kchar => str ← at_pos data pos size; mret (UStr str, 0)
  | Kstring =>
      str ← at_pos data pos size;
      n ← unpackint str little (Z.to_nat size) false;
      let len := u64 n in
      if negb (len <=? u64 (zlen data - pos - size)) then throw "data string too short"
      else str ← at_pos data (pos + size) len; mret (UStr str, len)
  | Kzstr =>
      let len := zlen (cstr (drop (Z.to_nat pos) data)) in
      if negb (pos + len <? zlen data) then throw "unfinished string for format 'z'"
      else str ← at_pos data pos len; mret (UStr str, len + 1)
  | Kpadding | Kpaddalign | Knop => stuck
  end.

(** The main loop of [str_unpack]; [stack_ok] stands for [luaL_checkstack]. *)
Fixpoint unpack_loop (fuel : nat) (stack_ok : Z -> bool) (data : list Z) (pos n : Z) (vs : list uval)
    : M (list uval * Z) :=
  c ← peek;
  if c =? 0 then mret (vs, pos)
  else
    match fuel with
    | O => stuck
    | S fuel' =>
        '(opt, size, ntoalign) ← getdetails pos;
        if negb (u64 (u64 ntoalign + u64 size) <=? u64 (zlen data - pos)) then throw "data string too short"
        else
          let pos := pos + ntoalign in
          if negb (stack_ok (n + 2)) then throw "too many results"
          else
            match opt with
            | Kpaddalign | Kpadding | Knop => unpack_loop fuel' stack_ok data (pos + size) n vs
            | _ =>
                '(v, more) ← unpack_value data opt size pos;
                unpack_loop fuel' stack_ok data (pos + more + size) (n + 1) (vs ++ [v])
            end
    end.
Definition str_unpack (stack_ok : Z -> bool) (format data : list Z) (init : Z) : outcome Header (list uval) :=
  let pos := u64 (posrelatI init (zlen data) - 1) in
  (if negb (pos <=? zlen data) then throw "initial position out of string"
   else
     '(vs, pos) ← unpack_loop (length (cstr format)) stack_ok data pos 0 [];
     mret (vs ++ [UInt (pos + 1)])) (initheader format).

End LuaPack.
