(* ===== verification/PackFacts.v ===== *)
(** * Facts about packing

    The options of a format have sensible sizes and alignments; integers are read
    back from their bytes. *)

From S2P Require Import Prelude CFloat FloatFacts LuaValue LuaPattern LuaDump DumpFacts LuaPack.

Module PackFacts.
Import CFloat FloatFacts LuaValue LuaPack.
Import LuaPattern (slice, cstr).
Import LuaDump (le_bytes, le_value).
Import DumpFacts (is_byte, le_bytes_length, le_value_bytes, le_bytes_byte).
Open Scope Z_scope.

(** ** Options *)

(** A header in use: the format is a C string and the alignment in range. *)
Definition hdr_ok (h : Header) : Prop := 1 <= maxalign h <= 16 /\ Forall (fun c => c <> 0) (fmt h).

(** [n] characters have been read. *)
Definition shorter (h h' : Header) : Prop := (length (fmt h') < length (fmt h))%nat.

(** The size of an option fits its kind. *)
Definition opt_size (opt : KOption) (size : Z) : Prop :=
  match opt with
  | Kint | Kuint | Kstring => 1 <= size <= 16
  | Kfloat => size = 4
  | Knumber | Kdouble => size = 8
  | Kchar => 0 <= size <= MAXSIZE
  | Kpadding => size = 1
  | Kzstr | Kpaddalign | Knop => size = 0
  end.

Lemma peek_wp h Q E : Q (default 0 (head (fmt h))) h -> wp peek Q E h.
Proof. done. Qed.

Lemma advance_wp h Q E :
  hdr_ok h -> fmt h <> [] -> (forall c h', hdr_ok h' -> shorter h h' -> Q c h') -> wp advance Q E h.
Proof.
  intros [Hm Hf] Hne HQ. unfold wp, advance. destruct (fmt h) as [|c f] eqn:Ef; [done|].
  apply HQ; [split; [done|]; by inversion Hf|]. unfold shorter. rewrite Ef. cbn. lia.
Qed.

Lemma peek_nonempty h : hdr_ok h -> (default 0 (head (fmt h)) =? 0) = false -> fmt h <> [].
Proof. intros _ H E. by rewrite E in H. Qed.

Lemma digit_nonempty h : digit (default 0 (head (fmt h))) = true -> fmt h <> [].
Proof. intros H E. by rewrite E in H. Qed.

Lemma getnum_loop_wp fuel h a (Q : Z -> Header -> Prop) E :
  hdr_ok h -> digit (default 0 (head (fmt h))) = true -> (length (fmt h) <= fuel)%nat ->
  0 <= a <= (MAXSIZE - 9) / 10 ->
  (forall n h', hdr_ok h' -> shorter h h' -> 0 <= n <= MAXSIZE -> Q n h') -> wp (getnum_loop fuel a) Q E h.
Proof.
  revert h a. induction fuel as [|fuel IH]; intros h a Hh Hd Hl Ha HQ.
  { destruct (fmt h) eqn:Ef; [done|cbn in Hl; lia]. }
  cbn [getnum_loop]. apply wp_bind. unfold wp at 1, advance. destruct (fmt h) as [|c f] eqn:Ef; [done|].
  destruct Hh as [Hm Hf]. rewrite Ef in Hf.
  assert (Hh' : hdr_ok (MkHeader (islittle h) (maxalign h) f)) by (split; [done|]; by inversion Hf).
  assert (Hs : shorter h (MkHeader (islittle h) (maxalign h) f)) by (unfold shorter; rewrite Ef; cbn; lia).
  assert (Hc : 48 <= c <= 57).
  { cbn in Hd. unfold digit in Hd. change (ch "0") with 48 in Hd. change (ch "9") with 57 in Hd. lia. }
  change ((MAXSIZE - 9) / 10) with 214748363 in *. unfold MAXSIZE in *. change (ch "0") with 48.
  destruct (Z.gtb_spec (a * 10 + (c - 48)) (2 ^ 31 - 1)); [lia|]. apply wp_bind, peek_wp. cbn [fmt].
  destruct (digit (default 0 (head f))) eqn:Ed; cbn [andb]; [|apply wp_ret, HQ; done || lia].
  destruct (Z.leb_spec (a * 10 + (c - 48)) 214748363); [|apply wp_ret, HQ; done || lia].
  apply IH; [done|done|cbn in *; lia|lia|]. intros n h' H1 H2 H3. apply HQ; [done| |done]. unfold shorter in *. lia.
Qed.

Lemma getnum_wp h df (Q : Z -> Header -> Prop) E :
  hdr_ok h -> Q df h ->
  (forall n h', hdr_ok h' -> shorter h h' -> 0 <= n <= MAXSIZE -> Q n h') -> wp (getnum df) Q E h.
Proof.
  intros Hh H1 H2. unfold getnum. apply wp_bind, peek_wp. destruct (digit _) eqn:Ed; [|done].
  apply wp_bind. unfold wp at 1, get_left. apply getnum_loop_wp; [done..|done|]; done.
Qed.

Lemma getnumlimit_wp h df (Q : Z -> Header -> Prop) (E : Header -> Prop) :
  hdr_ok h -> (forall h, E h) ->
  (forall n h', hdr_ok h' -> h' = h \/ shorter h h' -> 1 <= n <= 16 -> Q n h') -> wp (getnumlimit df) Q E h.
Proof.
  intros Hh HE HQ. unfold getnumlimit. apply wp_bind. apply getnum_wp; [done| |].
  - destruct ((df >? MAXINTSIZE) || _) eqn:G; [by apply wp_throw|]. unfold MAXINTSIZE in G.
    apply wp_ret, HQ; [done|by left|lia].
  - intros n h' H1 H2 H3. destruct ((n >? MAXINTSIZE) || _) eqn:G; [by apply wp_throw|]. unfold MAXINTSIZE in G.
    apply wp_ret, HQ; [done|by right|lia].
Qed.

Lemma getoption_wp h (E : Header -> Prop) (Q : KOption * Z -> Header -> Prop) :
  hdr_ok h -> fmt h <> [] -> (forall h, E h) ->
  (forall opt size h', hdr_ok h' -> shorter h h' -> opt_size opt size -> Q (opt, size) h') -> wp getoption Q E h.
Proof.
  intros Hh Hne HE HQ. unfold getoption. apply wp_bind, advance_wp; [done..|]. intros c h1 H1 Hs1.
  assert (Hsh : forall h2, h2 = h1 \/ shorter h1 h2 -> shorter h h2) by (intros h2 [->|?]; unfold shorter in *; [done|lia]).
  assert (Hlim : forall df opt, (forall n, 1 <= n <= 16 -> opt_size opt n) ->
    wp (size ← getnumlimit df; mret (opt, size)) Q E h1).
  { intros df opt Ho. apply wp_bind, getnumlimit_wp; [done..|]. intros n h2 H2 Hs2 Hn. apply wp_ret, HQ; eauto. }
  repeat (match goal with |- wp (if ?b then _ else _) _ _ _ => destruct b end;
    [try (by apply wp_ret, HQ); try (by apply Hlim)|]); [| |by apply wp_throw].
  - apply wp_bind, getnum_wp; [done|by apply wp_throw|]. intros n h2 H2 Hs2 Hn.
    destruct (n =? -1); [by apply wp_throw|]. apply wp_ret, HQ; [done|eauto|done].
  - apply wp_bind, getnumlimit_wp; [done..|]. intros n h2 H2 Hs2 Hn. apply wp_bind. unfold wp at 1, set_maxalign.
    apply wp_ret, HQ; [split; [cbn; lia|apply H2]| |done]. change (shorter h h2). eauto.
Qed.

(** Masking with one less than a power of two. *)
Lemma land_below x a : 0 <= x -> 0 < a -> 0 <= Z.land x (a - 1) < a.
Proof.
  intros Hx Ha. rewrite <-(Z2N.id x), <-(Z2N.id (a - 1)), <-N2Z.inj_land by lia.
  pose proof (N.land_le_r (Z.to_N x) (Z.to_N (a - 1))). lia.
Qed.

Lemma wanted_align_wp h opt size (E : Header -> Prop) (Q : Z -> Header -> Prop) :
  hdr_ok h -> opt_size opt size -> (forall h, E h) ->
  (forall a h', hdr_ok h' -> h' = h \/ shorter h h' -> Q a h') -> wp (wanted_align opt size) Q E h.
Proof.
  intros Hh Ho HE HQ. unfold wanted_align. case_bool_decide; [|apply wp_ret, HQ; [done|by left]].
  apply wp_bind, peek_wp. destruct (_ =? 0) eqn:Ec; [by apply wp_throw|].
  apply wp_bind. eapply getoption_wp; [done|by apply peek_nonempty|done|]. intros opt2 a h1 H1 Hs1 Ho2.
  destruct (_ || _); [by apply wp_throw|]. apply wp_ret, HQ; [done|by right].
Qed.

Lemma getdetails_wp h t (E : Header -> Prop) (Q : KOption * Z * Z -> Header -> Prop) :
  hdr_ok h -> fmt h <> [] -> 0 <= t -> (forall h, E h) ->
  (forall opt size pad h', hdr_ok h' -> shorter h h' -> opt_size opt size -> 0 <= pad < 16 ->
     (pad <> 0 -> opt <> Kchar) -> Q (opt, size, pad) h') ->
  wp (getdetails t) Q E h.
Proof.
  intros Hh Hne Ht HE HQ. unfold getdetails. apply wp_bind, getoption_wp; [done..|]. intros opt size h1 H1 Hs1 Ho.
  apply wp_bind. eapply wanted_align_wp; [done..|]. intros a h2 H2 Hs2.
  assert (Hs : shorter h h2) by (destruct Hs2 as [->|?]; unfold shorter in *; [done|lia]).
  destruct ((a <=? 1) || _) eqn:G; [apply wp_ret, HQ; done || lia|]. apply orb_false_iff in G as [G1 G2].
  apply bool_decide_eq_false in G2. apply wp_bind. unfold wp at 1, get_maxalign.
  set (al := if a >? maxalign h2 then _ else _). assert (1 <= al <= 16) by (subst al; destruct H2; destruct (Z.gtb_spec a (maxalign h2)); lia).
  destruct (negb _); [by apply wp_throw|]. apply wp_ret, HQ; try done.
  pose proof (land_below t al ltac:(lia) ltac:(lia)).
  pose proof (land_below (al - Z.land t (al - 1)) al ltac:(lia) ltac:(lia)). lia.
Qed.

(** ** Integers *)

Lemma int_bytes_le n size : int_bytes n size = le_bytes size n.
Proof.
  revert n. induction size as [|size IH]; intros n; [done|]. cbn [int_bytes le_bytes]. rewrite IH.
  change MC with (Z.ones 8). rewrite Z.land_ones, Z.shiftr_div_pow2 by (unfold NB; lia). done.
Qed.

Lemma le_value_app l1 l2 : le_value (l1 ++ l2) = le_value l1 + 256 ^ zlen l1 * le_value l2.
Proof.
  induction l1 as [|b l1 IH]; [cbn [app length]; change (256 ^ Z.of_nat 0) with 1; cbn [le_value foldr]; lia|].
  cbn [app length]. unfold le_value in *. cbn [foldr]. rewrite IH, Nat2Z.inj_succ, Z.pow_succ_r by lia. lia.
Qed.

Lemma le_value_range l : Forall is_byte l -> 0 <= le_value l < 256 ^ zlen l.
Proof.
  induction 1 as [|b l Hb _ IH]; [cbn; lia|]. cbn [length]. unfold le_value in *. cbn [foldr].
  unfold is_byte in Hb. rewrite Nat2Z.inj_succ, Z.pow_succ_r by lia. lia.
Qed.

Lemma le_value_mod size x : le_value (le_bytes size x) = x mod 256 ^ Z.of_nat size.
Proof.
  revert x. induction size as [|size IH]; intros x; [by rewrite Z.mod_1_r|].
  cbn [le_bytes]. unfold le_value in *. cbn [foldr]. rewrite IH, Nat2Z.inj_succ, Z.pow_succ_r by lia.
  rewrite Z.rem_mul_r by lia. lia.
Qed.

Lemma le_bytes_take k size x : (k <= size)%nat -> take k (le_bytes size x) = le_bytes k x.
Proof.
  revert size x. induction k as [|k IH]; intros [|size] x Hk; try done; [lia|]. cbn. f_equal. apply IH. lia.
Qed.

Lemma le_bytes_drop k size x :
  (k <= size)%nat -> 0 <= x < 256 ^ Z.of_nat k -> drop k (le_bytes size x) = replicate (size - k) 0.
Proof.
  revert size x. induction k as [|k IH]; intros [|size] x Hk Hx; try done.
  - change (256 ^ Z.of_nat 0) with 1 in Hx. assert (x = 0) as -> by lia. rewrite drop_0.
    clear. replace (S size - 0)%nat with (S size) by lia. induction (S size) as [|m IH]; [done|]. cbn. by f_equal.
  - cbn [le_bytes drop]. apply IH; [lia|]. rewrite Nat2Z.inj_succ, Z.pow_succ_r in Hx by lia.
    split; [apply Z.div_pos; lia|apply Z.div_lt_upper_bound; lia].
Qed.

(** The loop of [unpackint] over at most eight bytes. *)
Lemma unpack_fold l :
  Forall is_byte l -> (length l <= 8)%nat ->
  foldr (fun b res => Z.lor (u64 (Z.shiftl res NB)) b) 0 l = le_value l.
Proof.
  induction 1 as [|b l Hb Hl IH]; intros Hlen; [done|]. unfold le_value. cbn [foldr]. fold (le_value l).
  cbn [length] in Hlen. rewrite IH by lia. pose proof (le_value_range l Hl).
  assert (256 ^ zlen l <= 256 ^ 7) by (apply Z.pow_le_mono_r; lia). change (256 ^ 7) with (2 ^ 56) in *.
  unfold NB, is_byte in *. rewrite Z.shiftl_mul_pow2, (wrap_small 64) by (unfold in_u; lia).
  rewrite lor_shift by lia. lia.
Qed.

(** Sign extension of a [k]-bit number. *)
Lemma sign_extend k x n :
  0 < k -> - 2 ^ (k - 1) <= n < 2 ^ (k - 1) -> x = n mod 2 ^ k ->
  Z.lxor x (Z.shiftl 1 (k - 1)) - Z.shiftl 1 (k - 1) = n.
Proof.
  intros Hk Hn ->. rewrite Z.shiftl_1_l. set (m := 2 ^ (k - 1)) in *.
  assert (H2 : 2 ^ k = 2 * m) by (subst m; by apply pow2_split).
  assert (Hdis : forall y, 0 <= y < m -> Z.lxor y m = y + m).
  { intros y Hy. symmetry. apply Z.add_nocarry_lxor. apply Z.bits_inj'. intros i Hi.
    rewrite Z.land_spec, Z.bits_0. subst m. rewrite Z.pow2_bits_eqb by lia.
    destruct (Z.eqb_spec (k - 1) i) as [<-|]; [|by rewrite andb_false_r].
    rewrite andb_true_r. apply Z.testbit_false; [lia|]. by rewrite Z.div_small by lia. }
  destruct (decide (0 <= n)).
  - rewrite Z.mod_small, Hdis by lia. lia.
  - replace (n mod 2 ^ k) with (n + m + m).
    2: { apply (Z.mod_unique_pos _ _ (-1)); lia. }
    rewrite <-(Hdis (n + m)) by lia. rewrite Z.lxor_assoc, Z.lxor_nilpotent, Z.lxor_0_r. lia.
Qed.

(** The bytes of [packint], least significant first. *)
Definition wide_bytes (n : Z) (size : nat) (neg : bool) : list Z :=
  if neg && (Z.of_nat size >? SZINT)
  then take (Z.to_nat SZINT) (le_bytes size n) ++ replicate (size - Z.to_nat SZINT) MC else le_bytes size n.

Lemma packint_bytes n little size neg :
  packint n little size neg = if little then wide_bytes n size neg else reverse (wide_bytes n size neg).
Proof. unfold packint, wide_bytes. by rewrite int_bytes_le. Qed.

Lemma wide_bytes_length n size neg : length (wide_bytes n size neg) = size.
Proof.
  unfold wide_bytes, SZINT. destruct neg; cbn [andb]; [|apply le_bytes_length].
  destruct (Z.gtb_spec (Z.of_nat size) 8); [|apply le_bytes_length].
  rewrite length_app, length_take, length_replicate, le_bytes_length. lia.
Qed.

Lemma packint_length n little size neg : length (packint n little size neg) = size.
Proof. rewrite packint_bytes. destruct little; rewrite ?length_reverse; apply wide_bytes_length. Qed.

Lemma unorder little (l : list Z) : (if little : bool then (if little then l else reverse l)
  else reverse (if little then l else reverse l)) = l.
Proof. destruct little; [done|apply reverse_involutive]. Qed.

(** The low eight bytes, and the bytes above them. *)
Lemma wide_bytes_low n size neg :
  0 <= n < 2 ^ 64 ->
  let limit := if Z.of_nat size <=? SZINT then size else Z.to_nat SZINT in
  foldr (fun b res => Z.lor (u64 (Z.shiftl res NB)) b) 0 (take limit (wide_bytes n size neg)) =
    n mod 256 ^ Z.of_nat limit /\
  ((Z.of_nat size >? SZINT) = true ->
   drop limit (wide_bytes n size neg) = replicate (size - 8) (if neg then MC else 0)).
Proof.
  intros Hn. unfold wide_bytes, SZINT.
  destruct (Z.leb_spec (Z.of_nat size) 8), (Z.gtb_spec (Z.of_nat size) 8); try lia; cbv zeta.
  - rewrite andb_false_r. split; [|done]. rewrite take_ge by (rewrite le_bytes_length; lia).
    rewrite unpack_fold, le_value_mod; [done|apply le_bytes_byte|rewrite le_bytes_length; lia].
  - change (Z.to_nat 8) with 8%nat. rewrite andb_true_r. split.
    + replace (take 8 _) with (le_bytes 8 n).
      2: { destruct neg; [|by rewrite le_bytes_take by lia].
           rewrite le_bytes_take by lia. rewrite take_app_le, take_ge; rewrite ?le_bytes_length; done || lia. }
      rewrite unpack_fold, le_value_mod; [done|apply le_bytes_byte|rewrite le_bytes_length; lia].
    + intros _. destruct neg; [|by apply le_bytes_drop; [lia|]].
      rewrite le_bytes_take by lia. rewrite drop_app_ge; rewrite ?le_bytes_length; [|lia]. by rewrite drop_0.
Qed.

Lemma forallb_same m k : forallb (Z.eqb m) (replicate k m) = true.
Proof. induction k; [done|]. cbn. by rewrite Z.eqb_refl. Qed.

Lemma unpack_signed n little size h :
  in_s 64 n -> (1 <= size)%nat -> (Z.of_nat size < 8 -> - 2 ^ (8 * Z.of_nat size - 1) <= n < 2 ^ (8 * Z.of_nat size - 1)) ->
  unpackint (packint (u64 n) little size (n <? 0)) little size true h = Ret h n.
Proof.
  intros Hn Hs Hr. unfold unpackint. rewrite packint_bytes, unorder. cbv zeta.
  destruct (wide_bytes_low (u64 n) size (n <? 0) ltac:(apply (wrap_range 64); lia)) as [-> Hd].
  pose proof (swrap_small 64 n ltac:(lia) Hn) as Hsn. unfold SZINT, NB in *.
  destruct (Z.leb_spec (Z.of_nat size) 8), (Z.ltb_spec (Z.of_nat size) 8), (Z.gtb_spec (Z.of_nat size) 8); try lia.
  - rewrite (Z.mul_comm (Z.of_nat size)).
    rewrite (sign_extend _ _ n); [by rewrite Hsn|lia|by apply Hr|].
    change 256 with (2 ^ 8). rewrite <-Z.pow_mul_r by lia. unfold wrap.
    apply Z.mod_mod_divide.
    exists (2 ^ (64 - 8 * Z.of_nat size)). rewrite <-Z.pow_add_r by lia. f_equal. lia.
  - replace (Z.of_nat size) with 8 by lia. change (256 ^ 8) with (2 ^ 64).
    rewrite Z.mod_small by (apply (wrap_range 64); lia). by rewrite swrap_wrap, Hsn.
  - rewrite Hd by done. change (Z.to_nat 8) with 8%nat. change (256 ^ Z.of_nat 8) with (2 ^ 64).
    rewrite Z.mod_small by (apply (wrap_range 64); lia). rewrite swrap_wrap, Hsn. cbn [negb orb].
    destruct (Z.ltb_spec n 0), (Z.geb_spec n 0); try lia; by rewrite forallb_same.
Qed.

Lemma unpack_unsigned n little size h :
  in_s 64 n -> (1 <= size)%nat -> (Z.of_nat size < 8 -> u64 n < 2 ^ (8 * Z.of_nat size)) ->
  unpackint (packint (u64 n) little size false) little size false h = Ret h n.
Proof.
  intros Hn Hs Hr. unfold unpackint. rewrite packint_bytes, unorder. cbv zeta.
  destruct (wide_bytes_low (u64 n) size false ltac:(apply (wrap_range 64); lia)) as [-> Hd].
  pose proof (swrap_small 64 n ltac:(lia) Hn) as Hsn. pose proof (wrap_range 64 n ltac:(lia)) as Hun.
  unfold SZINT, NB, in_u in *.
  destruct (Z.leb_spec (Z.of_nat size) 8), (Z.ltb_spec (Z.of_nat size) 8), (Z.gtb_spec (Z.of_nat size) 8); try lia.
  - change 256 with (2 ^ 8). rewrite <-Z.pow_mul_r by lia. rewrite Z.mod_small by (split; [lia|by apply Hr]).
    by rewrite swrap_wrap, Hsn.
  - replace (Z.of_nat size) with 8 by lia. change (256 ^ 8) with (2 ^ 64).
    rewrite Z.mod_small by done. by rewrite swrap_wrap, Hsn.
  - rewrite Hd by done. change (Z.to_nat 8) with 8%nat. change (256 ^ Z.of_nat 8) with (2 ^ 64).
    rewrite Z.mod_small by done. rewrite swrap_wrap, Hsn. cbn [negb orb].
    by rewrite forallb_same.
Qed.
End PackFacts.
