(* ===== verification/PackSpec.v ===== *)
(** * Packing and unpacking

    [string.unpack] inverts [string.pack], [string.packsize] announces the length
    of the result, and neither function reads outside its strings. *)

From S2P Require Import Prelude CFloat FloatFacts FloatRound LuaValue LuaPattern LuaDump DumpFacts LuaPack PackFacts.

Module PackSpec.
Import CFloat FloatFacts FloatRound LuaValue LuaPack PackFacts.
Import LuaPattern (slice, cstr, posrelatI).
Import LuaDump (le_bytes, le_value).
Import DumpFacts (is_byte, le_bytes_length, le_value_bytes, le_bytes_byte).
Open Scope string_scope.
Open Scope list_scope.
Open Scope Z_scope.

(** ** What a value becomes *)

Definition arg_ok (a : parg) : Prop :=
  (forall n, luaL_checkinteger a = Ok n -> in_s 64 n) /\ (forall d, luaL_checknumber a = Ok d -> valid d).

(** A double rounded to the nearest [float], ties to even: the value a [float] keeps. *)
Definition float_image (d : double) : double := d_of_f (f_of_d d).

Lemma float_stored d : d_of_f (f_of_bits (le_value (le_bytes 4 (f_bits (f_of_d d))))) = float_image d.
Proof. destruct (f_bits_roundtrip _ (f_of_d_valid d)) as [E Hr]. unfold float_image. by rewrite le_value_bytes, E. Qed.

Definition packed_value (os : KOption * Z) (a : parg) : uval :=
  match os.1, luaL_checkinteger a, luaL_checknumber a, luaL_checklstring a with
  | Kint, Ok n, _, _ | Kuint, Ok n, _, _ => UInt n
  | Kfloat, _, Ok d, _ => UNum (float_image d)
  | Knumber, _, Ok d, _ | Kdouble, _, Ok d, _ => UNum d
  | Kchar, _, _, Ok s => UStr (s ++ replicate (Z.to_nat (os.2 - zlen s)) 0)
  | Kstring, _, _, Ok s | Kzstr, _, _, Ok s => UStr s
  | _, _, _, _ => UInt 0
  end.

Definition has_value (opt : KOption) : bool :=
  match opt with Kpadding | Kpaddalign | Knop => false | _ => true end.

(** ** One item *)

Lemma at_pos_mid pre x post n h : n = zlen x -> at_pos (pre ++ x ++ post) (zlen pre) n h = Ret h x.
Proof.
  intros ->. unfold at_pos, slice. rewrite !length_app.
  rewrite (proj2 (Z.leb_le 0 (zlen pre))), (proj2 (Z.leb_le 0 (zlen x))), (proj2 (Z.leb_le _ _)) by lia. cbn [andb].
  by rewrite !Nat2Z.id, drop_app_length, take_app_length.
Qed.

Lemma copy_twice l little : copywithendian (copywithendian l little) little = l.
Proof. unfold copywithendian. destruct (Bool.eqb _ _); [done|apply reverse_involutive]. Qed.
Lemma copy_length l little : length (copywithendian l little) = length l.
Proof. unfold copywithendian. destruct (Bool.eqb _ _); [done|apply length_reverse]. Qed.

Lemma cstr_le s : (length (cstr s) <= length s)%nat.
Proof. induction s as [|c s IH]; [done|]. cbn. destruct (c =? 0); cbn; lia. Qed.

Lemma cstr_full s post : length (cstr s) = length s -> cstr (s ++ 0 :: post) = s.
Proof.
  induction s as [|c s IH]; [done|]. cbn. destruct (c =? 0); [done|]. cbn. intros H. f_equal. apply IH. lia.
Qed.

(** Taking apart a computation that returned. *)
Ltac step H :=
  apply bind_inv in H as (?h & ?x & ?E & H); cbv beta in H.
Ltac step_little H := step H; match goal with E : get_little _ = Ret _ _ |- _ => injection E as <- <- end.
Ltac step_check H :=
  step H; match goal with
  | E : check ?r _ = Ret _ _ |- _ =>
      destruct r eqn:?Er; cbn [check] in E; [injection E as <- <-|discriminate E]
  end.

(** Reading the next bytes. *)
Ltac read_at tac := erewrite bind_Ret; [|apply at_pos_mid; tac].

(** The outcome of packing one argument: [x] is read back as [v]. *)
Definition item_ok (opt : KOption) (size : Z) (v : uval) (h h' : Header) (x : list Z) (more : Z) : Prop :=
  h' = h /\ zlen x = size + more /\ 0 <= more /\
  forall pre post, zlen (pre ++ x ++ post) < 2 ^ 63 ->
    unpack_value (pre ++ x ++ post) opt size (zlen pre) h = Ret h (v, more).

Lemma item_int opt size a h h' x more :
  opt = Kint \/ opt = Kuint -> opt_size opt size -> arg_ok a -> pack_arg opt size a h = Ret h' (x, more) ->
  item_ok opt size (packed_value (opt, size) a) h h' x more.
Proof.
  intros Hopt Ho [Hint _] Hp. unfold pack_arg in Hp. step_little Hp. unfold packed_value. cbn [fst snd].
  destruct Hopt as [-> | ->]; step_check Hp; (destruct (_ && _) eqn:G; [discriminate Hp|]);
    injection Hp as <- <- <-; specialize (Hint _ eq_refl); cbn in Ho; unfold SZINT, NB in G; rewrite Z.shiftl_1_l in G.
  all: split; [done|]; split; [rewrite packint_length; lia|]; split; [done|]; intros pre post _.
  all: unfold unpack_value; rewrite (bind_Ret get_little _ h h (islittle h)) by done.
  all: read_at ltac:(rewrite packint_length; lia).
  - rewrite bool_decide_eq_true_2 by done. erewrite bind_Ret; [|apply unpack_signed; [done|lia|]]; [done|].
    rewrite Z2Nat.id, (Z.mul_comm 8) by lia. lia.
  - rewrite bool_decide_eq_false_2 by done. erewrite bind_Ret; [|apply unpack_unsigned; [done|lia|]]; [done|].
    rewrite Z2Nat.id, (Z.mul_comm 8) by lia. lia.
Qed.

Lemma item_num opt size a h h' x more :
  opt = Kfloat \/ opt = Knumber \/ opt = Kdouble -> opt_size opt size -> arg_ok a ->
  pack_arg opt size a h = Ret h' (x, more) ->
  item_ok opt size (packed_value (opt, size) a) h h' x more.
Proof.
  intros Hopt Ho [_ Hnum] Hp. unfold pack_arg in Hp. step_little Hp. unfold packed_value. cbn [fst snd].
  assert (Hl : forall w y, zlen (copywithendian (le_bytes w y) (islittle h)) = Z.of_nat w).
  { intros w y. by rewrite copy_length, le_bytes_length. }
  destruct Hopt as [-> | [-> | ->]]; step_check Hp; cbn in Ho; subst size.
  2, 3: destruct (d_bits_roundtrip _ (Hnum _ eq_refl)) as [Hd Hr]; rewrite <-(le_value_bytes 8 _ Hr) in Hd.
  all: match type of Hp with context [le_bytes ?w ?y] => specialize (Hl w y); set (bs := le_bytes w y) in * end.
  all: injection Hp as <- <- <-; split; [done|]; split; [done|]; split; [done|]; intros pre post _.
  all: unfold unpack_value; rewrite (bind_Ret get_little _ h h (islittle h)) by done.
  all: read_at ltac:(done); rewrite copy_twice; first [by rewrite Hd|subst bs; by rewrite float_stored].
Qed.

Lemma item_str opt size a h h' x more :
  opt = Kchar \/ opt = Kzstr -> opt_size opt size -> pack_arg opt size a h = Ret h' (x, more) ->
  item_ok opt size (packed_value (opt, size) a) h h' x more.
Proof.
  intros Hopt Ho Hp. unfold pack_arg in Hp. step_little Hp. unfold packed_value. cbn [fst snd].
  destruct Hopt as [-> | ->]; step_check Hp; (destruct (negb _) eqn:G; [discriminate Hp|]);
    injection Hp as <- <- <-; cbn in Ho.
  - assert (Hl : zlen (a0 ++ replicate (Z.to_nat (size - zlen a0)) LUAL_PACKPADBYTE) = size) by (rewrite length_app, length_replicate; lia).
    split; [done|]. split; [lia|]. split; [done|]. intros pre post _.
    unfold unpack_value. rewrite (bind_Ret get_little _ h h (islittle h)) by done. read_at ltac:(done). done.
  - subst size. split; [done|]. split; [rewrite length_app; cbn; lia|]. split; [lia|]. intros pre post Hlen.
    unfold unpack_value. rewrite (bind_Ret get_little _ h h (islittle h)) by done.
    rewrite Nat2Z.id, drop_app_length, <-(app_assoc a0). cbn [app]. rewrite cstr_full by lia.
    rewrite !length_app in *. cbn [length] in *. rewrite (proj2 (Z.ltb_lt _ _)) by lia. cbn [negb].
    read_at ltac:(done). done.
Qed.

Lemma item_lstr size a h h' x more :
  opt_size Kstring size -> pack_arg Kstring size a h = Ret h' (x, more) ->
  item_ok Kstring size (packed_value (Kstring, size) a) h h' x more.
Proof.
  intros Ho Hp. unfold pack_arg in Hp. step_little Hp. unfold packed_value. cbn [fst snd]. step_check Hp.
  destruct (negb _) eqn:G; [discriminate Hp|]. injection Hp as <- <- <-. cbn in Ho.
  set (q := packint _ _ _ _) in *. assert (Hq : zlen q = size) by (subst q; rewrite packint_length; lia).
  split; [done|]. split; [rewrite length_app; lia|]. split; [lia|]. intros pre post Hlen.
  unfold unpack_value. rewrite (bind_Ret get_little _ h h (islittle h)) by done.
  rewrite <-(app_assoc q a0 post) in *. read_at ltac:(done). rewrite !length_app in *.
  assert (Hu : u64 (zlen a0) = zlen a0) by (apply (wrap_small 64); unfold in_u; lia).
  assert (Hn : unpackint q (islittle h) (Z.to_nat size) false h = Ret h (zlen a0)).
  { subst q. rewrite <-Hu at 1. apply unpack_unsigned; [unfold in_s; lia|lia|]. rewrite Z.shiftl_1_l in G. unfold NB in G.
    rewrite Hu, Z2Nat.id, (Z.mul_comm 8) by lia. lia. }
  rewrite (bind_Ret _ _ _ _ _ Hn), Hu.
  rewrite (wrap_small 64 (_ - _ - size)) by (unfold in_u; lia). rewrite (proj2 (Z.leb_le (zlen a0) _)) by lia. cbn [negb].
  replace (zlen pre + size) with (zlen (pre ++ q)) by (rewrite length_app; lia). rewrite (app_assoc pre q).
  read_at ltac:(done). done.
Qed.

Lemma pack_arg_ok opt size a h h' x more :
  opt_size opt size -> arg_ok a -> pack_arg opt size a h = Ret h' (x, more) ->
  item_ok opt size (packed_value (opt, size) a) h h' x more.
Proof.
  intros Ho Ha Hp. destruct opt.
  1, 2: apply item_int; auto.
  1, 2, 3: apply item_num; auto.
  1, 3: apply item_str; auto.
  1: by apply item_lstr.
  all: done.
Qed.

(** ** The whole format *)

(** The options of a format that stand for a value. *)
Fixpoint options_loop (fuel : nat) : ST Header (list (KOption * Z)) :=
  c ← peek;
  if c =? 0 then mret []
  else
    match fuel with
    | O => stuck
    | S fuel' =>
        '(opt, size, _) ← getdetails 0;
        opts ← options_loop fuel';
        mret (if has_value opt then (opt, size) :: opts else opts)
    end.
Definition format_options (format : list Z) : outcome Header (list (KOption * Z)) :=
  options_loop (length (cstr format)) (initheader format).

Lemma getdetails_total t t' h h' opt size pad :
  getdetails t h = Ret h' (opt, size, pad) -> exists pad', getdetails t' h = Ret h' (opt, size, pad').
Proof.
  unfold getdetails. intros H. apply bind_inv in H as (h1 & [o s] & E1 & H). rewrite (bind_Ret _ _ _ _ _ E1).
  apply bind_inv in H as (h2 & a & E2 & H). rewrite (bind_Ret _ _ _ _ _ E2).
  destruct (_ || _); [injection H as <- <- <- <-; by eexists|].
  apply bind_inv in H as (h3 & m & E3 & H). rewrite (bind_Ret _ _ _ _ _ E3).
  destruct (negb _); [done|]. injection H as <- <- <- <-. by eexists.
Qed.

Lemma peek_is h : peek h = Ret h (default 0 (head (fmt h))).
Proof. done. Qed.

(** [getdetails] when it returns. *)
Lemma getdetails_ok t h h' opt size pad :
  hdr_ok h -> 0 <= t -> (default 0 (head (fmt h)) =? 0) = false -> getdetails t h = Ret h' (opt, size, pad) ->
  hdr_ok h' /\ shorter h h' /\ opt_size opt size /\ 0 <= pad < 16.
Proof.
  intros Hh Ht Hc E.
  assert (W : wp (getdetails t) (fun r h' => hdr_ok h' /\ shorter h h' /\ opt_size r.1.1 r.1.2 /\ 0 <= r.2 < 16)
    (fun _ => True) h).
  { eapply getdetails_wp; [done|by apply peek_nonempty|done|done|]. intros o s q h2 W1 W2 W3 W4 _. exact (conj W1 (conj W2 (conj W3 W4))). }
  unfold wp in W. rewrite E in W. exact W.
Qed.

Lemma opt_size_pos opt size : opt_size opt size -> 0 <= size <= MAXSIZE.
Proof. unfold MAXSIZE. destruct opt; cbn; unfold MAXSIZE; lia. Qed.

Lemma pack_loop_prefix fuel args t b h h' data :
  pack_loop fuel args t b h = Ret h' data -> exists rest, data = b ++ rest.
Proof.
  revert args t b h. induction fuel as [|fuel IH]; intros args t b h H; cbn [pack_loop] in H;
    rewrite (bind_Ret _ _ _ _ _ (peek_is h)) in H; (destruct (_ =? 0); [injection H as <- <-; exists []; by rewrite app_nil_r|]).
  { done. }
  apply bind_inv in H as (h1 & [[opt size] pad] & E1 & H). cbv zeta in H.
  destruct opt; try (apply bind_inv in H as (h2 & [x more] & E2 & H));
    apply IH in H as [rest ->]; rewrite <-!app_assoc; by eexists.
Qed.

Lemma pack_no_value opt size h h' r : pack_arg opt size no_value h <> Ret h' r.
Proof. by destruct opt. Qed.

(** The next round of both loops: the counter of [pack_loop] is the length of what
    it has written, and there are enough bytes for [unpack_loop]. *)
Lemma next_round fuel args b x h h' data t w :
  zlen data < 2 ^ 63 -> 0 <= w -> zlen x = w -> t = zlen b + w ->
  pack_loop fuel args (u64 t) (b ++ x) h = Ret h' data ->
  pack_loop fuel args (zlen (b ++ x)) (b ++ x) h = Ret h' data /\ w <= zlen data - zlen b /\
  exists rest, data = b ++ x ++ rest.
Proof.
  intros Hlen Hw Hx -> H. destruct (pack_loop_prefix _ _ _ _ _ _ _ H) as [rest ->]. rewrite !length_app in *.
  rewrite (wrap_small 64) in H by (unfold in_u; lia). split_and!; [|lia|exists rest; by rewrite app_assoc].
  by replace (Z.of_nat (length b + length x)) with (zlen b + w) by lia.
Qed.

(** The test for enough data of [str_unpack]. *)
Lemma enough_bytes pad size ld pos :
  0 <= pad < 16 -> 0 <= size <= MAXSIZE -> 0 <= ld - pos < 2 ^ 63 ->
  (u64 (u64 pad + u64 size) <=? u64 (ld - pos)) = (pad + size <=? ld - pos).
Proof. unfold MAXSIZE. intros. by rewrite !(wrap_small 64) by (unfold in_u; rewrite ?(wrap_small 64) by (unfold in_u; lia); lia). Qed.

(** Unpacking follows packing option by option. *)
Lemma pack_unpack_loop fuel stack_ok args b h h' data n vs :
  (forall n, stack_ok n = true) -> hdr_ok h -> Forall arg_ok args -> zlen data < 2 ^ 63 ->
  pack_loop fuel args (zlen b) b h = Ret h' data ->
  exists opts, options_loop fuel h = Ret h' opts /\
    unpack_loop fuel stack_ok data (zlen b) n vs h = Ret h' (vs ++ zip_with packed_value opts args, zlen data).
Proof.
  intros Hstack Hh Hargs Hlen. revert args b h n vs Hh Hargs.
  induction fuel as [|fuel IH]; intros args b h n vs Hh Hargs H; cbn [pack_loop options_loop unpack_loop] in *;
    rewrite !(bind_Ret _ _ _ _ _ (peek_is h)) in *;
    (destruct (_ =? 0) eqn:Ec; [injection H as <- <-; exists []; by rewrite app_nil_r|]); [done|].
  apply bind_inv in H as (h1 & [[opt size] pad] & E1 & H). cbv zeta in H.
  destruct (getdetails_ok _ _ _ _ _ _ Hh (Nat2Z.is_nonneg _) Ec E1) as (H1 & Hs1 & Ho & Hp).
  pose proof (opt_size_pos _ _ Ho) as Hsz. destruct (getdetails_total _ 0 _ _ _ _ _ E1) as [pad0 E0].
  rewrite (bind_Ret _ _ _ _ _ E1), (bind_Ret _ _ _ _ _ E0). rewrite Hstack. cbn [negb].
  set (pads := replicate (Z.to_nat pad) LUAL_PACKPADBYTE) in *.
  assert (Hpads : zlen pads = pad) by (subst pads; rewrite length_replicate; lia). clearbody pads.
  pose proof (enough_bytes pad size (zlen data) (zlen b) Hp Hsz) as Hu.
  destruct (has_value opt) eqn:Hv.
  - assert (exists x more h2, pack_arg opt size (default no_value (head args)) h1 = Ret h2 (x, more) /\
      pack_loop fuel (tail args) (u64 (zlen b + pad + size + more)) (b ++ pads ++ x) h2 = Ret h' data)
      as (x & more & h2 & Ea & Hpl).
    { destruct opt; try discriminate Hv; apply bind_inv in H as (h2 & [x more] & Ea & H);
        exists x, more, h2; rewrite wrap_add_l, <-app_assoc in H; done. }
    destruct args as [|a args]; [by apply pack_no_value in Ea|]. cbn [head tail default] in Ea, Hpl.
    apply Forall_cons in Hargs as [Ha Hargs'].
    destruct (pack_arg_ok _ _ _ _ _ _ _ Ho Ha Ea) as (-> & Hx & Hmore & Hread).
    destruct (next_round fuel args b (pads ++ x) h1 h' data (zlen b + pad + size + more) (pad + size + more))
      as (Hpl' & Hw & rest & Hdata); [done|lia|rewrite length_app; lia|lia|done|].
    destruct (IH args (b ++ pads ++ x) h1 (n + 1) (vs ++ [packed_value (opt, size) a]) H1 Hargs' Hpl') as (opts & Eo & Eu).
    exists ((opt, size) :: opts). rewrite (bind_Ret _ _ _ _ _ Eo). split; [done|].
    rewrite Hu, (proj2 (Z.leb_le _ _)) by lia. cbn [negb].
    assert (Er : unpack_value data opt size (zlen b + pad) h1 = Ret h1 (packed_value (opt, size) a, more)).
    { rewrite Hdata, <-Hpads, <-app_assoc, app_assoc, <-Nat2Z.inj_add, <-length_app. apply Hread. rewrite <-app_assoc, (app_assoc pads), <-Hdata. done. }
    rewrite !length_app, !Nat2Z.inj_add, Hx, Hpads in Eu.
    replace (zlen b + (pad + (size + more))) with (zlen b + pad + more + size) in Eu by lia.
    rewrite <-app_assoc in Eu. destruct opt; try discriminate Hv; by rewrite (bind_Ret _ _ _ _ _ Er).
  - assert (exists x, zlen x = pad + size /\ pack_loop fuel args (u64 (zlen b + pad + size)) (b ++ x) h1 = Ret h' data)
      as (x & Hx & Hpl).
    { destruct opt; try discriminate Hv; cbn in Ho; subst size.
      - exists (pads ++ [LUAL_PACKPADBYTE]). rewrite length_app, app_assoc. split; [cbn; lia|done].
      - exists pads. split; [lia|done].
      - exists pads. split; [lia|done]. }
    destruct (next_round fuel args b x h1 h' data (zlen b + pad + size) (pad + size)) as (Hpl' & Hw & _); [done|lia|done|lia|done|].
    destruct (IH args (b ++ x) h1 n vs H1 Hargs Hpl') as (opts & Eo & Eu).
    exists opts. rewrite (bind_Ret _ _ _ _ _ Eo). split; [done|]. rewrite Hu, (proj2 (Z.leb_le _ _)) by lia. cbn [negb].
    rewrite length_app, Nat2Z.inj_add, Hx, Z.add_assoc in Eu. by destruct opt.
Qed.

(** ** No stray access *)

Lemma at_pos_wp data pos n h Q E :
  0 <= pos -> 0 <= n -> pos + n <= zlen data -> (forall x, zlen x = n -> Q x h) -> wp (at_pos data pos n) Q E h.
Proof.
  intros Hp Hn Hl HQ. unfold wp, at_pos, slice.
  rewrite (proj2 (Z.leb_le 0 pos)), (proj2 (Z.leb_le 0 n)), (proj2 (Z.leb_le _ _)) by lia. cbn [andb].
  apply HQ. rewrite length_take, length_drop. lia.
Qed.

Lemma unpackint_wp str little size issigned h (Q : Z -> Header -> Prop) E :
  (forall n, in_s 64 n -> Q n h) -> E h -> wp (unpackint str little size issigned) Q E h.
Proof.
  intros HQ HE. unfold unpackint.
  repeat match goal with |- wp (if ?b then _ else _) _ _ _ => destruct b | |- wp (let _ := _ in _) _ _ _ => cbv zeta end;
    first [done|apply wp_ret, HQ; by apply swrap_range].
Qed.

Lemma unpack_value_wp data opt size pos h (Q : uval * Z -> Header -> Prop) (E : Header -> Prop) :
  has_value opt = true -> opt_size opt size -> 0 <= pos -> pos + size <= zlen data -> zlen data < 2 ^ 63 -> E h ->
  (forall v more, 0 <= more -> pos + more + size <= zlen data -> Q (v, more) h) ->
  wp (unpack_value data opt size pos) Q E h.
Proof.
  intros Hv Ho Hp Hl Hmax HE HQ. pose proof (opt_size_pos _ _ Ho) as Hsz. unfold unpack_value.
  apply wp_bind. unfold wp at 1, get_little. destruct opt; try discriminate Hv; cbn in Ho.
  1, 2: apply wp_bind, at_pos_wp; [lia..|]; intros x Hx; apply wp_bind, unpackint_wp; [|done]; intros n _; apply wp_ret, HQ; lia.
  1, 2, 3, 4: apply wp_bind, at_pos_wp; [lia..|]; intros x Hx; apply wp_ret, HQ; lia.
  - apply wp_bind, at_pos_wp; [lia..|]. intros x Hx. apply wp_bind, unpackint_wp; [|done]. intros n Hn.
    rewrite (wrap_small 64 (_ - _ - size)) by (unfold in_u; lia). pose proof (wrap_range 64 n ltac:(lia)) as Hw. unfold in_u in Hw.
    destruct (Z.leb_spec (u64 n) (zlen data - pos - size)); [cbn [negb]|by apply wp_throw].
    apply wp_bind, at_pos_wp; [lia..|]. intros y Hy. apply wp_ret, HQ; lia.
  - destruct (Z.ltb_spec (pos + zlen (cstr (drop (Z.to_nat pos) data))) (zlen data)); [cbn [negb]|by apply wp_throw].
    apply wp_bind, at_pos_wp; [lia..|]. intros y Hy. apply wp_ret, HQ; lia.
Qed.

Lemma unpack_loop_wp fuel stack_ok data pos n vs h :
  hdr_ok h -> (length (fmt h) <= fuel)%nat -> 0 <= pos <= zlen data -> zlen data < 2 ^ 63 ->
  wp (unpack_loop fuel stack_ok data pos n vs) (fun r _ => 0 <= r.2 <= zlen data) (fun _ => True) h.
Proof.
  intros Hh Hf Hp Hl. revert pos n vs h Hh Hf Hp.
  induction fuel as [|fuel IH]; intros pos n vs h Hh Hf Hp; cbn [unpack_loop]; apply wp_bind, peek_wp;
    (destruct (_ =? 0) eqn:Ec; [by apply wp_ret|]); pose proof (peek_nonempty h Hh Ec) as Hne.
  { destruct (fmt h); [done|cbn in Hf; lia]. }
  apply wp_bind. eapply getdetails_wp; [done|done|lia|done|]. intros opt size pad h1 H1 Hs1 Ho Hpad _.
  pose proof (opt_size_pos _ _ Ho) as Hsz. rewrite enough_bytes by lia. unfold shorter in Hs1.
  destruct (Z.leb_spec (pad + size) (zlen data - pos)); [cbn [negb]|by apply wp_throw].
  destruct (stack_ok _); [cbn [negb]|by apply wp_throw].
  destruct (has_value opt) eqn:Hv.
  - enough (W : wp ('(v, more) ← unpack_value data opt size (pos + pad);
        unpack_loop fuel stack_ok data (pos + pad + more + size) (n + 1) (vs ++ [v]))
      (fun r _ => 0 <= r.2 <= zlen data) (fun _ => True) h1) by (destruct opt; try discriminate Hv; exact W).
    apply wp_bind, unpack_value_wp; [done|done|lia..|done|]. intros v more Hm Hm2. apply IH; [done|lia|lia].
  - assert (W : wp (unpack_loop fuel stack_ok data (pos + pad + size) n vs)
      (fun r _ => 0 <= r.2 <= zlen data) (fun _ => True) h1) by (apply IH; [done|lia|lia]).
    by destruct opt.
Qed.

Lemma cstr_nonzero s : Forall (fun c => c <> 0) (cstr s).
Proof. induction s as [|c s IH]; [constructor|]. cbn. destruct (Z.eqb_spec c 0); by constructor. Qed.

Lemma initheader_ok format : hdr_ok (initheader format).
Proof. split; [cbn; lia|apply cstr_nonzero]. Qed.

(** ** The announced size *)

Lemma fixed_size opt size a h h' x more :
  pack_arg opt size a h = Ret h' (x, more) -> opt <> Kstring -> opt <> Kzstr -> more = 0.
Proof.
  intros H H1 H2. unfold pack_arg in H. step_little H. destruct opt; try done; step_check H.
  all: repeat match type of H with (if ?b then _ else _) _ = _ => destruct b; [discriminate H|] end.
  all: by injection H.
Qed.

Lemma packsize_pack fuel args b h h1 h2 n data :
  hdr_ok h -> Forall arg_ok args -> zlen data < 2 ^ 63 ->
  packsize_loop fuel (zlen b) h = Ret h1 n -> pack_loop fuel args (zlen b) b h = Ret h2 data -> zlen data = n.
Proof.
  intros Hh Hargs Hlen. revert args b h Hh Hargs.
  induction fuel as [|fuel IH]; intros args b h Hh Hargs Hs H; cbn [pack_loop packsize_loop] in *;
    rewrite !(bind_Ret _ _ _ _ _ (peek_is h)) in *;
    (destruct (_ =? 0) eqn:Ec; [injection H as <- <-; by injection Hs|]); [done|].
  apply bind_inv in H as (h3 & [[opt size] pad] & E1 & H). rewrite (bind_Ret _ _ _ _ _ E1) in Hs. cbv zeta in H, Hs.
  destruct (getdetails_ok _ _ _ _ _ _ Hh (Nat2Z.is_nonneg _) Ec E1) as (H1 & _ & Ho & Hp).
  pose proof (opt_size_pos _ _ Ho) as Hsz. destruct (_ || _) eqn:Hfix; [discriminate Hs|]. apply orb_false_iff in Hfix as [Hf1 Hf2].
  apply bool_decide_eq_false in Hf1, Hf2. destruct (negb _); [discriminate Hs|].
  assert (exists args' x, Forall arg_ok args' /\ zlen x = pad + size /\
    pack_loop fuel args' (u64 (zlen b + pad + size)) (b ++ x) h3 = Ret h2 data) as (args' & x & Ha & Hx & Hpl).
  { assert (Hpads : zlen (replicate (Z.to_nat pad) LUAL_PACKPADBYTE) = pad) by (rewrite length_replicate; lia).
    set (pads := replicate _ _) in *. clearbody pads. destruct (has_value opt) eqn:Hv.
    - assert (exists x more h4, pack_arg opt size (default no_value (head args)) h3 = Ret h4 (x, more) /\
        pack_loop fuel (tail args) (u64 (zlen b + pad + size + more)) (b ++ pads ++ x) h4 = Ret h2 data)
        as (x & more & h4 & Ea & Hpl).
      { destruct opt; try discriminate Hv; apply bind_inv in H as (h4 & [x more] & Ea & H);
          exists x, more, h4; rewrite wrap_add_l, <-app_assoc in H; done. }
      destruct args as [|a args]; [by apply pack_no_value in Ea|]. apply Forall_cons in Hargs as [Ha Hargs'].
      destruct (pack_arg_ok _ _ _ _ _ _ _ Ho Ha Ea) as (-> & Hx & _ & _).
      rewrite (fixed_size _ _ _ _ _ _ _ Ea Hf1 Hf2), ?Z.add_0_r in *.
      exists args, (pads ++ x). rewrite length_app. split_and!; [done|lia|done].
    - destruct opt; try discriminate Hv; cbn in Ho; subst size.
      + exists args, (pads ++ [LUAL_PACKPADBYTE]). rewrite length_app, app_assoc. split_and!; [done|cbn; lia|done].
      + exists args, pads. split_and!; [done|lia|done].
      + exists args, pads. split_and!; [done|lia|done]. }
  destruct (next_round fuel args' b x h3 h2 data (zlen b + pad + size) (pad + size)) as (Hpl' & Hw & _); [done|lia|done|lia|done|].
  apply (IH args' (b ++ x) h3); [done|done| |done].
  by replace (zlen (b ++ x)) with (zlen b + (size + pad)) by (rewrite length_app; lia).
Qed.

(** ** The theorems *)

(** C31: unpacking with the format used for packing gives back the values packed,
    and the position after the data: integers of any size and byte order, numbers,
    fixed-size strings with their padding, strings with their length and
    zero-terminated strings, at any alignment.  A number packed as a [float] comes
    back as that float. *)
Theorem str_unpack_pack (stack_ok : Z -> bool) (format : list Z) (args : list parg) (h : Header) (data : list Z)
    (Hstack : forall n, stack_ok n = true) (Hargs : Forall arg_ok args)
    (Hp : str_pack format args = Ret h data) (Hlen : zlen data < 2 ^ 63) :
  exists opts h', format_options format = Ret h opts /\
    str_unpack stack_ok format data 1 = Ret h' (zip_with packed_value opts args ++ [UInt (zlen data + 1)]).
Proof.
  destruct (pack_unpack_loop _ stack_ok args [] _ _ _ 0 [] Hstack (initheader_ok format) Hargs Hlen Hp) as (opts & Eo & Eu).
  exists opts, h. split; [done|]. unfold str_unpack. change (u64 (posrelatI 1 (zlen data) - 1)) with 0.
  rewrite (proj2 (Z.leb_le 0 (zlen data))) by lia. cbn [negb]. change (zlen (@nil Z)) with 0 in Eu.
  by rewrite (bind_Ret _ _ _ _ _ Eu).
Qed.

(** C32: [string.unpack] on any format, data and position ends, with values or an
    error, and reads only bytes of the data; the position it returns is in it. *)
Theorem str_unpack_safe (stack_ok : Z -> bool) (format data : list Z) (init : Z) (Hlen : zlen data < 2 ^ 63) :
  match str_unpack stack_ok format data init with
  | Ret _ vs => exists vs' pos, vs = vs' ++ [UInt pos] /\ 1 <= pos <= zlen data + 1
  | Throw _ _ => True
  | Stuck => False
  end.
Proof.
  unfold str_unpack. set (pos := u64 _). pose proof (wrap_range 64 (posrelatI init (zlen data) - 1) ltac:(lia)) as Hp.
  unfold in_u in Hp. fold pos in Hp. destruct (Z.leb_spec pos (zlen data)); [cbn [negb]|done].
  pose proof (unpack_loop_wp (length (cstr format)) stack_ok data pos 0 [] (initheader format)
    (initheader_ok format) ltac:(done) ltac:(lia) Hlen) as W.
  unfold wp in W. unfold mbind, st_bind, obind. destruct (unpack_loop _ _ _ _ _ _ _) as [h [vs p]|h e|]; [|done|done].
  exists vs, (p + 1). cbn in W. split; [done|lia].
Qed.

(** [string.packsize] announces the length of what [string.pack] returns for the
    same format, whatever the values. *)
Theorem str_packsize_correct (format : list Z) (args : list parg) (h h' : Header) (n : Z) (data : list Z)
    (Hargs : Forall arg_ok args) (Hs : str_packsize format = Ret h n) (Hp : str_pack format args = Ret h' data)
    (Hlen : zlen data < 2 ^ 63) :
  zlen data = n.
Proof. exact (packsize_pack _ args [] _ _ _ _ _ (initheader_ok format) Hargs Hlen Hs Hp). Qed.

(** C33: every option [getoption] accepts has a size that fits its kind, and the
    alignment kept in the header stays between 1 and 16; reading an option always
    ends, with an option or an error, and consumes at least one character. *)
Theorem getoption_typed (h : Header) (Hh : hdr_ok h) (Hne : fmt h <> []) :
  match getoption h with
  | Ret h' (opt, size) => hdr_ok h' /\ shorter h h' /\ opt_size opt size
  | Throw _ _ => True
  | Stuck => False
  end.
Proof.
  pose proof (getoption_wp h (fun _ => True) (fun r h' => hdr_ok h' /\ shorter h h' /\ opt_size r.1 r.2) Hh Hne
    ltac:(done) ltac:(done)) as W.
  unfold wp in W. by destruct (getoption h) as [h' [opt size]| |].
Qed.

(** ** A sample *)

Definition an_int (n : Z) : parg := MkArg (Ok n) (Ok (d_of_Z n)) (Err "bad argument").
Definition a_str (s : string) : parg := MkArg (Err "bad argument") (Err "bad argument") (Ok (bytes s)).
Definition sample_args : list parg := [an_int (-7); a_str "ab"; a_str "xyz"; an_int 3].
Definition sample_format : list Z := bytes "<i3z>s2!8d".

Lemma an_int_ok n : in_s 64 n -> valid (d_of_Z n) -> arg_ok (an_int n).
Proof. intros Hn Hv. split; intros x E; injection E as <-; done. Qed.
Lemma a_str_ok s : arg_ok (a_str s).
Proof. by split. Qed.

Lemma sample_args_ok : Forall arg_ok sample_args.
Proof.
  unfold sample_args. rewrite !Forall_cons, Forall_nil. split_and!; try done; try apply a_str_ok.
  all: apply an_int_ok; [unfold in_s; lia|vm_compute; reflexivity].
Qed.

Lemma str_unpack_pack_witness :
  exists h data h', str_pack sample_format sample_args = Ret h data /\
    str_unpack (fun _ => true) sample_format data 1 =
      Ret h' [UInt (-7); UStr (bytes "ab"); UStr (bytes "xyz"); UNum (d_of_Z 3); UInt (zlen data + 1)].
Proof.
  destruct (str_pack sample_format sample_args) as [h data| |] eqn:E; [|vm_compute in E; discriminate E|vm_compute in E; discriminate E].
  destruct (str_unpack_pack (fun _ => true) sample_format sample_args h data ltac:(reflexivity) sample_args_ok E) as (opts & h' & Eo & Eu).
  - vm_compute in E. injection E as _ <-. reflexivity.
  - exists h, data, h'. split; [reflexivity|]. rewrite Eu. vm_compute in Eo. injection Eo as _ <-. reflexivity.
Defined.

Lemma str_unpack_safe_witness :
  match str_unpack (fun _ => true) (bytes "s8") (bytes "too short") 1 with Stuck => False | _ => True end.
Proof.
  pose proof (str_unpack_safe (fun _ => true) (bytes "s8") (bytes "too short") 1 ltac:(reflexivity)) as H.
  destruct (str_unpack _ _ _ _); [exact I|exact I|exact H].
Defined.

Lemma str_packsize_correct_witness :
  exists h data, str_pack (bytes "!4 b i4") [an_int 1; an_int 2] = Ret h data /\ zlen data = 8.
Proof.
  destruct (str_pack (bytes "!4 b i4") [an_int 1; an_int 2]) as [h data| |] eqn:E; [|vm_compute in E; discriminate E|vm_compute in E; discriminate E].
  exists h, data. split; [reflexivity|].
  eapply (str_packsize_correct (bytes "!4 b i4") [an_int 1; an_int 2] _ h 8 data).
  - rewrite !Forall_cons, Forall_nil. split_and!; try done; apply an_int_ok; [unfold in_s; lia|vm_compute; reflexivity|unfold in_s; lia|vm_compute; reflexivity].
  - vm_compute. reflexivity.
  - exact E.
  - vm_compute in E. injection E as _ <-. reflexivity.
Defined.

Lemma getoption_typed_witness :
  match getoption (initheader (bytes "i16c")) with
  | Ret h' (opt, size) => opt = Kint /\ size = 16 /\ hdr_ok h'
  | _ => False
  end.
Proof.
  pose proof (getoption_typed (initheader (bytes "i16c")) (initheader_ok _) ltac:(discriminate)) as H.
  destruct (getoption _) as [h' [opt size]| |] eqn:E; [|vm_compute in E; discriminate E|exact H].
  vm_compute in E. injection E as <- <- <-. split; [reflexivity|]. split; [reflexivity|]. apply H.
Defined.
End PackSpec.
