(* ===== verification/Pmm.v ===== *)
(** * The boot loader's physical memory manager

    common/mm/pmm.s2.c and pmm.c of Limine (src/limine/limine-8.7.0), in the
    configuration the system image is built with: UEFI on x86-64.  A memory map is
    the list of the live entries of its array; appending to it is writing the
    slot at [*_count] and increasing the count.  The [unused] member of an entry,
    which no code reads, is left out.  Panics are errors of the monad. *)

From S2P Require Import Prelude Effects.

Module Pmm.
Import Effects.
Open Scope string_scope.
Open Scope list_scope.
Open Scope Z_scope.

(** ** Memory maps *)

Record memmap_entry := Entry { e_base : Z; e_length : Z; e_type : Z }.

#[export] Instance memmap_entry_eq_dec : EqDecision memmap_entry.
Proof. solve_decision. Defined.

Definition MEMMAP_USABLE : Z := 1.
Definition MEMMAP_RESERVED : Z := 2.
Definition MEMMAP_ACPI_RECLAIMABLE : Z := 3.
Definition MEMMAP_ACPI_NVS : Z := 4.
Definition MEMMAP_BAD_MEMORY : Z := 5.
Definition MEMMAP_BOOTLOADER_RECLAIMABLE : Z := 0x1000.
Definition MEMMAP_KERNEL_AND_MODULES : Z := 0x1001.
Definition MEMMAP_FRAMEBUFFER : Z := 0x1002.
Definition MEMMAP_EFI_RECLAIMABLE : Z := 0x2000.

Definition PAGE_SIZE : Z := 4096.

(** The rounding macros at type [uint64_t]. *)
Definition DIV_ROUNDUP (a b : Z) : Z := u64 (a + u64 (b - 1)) / b.
Definition ALIGN_UP (x a : Z) : Z := u64 (DIV_ROUNDUP x a * a).
Definition ALIGN_DOWN (x a : Z) : Z := u64 (x / a * a).

Abbreviation mmap := (list memmap_entry).
Abbreviation M := (ST mmap).

Definition stuck {S A} : ST S A := fun _ => Stuck.

(** Reading and writing a slot, the count, and [m[count++] = e]. *)
Definition get (i : nat) : M memmap_entry := fun m =>
  match m !! i with Some e => Ret m e | None => Stuck end.
Definition set (i : nat) (e : memmap_entry) : M unit := fun m =>
  if (i <? length m)%nat then Ret (<[i := e]> m) tt else Stuck.
Definition get_count : M nat := fun m => Ret m (length m).
Definition push (e : memmap_entry) : M unit := fun m => Ret (m ++ [e]) tt.

(** [m[i] = m[count - 1]; count--] *)
Definition remove (i : nat) : M unit := fun m =>
  match last m with
  | Some e => Ret (take (length m - 1) (<[i := e]> m)) tt
  | None => Stuck
  end.
(** The loop that moves the entries from [i + 1] on down by one, and [count--]. *)
Definition eradicate (i : nat) : M unit := fun m => Ret (delete i m) tt.

(** [base + length] *)
Definition e_top (e : memmap_entry) : Z := u64 (e_base e + e_length e).

Definition memmap_type (type : Z) : string :=
  if type =? MEMMAP_USABLE then "Usable RAM"
  else if type =? MEMMAP_RESERVED then "Reserved"
  else if type =? MEMMAP_ACPI_RECLAIMABLE then "ACPI reclaimable"
  else if type =? MEMMAP_ACPI_NVS then "ACPI NVS"
  else if type =? MEMMAP_BAD_MEMORY then "Bad memory"
  else if type =? MEMMAP_FRAMEBUFFER then "Framebuffer"
  else if type =? MEMMAP_BOOTLOADER_RECLAIMABLE then "Bootloader reclaimable"
  else if type =? MEMMAP_KERNEL_AND_MODULES then "Kernel/Modules"
  else if type =? MEMMAP_EFI_RECLAIMABLE then "EFI reclaimable"
  else "???".

(** ** Sanitising *)

(** The new base and length, and the result.  The test [!length] after the
    rounding is on the pointer and never holds. *)
Definition align_entry (base length : Z) : Z * Z * bool :=
  if length <? PAGE_SIZE then (base, length, false)
  else
    let orig_base := base in
    let base := ALIGN_UP base PAGE_SIZE in
    let length := u64 (length - u64 (base - orig_base)) in
    (base, ALIGN_DOWN length PAGE_SIZE, true).

(** What is left of the usable entry [e] after a look at another entry [r]; [None]
    if the code panics. *)
Definition clip (e r : memmap_entry) : option memmap_entry :=
  let base := e_base e in
  let top := e_top e in
  let res_base := e_base r in
  let res_top := e_top r in
  if ((base <=? res_base) && (res_base <? top)) && ((base <=? res_top) && (res_top <? top)) then None
  else
    let top := if (base <=? res_base) && (res_base <? top) then res_base else top in
    let base := if (base <=? res_top) && (res_top <? top) then res_top else base in
    Some (Entry base (u64 (top - base)) (e_type e)).

(** The loop over [j], with [n] iterations left. *)
Fixpoint clip_loop (n i j : nat) : M unit :=
  match n with
  | O => mret tt
  | S n' =>
      if (j =? i)%nat then clip_loop n' i (S j)
      else
        e ← get i; r ← get j;
        match clip e r with
        | None => throw "A non-usable memory map entry is inside a usable section."
        | Some e' => _ ← set i e'; clip_loop n' i (S j)
        end
  end.

(** [!m[i].length || (align_entries && !align_entry(...))], negated *)
Definition keep_entry (i : nat) (align_entries : bool) : M bool :=
  e ← get i;
  if e_length e =? 0 then mret false
  else if align_entries then
    let '(b, l, ok) := align_entry (e_base e) (e_length e) in
    _ ← set i (Entry b l (e_type e)); mret ok
  else mret true.

(** The first loop.  Removing entry [i] is followed by [i--] and [i++]. *)
Fixpoint overlap_loop (fuel i : nat) (align_entries : bool) : M unit :=
  match fuel with
  | O => stuck
  | S fuel' =>
      count ← get_count;
      if (i <? count)%nat then
        e ← get i;
        if negb (e_type e =? MEMMAP_USABLE) then overlap_loop fuel' (S i) align_entries
        else
          _ ← clip_loop count i 0;
          keep ← keep_entry i align_entries;
          if (keep : bool) then overlap_loop fuel' (S i) align_entries
          else _ ← remove i; overlap_loop fuel' i align_entries
      else mret tt
  end.

(** The second loop: usable entries of length 0 and usable memory below 0x1000. *)
Fixpoint drop_loop (fuel i : nat) (keep_first_page : bool) : M unit :=
  match fuel with
  | O => stuck
  | S fuel' =>
      count ← get_count;
      if (i <? count)%nat then
        e ← get i;
        if negb (e_type e =? MEMMAP_USABLE) then drop_loop fuel' (S i) keep_first_page
        else
          if negb keep_first_page && (e_base e <? 0x1000) && (e_top e <=? 0x1000) then
            _ ← remove i; drop_loop fuel' i keep_first_page
          else
            _ ← (if negb keep_first_page && (e_base e <? 0x1000)
                 then set i (Entry 0x1000 (u64 (e_length e - u64 (0x1000 - e_base e))) (e_type e))
                 else mret tt);
            e ← get i;
            if e_length e =? 0 then _ ← remove i; drop_loop fuel' i keep_first_page
            else drop_loop fuel' (S i) keep_first_page
      else mret tt
  end.

(** The index of the least base among the entries from [i] on. *)
Fixpoint min_loop (n i : nat) (min : Z) (min_index : nat) : M nat :=
  match n with
  | O => mret min_index
  | S n' =>
      e ← get i;
      if e_base e <? min then min_loop n' (S i) (e_base e) i
      else min_loop n' (S i) min min_index
  end.

(** The sort; the bound [count - 1] is a [size_t]. *)
Fixpoint sort_loop (fuel p : nat) : M unit :=
  match fuel with
  | O => stuck
  | S fuel' =>
      count ← get_count;
      if Z.of_nat p <? u64 (Z.of_nat count - 1) then
        e ← get p;
        min_index ← min_loop (count - p) p (e_base e) p;
        min_e ← get min_index;
        _ ← set min_index e;
        _ ← set p min_e;
        sort_loop fuel' (S p)
      else mret tt
  end.

(** The merge of contiguous entries. *)
Fixpoint merge_loop (fuel i : nat) : M unit :=
  match fuel with
  | O => stuck
  | S fuel' =>
      count ← get_count;
      if Z.of_nat i <? u64 (Z.of_nat count - 1) then
        e ← get i;
        if negb (e_type e =? MEMMAP_BOOTLOADER_RECLAIMABLE) && negb (e_type e =? MEMMAP_USABLE)
        then merge_loop fuel' (S i)
        else
          e' ← get (S i);
          if (e_type e' =? e_type e) && (e_base e' =? e_top e) then
            _ ← set i (Entry (e_base e) (u64 (e_length e + e_length e')) (e_type e));
            _ ← eradicate (S i);
            merge_loop fuel' i
          else merge_loop fuel' (S i)
      else mret tt
  end.

Definition pmm_sanitise_entries (keep_first_page align_entries : bool) : M unit :=
  n ← get_count;
  _ ← overlap_loop (S n) 0 align_entries;
  _ ← drop_loop (S n) 0 keep_first_page;
  _ ← sort_loop (S n) 0;
  merge_loop (S n) 0.

(** ** Claiming a range *)

Section max_entries.
Variable memmap_max_entries : Z.

(** The loop that makes room for [[base, top)].  Removing entry [i] is followed by
    [i--] and [i++]. *)
Fixpoint carve_loop (fuel i : nat) (base top : Z) : M unit :=
  match fuel with
  | O => stuck
  | S fuel' =>
      count ← get_count;
      if (i <? count)%nat then
        e ← get i;
        let entry_base := e_base e in
        let entry_top := e_top e in
        if (base <=? entry_base) && (entry_top <=? top) then
          _ ← remove i; carve_loop fuel' i base top
        else if (base <=? entry_base) && (top <? entry_top) && (entry_base <? top) then
          _ ← set i (Entry (u64 (entry_base + u64 (top - entry_base)))
                           (u64 (e_length e - u64 (top - entry_base))) (e_type e));
          carve_loop fuel' (S i) base top
        else if (entry_base <? base) && (base <? entry_top) && (entry_top <=? top) then
          _ ← set i (Entry entry_base (u64 (e_length e - u64 (entry_top - base))) (e_type e));
          carve_loop fuel' (S i) base top
        else if (entry_base <? base) && (top <? entry_top) then
          _ ← set i (Entry entry_base (u64 (e_length e - u64 (entry_top - base))) (e_type e));
          if memmap_max_entries <=? Z.of_nat count then throw "Memory map exhausted."
          else
            _ ← push (Entry top (u64 (entry_top - top)) (e_type e));
            carve_loop fuel' (S i) base top
        else carve_loop fuel' (S i) base top
      else mret tt
  end.

Definition pmm_new_entry (base length type : Z) : M bool :=
  let top := u64 (base + length) in
  n ← get_count;
  _ ← carve_loop (S (2 * n)) 0 base top;
  count ← get_count;
  if memmap_max_entries <=? Z.of_nat count then throw "Memory map exhausted."
  else _ ← push (Entry base length type); mret true.

(** How the loop of [memmap_alloc_range_in] is left. *)
Inductive search := NotFound | Simulated | Success.

Fixpoint alloc_loop (n i : nat) (base length type overlay_type : Z) (simulation : bool) : M search :=
  match n with
  | O => mret NotFound
  | S n' =>
      e ← get i;
      if negb (overlay_type =? 0) && negb (e_type e =? overlay_type)
      then alloc_loop n' (S i) base length type overlay_type simulation
      else if (e_base e <=? base) && (base <? e_top e) && (u64 (base + length) <=? e_top e) then
        if simulation then mret Simulated
        else
          ok ← pmm_new_entry base length type;
          if (ok : bool) then mret Success
          else alloc_loop n' (S i) base length type overlay_type simulation
      else alloc_loop n' (S i) base length type overlay_type simulation
  end.

Definition memmap_alloc_range_in (keep_first_page : bool) (base length type overlay_type : Z)
    (do_panic simulation new_entry : bool) : M bool :=
  if length =? 0 then mret true
  else if simulation && new_entry then mret true
  else
    count ← get_count;
    found ← alloc_loop count 0 base length type overlay_type simulation;
    match found with
    | Simulated => mret true
    | Success => _ ← pmm_sanitise_entries keep_first_page false; mret true
    | NotFound =>
        if negb new_entry && do_panic then throw "Memory allocation failure."
        else if negb new_entry then mret false
        else
          ok ← pmm_new_entry base length type;
          if negb ok then mret false
          else _ ← pmm_sanitise_entries keep_first_page false; mret true
    end.
End max_entries.

(** ** The allocator *)

(** An EFI memory descriptor, with the members the code reads. *)
Record EFI_MEMORY_DESCRIPTOR := MkDesc { Type_ : Z; PhysicalStart : Z; NumberOfPages : Z }.

Definition EfiReservedMemoryType : Z := 0.
Definition EfiBootServicesCode : Z := 3.
Definition EfiBootServicesData : Z := 4.
Definition EfiConventionalMemory : Z := 7.
Definition EfiACPIReclaimMemory : Z := 9.
Definition EfiACPIMemoryNVS : Z := 10.

(** The globals: the map and its capacity, the map kept for the kernel, the flags,
    the next address of [conv_mem_alloc], the firmware's memory map, the pages
    asked of the firmware (address and number), and the memory. *)
Record pmm := MkPmm {
  memmap : mmap;
  memmap_max_entries : Z;
  untouched_memmap : mmap;
  allocations_disallowed : bool;
  pmm_sanitiser_keep_first_page : bool;
  conv_base : Z;
  efi_mmap : list EFI_MEMORY_DESCRIPTOR;
  efi_boot_services_exited : bool;
  efi_calls : list (Z * Z);
  mem : Z -> Z }.

Abbreviation P := (ST pmm).

Definition set_memmap (s : pmm) (m : mmap) : pmm :=
  MkPmm m (memmap_max_entries s) (untouched_memmap s) (allocations_disallowed s)
    (pmm_sanitiser_keep_first_page s) (conv_base s) (efi_mmap s) (efi_boot_services_exited s)
    (efi_calls s) (mem s).
Definition set_untouched (m : mmap) : P unit := fun s =>
  Ret (MkPmm (memmap s) (memmap_max_entries s) m (allocations_disallowed s)
    (pmm_sanitiser_keep_first_page s) (conv_base s) (efi_mmap s) (efi_boot_services_exited s)
    (efi_calls s) (mem s)) tt.
Definition set_disallowed (b : bool) : P unit := fun s =>
  Ret (MkPmm (memmap s) (memmap_max_entries s) (untouched_memmap s) b
    (pmm_sanitiser_keep_first_page s) (conv_base s) (efi_mmap s) (efi_boot_services_exited s)
    (efi_calls s) (mem s)) tt.
Definition set_keep (b : bool) : P unit := fun s =>
  Ret (MkPmm (memmap s) (memmap_max_entries s) (untouched_memmap s) (allocations_disallowed s)
    b (conv_base s) (efi_mmap s) (efi_boot_services_exited s) (efi_calls s) (mem s)) tt.
Definition set_conv_base (b : Z) : P unit := fun s =>
  Ret (MkPmm (memmap s) (memmap_max_entries s) (untouched_memmap s) (allocations_disallowed s)
    (pmm_sanitiser_keep_first_page s) b (efi_mmap s) (efi_boot_services_exited s)
    (efi_calls s) (mem s)) tt.
Definition set_mem (f : Z -> Z) (s : pmm) : pmm :=
  MkPmm (memmap s) (memmap_max_entries s) (untouched_memmap s) (allocations_disallowed s)
    (pmm_sanitiser_keep_first_page s) (conv_base s) (efi_mmap s) (efi_boot_services_exited s)
    (efi_calls s) f.
Definition add_call (c : Z * Z) (s : pmm) : pmm :=
  MkPmm (memmap s) (memmap_max_entries s) (untouched_memmap s) (allocations_disallowed s)
    (pmm_sanitiser_keep_first_page s) (conv_base s) (efi_mmap s) (efi_boot_services_exited s)
    (efi_calls s ++ [c]) (mem s).

Definition read {A} (f : pmm -> A) : P A := fun s => Ret s (f s).

(** An operation on [memmap], or on [untouched_memmap]. *)
Definition on_memmap {A} (f : M A) : P A := fun s =>
  match f (memmap s) with
  | Ret m a => Ret (set_memmap s m) a
  | Throw m e => Throw (set_memmap s m) e
  | Stuck => Stuck
  end.

(** [memset(p, 0, count)] *)
Definition memset0 (p count : Z) : P unit := fun s =>
  Ret (set_mem (fun a => if (p <=? a) && (a <? p + count) then 0 else mem s a) s) tt.

Definition sanitise (align_entries : bool) : P unit :=
  keep ← read pmm_sanitiser_keep_first_page;
  on_memmap (pmm_sanitise_entries keep align_entries).

Definition memmap_alloc_range (base length type overlay_type : Z) (do_panic simulation new_entry : bool) : P bool :=
  max ← read memmap_max_entries;
  keep ← read pmm_sanitiser_keep_first_page;
  on_memmap (memmap_alloc_range_in max keep base length type overlay_type do_panic simulation new_entry).

(** The loop of [conv_mem_alloc]; [base] is a static variable. *)
Fixpoint conv_loop (fuel : nat) (count : Z) : P Z :=
  match fuel with
  | O => stuck
  | S fuel' =>
      base ← read conv_base;
      if 0x100000 <? u64 (base + count) then throw "Conventional memory allocation failed"
      else
        ok ← memmap_alloc_range base count MEMMAP_BOOTLOADER_RECLAIMABLE MEMMAP_USABLE false false false;
        if (ok : bool) then
          _ ← memset0 base count;
          _ ← set_conv_base (u64 (base + count));
          _ ← sanitise false;
          mret base
        else
          _ ← set_conv_base (u64 (base + 4096));
          conv_loop fuel' count
  end.

(** The addresses below 0x100000 have 256 pages. *)
Definition conv_mem_alloc (count : Z) : P Z :=
  no ← read allocations_disallowed;
  if (no : bool) then throw "Memory allocations disallowed"
  else conv_loop 257 (ALIGN_UP count 4096).

(** [int64_t] subtraction, undefined on overflow. *)
Definition sub64 (a b : Z) : P Z :=
  if (- 2 ^ 63 <=? a - b) && (a - b <? 2 ^ 63) then mret (a - b) else stuck.

(** The loop of the allocator, from entry [i - 1] down.  [ALIGN_DOWN] divides at
    type [size_t]. *)
Fixpoint ext_loop (i : nat) (count type alignment : Z) (allow_high_allocs : bool) : P Z :=
  match i with
  | O => throw "High memory allocator: Out of memory"
  | S i' =>
      e ← on_memmap (get i');
      if negb (e_type e =? 1) then ext_loop i' count type alignment allow_high_allocs
      else
        let entry_base := s64 (e_base e) in
        let entry_top := s64 (e_top e) in
        let clipped := (0x100000000 <=? entry_top) && negb allow_high_allocs in
        let entry_top := if clipped then 0x100000000 else entry_top in
        if clipped && (entry_top <=? entry_base) then ext_loop i' count type alignment allow_high_allocs
        else
          alloc_end ← sub64 entry_top (s64 count);
          let alloc_base := s64 (ALIGN_DOWN (u64 alloc_end) alignment) in
          if alloc_base <? entry_base then ext_loop i' count type alignment allow_high_allocs
          else
            aligned_length ← sub64 entry_top alloc_base;
            _ ← memmap_alloc_range (u64 alloc_base) (u64 aligned_length) type MEMMAP_USABLE true false false;
            _ ← memset0 (u64 alloc_base) count;
            _ ← sanitise false;
            mret (u64 alloc_base)
  end.

Definition ext_mem_alloc_type_aligned_mode (count type alignment : Z) (allow_high_allocs : bool) : P Z :=
  if alignment =? 0 then stuck
  else
    no ← read allocations_disallowed;
    if (no : bool) then throw "Memory allocations disallowed"
    else
      memmap_entries ← on_memmap get_count;
      ext_loop memmap_entries (ALIGN_UP count alignment) type alignment allow_high_allocs.

Definition ext_mem_alloc_type_aligned (count type alignment : Z) : P Z :=
  ext_mem_alloc_type_aligned_mode count type alignment false.
Definition ext_mem_alloc_type (count type : Z) : P Z := ext_mem_alloc_type_aligned count type 4096.
Definition ext_mem_alloc (count : Z) : P Z := ext_mem_alloc_type count MEMMAP_BOOTLOADER_RECLAIMABLE.

Definition pmm_free (ptr count : Z) : P unit :=
  let count := ALIGN_UP count 4096 in
  no ← read allocations_disallowed;
  if (no : bool) then throw "Memory allocations disallowed"
  else _ ← memmap_alloc_range ptr count MEMMAP_USABLE 0 false false true; mret tt.

(** ** Queries *)

(** [struct meminfo] *)
Record meminfo := MkInfo { uppermem : Z; lowermem : Z }.

Definition info_step (info : meminfo) (e : memmap_entry) : meminfo :=
  if e_type e =? MEMMAP_USABLE then
    if e_base e <? 0x100000 then
      if 0x100000 <? e_top e then
        let low_len := u64 (0x100000 - e_base e) in
        MkInfo (u64 (uppermem info + u64 (e_length e - low_len))) (u64 (lowermem info + low_len))
      else MkInfo (uppermem info) (u64 (lowermem info + e_length e))
    else MkInfo (u64 (uppermem info + e_length e)) (lowermem info)
  else info.

Definition mmap_get_info (m : mmap) : meminfo := foldl info_step (MkInfo 0 0) m.

Definition full_overlap_check (base1 top1 base2 top2 : Z) : bool :=
  ((base2 <=? base1) && (base1 <? top2)) && ((base2 <? top1) && (top1 <=? top2)).

(** The entries [check_usable_memory] takes for memory. *)
Definition is_ram (type : Z) : bool :=
  (type =? MEMMAP_USABLE) || (type =? MEMMAP_EFI_RECLAIMABLE)
  || (type =? MEMMAP_BOOTLOADER_RECLAIMABLE) || (type =? MEMMAP_KERNEL_AND_MODULES).

Fixpoint usable_loop (m : mmap) (base top overlap_remaining : Z) : bool :=
  match m with
  | [] => false
  | e :: m' =>
      if negb (is_ram (e_type e)) then usable_loop m' base top overlap_remaining
      else
        let memmap_top := e_top e in
        if full_overlap_check base top (e_base e) memmap_top then true
        else
          let base_in := (base <=? e_base e) && (e_base e <? top) in
          let top_in := (base <? memmap_top) && (memmap_top <=? top) in
          if base_in || top_in then
            let overlap_bottom := if base_in then e_base e else base in
            let overlap_top := if top_in then memmap_top else top in
            let overlap_remaining := u64 (overlap_remaining - u64 (overlap_top - overlap_bottom)) in
            if overlap_remaining =? 0 then true else usable_loop m' base top overlap_remaining
          else usable_loop m' base top overlap_remaining
  end.

Definition check_usable_memory (m : mmap) (base top : Z) : bool :=
  usable_loop m base top (u64 (top - base)).

(** ** The firmware's memory map *)

(** The part of the firmware's descriptor [d] inside the entry [r] as base and size,
    if the code goes on to claim it. *)
Definition reclaim_range (r : memmap_entry) (d : EFI_MEMORY_DESCRIPTOR) : option (Z * Z) :=
  let base := e_base r in
  let top := e_top r in
  let efi_base := PhysicalStart d in
  let efi_size := u64 (NumberOfPages d * 4096) in
  let below := efi_base <? base in
  if below && (efi_size <=? u64 (base - efi_base)) then None
  else
    let efi_size := if below then u64 (efi_size - u64 (base - efi_base)) else efi_size in
    let efi_base := if below then base else efi_base in
    let efi_top := u64 (efi_base + efi_size) in
    let above := top <? efi_top in
    if above && (efi_size <=? u64 (efi_top - top)) then None
    else
      let efi_size := if above then u64 (efi_size - u64 (efi_top - top)) else efi_size in
      let efi_top := if above then top else efi_top in
      if negb ((base <=? efi_base) && (efi_base <? top) && (base <? efi_top) && (efi_top <=? top))
      then None
      else Some (efi_base, efi_size).

(** The type of reclaimed memory. *)
Definition reclaim_type (type : Z) : Z :=
  if (type =? EfiBootServicesCode) || (type =? EfiBootServicesData) || (type =? EfiConventionalMemory)
  then MEMMAP_USABLE
  else if type =? EfiACPIReclaimMemory then MEMMAP_ACPI_RECLAIMABLE
  else if type =? EfiACPIMemoryNVS then MEMMAP_ACPI_NVS
  else MEMMAP_RESERVED.

Fixpoint reclaim_entry (max : Z) (keep : bool) (r : memmap_entry) (ds : list EFI_MEMORY_DESCRIPTOR) : M unit :=
  match ds with
  | [] => mret tt
  | d :: ds' =>
      _ ← match reclaim_range r d with
          | None => mret true
          | Some (efi_base, efi_size) =>
              memmap_alloc_range_in max keep efi_base efi_size (reclaim_type (Type_ d)) 0 true false false
          end;
      reclaim_entry max keep r ds'
  end.

Fixpoint reclaim_loop (max : Z) (keep : bool) (recl : mmap) (ds : list EFI_MEMORY_DESCRIPTOR) : M unit :=
  match recl with
  | [] => mret tt
  | r :: recl' => _ ← reclaim_entry max keep r ds; reclaim_loop max keep recl' ds
  end.

(** The entries copied to the array [recl] of 1024 entries. *)
Definition reclaimable (m : mmap) : mmap := List.filter (fun e => e_type e =? MEMMAP_EFI_RECLAIMABLE) m.

(** [pmm_reclaim_uefi_mem] but for its assignment to [allocations_disallowed]. *)
Definition pmm_reclaim_uefi_mem (max : Z) (keep : bool) (ds : list EFI_MEMORY_DESCRIPTOR) : M unit := fun m =>
  let recl := reclaimable m in
  if (1024 <? length recl)%nat then Stuck
  else (_ ← reclaim_loop max keep recl ds; pmm_sanitise_entries keep false) m.

Definition get_memmap : P mmap :=
  exited ← read efi_boot_services_exited;
  if negb exited then throw "get_memmap called whilst in boot services"
  else
    max ← read memmap_max_entries;
    keep ← read pmm_sanitiser_keep_first_page;
    ds ← read efi_mmap;
    _ ← on_memmap (pmm_reclaim_uefi_mem max keep ds);
    _ ← set_disallowed true;
    _ ← sanitise true;
    m ← read memmap;
    _ ← set_disallowed true;
    mret m.

Definition get_raw_memmap : P mmap :=
  exited ← read efi_boot_services_exited;
  if negb exited then throw "get_raw_memmap called whilst in boot services"
  else
    old_skfp ← read pmm_sanitiser_keep_first_page;
    _ ← set_keep true;
    max ← read memmap_max_entries;
    ds ← read efi_mmap;
    m ← read untouched_memmap;
    _ ← match pmm_reclaim_uefi_mem max true ds m with
        | Ret m' _ => set_untouched m'
        | Throw m' e => fun s => Throw s e
        | Stuck => stuck
        end;
    _ ← set_disallowed true;
    _ ← set_keep old_skfp;
    read untouched_memmap.

(** The type of an entry of the firmware's map. *)
Definition our_type (type : Z) : Z :=
  if (type =? EfiBootServicesCode) || (type =? EfiBootServicesData) then MEMMAP_EFI_RECLAIMABLE
  else if type =? EfiACPIReclaimMemory then MEMMAP_ACPI_RECLAIMABLE
  else if type =? EfiACPIMemoryNVS then MEMMAP_ACPI_NVS
  else if type =? EfiConventionalMemory then MEMMAP_USABLE
  else MEMMAP_RESERVED.

(** What the firmware answers: the size of the map at the first call, the size of a
    descriptor, whether its buffers can be allocated and the map be read, the map,
    and whether it gives or takes back pages (address and number), which may depend
    on the calls before. *)
Record firmware := MkFirmware {
  first_mmap_size : Z;
  efi_desc_size : Z;
  pools_ok : bool;
  map_ok : bool;
  fw_mmap : list EFI_MEMORY_DESCRIPTOR;
  AllocatePages : list (Z * Z) -> Z -> Z -> bool;
  FreePages : Z -> Z -> bool }.

(** The loop that copies the firmware's map. *)
Fixpoint fill_loop (max : Z) (ds : list EFI_MEMORY_DESCRIPTOR) : M unit :=
  match ds with
  | [] => mret tt
  | d :: ds' =>
      if NumberOfPages d =? 0 then fill_loop max ds'
      else
        count ← get_count;
        if max <=? Z.of_nat count then stuck
        else
          _ ← push (Entry (PhysicalStart d) (u64 (NumberOfPages d * 4096)) (our_type (Type_ d)));
          fill_loop max ds'
  end.

Fixpoint leave_loop (n : nat) : P unit :=
  match n with
  | O => mret tt
  | S n' => _ ← ext_mem_alloc_type 0x100000 MEMMAP_EFI_RECLAIMABLE; leave_loop n'
  end.

Section boot.
Variable fw : firmware.

Definition allocate_pages (base pages : Z) : P bool := fun s =>
  Ret (add_call (base, pages) s) (AllocatePages fw (efi_calls s) base pages).

(** Page by page, from offset [j] of an entry the firmware did not give as a whole. *)
Fixpoint page_loop (fuel : nat) (base length j : Z) : P unit :=
  match fuel with
  | O => stuck
  | S fuel' =>
      if j <? length then
        let b := u64 (base + j) in
        ok ← allocate_pages b 1;
        _ ← (if (ok : bool) then mret true
             else memmap_alloc_range b 4096 MEMMAP_EFI_RECLAIMABLE MEMMAP_USABLE true false false);
        page_loop fuel' base length (u64 (j + 4096))
      else mret tt
  end.

Fixpoint own_loop (m : mmap) : P unit :=
  match m with
  | [] => mret tt
  | e :: m' =>
      if negb (e_type e =? MEMMAP_USABLE) then own_loop m'
      else
        ok ← allocate_pages (e_base e) (e_length e / 4096);
        _ ← (if (ok : bool) then mret tt
             else page_loop (S (Z.to_nat (e_length e / 4096 + 1))) (e_base e) (e_length e) 0);
        own_loop m'
  end.

(** The second half of [init_memmap], after allocations are allowed; [slide] and
    [image_size] are the address and size of the loaded image. *)
Definition own_memory (slide image_size : Z) : P unit :=
  _ ← leave_loop 64;
  m ← read memmap;
  _ ← set_untouched m;
  _ ← own_loop m;
  m ← read memmap;
  _ ← set_untouched m;
  _ ← memmap_alloc_range slide (ALIGN_UP image_size 4096) MEMMAP_BOOTLOADER_RECLAIMABLE 0 true false true;
  _ ← sanitise false;
  _ ← ext_mem_alloc (1024 * 24);
  mret tt.

Definition init_memmap (slide image_size : Z) : P unit := fun s =>
  let max := u64 (first_mmap_size fw / efi_desc_size fw + 512) in
  let s := MkPmm [] max (untouched_memmap s) (allocations_disallowed s) (pmm_sanitiser_keep_first_page s)
    (conv_base s) (fw_mmap fw) (efi_boot_services_exited s) (efi_calls s) (mem s) in
  if negb (pools_ok fw && map_ok fw) then Throw s "pmm: Failure initialising memory map"
  else
    (_ ← on_memmap (fill_loop max (fw_mmap fw));
     _ ← sanitise false;
     _ ← set_disallowed false;
     own_memory slide image_size) s.

Fixpoint release_loop (m : mmap) : P unit :=
  match m with
  | [] => mret tt
  | e :: m' =>
      if negb (e_type e =? MEMMAP_USABLE) && negb (e_type e =? MEMMAP_BOOTLOADER_RECLAIMABLE)
      then release_loop m'
      else if FreePages fw (e_base e) (e_length e / 4096) then release_loop m'
      else throw "pmm: FreePages failure"
  end.

Definition pmm_release_uefi_mem : P unit :=
  m ← read untouched_memmap;
  _ ← release_loop m;
  set_disallowed true.
End boot.

End Pmm.
