(* ===== verification/PmmFacts.v ===== *)
(** * Facts about memory maps

    The types a memory map gives to an address, and the effect of the loops of
    [pmm_new_entry] and [pmm_sanitise_entries] on them. *)

From S2P Require Import Prelude Effects Pmm.

Module PmmFacts.
Import Effects Pmm.
Open Scope string_scope.
Open Scope list_scope.
Open Scope Z_scope.

(** Removes wrap-arounds that have no effect, innermost first. *)
Ltac unwrap :=
  repeat match goal with
  | |- context [wrap ?w ?x] =>
      lazymatch x with
      | context [wrap _ _] => fail
      | _ => rewrite (wrap_small w x) by (unfold in_u; lia)
      end
  end.

(** ** What a map says of an address *)

(** [e] contains the address [a]. *)
Definition covers (e : memmap_entry) (a : Z) : Prop := e_base e <= a < e_base e + e_length e.
#[export] Instance covers_dec e a : Decision (covers e a).
Proof. unfold covers. apply _. Defined.

(** The types of the entries that contain [a]. *)
Definition piece (e : memmap_entry) (a : Z) : list Z := if decide (covers e a) then [e_type e] else [].
Definition types_at (m : mmap) (a : Z) : list Z := m ≫= fun e => piece e a.

(** Entries that do not reach the end of the address space, possibly empty. *)
Definition ent_wf (e : memmap_entry) : Prop := 0 <= e_base e /\ 0 <= e_length e /\ e_base e + e_length e < 2 ^ 64.
Definition ent_ok (e : memmap_entry) : Prop := ent_wf e /\ 0 < e_length e.

(** No address has two types. *)
Definition disjoint (m : mmap) : Prop := forall a, (length (types_at m a) <= 1)%nat.

(** The invariant of the maps the allocator works on. *)
Definition mm_ok (m : mmap) : Prop := Forall ent_ok m /\ disjoint m.

(** Two maps that say the same. *)
Definition same (m m' : mmap) : Prop := forall a, types_at m a ≡ₚ types_at m' a.
#[export] Instance same_equiv : Equivalence same.
Proof.
  split; [by intros ??|intros ?? H a; symmetry; apply H|].
  intros ? y ? H1 H2 a. transitivity (types_at y a); [apply H1|apply H2].
Qed.

Lemma types_at_cons e m a : types_at (e :: m) a = piece e a ++ types_at m a.
Proof. done. Qed.
Lemma types_at_app m m' a : types_at (m ++ m') a = types_at m a ++ types_at m' a.
Proof. unfold types_at. apply bind_app. Qed.
Lemma types_at_one e a : types_at [e] a = piece e a.
Proof. unfold types_at. simpl. apply app_nil_r. Qed.

#[export] Instance types_at_perm : Proper ((≡ₚ) ==> eq ==> (≡ₚ)) types_at.
Proof. intros m m' H a ? <-. unfold types_at. by rewrite H. Qed.

Lemma perm_same m m' : m ≡ₚ m' -> same m m'.
Proof. intros H a. by rewrite H. Qed.

#[export] Instance disjoint_same : Proper (same ==> iff) disjoint.
Proof. intros m m' H. unfold disjoint. split; intros Hd a; [rewrite <- (H a)|rewrite (H a)]; apply Hd. Qed.

Lemma piece_in e a : covers e a -> piece e a = [e_type e].
Proof. intros. unfold piece. by rewrite decide_True. Qed.
Lemma piece_out e a : ~ covers e a -> piece e a = [].
Proof. intros. unfold piece. by rewrite decide_False. Qed.

Lemma types_at_elem m a t : t ∈ types_at m a <-> exists e, e ∈ m /\ covers e a /\ e_type e = t.
Proof.
  unfold types_at. rewrite list_elem_of_bind. split.
  - intros (e & H & He). exists e. unfold piece in H. case_decide; [|by apply elem_of_nil in H].
    apply list_elem_of_singleton in H. done.
  - intros (e & He & Hc & <-). exists e. rewrite piece_in by done. split; [|done]. by apply list_elem_of_singleton.
Qed.

Lemma types_at_nil m a : (forall e, e ∈ m -> ~ covers e a) -> types_at m a = [].
Proof.
  intros H. destruct (types_at m a) as [|t l] eqn:E; [done|].
  assert (Ht : t ∈ types_at m a) by (rewrite E; left). apply types_at_elem in Ht as (e & He & Hc & _).
  by destruct (H e He).
Qed.

(** ** Slots *)

Lemma e_top_wf e : ent_wf e -> e_top e = e_base e + e_length e.
Proof. intros (? & ? & ?). unfold e_top. apply wrap_small. unfold in_u. lia. Qed.

Lemma insert_perm (m : mmap) i e e' : m !! i = Some e -> <[i := e']> m ≡ₚ e' :: delete i m.
Proof.
  intros H. apply lookup_lt_Some in H as Hl.
  rewrite (delete_Permutation (<[i := e']> m) i e') by by rewrite list_lookup_insert_eq.
  f_equiv. rewrite !delete_take_drop.
  by rewrite take_insert_ge, drop_insert_lt by lia.
Qed.

Lemma types_at_lookup m i e a : m !! i = Some e -> types_at m a ≡ₚ piece e a ++ types_at (delete i m) a.
Proof. intros H. by rewrite (delete_Permutation _ _ _ H) at 1. Qed.

Lemma types_at_insert m i e e' a :
  m !! i = Some e -> types_at (<[i := e']> m) a ≡ₚ piece e' a ++ types_at (delete i m) a.
Proof. intros H. by rewrite (insert_perm _ _ _ e' H). Qed.

(** Changing an entry where it does not matter. *)
Lemma types_at_insert_same m i e e' a :
  m !! i = Some e -> piece e' a = piece e a -> types_at (<[i := e']> m) a ≡ₚ types_at m a.
Proof. intros H Hp. rewrite (types_at_insert _ _ _ _ _ H), (types_at_lookup _ _ _ a H). by rewrite Hp. Qed.

(** Taking out the entry at [i], with the last one in its place. *)
Lemma remove_perm (m : mmap) i e :
  m !! i = Some e ->
  exists m', remove i m = Ret m' tt /\ m' ≡ₚ delete i m /\ take i m' = take i m /\ length m' = (length m - 1)%nat.
Proof.
  intros H. apply lookup_lt_Some in H as Hl.
  destruct (last m) as [l|] eqn:El; [|by apply last_None in El as ->].
  unfold remove. rewrite El. eexists. split; [done|].
  assert (Hlen : length (take (length m - 1) (<[i := l]> m)) = (length m - 1)%nat)
    by (rewrite length_take, length_insert; lia).
  split; [|split; [|done]].
  - rewrite last_lookup in El. destruct (decide (i = pred (length m))) as [->|Hne].
    + rewrite El in H. simplify_eq. rewrite list_insert_id by done.
      replace (length m - 1)%nat with (pred (length m)) by lia.
      rewrite delete_take_drop, (drop_ge m) by lia. by rewrite app_nil_r.
    + assert (Hm : m = take (length m - 1) m ++ [l]).
      { rewrite <- (take_drop (length m - 1) m) at 1. f_equal.
        replace (length m - 1)%nat with (pred (length m)) by lia.
        rewrite (drop_S _ l (pred (length m))) by done. rewrite drop_ge by lia. done. }
      set (m1 := take (length m - 1) m) in *.
      assert (Hm1 : length m1 = (length m - 1)%nat) by (unfold m1; rewrite length_take; lia).
      rewrite <- Hm1, Hm at 1. rewrite insert_app_l by lia. rewrite take_app_le by (rewrite length_insert; lia).
      rewrite take_ge by (rewrite length_insert; lia).
      assert (H1 : m1 !! i = Some e) by (rewrite Hm, lookup_app_l in H by lia; done).
      rewrite (insert_perm _ _ _ l H1). apply (Permutation_cons_inv (a := e)).
      rewrite <- (delete_Permutation _ _ _ H), Hm at 1. rewrite (delete_Permutation _ _ _ H1) at 2.
      rewrite <- Permutation_cons_append. apply Permutation_swap.
  - rewrite take_take, Nat.min_l by lia. by rewrite take_insert_ge by lia.
Qed.

Lemma remove_spec (m : mmap) i e :
  m !! i = Some e ->
  exists m', remove i m = Ret m' tt /\ m' ≡ₚ delete i m /\ take i m' = take i m /\ drop i m' ≡ₚ drop (S i) m /\
    length m' = (length m - 1)%nat.
Proof.
  intros H. destruct (remove_perm _ _ _ H) as (m' & E & Hp & Ht & Hl). exists m'. do 3 (split; [done|]). split; [|done].
  apply (Permutation_app_inv_l (take i m)). rewrite <- delete_take_drop, <- Hp, <- Ht at 1. by rewrite take_drop.
Qed.

Lemma take_S_insert (m : mmap) i e : (i < length m)%nat -> take (S i) (<[i := e]> m) = take i m ++ [e].
Proof.
  intros H. rewrite (take_S_r _ _ e) by by rewrite list_lookup_insert_eq. by rewrite take_insert_ge by lia.
Qed.

Lemma wp_get i (Q : memmap_entry -> mmap -> Prop) E m e : m !! i = Some e -> Q e m -> wp (get i) Q E m.
Proof. intros H HQ. unfold wp, get. by rewrite H. Qed.
Lemma wp_set i e (Q : unit -> mmap -> Prop) E m : (i < length m)%nat -> Q tt (<[i := e]> m) -> wp (set i e) Q E m.
Proof. intros H HQ. unfold wp, set. by rewrite (proj2 (Nat.ltb_lt _ _) H). Qed.
Lemma wp_push e (Q : unit -> mmap -> Prop) E m : Q tt (m ++ [e]) -> wp (push e) Q E m.
Proof. done. Qed.
Lemma wp_count (Q : nat -> mmap -> Prop) E m : Q (length m) m -> wp get_count Q E m.
Proof. done. Qed.
Lemma wp_remove i e (Q : unit -> mmap -> Prop) E m :
  m !! i = Some e ->
  (forall m', m' ≡ₚ delete i m -> take i m' = take i m -> drop i m' ≡ₚ drop (S i) m ->
    length m' = (length m - 1)%nat -> Q tt m') ->
  wp (remove i) Q E m.
Proof. intros H HQ. destruct (remove_spec _ _ _ H) as (m' & Er & ? & ? & ? & ?). unfold wp. rewrite Er. eauto. Qed.

(** ** Making room for a range *)

Section carve.
Variables (max base top : Z).
Hypothesis Hrange : 0 <= base < top /\ top < 2 ^ 64.

Definition clear (e : memmap_entry) : Prop := e_base e + e_length e <= base \/ top <= e_base e.

(** [e] sticks out of the range on both sides; the number of such entries. *)
Definition nested (e : memmap_entry) : bool := (e_base e <? base) && (top <? e_base e + e_length e).
Definition nests (m : mmap) : nat := sum_list_with (fun e => if nested e then 1 else 0)%nat m.

#[local] Instance nests_perm : Proper ((≡ₚ) ==> eq) nests.
Proof. intros m m' H. unfold nests. induction H; simpl; lia. Qed.

Lemma nests_app m m' : nests (m ++ m') = (nests m + nests m')%nat.
Proof. unfold nests. apply sum_list_with_app. Qed.

(** In a map without overlaps one entry at most is split. *)
Lemma nests_disjoint m : disjoint m -> (nests m <= 1)%nat.
Proof.
  intros Hd. specialize (Hd base). etrans; [|exact Hd]. clear Hd.
  induction m as [|e m IH]; [done|]. rewrite types_at_cons, length_app. unfold nests. simpl.
  fold (nests m). unfold nested. destruct (e_base e <? base) eqn:E1; simpl; [|lia].
  destruct (top <? e_base e + e_length e) eqn:E2; simpl; [|lia].
  rewrite piece_in by (unfold covers; lia). simpl. lia.
Qed.

(** What the loop establishes from entry [i] on. *)
Definition carved (m : mmap) (i : nat) (m' : mmap) : Prop :=
  Forall ent_ok m' /\ Forall clear m' /\
  (forall a, ~ (base <= a < top) -> types_at m' a ≡ₚ types_at m a) /\
  (length m' <= length m + nests (drop i m))%nat.

Lemma carved_trans m i m1 j m' :
  carved m1 j m' -> (forall a, ~ (base <= a < top) -> types_at m1 a ≡ₚ types_at m a) ->
  (length m1 + nests (drop j m1) <= length m + nests (drop i m))%nat -> carved m i m'.
Proof.
  intros (H1 & H2 & H3 & H4) Ht Hl. split; [done|]. split; [done|]. split; [|lia].
  intros a Ha. by rewrite (H3 a Ha), (Ht a Ha).
Qed.

Lemma nests_drop m i e : m !! i = Some e ->
  nests (drop i m) = ((if nested e then 1 else 0) + nests (drop (S i) m))%nat.
Proof. intros H. by rewrite (drop_S _ _ _ H). Qed.

(** The entry at [i] is replaced, and maybe a remainder appended. *)
Lemma advance_set m i e e' :
  Forall ent_ok m -> Forall clear (take i m) -> m !! i = Some e -> ent_ok e' -> clear e' ->
  Forall ent_ok (<[i := e']> m) /\ Forall clear (take (S i) (<[i := e']> m)) /\
  drop (S i) (<[i := e']> m) = drop (S i) m.
Proof.
  intros Hm Hc He H1 H2. apply lookup_lt_Some in He as Hl. split; [by apply Forall_insert|].
  rewrite take_S_insert, drop_insert_lt by lia. split; [|done]. apply Forall_app. by rewrite Forall_singleton.
Qed.

Ltac covers_tac := unfold piece, covers; cbn [e_base e_length e_type]; repeat case_decide; try done; exfalso; lia.

(** The loop from entry [i] on, with enough fuel; [failed] when the map is full. *)
Definition failed (m : mmap) (i : nat) (m' : mmap) : Prop :=
  ~ zlen m + Z.of_nat (nests (drop i m)) <= max /\ max <= zlen m'.
Definition carve_spec (fuel : nat) : Prop := forall i m,
  Forall ent_ok m -> Forall clear (take i m) -> (length (drop i m) + nests (drop i m) < fuel)%nat ->
  wp (carve_loop max fuel i base top) (fun _ m' => carved m i m') (failed m i) m.

(** Going on after a change that keeps the map outside of the range. *)
Lemma carve_go fuel m i m1 j :
  carve_spec fuel -> (length (drop i m) + nests (drop i m) < S fuel)%nat ->
  Forall ent_ok m1 -> Forall clear (take j m1) ->
  (length (drop j m1) + nests (drop j m1) < length (drop i m) + nests (drop i m))%nat ->
  (length m1 + nests (drop j m1) <= length m + nests (drop i m))%nat ->
  (forall a, ~ (base <= a < top) -> types_at m1 a ≡ₚ types_at m a) ->
  wp (carve_loop max fuel j base top) (fun _ m' => carved m i m') (failed m i) m1.
Proof.
  intros IH Hf H1 H2 H3 H4 H5. eapply wp_mono; [apply IH; [done|done|lia]| |].
  - intros [] m'. by intros; eapply carved_trans.
  - intros h [? ?]. split; lia.
Qed.

Lemma drop_length_S {A} (m : list A) i : (i < length m)%nat -> length (drop i m) = S (length (drop (S i) m)).
Proof. intros. rewrite !length_drop. lia. Qed.

(** Shaving an entry off. *)
Lemma carve_shave fuel m i e e' :
  carve_spec fuel -> (length (drop i m) + nests (drop i m) < S fuel)%nat ->
  Forall ent_ok m -> Forall clear (take i m) -> m !! i = Some e -> ent_ok e' -> clear e' ->
  (forall a, ~ (base <= a < top) -> piece e' a = piece e a) ->
  wp (_ ← set i e'; carve_loop max fuel (S i) base top) (fun _ m' => carved m i m') (failed m i) m.
Proof.
  intros IH Hf Hm Hc He H1 H2 Hp. apply lookup_lt_Some in He as Hl. apply wp_bind, wp_set; [done|].
  destruct (advance_set m i e e') as (? & ? & Edr); [done..|].
  pose proof (nests_drop _ _ _ He). pose proof (drop_length_S m i Hl).
  apply carve_go; rewrite ?Edr, ?length_insert; [done|done|done|done|destruct (nested e); lia|lia|].
  intros a Ha. eapply types_at_insert_same; [done|]. by apply Hp.
Qed.

(** Splitting an entry in two. *)
Lemma carve_split fuel m i e e' e2 :
  carve_spec fuel -> (length (drop i m) + nests (drop i m) < S fuel)%nat ->
  Forall ent_ok m -> Forall clear (take i m) -> m !! i = Some e -> ent_ok e' -> clear e' -> ent_ok e2 ->
  nested e = true -> nested e2 = false ->
  (forall a, ~ (base <= a < top) -> piece e2 a ++ piece e' a = piece e a) ->
  wp (_ ← set i e';
      if max <=? Z.of_nat (length m) then throw "Memory map exhausted."
      else _ ← push e2; carve_loop max fuel (S i) base top)
    (fun _ m' => carved m i m') (failed m i) m.
Proof.
  intros IH Hf Hm Hc He H1 H2 H3 En En2 Hp. apply lookup_lt_Some in He as Hl. apply wp_bind, wp_set; [done|].
  destruct (advance_set m i e e') as (? & ? & Edr); [done..|].
  pose proof (nests_drop _ _ _ He) as Hn. rewrite En in Hn. pose proof (drop_length_S m i Hl).
  destruct (max <=? Z.of_nat (length m)) eqn:Emax; [apply wp_throw; split; rewrite ?length_insert; lia|].
  apply wp_bind, wp_push.
  assert (nests [e2] = O) by (unfold nests; simpl; by rewrite En2).
  apply carve_go; rewrite ?drop_app_le, ?take_app_le, ?nests_app, ?Edr, ?length_app, ?length_insert
    by (rewrite length_insert; lia); [done|done| |done|cbn [length]; lia|cbn [length]; lia|].
  - apply Forall_app. by rewrite Forall_singleton.
  - intros a Ha. rewrite types_at_app, types_at_one, (types_at_insert _ _ _ e' a He), (types_at_lookup _ _ _ a He).
    by rewrite Permutation_app_comm, app_assoc, Hp.
Qed.

Lemma carve_loop_wp fuel : carve_spec fuel.
Proof.
  induction fuel as [|fuel IH]; intros i m Hm Hc Hf; [lia|]. simpl.
  apply wp_bind, wp_count. destruct (i <? length m)%nat eqn:Ei; [apply Nat.ltb_lt in Ei|apply Nat.ltb_ge in Ei].
  2:{ apply wp_ret. rewrite take_ge in Hc by lia. unfold carved. rewrite drop_ge by lia.
      split_and!; [done|done|done|unfold nests; simpl; lia]. }
  destruct (lookup_lt_is_Some_2 m i Ei) as [e He]. apply wp_bind. eapply wp_get; [exact He|].
  assert (Hok : ent_ok e) by by eapply Forall_lookup_1.
  destruct Hok as [Hwf Hpos]. rewrite (e_top_wf e Hwf). destruct Hwf as (Hb & _ & Ht).
  pose proof (nests_drop _ _ _ He) as Hn. pose proof (drop_length_S m i Ei).
  destruct ((base <=? e_base e) && (e_base e + e_length e <=? top)) eqn:E1.
  { apply wp_bind. eapply wp_remove; [exact He|]. intros m' Hp Htk Hdr Hl.
    apply carve_go; rewrite ?Hdr, ?Htk, ?Hl; [done|done| |done|lia|lia|].
    - rewrite Hp. by apply Forall_delete.
    - intros a Ha. rewrite Hp, (types_at_lookup _ _ _ a He). by rewrite piece_out by (unfold covers; lia). }
  destruct ((base <=? e_base e) && (top <? e_base e + e_length e) && (e_base e <? top)) eqn:E2.
  { unwrap. eapply carve_shave; [done..|unfold ent_ok, ent_wf; simpl; lia|right; simpl; lia|]. intros a Ha. covers_tac. }
  destruct ((e_base e <? base) && (base <? e_base e + e_length e) && (e_base e + e_length e <=? top)) eqn:E3.
  { unwrap. eapply carve_shave; [done..|unfold ent_ok, ent_wf; simpl; lia|left; simpl; lia|]. intros a Ha. covers_tac. }
  destruct ((e_base e <? base) && (top <? e_base e + e_length e)) eqn:E4.
  { unwrap. eapply carve_split;
      [done..|unfold ent_ok, ent_wf; simpl; lia|left; simpl; lia|unfold ent_ok, ent_wf; simpl; lia|done
      |unfold nested; simpl; lia|]. intros a Ha. covers_tac. }
  apply carve_go; [done|done|done| |destruct (nested e); lia|destruct (nested e); lia|done].
  rewrite (take_S_r _ _ _ He). apply Forall_app. rewrite Forall_singleton. split; [done|]. unfold clear. lia.
Qed.
End carve.

(** [m'] is [m] with the range given to [type]. *)
Definition claimed (m : mmap) (base len type : Z) (m' : mmap) : Prop :=
  forall a, types_at m' a ≡ₚ if decide (base <= a < base + len) then [type] else types_at m a.

Lemma pmm_new_entry_wp max base len type m :
  Forall ent_ok m -> 0 <= base -> 0 < len -> base + len < 2 ^ 64 ->
  wp (pmm_new_entry max base len type)
    (fun ok m' => ok = true /\ Forall ent_ok m' /\ claimed m base len type m' /\
      (length m' <= length m + nests base (base + len) m + 1)%nat /\ zlen m' <= max)
    (fun m' => ~ zlen m + Z.of_nat (nests base (base + len) m) + 1 <= max /\ max <= zlen m') m.
Proof.
  intros Hm Hb Hl Ht. unfold pmm_new_entry. apply wp_bind, wp_count. unwrap. apply wp_bind.
  assert (Hn : (nests base (base + len) m <= length m)%nat).
  { clear. induction m as [|e m IH]; [done|]. unfold nests in *. simpl. destruct (nested _ _ e); lia. }
  eapply wp_mono; [apply carve_loop_wp; rewrite ?drop_0; [lia|done|constructor|lia]| |].
  2:{ intros h [H1 ?]. rewrite drop_0 in H1. lia. }
  intros [] m' (Hok & Hcl & Hty & Hlen). rewrite drop_0 in Hlen. apply wp_bind, wp_count.
  destruct (max <=? Z.of_nat (length m')) eqn:E; [apply wp_throw; lia|].
  apply wp_bind, wp_push, wp_ret. split; [done|]. rewrite length_app. split; [|split; [|simpl; lia]].
  - apply Forall_app. rewrite Forall_singleton. split; [done|]. unfold ent_ok, ent_wf. simpl. lia.
  - intros a. rewrite types_at_app, types_at_one. case_decide as Ha.
    + rewrite (types_at_nil m'), piece_in by done || (intros e He Hc; apply (proj1 (Forall_forall _ _) Hcl) in He; unfold clear, covers in *; lia).
      done.
    + rewrite piece_out by (unfold covers; simpl; lia). rewrite app_nil_r. by apply Hty.
Qed.
End PmmFacts.
