(* ===== verification/PmmSanitise.v ===== *)
(** * Sanitising a memory map

    What the four loops of [pmm_sanitise_entries] do to any map, and to a map
    without overlaps. *)

From S2P Require Import Prelude Effects Pmm PmmFacts.

Module PmmSanitise.
Import Effects Pmm PmmFacts.
Open Scope Z_scope.

(** [m'] is [m] with some usable memory taken away: nothing else changes. *)
Definition shrinks (m m' : mmap) : Prop := forall a, exists k, types_at m a ≡ₚ types_at m' a ++ replicate k MEMMAP_USABLE.

#[export] Instance shrinks_pre : PreOrder shrinks.
Proof.
  split.
  - intros m a. exists O. by rewrite app_nil_r.
  - intros m m1 m' H1 H2 a. destruct (H1 a) as [k1 E1], (H2 a) as [k2 E2]. exists (k2 + k1)%nat.
    by rewrite E1, E2, replicate_add, app_assoc.
Qed.

Lemma same_shrinks m m' : same m' m -> shrinks m m'.
Proof. intros H a. exists O. rewrite app_nil_r. by rewrite (H a). Qed.

(** A usable entry inside another one. *)
Definition part_of (e' e : memmap_entry) : Prop :=
  e_type e' = e_type e /\ e_base e <= e_base e' /\ e_base e' + e_length e' <= e_base e + e_length e.

Lemma part_of_trans e1 e2 e3 : part_of e1 e2 -> part_of e2 e3 -> part_of e1 e3.
Proof. unfold part_of. intros (-> & ? & ?) (-> & ? & ?). lia. Qed.

Lemma shrinks_insert m i e e' :
  m !! i = Some e -> e_type e = MEMMAP_USABLE -> part_of e' e -> shrinks m (<[i := e']> m).
Proof.
  intros He Hu (Ht & H1 & H2) a. pose proof (types_at_lookup _ _ _ a He) as E.
  destruct (decide (covers e a)) as [Hc|Hc]; [destruct (decide (covers e' a)) as [Hc'|Hc']|].
  - exists O. rewrite E, (types_at_insert _ _ _ e' a He), !piece_in, Ht, app_nil_r by done. done.
  - exists 1%nat. rewrite E, (types_at_insert _ _ _ e' a He), (piece_in e), (piece_out e'), Hu by done.
    simpl. apply Permutation_cons_append.
  - exists O. rewrite E, (types_at_insert _ _ _ e' a He), !piece_out, app_nil_r by (unfold covers in *; lia). done.
Qed.

Lemma shrinks_remove m i e m' :
  m !! i = Some e -> e_type e = MEMMAP_USABLE -> m' ≡ₚ delete i m -> shrinks m m'.
Proof.
  intros He Hu Hp a. pose proof (types_at_lookup _ _ _ a He) as E. rewrite <- Hp in E.
  destruct (decide (covers e a)) as [Hc|Hc].
  - exists 1%nat. rewrite E, piece_in, Hu by done. simpl. apply Permutation_cons_append.
  - exists O. by rewrite E, piece_out, app_nil_r.
Qed.

(** ** The first loop *)

Lemma clip_part e r e' : ent_wf e -> ent_wf r -> clip e r = Some e' -> part_of e' e /\ ent_wf e'.
Proof.
  intros He Hr. unfold clip. rewrite !e_top_wf by done. destruct He as (? & ? & ?), Hr as (? & ? & ?).
  case_match eqn:E0; [done|]. intros [= <-]. unfold part_of, ent_wf. cbn [e_base e_length e_type].
  repeat case_match; unwrap; lia.
Qed.

(** An entry that overlaps no other entry stays as it is. *)
Lemma clip_disjoint e r :
  ent_ok e -> ent_ok r -> (forall a, covers e a -> covers r a -> False) -> clip e r = Some e.
Proof.
  intros [He ?] [Hr ?] Hd. unfold clip. rewrite !e_top_wf by done. destruct He as (? & ? & ?), Hr as (? & ? & ?).
  unfold covers in Hd.
  assert (Hb : ~ (e_base e <= e_base r < e_base e + e_length e)) by (intros ?; apply (Hd (e_base r)); lia).
  assert (Ht : ~ (e_base e < e_base r + e_length r < e_base e + e_length e))
    by (intros ?; apply (Hd (e_base r + e_length r - 1)); lia).
  destruct ((e_base e <=? e_base r) && (e_base r <? e_base e + e_length e)) eqn:E1; [lia|]. cbn [andb].
  destruct e as [b l t]. cbn [e_base e_length e_type] in *.
  destruct ((b <=? e_base r + e_length r) && (e_base r + e_length r <? b + l)) eqn:E2;
    (f_equal; f_equal; unwrap; lia).
Qed.

Definition usable_at (m : mmap) (i : nat) : Prop := exists e, m !! i = Some e /\ e_type e = MEMMAP_USABLE.

(** What a loop over usable entries keeps. *)
Definition trimmed (m m' : mmap) : Prop := Forall ent_wf m' /\ shrinks m m'.

Lemma trimmed_trans m m1 m2 : trimmed m m1 -> trimmed m1 m2 -> trimmed m m2.
Proof. intros [? H1] [? H2]. split; [done|by rewrite H1]. Qed.

(** The inner loop changes entry [i] only, to a part of it. *)
Definition clipped (m : mmap) (i : nat) (m' : mmap) : Prop :=
  exists e e', m !! i = Some e /\ m' = <[i := e']> m /\ part_of e' e /\ ent_wf e'.

Lemma clip_loop_wp n i j m :
  Forall ent_wf m -> (i < length m)%nat -> (j + n <= length m)%nat ->
  wp (clip_loop n i j) (fun _ m' => clipped m i m') (fun _ => True) m.
Proof.
  revert j m. induction n as [|n IH]; intros j m Hm Hi Hj; simpl.
  { destruct (lookup_lt_is_Some_2 m i Hi) as [e He]. apply wp_ret. exists e, e.
    rewrite list_insert_id by done. do 2 (split; [done|]). split; [|by eapply Forall_lookup_1].
    unfold part_of. lia. }
  case_match eqn:E; [apply IH; [done|done|lia]|].
  destruct (lookup_lt_is_Some_2 m i Hi) as [e He]. destruct (lookup_lt_is_Some_2 m j) as [r Hr]; [lia|].
  apply wp_bind. eapply wp_get; [exact He|]. apply wp_bind. eapply wp_get; [exact Hr|].
  destruct (clip e r) as [e'|] eqn:Ec; [|by apply wp_throw].
  apply clip_part in Ec as [Hp Hwf]; [|by eapply Forall_lookup_1..].
  apply wp_bind, wp_set; [done|].
  eapply wp_mono; [apply IH; [by apply Forall_insert|by rewrite length_insert|rewrite length_insert; lia]| |done].
  intros [] m' (e1 & e2 & H1 & -> & H3 & H4). rewrite list_lookup_insert_eq in H1 by done. simplify_eq.
  exists e, e2. rewrite list_insert_insert_eq. do 2 (split; [done|]). split; [by eapply part_of_trans|done].
Qed.

(** Usable entries are made of whole pages, if asked for. *)
Definition aligned (al : bool) (e : memmap_entry) : Prop :=
  al = true -> e_type e = MEMMAP_USABLE -> e_base e mod PAGE_SIZE = 0 /\ e_length e mod PAGE_SIZE = 0.

Lemma align_entry_spec e b l ok :
  ent_wf e -> align_entry (e_base e) (e_length e) = (b, l, ok) ->
  part_of (Entry b l (e_type e)) e /\ ent_wf (Entry b l (e_type e)) /\
  (ok = true -> b mod PAGE_SIZE = 0 /\ l mod PAGE_SIZE = 0).
Proof.
  intros (? & ? & ?). unfold align_entry, ALIGN_UP, ALIGN_DOWN, DIV_ROUNDUP, part_of, ent_wf, PAGE_SIZE.
  destruct (e_length e <? 4096) eqn:E; intros [= <- <- <-]; cbn [e_base e_length e_type]; [split_and!; done || lia|].
  change (u64 (4096 - 1)) with 4095. rewrite (wrap_small 64 (e_base e + 4095)) by (unfold in_u; lia).
  set (q := (e_base e + 4095) / 4096).
  assert (Hq : e_base e <= q * 4096 <= e_base e + 4095)
    by (unfold q; pose proof (Z.div_mod (e_base e + 4095) 4096 ltac:(lia));
        pose proof (Z.mod_pos_bound (e_base e + 4095) 4096 ltac:(lia)); lia).
  unwrap. set (l := e_length e - (q * 4096 - e_base e)).
  assert (Hl : 0 <= l / 4096 * 4096 <= l).
  { pose proof (Z.div_mod l 4096 ltac:(lia)). pose proof (Z.mod_pos_bound l 4096 ltac:(lia)).
    assert (0 <= l / 4096) by (apply Z.div_pos; lia). lia. }
  unwrap. rewrite !Z_mod_mult. split_and!; done || lia.
Qed.

Lemma clipped_trimmed m i e m' :
  Forall ent_wf m -> m !! i = Some e -> e_type e = MEMMAP_USABLE -> clipped m i m' ->
  trimmed m m' /\ length m' = length m /\ take i m' = take i m /\ drop (S i) m' = drop (S i) m /\
  usable_at m' i.
Proof.
  intros Hm He Hu (e1 & e' & H1 & -> & H2 & H3). simplify_eq. apply lookup_lt_Some in He as Hl.
  split; [split; [by apply Forall_insert|by eapply shrinks_insert]|]. rewrite length_insert, take_insert_ge, drop_insert_lt by lia.
  do 3 (split; [done|]). exists e'. rewrite list_lookup_insert_eq by done. split; [done|]. destruct H2 as [-> _]. done.
Qed.

Lemma clipped_trans m i m1 m2 : clipped m i m1 -> clipped m1 i m2 -> clipped m i m2.
Proof.
  intros (e & e1 & He & -> & H1 & H2) (e1' & e2 & He1 & -> & H3 & H4). apply lookup_lt_Some in He as Hl.
  rewrite list_lookup_insert_eq in He1 by done. simplify_eq. exists e, e2. rewrite list_insert_insert_eq.
  split_and!; [done|done|by eapply part_of_trans|done].
Qed.

Lemma keep_entry_wp i al m e :
  Forall ent_wf m -> m !! i = Some e ->
  wp (keep_entry i al)
    (fun keep m' => clipped m i m' /\ (keep = true -> exists e', m' !! i = Some e' /\ aligned al e')) (fun _ => False) m.
Proof.
  intros Hm He. assert (Hwf : ent_wf e) by by eapply Forall_lookup_1. apply lookup_lt_Some in He as Hl.
  assert (Hc : clipped m i m).
  { exists e, e. rewrite list_insert_id by done. split_and!; [done|done|unfold part_of; lia|done]. }
  unfold keep_entry. apply wp_bind. eapply wp_get; [exact He|].
  case_match; [by apply wp_ret|]. destruct al; [|apply wp_ret; split; [done|]; by exists e].
  destruct (align_entry (e_base e) (e_length e)) as [[b l] ok] eqn:E.
  apply align_entry_spec in E as (H1 & H2 & H3); [|done].
  apply wp_bind, wp_set, wp_ret; [done|]. split; [by exists e, (Entry b l (e_type e))|].
  intros ->. exists (Entry b l (e_type e)). rewrite list_lookup_insert_eq by done. split; [done|]. intros _ _. by apply H3.
Qed.

Lemma overlap_loop_wp fuel i al m :
  Forall ent_wf m -> Forall (aligned al) (take i m) -> (length (drop i m) < fuel)%nat ->
  wp (overlap_loop fuel i al)
    (fun _ m' => trimmed m m' /\ Forall (aligned al) m' /\ (length m' <= length m)%nat) (fun _ => True) m.
Proof.
  revert i m. induction fuel as [|fuel IH]; intros i m Hm Ha Hf; [lia|]. simpl.
  apply wp_bind, wp_count. destruct (i <? length m)%nat eqn:Ei; [apply Nat.ltb_lt in Ei|apply Nat.ltb_ge in Ei].
  2:{ apply wp_ret. rewrite take_ge in Ha by lia. split; [|done]. by split. }
  destruct (lookup_lt_is_Some_2 m i Ei) as [e He]. apply wp_bind. eapply wp_get; [exact He|].
  pose proof (drop_length_S m i Ei) as Hd.
  destruct (e_type e =? MEMMAP_USABLE) eqn:Et; cbn [negb]; [apply Z.eqb_eq in Et|apply Z.eqb_neq in Et].
  2:{ apply IH; [done| |lia]. rewrite (take_S_r _ _ _ He). apply Forall_app. rewrite Forall_singleton. by split. }
  apply wp_bind. eapply wp_mono; [apply clip_loop_wp; [done|done|lia]| |done]. intros [] m1 Hc1.
  destruct (clipped_trimmed _ _ _ _ Hm He Et Hc1) as (Ht1 & Hl1 & _ & _ & e1 & He1 & _).
  apply wp_bind. eapply wp_mono; [eapply keep_entry_wp; [apply Ht1|exact He1]| |done]. intros keep m2 [Hc2 Hk].
  destruct (clipped_trimmed _ _ _ _ Hm He Et (clipped_trans _ _ _ _ Hc1 Hc2)) as (Ht & Hl & Htk & Hdr & e2 & He2 & Hu2).
  destruct keep.
  - eapply wp_mono; [apply IH; [apply Ht| |rewrite Hdr; lia]| |done].
    + destruct Hk as (e2' & He2' & Hal); [done|]. rewrite (take_S_r _ _ _ He2'), Htk. apply Forall_app.
      by rewrite Forall_singleton.
    + intros [] m' (H1 & H2 & H3). split; [by eapply trimmed_trans|]. split; [done|lia].
  - apply wp_bind. eapply wp_remove; [exact He2|]. intros m3 Hp Htk3 Hdr3 Hl3.
    assert (Ht3 : trimmed m2 m3).
    { split; [rewrite Hp; apply Forall_delete; apply Ht|by eapply shrinks_remove]. }
    eapply wp_mono; [apply IH; [apply Ht3|by rewrite Htk3, Htk|rewrite Hdr3, Hdr; lia]| |done].
    intros [] m' (H1 & H2 & H3). split; [eapply trimmed_trans; [done|by eapply trimmed_trans]|]. split; [done|lia].
Qed.

(** A map without overlaps passes the first loop unchanged. *)
Lemma disjoint_lookup m i j e r a :
  disjoint m -> m !! i = Some e -> m !! j = Some r -> i <> j -> covers e a -> covers r a -> False.
Proof.
  intros Hd Hi Hj Hne Hc Hr. specialize (Hd a). rewrite (types_at_lookup _ _ _ a Hi), piece_in in Hd by done.
  simpl in Hd. assert (Hin : r ∈ delete i m).
  { apply list_elem_of_lookup. destruct (decide (j < i)%nat).
    - exists j. by rewrite list_lookup_delete_lt.
    - exists (j - 1)%nat. rewrite list_lookup_delete_ge by lia. by replace (S (j - 1)) with j by lia. }
  assert (Ht : e_type r ∈ types_at (delete i m) a) by (apply types_at_elem; eauto).
  destruct (types_at (delete i m) a); [by apply elem_of_nil in Ht|simpl in Hd; lia].
Qed.

Lemma clip_loop_ok n i j m :
  mm_ok m -> (i < length m)%nat -> (j + n <= length m)%nat -> clip_loop n i j m = Ret m tt.
Proof.
  intros [Hm Hd] Hi. revert j. induction n as [|n IH]; intros j Hj; simpl; [done|].
  case_match eqn:E; [apply IH; lia|]. apply Nat.eqb_neq in E.
  destruct (lookup_lt_is_Some_2 m i Hi) as [e He]. destruct (lookup_lt_is_Some_2 m j) as [r Hr]; [lia|].
  unfold mbind, st_bind, obind, get. rewrite He, Hr. rewrite clip_disjoint.
  - unfold set. rewrite (proj2 (Nat.ltb_lt _ _) Hi), list_insert_id by done. apply IH. lia.
  - by eapply Forall_lookup_1.
  - by eapply Forall_lookup_1.
  - intros a. by eapply disjoint_lookup.
Qed.

Lemma overlap_loop_ok fuel i m :
  mm_ok m -> (length (drop i m) < fuel)%nat -> overlap_loop fuel i false m = Ret m tt.
Proof.
  intros Hok. revert i. induction fuel as [|fuel IH]; intros i Hf; [lia|]. simpl.
  rewrite (bind_Ret _ _ _ m (length m)) by done. destruct (i <? length m)%nat eqn:Ei; [|done]. apply Nat.ltb_lt in Ei.
  destruct (lookup_lt_is_Some_2 m i Ei) as [e He]. pose proof (drop_length_S m i Ei) as Hd.
  assert (Hg : get i m = Ret m e) by (unfold get; by rewrite He). rewrite (bind_Ret _ _ _ _ _ Hg).
  case_match; [apply IH; lia|]. rewrite (bind_Ret _ _ _ m tt) by (apply clip_loop_ok; [done|done|lia]).
  rewrite (bind_Ret _ _ _ m true); [apply IH; lia|]. unfold keep_entry. rewrite (bind_Ret _ _ _ _ _ Hg).
  case_match eqn:E0; [|done]. apply Z.eqb_eq in E0.
  assert (ent_ok e) as [_ ?] by by eapply Forall_lookup_1; [apply Hok|]. lia.
Qed.

(** ** The second loop *)

(** The types that stay at [a]: usable memory in the first page goes if asked for. *)
Definition kept (keep : bool) (a : Z) (ts : list Z) : list Z :=
  if keep || (0x1000 <=? a) then ts else filter (fun t => t <> MEMMAP_USABLE) ts.

#[export] Instance kept_perm keep a : Proper ((≡ₚ) ==> (≡ₚ)) (kept keep a).
Proof. intros l l' H. unfold kept. case_match; [done|]. by rewrite H. Qed.

Lemma kept_app keep a l l' : kept keep a (l ++ l') = kept keep a l ++ kept keep a l'.
Proof. unfold kept. case_match; [done|]. apply filter_app. Qed.

Lemma kept_length keep a l : (length (kept keep a l) <= length l)%nat.
Proof. unfold kept. case_match; [done|]. apply length_filter. Qed.

Lemma kept_true a l : kept true a l = l.
Proof. done. Qed.

(** Usable entries are not empty and start above the first page. *)
Definition good (keep : bool) (e : memmap_entry) : Prop :=
  e_type e = MEMMAP_USABLE -> 0 < e_length e /\ (keep = false -> 0x1000 <= e_base e).

Lemma kept_good keep m a : Forall (good keep) m -> kept keep a (types_at m a) = types_at m a.
Proof.
  intros Hg. unfold kept. case_match eqn:E; [done|]. apply orb_false_iff in E as [-> Ha].
  assert (Hall : Forall (fun t => t <> MEMMAP_USABLE) (types_at m a)).
  { apply Forall_forall. intros t Ht. apply types_at_elem in Ht as (e & He & Hc & <-). intros Hu.
    apply (proj1 (Forall_forall _ _) Hg) in He. destruct (He Hu) as [_ Hb]. unfold covers in Hc. specialize (Hb eq_refl). lia. }
  induction Hall as [|t ts Ht _ IH]; [done|]. rewrite filter_cons_True by done. by rewrite IH.
Qed.

(** The entries other than usable ones are not empty. *)
Definition filled (e : memmap_entry) : Prop := e_type e <> MEMMAP_USABLE -> 0 < e_length e.

Definition kept_same (keep : bool) (m m' : mmap) : Prop :=
  forall a, kept keep a (types_at m' a) ≡ₚ kept keep a (types_at m a).

(** An entry of the first page changes or goes. *)
Lemma kept_same_insert keep m i e e' :
  m !! i = Some e -> (forall a, kept keep a (piece e' a) = kept keep a (piece e a)) -> kept_same keep m (<[i := e']> m).
Proof. intros He Hp a. by rewrite (types_at_insert _ _ _ e' a He), (types_at_lookup _ _ _ a He), !kept_app, Hp. Qed.

Lemma kept_same_remove keep m i e m' :
  m !! i = Some e -> (forall a, kept keep a (piece e a) = []) -> m' ≡ₚ delete i m -> kept_same keep m m'.
Proof. intros He Hp Hm a. by rewrite Hm, (types_at_lookup _ _ _ a He), kept_app, Hp. Qed.

(** What the second loop establishes. *)
Definition dropped (keep al : bool) (m m' : mmap) : Prop :=
  Forall ent_wf m' /\ Forall (good keep) m' /\ (Forall filled m -> Forall filled m') /\
  (Forall (aligned al) m -> Forall (aligned al) m') /\ kept_same keep m m' /\ (length m' <= length m)%nat.

Lemma dropped_trans keep al m m1 m' :
  dropped keep al m1 m' -> (Forall filled m -> Forall filled m1) -> (Forall (aligned al) m -> Forall (aligned al) m1) ->
  kept_same keep m m1 -> (length m1 <= length m)%nat -> dropped keep al m m'.
Proof.
  intros (H1 & H2 & H3 & H4 & H5 & H6) Hf Ha Hk Hl. split_and!; [done|done|auto|auto| |lia].
  intros a. by rewrite (H5 a), (Hk a).
Qed.

Lemma kept_page_piece a e : e_type e = MEMMAP_USABLE -> a < 0x1000 -> kept false a (piece e a) = [].
Proof.
  intros Hu Ha. unfold kept. cbn [orb]. rewrite (proj2 (Z.leb_gt _ _) Ha). unfold piece. case_decide; [|done].
  rewrite filter_cons_False; [done|]. naive_solver.
Qed.

(** Moving the base of a usable entry to the end of the first page. *)
Definition raise (e : memmap_entry) : memmap_entry :=
  Entry 0x1000 (u64 (e_length e - u64 (0x1000 - e_base e))) (e_type e).

Lemma raise_spec al e :
  ent_wf e -> e_type e = MEMMAP_USABLE -> e_base e < 0x1000 -> 0x1000 < e_base e + e_length e ->
  ent_wf (raise e) /\ (forall a, kept false a (piece (raise e) a) = kept false a (piece e a)) /\
  (aligned al e -> aligned al (raise e)) /\ 0 < e_length (raise e).
Proof.
  intros (? & ? & ?) Hu Hb Ht.
  assert (Er : raise e = Entry 0x1000 (e_length e - (0x1000 - e_base e)) (e_type e)) by (unfold raise; by unwrap).
  rewrite Er. split; [unfold ent_wf; simpl; lia|]. split; [|split; [|simpl; lia]].
  - intros a. destruct (Z.lt_ge_cases a 0x1000).
    + by rewrite !kept_page_piece.
    + f_equal. unfold piece, covers. cbn [e_base e_length e_type]. repeat case_decide; done || lia.
  - intros Ha Hal _. destruct (Ha Hal Hu) as [H3 H4]. unfold PAGE_SIZE in *. cbn [e_base e_length]. split; [done|].
    assert (e_base e = 0) as -> by (rewrite Z.mod_small in H3; lia). rewrite Zminus_mod, H4. done.
Qed.

(** The loop from entry [i] on, and its continuation after a removal or a change. *)
Definition drop_spec (keep al : bool) (fuel : nat) : Prop := forall i m,
  Forall ent_wf m -> Forall (good keep) (take i m) -> (length (drop i m) < fuel)%nat ->
  wp (drop_loop fuel i keep) (fun _ m' => dropped keep al m m') (fun _ => False) m.

Lemma drop_remove keep al fuel m i e :
  drop_spec keep al fuel -> Forall ent_wf m -> Forall (good keep) (take i m) -> (length (drop i m) < S fuel)%nat ->
  m !! i = Some e -> (forall a, kept keep a (piece e a) = []) ->
  wp (_ ← remove i; drop_loop fuel i keep) (fun _ m' => dropped keep al m m') (fun _ => False) m.
Proof.
  intros IH Hm Hg Hf He Hp. apply lookup_lt_Some in He as Hl. pose proof (drop_length_S m i Hl).
  apply wp_bind. eapply wp_remove; [exact He|]. intros m1 Hp1 Htk Hdr Hl1.
  eapply wp_mono; [apply IH; [rewrite Hp1; by apply Forall_delete|by rewrite Htk|rewrite Hdr; lia]| |done].
  intros [] m' H'. eapply dropped_trans; [exact H'| | | |lia].
  - intros. rewrite Hp1. by apply Forall_delete.
  - intros. rewrite Hp1. by apply Forall_delete.
  - by eapply kept_same_remove.
Qed.

Lemma drop_next keep al fuel m i e e' :
  drop_spec keep al fuel -> Forall ent_wf m -> Forall (good keep) (take i m) -> (length (drop i m) < S fuel)%nat ->
  m !! i = Some e -> ent_wf e' -> good keep e' -> (filled e -> filled e') -> (aligned al e -> aligned al e') ->
  (forall a, kept keep a (piece e' a) = kept keep a (piece e a)) ->
  wp (drop_loop fuel (S i) keep) (fun _ m' => dropped keep al m m') (fun _ => False) (<[i := e']> m).
Proof.
  intros IH Hm Hg Hf He Hwf Hg' Hfl Hal Hp. apply lookup_lt_Some in He as Hl. pose proof (drop_length_S m i Hl).
  eapply wp_mono; [apply IH|intros [] m' H'; eapply dropped_trans; [exact H'|..]|done].
  - by apply Forall_insert.
  - rewrite take_S_insert by done. apply Forall_app. by rewrite Forall_singleton.
  - rewrite drop_insert_lt by lia. lia.
  - intros HF. apply Forall_insert; [done|]. apply Hfl. by eapply Forall_lookup_1.
  - intros HF. apply Forall_insert; [done|]. apply Hal. by eapply Forall_lookup_1.
  - by eapply kept_same_insert.
  - by rewrite length_insert.
Qed.

Lemma drop_loop_wp keep al fuel : drop_spec keep al fuel.
Proof.
  induction fuel as [|fuel IH]; intros i m Hm Hg Hf; [lia|]. simpl.
  apply wp_bind, wp_count. destruct (i <? length m)%nat eqn:Ei; [apply Nat.ltb_lt in Ei|apply Nat.ltb_ge in Ei].
  2:{ apply wp_ret. rewrite take_ge in Hg by lia. unfold dropped. split_and!; [done|done|done|done|by intros a|done]. }
  destruct (lookup_lt_is_Some_2 m i Ei) as [e He]. apply wp_bind. eapply wp_get; [exact He|].
  assert (Hwf : ent_wf e) by by eapply Forall_lookup_1.
  assert (Hnext : good keep e ->
    wp (drop_loop fuel (S i) keep) (fun _ m' => dropped keep al m m') (fun _ => False) m).
  { intros Hge. pose proof (drop_next keep al fuel m i e e IH Hm Hg Hf He Hwf Hge id id ltac:(done)) as Hw.
    by rewrite list_insert_id in Hw. }
  destruct (e_type e =? MEMMAP_USABLE) eqn:Et; cbn [negb]; [apply Z.eqb_eq in Et|apply Z.eqb_neq in Et].
  2:{ apply Hnext. by intros ?. }
  rewrite (e_top_wf e Hwf). destruct (negb keep && (e_base e <? 0x1000)) eqn:Ek; cbn [andb].
  - apply andb_true_iff in Ek as [Ek Eb]. apply negb_true_iff in Ek as ->. apply Z.ltb_lt in Eb.
    destruct (e_base e + e_length e <=? 0x1000) eqn:Eto; [apply Z.leb_le in Eto|apply Z.leb_gt in Eto].
    + eapply drop_remove; [done..|]. intros a. destruct (Z.lt_ge_cases a 0x1000); [by apply kept_page_piece|].
      rewrite piece_out by (unfold covers; lia). unfold kept. by case_match.
    + destruct (raise_spec al e Hwf Et Eb Eto) as (R1 & R2 & R3 & R4).
      apply wp_bind, wp_set; [done|]. fold (raise e). apply wp_bind. eapply wp_get; [by apply list_lookup_insert_eq|].
      rewrite (proj2 (Z.eqb_neq _ _)) by lia. eapply drop_next; [done..| |intros _ Hn; done|done|done].
      intros _. split; [done|]. intros _. simpl. lia.
  - apply wp_bind, wp_ret, wp_bind. eapply wp_get; [exact He|].
    destruct (e_length e =? 0) eqn:El; [apply Z.eqb_eq in El|apply Z.eqb_neq in El].
    + eapply drop_remove; [done..|]. intros a. rewrite piece_out by (unfold covers; lia). unfold kept. by case_match.
    + apply Hnext. intros _. destruct Hwf as (? & ? & ?). split; [lia|]. intros ->. simpl in Ek. lia.
Qed.

(** ** The sort *)

Definition sorted (m : mmap) : Prop := StronglySorted Z.le (e_base <$> m).

Lemma get_Ret m i e : m !! i = Some e -> get i m = Ret m e.
Proof. intros H. unfold get. by rewrite H. Qed.
Lemma set_Ret m i e : (i < length m)%nat -> set i e m = Ret (<[i := e]> m) tt.
Proof. intros H. unfold set. by rewrite (proj2 (Nat.ltb_lt _ _) H). Qed.

Lemma min_loop_spec n i min k (m : mmap) ek :
  (i + n)%nat = length m -> m !! k = Some ek -> e_base ek = min ->
  exists k' e', min_loop n i min k m = Ret m k' /\ m !! k' = Some e' /\ (k' = k \/ (i <= k')%nat) /\
    e_base e' <= min /\ (forall j e, (i <= j)%nat -> m !! j = Some e -> e_base e' <= e_base e).
Proof.
  revert i min k ek. induction n as [|n IH]; intros i min k ek Hn Hk Hmin; simpl.
  { exists k, ek. split_and!; [done|done|by left|lia|]. intros j e Hj He. apply lookup_lt_Some in He. lia. }
  destruct (lookup_lt_is_Some_2 m i) as [e He]; [lia|]. rewrite (bind_Ret _ _ _ _ _ (get_Ret _ _ _ He)).
  destruct (e_base e <? min) eqn:El.
  - destruct (IH (S i) (e_base e) i e) as (k' & e' & E1 & E2 & E3 & E4 & E5); [lia|done|done|].
    exists k', e'. split_and!; [done|done|right; lia|lia|]. intros j e0 Hj He0.
    destruct (decide (j = i)) as [->|]; [simplify_eq; lia|]. apply (E5 j); [lia|done].
  - destruct (IH (S i) min k ek) as (k' & e' & E1 & E2 & E3 & E4 & E5); [lia|done|done|].
    exists k', e'. split_and!; [done|done|destruct E3; [by left|right; lia]|lia|]. intros j e0 Hj He0.
    destruct (decide (j = i)) as [->|]; [simplify_eq; lia|]. apply (E5 j); [lia|done].
Qed.

(** Exchanging two entries. *)
Lemma swap_perm (m : mmap) p k e min_e :
  m !! p = Some e -> m !! k = Some min_e -> <[p := min_e]> (<[k := e]> m) ≡ₚ m.
Proof.
  intros Hp Hk. destruct (decide (p = k)) as [->|Hne].
  { simplify_eq. by rewrite (list_insert_id m k) by done; rewrite list_insert_id. }
  assert (H1 : <[k := e]> m !! p = Some e) by by rewrite list_lookup_insert_ne.
  apply (Permutation_cons_inv (a := e)).
  rewrite (insert_perm _ _ _ min_e H1), Permutation_swap, <- (delete_Permutation _ _ _ H1), (insert_perm _ _ _ e Hk).
  by rewrite Permutation_swap, <- (delete_Permutation _ _ _ Hk).
Qed.

(** The first [p] entries are in place. *)
Definition in_place (p : nat) (m : mmap) : Prop :=
  sorted (take p m) /\ forall e e', e ∈ take p m -> e' ∈ drop p m -> e_base e <= e_base e'.

Lemma sorted_snoc m e : sorted m -> (forall e', e' ∈ m -> e_base e' <= e_base e) -> sorted (m ++ [e]).
Proof.
  unfold sorted. intros Hs He. induction m as [|e0 m IH]; simpl; [repeat constructor|].
  inversion Hs as [|? ? Hs' Hall]; subst. constructor.
  - apply IH; [done|]. intros e' He'. apply He. by right.
  - rewrite fmap_app. apply Forall_app. split; [done|]. repeat constructor. apply He. by left.
Qed.

Lemma in_place_step p m m' min_e :
  in_place p m -> m' ≡ₚ m -> take p m' = take p m -> m' !! p = Some min_e ->
  (forall e, e ∈ drop p m -> e_base min_e <= e_base e) -> in_place (S p) m'.
Proof.
  intros [Hs Hle] Hperm Htk Hm Hmin.
  assert (Hdr : drop p m' ≡ₚ drop p m).
  { apply (Permutation_app_inv_l (take p m)). rewrite take_drop, <- Htk, take_drop. done. }
  assert (Hd : drop p m' = min_e :: drop (S p) m') by by apply drop_S.
  assert (Hin : forall e, e ∈ drop (S p) m' -> e ∈ drop p m) by (intros e He; rewrite <- Hdr, Hd; by right).
  assert (Hmin_in : min_e ∈ drop p m) by (rewrite <- Hdr, Hd; left).
  split; rewrite (take_S_r _ _ _ Hm), Htk.
  - apply sorted_snoc; [done|]. intros e' He'. by apply Hle.
  - intros e e' He He'. apply elem_of_app in He as [He|He]; [apply Hle; auto|].
    apply list_elem_of_singleton in He as ->. auto.
Qed.

Lemma sort_loop_wp fuel p m :
  (1 <= length m)%nat -> zlen m < 2 ^ 64 -> in_place p m -> (length m - p < fuel)%nat -> (p <= length m - 1)%nat ->
  wp (sort_loop fuel p) (fun _ m' => m' ≡ₚ m /\ sorted m') (fun _ => False) m.
Proof.
  revert p m. induction fuel as [|fuel IH]; intros p m H1 Hlen Hin Hf Hp; [lia|]. simpl.
  apply wp_bind, wp_count. rewrite wrap_small by (unfold in_u; lia).
  destruct (Z.of_nat p <? Z.of_nat (length m) - 1) eqn:E; [apply Z.ltb_lt in E|apply Z.ltb_ge in E].
  - destruct (lookup_lt_is_Some_2 m p) as [e He]; [lia|]. apply wp_bind. eapply wp_get; [exact He|].
    destruct (min_loop_spec (length m - p) p (e_base e) p m e) as (k & min_e & Ek & Hk & Hpk & _ & Hmin); [lia|done|done|].
    apply wp_bind. unfold wp at 1. rewrite Ek. apply lookup_lt_Some in Hk as Hkl.
    apply wp_bind. eapply wp_get; [exact Hk|]. apply wp_bind, wp_set; [done|].
    apply wp_bind, wp_set; [rewrite length_insert; lia|].
    pose proof (swap_perm m p k e min_e He Hk) as Hs.
    assert (Hl' : length (<[p := min_e]> (<[k := e]> m)) = length m) by by rewrite !length_insert.
    eapply wp_mono; [apply IH; [lia|lia| |lia|lia]| |done].
    + eapply (in_place_step p m _ min_e); [done|done| |by apply list_lookup_insert_eq; rewrite length_insert; lia|].
      * rewrite !take_insert_ge by (destruct Hpk; lia). done.
      * intros e0 He0. apply list_elem_of_lookup in He0 as [j Hj]. rewrite lookup_drop in Hj.
        eapply Hmin; [|exact Hj]. lia.
    + intros [] m' [H2 H3]. split; [by rewrite H2|done].
  - apply wp_ret. split; [done|]. destruct Hin as [Hs Hle]. assert (p = (length m - 1)%nat) as -> by lia.
    destruct (lookup_lt_is_Some_2 m (length m - 1)) as [e He]; [lia|].
    rewrite <- (take_drop (length m - 1) m). rewrite (drop_S _ _ _ He), drop_ge by lia.
    apply sorted_snoc; [done|]. intros e' He'. apply Hle; [done|]. rewrite (drop_S _ _ _ He). left.
Qed.

(** ** The merge *)

(** Contiguous entries of the same type, usable or reclaimable from the boot loader. *)
Definition mergeable (e e' : memmap_entry) : bool :=
  ((e_type e =? MEMMAP_BOOTLOADER_RECLAIMABLE) || (e_type e =? MEMMAP_USABLE))
  && ((e_type e' =? e_type e) && (e_base e' =? e_top e)).

Definition merged (n : nat) (m : mmap) : Prop :=
  forall i e e', (i < n)%nat -> m !! i = Some e -> m !! S i = Some e' -> mergeable e e' = false.

Definition merge (e e' : memmap_entry) : memmap_entry := Entry (e_base e) (u64 (e_length e + e_length e')) (e_type e).

(** The properties of single entries that merging keeps. *)
Definition stable (K : memmap_entry -> Prop) : Prop :=
  forall e e', ent_wf e -> ent_wf e' -> mergeable e e' = true -> K e -> K e' -> K (merge e e').

Lemma merge_spec e e' :
  ent_wf e -> ent_wf e' -> mergeable e e' = true ->
  merge e e' = Entry (e_base e) (e_length e + e_length e') (e_type e) /\ e_type e' = e_type e /\
  e_base e' = e_base e + e_length e.
Proof.
  intros He He' Hm. unfold mergeable in Hm. rewrite e_top_wf in Hm by done.
  destruct He as (? & ? & ?), He' as (? & ? & ?). unfold merge. unwrap. split; [done|]. lia.
Qed.

Lemma merge_piece e e' a :
  ent_wf e -> ent_wf e' -> mergeable e e' = true -> piece (merge e e') a ≡ₚ piece e a ++ piece e' a.
Proof.
  intros He He' Hm. destruct (merge_spec _ _ He He' Hm) as (-> & Ht & Hb).
  destruct He as (? & ? & ?), He' as (? & ? & ?). unfold piece, covers. cbn [e_base e_length e_type].
  rewrite Ht. repeat case_decide; done || lia.
Qed.

Lemma ent_wf_stable : stable ent_wf.
Proof.
  intros e e' He He' Hm _ _. destruct (merge_spec _ _ He He' Hm) as (-> & Ht & Hb).
  unfold ent_wf in *. simpl. lia.
Qed.

(** A merge at [i]. *)
Definition merge_at (i : nat) (e e' : memmap_entry) (m : mmap) : mmap := delete (S i) (<[i := merge e e']> m).

Lemma merge_at_split l1 e e' l2 :
  merge_at (length l1) e e' (l1 ++ e :: e' :: l2) = l1 ++ merge e e' :: l2.
Proof.
  unfold merge_at. rewrite insert_app_r_alt, Nat.sub_diag by lia. simpl.
  replace (S (length l1)) with (length (l1 ++ [merge e e'])) by (rewrite length_app; simpl; lia).
  change (l1 ++ merge e e' :: e' :: l2) with (l1 ++ [merge e e'] ++ e' :: l2).
  rewrite (app_assoc l1), delete_middle, <- app_assoc. done.
Qed.

Lemma split_two (m : mmap) i e e' :
  m !! i = Some e -> m !! S i = Some e' -> exists l1 l2, m = l1 ++ e :: e' :: l2 /\ length l1 = i.
Proof.
  intros He He'. exists (take i m), (drop (S (S i)) m). split.
  - rewrite <- (drop_S _ _ _ He'), <- (drop_S _ _ _ He). by rewrite take_drop.
  - apply lookup_lt_Some in He. rewrite length_take. lia.
Qed.

Lemma sorted_remove l1 (b : Z) l2 : StronglySorted Z.le (l1 ++ b :: l2) -> StronglySorted Z.le (l1 ++ l2).
Proof.
  induction l1 as [|x l1 IH]; simpl; intros H; inversion H as [|? ? Hs Hall]; subst; [done|].
  constructor; [by apply IH|]. apply Forall_app in Hall as [? Hall]. inversion Hall; subst. by apply Forall_app.
Qed.

(** What the loop keeps. *)
Definition merges_to (m m' : mmap) : Prop :=
  Forall ent_wf m' /\ same m' m /\ (sorted m -> sorted m') /\ (length m' <= length m)%nat /\
  (forall K, stable K -> Forall K m -> Forall K m').

Lemma merge_at_spec m i e e' :
  Forall ent_wf m -> m !! i = Some e -> m !! S i = Some e' -> mergeable e e' = true ->
  merges_to m (merge_at i e e' m) /\ (merged i m -> merged i (merge_at i e e' m)) /\
  S (length (merge_at i e e' m)) = length m.
Proof.
  intros Hm He He' Hg. destruct (split_two _ _ _ _ He He') as (l1 & l2 & -> & <-).
  rewrite merge_at_split. rewrite Forall_app, !Forall_cons in Hm. destruct Hm as (Hm1 & Hwf & Hwf' & Hm2).
  split; [split_and!|split].
  - rewrite Forall_app, Forall_cons. split_and!; [done|by apply ent_wf_stable|done].
  - intros a. rewrite !types_at_app, !types_at_cons, merge_piece by done. by rewrite <- app_assoc.
  - unfold sorted. rewrite !fmap_app, !fmap_cons. cbn [merge e_base]. intros H.
    change (e_base e :: e_base e' :: (e_base <$> l2)) with ([e_base e] ++ e_base e' :: (e_base <$> l2)) in H.
    rewrite app_assoc in H. apply sorted_remove in H. by rewrite <- app_assoc in H.
  - rewrite !length_app. simpl. lia.
  - intros K HK. rewrite !Forall_app, !Forall_cons. intros (? & ? & ? & ?). split_and!; [done|by apply HK|done].
  - intros Hmg j x y Hj Hx Hy. rewrite lookup_app_l in Hx by done.
    destruct (decide (S j < length l1)%nat) as [Hlt|Hge].
    + rewrite lookup_app_l in Hy by done. apply (Hmg j); rewrite ?lookup_app_l by lia; done.
    + assert (S j = length l1) as Ej by lia. rewrite Ej, list_lookup_middle in Hy by done. simplify_eq.
      transitivity (mergeable x e); [done|]. apply (Hmg j); rewrite ?Ej; [done| |by apply list_lookup_middle].
      by rewrite lookup_app_l.
  - rewrite !length_app. simpl. lia.
Qed.

Lemma merges_to_refl m : Forall ent_wf m -> merges_to m m.
Proof. intros H. unfold merges_to. split_and!; [done|done|done|lia|done]. Qed.
Lemma merges_to_trans m m1 m2 : merges_to m m1 -> merges_to m1 m2 -> merges_to m m2.
Proof.
  intros (A1 & A2 & A3 & A4 & A5) (B1 & B2 & B3 & B4 & B5). split_and!; [done|by rewrite B2|auto|lia|auto].
Qed.

Lemma merge_loop_wp fuel i m :
  Forall ent_wf m -> (1 <= length m)%nat -> zlen m < 2 ^ 64 -> merged i m -> (length (drop i m) < fuel)%nat ->
  wp (merge_loop fuel i) (fun _ m' => merges_to m m' /\ merged (length m') m') (fun _ => False) m.
Proof.
  revert i m. induction fuel as [|fuel IH]; intros i m Hm H1 Hlen Hmg Hf; [lia|]. simpl.
  apply wp_bind, wp_count. rewrite wrap_small by (unfold in_u; lia).
  destruct (Z.of_nat i <? Z.of_nat (length m) - 1) eqn:E; [apply Z.ltb_lt in E|apply Z.ltb_ge in E].
  2:{ apply wp_ret. split; [by apply merges_to_refl|]. intros j e e' Hj He He'. apply lookup_lt_Some in He' as ?.
      apply (Hmg j); [lia|done|done]. }
  destruct (lookup_lt_is_Some_2 m i) as [e He]; [lia|]. destruct (lookup_lt_is_Some_2 m (S i)) as [e' He']; [lia|].
  pose proof (drop_length_S m i ltac:(lia)) as Hd. apply wp_bind. eapply wp_get; [exact He|].
  assert (Hnext : mergeable e e' = false ->
    wp (merge_loop fuel (S i)) (fun _ m' => merges_to m m' /\ merged (length m') m') (fun _ => False) m).
  { intros Hn. apply IH; [done|done|done| |lia]. intros j x y Hj Hx Hy.
    destruct (decide (j = i)) as [->|]; [by simplify_eq|]. apply (Hmg j); [lia|done|done]. }
  destruct (negb _ && negb _) eqn:Et.
  { apply Hnext. unfold mergeable. apply andb_true_iff in Et as [->%negb_true_iff ->%negb_true_iff]. done. }
  apply wp_bind. eapply wp_get; [exact He'|].
  destruct ((e_type e' =? e_type e) && (e_base e' =? e_top e)) eqn:Eg.
  2:{ apply Hnext. unfold mergeable. rewrite Eg. apply andb_false_r. }
  assert (Hgm : mergeable e e' = true).
  { unfold mergeable. rewrite Eg, andb_true_r. rewrite <- negb_orb in Et. by apply negb_false_iff in Et. }
  destruct (merge_at_spec m i e e' Hm He He' Hgm) as (Ht & Hmg' & Hl).
  apply wp_bind, wp_set; [lia|]. apply wp_bind. unfold wp at 1, eradicate.
  change (delete (S i) (<[i := _]> m)) with (merge_at i e e' m).
  eapply wp_mono; [apply IH; [exact (proj1 Ht)|lia|lia|auto|]| |done].
  - rewrite !length_drop in *. lia.
  - intros [] m' [H2 H3]. split; [by eapply merges_to_trans|done].
Qed.

Lemma aligned_stable al : stable (aligned al).
Proof.
  intros e e' He He' Hm H1 H2 Ha Hu. destruct (merge_spec _ _ He He' Hm) as (E & Ht & _). rewrite E in *.
  destruct (H1 Ha Hu) as [? E1], (H2 Ha) as [? E2]; [by rewrite Ht|]. split; [done|]. cbn [e_length].
  by rewrite Zplus_mod, E1, E2.
Qed.

Lemma good_stable keep : stable (good keep).
Proof.
  intros e e' He He' Hm H1 H2 Hu. destruct (merge_spec _ _ He He' Hm) as (E & Ht & _). rewrite E in *.
  destruct (H1 Hu) as [? ?], He' as (? & ? & ?). split; [simpl; lia|done].
Qed.

Lemma ent_ok_stable : stable ent_ok.
Proof.
  intros e e' He He' Hm [_ H1] [_ H2]. split; [by apply ent_wf_stable|].
  destruct (merge_spec _ _ He He' Hm) as (-> & _ & _). simpl. lia.
Qed.

(** ** The whole *)

(** The form [pmm_sanitise_entries] brings a map to. *)
Definition sanitised (keep : bool) (m : mmap) : Prop := sorted m /\ merged (length m) m /\ Forall (good keep) m.

Lemma in_place_0 m : in_place 0 m.
Proof. split; [constructor|]. intros e e' He. by apply elem_of_nil in He. Qed.

(** The last two loops: the map is ordered and merged, and says the same. *)
Lemma sort_merge_wp keep al m n :
  Forall ent_wf m -> Forall (good keep) m -> Forall (aligned al) m -> (1 <= length m <= n)%nat -> Z.of_nat n < 2 ^ 64 ->
  wp (_ ← sort_loop (S n) 0; merge_loop (S n) 0)
    (fun _ m' => Forall ent_wf m' /\ sanitised keep m' /\ Forall (aligned al) m' /\ same m' m /\
      (length m' <= length m)%nat /\ (Forall ent_ok m -> Forall ent_ok m')) (fun _ => False) m.
Proof.
  intros Hwf Hg Ha Hl Hn. apply wp_bind.
  eapply wp_mono; [apply sort_loop_wp; [lia|lia|apply in_place_0|lia|lia]| |done]. intros [] m1 [Hp Hs].
  pose proof (Permutation_length Hp) as Hpl.
  eapply wp_mono; [apply merge_loop_wp; [by rewrite Hp|lia|lia|intros ?; lia|rewrite drop_0; lia]| |done].
  intros [] m2 [(H1 & H2 & H3 & H4 & H5) H6]. split; [done|]. split; [|split; [|split; [|split]]].
  - split; [auto|]. split; [done|]. apply H5; [apply good_stable|by rewrite Hp].
  - apply H5; [apply aligned_stable|by rewrite Hp].
  - rewrite H2. by apply perm_same.
  - lia.
  - intros Hok. apply H5; [apply ent_ok_stable|by rewrite Hp].
Qed.

(** What is dropped is usable memory. *)
Lemma kept_shrinks keep a l : exists k, l ≡ₚ kept keep a l ++ replicate k MEMMAP_USABLE.
Proof.
  unfold kept. case_match; [exists O; by rewrite app_nil_r|]. induction l as [|t l [k IH]]; [by exists O|].
  destruct (decide (t <> MEMMAP_USABLE)) as [Ht|Ht].
  - exists k. rewrite filter_cons_True by done. simpl. by f_equiv.
  - exists (S k). rewrite filter_cons_False by done. assert (t = MEMMAP_USABLE) as -> by (destruct (decide (t = MEMMAP_USABLE)); tauto).
    simpl. rewrite <- Permutation_middle. by f_equiv.
Qed.

Lemma dropped_types keep al m m' :
  dropped keep al m m' -> forall a, types_at m' a ≡ₚ kept keep a (types_at m a).
Proof. intros (_ & Hg & _ & _ & Hk & _) a. by rewrite <- (Hk a), kept_good. Qed.

Lemma nonempty_types m a : types_at m a <> [] -> (1 <= length m)%nat.
Proof. destruct m; [done|simpl; lia]. Qed.

(** The first two loops, which take usable memory away. *)
Definition trim_loops (keep al : bool) : M unit :=
  n ← get_count; _ ← overlap_loop (S n) 0 al; drop_loop (S n) 0 keep.

Lemma trim_loops_wp keep al m :
  Forall ent_wf m ->
  wp (trim_loops keep al)
    (fun _ m2 => Forall ent_wf m2 /\ shrinks m m2 /\ Forall (good keep) m2 /\ Forall (aligned al) m2 /\
      (length m2 <= length m)%nat) (fun _ => True) m.
Proof.
  intros Hwf. unfold trim_loops. apply wp_bind, wp_count, wp_bind.
  eapply wp_mono; [apply overlap_loop_wp; [done|constructor|rewrite drop_0; lia]| |done].
  intros [] m1 ([Hwf1 Hs1] & Ha1 & Hl1).
  eapply wp_mono; [apply (drop_loop_wp keep al); [done|constructor|rewrite drop_0; lia]| |done].
  intros [] m2 Hd. pose proof (dropped_types _ _ _ _ Hd) as Hty. destruct Hd as (Hwf2 & Hg & _ & Ha2 & _ & Hl2).
  split_and!; [done| |done|by apply Ha2|lia].
  rewrite Hs1. intros a. destruct (kept_shrinks keep a (types_at m1 a)) as [k Hk]. exists k. by rewrite (Hty a).
Qed.

Lemma sanitise_split keep al m :
  pmm_sanitise_entries keep al m =
  (_ ← trim_loops keep al; _ ← sort_loop (S (length m)) 0; merge_loop (S (length m)) 0) m.
Proof.
  unfold pmm_sanitise_entries, trim_loops, get_count, mbind, st_bind, obind.
  by destruct (overlap_loop (S (length m)) 0 al m).
Qed.

(** Usable or empty entries only: the entries the first two loops may take away. *)
Definition spare (e : memmap_entry) : Prop := e_type e = MEMMAP_USABLE \/ e_length e = 0.

Lemma shrinks_nil m : Forall ent_wf m -> shrinks m [] -> Forall spare m.
Proof.
  intros Hwf Hs. apply Forall_forall. intros e He. unfold spare.
  destruct (decide (e_length e = 0)); [by right|left].
  assert (0 <= e_length e) by (rewrite Forall_forall in Hwf; destruct (Hwf e He); lia).
  destruct (Hs (e_base e)) as [k Hk]. simpl in Hk.
  assert (Hin : e_type e ∈ types_at m (e_base e)) by (apply types_at_elem; exists e; unfold covers; split_and!; done || lia).
  rewrite Hk in Hin. by apply elem_of_replicate in Hin as [].
Qed.

(** Any map without wrap-around, overlapping or not: no memory becomes usable, only
    usable memory is taken away, and the result is in order, unless no entry is left
    to sort. *)
Lemma sanitise_any keep al m :
  Forall ent_wf m -> zlen m < 2 ^ 64 ->
  match pmm_sanitise_entries keep al m with
  | Ret m' _ => Forall ent_wf m' /\ shrinks m m' /\ sanitised keep m' /\ Forall (aligned al) m'
  | Throw _ _ => True
  | Stuck => trim_loops keep al m = Ret [] tt /\ Forall spare m
  end.
Proof.
  intros Hwf Hlen. rewrite sanitise_split. pose proof (trim_loops_wp keep al m Hwf) as W. unfold wp in W.
  unfold mbind, st_bind at 1, obind. destruct (trim_loops keep al m) as [m2 []| |] eqn:E; [|done|done].
  destruct W as (Hwf2 & Hs & Hg & Ha & Hl). destruct (decide (m2 = [])) as [->|Hne].
  { pose proof (shrinks_nil m Hwf Hs) as Hsp.
    assert (Es : sort_loop (S (length m)) 0 [] = Stuck) by reflexivity.
    unfold st_bind, obind. rewrite Es. done. }
  assert (H1 : (1 <= length m2)%nat) by (destruct m2; [done|simpl; lia]).
  pose proof (sort_merge_wp keep al m2 (length m) Hwf2 Hg Ha ltac:(lia) Hlen) as W2. unfold wp in W2.
  unfold mbind in W2. destruct (st_bind _ _ _) as [m' []| |]; [|done|done].
  destruct W2 as (G1 & G2 & G3 & G4 & _). split_and!; [done| |done|done].
  rewrite Hs. by apply same_shrinks.
Qed.

(** A map without overlaps keeps all it says, but for usable memory in the first page
    if that is not to be used. *)
Lemma sanitise_ok keep m a0 :
  mm_ok m -> zlen m < 2 ^ 64 -> kept keep a0 (types_at m a0) <> [] ->
  wp (pmm_sanitise_entries keep false)
    (fun _ m' => mm_ok m' /\ sanitised keep m' /\ (forall a, types_at m' a ≡ₚ kept keep a (types_at m a)) /\
      (length m' <= length m)%nat) (fun _ => False) m.
Proof.
  intros Hok Hlen Hne. unfold pmm_sanitise_entries. apply wp_bind, wp_count, wp_bind.
  unfold wp at 1. rewrite overlap_loop_ok by (done || rewrite drop_0; lia). apply wp_bind.
  destruct Hok as [Hok Hd]. assert (Hwf : Forall ent_wf m) by by eapply Forall_impl; [exact Hok|intros ? []].
  eapply wp_mono; [apply (drop_loop_wp keep false); [done|constructor|rewrite drop_0; lia]| |done].
  intros [] m2 Hdr. pose proof (dropped_types _ _ _ _ Hdr) as Hty. destruct Hdr as (Hwf2 & Hg & Hf & _ & _ & Hl2).
  assert (H1 : (1 <= length m2)%nat).
  { apply (nonempty_types _ a0). intros E. specialize (Hty a0). rewrite E in Hty. by apply Permutation_nil in Hty. }
  assert (Hok2 : Forall ent_ok m2).
  { assert (Hf2 : Forall filled m2) by (apply Hf; eapply Forall_impl; [exact Hok|]; intros ? [] ?; done).
    apply Forall_forall. intros e He. rewrite Forall_forall in Hwf2, Hg, Hf2. split; [by apply Hwf2|].
    destruct (decide (e_type e = MEMMAP_USABLE)); [by apply Hg|by apply Hf2]. }
  eapply wp_mono; [apply (sort_merge_wp keep false); [done|done|by apply Forall_forall|lia|done]| |done].
  intros [] m' (G1 & G2 & _ & G4 & G5 & G6). split_and!; [split; [auto|]|done| |lia].
  - intros a. rewrite (G4 a), (Hty a). etrans; [apply kept_length|apply Hd].
  - intros a. by rewrite (G4 a), (Hty a).
Qed.
End PmmSanitise.
