(* ===== verification/PmmRange.v ===== *)
(** * Claiming ranges and checking memory

    [memmap_alloc_range_in] on maps without overlaps, and [check_usable_memory]
    against its definition by addresses. *)

From S2P Require Import Prelude Effects Pmm PmmFacts PmmSanitise.

Module PmmRange.
Import Effects Pmm PmmFacts PmmSanitise.
Open Scope Z_scope.

(** ** Claiming a range *)

(** An entry [memmap_alloc_range_in] would take the range from. *)
Definition suits (base len overlay : Z) (e : memmap_entry) : bool :=
  ((overlay =? 0) || (e_type e =? overlay)) && ((e_base e <=? base) && (base + len <=? e_base e + e_length e)).
Definition fits (m : mmap) (base len overlay : Z) : bool := existsb (suits base len overlay) m.

(** [m'] is [m] with the range given to [type], in sanitised form. *)
Definition claims (keep : bool) (m : mmap) (base len type : Z) (m' : mmap) : Prop :=
  mm_ok m' /\ sanitised keep m' /\
  forall a, types_at m' a ≡ₚ kept keep a (if decide (base <= a < base + len) then [type] else types_at m a).

(** The first byte of the range stays in the map. *)
Definition survives (keep : bool) (base type : Z) : Prop := keep = true \/ 0x1000 <= base \/ type <> MEMMAP_USABLE.

Lemma survives_kept keep base type : survives keep base type -> kept keep base [type] <> [].
Proof.
  intros H. unfold kept. case_match eqn:E; [done|]. apply orb_false_iff in E as [-> E].
  destruct H as [?|[?|?]]; [done|lia|]. by rewrite filter_cons_True.
Qed.

Lemma claimed_ok m base len type m' :
  disjoint m -> Forall ent_ok m' -> claimed m base len type m' -> mm_ok m'.
Proof. intros Hd Hok Hc. split; [done|]. intros a. rewrite (Hc a). case_decide; [done|apply Hd]. Qed.

Section alloc.
Variables (max : Z) (keep : bool) (base len type : Z).
Hypothesis Hrange : 0 <= base /\ 0 < len /\ base + len < 2 ^ 64.
Hypothesis Hsurv : survives keep base type.

(** The map may be full at the start, and is when the panic comes. *)
Definition full (m m' : mmap) : Prop := max < zlen m + 2 /\ max <= zlen m'.

(** The map after [pmm_new_entry]. *)
Definition entered (m m' : mmap) : Prop :=
  Forall ent_ok m' /\ claimed m base len type m' /\ (length m' <= length m + 2)%nat /\ zlen m' <= max.

Lemma new_entry_wp m :
  mm_ok m -> wp (pmm_new_entry max base len type) (fun ok m' => ok = true /\ entered m m') (full m) m.
Proof.
  intros [Hok Hd]. pose proof (nests_disjoint base (base + len) ltac:(lia) m Hd) as Hn.
  eapply wp_mono; [apply pmm_new_entry_wp; [done|lia|lia|lia]| |intros h; unfold full; lia].
  intros ok m1 (-> & Hok1 & Hc & Hl & Hmx). split; [done|]. split_and!; [done|done|lia|done].
Qed.

Lemma sanitise_entered m m1 :
  mm_ok m -> zlen m + 2 < 2 ^ 64 -> entered m m1 ->
  wp (_ ← pmm_sanitise_entries keep false; mret true)
    (fun r m' => r = true /\ claims keep m base len type m' /\ zlen m' <= max) (fun _ => False) m1.
Proof.
  intros [Hok Hd] Hlen (Hok1 & Hc & Hl & Hmx). apply wp_bind. pose proof (claimed_ok _ _ _ _ _ Hd Hok1 Hc) as Hm1.
  eapply wp_mono; [apply (sanitise_ok keep m1 base); [done|lia|]| |done].
  - pose proof (Hc base) as Hb. rewrite decide_True in Hb by lia. intros E.
    assert (Hk : kept keep base [type] ≡ₚ []) by by rewrite <- Hb, E.
    apply Permutation_nil_r in Hk. by apply (survives_kept _ _ _ Hsurv).
  - intros [] m' (H1 & H2 & H3 & H4). apply wp_ret. split; [done|]. split; [|lia]. split; [done|]. split; [done|].
    intros a. by rewrite (H3 a), (Hc a).
Qed.

(** The test of the search loop. *)
Lemma suits_test e overlay :
  ent_ok e ->
  suits base len overlay e =
    negb (negb (overlay =? 0) && negb (e_type e =? overlay))
    && ((e_base e <=? base) && (base <? e_top e) && (u64 (base + len) <=? e_top e)).
Proof.
  intros [He Hp]. rewrite (e_top_wf e He). unfold suits. unwrap.
  destruct (overlay =? 0), (e_type e =? overlay); cbn [negb andb orb]; lia.
Qed.

Definition found (m : mmap) (i : nat) (overlay : Z) (f : search) (m' : mmap) : Prop :=
  if existsb (suits base len overlay) (drop i m) then f = Success /\ entered m m' else f = NotFound /\ m' = m.

Lemma alloc_loop_wp overlay m n i :
  mm_ok m -> (i + n)%nat = length m ->
  wp (alloc_loop max n i base len type overlay false) (found m i overlay) (full m) m.
Proof.
  intros Hm. revert i. induction n as [|n IH]; intros i Hn; simpl.
  { apply wp_ret. unfold found. by rewrite drop_ge by lia. }
  destruct (lookup_lt_is_Some_2 m i) as [e He]; [lia|]. apply wp_bind. eapply wp_get; [exact He|].
  assert (Hs : suits base len overlay e = _) by (apply suits_test; by eapply Forall_lookup_1; [apply Hm|]).
  assert (Hd : drop i m = e :: drop (S i) m) by by apply drop_S.
  assert (Hnext : suits base len overlay e = false ->
    wp (alloc_loop max n (S i) base len type overlay false) (found m i overlay) (full m) m).
  { intros Hf. eapply wp_mono; [apply IH; lia| |done]. intros f m'. unfold found. rewrite Hd. simpl. by rewrite Hf. }
  destruct (negb (overlay =? 0) && negb (e_type e =? overlay)); [by apply Hnext|]. cbn [negb andb] in Hs.
  rewrite <- Hs. destruct (suits base len overlay e) eqn:E; [|by apply Hnext].
  apply wp_bind. eapply wp_mono; [by apply new_entry_wp| |done]. intros ok m' [-> Hen]. apply wp_ret.
  unfold found. rewrite Hd. simpl. by rewrite E.
Qed.

Lemma alloc_range_wp overlay do_panic new_entry m :
  mm_ok m -> zlen m + 2 < 2 ^ 64 ->
  wp (memmap_alloc_range_in max keep base len type overlay do_panic false new_entry)
    (fun r m' => r = new_entry || fits m base len overlay /\
      if r then claims keep m base len type m' /\ zlen m' <= max else m' = m)
    (fun m' => full m m' \/ new_entry || fits m base len overlay = false /\ do_panic = true) m.
Proof.
  intros Hm Hlen. unfold memmap_alloc_range_in. rewrite (proj2 (Z.eqb_neq len 0)) by lia. cbn [andb].
  apply wp_bind, wp_count, wp_bind.
  eapply wp_mono; [by apply (alloc_loop_wp overlay m _ 0)| |by left]. intros f m1. unfold found. rewrite drop_0.
  fold (fits m base len overlay). destruct (fits m base len overlay); intros [-> Hf].
  - rewrite orb_true_r. eapply wp_mono; [by eapply sanitise_entered| |done]. by intros r m' (-> & ? & ?).
  - subst m1. rewrite orb_false_r. destruct new_entry; cbn [negb andb].
    + apply wp_bind. eapply wp_mono; [by apply new_entry_wp| |by left]. intros ok m' [-> Hen]. cbn [negb].
      eapply wp_mono; [by eapply sanitise_entered| |done]. by intros r m2 (-> & ? & ?).
    + destruct do_panic; [apply wp_throw; by right|by apply wp_ret].
Qed.
End alloc.

(** ** Checking that a range is memory *)

Section usable.
Variables (base top : Z).
Hypothesis Hrange : 0 <= base < top /\ top < 2 ^ 64.

(** The bytes of [e] below [t] in the range, and those of all entries for memory. *)
Definition overlap (t : Z) (e : memmap_entry) : Z :=
  Z.max 0 (Z.min t (e_base e + e_length e) - Z.max base (e_base e)).
Definition overlaps (t : Z) (m : mmap) : Z :=
  foldr (fun e n => (if is_ram (e_type e) then overlap t e else 0) + n) 0 m.

Lemma overlaps_cons t e m : overlaps t (e :: m) = (if is_ram (e_type e) then overlap t e else 0) + overlaps t m.
Proof. done. Qed.

Lemma overlaps_pos t m : 0 <= overlaps t m.
Proof. induction m as [|e m IH]; simpl; [done|]. unfold overlap. case_match; lia. Qed.

Lemma usable_loop_spec m rem :
  Forall ent_ok m -> 0 < rem <= top - base -> overlaps top m <= rem ->
  usable_loop m base top rem = (overlaps top m =? rem).
Proof.
  intros Hm. revert rem. induction Hm as [|e m [Hwf Hp] _ IH]; intros rem Hrem Hle; cbn [usable_loop]; [unfold overlaps; simpl; destruct rem; done || lia|].
  rewrite overlaps_cons in *. destruct (is_ram (e_type e)) eqn:Er; cbn [negb].
  2:{ rewrite Z.add_0_l in *. by apply IH. }
  rewrite (e_top_wf e Hwf). destruct Hwf as (? & ? & ?).
  pose proof (overlaps_pos top m) as Hpos. unfold overlap, full_overlap_check in *.
  destruct (_ && _ && (_ && _)) eqn:Ef; [lia|].
  destruct ((base <=? e_base e) && (e_base e <? top)) eqn:Eb, ((base <? e_base e + e_length e) && (e_base e + e_length e <=? top)) eqn:Et;
    cbn [orb]; try (unwrap; case_match eqn:E0; [lia|]); rewrite IH by lia; lia.
Qed.

(** The number of entries for memory at an address, and their sum below [t]. *)
Definition rams (m : mmap) (a : Z) : Z := zlen (filter (fun t => is_ram t = true) (types_at m a)).

Lemma rams_cons e m a : rams (e :: m) a = (if decide (covers e a) then if is_ram (e_type e) then 1 else 0 else 0) + rams m a.
Proof.
  unfold rams. rewrite types_at_cons, filter_app, length_app, Nat2Z.inj_add. f_equal.
  unfold piece. case_decide; [|done]. destruct (is_ram (e_type e)) eqn:E.
  - by rewrite filter_cons_True.
  - rewrite filter_cons_False by by rewrite E. done.
Qed.

(** One more address. *)
Lemma overlaps_succ t m : base <= t -> overlaps (t + 1) m = overlaps t m + rams m t.
Proof.
  intros Ht. induction m as [|e m IH]; [done|]. rewrite rams_cons. simpl. rewrite IH.
  unfold overlap. case_decide as Hc; unfold covers in Hc; destruct (is_ram (e_type e)); lia.
Qed.

Lemma overlaps_all n m :
  disjoint m ->
  overlaps (base + Z.of_nat n) m <= Z.of_nat n /\
  (overlaps (base + Z.of_nat n) m = Z.of_nat n <-> forall a, base <= a < base + Z.of_nat n -> 0 < rams m a).
Proof.
  intros Hd. induction n as [|n [IH1 IH2]].
  - rewrite Z.add_0_r. assert (overlaps base m = 0) as ->; [|split; [lia|split; [intros; lia|done]]].
    induction m as [|e m IHm]; [done|]. simpl. rewrite IHm; [unfold overlap; destruct (is_ram (e_type e)); lia|].
    intros a. specialize (Hd a). rewrite types_at_cons, length_app in Hd. lia.
  - replace (base + Z.of_nat (S n)) with (base + Z.of_nat n + 1) by lia. rewrite overlaps_succ by lia.
    assert (Hr : 0 <= rams m (base + Z.of_nat n) <= 1).
    { unfold rams. pose proof (length_filter (fun t => is_ram t = true) (types_at m (base + Z.of_nat n))).
      specialize (Hd (base + Z.of_nat n)). lia. }
    split; [lia|]. split.
    + intros E a Ha. destruct (decide (a = base + Z.of_nat n)) as [->|]; [lia|]. apply IH2; lia.
    + intros Ha. assert (0 < rams m (base + Z.of_nat n)) by (apply Ha; lia).
      assert (overlaps (base + Z.of_nat n) m = Z.of_nat n) by (apply IH2; intros; apply Ha; lia). lia.
Qed.

Lemma rams_pos m a : 0 < rams m a <-> exists t, t ∈ types_at m a /\ is_ram t = true.
Proof.
  unfold rams. split.
  - intros H. destruct (filter _ _) as [|t l] eqn:E; [simpl in H; lia|]. exists t.
    assert (Ht : t ∈ filter (fun t => is_ram t = true) (types_at m a)) by (rewrite E; left).
    apply list_elem_of_filter in Ht. tauto.
  - intros (t & Ht & Hr). assert (Hin : t ∈ filter (fun t => is_ram t = true) (types_at m a)) by by apply list_elem_of_filter.
    destruct (filter _ _); [by apply elem_of_nil in Hin|simpl; lia].
Qed.

Lemma check_usable_spec m :
  mm_ok m ->
  check_usable_memory m base top = true <->
  forall a, base <= a < top -> exists t, t ∈ types_at m a /\ is_ram t = true.
Proof.
  intros [Hok Hd]. unfold check_usable_memory. unwrap.
  destruct (overlaps_all (Z.to_nat (top - base)) m Hd) as [H1 H2].
  rewrite Z2Nat.id in * by lia. replace (base + (top - base)) with top in * by lia.
  rewrite usable_loop_spec by (done || lia). rewrite Z.eqb_eq, H2. by setoid_rewrite rams_pos.
Qed.
End usable.

End PmmRange.
