(* ===== verification/PmmAlloc.v ===== *)
(** * The allocator

    [ext_mem_alloc] and its variants, [conv_mem_alloc] and [pmm_free] on a memory
    map without overlaps. *)

From S2P Require Import Prelude Effects Pmm PmmFacts PmmSanitise PmmRange.

Module PmmAlloc.
Import Effects Pmm PmmFacts PmmSanitise PmmRange.
Open Scope Z_scope.

(** The map ends below the addresses at which signed arithmetic would overflow. *)
Definition bounded (m : mmap) : Prop := forall a, types_at m a <> [] -> a < 2 ^ 62.

(** The invariant of the allocator. *)
Definition pmm_ok (s : pmm) : Prop :=
  mm_ok (memmap s) /\ bounded (memmap s) /\ zlen (memmap s) <= memmap_max_entries s /\ memmap_max_entries s + 4 < 2 ^ 64.

Abbreviation keep s := (pmm_sanitiser_keep_first_page s).

Lemma bounded_entry m e : bounded m -> ent_ok e -> e ∈ m -> e_base e + e_length e <= 2 ^ 62.
Proof.
  intros Hb [(? & ? & ?) ?] He. assert (e_base e + e_length e - 1 < 2 ^ 62); [|lia]. apply Hb. intros E.
  assert (Hin : e_type e ∈ types_at m (e_base e + e_length e - 1))
    by (apply types_at_elem; exists e; unfold covers; split_and!; done || lia).
  rewrite E in Hin. by apply elem_of_nil in Hin.
Qed.

Lemma claims_bounded keep m base len type m' :
  bounded m -> base + len <= 2 ^ 62 -> claims keep m base len type m' -> bounded m'.
Proof.
  intros Hb Hl (_ & _ & Ht) a Ha. destruct (decide (base <= a < base + len)) as [|Hn]; [lia|]. apply Hb. intros E.
  apply Ha, Permutation_nil_r. rewrite (Ht a), decide_False, E by done. unfold kept. by case_match.
Qed.

Lemma kept_kept keep a l : kept keep a (kept keep a l) = kept keep a l.
Proof. unfold kept. case_match; [done|]. by rewrite list_filter_filter_l. Qed.

(** An address of an entry has no other type. *)
Lemma types_at_entry m e a : mm_ok m -> e ∈ m -> covers e a -> types_at m a = [e_type e].
Proof.
  intros [_ Hd] He Hc. assert (Hin : e_type e ∈ types_at m a) by (apply types_at_elem; eauto).
  specialize (Hd a). destruct (types_at m a) as [|t [|]]; [by apply elem_of_nil in Hin| |simpl in Hd; lia].
  by apply list_elem_of_singleton in Hin as ->.
Qed.

(** ** Operations on the state *)

Lemma wp_on_memmap {A} (f : M A) (Q : A -> pmm -> Prop) (E : pmm -> Prop) s :
  wp f (fun a m => Q a (set_memmap s m)) (fun m => E (set_memmap s m)) (memmap s) -> wp (on_memmap f) Q E s.
Proof. unfold wp, on_memmap. by destruct (f (memmap s)). Qed.

Lemma wp_read {A} (f : pmm -> A) (Q : A -> pmm -> Prop) E s : Q (f s) s -> wp (read f) Q E s.
Proof. done. Qed.

(** A second sanitising changes nothing more. *)
Lemma sanitise_claims s m base len type (Q : unit -> pmm -> Prop) E :
  claims (keep s) m base len type (memmap s) -> 0 < len -> survives (keep s) base type -> zlen (memmap s) < 2 ^ 64 ->
  (forall m', claims (keep s) m base len type m' -> (length m' <= length (memmap s))%nat -> Q tt (set_memmap s m')) ->
  wp (sanitise false) Q E s.
Proof.
  intros (Hok & Hs & Ht) Hl Hsv Hlen HQ. unfold sanitise. apply wp_bind, wp_read, wp_on_memmap.
  eapply wp_mono; [apply (sanitise_ok (keep s) (memmap s) base); [done|done|]| |done].
  - intros En. pose proof (Ht base) as Hb. rewrite decide_True in Hb by lia.
    assert (Hk : kept (keep s) base [type] ≡ₚ []) by by rewrite <- (kept_kept _ _ [type]), <- Hb, En.
    apply Permutation_nil_r in Hk. by apply (survives_kept _ _ _ Hsv).
  - intros [] m' (H1 & H2 & H3 & H4). apply HQ; [|done]. split; [done|]. split; [done|].
    intros a. by rewrite (H3 a), (Ht a), kept_kept.
Qed.

(** [memmap_alloc_range] on the allocator's map. *)
Lemma range_wp s base len type overlay do_panic new_entry (Q : bool -> pmm -> Prop) (E : pmm -> Prop) :
  pmm_ok s -> 0 <= base -> 0 < len -> base + len < 2 ^ 64 -> survives (keep s) base type ->
  (new_entry || fits (memmap s) base len overlay = true ->
    forall m', claims (keep s) (memmap s) base len type m' -> zlen m' <= memmap_max_entries s ->
    Q true (set_memmap s m')) ->
  (new_entry || fits (memmap s) base len overlay = false -> Q false (set_memmap s (memmap s))) ->
  (forall m', full (memmap_max_entries s) (memmap s) m' \/
    new_entry || fits (memmap s) base len overlay = false /\ do_panic = true -> E (set_memmap s m')) ->
  wp (memmap_alloc_range base len type overlay do_panic false new_entry) Q E s.
Proof.
  intros (Hok & _ & Hmx & Hm64) H0 H1 H2 Hsv HQ HQ0 HE. unfold memmap_alloc_range.
  apply wp_bind, wp_read, wp_bind, wp_read, wp_on_memmap.
  eapply wp_mono; [apply (alloc_range_wp (memmap_max_entries s) (keep s) base len type ltac:(lia) Hsv); [done|lia]| |].
  - intros r m' [Hr Hm']. destruct (new_entry || fits (memmap s) base len overlay) eqn:Ef; subst r.
    + destruct Hm' as [? ?]. by apply HQ.
    + subst m'. by apply HQ0.
  - intros h [?|[? ?]]; apply HE; auto.
Qed.

Lemma set_memmap_id s : set_memmap s (memmap s) = s.
Proof. by destruct s. Qed.

(** ** The top-down allocator *)

(** The memory map may be full at the start, and is when the panic comes. *)
Definition map_full (s s' : pmm) : Prop :=
  memmap_max_entries s < zlen (memmap s) + 2 /\ memmap_max_entries s' <= zlen (memmap s').

(** The end of the part of an entry that may be used. *)
Definition limit (high : bool) (e : memmap_entry) : Z :=
  if high then e_base e + e_length e else Z.min (e_base e + e_length e) 0x100000000.

(** There is room for [count] bytes in [e]. *)
Definition room (count alignment : Z) (high : bool) (e : memmap_entry) : Prop :=
  exists q, q mod alignment = 0 /\ e_base e <= q /\ q + count <= limit high e.

Definition zeroed (p count : Z) (f : Z -> Z) : Z -> Z := fun a => if (p <=? a) && (a <? p + count) then 0 else f a.

(** The entries from the [i]-th on that may be used have no room. *)
Definition none_from (s : pmm) (i : nat) (count alignment : Z) (high : bool) : Prop :=
  forall e, e ∈ drop i (memmap s) -> e_type e = MEMMAP_USABLE -> ~ room count alignment high e.

(** The range ends where the last usable entry with room ends. *)
Definition topmost (s : pmm) (count alignment : Z) (high : bool) (p len : Z) : Prop :=
  exists i e, memmap s !! i = Some e /\ e_type e = MEMMAP_USABLE /\ e_base e <= p /\ p + len = limit high e /\
    none_from s (S i) count alignment high.

(** A block of [count] bytes at [p]: [len] bytes of usable memory are taken for it, the
    fewest that end with the entry. *)
Definition granted (s : pmm) (count type alignment : Z) (high : bool) (p : Z) (s' : pmm) : Prop :=
  exists len m', count <= len < count + alignment /\ 0 <= p /\ p mod alignment = 0 /\ p + len <= 2 ^ 62 /\
    ((high = false -> p + len <= 0x100000000) /\ topmost s count alignment high p len) /\
    (forall a, p <= a < p + len -> types_at (memmap s) a = [MEMMAP_USABLE]) /\
    claims (keep s) (memmap s) p len type m' /\ zlen m' <= memmap_max_entries s /\
    s' = set_mem (zeroed p count (mem s)) (set_memmap s m').

Lemma align_up_spec count alignment :
  0 < count -> 0 < alignment -> count + alignment <= 2 ^ 62 ->
  ALIGN_UP count alignment mod alignment = 0 /\ count <= ALIGN_UP count alignment < count + alignment.
Proof.
  intros Hc Ha Hs. unfold ALIGN_UP, DIV_ROUNDUP. rewrite (wrap_small 64 (alignment - 1)) by (unfold in_u; lia).
  rewrite (wrap_small 64 (count + (alignment - 1))) by (unfold in_u; lia).
  set (n := count + (alignment - 1)). pose proof (Z.div_mod n alignment ltac:(lia)).
  pose proof (Z.mod_pos_bound n alignment ltac:(lia)). rewrite Z.mul_comm in H.
  rewrite wrap_small by (unfold in_u; lia). split; [apply Z_mod_mult|lia].
Qed.

(** The place for a block of [count] bytes that ends at [top]. *)
Definition place (top count alignment : Z) : Z := s64 (ALIGN_DOWN (u64 (top - count)) alignment).

Lemma place_spec base top count alignment :
  0 <= base <= top -> top <= 2 ^ 62 -> 0 < count <= 2 ^ 62 -> 0 < alignment <= 2 ^ 62 ->
  let p := place top count alignment in
  if p <? base then forall q, q mod alignment = 0 -> base <= q -> q + count <= top -> False
  else p mod alignment = 0 /\ base <= p /\ p + count <= top < p + count + alignment.
Proof.
  intros Hb Ht Hc Ha p. unfold p, place, ALIGN_DOWN. set (v := u64 (top - count)).
  assert (Hv : 0 <= v < 2 ^ 64) by (apply wrap_range; lia).
  pose proof (Z.div_mod v alignment ltac:(lia)) as Hdm. pose proof (Z.mod_pos_bound v alignment ltac:(lia)).
  assert (0 <= alignment * (v / alignment)) by (apply Z.mul_nonneg_nonneg; [lia|apply Z.div_pos; lia]).
  rewrite (Z.mul_comm (v / alignment)), (wrap_small 64 (alignment * (v / alignment))) by (unfold in_u; lia).
  destruct (Z.lt_ge_cases (top - count) 0) as [Hneg|Hpos].
  - assert (Ev : v = top - count + 2 ^ 64).
    { unfold v, wrap. rewrite <- (Z.mod_small (top - count + 2 ^ 64) (2 ^ 64)) by lia.
      by rewrite <- (Z_mod_plus_full (top - count) 1 (2 ^ 64)), Z.mul_1_l. }
    assert (Es : s64 (alignment * (v / alignment)) = alignment * (v / alignment) - 2 ^ 64).
    { unfold swrap. replace (alignment * (v / alignment) + 2 ^ (64 - 1)) with
        (alignment * (v / alignment) - 2 ^ 63 + 1 * 2 ^ 64) by lia.
      rewrite Z_mod_plus_full, Z.mod_small; lia. }
    rewrite Es, (proj2 (Z.ltb_lt _ _)) by lia. intros q _ ? ?. lia.
  - assert (Ev : v = top - count) by (unfold v; apply wrap_small; unfold in_u; lia).
    rewrite swrap_small by (unfold in_s; lia).
    case_match eqn:E.
    + apply Z.ltb_lt in E. intros q Hq Hbq Hqt. apply Z.mod_divide in Hq as [k ->]; [|lia].
      assert (k <= v / alignment) by (apply Z.div_le_lower_bound; lia). nia.
    + apply Z.ltb_ge in E. rewrite Z.mul_comm, Z_mod_mult. lia.
Qed.

Lemma sub64_wp a b (Q : Z -> pmm -> Prop) E s : - 2 ^ 63 <= a - b < 2 ^ 63 -> Q (a - b) s -> wp (sub64 a b) Q E s.
Proof. intros H HQ. unfold sub64. by rewrite (proj2 (Z.leb_le _ _)), (proj2 (Z.ltb_lt _ _)) by lia. Qed.

Lemma wp_memset0 p count (Q : unit -> pmm -> Prop) E s :
  Q tt (set_mem (zeroed p count (mem s)) s) -> wp (memset0 p count) Q E s.
Proof. done. Qed.

Lemma survives_type k base type : type <> MEMMAP_USABLE -> survives k base type.
Proof. intros. unfold survives. tauto. Qed.

(** Taking [[p, top)] out of a usable entry. *)
Lemma grant_wp s i e p top count type alignment high :
  pmm_ok s -> memmap s !! i = Some e -> none_from s (S i) count alignment high ->
  e_type e = MEMMAP_USABLE -> type <> MEMMAP_USABLE -> 0 < count ->
  p mod alignment = 0 -> e_base e <= p -> p + count <= top < p + count + alignment -> top = limit high e ->
  wp (_ ← memmap_alloc_range p (top - p) type MEMMAP_USABLE true false false;
      _ ← memset0 p count; _ ← sanitise false; mret p)
    (fun p s' => granted s count type alignment high p s') (map_full s) s.
Proof.
  intros Hs Hi Hnone Hu Hty Hc Hal Hb Ht Htop. pose proof Hs as (Hok & Hbd & Hmx & Hm64).
  assert (He : e ∈ memmap s) by by eapply list_elem_of_lookup_2.
  assert (Hek : ent_ok e) by by apply (proj1 (Forall_forall _ _) (proj1 Hok)).
  pose proof (bounded_entry _ _ Hbd Hek He) as Hbe. destruct Hek as [(? & ? & ?) ?].
  assert (Hlim : top <= e_base e + e_length e /\ (high = false -> top <= 0x100000000))
    by (subst top; unfold limit; destruct high; lia).
  assert (Hf : fits (memmap s) p (top - p) MEMMAP_USABLE = true).
  { unfold fits. apply existsb_exists. exists e. split; [by apply list_elem_of_In|]. unfold suits. rewrite Hu. cbn -[Z.leb]. lia. }
  apply wp_bind, range_wp; [done|lia|lia|lia|by apply survives_type| | |].
  - intros _ m1 Hcl Hl1. apply wp_bind, wp_memset0, wp_bind.
    eapply (sanitise_claims _ (memmap s) p (top - p) type); [exact Hcl|lia|by apply survives_type|simpl; lia|].
    intros m' Hcl' Hl'. simpl in Hl'. apply wp_ret. exists (top - p), m'. split_and!; [lia|lia|lia|done|lia|intros Hh; destruct Hlim as [_ Hl]; specialize (Hl Hh); lia| | |done|lia|done].
    { exists i, e. split_and!; [done|done|done|lia|done]. }
    intros a Ha. rewrite <- Hu. apply types_at_entry; [done|done|]. unfold covers. lia.
  - rewrite Hf. done.
  - rewrite Hf. intros m' [?|[? _]]; done.
Qed.

(** No room in the first [i] entries. *)
Definition no_room (s : pmm) (i : nat) (count alignment : Z) (high : bool) : Prop :=
  forall e, e ∈ take i (memmap s) -> e_type e = MEMMAP_USABLE -> ~ room count alignment high e.

Lemma ext_loop_wp s i count type alignment high :
  pmm_ok s -> type <> MEMMAP_USABLE -> 0 < count <= 2 ^ 62 -> 0 < alignment <= 2 ^ 62 -> (i <= length (memmap s))%nat ->
  none_from s i count alignment high ->
  wp (ext_loop i count type alignment high) (fun p s' => granted s count type alignment high p s')
    (fun s' => map_full s s' \/ s' = s /\ no_room s i count alignment high) s.
Proof.
  intros Hs Hty Hc Ha. induction i as [|i IH]; intros Hi Hfrom; cbn [ext_loop].
  { apply wp_throw. right. split; [done|]. intros e He. by apply elem_of_nil in He. }
  destruct (lookup_lt_is_Some_2 (memmap s) i) as [e He]; [lia|].
  apply wp_bind, wp_on_memmap. eapply wp_get; [exact He|]. rewrite set_memmap_id.
  assert (Hnext : (e_type e = MEMMAP_USABLE -> ~ room count alignment high e) ->
    wp (ext_loop i count type alignment high) (fun p s' => granted s count type alignment high p s')
      (fun s' => map_full s s' \/ s' = s /\ no_room s (S i) count alignment high) s).
  { intros Hn. eapply wp_mono; [apply IH; [lia|]|done|].
    { intros e0 H0. rewrite (drop_S _ _ _ He) in H0. apply elem_of_cons in H0 as [->|H0]; [done|by apply Hfrom]. } intros h [?|[-> Hr]]; [by left|right]. split; [done|]. intros e0 H0 Hu.
    rewrite (take_S_r _ _ _ He) in H0. apply elem_of_app in H0 as [H0|H0]; [by apply Hr|].
    apply list_elem_of_singleton in H0 as ->. by apply Hn. }
  change (e_type e =? 1) with (e_type e =? MEMMAP_USABLE).
  destruct (e_type e =? MEMMAP_USABLE) eqn:Eu; [apply Z.eqb_eq in Eu|apply Z.eqb_neq in Eu]; cbn [negb]; [|by apply Hnext].
  assert (Hin : e ∈ memmap s) by by eapply list_elem_of_lookup_2.
  pose proof Hs as (Hok & Hbd & Hmx & Hm64).
  assert (Hek : ent_ok e) by by apply (proj1 (Forall_forall _ _) (proj1 Hok)).
  pose proof (bounded_entry _ _ Hbd Hek Hin) as Hbe. destruct Hek as [Hwf Hpos]. rewrite (e_top_wf e Hwf).
  destruct Hwf as (H0 & _ & H64). rewrite !(swrap_small 64) by (unfold in_s; lia).
  set (clipped := _ && negb high). set (top := if clipped then _ else _).
  assert (Etop : top = limit high e).
  { unfold top, clipped, limit. destruct high; cbn [negb]; [by rewrite andb_false_r|].
    rewrite andb_true_r. destruct (0x100000000 <=? e_base e + e_length e) eqn:E; lia. }
  destruct (clipped && (top <=? e_base e)) eqn:Ecl.
  { apply Hnext. intros _ (q & _ & Hq1 & Hq2). rewrite <- Etop in Hq2. lia. }
  assert (Hbt : e_base e <= top) by (unfold top in *; destruct clipped; lia).
  assert (Htb : top <= 2 ^ 62) by (rewrite Etop; unfold limit; destruct high; lia).
  apply wp_bind, sub64_wp; [lia|]. fold (place top count alignment).
  pose proof (place_spec (e_base e) top count alignment ltac:(lia) Htb Hc Ha) as Hp. cbv zeta in Hp.
  destruct (place top count alignment <? e_base e) eqn:Ep.
  { apply Hnext. intros _ (q & Hq0 & Hq1 & Hq2). apply (Hp q); [done|done|lia]. }
  destruct Hp as (Hp1 & Hp2 & Hp3). apply wp_bind, sub64_wp; [lia|]. unwrap.
  eapply wp_mono; [eapply grant_wp; [done|exact He|done|done|done|lia|done|lia|lia|done]|done|by left].
Qed.
End PmmAlloc.
