(* ===== verification/PmmSpec.v ===== *)
(** * Correctness of the physical memory manager

    The theorems about sanitising, claiming and checking ranges, the allocators,
    and runs of allocations and releases. *)

From S2P Require Import Prelude Effects Pmm PmmFacts PmmSanitise PmmRange PmmAlloc.

Module PmmSpec.
Import Effects Pmm PmmFacts PmmSanitise PmmRange PmmAlloc.
Open Scope Z_scope.

(** ** Single operations *)

Lemma granted_ok s count type alignment high p s' :
  pmm_ok s -> granted s count type alignment high p s' -> pmm_ok s'.
Proof.
  intros (Hok & Hb & Hmx & Hm64) (len & m' & ? & ? & ? & ? & ? & ? & Hc & Hl & ->).
  split; [apply Hc|]. split; [|done]. by eapply claims_bounded.
Qed.

(** What a call of the top-down allocator may do. *)
Lemma ext_alloc_wp s count type alignment high :
  pmm_ok s -> allocations_disallowed s = false -> type <> MEMMAP_USABLE -> 0 < count -> 0 < alignment ->
  count + alignment <= 2 ^ 62 ->
  wp (ext_mem_alloc_type_aligned_mode count type alignment high)
    (fun p s' => granted s (ALIGN_UP count alignment) type alignment high p s')
    (fun s' => map_full s s' \/ s' = s /\
      no_room s (length (memmap s)) (ALIGN_UP count alignment) alignment high) s.
Proof.
  intros Hs Hd Ht Hc Ha Hsum. destruct (align_up_spec count alignment Hc Ha Hsum) as [_ Hup].
  unfold ext_mem_alloc_type_aligned_mode. rewrite (proj2 (Z.eqb_neq alignment 0)) by lia.
  apply wp_bind, wp_read. rewrite Hd. apply wp_bind, wp_on_memmap, wp_count. rewrite set_memmap_id.
  apply ext_loop_wp; [done|done|lia|lia|lia|]. intros e He. rewrite drop_ge in He by lia. by apply elem_of_nil in He.
Qed.

Lemma pmm_free_wp s ptr count :
  pmm_ok s -> allocations_disallowed s = false -> 0 <= ptr -> 0 < count -> count + 4096 <= 2 ^ 62 ->
  ptr + ALIGN_UP count 4096 <= 2 ^ 62 ->
  survives (keep s) ptr MEMMAP_USABLE ->
  wp (pmm_free ptr count)
    (fun _ s' => exists m', s' = set_memmap s m' /\
      claims (keep s) (memmap s) ptr (ALIGN_UP count 4096) MEMMAP_USABLE m' /\ zlen m' <= memmap_max_entries s)
    (fun _ => memmap_max_entries s < zlen (memmap s) + 2) s.
Proof.
  intros Hs Hd Hp Hc Hsum Hend Hsv. destruct (align_up_spec count 4096 Hc ltac:(lia) ltac:(lia)) as [_ Hup].
  unfold pmm_free. apply wp_bind, wp_read. rewrite Hd. apply wp_bind, range_wp; [done|lia|lia|lia|done|..].
  - intros _ m' Hcl Hl. apply wp_ret. eauto.
  - done.
  - intros m' [[? _]|[? _]]; done.
Qed.

(** [conv_mem_alloc]: the state changes in the map, the memory and the next address. *)
Definition conv_granted (s : pmm) (count p : Z) (s' : pmm) : Prop :=
  conv_base s <= p /\ p mod 4096 = 0 /\ p + count <= 0x100000 /\
  (forall a, p <= a < p + count -> types_at (memmap s) a = [MEMMAP_USABLE]) /\
  claims (keep s) (memmap s) p count MEMMAP_BOOTLOADER_RECLAIMABLE (memmap s') /\
  mem s' = zeroed p count (mem s) /\ conv_base s' = p + count /\
  zlen (memmap s') <= memmap_max_entries s /\ memmap_max_entries s' = memmap_max_entries s /\ keep s' = keep s.

(** No page from [b] on is the start of [count] usable bytes below 0x100000. *)
Definition conv_full (s : pmm) (b count : Z) : Prop :=
  forall p, b <= p -> p mod 4096 = 0 -> p + count <= 0x100000 -> fits (memmap s) p count MEMMAP_USABLE = false.

Definition with_conv (b : Z) (s : pmm) : pmm :=
  MkPmm (memmap s) (memmap_max_entries s) (untouched_memmap s) (allocations_disallowed s)
    (pmm_sanitiser_keep_first_page s) b (efi_mmap s) (efi_boot_services_exited s) (efi_calls s) (mem s).

Lemma fits_usable m p count a :
  mm_ok m -> fits m p count MEMMAP_USABLE = true -> p <= a < p + count -> types_at m a = [MEMMAP_USABLE].
Proof.
  intros Hm Hf Ha. unfold fits in Hf. apply existsb_exists in Hf as (e & He & Hs). apply list_elem_of_In in He.
  unfold suits in Hs. apply andb_true_iff in Hs as [Ht Hr]. cbn [Z.eqb MEMMAP_USABLE orb] in Ht.
  assert (e_type e = MEMMAP_USABLE) as <- by (unfold MEMMAP_USABLE in *; lia).
  apply types_at_entry; [done|done|]. unfold covers. lia.
Qed.

Lemma next_page p b : p mod 4096 = 0 -> b mod 4096 = 0 -> b <= p -> p <> b -> b + 4096 <= p.
Proof.
  intros Hp Hb Hle Hne. destruct (proj1 (Z.mod_divide p 4096 ltac:(lia)) Hp) as [x ->].
  destruct (proj1 (Z.mod_divide b 4096 ltac:(lia)) Hb) as [y ->]. lia.
Qed.

Lemma conv_loop_wp fuel s count :
  pmm_ok s -> 0 < count <= 2 ^ 62 -> 0 <= conv_base s <= 2 ^ 62 -> conv_base s mod 4096 = 0 ->
  (1 <= fuel)%nat -> 0x100000 - conv_base s < 4096 * Z.of_nat fuel - 4096 ->
  wp (conv_loop fuel count) (fun p s' => conv_granted s count p s')
    (fun _ => memmap_max_entries s < zlen (memmap s) + 2 \/ conv_full s (conv_base s) count) s.
Proof.
  revert s. induction fuel as [|fuel IH]; intros s Hs Hc Hb Hal Hf1 Hf; [lia|]. cbn [conv_loop].
  apply wp_bind, wp_read. rewrite (wrap_small 64 (conv_base s + count)) by (unfold in_u; lia).
  destruct (0x100000 <? conv_base s + count) eqn:E.
  { apply wp_throw. right. intros p Hp _ Hl. lia. }
  apply wp_bind, range_wp; [done|lia|lia|lia|by apply survives_type| | |].
  - cbn [orb]. intros Hfit m1 Hcl Hl. apply wp_bind, wp_memset0, wp_bind.
    change (wp (set_conv_base ?b) ?Q ?E ?s) with (Q tt (with_conv b s)). cbn beta. apply wp_bind.
    eapply (sanitise_claims _ (memmap s) (conv_base s) count MEMMAP_BOOTLOADER_RECLAIMABLE);
      [exact Hcl|lia|by apply survives_type|destruct Hs as (_ & _ & ? & ?); simpl; lia|].
    intros m' Hcl' Hl'. apply wp_ret. split_and!; [lia|done|lia| |done|done|simpl; by unwrap|simpl in *; lia|done|done].
    intros a. apply fits_usable; [apply Hs|done].
  - cbn [orb]. intros Hfit. rewrite set_memmap_id. apply wp_bind.
    change (wp (set_conv_base ?b) ?Q ?E ?s) with (Q tt (with_conv b s)). cbn beta.
    rewrite (wrap_small 64 (conv_base s + 4096)) by (unfold in_u; lia).
    eapply wp_mono; [apply IH; [done|done|simpl; lia|simpl; rewrite Zplus_mod, Hal; done|lia|simpl; lia]| |].
    + intros p s' (H1 & H2 & H3 & H4 & H5 & H6 & H7). simpl in *. split_and!; [lia|done..|apply H7|apply H7|apply H7|apply H7].
    + intros h [?|Hfull]; [by left|right]. intros p Hp Hpal Hpl. destruct (decide (p = conv_base s)) as [->|Hne]; [done|].
      apply Hfull; [|done|done]. simpl. by apply next_page.
  - intros m' [[? ?]|[? ?]]; [by left|done].
Qed.

(** ** Runs of the allocator *)

(** A block handed out: address, size and type. *)
Record block := MkBlock { b_ptr : Z; b_size : Z; b_type : Z }.

Definition in_block (b : block) (a : Z) : Prop := b_ptr b <= a < b_ptr b + b_size b.

#[export] Instance in_block_dec b a : Decision (in_block b a).
Proof. unfold in_block. apply _. Defined.

Definition apart (b b' : block) : Prop := forall a, in_block b a -> in_block b' a -> False.

(** One call, with the blocks that are in use.  A block is released with a size that
    rounds up to its own. *)
Inductive step : pmm * list block -> pmm * list block -> Prop :=
  | step_alloc s bs count type alignment high s' p :
      type <> MEMMAP_USABLE -> 0 < count -> 0 < alignment -> count + alignment <= 2 ^ 62 ->
      ext_mem_alloc_type_aligned_mode count type alignment high s = Ret s' p ->
      step (s, bs) (s', MkBlock p (ALIGN_UP count alignment) type :: bs)
  | step_conv s bs count s' p :
      0 < count -> count + 4096 <= 2 ^ 62 -> 4096 <= conv_base s <= 0x100000 -> conv_base s mod 4096 = 0 ->
      conv_mem_alloc count s = Ret s' p ->
      step (s, bs) (s', MkBlock p (ALIGN_UP count 4096) MEMMAP_BOOTLOADER_RECLAIMABLE :: bs)
  | step_free s bs1 b bs2 count s' :
      0 < count -> ALIGN_UP count 4096 = b_size b -> count + 4096 <= 2 ^ 62 ->
      survives (keep s) (b_ptr b) MEMMAP_USABLE ->
      pmm_free (b_ptr b) count s = Ret s' tt -> step (s, bs1 ++ b :: bs2) (s', bs1 ++ bs2).

(** The blocks in use have their types in the map and were usable at the start;
    nothing else has changed. *)
Definition run_ok (s0 : pmm) (st : pmm * list block) : Prop :=
  let '(s, bs) := st in
  pmm_ok s /\ keep s = keep s0 /\
  (forall b, b ∈ bs -> b_type b <> MEMMAP_USABLE /\ 0 <= b_ptr b /\ 0 < b_size b /\ b_ptr b + b_size b <= 2 ^ 62 /\
    forall a, in_block b a -> types_at (memmap s) a = [b_type b] /\ types_at (memmap s0) a = [MEMMAP_USABLE]) /\
  ForallOrdPairs apart bs /\
  (forall a, types_at (memmap s) a = [MEMMAP_USABLE] -> types_at (memmap s0) a = [MEMMAP_USABLE]) /\
  (forall a, types_at (memmap s0) a <> [MEMMAP_USABLE] -> types_at (memmap s) a ≡ₚ kept (keep s0) a (types_at (memmap s0) a)).

Lemma perm_one (l : list Z) t : l ≡ₚ [t] -> l = [t].
Proof. intros H. by apply Permutation_singleton_r in H. Qed.

Lemma kept_one k a t : t <> MEMMAP_USABLE -> kept k a [t] = [t].
Proof. intros Ht. unfold kept. case_match; [done|]. by rewrite filter_cons_True. Qed.

(** The types after a claim, outside and inside of the range. *)
Lemma claims_inside k m p len t m' a :
  claims k m p len t m' -> p <= a < p + len -> t <> MEMMAP_USABLE -> types_at m' a = [t].
Proof. intros (_ & _ & H) Ha Ht. apply perm_one. by rewrite (H a), decide_True, kept_one. Qed.
Lemma claims_outside k m p len t m' a :
  claims k m p len t m' -> ~ (p <= a < p + len) -> types_at m' a ≡ₚ kept k a (types_at m a).
Proof. intros (_ & _ & H) Ha. by rewrite (H a), decide_False. Qed.

Lemma kept_usable k a l : kept k a l = [MEMMAP_USABLE] -> kept k a l = l.
Proof.
  unfold kept. case_match; [done|]. intros E. exfalso.
  assert (Hin : MEMMAP_USABLE ∈ filter (fun t => t <> MEMMAP_USABLE) l) by (rewrite E; left).
  apply list_elem_of_filter in Hin as [? _]. done.
Qed.

Lemma apart_middle bs1 b bs2 :
  ForallOrdPairs apart (bs1 ++ b :: bs2) -> ForallOrdPairs apart (bs1 ++ bs2) /\ Forall (apart b) (bs1 ++ bs2).
Proof.
  induction bs1 as [|x bs1 IH]; simpl; intros H; inversion H as [|? ? H1 H2]; subst; [done|].
  destruct (IH H2) as [H3 H4]. rewrite Forall_app, Forall_cons in H1. destruct H1 as (H5 & H6 & H7). split.
  - constructor; [by apply Forall_app|done].
  - constructor; [intros a Ha Hx; by apply (H6 a)|done].
Qed.

(** Addresses outside of a claimed range, in a run. *)
Lemma run_outside s0 k m p len t m' a :
  claims k m p len t m' -> ~ (p <= a < p + len) ->
  (types_at m a = [MEMMAP_USABLE] -> types_at (memmap s0) a = [MEMMAP_USABLE]) ->
  (types_at (memmap s0) a <> [MEMMAP_USABLE] -> types_at m a ≡ₚ kept k a (types_at (memmap s0) a)) ->
  (types_at m' a = [MEMMAP_USABLE] -> types_at (memmap s0) a = [MEMMAP_USABLE]) /\
  (types_at (memmap s0) a <> [MEMMAP_USABLE] -> types_at m' a ≡ₚ kept k a (types_at (memmap s0) a)).
Proof.
  intros Hc Ha H1 H2. pose proof (claims_outside _ _ _ _ _ _ _ Hc Ha) as Ho. split.
  - intros E. rewrite E in Ho. symmetry in Ho. apply perm_one in Ho as Hk. apply H1. by rewrite <- (kept_usable _ _ _ Hk).
  - intros Hn. by rewrite Ho, (H2 Hn), kept_kept.
Qed.

Lemma block_outside k m p len t m' a t' :
  claims k m p len t m' -> ~ (p <= a < p + len) -> t' <> MEMMAP_USABLE -> types_at m a = [t'] -> types_at m' a = [t'].
Proof. intros Hc Ha Ht E. apply perm_one. by rewrite (claims_outside _ _ _ _ _ _ _ Hc Ha), E, kept_one. Qed.

(** Handing out a block. *)
Lemma run_claim s0 s bs s' p len n t :
  run_ok s0 (s, bs) -> pmm_ok s' -> keep s' = keep s -> claims (keep s) (memmap s) p len t (memmap s') ->
  (forall a, p <= a < p + len -> types_at (memmap s) a = [MEMMAP_USABLE]) ->
  t <> MEMMAP_USABLE -> 0 < n <= len -> 0 <= p -> p + n <= 2 ^ 62 -> run_ok s0 (s', MkBlock p n t :: bs).
Proof.
  intros (Hok & Hk & Hbs & Hap & H5 & H6) Hok' Hk' Hc Hus Ht Hn Hp Hb. unfold run_ok. rewrite Hk', Hk in *.
  assert (Hout : forall b a, b ∈ bs -> in_block b a -> ~ (p <= a < p + len)).
  { intros b a Hin Ha Hr. destruct (Hbs b Hin) as (Hbt & _ & _ & _ & Hty). destruct (Hty a Ha) as [E _].
    rewrite (Hus a Hr) in E. by simplify_eq. }
  split; [done|]. split; [done|]. split; [|split; [|split]].
  - intros b [->|Hin]%elem_of_cons.
    + split_and!; [done|done|simpl; lia|done|]. intros a Ha. unfold in_block in Ha. simpl in Ha. split.
      * eapply claims_inside; [exact Hc|lia|done].
      * apply H5, Hus. lia.
    + destruct (Hbs b Hin) as (? & ? & ? & ? & Hty). split_and!; [done..|]. intros a Ha. destruct (Hty a Ha) as [E E0].
      split; [|done]. by eapply block_outside; [exact Hc|eapply Hout|..].
  - constructor; [|done]. apply Forall_forall. intros b Hin a Ha Hb'. apply (Hout b a Hin Hb'). unfold in_block in Ha. simpl in Ha. lia.
  - intros a E. destruct (decide (p <= a < p + len)) as [Hr|Hr]; [by apply H5, Hus|].
    by apply (run_outside s0 _ _ _ _ _ _ a Hc Hr (H5 a) (H6 a)).
  - intros a E. destruct (decide (p <= a < p + len)) as [Hr|Hr]; [by destruct E; apply H5, Hus|].
    by apply (run_outside s0 _ _ _ _ _ _ a Hc Hr (H5 a) (H6 a)).
Qed.

(** Taking a block back. *)
Lemma run_release s0 s bs1 b bs2 s' :
  run_ok s0 (s, bs1 ++ b :: bs2) -> pmm_ok s' -> keep s' = keep s ->
  claims (keep s) (memmap s) (b_ptr b) (b_size b) MEMMAP_USABLE (memmap s') -> run_ok s0 (s', bs1 ++ bs2).
Proof.
  intros (Hok & Hk & Hbs & Hap & H5 & H6) Hok' Hk' Hc. unfold run_ok. rewrite Hk', Hk in *.
  destruct (apart_middle _ _ _ Hap) as [Hap' Hall]. rewrite Forall_forall in Hall.
  assert (Hb : b ∈ bs1 ++ b :: bs2) by (apply elem_of_app; right; left).
  destruct (Hbs b Hb) as (_ & _ & _ & _ & Hty). split; [done|]. split; [done|]. split; [|split; [done|split]].
  - intros b' Hin. destruct (Hbs b') as (? & ? & ? & ? & Hty').
    { apply elem_of_app in Hin as [?|?]; apply elem_of_app; [by left|by right; right]. }
    split_and!; [done..|]. intros a Ha. destruct (Hty' a Ha) as [E E0]. split; [|done].
    eapply block_outside; [exact Hc| |done|done]. intros Hr. by apply (Hall b' Hin a).
  - intros a E. destruct (decide (in_block b a)) as [Hr|Hr]; [by apply Hty|].
    by apply (run_outside s0 _ _ _ _ _ _ a Hc Hr (H5 a) (H6 a)).
  - intros a E. destruct (decide (in_block b a)) as [Hr|Hr]; [by destruct E; apply Hty|].
    by apply (run_outside s0 _ _ _ _ _ _ a Hc Hr (H5 a) (H6 a)).
Qed.

Lemma wp_inv {A} (f : P A) Q E s s' a : wp f Q E s -> f s = Ret s' a -> Q a s'.
Proof. unfold wp. intros H E'. by rewrite E' in H. Qed.

Lemma disallowed_inv {A} (f : P A) s s' a :
  (no ← read allocations_disallowed; if (no : bool) then throw "Memory allocations disallowed" else f) s = Ret s' a ->
  allocations_disallowed s = false.
Proof. unfold mbind, st_bind, obind, read. by destruct (allocations_disallowed s). Qed.

Lemma conv_alloc_wp s count :
  pmm_ok s -> allocations_disallowed s = false -> 0 < count -> count + 4096 <= 2 ^ 62 ->
  4096 <= conv_base s <= 0x100000 -> conv_base s mod 4096 = 0 ->
  wp (conv_mem_alloc count) (fun p s' => conv_granted s (ALIGN_UP count 4096) p s')
    (fun _ => memmap_max_entries s < zlen (memmap s) + 2 \/ conv_full s (conv_base s) (ALIGN_UP count 4096)) s.
Proof.
  intros Hs Hd Hc Hsum Hb Hal. destruct (align_up_spec count 4096 Hc ltac:(lia) ltac:(lia)) as [_ Hup].
  unfold conv_mem_alloc. apply wp_bind, wp_read. rewrite Hd. apply conv_loop_wp; [done|lia|lia|done|lia|lia].
Qed.

Lemma step_run_ok s0 st st' : step st st' -> run_ok s0 st -> run_ok s0 st'.
Proof.
  destruct 1 as [s bs count type alignment high s' p Ht Hc Ha Hsum E|s bs count s' p Hc Hsum Hcb Hal E
    |s bs1 b bs2 count s' Hc Hsz Hsum Hsv E]; intros Hrun; pose proof Hrun as (Hok & _ & Hbs & _).
  - assert (Hd : allocations_disallowed s = false).
    { unfold ext_mem_alloc_type_aligned_mode in E. rewrite (proj2 (Z.eqb_neq alignment 0)) in E by lia. by eapply disallowed_inv. }
    pose proof (wp_inv _ _ _ _ _ _ (ext_alloc_wp s count type alignment high Hok Hd Ht Hc Ha Hsum) E) as Hg.
    destruct (align_up_spec count alignment Hc Ha Hsum) as [_ Hup]. pose proof (granted_ok _ _ _ _ _ _ _ Hok Hg) as Hok'.
    destruct Hg as (len & m' & ? & ? & ? & ? & _ & Hus & Hcl & ? & ->).
    by eapply (run_claim s0 s bs _ p len); [..|lia|done|lia].
  - assert (Hd : allocations_disallowed s = false) by by eapply disallowed_inv.
    pose proof (wp_inv _ _ _ _ _ _ (conv_alloc_wp s count Hok Hd Hc Hsum Hcb Hal) E)
      as (H1 & H2 & H3 & Hus & Hcl & _ & _ & Hl & Hmx & Hk).
    destruct (align_up_spec count 4096 Hc ltac:(lia) ltac:(lia)) as [_ Hup].
    assert (Hok' : pmm_ok s').
    { destruct Hok as (? & ? & ? & ?). split; [apply Hcl|]. rewrite Hmx. split; [|done].
      eapply claims_bounded; [done| |exact Hcl]. lia. }
    by eapply (run_claim s0 s bs _ p (ALIGN_UP count 4096)); [..|lia|lia|lia].
  - assert (Hd : allocations_disallowed s = false) by by eapply disallowed_inv.
    destruct (Hbs b) as (_ & Hp & Hs0 & Hb62 & _); [apply elem_of_app; right; left|].
    destruct (align_up_spec count 4096 Hc ltac:(lia) ltac:(lia)) as [_ Hup].
    pose proof (wp_inv _ _ _ _ _ _ (pmm_free_wp s (b_ptr b) count Hok Hd Hp Hc Hsum ltac:(lia) Hsv) E) as (m' & -> & Hcl & Hl).
    rewrite Hsz in Hcl. eapply run_release; [exact Hrun| |done|done].
    destruct Hok as (? & ? & ? & ?). split; [apply Hcl|]. split; [|done]. by eapply claims_bounded; [..|exact Hcl].
Qed.

Lemma run_steps s0 st st' : rtc step st st' -> run_ok s0 st -> run_ok s0 st'.
Proof. induction 1 as [|st st1 st' Hst _ IH]; [done|]. intros H. by apply IH, (step_run_ok s0 st). Qed.
End PmmSpec.
