(* ===== verification/PmmFirmware.v ===== *)
(** * The firmware's memory map

    Initialising the memory map from the firmware's and reclaiming the memory the
    firmware used: what becomes usable. *)

From S2P Require Import Prelude Effects Pmm PmmFacts PmmSanitise PmmRange PmmAlloc PmmSpec.

Module PmmFirmware.
Import Effects Pmm PmmFacts PmmSanitise PmmRange PmmAlloc PmmSpec.
Open Scope Z_scope.

(** The addresses of a descriptor. *)
Definition desc_covers (d : EFI_MEMORY_DESCRIPTOR) (a : Z) : Prop :=
  PhysicalStart d <= a < PhysicalStart d + NumberOfPages d * 4096.
Definition desc_ok (d : EFI_MEMORY_DESCRIPTOR) : Prop :=
  0 <= PhysicalStart d /\ 0 <= NumberOfPages d /\ PhysicalStart d + NumberOfPages d * 4096 <= 2 ^ 62.

(** ** Reclaiming *)

Lemma reclaim_range_spec r d base size :
  ent_ok r -> desc_ok d -> reclaim_range r d = Some (base, size) ->
  0 <= size /\ forall a, base <= a < base + size -> covers r a /\ desc_covers d a.
Proof.
  intros [Hr ?] (? & ? & ?). unfold reclaim_range, covers, desc_covers. rewrite (e_top_wf r Hr).
  destruct Hr as (? & ? & ?). unwrap.
  destruct (PhysicalStart d <? e_base r) eqn:Eb; cbn [andb].
  - unwrap. destruct (NumberOfPages d * 4096 <=? e_base r - PhysicalStart d) eqn:E1; [done|]. unwrap.
    set (n := NumberOfPages d * 4096) in *.
    destruct (e_base r + e_length r <? e_base r + (n - (e_base r - PhysicalStart d))) eqn:Ea; cbn [andb]; unwrap; repeat (case_match; try done; unwrap);
      intros [= <- <-]; (split; [lia|intros; lia]).
  - set (n := NumberOfPages d * 4096) in *. unwrap.
    destruct (e_base r + e_length r <? PhysicalStart d + n) eqn:Ea; cbn [andb]; unwrap; repeat (case_match; try done; unwrap);
      intros [= <- <-]; (split; [lia|intros; lia]).
Qed.

Abbreviation EFI := MEMMAP_EFI_RECLAIMABLE.

Lemma kept_incl k a l t : t ∈ kept k a l -> t ∈ l.
Proof. unfold kept. case_match; [done|]. intros Ht. by apply list_elem_of_filter in Ht as [_ ?]. Qed.

Section reclaim.
Variables (max : Z) (keep : bool) (ds : list EFI_MEMORY_DESCRIPTOR) (m0 : mmap).
Hypothesis Hm0 : mm_ok m0.
Hypothesis Hmax : max + 4 < 2 ^ 64.
Hypothesis Hds : Forall desc_ok ds.
Hypothesis Hfirst : keep = true \/ forall a, EFI ∈ types_at m0 a -> 0x1000 <= a.

(** The map [m0] with parts of its firmware memory given other types, those of the
    firmware's descriptors. *)
Definition retyped (m : mmap) : Prop :=
  (forall a, EFI ∉ types_at m0 a -> kept keep a (types_at m a) ≡ₚ kept keep a (types_at m0 a)) /\
  (forall a t, t ∈ types_at m a -> t ∈ types_at m0 a \/
    EFI ∈ types_at m0 a /\ exists d, d ∈ ds /\ desc_covers d a /\ t = reclaim_type (Type_ d)).

Definition reclaim_ok (m : mmap) : Prop := mm_ok m /\ zlen m <= max /\ retyped m.

Lemma reclaim_claims m base size d m' :
  retyped m -> d ∈ ds -> (forall a, base <= a < base + size -> EFI ∈ types_at m0 a /\ desc_covers d a) ->
  claims keep m base size (reclaim_type (Type_ d)) m' -> retyped m'.
Proof.
  intros [H1 H2] Hd Hr (_ & _ & Hc). split.
  - intros a Ha. rewrite (Hc a), decide_False, kept_kept; [by apply H1|]. intros Hin. by destruct (Hr a Hin).
  - intros a t Ht. rewrite (Hc a) in Ht. apply kept_incl in Ht. case_decide as Hin; [|by apply H2].
    apply list_elem_of_singleton in Ht as ->. destruct (Hr a Hin). right. eauto.
Qed.

Lemma reclaim_entry_wp r ds' m :
  ent_ok r -> (forall a, covers r a -> EFI ∈ types_at m0 a) -> (forall d, d ∈ ds' -> d ∈ ds) -> reclaim_ok m ->
  wp (reclaim_entry max keep r ds') (fun _ m' => reclaim_ok m') (fun _ => True) m.
Proof.
  intros Hr Hre. revert m. induction ds' as [|d ds' IH]; intros m Hin Hok; cbn [reclaim_entry]; [by apply wp_ret|].
  assert (Hd : d ∈ ds) by (apply Hin; left). apply wp_bind.
  assert (Hnext : forall m' (b : bool), reclaim_ok m' -> wp (reclaim_entry max keep r ds') (fun _ m' => reclaim_ok m') (fun _ => True) m').
  { intros m' _ H'. apply IH; [|done]. intros d' ?. apply Hin. by right. }
  destruct (reclaim_range r d) as [[base size]|] eqn:E; [|by apply wp_ret, (Hnext m true)].
  apply reclaim_range_spec in E as [Hs Hcov]; [|done|by apply (proj1 (Forall_forall _ _) Hds)].
  destruct (decide (size = 0)) as [->|Hne]; [by apply wp_ret, (Hnext m true)|].
  destruct Hok as (Hm & Hl & Hrt).
  assert (Hrange : 0 <= base /\ 0 < size /\ base + size < 2 ^ 64).
  { destruct (Hcov base) as [C1 _]; [lia|]. destruct (Hcov (base + size - 1)) as [C2 _]; [lia|].
    destruct Hr as [(? & ? & ?) ?]. unfold covers in *. lia. }
  assert (Hsv : survives keep base (reclaim_type (Type_ d))).
  { destruct Hfirst as [->|Hp]; [by left|right; left]. apply Hp, Hre. by apply Hcov; lia. }
  eapply wp_mono; [apply (alloc_range_wp max keep base size _ Hrange Hsv 0 true false m Hm); lia| |done].
  intros b m' [Hb Hm']. apply (Hnext m' b). destruct b.
  - destruct Hm' as [Hc Hl']. split; [apply Hc|]. split; [done|]. eapply reclaim_claims; [done|done| |exact Hc].
    intros a Ha. destruct (Hcov a Ha). auto.
  - subst m'. done.
Qed.

Lemma reclaim_loop_wp recl m :
  (forall r, r ∈ recl -> r ∈ m0 /\ e_type r = EFI) -> reclaim_ok m ->
  wp (reclaim_loop max keep recl ds) (fun _ m' => reclaim_ok m') (fun _ => True) m.
Proof.
  revert m. induction recl as [|r recl IH]; intros m Hin Hok; cbn [reclaim_loop]; [by apply wp_ret|].
  destruct (Hin r) as [Hr Ht]; [left|]. apply wp_bind.
  eapply wp_mono; [apply reclaim_entry_wp; [|intros a Ha|done|done]| |done].
  - by apply (proj1 (Forall_forall _ _) (proj1 Hm0)).
  - apply types_at_elem. eauto.
  - intros [] m' Hok'. apply IH; [|done]. intros r' ?. apply Hin. by right.
Qed.

Lemma reclaim_wp a0 :
  zlen m0 <= max -> (length (reclaimable m0) <= 1024)%nat ->
  EFI ∉ types_at m0 a0 -> kept keep a0 (types_at m0 a0) <> [] ->
  wp (pmm_reclaim_uefi_mem max keep ds)
    (fun _ m' => mm_ok m' /\ sanitised keep m' /\ retyped m' /\ zlen m' <= max) (fun _ => True) m0.
Proof.
  intros Hl Hrl Ha0 Hk. unfold wp, pmm_reclaim_uefi_mem. rewrite (proj2 (Nat.ltb_ge _ _)) by done. fold (wp
    (_ ← reclaim_loop max keep (reclaimable m0) ds; pmm_sanitise_entries keep false)
    (fun (_ : unit) m' => mm_ok m' /\ sanitised keep m' /\ retyped m' /\ zlen m' <= max) (fun _ => True) m0).
  apply wp_bind. eapply wp_mono; [apply reclaim_loop_wp| |done].
  - intros r Hr. unfold reclaimable in Hr. apply list_elem_of_In, filter_In in Hr as [H1 H2].
    split; [by apply list_elem_of_In|]. by apply Z.eqb_eq.
  - split; [done|]. split; [done|]. split; [done|]. auto.
  - intros [] m (Hm & Hlm & [H1 H2]). pose proof (H1 a0 Ha0) as E0.
    eapply wp_mono; [apply (sanitise_ok keep m a0); [done|lia|]| |done].
    + intros E. rewrite E in E0. by apply Permutation_nil in E0.
    + intros [] m' (G1 & G2 & G3 & G4). split_and!; [done|done| |lia]. split.
      * intros a Ha. rewrite (G3 a), kept_kept. by apply H1.
      * intros a t Ht. rewrite (G3 a) in Ht. apply kept_incl in Ht. by apply H2.
Qed.
End reclaim.

(** ** Initialisation *)

(** The firmware says [a] is conventional memory. *)
Definition conventional (ds : list EFI_MEMORY_DESCRIPTOR) (a : Z) : Prop :=
  exists d, d ∈ ds /\ desc_covers d a /\ Type_ d = EfiConventionalMemory.

Definition desc_entry (d : EFI_MEMORY_DESCRIPTOR) : memmap_entry :=
  Entry (PhysicalStart d) (NumberOfPages d * 4096) (our_type (Type_ d)).
Definition desc_entries (ds : list EFI_MEMORY_DESCRIPTOR) : mmap :=
  map desc_entry (List.filter (fun d => negb (NumberOfPages d =? 0)) ds).

(** The descriptors do not overlap. *)
Definition descs_apart (ds : list EFI_MEMORY_DESCRIPTOR) : Prop :=
  ForallOrdPairs (fun d d' => forall a, desc_covers d a -> desc_covers d' a -> False) ds.

Lemma fill_loop_Ret max ds m :
  Forall desc_ok ds -> zlen m + zlen ds <= max -> fill_loop max ds m = Ret (m ++ desc_entries ds) tt.
Proof.
  intros Hds. revert m. induction Hds as [|d ds Hd _ IH]; intros m Hl; cbn [fill_loop desc_entries List.filter map].
  { by rewrite app_nil_r. }
  cbn [length] in Hl. unfold desc_entries. cbn [List.filter]. destruct (NumberOfPages d =? 0); cbn [negb]; [apply IH; lia|].
  unfold mbind, st_bind, obind, get_count. rewrite (proj2 (Z.leb_gt _ _)) by lia. unfold push.
  rewrite IH by (rewrite length_app; simpl; lia). rewrite <- app_assoc. unfold desc_entry, desc_entries. cbn [map app].
  destruct Hd as (? & ? & ?). by rewrite wrap_small by (unfold in_u; lia).
Qed.

Lemma desc_entries_elem ds e :
  e ∈ desc_entries ds -> exists d, d ∈ ds /\ NumberOfPages d <> 0 /\ e = desc_entry d.
Proof.
  unfold desc_entries. intros He. apply list_elem_of_In, in_map_iff in He as (d & <- & Hd). apply filter_In in Hd as [Hd Hn].
  exists d. split; [by apply list_elem_of_In|]. split; [|done]. intros E. by rewrite E in Hn.
Qed.

Lemma desc_entries_ok ds : Forall desc_ok ds -> descs_apart ds -> mm_ok (desc_entries ds).
Proof.
  intros Hok Hap. split.
  - apply Forall_forall. intros e He. apply desc_entries_elem in He as (d & Hd & Hn & ->).
    apply (proj1 (Forall_forall _ _) Hok) in Hd as (? & ? & ?). unfold ent_ok, ent_wf. simpl. lia.
  - intros a. induction Hap as [|d ds Hd _ IH]; [simpl; lia|]. apply Forall_cons in Hok as [Hdo Hok].
    unfold desc_entries in *. cbn [List.filter]. destruct (NumberOfPages d =? 0); cbn [negb map]; [by apply IH|].
    rewrite types_at_cons. destruct (decide (covers (desc_entry d) a)) as [Hc|Hc]; [|rewrite piece_out by done; by apply IH].
    rewrite piece_in, types_at_nil; [done| |done]. intros e He Hce.
    apply desc_entries_elem in He as (d' & Hd' & _ & ->). by apply (proj1 (Forall_forall _ _) Hd d' Hd' a).
Qed.

Lemma our_type_usable t : our_type t = MEMMAP_USABLE -> t = EfiConventionalMemory.
Proof. unfold our_type. repeat case_match; try done. intros _. by apply Z.eqb_eq. Qed.

(** The invariant during initialisation. *)
Section init.
Variable ds : list EFI_MEMORY_DESCRIPTOR.

Definition init_ok (no : bool) (s : pmm) : Prop :=
  pmm_ok s /\ keep s = true /\ allocations_disallowed s = no /\
  (forall a, MEMMAP_USABLE ∈ types_at (memmap s) a -> conventional ds a) /\ exists a0, types_at (memmap s) a0 <> [].

Lemma claims_init s base len t m' :
  init_ok false s -> 0 < len -> base + len <= 2 ^ 62 -> t <> MEMMAP_USABLE ->
  claims (keep s) (memmap s) base len t m' -> zlen m' <= memmap_max_entries s -> init_ok false (set_memmap s m').
Proof.
  intros ((Hok & Hb & Hl & Hm) & Hk & Hd & Hu & _) Hlen Hend Ht Hc Hl'. split.
  { split; [apply Hc|]. split; [|done]. by eapply claims_bounded. }
  split; [done|]. split; [done|]. split.
  - intros a Ha. apply Hu. destruct Hc as (_ & _ & Hc). simpl in Ha. rewrite (Hc a) in Ha. apply kept_incl in Ha.
    case_decide; [|done]. by apply list_elem_of_singleton in Ha.
  - exists base. simpl. rewrite (claims_inside _ _ _ _ _ _ base Hc) by (done || lia). done.
Qed.

Lemma init_set_mem s f : init_ok false s -> init_ok false (set_mem f s).
Proof. done. Qed.
Lemma init_add_call s c : init_ok false s -> init_ok false (add_call c s).
Proof. done. Qed.

Lemma sanitise_init no s : init_ok no s -> wp (sanitise false) (fun _ s' => init_ok no s') (fun _ => False) s.
Proof.
  intros ((Hok & Hb & Hl & Hm) & Hk & Hd & Hu & a0 & Ha0). unfold sanitise. apply wp_bind, wp_read, wp_on_memmap.
  rewrite Hk. eapply wp_mono; [apply (sanitise_ok true (memmap s) a0); [done|lia|done]| |done].
  intros [] m' (G1 & G2 & G3 & G4). assert (Hs : forall a, types_at m' a ≡ₚ types_at (memmap s) a) by exact G3. split.
  { split; [done|]. split; [|simpl; lia]. intros a Ha. apply Hb. intros E. apply Ha, Permutation_nil_r. simpl. by rewrite (Hs a), E. }
  split_and!; [done|done| |].
  - intros a Ha. apply Hu. simpl in Ha. by rewrite (Hs a) in Ha.
  - exists a0. simpl. intros E. apply Ha0, Permutation_nil_r. by rewrite <- (Hs a0), E.
Qed.

Lemma ext_alloc_init s count type :
  init_ok false s -> type <> MEMMAP_USABLE -> 0 < count -> count + 4096 <= 2 ^ 62 ->
  wp (ext_mem_alloc_type count type) (fun _ s' => init_ok false s') (fun _ => True) s.
Proof.
  intros Hs Ht Hc Hsum. pose proof Hs as (Hok & Hk & Hd & _).
  destruct (align_up_spec count 4096 Hc ltac:(lia) Hsum) as [_ Hup].
  eapply wp_mono; [apply (ext_alloc_wp s count type 4096 false Hok Hd Ht Hc ltac:(lia) Hsum)| |done].
  intros p s' (len & m' & ? & ? & ? & ? & ? & ? & Hcl & Hl & ->). apply init_set_mem.
  eapply claims_init; [done| | |done|exact Hcl|done]; lia.
Qed.

Lemma leave_loop_init n s : init_ok false s -> wp (leave_loop n) (fun _ s' => init_ok false s') (fun _ => True) s.
Proof.
  revert s. induction n as [|n IH]; intros s Hs; cbn [leave_loop]; [by apply wp_ret|]. apply wp_bind.
  eapply wp_mono; [by apply ext_alloc_init|intros ? s'; apply IH|done].
Qed.

Lemma fits_bounded m base len t : mm_ok m -> bounded m -> fits m base len t = true -> base + len <= 2 ^ 62.
Proof.
  intros [Hok _] Hb Hf. unfold fits in Hf. apply existsb_exists in Hf as (e & He & Hs). apply list_elem_of_In in He.
  unfold suits in Hs. pose proof (bounded_entry _ _ Hb (proj1 (Forall_forall _ _) Hok e He) He). lia.
Qed.

Lemma page_init s b :
  init_ok false s -> 0 <= b -> b + 4096 < 2 ^ 64 ->
  wp (memmap_alloc_range b 4096 MEMMAP_EFI_RECLAIMABLE MEMMAP_USABLE true false false) (fun _ s' => init_ok false s') (fun _ => True) s.
Proof.
  intros Hs Hb Hend. pose proof Hs as (Hok & _). apply range_wp; [done|done|lia|done|by apply survives_type|..].
  - cbn [orb]. intros Hf m' Hc Hl. apply (claims_init s b 4096 MEMMAP_EFI_RECLAIMABLE m'); [done|lia| |done|done|done].
    destruct Hok as (? & ? & _). by eapply fits_bounded.
  - intros _. by rewrite set_memmap_id.
  - done.
Qed.

Lemma page_loop_init fw fuel s base len j :
  init_ok false s -> 0 <= base -> 0 <= len -> base + len <= 2 ^ 62 -> 0 <= j -> (1 <= fuel)%nat -> len - j <= 4096 * (Z.of_nat fuel - 1) ->
  wp (page_loop fw fuel base len j) (fun _ s' => init_ok false s') (fun _ => True) s.
Proof.
  revert s j. induction fuel as [|fuel IH]; intros s j Hs Hb Hl Hend Hj Hf1 Hf; [lia|]. cbn [page_loop].
  destruct (j <? len) eqn:E; [apply Z.ltb_lt in E|by apply wp_ret]. apply wp_bind.
  change (wp (allocate_pages ?f ?b ?n) ?Q ?E ?s) with (Q (AllocatePages f (efi_calls s) b n) (add_call (b, n) s)). cbn beta.
  unwrap. apply wp_bind.
  assert (Hgo : forall s', init_ok false s' -> wp (page_loop fw fuel base len (j + 4096)) (fun _ s' => init_ok false s') (fun _ => True) s').
  { intros s' Hs'. apply IH; [done|done|done|done|lia|lia|lia]. }
  case_match; [by apply wp_ret, Hgo|]. eapply wp_mono; [apply page_init; [done|lia|lia]|intros ? s'; apply Hgo|done].
Qed.

Lemma own_loop_init fw m s :
  init_ok false s -> Forall ent_ok m -> (forall e, e ∈ m -> e_base e + e_length e <= 2 ^ 62) ->
  wp (own_loop fw m) (fun _ s' => init_ok false s') (fun _ => True) s.
Proof.
  intros Hs Hm. revert s Hs. induction Hm as [|e m [(? & ? & ?) ?] _ IH]; intros s Hs Hb; cbn [own_loop]; [by apply wp_ret|].
  assert (Hb' : forall e', e' ∈ m -> e_base e' + e_length e' <= 2 ^ 62) by (intros e' ?; apply Hb; by right).
  pose proof (Hb e ltac:(left)). case_match; [by apply IH|]. apply wp_bind.
  change (wp (allocate_pages ?f ?b ?n) ?Q ?E ?s) with (Q (AllocatePages f (efi_calls s) b n) (add_call (b, n) s)). cbn beta.
  apply wp_bind. case_match; [apply wp_ret; by apply IH|].
  eapply wp_mono; [apply page_loop_init; [done|lia|lia|lia|lia|lia|]|intros [] s'; intros; by apply IH|done].
  pose proof (Z.div_mod (e_length e) 4096 ltac:(lia)). pose proof (Z.mod_pos_bound (e_length e) 4096 ltac:(lia)).
  assert (0 <= e_length e / 4096) by (apply Z.div_pos; lia). lia.
Qed.

Lemma image_init s slide image :
  init_ok false s -> 0 <= slide -> 0 < image -> slide + image + 4096 <= 2 ^ 62 ->
  wp (memmap_alloc_range slide (ALIGN_UP image 4096) MEMMAP_BOOTLOADER_RECLAIMABLE 0 true false true)
    (fun _ s' => init_ok false s') (fun _ => True) s.
Proof.
  intros Hs Hb Hi Hend. pose proof Hs as (Hok & _).
  destruct (align_up_spec image 4096 Hi ltac:(lia) ltac:(lia)) as [_ Hup].
  apply range_wp; [done|done|lia|lia|by apply survives_type|..].
  - intros _ m' Hc Hl. by apply (claims_init s slide (ALIGN_UP image 4096) MEMMAP_BOOTLOADER_RECLAIMABLE m'); [|lia|lia|..].
  - done.
  - done.
Qed.
End init.

Lemma memmap_bounds s e : pmm_ok s -> e ∈ memmap s -> e_base e + e_length e <= 2 ^ 62.
Proof. intros (Hok & Hb & _) He. eapply bounded_entry; [done| |done]. by apply (proj1 (Forall_forall _ _) (proj1 Hok)). Qed.

Lemma own_memory_wp ds fw slide image s :
  init_ok ds false s -> 0 <= slide -> 0 < image -> slide + image + 4096 <= 2 ^ 62 ->
  wp (own_memory fw slide image) (fun _ s' => init_ok ds false s') (fun _ => True) s.
Proof.
  intros Hs Hsl Him Hend. unfold own_memory. apply wp_bind.
  eapply wp_mono; [by apply (leave_loop_init ds)| |done]. intros [] s1 Hs1. apply wp_bind, wp_read, wp_bind.
  change (init_ok ds false s1) in Hs1. match goal with |- wp (set_untouched ?m) ?Q ?E ?s => refine (_ : Q tt _) end. cbn beta.
  apply wp_bind. eapply wp_mono; [apply (own_loop_init ds fw (memmap s1))| |done].
  - exact Hs1.
  - apply (proj1 (proj1 (proj1 Hs1))).
  - intros e. apply memmap_bounds, Hs1.
  - intros [] s2 Hs2. apply wp_bind, wp_read, wp_bind.
    match goal with |- wp (set_untouched ?m) ?Q ?E ?s => refine (_ : Q tt _) end. cbn beta.
    apply wp_bind. eapply wp_mono; [apply (image_init ds); [exact Hs2|done|done|done]| |done].
    intros ? s3 Hs3. apply wp_bind. eapply wp_mono; [apply (sanitise_init ds false); exact Hs3| |done]. intros [] s4 Hs4.
    apply wp_bind. unfold ext_mem_alloc. eapply wp_mono; [apply (ext_alloc_init ds); [exact Hs4|done|lia|lia]|intros; by apply wp_ret|done].
Qed.

(** The map as the firmware gives it. *)
Lemma firmware_map_ok ds no s :
  keep s = true -> allocations_disallowed s = no -> memmap s = desc_entries ds ->
  zlen ds <= memmap_max_entries s -> memmap_max_entries s + 4 < 2 ^ 64 ->
  Forall desc_ok ds -> descs_apart ds -> (exists d, d ∈ ds /\ NumberOfPages d <> 0) -> init_ok ds no s.
Proof.
  intros Hk Hno Hm Hcap Hmax Hds Hap (d0 & Hd0 & Hn0).
  pose proof (desc_entries_ok ds Hds Hap) as Hok. rewrite Forall_forall in Hds.
  assert (Hel : forall a t, t ∈ types_at (desc_entries ds) a -> exists d, d ∈ ds /\ desc_covers d a /\ t = our_type (Type_ d)).
  { intros a t Ht. apply types_at_elem in Ht as (e & He & Hc & <-). apply desc_entries_elem in He as (d & Hd & _ & ->). eauto. }
  split; [split; [by rewrite Hm|split]|split_and!; [done|done|..]]; rewrite ?Hm.
  - intros a Ha. destruct (types_at (desc_entries ds) a) as [|t l] eqn:E; [done|].
    destruct (Hel a t) as (d & Hd & Hc & _); [rewrite E; left|]. apply Hds in Hd as (? & ? & ?). unfold desc_covers in Hc. lia.
  - split; [|done]. unfold desc_entries. rewrite length_map. pose proof (filter_length_le (fun d => negb (NumberOfPages d =? 0)) ds). lia.
  - intros a Ha. destruct (Hel _ _ Ha) as (d & Hd & Hc & Ht). exists d. split_and!; [done|done|by apply our_type_usable].
  - exists (PhysicalStart d0). intros E. pose proof (Hds d0 Hd0) as (? & ? & ?).
    assert (Hin : our_type (Type_ d0) ∈ types_at (desc_entries ds) (PhysicalStart d0)); [|rewrite E in Hin; by apply elem_of_nil in Hin].
    apply types_at_elem. exists (desc_entry d0). split_and!; [|unfold covers; simpl; lia|done].
    unfold desc_entries. apply list_elem_of_In, in_map, filter_In. split; [by apply list_elem_of_In|].
    by apply negb_true_iff, Z.eqb_neq.
Qed.

Lemma init_wp fw slide image s :
  let ds := fw_mmap fw in
  keep s = true -> Forall desc_ok ds -> descs_apart ds -> (exists d, d ∈ ds /\ NumberOfPages d <> 0) ->
  zlen ds <= first_mmap_size fw / efi_desc_size fw + 512 -> first_mmap_size fw / efi_desc_size fw + 516 < 2 ^ 64 ->
  0 <= slide -> 0 < image -> slide + image + 4096 <= 2 ^ 62 ->
  wp (init_memmap fw slide image) (fun _ s' => init_ok ds false s') (fun _ => True) s.
Proof.
  intros ds Hk Hds Hap Hne Hcap Hmax Hsl Him Hend. unfold wp, init_memmap.
  set (q := first_mmap_size fw / efi_desc_size fw) in *.
  destruct (negb _); [done|]. set (max := u64 _). set (s1 := MkPmm _ _ _ _ _ _ _ _ _ _).
  assert (Emax : max = q + 512) by (unfold max; apply wrap_small; unfold in_u; lia).
  match goal with |- match ?f s1 with _ => _ end => change (wp f (fun _ s' => init_ok ds false s') (fun _ => True) s1) end.
  apply wp_bind, wp_on_memmap. unfold wp at 1. change (memmap s1) with (@nil memmap_entry).
  change (fw_mmap fw) with ds. rewrite fill_loop_Ret; [|done|rewrite Emax; cbn [length]; lia]. rewrite app_nil_l.
  apply wp_bind. eapply wp_mono; [apply (sanitise_init ds (allocations_disallowed s))| |done].
  - apply firmware_map_ok; [done|done|done|simpl; lia|simpl; lia|done|done|done].
  - intros [] s3 Hs3. apply wp_bind.
    match goal with |- wp (set_disallowed false) ?Q ?E s3 => refine (_ : Q tt _) end. cbn beta.
    apply own_memory_wp; [|done|done|done]. destruct Hs3 as (? & ? & _ & ? & ?). done.
Qed.
End PmmFirmware.
