(* ===== verification/PmmTheorems.v ===== *)
(** * Theorems about the physical memory manager

    The properties of pmm.s2.c and pmm.c, each with a concrete instance, and inputs
    the code does not treat as its comments say. *)

From S2P Require Import Prelude Effects Pmm PmmFacts PmmSanitise PmmRange PmmAlloc PmmSpec PmmFirmware.

Module PmmTheorems.
Import Effects Pmm PmmFacts PmmSanitise PmmRange PmmAlloc PmmSpec PmmFirmware.
Open Scope string_scope.
Open Scope list_scope.
Open Scope Z_scope.

(** ** Sanitising *)


(** C18: whatever map the firmware gives, with overlapping and empty entries but no
    entry that reaches beyond the 64-bit address space, sanitising panics or ends with a
    map in which no address has become usable and no other type is lost: only usable
    memory is taken away, and the entries are sorted and merged.  With alignment asked
    for, all usable entries are made of whole pages.  The one other outcome is the
    access beyond the map the sort makes when its first two loops have taken every entry
    away; this needs a map of usable and empty entries only. *)
Theorem pmm_sanitise_entries_sound (keep align_entries : bool) (m : mmap)
    (Hm : Forall ent_wf m) (Hlen : zlen m < 2 ^ 64) :
  match pmm_sanitise_entries keep align_entries m with
  | Ret m' _ => shrinks m m' /\ sanitised keep m' /\ Forall (aligned align_entries) m'
  | Throw _ _ => True
  | Stuck => trim_loops keep align_entries m = Ret [] tt /\ Forall spare m
  end.
Proof.
  pose proof (sanitise_any keep align_entries m Hm Hlen) as W.
  destruct (pmm_sanitise_entries keep align_entries m); [tauto|done|done].
Qed.

(** ** Claiming and checking ranges *)

(** C16: [memmap_alloc_range_in] gives the range to the new type and changes the type of
    no other address when an entry of the overlay type contains the range or a new
    entry is allowed; otherwise it returns false or panics and changes nothing.  It
    also panics when the map may be full. *)
Theorem memmap_alloc_range_correct (max : Z) (keep : bool) (base len type overlay : Z) (do_panic new_entry : bool) (m : mmap)
    (Hm : mm_ok m) (Hlen : zlen m + 2 < 2 ^ 64) (Hrange : 0 <= base /\ 0 < len /\ base + len < 2 ^ 64)
    (Hsurv : survives keep base type) :
  match memmap_alloc_range_in max keep base len type overlay do_panic false new_entry m with
  | Ret m' true => new_entry || fits m base len overlay = true /\ claims keep m base len type m'
  | Ret m' false => new_entry || fits m base len overlay = false /\ m' = m
  | Throw _ _ => max < zlen m + 2 \/ new_entry || fits m base len overlay = false /\ do_panic = true
  | Stuck => False
  end.
Proof.
  pose proof (alloc_range_wp max keep base len type Hrange Hsurv overlay do_panic new_entry m Hm Hlen) as W. unfold wp in W.
  destruct (memmap_alloc_range_in _ _ _ _ _ _ _ _ _ _) as [m' [|]| |]; [|by destruct W|unfold full in W; tauto|done].
  by destruct W as [E [? _]].
Qed.

(** [check_usable_memory] returns true exactly when every address of the range
    lies in an entry for memory. *)
Theorem check_usable_memory_correct (m : mmap) (base top : Z) (Hm : mm_ok m) (Hrange : 0 <= base < top /\ top < 2 ^ 64) :
  check_usable_memory m base top = true <->
  forall a, base <= a < top -> exists t, t ∈ types_at m a /\ is_ram t = true.
Proof. by apply check_usable_spec. Qed.

(** ** Allocating *)

(** C15: the top-down allocator rounds the size up to the alignment and returns the
    aligned block of that size highest in the last usable entry with room for it; the
    block was usable memory and now has the type asked for, and lies below 4 GiB unless
    high memory is allowed.  The range it marks ends where that entry ends, or at
    4 GiB if the entry goes on beyond and high memory is not allowed, so that up to
    alignment - 1 bytes after the block are marked as well; no other address changes its
    type.  The block's bytes are zeroed and no other byte
    of memory changes.  It panics only when no usable entry has room for such a block or
    the map may be full. *)
Theorem ext_mem_alloc_correct (s : pmm) (count type alignment : Z) (high : bool)
    (Hs : pmm_ok s) (Hd : allocations_disallowed s = false) (Ht : type <> MEMMAP_USABLE) (Hc : 0 < count)
    (Ha : 0 < alignment) (Hsum : count + alignment <= 2 ^ 62) :
  match ext_mem_alloc_type_aligned_mode count type alignment high s with
  | Ret s' p => granted s (ALIGN_UP count alignment) type alignment high p s' /\ pmm_ok s'
  | Throw _ _ => memmap_max_entries s < zlen (memmap s) + 2 \/
      no_room s (length (memmap s)) (ALIGN_UP count alignment) alignment high
  | Stuck => False
  end.
Proof.
  pose proof (ext_alloc_wp s count type alignment high Hs Hd Ht Hc Ha Hsum) as W. unfold wp in W.
  destruct (ext_mem_alloc_type_aligned_mode _ _ _ _ _); [|unfold map_full in W; tauto|done]. split; [done|]. by eapply granted_ok.
Qed.

(** [conv_mem_alloc] ends: it returns the first usable pages below 1 MiB from its
    static address on, zeroed and marked, or panics when there are none. *)
Theorem conv_mem_alloc_correct (s : pmm) (count : Z)
    (Hs : pmm_ok s) (Hd : allocations_disallowed s = false) (Hc : 0 < count) (Hsum : count + 4096 <= 2 ^ 62)
    (Hb : 4096 <= conv_base s <= 0x100000) (Hal : conv_base s mod 4096 = 0) :
  match conv_mem_alloc count s with
  | Ret s' p => conv_granted s (ALIGN_UP count 4096) p s'
  | Throw _ _ => memmap_max_entries s < zlen (memmap s) + 2 \/ conv_full s (conv_base s) (ALIGN_UP count 4096)
  | Stuck => False
  end.
Proof.
  pose proof (conv_alloc_wp s count Hs Hd Hc Hsum Hb Hal) as W. unfold wp in W. by destruct (conv_mem_alloc count s).
Qed.

(** C14: in every run of allocations by either allocator and releases, the blocks in
    use are disjoint, lie in memory that was usable at the start and have their types
    in the map; memory that was not usable at the start keeps its type. *)
Theorem allocations_disjoint (s0 s : pmm) (bs : list block) (Hs : pmm_ok s0) (Hrun : rtc step (s0, []) (s, bs)) :
  (forall b, b ∈ bs -> forall a, in_block b a ->
    types_at (memmap s) a = [b_type b] /\ types_at (memmap s0) a = [MEMMAP_USABLE]) /\
  ForallOrdPairs apart bs /\
  (forall a, types_at (memmap s0) a <> [MEMMAP_USABLE] -> types_at (memmap s) a = types_at (memmap s0) a).
Proof.
  assert (Hk : forall a, types_at (memmap s0) a <> [MEMMAP_USABLE] ->
    kept (pmm_sanitiser_keep_first_page s0) a (types_at (memmap s0) a) = types_at (memmap s0) a).
  { intros a Ha. pose proof (proj2 (proj1 Hs) a) as Hd. destruct (types_at (memmap s0) a) as [|t [|]];
      [by unfold kept; case_match|apply kept_one; congruence|simpl in Hd; lia]. }
  assert (Hok : run_ok s0 (s, bs)).
  { apply (run_steps s0 _ _ Hrun).
    split_and!; [done|done|by intros b Hb; apply elem_of_nil in Hb|constructor|done|]. intros a Ha. by rewrite Hk. }
  destruct Hok as (_ & _ & Hb & Hap & _ & Hrest). split; [|split; [done|]].
  - intros b Hin a Ha. by apply Hb.
  - intros a Ha. specialize (Hrest a Ha). rewrite (Hk a Ha) in Hrest. pose proof (proj2 (proj1 Hs) a) as Hd.
    destruct (types_at (memmap s0) a) as [|t [|]]; [by apply Permutation_nil_r|by apply perm_one|simpl in Hd; lia].
Qed.

(** ** The firmware's memory *)

(** C19: after initialisation from a firmware map without overlaps the allocator's
    invariant holds, allocations are allowed, and only memory the firmware calls
    conventional is usable; it panics only when the firmware fails or memory is short. *)
Theorem init_memmap_correct (fw : firmware) (slide image : Z) (s : pmm)
    (Hk : pmm_sanitiser_keep_first_page s = true) (Hds : Forall desc_ok (fw_mmap fw)) (Hap : descs_apart (fw_mmap fw))
    (Hne : exists d, d ∈ fw_mmap fw /\ NumberOfPages d <> 0)
    (Hcap : zlen (fw_mmap fw) <= first_mmap_size fw / efi_desc_size fw + 512)
    (Hmax : first_mmap_size fw / efi_desc_size fw + 516 < 2 ^ 64)
    (Hsl : 0 <= slide) (Him : 0 < image) (Hend : slide + image + 4096 <= 2 ^ 62) :
  match init_memmap fw slide image s with
  | Ret s' _ => pmm_ok s' /\ allocations_disallowed s' = false /\
      forall a, MEMMAP_USABLE ∈ types_at (memmap s') a -> conventional (fw_mmap fw) a
  | Throw _ _ => True
  | Stuck => False
  end.
Proof.
  pose proof (init_wp fw slide image s Hk Hds Hap Hne Hcap Hmax Hsl Him Hend) as W. unfold wp in W.
  destruct (init_memmap fw slide image s); [|done|done]. destruct W as (? & _ & ? & ? & _). done.
Qed.


(** ** Samples *)

(** A map in order, with a bound on its addresses. *)
Fixpoint chain (lo : Z) (m : mmap) : bool :=
  match m with
  | [] => lo <=? 2 ^ 62
  | e :: m' => (lo <=? e_base e) && (0 <? e_length e) && chain (e_base e + e_length e) m'
  end.

Lemma chain_spec m lo : chain lo m = true -> lo <= 2 ^ 62 /\ forall a, types_at m a <> [] -> lo <= a < 2 ^ 62.
Proof.
  revert lo. induction m as [|e m IH]; cbn [chain]; intros lo H; [split; [lia|done]|].
  destruct (IH (e_base e + e_length e)) as [H1 H2]; [by apply andb_true_iff in H as [_ ?]|]. split; [lia|].
  intros a Ha. rewrite types_at_cons in Ha. destruct (decide (covers e a)) as [Hc|Hc]; [unfold covers in Hc; lia|].
  rewrite piece_out in Ha by done. specialize (H2 a Ha). lia.
Qed.

Lemma chain_ok m lo : 0 <= lo -> chain lo m = true -> mm_ok m.
Proof.
  revert lo. induction m as [|e m IH]; intros lo Hlo H; [split; [constructor|by intros a; simpl; lia]|].
  pose proof (chain_spec _ _ H) as [_ Hall]. simpl in H. apply andb_true_iff in H as [He H].
  destruct (chain_spec _ _ H) as [Hb Hm]. destruct (IH (e_base e + e_length e)) as [Hok Hd]; [lia|done|]. split.
  - constructor; [|done]. unfold ent_ok, ent_wf. lia.
  - intros a. rewrite types_at_cons. destruct (decide (covers e a)) as [Hc|Hc]; [|rewrite piece_out by done; apply Hd].
    rewrite piece_in by done. destruct (types_at m a) as [|t l] eqn:E; [done|]. exfalso.
    unfold covers in Hc. specialize (Hm a). rewrite E in Hm. specialize (Hm ltac:(done)). lia.
Qed.

Definition sample_map : mmap :=
  [Entry 0x1000 0x9E000 MEMMAP_USABLE; Entry 0x9F000 0x61000 MEMMAP_RESERVED; Entry 0x100000 0x700000 MEMMAP_USABLE;
   Entry 0x800000 0x100000 MEMMAP_EFI_RECLAIMABLE; Entry 0x900000 0x3700000 MEMMAP_USABLE].

Definition sample : pmm := MkPmm sample_map 512 [] false true 4096 [] true [] (fun _ => 7).

Lemma sample_map_ok : mm_ok sample_map.
Proof. by apply (chain_ok _ 0). Qed.

Lemma sample_pmm_ok : pmm_ok sample.
Proof.
  split; [apply sample_map_ok|]. split; [|split; [vm_compute; congruence|done]].
  intros a Ha. by destruct (chain_spec sample_map 0 eq_refl) as [_ H]; apply H.
Qed.

Lemma mm_ok_perm m m' : m ≡ₚ m' -> mm_ok m -> mm_ok m'.
Proof. intros Hp [H1 H2]. split; [by rewrite <- Hp|]. by rewrite <- (perm_same _ _ Hp). Qed.

Lemma sample_reverse_ok : mm_ok (reverse sample_map).
Proof. apply (mm_ok_perm sample_map); [by rewrite reverse_Permutation|apply sample_map_ok]. Qed.


Definition overlapping : mmap :=
  [Entry 0x8000 0x3100 MEMMAP_USABLE; Entry 0x3000 0x5080 MEMMAP_RESERVED; Entry 0xB000 0x1000 MEMMAP_ACPI_NVS].

Lemma pmm_sanitise_entries_sound_witness :
  exists m', pmm_sanitise_entries true true overlapping = Ret m' tt /\ shrinks overlapping m' /\
    m' = [Entry 0x3000 0x5080 MEMMAP_RESERVED; Entry 0x9000 0x2000 MEMMAP_USABLE; Entry 0xB000 0x1000 MEMMAP_ACPI_NVS].
Proof.
  pose proof (pmm_sanitise_entries_sound true true overlapping
    ltac:(repeat constructor; vm_compute; congruence) ltac:(vm_compute; congruence)) as H.
  destruct (pmm_sanitise_entries true true overlapping) as [m' []| |] eqn:E; [|vm_compute in E; discriminate E..].
  exists m'. split; [reflexivity|]. split; [apply H|]. vm_compute in E. injection E as <-. reflexivity.
Defined.

Lemma memmap_alloc_range_correct_witness :
  exists m', memmap_alloc_range_in 512 true 0x200000 0x3000 MEMMAP_KERNEL_AND_MODULES MEMMAP_USABLE true false false sample_map
    = Ret m' true /\ claims true sample_map 0x200000 0x3000 MEMMAP_KERNEL_AND_MODULES m' /\ length m' = 7%nat.
Proof.
  pose proof (memmap_alloc_range_correct 512 true 0x200000 0x3000 MEMMAP_KERNEL_AND_MODULES MEMMAP_USABLE true false sample_map
    sample_map_ok ltac:(vm_compute; congruence) ltac:(lia) ltac:(by left)) as H.
  destruct (memmap_alloc_range_in _ _ _ _ _ _ _ _ _ _) as [m' [|]| |] eqn:E; try (vm_compute in E; discriminate E).
  exists m'. split; [reflexivity|]. split; [apply H|]. vm_compute in E. injection E as <-. reflexivity.
Defined.

Lemma check_usable_memory_correct_witness :
  check_usable_memory sample_map 0x700000 0x900001 = true /\
  forall a, 0x700000 <= a < 0x900001 -> exists t, t ∈ types_at sample_map a /\ is_ram t = true.
Proof.
  split; [done|]. apply (check_usable_memory_correct sample_map 0x700000 0x900001 sample_map_ok); [lia|done].
Defined.

(** The address a call returns. *)
Definition returned {A} (r : outcome pmm A) : option A := match r with Ret _ p => Some p | _ => None end.

Lemma returned_Some {A} (r : outcome pmm A) p : returned r = Some p -> exists s', r = Ret s' p.
Proof. destruct r as [s' p'| |]; [|done|done]. intros [= ->]. by exists s'. Qed.

Lemma ext_mem_alloc_correct_witness :
  exists s', ext_mem_alloc_type_aligned_mode 0x1800 MEMMAP_KERNEL_AND_MODULES 0x10000 false sample = Ret s' 0x3FF0000 /\
    granted sample (ALIGN_UP 0x1800 0x10000) MEMMAP_KERNEL_AND_MODULES 0x10000 false 0x3FF0000 s' /\ pmm_ok s'.
Proof.
  pose proof (ext_mem_alloc_correct sample 0x1800 MEMMAP_KERNEL_AND_MODULES 0x10000 false sample_pmm_ok eq_refl
    ltac:(done) ltac:(lia) ltac:(lia) ltac:(lia)) as H.
  destruct (returned_Some (ext_mem_alloc_type_aligned_mode 0x1800 MEMMAP_KERNEL_AND_MODULES 0x10000 false sample) 0x3FF0000)
    as [s' E]; [vm_compute; reflexivity|].
  rewrite E in H. exists s'. split; [exact E|exact H].
Defined.

Lemma conv_mem_alloc_correct_witness :
  exists s', conv_mem_alloc 0x1800 sample = Ret s' 0x1000 /\ conv_granted sample (ALIGN_UP 0x1800 4096) 0x1000 s'.
Proof.
  pose proof (conv_mem_alloc_correct sample 0x1800 sample_pmm_ok eq_refl ltac:(lia) ltac:(lia)
    ltac:(simpl; lia) eq_refl) as H.
  destruct (returned_Some (conv_mem_alloc 0x1800 sample) 0x1000) as [s' E]; [vm_compute; reflexivity|].
  rewrite E in H. exists s'. split; [exact E|exact H].
Defined.

(** Two blocks are allocated and the first one released. *)
Definition two_blocks : P (Z * Z) :=
  p ← ext_mem_alloc_type_aligned_mode 0x1800 MEMMAP_KERNEL_AND_MODULES 4096 false;
  q ← ext_mem_alloc_type_aligned_mode 0x5000 MEMMAP_BOOTLOADER_RECLAIMABLE 4096 false;
  _ ← pmm_free p 0x1800;
  mret (p, q).

Lemma two_blocks_run s s' p q :
  two_blocks s = Ret s' (p, q) -> 0x1000 <= p ->
  rtc step (s, []) (s', [MkBlock q (ALIGN_UP 0x5000 4096) MEMMAP_BOOTLOADER_RECLAIMABLE]).
Proof.
  unfold two_blocks. intros E Hp. apply bind_inv in E as (s1 & p' & E1 & E). apply bind_inv in E as (s2 & q' & E2 & E).
  apply bind_inv in E as (s3 & [] & E3 & E). injection E as -> -> ->.
  eapply rtc_l; [by eapply (step_alloc s [] 0x1800 MEMMAP_KERNEL_AND_MODULES 4096 false); [..|exact E1]|].
  eapply rtc_l; [by eapply (step_alloc s1 _ 0x5000 MEMMAP_BOOTLOADER_RECLAIMABLE 4096 false); [..|exact E2]|].
  eapply rtc_l; [|apply rtc_refl].
  apply (step_free s2 [MkBlock q (ALIGN_UP 0x5000 4096) MEMMAP_BOOTLOADER_RECLAIMABLE]
    (MkBlock p (ALIGN_UP 0x1800 4096) MEMMAP_KERNEL_AND_MODULES) [] 0x1800); [done|done|done|right; left; done|exact E3].
Qed.

Lemma allocations_disjoint_witness :
  exists s, rtc step (sample, []) (s, [MkBlock 0x3FF9000 (ALIGN_UP 0x5000 4096) MEMMAP_BOOTLOADER_RECLAIMABLE]) /\
    forall a, in_block (MkBlock 0x3FF9000 (ALIGN_UP 0x5000 4096) MEMMAP_BOOTLOADER_RECLAIMABLE) a ->
      types_at (memmap s) a = [MEMMAP_BOOTLOADER_RECLAIMABLE].
Proof.
  destruct (returned_Some (two_blocks sample) (0x3FFE000, 0x3FF9000)) as [s E]; [vm_compute; reflexivity|].
  apply two_blocks_run in E as Hrun; [|lia]. exists s. split; [exact Hrun|].
  destruct (allocations_disjoint sample s _ sample_pmm_ok Hrun) as [H _]. intros a Ha. apply (H _ ltac:(left) a Ha).
Defined.

Definition sample_fw : firmware :=
  MkFirmware (4 * 48) 48 true true
    [MkDesc EfiConventionalMemory 0x1000 0x9E; MkDesc 0 0x9F000 0x61; MkDesc EfiConventionalMemory 0x100000 0x8000;
     MkDesc 1 0x8100000 0x100; MkDesc EfiBootServicesData 0x8200000 0x100]
    (fun _ _ _ => true) (fun _ _ => true).

Lemma sample_descs_ok : Forall desc_ok (fw_mmap sample_fw).
Proof. repeat constructor; vm_compute; congruence. Qed.

Lemma sample_descs_apart : descs_apart (fw_mmap sample_fw).
Proof.
  unfold descs_apart. repeat (constructor; [rewrite ?Forall_cons; split_and?; try done;
    intros a; unfold desc_covers; simpl; lia|]). constructor.
Qed.

Lemma init_memmap_correct_witness :
  exists s', init_memmap sample_fw 0x8100000 0xFF800 (MkPmm [] 0 [] true true 4096 [] false [] (fun _ => 7)) = Ret s' tt /\
    pmm_ok s' /\ forall a, MEMMAP_USABLE ∈ types_at (memmap s') a -> conventional (fw_mmap sample_fw) a.
Proof.
  pose proof (init_memmap_correct sample_fw 0x8100000 0xFF800 (MkPmm [] 0 [] true true 4096 [] false [] (fun _ => 7))
    eq_refl sample_descs_ok sample_descs_apart ltac:(eexists; split; [left|done]) ltac:(vm_compute; congruence)
    ltac:(vm_compute; congruence) ltac:(lia) ltac:(lia) ltac:(lia)) as H.
  destruct (returned_Some (init_memmap sample_fw 0x8100000 0xFF800 (MkPmm [] 0 [] true true 4096 [] false [] (fun _ => 7))) tt)
    as [s' E]; [vm_compute; reflexivity|].
  rewrite E in H. exists s'. split; [exact E|]. split; apply H.
Defined.


(** ** Inputs the code does not treat as meant *)

(** [align_entry] rounds this entry to nothing and reports success: it tests the
    pointer instead of the length. *)
Lemma align_entry_zero : align_entry 1 5000 = (4096, 0, true).
Proof. reflexivity. Qed.

(** A usable entry inside a reserved one is not clipped. *)
Lemma sanitise_nested_usable :
  pmm_sanitise_entries true false [Entry 0x2000 0x1000 MEMMAP_USABLE; Entry 0x1000 0x3000 MEMMAP_RESERVED] =
  Ret [Entry 0x1000 0x3000 MEMMAP_RESERVED; Entry 0x2000 0x1000 MEMMAP_USABLE] tt.
Proof. vm_compute. reflexivity. Qed.

(** A reserved entry at the start of a usable one is taken for one inside it. *)
Lemma sanitise_touching_panics :
  returned (on_memmap (pmm_sanitise_entries true false)
    (set_memmap sample [Entry 0x1000 0x3000 MEMMAP_USABLE; Entry 0x1000 0x1000 MEMMAP_RESERVED])) = None.
Proof. vm_compute. reflexivity. Qed.

(** When all entries are removed the loop bound [count - 1] of the sort wraps around. *)
Lemma sanitise_empty_stuck :
  pmm_sanitise_entries false false [Entry 0 0x1000 MEMMAP_USABLE] = Stuck.
Proof. vm_compute. reflexivity. Qed.
End PmmTheorems.
