(* ===== verification/Inflate.v ===== *)
(** * The decompressor of the boot loader

    decompressor/tinf of Limine (src/limine/limine-8.7.0): tinflate.c, which inflates
    a deflate stream, and tinfgzip.c, which skips a gzip header.  The source is the
    list of bytes up to [source_end], and [after] the bytes of memory that follow: the
    code reads on there when a stored block is longer than the source.  The destination
    is the list of bytes written from [dest_start] on; the tests of its size are
    commented out in the code, so that nothing bounds it, and it is taken not to overlap
    the source.  An access outside of an array, or past the end of [after], is
    undefined.  [int] values stay below 2^16. *)

From S2P Require Import Prelude Effects.

Module Inflate.
Import Effects.
Open Scope string_scope.
Open Scope list_scope.
Open Scope Z_scope.

Definition TINF_OK : Z := 0.
Definition TINF_DATA_ERROR : Z := -3.

Record tinf_tree := MkTree {
  counts : list Z;    (* number of codes with a given length *)
  symbols : list Z;   (* symbols sorted by code *)
  max_sym : Z }.

Record tinf_data := MkData {
  source : list Z;
  tag : Z;
  bitcount : Z;
  overflow : bool;
  dest : list Z;
  ltree : tinf_tree;
  dtree : tinf_tree;
  after : list Z;
  over : bool }.      (* [source] is past [source_end]; [after] is empty then *)

Abbreviation M := (ST tinf_data).

Definition stuck {A} : M A := fun _ => Stuck.
Definition read {A} (f : tinf_data -> A) : M A := fun d => Ret d (f d).
Definition of_option {A} (o : option A) : M A := match o with Some a => mret a | None => stuck end.

Definition set_bits (d : tinf_data) (s : list Z) (t b : Z) (o : bool) : tinf_data :=
  MkData s t b o (dest d) (ltree d) (dtree d) (after d) (over d).
Definition set_source (s : list Z) : M unit := fun d => Ret (set_bits d s (tag d) (bitcount d) (overflow d)) tt.
Definition drop_bits : M unit := fun d => Ret (set_bits d (source d) 0 0 (overflow d)) tt.
Definition set_ltree (t : tinf_tree) : M unit := fun d =>
  Ret (MkData (source d) (tag d) (bitcount d) (overflow d) (dest d) t (dtree d) (after d) (over d)) tt.
Definition set_dtree (t : tinf_tree) : M unit := fun d =>
  Ret (MkData (source d) (tag d) (bitcount d) (overflow d) (dest d) (ltree d) t (after d) (over d)) tt.
Definition put (c : Z) : M unit := fun d =>
  Ret (MkData (source d) (tag d) (bitcount d) (overflow d) (dest d ++ [c]) (ltree d) (dtree d) (after d) (over d)) tt.

(** [*d->source++]: the byte at [source_end] and those after it are in [after]. *)
Definition next_byte : M Z := fun d =>
  match source d with
  | b :: s => Ret (set_bits d s (tag d) (bitcount d) (overflow d)) b
  | [] =>
      match after d with
      | b :: s => Ret (MkData s (tag d) (bitcount d) (overflow d) (dest d) (ltree d) (dtree d) [] true) b
      | [] => Stuck
      end
  end.

(** Writing an array, undefined outside of it. *)
Definition store (l : list Z) (i v : Z) : option (list Z) :=
  if (0 <=? i) && (i <? zlen l) then Some (<[Z.to_nat i := v]> l) else None.
Definition load (l : list Z) (i : Z) : option Z :=
  if 0 <=? i then l !! Z.to_nat i else None.

(** ** Trees *)

(** [for (i = 0; i < n; ++i) symbols[at + i] = v + i] *)
Fixpoint fill_seq (n : nat) (at_ v : Z) (l : list Z) : list Z :=
  match n with
  | O => l
  | S n' => fill_seq n' (at_ + 1) (v + 1) (<[Z.to_nat at_ := v]> l)
  end.

Definition tinf_build_fixed_trees (lt dt : tinf_tree) : tinf_tree * tinf_tree :=
  let lcounts := <[9%nat := 112]> (<[8%nat := 152]> (<[7%nat := 24]> (replicate 16 0))) in
  let lsymbols := fill_seq 112 (24 + 144 + 8) 144 (fill_seq 8 (24 + 144) 280
    (fill_seq 144 24 0 (fill_seq 24 0 256 (symbols lt)))) in
  let dcounts := <[5%nat := 32]> (replicate 16 0) in
  let dsymbols := fill_seq 32 0 0 (symbols dt) in
  (MkTree lcounts lsymbols 285, MkTree dcounts dsymbols 29).

(** Counting the codes of each length; [i] is the next symbol. *)
Fixpoint count_loop (lengths : list Z) (i : Z) (cs : list Z) (mx : Z) : option (list Z * Z) :=
  match lengths with
  | [] => Some (cs, mx)
  | l :: ls =>
      if l =? 0 then count_loop ls (i + 1) cs mx
      else
        c ← load cs l;
        cs' ← store cs l (u16 (c + 1));
        count_loop ls (i + 1) cs' i
  end.

(** The offset table; [None] for a set of lengths with more codes than available.
    Returns the offsets, what is left available, and the number of codes. *)
Fixpoint offs_loop (cs : list Z) (available num_codes : Z) : option (list Z * Z * Z) :=
  match cs with
  | [] => Some ([], available, num_codes)
  | used :: cs' =>
      if available <? used then None
      else
        '(offs, av, n) ← offs_loop cs' (u32 (2 * u32 (available - used))) (u32 (num_codes + used));
        Some (u16 num_codes :: offs, av, n)
  end.

(** The distribution sort. *)
Fixpoint sort_loop (lengths : list Z) (i : Z) (offs syms : list Z) : option (list Z) :=
  match lengths with
  | [] => Some syms
  | l :: ls =>
      if l =? 0 then sort_loop ls (i + 1) offs syms
      else
        o ← load offs l;
        syms' ← store syms o i;
        offs' ← store offs l (u16 (o + 1));
        sort_loop ls (i + 1) offs' syms'
  end.

(** The tree and the result; [None] for an access outside of an array. *)
Definition tinf_build_tree (t : tinf_tree) (lengths : list Z) (num : nat) : option (tinf_tree * Z) :=
  let lens := take num lengths in
  if (length lens <? num)%nat then None
  else
    '(cs, mx) ← count_loop lens 0 (replicate 16 0) (-1);
    match offs_loop cs 1 0 with
    | None => Some (MkTree cs (symbols t) mx, TINF_DATA_ERROR)
    | Some (offs, available, num_codes) =>
        c1 ← load cs 1;
        if (1 <? num_codes) && (0 <? available) || (num_codes =? 1) && negb (c1 =? 1)
        then Some (MkTree cs (symbols t) mx, TINF_DATA_ERROR)
        else
          syms ← sort_loop lens 0 offs (symbols t);
          if num_codes =? 1 then
            cs' ← store cs 1 2;
            syms' ← store syms 1 (u16 (mx + 1));
            Some (MkTree cs' syms' mx, TINF_OK)
          else Some (MkTree cs syms mx, TINF_OK)
    end.

(** ** Bits *)

(** The loop of [tinf_refill]; it reads [num / 8 + 1] bytes at most.  Past [source_end]
    the test [source != source_end] stays true. *)
Fixpoint refill_loop (fuel : nat) (num : Z) : M unit := fun d =>
  match fuel with
  | O => Stuck
  | S fuel' =>
      if bitcount d <? num then
        match source d with
        | b :: s =>
            refill_loop fuel' num (set_bits d s (Z.lor (tag d) (u32 (Z.shiftl b (bitcount d)))) (bitcount d + 8) (overflow d))
        | [] =>
            if over d then Stuck
            else refill_loop fuel' num (set_bits d [] (tag d) (bitcount d + 8) true)
        end
      else Ret d tt
  end.
Definition tinf_refill (num : Z) : M unit := refill_loop (S (Z.to_nat num)) num.

Definition tinf_getbits_no_refill (num : Z) : M Z := fun d =>
  let bits := Z.land (tag d) (Z.shiftl 1 num - 1) in
  Ret (set_bits d (source d) (Z.shiftr (tag d) num) (bitcount d - num) (overflow d)) bits.

Definition tinf_getbits (num : Z) : M Z := _ ← tinf_refill num; tinf_getbits_no_refill num.

Definition tinf_getbits_base (num base : Z) : M Z :=
  b ← (if num =? 0 then mret 0 else tinf_getbits num);
  mret (base + b).

(** The loop over the code lengths, from [len] on. *)
Fixpoint symbol_loop (fuel : nat) (t : tinf_tree) (len : Z) (base offs : Z) : M Z :=
  match fuel with
  | O => stuck
  | S fuel' =>
      b ← tinf_getbits 1;
      let offs := 2 * offs + b in
      c ← of_option (load (counts t) len);
      if offs <? c then of_option (load (symbols t) (base + offs))
      else symbol_loop fuel' t (len + 1) (base + c) (offs - c)
  end.

(** There are 15 code lengths. *)
Definition tinf_decode_symbol (t : tinf_tree) : M Z := symbol_loop 16 t 1 0 0.

(** ** Dynamic trees *)

Definition clcidx : list Z := [16; 17; 18; 0; 8; 7; 9; 6; 10; 5; 11; 4; 12; 3; 13; 2; 14; 1; 15].

(** The code lengths of the code length alphabet, read for the positions [idx]. *)
Fixpoint clen_loop (idx : list Z) (lengths : list Z) : M (list Z) :=
  match idx with
  | [] => mret lengths
  | i :: idx' =>
      clen ← tinf_getbits 3;
      lengths' ← of_option (store lengths i clen);
      clen_loop idx' lengths'
  end.

(** [while (length--) lengths[num++] = sym] *)
Fixpoint repeat_loop (n : nat) (num : Z) (sym : Z) (lengths : list Z) : option (list Z) :=
  match n with
  | O => Some lengths
  | S n' => lengths' ← store lengths num sym; repeat_loop n' (num + 1) sym lengths'
  end.

(** The switch over a code length symbol: the length and how often. *)
Definition run_length (lengths : list Z) (num sym : Z) : M (Z * Z) :=
  if sym =? 16 then prev ← of_option (load lengths (num - 1)); n ← tinf_getbits_base 2 3; mret (prev, n)
  else if sym =? 17 then n ← tinf_getbits_base 3 3; mret (0, n)
  else if sym =? 18 then n ← tinf_getbits_base 7 11; mret (0, n)
  else mret (sym, 1).

(** The code lengths of the two alphabets; the [Z] is an error code. *)
Fixpoint lengths_loop (fuel : nat) (lt : tinf_tree) (total num : Z) (lengths : list Z) : M (list Z * Z) :=
  match fuel with
  | O => stuck
  | S fuel' =>
      if num <? total then
        sym ← tinf_decode_symbol lt;
        if max_sym lt <? sym then mret (lengths, TINF_DATA_ERROR)
        else if (sym =? 16) && (num =? 0) then mret (lengths, TINF_DATA_ERROR)
        else
          '(sym, len) ← run_length lengths num sym;
          if total - num <? len then mret (lengths, TINF_DATA_ERROR)
          else
            lengths' ← of_option (repeat_loop (Z.to_nat len) num sym lengths);
            lengths_loop fuel' lt total (num + len) lengths'
      else mret (lengths, TINF_OK)
  end.

(** From the code lengths of the code length alphabet to the two trees. *)
Definition decode_lengths (hlit hdist : Z) (lengths : list Z) : M Z :=
  lt ← read ltree;
  '(lt, res) ← of_option (tinf_build_tree lt lengths 19);
  _ ← set_ltree lt;
  if negb (res =? TINF_OK) then mret res
  else if max_sym lt =? -1 then mret TINF_DATA_ERROR
  else
    '(lengths, res) ← lengths_loop (S (Z.to_nat (hlit + hdist))) lt (hlit + hdist) 0 lengths;
    if negb (res =? TINF_OK) then mret res
    else
      eob ← of_option (load lengths 256);
      if eob =? 0 then mret TINF_DATA_ERROR
      else
        '(lt, res) ← of_option (tinf_build_tree lt lengths (Z.to_nat hlit));
        _ ← set_ltree lt;
        if negb (res =? TINF_OK) then mret res
        else
          dt ← read dtree;
          '(dt, res) ← of_option (tinf_build_tree dt (drop (Z.to_nat hlit) lengths) (Z.to_nat hdist));
          _ ← set_dtree dt;
          mret res.

Section junk.
(** The value of uninitialised bytes. *)
Variable junk : Z.

Definition tinf_decode_trees : M Z :=
  hlit ← tinf_getbits_base 5 257;
  hdist ← tinf_getbits_base 5 1;
  hclen ← tinf_getbits_base 4 4;
  if (286 <? hlit) || (30 <? hdist) then mret TINF_DATA_ERROR
  else
    lengths ← clen_loop (take (Z.to_nat hclen) clcidx) (replicate 19 0 ++ replicate 301 junk);
    decode_lengths hlit hdist lengths.

(** ** Blocks *)

Definition length_bits : list Z :=
  [0; 0; 0; 0; 0; 0; 0; 0; 1; 1; 1; 1; 2; 2; 2; 2; 3; 3; 3; 3; 4; 4; 4; 4; 5; 5; 5; 5; 0; 127].
Definition length_base : list Z :=
  [3; 4; 5; 6; 7; 8; 9; 10; 11; 13; 15; 17; 19; 23; 27; 31; 35; 43; 51; 59; 67; 83; 99; 115; 131; 163; 195; 227; 258; 0].
Definition dist_bits : list Z :=
  [0; 0; 0; 0; 1; 1; 2; 2; 3; 3; 4; 4; 5; 5; 6; 6; 7; 7; 8; 8; 9; 9; 10; 10; 11; 11; 12; 12; 13; 13].
Definition dist_base : list Z :=
  [1; 2; 3; 4; 5; 7; 9; 13; 17; 25; 33; 49; 65; 97; 129; 193; 257; 385; 513; 769; 1025; 1537; 2049; 3073; 4097; 6145;
   8193; 12289; 16385; 24577].

(** [for (i = 0; i < length; ++i) dest[i] = dest[i - offs]; dest += length] *)
Fixpoint copy_loop (n : nat) (offs : Z) : M unit :=
  match n with
  | O => mret tt
  | S n' =>
      out ← read dest;
      c ← of_option (load out (zlen out - offs));
      _ ← put c;
      copy_loop n' offs
  end.

(** What a symbol above 256 stands for: a copy.  The result is an error code. *)
Definition match_symbol (lt dt : tinf_tree) (sym : Z) : M Z :=
  if (max_sym lt <? sym) || (28 <? sym - 257) || (max_sym dt =? -1) then mret TINF_DATA_ERROR
  else
    let sym := sym - 257 in
    lbits ← of_option (load length_bits sym);
    lbase ← of_option (load length_base sym);
    len ← tinf_getbits_base lbits lbase;
    dist ← tinf_decode_symbol dt;
    if (max_sym dt <? dist) || (29 <? dist) then mret TINF_DATA_ERROR
    else
      dbits ← of_option (load dist_bits dist);
      dbase ← of_option (load dist_base dist);
      offs ← tinf_getbits_base dbits dbase;
      out ← read dest;
      if zlen out <? offs then mret TINF_DATA_ERROR
      else _ ← copy_loop (Z.to_nat len) offs; mret TINF_OK.

Fixpoint block_loop (fuel : nat) (lt dt : tinf_tree) : M Z :=
  match fuel with
  | O => stuck
  | S fuel' =>
      sym ← tinf_decode_symbol lt;
      o ← read overflow;
      if (o : bool) then mret TINF_DATA_ERROR
      else if sym <? 256 then _ ← put (u8 sym); block_loop fuel' lt dt
      else if sym =? 256 then mret TINF_OK
      else
        res ← match_symbol lt dt sym;
        if negb (res =? TINF_OK) then mret res else block_loop fuel' lt dt
  end.

(** The bits that are left; each symbol takes one at least. *)
Definition bits_left (d : tinf_data) : nat := (8 * length (source d) + Z.to_nat (bitcount d))%nat.

Definition tinf_inflate_block_data (lt dt : tinf_tree) : M Z :=
  n ← read bits_left;
  block_loop (S n) lt dt.

Definition read_le16 (p : list Z) : option Z :=
  match p with
  | b0 :: b1 :: _ => Some (Z.lor b0 (Z.shiftl b1 8))
  | _ => None
  end.

(** [while (length--) *d->dest++ = *d->source++] *)
Fixpoint stored_loop (n : nat) : M unit :=
  match n with
  | O => mret tt
  | S n' =>
      c ← next_byte;
      _ ← put c;
      stored_loop n'
  end.

Definition tinf_inflate_uncompressed_block : M Z :=
  s ← read source;
  past ← read over;
  if (past : bool) || (zlen s <? 4) then mret TINF_DATA_ERROR
  else
    len ← of_option (read_le16 s);
    invlength ← of_option (read_le16 (drop 2 s));
    if negb (len =? Z.land (u32 (Z.lnot invlength)) 0xFFFF) then mret TINF_DATA_ERROR
    else
      _ ← set_source (drop 4 s);
      _ ← stored_loop (Z.to_nat len);
      _ ← drop_bits;
      mret TINF_OK.

Definition tinf_inflate_fixed_block : M Z :=
  lt ← read ltree;
  dt ← read dtree;
  let '(lt, dt) := tinf_build_fixed_trees lt dt in
  _ ← set_ltree lt;
  _ ← set_dtree dt;
  tinf_inflate_block_data lt dt.

Definition tinf_inflate_dynamic_block : M Z :=
  res ← tinf_decode_trees;
  if negb (res =? TINF_OK) then mret res
  else
    lt ← read ltree;
    dt ← read dtree;
    tinf_inflate_block_data lt dt.

(** The switch over the type of a block. *)
Definition inflate_block (btype : Z) : M Z :=
  if btype =? 0 then tinf_inflate_uncompressed_block
  else if btype =? 1 then tinf_inflate_fixed_block
  else if btype =? 2 then tinf_inflate_dynamic_block
  else mret TINF_DATA_ERROR.

(** The loop over the blocks; each takes three bits at least. *)
Fixpoint uncompress_loop (fuel : nat) : M Z :=
  match fuel with
  | O => stuck
  | S fuel' =>
      bfinal ← tinf_getbits 1;
      btype ← tinf_getbits 2;
      res ← inflate_block btype;
      if negb (res =? TINF_OK) then mret res
      else if bfinal =? 0 then uncompress_loop fuel'
      else
        o ← read overflow;
        if (o : bool) then mret TINF_DATA_ERROR else mret TINF_OK
  end.

(** [lt] and [dt] are the trees of the uninitialised [struct tinf_data], [mem] the memory
    after the source. *)
Definition tinf_uncompress (lt dt : tinf_tree) (src mem : list Z) : outcome tinf_data Z :=
  uncompress_loop (S (8 * length (src ++ mem))) (MkData src 0 0 false [] lt dt mem false).

(** ** The gzip header *)

Definition FHCRC : Z := 2.
Definition FEXTRA : Z := 4.
Definition FNAME : Z := 8.
Definition FCOMMENT : Z := 16.

(** Skipping the extra data at [start]; [None] if there is not as much. *)
Definition skip_extra (sourceLen : Z) (start : list Z) : option (list Z) :=
  xlen ← read_le16 start;
  if sourceLen - 12 <? xlen then None else Some (drop (Z.to_nat (xlen + 2)) start).

(** Skipping a string; [None] if it does not end. *)
Fixpoint skip_string (s : list Z) : option (list Z) :=
  match s with
  | [] => None
  | c :: s' => if c =? 0 then Some s' else skip_string s'
  end.

(** The source from the end of the header on; [None] for an error.  Two bytes of the
    header checksum that are not there leave less than the eight bytes that must
    follow. *)
Definition gzip_header (src : list Z) : option (list Z) :=
  let sourceLen := zlen src in
  if sourceLen <? 18 then None
  else
    id0 ← load src 0; id1 ← load src 1; cm ← load src 2; flg ← load src 3;
    if negb (id0 =? 0x1F) || negb (id1 =? 0x8B) then None
    else if negb (cm =? 8) then None
    else if negb (Z.land flg 0xE0 =? 0) then None
    else
      let has f := negb (Z.land flg f =? 0) in
      let start := drop 10 src in
      start ← (if has FEXTRA then skip_extra sourceLen start else Some start);
      start ← (if has FNAME then skip_string start else Some start);
      start ← (if has FCOMMENT then skip_string start else Some start);
      let start := if has FHCRC then drop 2 start else start in
      if zlen start <? 8 then None else Some start.

(** The trailer comes after the source of [tinf_uncompress]. *)
Definition tinf_gzip_uncompress (lt dt : tinf_tree) (src mem : list Z) : outcome tinf_data Z :=
  match gzip_header src with
  | None => Ret (MkData src 0 0 false [] lt dt mem false) TINF_DATA_ERROR
  | Some start =>
      let n := (length start - 8)%nat in
      match tinf_uncompress lt dt (take n start) (drop n start ++ mem) with
      | Ret d r => Ret d (if r =? TINF_OK then TINF_OK else TINF_DATA_ERROR)
      | o => o
      end
  end.
End junk.
End Inflate.
