(* ===== verification/InflateBits.v ===== *)
(** * The bit reader of the decompressor

    The bits a decompressor state has yet to deliver, and what reading them does. *)

From S2P Require Import Prelude Effects Inflate.

Module InflateBits.
Import Effects Inflate.
Open Scope Z_scope.

(** ** Bits of numbers, least significant first *)

Fixpoint bits_of (n : nat) (x : Z) : list bool :=
  match n with
  | O => []
  | S n' => Z.odd x :: bits_of n' (x / 2)
  end.

Definition val (l : list bool) : Z := foldr (fun b a => Z.b2z b + 2 * a) 0 l.

Lemma bits_of_length n x : length (bits_of n x) = n.
Proof. revert x. induction n; intros; simpl; congruence. Qed.

Lemma odd_div (x : Z) : x = Z.b2z (Z.odd x) + 2 * (x / 2).
Proof. rewrite (Z.div_mod x 2) at 1 by lia. rewrite Zmod_odd. unfold Z.b2z. destruct (Z.odd x); lia. Qed.

Lemma val_range l : 0 <= val l < 2 ^ zlen l.
Proof.
  induction l as [|b l IH]; [done|]. cbn [val foldr length]. fold (val l).
  rewrite Nat2Z.inj_succ, Z.pow_succ_r by lia. unfold Z.b2z. destruct b; lia.
Qed.

Lemma val_bits n x : 0 <= x < 2 ^ Z.of_nat n -> val (bits_of n x) = x.
Proof.
  revert x. induction n as [|n IH]; intros x Hx; [simpl in *; lia|].
  rewrite Nat2Z.inj_succ, Z.pow_succ_r in Hx by lia. cbn [val foldr bits_of]. fold (val (bits_of n (x / 2))).
  rewrite IH; [symmetry; apply odd_div|]. split; [apply Z.div_pos; lia|apply Z.div_lt_upper_bound; lia].
Qed.

Lemma val_cons b l : val (b :: l) = Z.b2z b + 2 * val l.
Proof. done. Qed.

Lemma bits_val_cons n b y : bits_of (S n) (Z.b2z b + 2 * y) = b :: bits_of n y.
Proof.
  cbn [bits_of]. f_equal.
  - rewrite Z.odd_add_mul_2. by destruct b.
  - f_equal. rewrite Z.mul_comm, Z.div_add by lia. by destruct b.
Qed.

Lemma bits_val l : bits_of (length l) (val l) = l.
Proof. induction l as [|b l IH]; [done|]. cbn [length]. by rewrite val_cons, bits_val_cons, IH. Qed.

Lemma val_app l l' : val (l ++ l') = val l + 2 ^ zlen l * val l'.
Proof.
  induction l as [|b l IH]; [unfold zlen; simpl; lia|]. cbn [app length]. rewrite !val_cons, IH.
  rewrite Nat2Z.inj_succ, Z.pow_succ_r by lia. lia.
Qed.

Lemma val_app_small l l' n : length l = n -> bits_of (n + length l') (val l + 2 ^ Z.of_nat n * val l') = l ++ l'.
Proof. intros <-. rewrite <- val_app, <- length_app. apply bits_val. Qed.

Lemma val_zeros k : val (replicate k false) = 0.
Proof. induction k as [|k IH]; [done|]. cbn [replicate]. by rewrite val_cons, IH. Qed.

(** ** The stream *)

Definition stream (d : tinf_data) : list bool :=
  bits_of (Z.to_nat (bitcount d)) (tag d) ++ flat_map (bits_of 8) (source d).

(** What the reader keeps while it reads bytes of the source. *)
Definition filled (d : tinf_data) : Prop :=
  0 <= bitcount d /\ 0 <= tag d < 2 ^ bitcount d /\ Forall (fun b => 0 <= b < 256) (source d) /\
  (overflow d = true -> source d = []) /\ over d = false.

(** Only the reader's part changes. *)
Definition frame (d d' : tinf_data) : Prop := dest d' = dest d /\ ltree d' = ltree d /\ dtree d' = dtree d.

#[export] Instance frame_pre : PreOrder frame.
Proof. unfold frame. split; [by intros ?|]. intros ??? (? & ? & ?) (? & ? & ?). split_and!; congruence. Qed.

Lemma tag_byte t b n : 0 <= n <= 24 -> 0 <= t < 2 ^ n -> 0 <= b < 256 ->
  Z.lor t (u32 (Z.shiftl b n)) = t + 2 ^ n * b /\ 0 <= t + 2 ^ n * b < 2 ^ (n + 8).
Proof.
  intros Hn Ht Hb. assert (2 ^ n <= 2 ^ 24) by (apply Z.pow_le_mono_r; lia).
  rewrite Z.shiftl_mul_pow2 by lia. rewrite wrap_small by (unfold in_u; nia).
  rewrite Z.lor_comm, lor_shift by lia. rewrite Z.pow_add_r by lia. split; [lia|]. change (2 ^ 8) with 256. nia.
Qed.

Lemma stream_byte d b s :
  filled d -> bitcount d <= 24 -> source d = b :: s ->
  let d' := set_bits d s (Z.lor (tag d) (u32 (Z.shiftl b (bitcount d)))) (bitcount d + 8) (overflow d) in
  filled d' /\ stream d' = stream d.
Proof.
  intros (Hb & Ht & Hs & Ho & Hov) Hn Es d'. rewrite Es in Hs. apply Forall_cons in Hs as [Hb8 Hs].
  destruct (tag_byte (tag d) b (bitcount d)) as [Et Hr]; [lia|done|done|]. split.
  - unfold filled, d'. cbn [set_bits bitcount tag source overflow over]. rewrite Et. split_and!; [lia|lia|lia|done| |done].
    intros H. specialize (Ho H). congruence.
  - unfold stream, d'. cbn [set_bits bitcount tag source]. rewrite Et, Es. cbn [flat_map]. rewrite app_assoc. f_equal.
    replace (Z.to_nat (bitcount d + 8)) with (Z.to_nat (bitcount d) + length (bits_of 8 b))%nat by (rewrite bits_of_length; lia).
    rewrite <- (val_app_small (bits_of (Z.to_nat (bitcount d)) (tag d)) (bits_of 8 b) (Z.to_nat (bitcount d))) by apply bits_of_length.
    rewrite !val_bits, Z2Nat.id by (rewrite ?Z2Nat.id by lia; done). done.
Qed.

Lemma stream_pad d :
  filled d -> source d = [] ->
  let d' := set_bits d [] (tag d) (bitcount d + 8) true in filled d' /\ stream d' = stream d ++ replicate 8 false.
Proof.
  intros (Hb & Ht & Hs & Ho & Hov) Es d'. split.
  - unfold filled, d'. cbn [set_bits bitcount tag source overflow over]. rewrite Z.pow_add_r by lia. split_and!; [lia|lia|nia|done|done|done].
  - unfold stream, d'. cbn [set_bits bitcount tag source]. rewrite Es. cbn [flat_map]. rewrite !app_nil_r.
    replace (Z.to_nat (bitcount d + 8)) with (Z.to_nat (bitcount d) + length (replicate 8 false))%nat by (simpl; lia).
    rewrite <- (val_app_small (bits_of (Z.to_nat (bitcount d)) (tag d)) (replicate 8 false) (Z.to_nat (bitcount d))) by apply bits_of_length.
    rewrite val_zeros, val_bits, Z.mul_0_r, Z.add_0_r by (rewrite Z2Nat.id by lia; done). done.
Qed.

(** [d'] has [num] bits ready: the stream is that of [d], with zeros after its end
    if it was too short. *)
Definition refilled (num : Z) (d d' : tinf_data) : Prop :=
  filled d' /\ frame d d' /\ num <= bitcount d' /\
  exists k, stream d' = stream d ++ replicate k false /\
    (k = O /\ overflow d' = overflow d \/ zlen (stream d) < num /\ overflow d' = true).

Lemma refill_loop_spec fuel num d :
  filled d -> num <= 16 -> num - bitcount d < Z.of_nat fuel -> (1 <= fuel)%nat ->
  exists d', refill_loop fuel num d = Ret d' tt /\ refilled num d d'.
Proof.
  revert d. induction fuel as [|fuel IH]; intros d Hi Hn Hf Hf1; cbn [refill_loop]; [lia|].
  destruct (bitcount d <? num) eqn:E; [apply Z.ltb_lt in E|apply Z.ltb_ge in E].
  2:{ exists d. split; [done|]. split; [done|]. split; [done|]. split; [done|]. exists O. rewrite app_nil_r. auto. }
  destruct (source d) as [|b s] eqn:Es.
  - destruct (stream_pad d Hi Es) as [Hi' Hs']. assert (over d = false) as -> by apply Hi.
    destruct (IH _ Hi' Hn) as (d' & E' & Hi2 & Hf2 & Hb2 & k & Hk & Ho); [cbn [set_bits bitcount]; lia|lia|].
    exists d'. split; [done|]. split; [done|]. split; [done|]. split; [done|]. exists (8 + k)%nat.
    rewrite Hk, Hs', replicate_add, app_assoc. split; [done|]. right.
    split; [|destruct Ho as [[_ ->]|[_ ->]]; done].
    destruct Hi as (? & _). unfold stream. rewrite Es, app_nil_r, bits_of_length. lia.
  - destruct (stream_byte d b s Hi ltac:(lia) Es) as [Hi' Hs'].
    destruct (IH _ Hi' Hn) as (d' & E' & Hi2 & Hf2 & Hb2 & k & Hk & Ho); [cbn [set_bits bitcount]; lia|lia|].
    exists d'. split; [done|]. split; [done|]. split; [done|]. split; [done|]. exists k. by rewrite Hs' in *.
Qed.

Lemma bits_of_split n m x : bits_of (n + m) x = bits_of n x ++ bits_of m (x / 2 ^ Z.of_nat n).
Proof.
  revert x. induction n as [|n IH]; intros x; [by rewrite Z.div_1_r|]. cbn [Nat.add bits_of app]. f_equal. rewrite IH.
  f_equal. f_equal. rewrite Nat2Z.inj_succ, Z.pow_succ_r, Z.div_div by lia. done.
Qed.

Lemma val_mod n x : val (bits_of n x) = x mod 2 ^ Z.of_nat n.
Proof.
  revert x. induction n as [|n IH]; intros x; [by rewrite Z.mod_1_r|]. cbn [bits_of]. rewrite val_cons, IH.
  rewrite Nat2Z.inj_succ, Z.pow_succ_r, Z.rem_mul_r, Zmod_odd by lia. unfold Z.b2z. by destruct (Z.odd x).
Qed.

(** A number of [num] bits is taken from the front of the stream [l]. *)
Lemma no_refill_spec num d :
  filled d -> 0 <= num <= bitcount d ->
  exists d', tinf_getbits_no_refill num d = Ret d' (val (take (Z.to_nat num) (stream d))) /\
    filled d' /\ frame d d' /\ stream d' = drop (Z.to_nat num) (stream d) /\ overflow d' = overflow d.
Proof.
  intros (Hb & Ht & Hs & Ho & Hov) Hn. unfold tinf_getbits_no_refill. eexists. split; [f_equal|].
  - rewrite Z.shiftl_1_l. replace (2 ^ num - 1) with (Z.ones num) by (rewrite Z.ones_equiv; lia). rewrite Z.land_ones by lia.
    unfold stream. rewrite take_app_le by (rewrite bits_of_length; lia).
    replace (Z.to_nat (bitcount d)) with (Z.to_nat num + Z.to_nat (bitcount d - num))%nat by lia.
    rewrite bits_of_split, take_app_le, take_ge by (rewrite bits_of_length; lia).
    by rewrite val_mod, Z2Nat.id by lia.
  - unfold filled, frame, stream. cbn [set_bits bitcount tag source overflow dest ltree dtree over].
    rewrite Z.shiftr_div_pow2 by lia. split_and!; try done.
    + lia.
    + apply Z.div_pos; lia.
    + apply Z.div_lt_upper_bound; [lia|]. rewrite <- Z.pow_add_r by lia. replace (num + (bitcount d - num)) with (bitcount d) by lia. lia.
    + rewrite drop_app_le by (rewrite bits_of_length; lia). f_equal.
      replace (Z.to_nat (bitcount d)) with (Z.to_nat num + Z.to_nat (bitcount d - num))%nat by lia.
      rewrite bits_of_split, drop_app_ge, bits_of_length, Nat.sub_diag, Z2Nat.id by (rewrite ?bits_of_length; lia). done.
Qed.

(** ** Reading bits *)

(** What the reader keeps: less than a byte is left over. *)
Definition inv (d : tinf_data) : Prop := filled d /\ bitcount d < 8.


(** [d'] is [d] with the bits [l] consumed. *)
Definition reads (d : tinf_data) (l : list bool) (d' : tinf_data) : Prop :=
  inv d' /\ frame d d' /\ stream d = l ++ stream d' /\ overflow d' = overflow d.

Lemma reads_nil d : inv d -> reads d [] d.
Proof. intros. unfold reads. by split_and!. Qed.
Lemma reads_app d l d1 l' d2 : reads d l d1 -> reads d1 l' d2 -> reads d (l ++ l') d2.
Proof.
  intros (H1 & H2 & H3 & H4) (G1 & G2 & G3 & G4). unfold reads. split_and!; [done|by etrans|by rewrite H3, G3, app_assoc|congruence].
Qed.

(** What any read does: it consumes the bits [l], unless the stream was too short,
    which is never forgotten. *)
Definition takes (d : tinf_data) (l : list bool) (d' : tinf_data) : Prop :=
  inv d' /\ frame d d' /\ (overflow d = true -> overflow d' = true) /\ (overflow d' = false -> stream d = l ++ stream d').

Lemma reads_takes d l d' : reads d l d' -> takes d l d'.
Proof. intros (H1 & H2 & H3 & H4). unfold takes. split_and!; [done|done|congruence|done]. Qed.

Lemma takes_nil d : inv d -> takes d [] d.
Proof. intros. unfold takes. by split_and!. Qed.

Lemma takes_app d l d1 l' d2 : takes d l d1 -> takes d1 l' d2 -> takes d (l ++ l') d2.
Proof.
  intros (H1 & H2 & H3 & H4) (G1 & G2 & G3 & G4). unfold takes. split_and!; [done|by etrans|auto|].
  intros Ho. rewrite H4, G4, app_assoc; [done|done|]. destruct (overflow d1); [|done]. rewrite G3 in Ho; done.
Qed.

Lemma refill_count fuel num d d' :
  refill_loop fuel num d = Ret d' tt -> bitcount d' < Z.max (bitcount d + 1) (num + 8).
Proof.
  revert d. induction fuel as [|fuel IH]; intros d; cbn [refill_loop]; [done|].
  destruct (bitcount d <? num) eqn:E; [|intros [= <-]; lia].
  destruct (source d); [destruct (over d); [done|]|]; intros H; apply IH in H; cbn [set_bits bitcount] in H; lia.
Qed.

Lemma getbits_spec num d :
  inv d -> 0 <= num <= 16 ->
  exists d' k, tinf_getbits num d = Ret d' (val (take (Z.to_nat num) (stream d ++ replicate k false))) /\ inv d' /\ frame d d' /\
    stream d' = drop (Z.to_nat num) (stream d ++ replicate k false) /\
    (k = O /\ num <= zlen (stream d) /\ overflow d' = overflow d \/ zlen (stream d) < num /\ overflow d' = true).
Proof.
  intros [Hi H8] Hn. pose proof Hi as (Hb & _).
  destruct (refill_loop_spec (S (Z.to_nat num)) num d Hi ltac:(lia) ltac:(lia) ltac:(lia)) as (d1 & E1 & Hi1 & Hf1 & Hb1 & k & Hk & Ho).
  destruct (no_refill_spec num d1 Hi1 ltac:(lia)) as (d2 & E2 & Hi2 & Hf2 & Hs2 & Ho2).
  exists d2, k. unfold tinf_getbits, tinf_refill. rewrite (bind_Ret _ _ _ _ _ E1), E2, Hs2, Hk.
  split; [done|]. split; [split; [done|]|split; [by etrans|]; split; [done|]].
  { apply refill_count in E1. injection E2 as <- _. cbn [set_bits bitcount]. lia. }
  destruct Ho as [[-> ?]|[? ?]]; [left|right]; split_and!; try done; [|congruence..].
  assert (Hl : length (stream d) = length (stream d1)) by (rewrite Hk, app_nil_r; done). rewrite Hl. unfold stream.
  rewrite length_app, bits_of_length. lia.
Qed.

(** The bits [l] come first in the stream. *)
Lemma getbits_reads num d l rest :
  inv d -> 0 <= num <= 16 -> stream d = l ++ rest -> zlen l = num ->
  exists d', tinf_getbits num d = Ret d' (val l) /\ reads d l d' /\ stream d' = rest.
Proof.
  intros Hi Hn Es Hl. destruct (getbits_spec num d Hi Hn) as (d' & k & E & Hi' & Hf & Hs & Ho).
  rewrite Es in *. rewrite length_app in Ho. destruct Ho as [(-> & _ & Ho)|[? _]]; [|lia].
  cbn [replicate] in *. rewrite app_nil_r in *. replace (Z.to_nat num) with (length l) in * by lia.
  rewrite take_app_length in E. rewrite drop_app_length in Hs. exists d'. split; [done|]. split; [|done].
  unfold reads. split_and!; [done|done|by rewrite Hs|done].
Qed.

Lemma getbits_any num d :
  inv d -> 0 <= num <= 16 ->
  exists d' v, tinf_getbits num d = Ret d' v /\ takes d (bits_of (Z.to_nat num) v) d' /\ 0 <= v < 2 ^ num.
Proof.
  intros Hi Hn. destruct (getbits_spec num d Hi Hn) as (d' & k & E & Hi' & Hf & Hs & Ho).
  eexists d', _. split; [exact E|]. split.
  - unfold takes. split_and!; [done|done|destruct Ho as [(_ & _ & ->)|[_ ->]]; done|]. intros Hno.
    destruct Ho as [(-> & ? & ?)|[? ?]]; [|congruence]. cbn [replicate] in *. rewrite app_nil_r in *. rewrite Hs.
    replace (Z.to_nat num) with (length (take (Z.to_nat num) (stream d))) at 1 by (rewrite length_take; lia).
    by rewrite bits_val, take_drop.
  - pose proof (val_range (take (Z.to_nat num) (stream d ++ replicate k false))) as Hv.
    rewrite length_take in Hv. assert (2 ^ Z.of_nat (Z.to_nat num `min` length (stream d ++ replicate k false)) <= 2 ^ num)
      by (apply Z.pow_le_mono_r; lia). lia.
Qed.
End InflateBits.
