(* ===== verification/InflateTree.v ===== *)
(** * Huffman trees

    The canonical codes of RFC 1951 for a list of code lengths, the tables that
    [tinf_build_tree] computes for them, and that [tinf_decode_symbol] decodes a
    stream by these codes. *)

From S2P Require Import Prelude Effects Inflate InflateBits.

Module InflateTree.
Import Effects Inflate InflateBits.
Open Scope Z_scope.

(** ** Canonical codes *)

Section codes.
Variable lens : list Z.

(** [bl_count] of the RFC: the number of codes of length [l]. *)
Definition bl_count (l : nat) : Z :=
  match l with
  | O => 0
  | S _ => zlen (filter (fun x => x = Z.of_nat l) lens)
  end.

(** [next_code] of the RFC: the first code of length [l]. *)
Fixpoint next_code (l : nat) : Z :=
  match l with
  | O => 0
  | S l' => 2 * (next_code l' + bl_count l')
  end.

(** The length of the code of a symbol, and its place among those of its length. *)
Definition code_len (s : nat) : nat := Z.to_nat (default 0 (lens !! s)).
Definition rank (s : nat) : Z := zlen (filter (fun x => x = Z.of_nat (code_len s)) (take s lens)).
Definition code (s : nat) : Z := next_code (code_len s) + rank s.

(** The code as it is in the stream: the most significant bit first. *)
Definition codeword (s : nat) : list bool := reverse (bits_of (code_len s) (code s)).

(** The number of codes shorter than [l]: where those of length [l] start in the
    sorted table. *)
Fixpoint offset (l : nat) : Z :=
  match l with
  | O => 0
  | S l' => offset l' + bl_count l'
  end.

Lemma bl_count_pos l : 0 <= bl_count l.
Proof. destruct l; simpl; lia. Qed.
Lemma next_code_pos l : 0 <= next_code l.
Proof. induction l as [|l IH]; simpl; [lia|]. pose proof (bl_count_pos l). lia. Qed.
Lemma offset_pos l : 0 <= offset l.
Proof. induction l as [|l IH]; simpl; [lia|]. pose proof (bl_count_pos l). lia. Qed.

Lemma offset_succ l : offset (S l) = offset l + bl_count l.
Proof. done. Qed.
Lemma offset_mono l l' : (l <= l')%nat -> offset l <= offset l'.
Proof. induction 1 as [|l' _ IH]; [done|]. simpl. pose proof (bl_count_pos l'). lia. Qed.

Lemma next_code_later l j : 2 ^ Z.of_nat (S j) * (next_code l + bl_count l) <= next_code (l + S j).
Proof.
  induction j as [|j IH].
  - rewrite Nat.add_1_r. simpl. lia.
  - rewrite Nat.add_succ_r. cbn [next_code]. pose proof (bl_count_pos (l + S j)).
    rewrite Nat2Z.inj_succ, Z.pow_succ_r by lia. lia.
Qed.

Lemma filter_split s x : lens !! s = Some x ->
  zlen (filter (fun y => y = x) (take s lens)) < zlen (filter (fun y => y = x) lens).
Proof.
  intros H. rewrite <- (take_drop s lens) at 2. rewrite filter_app, length_app, (drop_S _ _ _ H), filter_cons_True by done.
  cbn [length]. lia.
Qed.

Lemma code_len_lookup s : (0 < code_len s)%nat -> lens !! s = Some (Z.of_nat (code_len s)).
Proof. unfold code_len. destruct (lens !! s) as [x|]; simpl; [|lia]. intros. by rewrite Z2Nat.id by lia. Qed.

Lemma rank_range s : (0 < code_len s)%nat -> 0 <= rank s < bl_count (code_len s).
Proof.
  intros H. split; [unfold rank; lia|]. pose proof (filter_split _ _ (code_len_lookup s H)) as Hf.
  unfold rank, bl_count. destruct (code_len s); [lia|]. done.
Qed.
End codes.

(** ** Decoding *)

(** The tables of a tree hold the codes of [lens]. *)
Definition holds (t : tinf_tree) (lens : list Z) : Prop :=
  (forall l, (1 <= l <= 15)%nat -> load (counts t) (Z.of_nat l) = Some (bl_count lens l)) /\
  (forall s, (0 < code_len lens s)%nat -> (code_len lens s <= 15)%nat ->
    load (symbols t) (offset lens (code_len lens s) + rank lens s) = Some (Z.of_nat s)).

Lemma of_option_Ret {A} (o : option A) a d : o = Some a -> of_option o d = Ret d a.
Proof. by intros ->. Qed.

Lemma rev_bits n k : reverse (bits_of (S n) k) = Z.odd (k / 2 ^ Z.of_nat n) :: reverse (bits_of n k).
Proof. replace (S n) with (n + 1)%nat by lia. rewrite bits_of_split, reverse_app. done. Qed.

Lemma half_div k n : k / 2 ^ Z.of_nat (S n) = k / 2 ^ Z.of_nat n / 2.
Proof.
  pose proof (pow2_pos (Z.of_nat n) ltac:(lia)).
  rewrite Nat2Z.inj_succ, Z.pow_succ_r, (Z.mul_comm 2), Z.div_div by lia. done.
Qed.

Lemma val_bit b : val [b] = Z.b2z b.
Proof. unfold val. simpl. lia. Qed.

Lemma symbol_loop_code t lens s fuel n len base x d rest :
  holds t lens -> (0 < code_len lens s <= 15)%nat -> (len + n)%nat = code_len lens s -> (1 <= len)%nat -> (n < fuel)%nat ->
  base = offset lens len ->
  x = code lens s / 2 ^ Z.of_nat (S n) - (next_code lens (len - 1) + bl_count lens (len - 1)) ->
  inv d -> stream d = reverse (bits_of (S n) (code lens s)) ++ rest ->
  exists d', symbol_loop fuel t (Z.of_nat len) base x d = Ret d' (Z.of_nat s) /\
    reads d (reverse (bits_of (S n) (code lens s))) d' /\ stream d' = rest.
Proof.
  intros [Hc Hs] HL. revert fuel len base x d. induction n as [|n IH]; intros fuel len base x d Hlen H1 Hf Hb Hx Hi Hst;
    (destruct fuel as [|fuel]; [lia|]); cbn [symbol_loop]; rewrite rev_bits in Hst |- *; cbn [app] in Hst;
    (match type of Hst with _ = ?b :: ?r => destruct (getbits_reads 1 d [b] r Hi ltac:(lia) Hst ltac:(done)) as (d1 & E1 & Hr1 & Hs1) end);
    rewrite (bind_Ret _ _ _ _ _ E1), val_bit, (bind_Ret _ _ _ _ _ (of_option_Ret _ _ _ (Hc len ltac:(lia))));
    (match goal with |- context [2 * x + Z.b2z (Z.odd ?k)] =>
      assert (Ex : 2 * x + Z.b2z (Z.odd k) = k - next_code lens len) end).
  1, 3: rewrite Hx, half_div;
    match goal with |- context [Z.odd ?k] => pose proof (odd_div k) end; destruct len as [|len]; [lia|];
    cbn [next_code]; replace (S len - 1)%nat with len by lia; lia.
  - rewrite Ex. change (2 ^ Z.of_nat 0) with 1 in *. rewrite Z.div_1_r in *. assert (len = code_len lens s) as -> by lia.
    assert (E : code lens s - next_code lens (code_len lens s) = rank lens s) by (unfold code; lia). rewrite E.
    destruct (rank_range lens s ltac:(lia)). rewrite (proj2 (Z.ltb_lt _ _)) by lia. rewrite Hb.
    rewrite (of_option_Ret _ _ _ (Hs s ltac:(lia) ltac:(lia))). exists d1. done.
  - rewrite Ex. assert (Hge : bl_count lens len <= code lens s / 2 ^ Z.of_nat (S n) - next_code lens len).
    { assert (next_code lens len + bl_count lens len <= code lens s / 2 ^ Z.of_nat (S n)); [|lia].
      apply Z.div_le_lower_bound; [apply pow2_pos; lia|]. pose proof (next_code_later lens len n) as Hn.
      rewrite Hlen in Hn. destruct (rank_range lens s ltac:(lia)). unfold code. lia. }
    rewrite (proj2 (Z.ltb_ge _ _)) by lia. replace (Z.of_nat len + 1) with (Z.of_nat (S len)) by lia.
    destruct (IH fuel (S len) (base + bl_count lens len) (code lens s / 2 ^ Z.of_nat (S n) - next_code lens len - bl_count lens len) d1)
      as (d2 & E2 & Hr2 & Hs2); [lia|lia|lia|by rewrite Hb| |apply Hr1|done|].
    { replace (S len - 1)%nat with len by lia. lia. }
    exists d2. split; [done|]. split; [|done]. change (?b :: ?l) with ([b] ++ l). by eapply reads_app.
Qed.

(** Decoding the code of a symbol. *)
Lemma decode_code t lens s d rest :
  holds t lens -> (0 < code_len lens s <= 15)%nat -> code lens s < 2 ^ Z.of_nat (code_len lens s) ->
  inv d -> stream d = codeword lens s ++ rest ->
  exists d', tinf_decode_symbol t d = Ret d' (Z.of_nat s) /\ reads d (codeword lens s) d' /\ stream d' = rest.
Proof.
  intros Hh HL Hk Hi Hst. unfold codeword in *. destruct (code_len lens s) as [|n] eqn:El; [lia|]. rewrite <- El in *.
  unfold tinf_decode_symbol. change 1 with (Z.of_nat 1). rewrite El in Hst |- *.
  apply (symbol_loop_code t lens s 16 n 1 0 0 d rest); [done|lia|lia|lia|lia|done| |done|done].
  cbn [next_code bl_count Nat.sub]. rewrite <- El, Z.div_small; [done|].
  destruct (rank_range lens s ltac:(lia)). unfold code in *. pose proof (next_code_pos lens (code_len lens s)). lia.
Qed.

(** ** Building the tables *)

Lemma store_load (l : list Z) (n : nat) v :
  (n < length l)%nat -> store l (Z.of_nat n) v = Some (<[n := v]> l) /\ load l (Z.of_nat n) = l !! n.
Proof.
  intros H. unfold store, load. rewrite (proj2 (Z.leb_le _ _)), (proj2 (Z.ltb_lt _ _)), Nat2Z.id by lia. done.
Qed.

(** Code lengths as they occur: at most 288 of them, each at most 15. *)
Definition lens_ok (lens : list Z) : Prop := Forall (fun l => 0 <= l <= 15) lens /\ (length lens <= 288)%nat.

Lemma bl_count_cons x lens l :
  bl_count (x :: lens) l = bl_count lens l + (if decide (x = Z.of_nat l /\ (0 < l)%nat) then 1 else 0).
Proof.
  unfold bl_count. destruct l as [|l]; [case_decide; lia|]. rewrite filter_cons. repeat case_decide; simpl; lia.
Qed.

Lemma offset_cons x lens l :
  offset (x :: lens) l = offset lens l + (if decide (0 < x < Z.of_nat l) then 1 else 0).
Proof.
  induction l as [|l IH]; simpl; [case_decide; lia|]. rewrite IH, bl_count_cons. repeat case_decide; lia.
Qed.

Lemma offset_bound lens l : offset lens l <= zlen lens.
Proof.
  induction lens as [|x lens IH].
  - induction l as [|l IHl]; [done|]. simpl in *. assert (bl_count [] l = 0) by by destruct l. lia.
  - rewrite offset_cons. cbn [length]. case_decide; lia.
Qed.

Lemma bl_count_bound lens l : bl_count lens l <= zlen lens.
Proof. pose proof (offset_bound lens (S l)). pose proof (offset_pos lens l). simpl in *. lia. Qed.

Lemma bl_count_app pre rest l : bl_count (pre ++ rest) l = bl_count pre l + bl_count rest l.
Proof. unfold bl_count. destruct l; [done|]. rewrite filter_app, length_app. lia. Qed.

(** One more code of length [l] in a table of counts, each added to [f]. *)
Lemma bump (f : nat -> Z) pre l :
  0 < l <= 15 -> 0 <= f (Z.to_nat l) + bl_count pre (Z.to_nat l) < 1000 ->
  <[Z.to_nat l := u16 (f (Z.to_nat l) + bl_count pre (Z.to_nat l) + 1)]> ((fun i => f i + bl_count pre i) <$> seq 0 16) =
  (fun i => f i + bl_count (pre ++ [l]) i) <$> seq 0 16.
Proof.
  intros Hl Hp. apply list_eq. intros i. rewrite list_lookup_fmap. destruct (decide (i < 16)%nat) as [Hi|Hi].
  - rewrite lookup_seq_lt by lia. cbn [fmap option_fmap option_map]. rewrite Nat.add_0_l, bl_count_app, bl_count_cons.
    assert (E0 : bl_count [] i = 0) by by destruct i. rewrite E0. destruct (decide (i = Z.to_nat l)) as [->|Hne].
    + rewrite list_lookup_insert_eq by by rewrite length_fmap, length_seq; lia.
      rewrite decide_True by lia. rewrite wrap_small by (unfold in_u; lia). f_equal. lia.
    + rewrite list_lookup_insert_ne by done. rewrite decide_False by lia. rewrite list_lookup_fmap, lookup_seq_lt by lia.
      simpl. f_equal. lia.
  - rewrite lookup_ge_None_2 by (rewrite length_insert, length_fmap, length_seq; lia).
    by rewrite lookup_ge_None_2 by (rewrite length_seq; lia).
Qed.

Lemma count_step pre l :
  0 < l <= 15 -> (length pre < 288)%nat ->
  <[Z.to_nat l := u16 (bl_count pre (Z.to_nat l) + 1)]> (bl_count pre <$> seq 0 16) = bl_count (pre ++ [l]) <$> seq 0 16.
Proof.
  intros Hl Hp. pose proof (bl_count_bound pre (Z.to_nat l)). pose proof (bl_count_pos pre (Z.to_nat l)).
  exact (bump (fun _ => 0) pre l Hl ltac:(lia)).
Qed.

Lemma table_get (f : nat -> Z) l :
  0 <= l <= 15 -> load (f <$> seq 0 16) l = Some (f (Z.to_nat l)).
Proof.
  intros Hl. unfold load. rewrite (proj2 (Z.leb_le _ _)), list_lookup_fmap, lookup_seq_lt by lia. done.
Qed.
Lemma table_set (f : nat -> Z) l v : 0 <= l <= 15 -> store (f <$> seq 0 16) l v = Some (<[Z.to_nat l := v]> (f <$> seq 0 16)).
Proof.
  intros Hl. unfold store. rewrite (proj2 (Z.leb_le _ _)), (proj2 (Z.ltb_lt _ _)) by (rewrite ?length_fmap, ?length_seq; lia). done.
Qed.

(** The counting loop. *)
Lemma count_loop_spec rest pre mx :
  Forall (fun l => 0 <= l <= 15) rest -> (length (pre ++ rest) <= 288)%nat -> -1 <= mx < zlen pre ->
  exists mx', count_loop rest (zlen pre) (bl_count pre <$> seq 0 16) mx = Some (bl_count (pre ++ rest) <$> seq 0 16, mx') /\
    -1 <= mx' < zlen (pre ++ rest) /\ (mx' = mx /\ Forall (fun l => l = 0) rest \/
      exists l, (pre ++ rest) !! Z.to_nat mx' = Some l /\ 0 < l /\ 0 <= mx' /\ Forall (fun l => l = 0) (drop (S (Z.to_nat mx')) (pre ++ rest))).
Proof.
  intros Hr. revert pre mx. induction Hr as [|l rest Hl _ IH]; intros pre mx Hlen Hmx; cbn [count_loop].
  { exists mx. rewrite app_nil_r. split; [done|]. split; [done|]. left. by split. }
  assert (E : pre ++ l :: rest = (pre ++ [l]) ++ rest) by by rewrite <- app_assoc.
  assert (Ez : zlen (pre ++ [l]) = zlen pre + 1) by (rewrite length_app; simpl; lia).
  rewrite E in *. destruct (l =? 0) eqn:E0; [apply Z.eqb_eq in E0 as ->|apply Z.eqb_neq in E0].
  - destruct (IH (pre ++ [0]) mx Hlen ltac:(lia)) as (mx' & Ec & Hb & Ho). exists mx'. rewrite <- Ez.
    assert (Eb : bl_count pre <$> seq 0 16 = bl_count (pre ++ [0]) <$> seq 0 16).
    { apply list_fmap_ext. intros i l' _. rewrite bl_count_app. destruct l' as [|l']; [done|].
      unfold bl_count at 3. rewrite filter_cons_False by lia. simpl. lia. }
    rewrite Eb, Ec. split; [done|]. split; [done|]. destruct Ho as [[-> Hf]|Ho]; [left|by right]. split; [done|]. by constructor.
  - assert (Hn : (Z.to_nat l < 16)%nat) by lia.
    rewrite table_get by lia. cbn [mbind option_bind]. rewrite table_set by lia. cbn [mbind option_bind].
    destruct (IH (pre ++ [l]) (zlen pre) Hlen ltac:(lia)) as (mx' & Ec & Hb & Ho). exists mx'. rewrite <- Ez.
    assert (Eb : <[Z.to_nat l := u16 (bl_count pre (Z.to_nat l) + 1)]> (bl_count pre <$> seq 0 16) = bl_count (pre ++ [l]) <$> seq 0 16).
    { apply count_step; [lia|]. rewrite !length_app in Hlen. simpl in Hlen. lia. }
    rewrite Eb, Ec. split; [done|]. split; [done|]. right. destruct Ho as [[-> Hf]|Ho]; [|done].
    exists l. rewrite Nat2Z.id. split_and!; [|lia|lia|].
    + rewrite lookup_app_l by (rewrite length_app; simpl; lia). apply list_lookup_middle. done.
    + rewrite <- app_assoc. cbn [app]. rewrite drop_app_ge by lia. replace (S (length pre) - length pre)%nat with 1%nat by lia. done.
Qed.

(** There are enough codes of length [l], and of all lengths. *)
Definition enough (lens : list Z) (l : nat) : bool := next_code lens l + bl_count lens l <=? 2 ^ Z.of_nat l.
Definition kraft (lens : list Z) : bool := forallb (enough lens) (seq 0 16).

Lemma next_code_bound lens l : enough lens l = true -> next_code lens (S l) <= 2 ^ Z.of_nat (S l).
Proof. unfold enough. intros H. cbn [next_code]. rewrite Nat2Z.inj_succ, Z.pow_succ_r by lia. lia. Qed.

(** The offset table: the number of free codes of length [j] is [2 ^ j - next_code j]. *)
Lemma offs_loop_spec lens n j :
  (length lens <= 288)%nat -> (j + n <= 16)%nat -> next_code lens j <= 2 ^ Z.of_nat j ->
  offs_loop (bl_count lens <$> seq j n) (2 ^ Z.of_nat j - next_code lens j) (offset lens j) =
  if forallb (enough lens) (seq j n)
  then Some (offset lens <$> seq j n, 2 ^ Z.of_nat (j + n) - next_code lens (j + n), offset lens (j + n))
  else None.
Proof.
  intros Hlen. revert j. induction n as [|n IH]; intros j Hj Hnc; [by rewrite Nat.add_0_r|].
  cbn [seq fmap list_fmap offs_loop forallb]. unfold enough at 1.
  pose proof (next_code_pos lens j). pose proof (bl_count_pos lens j). pose proof (offset_pos lens j).
  pose proof (offset_bound lens (S j)). cbn [offset] in *.
  assert (2 ^ Z.of_nat j <= 2 ^ 15) by (apply Z.pow_le_mono_r; lia).
  destruct (2 ^ Z.of_nat j - next_code lens j <? bl_count lens j) eqn:E.
  - rewrite (proj2 (Z.leb_gt _ _)) by lia. done.
  - rewrite (proj2 (Z.leb_le _ _)) by lia. cbn [andb].
    rewrite (wrap_small 32 (2 ^ Z.of_nat j - next_code lens j - bl_count lens j)) by (unfold in_u; lia).
    rewrite (wrap_small 32 (2 * _)) by (unfold in_u; lia). rewrite (wrap_small 32 (offset lens j + _)) by (unfold in_u; lia).
    rewrite (wrap_small 16 (offset lens j)) by (unfold in_u; lia).
    replace (2 * (2 ^ Z.of_nat j - next_code lens j - bl_count lens j)) with (2 ^ Z.of_nat (S j) - next_code lens (S j))
      by (cbn [next_code]; rewrite Nat2Z.inj_succ, Z.pow_succ_r by lia; lia).
    change (offset lens j + bl_count lens j) with (offset lens (S j)).
    rewrite IH by (lia || (apply next_code_bound; unfold enough; lia)).
    destruct (forallb _ _); [|done]. cbn [mbind option_bind]. by rewrite Nat.add_succ_r.
Qed.

(** ** The distribution sort *)

Lemma rank_prefix pre l rest : rank (pre ++ l :: rest) (length pre) = zlen (filter (fun x => x = Z.of_nat (Z.to_nat l)) pre).
Proof. unfold rank, code_len. rewrite list_lookup_middle, take_app_length by done. done. Qed.

Definition placed (lens : list Z) (syms : list Z) (s : nat) : Prop :=
  syms !! Z.to_nat (offset lens (code_len lens s) + rank lens s) = Some (Z.of_nat s).

(** Two symbols have different places. *)
Lemma place_inj lens s s' :
  (s < s')%nat -> (0 < code_len lens s)%nat -> (0 < code_len lens s')%nat ->
  offset lens (code_len lens s) + rank lens s <> offset lens (code_len lens s') + rank lens s'.
Proof.
  intros Hs H H'. destruct (rank_range lens s H) as [R1 R2], (rank_range lens s' H') as [R3 R4].
  destruct (lt_eq_lt_dec (code_len lens s) (code_len lens s')) as [[Hlt|He]|Hgt].
  - pose proof (offset_mono lens (S (code_len lens s)) (code_len lens s') ltac:(lia)) as Hm. simpl in Hm. lia.
  - rewrite <- He. assert (rank lens s < rank lens s'); [|lia]. unfold rank. rewrite <- He.
    pose proof (filter_split (take s' lens) s (Z.of_nat (code_len lens s))) as Hf.
    rewrite lookup_take_lt, take_take, Nat.min_l in Hf by lia. apply Hf. by apply code_len_lookup.
  - pose proof (offset_mono lens (S (code_len lens s')) (code_len lens s) ltac:(lia)) as Hm. simpl in Hm. lia.
Qed.

Lemma place_range lens s : (0 < code_len lens s)%nat -> 0 <= offset lens (code_len lens s) + rank lens s < zlen lens.
Proof.
  intros H. destruct (rank_range lens s H). pose proof (offset_pos lens (code_len lens s)).
  pose proof (offset_bound lens (S (code_len lens s))) as Hb. simpl in Hb. lia.
Qed.

Lemma code_len_middle pre l rest : code_len (pre ++ l :: rest) (length pre) = Z.to_nat l.
Proof. unfold code_len. by rewrite list_lookup_middle. Qed.

Lemma sort_loop_spec lens rest pre syms :
  lens = pre ++ rest -> lens_ok lens -> length syms = 288%nat ->
  (forall s, (s < length pre)%nat -> (0 < code_len lens s)%nat -> placed lens syms s) ->
  exists syms', sort_loop rest (zlen pre) ((fun i => offset lens i + bl_count pre i) <$> seq 0 16) syms = Some syms' /\
    length syms' = 288%nat /\ (Forall (fun x => 0 <= x < 2 ^ 16) syms -> Forall (fun x => 0 <= x < 2 ^ 16) syms') /\
    forall s, (0 < code_len lens s)%nat -> placed lens syms' s.
Proof.
  intros E [Hok Hlen]. revert pre syms E. induction rest as [|l rest IH]; intros pre syms E Hsy Hpl; cbn [sort_loop].
  { exists syms. rewrite app_nil_r in E. subst pre. split_and!; [done|done|done|]. intros s Hs. apply Hpl; [|done].
    apply code_len_lookup, lookup_lt_Some in Hs. done. }
  assert (E' : lens = (pre ++ [l]) ++ rest) by by rewrite E, <- app_assoc.
  assert (Ez : zlen (pre ++ [l]) = zlen pre + 1) by (rewrite length_app; simpl; lia).
  assert (Hl : 0 <= l <= 15) by (rewrite E in Hok; apply Forall_app in Hok as [_ Hok]; apply Forall_cons in Hok as [? _]; done).
  assert (Hcl : code_len lens (length pre) = Z.to_nat l) by (rewrite E; apply code_len_middle).
  rewrite <- Ez. destruct (l =? 0) eqn:E0; [apply Z.eqb_eq in E0 as ->|apply Z.eqb_neq in E0].
  - destruct (IH (pre ++ [0]) syms E' Hsy) as (syms' & Es & Hr).
    { intros s Hs Hc. apply Hpl; [|done]. rewrite length_app in Hs. simpl in Hs.
      destruct (decide (s = length pre)) as [->|]; [rewrite Hcl in Hc; simpl in Hc|]; lia. }
    exists syms'. split; [|done]. rewrite <- Es. f_equal. apply list_fmap_ext. intros i l' _. rewrite bl_count_app, bl_count_cons.
    assert (bl_count [] l' = 0) as -> by by destruct l'. rewrite decide_False by lia. lia.
  - rewrite table_get by lia. cbn [mbind option_bind].
    assert (Hpos : offset lens (Z.to_nat l) + bl_count pre (Z.to_nat l) = offset lens (code_len lens (length pre)) + rank lens (length pre)).
    { rewrite Hcl. f_equal. rewrite E, rank_prefix. unfold bl_count. destruct (Z.to_nat l) eqn:En; [lia|]. done. }
    destruct (place_range lens (length pre)) as [P1 P2]; [lia|]. rewrite Hpos.
    set (p := offset lens (code_len lens (length pre)) + rank lens (length pre)) in *.
    assert (Est : store syms p (zlen pre) = Some (<[Z.to_nat p := zlen pre]> syms))
      by (unfold store; rewrite (proj2 (Z.leb_le _ _)), (proj2 (Z.ltb_lt _ _)) by lia; done).
    rewrite Est. cbn [mbind option_bind]. rewrite table_set by lia. cbn [mbind option_bind]. rewrite <- Hpos, (bump (offset lens) pre l) by lia.
    destruct (IH (pre ++ [l]) (<[Z.to_nat p := zlen pre]> syms) E') as (syms' & Es & H1 & H2 & H3).
    { by rewrite length_insert. }
    { intros s Hs Hc. rewrite length_app in Hs. simpl in Hs. unfold placed. destruct (decide (s = length pre)) as [->|].
      - fold p. rewrite list_lookup_insert_eq by lia. done.
      - rewrite list_lookup_insert_ne; [apply Hpl; [lia|done]|]. pose proof (place_inj lens s (length pre) ltac:(lia) Hc ltac:(lia)) as Hne.
        pose proof (place_range lens s Hc). fold p in Hne. lia. }
    exists syms'. rewrite Hpos. split; [done|]. split; [done|]. split; [|done]. intros HF. apply H2, Forall_insert; [done|].
    rewrite E, length_app in Hlen. lia.
Qed.

(** ** Complete trees *)

(** The symbol table as an array of [unsigned short]. *)
Definition typed (t : tinf_tree) : Prop := length (symbols t) = 288%nat /\ Forall (fun x => 0 <= x < 2 ^ 16) (symbols t).

(** All codes are used. *)
Definition complete (lens : list Z) : Prop := kraft lens = true /\ next_code lens 16 = 2 ^ 16.

(** A tree for decoding by the codes of [lens]. *)
Definition decodes (t : tinf_tree) (lens : list Z) : Prop := typed t /\ lens_ok lens /\ holds t lens /\ complete lens.

Lemma kraft_enough lens l : kraft lens = true -> (l <= 15)%nat -> enough lens l = true.
Proof. unfold kraft. intros H Hl. apply (proj1 (forallb_forall _ _) H). apply in_seq. lia. Qed.

Lemma load_typed t i : typed t -> 0 <= i < 288 -> exists v, load (symbols t) i = Some v /\ 0 <= v < 2 ^ 16.
Proof.
  intros [Hl HF] Hi. destruct (lookup_lt_is_Some_2 (symbols t) (Z.to_nat i)) as [v Hv]; [lia|]. exists v.
  unfold load. rewrite (proj2 (Z.leb_le _ _)) by lia. split; [done|]. exact (Forall_lookup_1 _ _ _ _ HF Hv).
Qed.

(** The [k]-th symbol with a code of length [l]. *)
Lemma filter_nth (L : list Z) x k :
  0 <= k < zlen (filter (fun y => y = x) L) ->
  exists s, L !! s = Some x /\ zlen (filter (fun y => y = x) (take s L)) = k.
Proof.
  revert k. induction L as [|y L IH]; intros k Hk; [simpl in Hk; lia|]. rewrite filter_cons in Hk.
  destruct (decide (k = 0 /\ y = x)) as [[-> ->]|Hne]; [by exists O|]. case_decide as Hy.
  - subst y. cbn [length] in Hk. destruct (IH (k - 1)) as (s & H1 & H2); [lia|]. exists (S s). split; [done|].
    cbn [take]. rewrite filter_cons, decide_True by done. cbn [length]. lia.
  - destruct (IH k Hk) as (s & H1 & H2). exists (S s). split; [done|]. cbn [take]. rewrite filter_cons, decide_False by done. done.
Qed.

Lemma rank_inv lens l k : 0 <= k < bl_count lens l -> exists s, code_len lens s = l /\ rank lens s = k.
Proof.
  unfold bl_count. destruct l as [|l]; [lia|]. intros Hk. destruct (filter_nth _ _ _ Hk) as (s & H1 & H2). exists s.
  assert (E : code_len lens s = S l) by (unfold code_len; rewrite H1; simpl; lia). split; [done|]. unfold rank. by rewrite E.
Qed.

(** The codes of length [len] follow the first [first len] prefixes of that length. *)
Definition first (lens : list Z) (len : nat) : Z := next_code lens len + bl_count lens len.

(** Any stream decodes to a symbol, even if it is too short.  The bits read before
    are the number [c] of [len] bits. *)
Lemma symbol_loop_any t lens fuel len c d :
  decodes t lens -> (len <= 15)%nat -> (15 - len < fuel)%nat -> inv d ->
  first lens len <= c < 2 ^ Z.of_nat len ->
  exists d' s l, symbol_loop fuel t (Z.of_nat (S len)) (offset lens (S len)) (c - first lens len) d = Ret d' (Z.of_nat s) /\
    (0 < code_len lens s)%nat /\ takes d l d' /\ reverse (bits_of len c) ++ l = codeword lens s.
Proof.
  intros (Hty & [Hok Hlen] & [Hc Hh] & Hk & Hall). revert len c d. induction fuel as [|fuel IH]; intros len c d Hl Hf Hi Hb; [lia|].
  assert (Hn : next_code lens (S len) = 2 * first lens len) by done.
  assert (Hn' : first lens (S len) = next_code lens (S len) + bl_count lens (S len)) by done.
  destruct (decide (len = 15%nat)) as [->|]; [rewrite Hall in Hn; change (2 ^ Z.of_nat 15) with 32768 in Hb; change (2 ^ 16) with 65536 in Hn; lia|].
  cbn [symbol_loop]. destruct (getbits_any 1 d Hi ltac:(lia)) as (d1 & v & E1 & Ht1 & Hv). rewrite (bind_Ret _ _ _ _ _ E1).
  rewrite (bind_Ret _ _ _ _ _ (of_option_Ret _ _ _ (Hc (S len) ltac:(lia)))). change (2 ^ 1) with 2 in Hv. change (Z.to_nat 1) with 1%nat in Ht1.
  assert (Ev : bits_of 1 v = [Z.odd v]) by done. assert (Ev2 : v = Z.b2z (Z.odd v)) by (assert (v = 0 \/ v = 1) as [->| ->] by lia; done).
  assert (Er : reverse (bits_of (S len) (2 * c + v)) = reverse (bits_of len c) ++ bits_of 1 v).
  { rewrite Ev. rewrite Ev2 at 1. rewrite Z.add_comm, bits_val_cons, reverse_cons. done. }
  destruct (2 * (c - first lens len) + v <? bl_count lens (S len)) eqn:E; [apply Z.ltb_lt in E|apply Z.ltb_ge in E].
  - destruct (rank_inv lens (S len) (2 * (c - first lens len) + v) ltac:(lia)) as (s & Es & Hr). specialize (Hh s ltac:(lia) ltac:(lia)).
    rewrite Es, Hr in Hh. rewrite (of_option_Ret _ _ _ Hh). exists d1, s, (bits_of 1 v). split; [done|]. split; [lia|]. split; [done|].
    unfold codeword, code. rewrite Es, Hr, Hn, <- Er. f_equal. f_equal. lia.
  - replace (Z.of_nat (S len) + 1) with (Z.of_nat (S (S len))) by lia.
    change (offset lens (S len) + bl_count lens (S len)) with (offset lens (S (S len))).
    replace (2 * (c - first lens len) + v - bl_count lens (S len)) with (2 * c + v - first lens (S len)) by lia.
    destruct (IH (S len) (2 * c + v) d1) as (d2 & s & l & E2 & Hs & Ht2 & El); [lia|lia|apply Ht1| |].
    { rewrite Nat2Z.inj_succ, Z.pow_succ_r by lia. lia. }
    exists d2, s, (bits_of 1 v ++ l). split; [done|]. split; [done|]. split; [by eapply takes_app|]. by rewrite app_assoc, <- Er.
Qed.

Lemma decode_any t lens d :
  decodes t lens -> inv d ->
  exists d' s, tinf_decode_symbol t d = Ret d' (Z.of_nat s) /\ (0 < code_len lens s)%nat /\ takes d (codeword lens s) d'.
Proof.
  intros Hd Hi. destruct (symbol_loop_any t lens 16 0 0 d Hd) as (d' & s & l & E & Hs & Ht & El); [lia|lia|done|done|].
  exists d', s. cbn [bits_of reverse app] in El. rewrite <- El. done.
Qed.

(** Decoding a code. *)
Lemma code_bound lens s : complete lens -> (0 < code_len lens s <= 15)%nat -> code lens s < 2 ^ Z.of_nat (code_len lens s).
Proof.
  intros [Hk _] Hs. pose proof (kraft_enough lens (code_len lens s) Hk ltac:(lia)) as He. unfold enough in He.
  destruct (rank_range lens s ltac:(lia)). unfold code. lia.
Qed.

Lemma lens_code_len lens s : lens_ok lens -> (code_len lens s <= 15)%nat.
Proof.
  intros [Hok _]. unfold code_len. destruct (lens !! s) as [x|] eqn:E; simpl; [|lia]. eapply Forall_lookup_1 in Hok; [|done]. simpl in Hok. lia.
Qed.

Lemma decode_symbol_code t lens s d rest :
  decodes t lens -> (0 < code_len lens s)%nat -> inv d -> stream d = codeword lens s ++ rest ->
  exists d', tinf_decode_symbol t d = Ret d' (Z.of_nat s) /\ reads d (codeword lens s) d' /\ stream d' = rest.
Proof.
  intros (_ & Hok & Hh & Hc) Hs Hi Hst. pose proof (lens_code_len lens s Hok).
  apply decode_code; [done|lia|by apply code_bound|done|done].
Qed.
End InflateTree.
