(* ===== verification/InflateBuild.v ===== *)
(** * Building decoding tables

    [tinf_build_tree] accepts the code lengths of a complete code, of a single code
    of length one, and of no code, and builds the tables for them;
    [tinf_build_fixed_trees] builds those of the fixed codes. *)

From S2P Require Import Prelude Effects Inflate InflateBits InflateTree.

Module InflateBuild.
Import Effects Inflate InflateBits InflateTree.
Open Scope Z_scope.

(** The number of codes. *)
Definition codes (lens : list Z) : Z := offset lens 16.

(** The lengths [tinf_build_tree] accepts. *)
Definition accepted (lens : list Z) : Prop :=
  kraft lens = true /\ (1 < codes lens -> next_code lens 16 = 2 ^ 16) /\ (codes lens = 1 -> bl_count lens 1 = 1).

(** With a single code, a symbol that is too large gets the other code of length one. *)
Definition extended (lens : list Z) (mx : Z) : list Z :=
  if codes lens =? 1 then take (S (Z.to_nat mx)) lens ++ [1] else lens.

(** [mx] is the last symbol with a code, -1 if there is none. *)
Definition last_code (lens : list Z) (mx : Z) : Prop :=
  mx = -1 /\ Forall (fun l => l = 0) lens \/
  exists l, lens !! Z.to_nat mx = Some l /\ 0 < l /\ 0 <= mx < zlen lens /\ Forall (fun l => l = 0) (drop (S (Z.to_nat mx)) lens).

Lemma zeros_count lens l : Forall (fun l => l = 0) lens -> bl_count lens l = 0.
Proof.
  intros H. induction H as [|x lens -> _ IH]; [by destruct l|]. rewrite bl_count_cons, IH. rewrite decide_False by lia. lia.
Qed.

Lemma last_code_le lens mx s : last_code lens mx -> (0 < code_len lens s)%nat -> Z.of_nat s <= mx.
Proof.
  intros Hl Hs. apply code_len_lookup in Hs as E. destruct (Z.le_gt_cases (Z.of_nat s) mx) as [|Hgt]; [done|]. exfalso.
  destruct Hl as [[-> HF]|(l & _ & _ & Hmx & HF)].
  - eapply Forall_lookup_1 in HF; [|exact E]. simpl in HF. lia.
  - assert (Hd : drop (S (Z.to_nat mx)) lens !! (s - S (Z.to_nat mx))%nat = Some (Z.of_nat (code_len lens s))).
    { rewrite lookup_drop. by replace (S (Z.to_nat mx) + (s - S (Z.to_nat mx)))%nat with s by lia. }
    eapply Forall_lookup_1 in HF; [|exact Hd]. simpl in HF. lia.
Qed.

(** ** A single code *)

Section single.
Variables (lens : list Z) (mx : Z).
Hypothesis Hcodes : codes lens = 1.
Hypothesis Hone : bl_count lens 1 = 1.
Hypothesis Hlast : last_code lens mx.

Definition lens' : list Z := take (S (Z.to_nat mx)) lens ++ [1].

Lemma other_counts l : (2 <= l <= 15)%nat -> bl_count lens l = 0.
Proof.
  intros Hl. pose proof (bl_count_pos lens l).
  assert (Ho2 : offset lens 2 = 1) by (cbn [offset]; rewrite Hone; done).
  pose proof (offset_mono lens 2 l ltac:(lia)) as H1. assert (H2 : offset lens (S l) <= codes lens) by (apply offset_mono; lia).
  rewrite offset_succ in H2. lia.
Qed.

Lemma count_take l : bl_count (take (S (Z.to_nat mx)) lens) l = bl_count lens l.
Proof.
  rewrite <- (take_drop (S (Z.to_nat mx)) lens) at 2. rewrite bl_count_app.
  destruct Hlast as [[-> HF]|(x & _ & _ & _ & HF)].
  - rewrite (zeros_count (drop _ _)); [lia|]. by apply Forall_drop.
  - rewrite (zeros_count (drop _ _)) by done. lia.
Qed.

Lemma count_lens' l : bl_count lens' l = bl_count lens l + (if decide (l = 1%nat) then 1 else 0).
Proof.
  unfold lens'. rewrite bl_count_app, count_take, bl_count_cons. assert (bl_count [] l = 0) as -> by by destruct l.
  repeat case_decide; lia.
Qed.

Lemma next_lens' l : (2 <= l <= 16)%nat -> next_code lens' l = 2 ^ Z.of_nat l.
Proof.
  intros Hl. induction l as [|l IH]; [lia|]. destruct (decide (l = 1%nat)) as [->|Hne].
  - cbn [next_code]. rewrite !count_lens', Hone. done.
  - cbn [next_code]. rewrite IH, count_lens', other_counts, decide_False by lia.
    rewrite (Nat2Z.inj_succ l), Z.pow_succ_r by lia. lia.
Qed.

Lemma complete_lens' : complete lens'.
Proof.
  split; [|by apply next_lens'; lia]. unfold kraft. apply forallb_forall. intros l Hl%in_seq. unfold enough. apply Z.leb_le.
  destruct (decide (l < 2)%nat).
  - destruct l as [|[|l]]; [done| |lia]. cbn [next_code]. rewrite !count_lens', Hone. done.
  - rewrite next_lens', count_lens', other_counts, decide_False by lia. lia.
Qed.

Hypothesis Hok : lens_ok lens.

Lemma place_codes s : (0 < code_len lens s)%nat -> offset lens (code_len lens s) + rank lens s < codes lens.
Proof.
  intros Hs. destruct (rank_range lens s Hs). pose proof (lens_code_len lens s Hok).
  pose proof (offset_mono lens (S (code_len lens s)) 16 ltac:(lia)) as Hm.
  change (offset lens (S (code_len lens s))) with (offset lens (code_len lens s) + bl_count lens (code_len lens s)) in Hm.
  unfold codes. lia.
Qed.

(** The symbol with the code. *)
Lemma single_symbol : 0 <= mx < zlen lens /\ code_len lens (Z.to_nat mx) = 1%nat /\ rank lens (Z.to_nat mx) = 0.
Proof.
  destruct Hlast as [[-> HF]|(l & El & Hl & Hmx & _)].
  { rewrite (zeros_count lens 1 HF) in Hone. lia. }
  assert (Hc : code_len lens (Z.to_nat mx) = Z.to_nat l) by (unfold code_len; rewrite El; done).
  assert (Hpos : (0 < code_len lens (Z.to_nat mx))%nat) by lia.
  destruct (rank_range lens (Z.to_nat mx) Hpos) as [R1 R2]. pose proof (lens_code_len lens (Z.to_nat mx) Hok) as Hle.
  pose proof (place_codes (Z.to_nat mx) Hpos) as Hp. pose proof (offset_pos lens (code_len lens (Z.to_nat mx))).
  split; [done|]. split; [|lia]. destruct (decide (code_len lens (Z.to_nat mx) = 1%nat)) as [|Hne]; [done|].
  rewrite other_counts in R2 by lia. lia.
Qed.

Lemma single_only s : (0 < code_len lens s)%nat -> s = Z.to_nat mx.
Proof.
  intros Hs. pose proof (last_code_le lens mx s Hlast Hs). destruct single_symbol as (Hmx & Hc & Hr).
  destruct (decide (s = Z.to_nat mx)) as [|Hne]; [done|]. exfalso.
  apply (place_inj lens s (Z.to_nat mx)); [lia|done|lia|]. pose proof (place_codes s Hs). pose proof (place_codes (Z.to_nat mx) ltac:(lia)).
  pose proof (place_range lens s Hs). pose proof (place_range lens (Z.to_nat mx) ltac:(lia)). lia.
Qed.

Lemma lookup_lens' s : (s <= Z.to_nat mx)%nat -> lens' !! s = lens !! s /\ take s lens' = take s lens.
Proof.
  intros Hs. destruct single_symbol as (Hmx & _). unfold lens'.
  rewrite lookup_app_l, lookup_take_lt, take_app_le, take_take, Nat.min_l by (rewrite ?length_take; lia). done.
Qed.

Lemma codeword_lens' s : (s <= Z.to_nat mx)%nat -> code_len lens' s = code_len lens s /\ rank lens' s = rank lens s.
Proof.
  intros Hs. destruct (lookup_lens' s Hs) as [E1 E2]. assert (E : code_len lens' s = code_len lens s) by (unfold code_len; by rewrite E1).
  split; [done|]. unfold rank. by rewrite E, E2.
Qed.

Lemma last_lens' : code_len lens' (S (Z.to_nat mx)) = 1%nat /\ rank lens' (S (Z.to_nat mx)) = 1.
Proof.
  destruct single_symbol as (Hmx & _). unfold lens'.
  assert (El : length (take (S (Z.to_nat mx)) lens) = S (Z.to_nat mx)) by (rewrite length_take; lia).
  rewrite <- El at 2 4. rewrite code_len_middle, rank_prefix. split; [done|].
  pose proof (count_take 1) as Hc. rewrite Hone in Hc. unfold bl_count in Hc. exact Hc.
Qed.

(** The tables with the second code. *)
Lemma single_holds syms :
  length syms = 288%nat -> (forall s, (0 < code_len lens s)%nat -> placed lens syms s) ->
  holds (MkTree (<[1%nat := 2]> (bl_count lens <$> seq 0 16)) (<[1%nat := mx + 1]> syms) mx) lens'.
Proof.
  intros Hl Hpl. destruct single_symbol as (Hmx & Hc & Hr). split.
  - intros l Hl15. cbn [counts]. rewrite count_lens'. unfold load. rewrite (proj2 (Z.leb_le _ _)), Nat2Z.id by lia.
    destruct (decide (l = 1%nat)) as [->|Hne].
    + rewrite list_lookup_insert_eq by (rewrite length_fmap, length_seq; lia). by rewrite Hone.
    + rewrite list_lookup_insert_ne, list_lookup_fmap, lookup_seq_lt by lia. simpl. f_equal. lia.
  - intros s Hs _. cbn [symbols]. assert (Ho : offset lens' 1 = 0) by done.
    destruct (decide (s <= Z.to_nat mx)%nat) as [Hle|Hgt].
    + destruct (codeword_lens' s Hle) as [E1 E2]. rewrite E1 in *. pose proof (single_only s Hs) as ->.
      rewrite Hc, E2, Hr, Ho. specialize (Hpl (Z.to_nat mx) Hs). unfold placed in Hpl. rewrite Hc, Hr in Hpl.
      unfold load. change (Z.to_nat (0 + 0)) with O. rewrite (proj2 (Z.leb_le _ _)), list_lookup_insert_ne by lia. exact Hpl.
    + assert (s = S (Z.to_nat mx)) as ->.
      { apply code_len_lookup, lookup_lt_Some in Hs. unfold lens' in Hs. rewrite length_app, length_take in Hs. cbn [length] in Hs. lia. }
      destruct last_lens' as [E1 E2]. rewrite E1, E2, Ho. unfold load. change (Z.to_nat (0 + 1)) with 1%nat.
      rewrite (proj2 (Z.leb_le _ _)), list_lookup_insert_eq by lia. f_equal. lia.
Qed.
End single.

(** ** All trees *)

Lemma table_holds lens syms mx :
  (forall s, (0 < code_len lens s)%nat -> placed lens syms s) -> holds (MkTree (bl_count lens <$> seq 0 16) syms mx) lens.
Proof.
  intros Hpl. split.
  - intros l Hl. cbn [counts]. rewrite table_get by lia. by rewrite Nat2Z.id.
  - intros s Hs _. cbn [symbols]. unfold load. pose proof (place_range lens s Hs). rewrite (proj2 (Z.leb_le _ _)) by lia. by apply Hpl.
Qed.

(** The symbols of a single code. *)
Lemma single_decodes lens mx syms :
  codes lens = 1 -> bl_count lens 1 = 1 -> last_code lens mx -> lens_ok lens -> (length lens <= 287)%nat ->
  length syms = 288%nat -> Forall (fun x => 0 <= x < 2 ^ 16) syms ->
  (forall s, (0 < code_len lens s)%nat -> placed lens syms s) ->
  decodes (MkTree (<[1%nat := 2]> (bl_count lens <$> seq 0 16)) (<[1%nat := mx + 1]> syms) mx) (extended lens mx).
Proof.
  intros Hc H1 Hl Hok Hlen Hs HF Hpl. unfold extended. rewrite Hc. cbn [Z.eqb Pos.eqb]. change (take _ lens ++ [1]) with (lens' lens mx).
  destruct (single_symbol lens mx Hc H1 Hl Hok) as (Hmx & _). unfold decodes. split_and!.
  - split; cbn [symbols]; [by rewrite length_insert|]. apply Forall_insert; [done|]. change (2 ^ 16) with 65536. lia.
  - destruct Hok as [Hok _]. split.
    + apply Forall_app. split; [by apply Forall_take|]. constructor; [lia|constructor].
    + unfold lens'. rewrite length_app, length_take. cbn [length]. lia.
  - by apply single_holds.
  - by apply complete_lens'.
Qed.

Lemma all_offsets lens :
  (length lens <= 288)%nat -> offs_loop (bl_count lens <$> seq 0 16) 1 0 =
  if kraft lens then Some (offset lens <$> seq 0 16, 2 ^ 16 - next_code lens 16, codes lens) else None.
Proof. intros H. exact (offs_loop_spec lens 16 0 H ltac:(lia) ltac:(simpl; lia)). Qed.

Lemma build_tree_spec t lengths num :
  let lens := take num lengths in
  (num <= length lengths)%nat -> (num <= 287)%nat -> Forall (fun l => 0 <= l <= 15) lens -> typed t ->
  exists t' res, tinf_build_tree t lengths num = Some (t', res) /\ typed t' /\ last_code lens (max_sym t') /\
    (res = TINF_OK /\ accepted lens /\ (0 < codes lens -> decodes t' (extended lens (max_sym t'))) \/
     res = TINF_DATA_ERROR /\ ~ accepted lens).
Proof.
  intros lens Hn Hn287 Hlens [Hsl HsF].
  assert (Hlen : length lens = num) by (unfold lens; rewrite length_take; lia). assert (Hok : lens_ok lens) by (split; [done|lia]).
  unfold tinf_build_tree. fold lens. rewrite Hlen, Nat.ltb_irrefl.
  destruct (count_loop_spec lens [] (-1) Hlens ltac:(simpl; lia) ltac:(simpl; lia)) as (mx & Ec & Hmx & Hlast).
  cbn [app length] in *. change (Z.of_nat 0) with 0 in *. change (bl_count [] <$> seq 0 16) with (replicate 16 0) in Ec.
  rewrite Ec. cbn [mbind option_bind].
  assert (Hl : last_code lens mx). { destruct Hlast as [?|(l & H1 & H2 & H3 & H4)]; [by left|right; exists l; split_and!; done || lia]. }
  clear Hlast Ec. unfold accepted. rewrite all_offsets by lia. destruct (kraft lens) eqn:Ek.
  2:{ eexists _, _. split; [done|]. split; [done|]. split; [done|]. right. split; [done|]. intros [? _]. done. }
  rewrite (table_get (bl_count lens)) by lia. cbn [mbind option_bind]. change (Z.to_nat 1) with 1%nat.
  assert (Hnc : next_code lens 16 <= 2 ^ 16) by apply (next_code_bound lens 15 (kraft_enough lens 15 Ek ltac:(lia))).
  destruct ((1 <? codes lens) && (0 <? 2 ^ 16 - next_code lens 16) || (codes lens =? 1) && negb (bl_count lens 1 =? 1)) eqn:Eb.
  { eexists _, _. split; [done|]. split; [done|]. split; [done|]. right. split; [done|]. intros (_ & H1 & H2). lia. }
  destruct (sort_loop_spec lens lens [] (symbols t) eq_refl Hok Hsl ltac:(simpl; lia)) as (syms & Es & Hs1 & Hs2 & Hpl).
  assert (Eoff : (fun i => offset lens i + bl_count [] i) <$> seq 0 16 = offset lens <$> seq 0 16).
  { apply list_fmap_ext. intros i l _. assert (bl_count [] l = 0) as -> by by destruct l. lia. }
  cbn [length] in Es. change (Z.of_nat 0) with 0 in Es. rewrite Eoff in Es. rewrite Es. cbn [mbind option_bind].
  destruct (codes lens =? 1) eqn:E1; [apply Z.eqb_eq in E1|apply Z.eqb_neq in E1].
  - rewrite (table_set (bl_count lens)) by lia. cbn [mbind option_bind]. rewrite wrap_small by (unfold in_u; lia).
    unfold store. rewrite Hs1. cbn [Z.leb Z.compare andb Z.ltb]. cbn [mbind option_bind].
    pose proof (single_decodes lens mx syms E1 ltac:(lia) Hl Hok ltac:(lia) Hs1 (Hs2 HsF) Hpl) as Hd.
    eexists _, _. split; [done|]. split; [apply Hd|]. split; [done|]. left. split; [done|]. split; [|done]. split_and!; [done|lia|lia].
  - eexists _, _. split; [done|]. split; [by split; auto|]. split; [done|]. left. split; [done|]. split; [split_and!; [done|lia|lia]|].
    intros Hpos. cbn [max_sym]. unfold extended. rewrite (proj2 (Z.eqb_neq _ _) E1). split_and!; [by split; auto|done|by apply table_holds|].
    split; [done|lia].
Qed.

(** ** What the decoder relies on *)

(** [t] decodes the codes of [lens]; the codes of the symbols up to [m] are in use,
    and a symbol up to [max_sym t] is one of [lens]. *)
Definition tree_for (m : nat) (t : tinf_tree) (lens : list Z) : Prop :=
  typed t /\ -1 <= max_sym t /\
  (forall s, (s <= m)%nat -> (0 < code_len lens s)%nat -> Z.of_nat s <= max_sym t) /\
  (max_sym t <> -1 -> exists ext, decodes t ext /\
    forall s, Z.of_nat s <= max_sym t -> code_len ext s = code_len lens s /\
      ((0 < code_len lens s)%nat -> codeword ext s = codeword lens s)).

Lemma decode_for m t lens s d rest :
  tree_for m t lens -> (s <= m)%nat -> (0 < code_len lens s)%nat -> inv d -> stream d = codeword lens s ++ rest ->
  exists d', tinf_decode_symbol t d = Ret d' (Z.of_nat s) /\ reads d (codeword lens s) d' /\ stream d' = rest /\ Z.of_nat s <= max_sym t.
Proof.
  intros (_ & _ & Hm & Hd) Hs Hc Hi Hst. specialize (Hm s Hs Hc). destruct (Hd ltac:(lia)) as (ext & Hdec & Hsame).
  destruct (Hsame s Hm) as [E1 E2]. rewrite <- (E2 Hc) in *.
  destruct (decode_symbol_code t ext s d rest Hdec ltac:(lia) Hi Hst) as (d' & E & Hr & Hs'). by exists d'.
Qed.

Lemma codeword_length lens s : length (codeword lens s) = code_len lens s.
Proof. unfold codeword. by rewrite length_reverse, bits_of_length. Qed.

Lemma decode_for_any m t lens d :
  tree_for m t lens -> max_sym t <> -1 -> inv d ->
  exists d' s l, tinf_decode_symbol t d = Ret d' (Z.of_nat s) /\ takes d l d' /\ (0 < length l)%nat /\
    (Z.of_nat s <= max_sym t -> (0 < code_len lens s)%nat /\ l = codeword lens s).
Proof.
  intros (_ & _ & _ & Hd) Hne Hi. destruct (Hd Hne) as (ext & Hdec & Hsame).
  destruct (decode_any t ext d Hdec Hi) as (d' & s & E & Hs & Ht). exists d', s, (codeword ext s). split; [done|]. split; [done|].
  split; [by rewrite codeword_length|]. intros Hle. destruct (Hsame s Hle) as [E1 E2]. rewrite E1 in Hs. by rewrite E2.
Qed.

(** ** The trees of [tinf_build_tree] *)

Lemma no_codes lens : Forall (fun l => l = 0) lens -> codes lens = 0.
Proof.
  intros H. unfold codes. generalize 16%nat. intros n. induction n as [|n IH]; [done|]. rewrite offset_succ, IH, zeros_count by done. done.
Qed.

Lemma some_codes lens mx : lens_ok lens -> last_code lens mx -> mx <> -1 -> 0 < codes lens.
Proof.
  intros Hok [[-> _]|(l & El & Hl & Hmx & _)] Hne; [done|].
  assert (Hc : (0 < code_len lens (Z.to_nat mx))%nat) by (unfold code_len; rewrite El; simpl; lia).
  pose proof (place_codes lens Hok _ Hc). pose proof (place_range lens _ Hc). lia.
Qed.

Lemma extended_same lens mx s :
  lens_ok lens -> accepted lens -> last_code lens mx -> Z.of_nat s <= mx ->
  code_len (extended lens mx) s = code_len lens s /\ ((0 < code_len lens s)%nat -> codeword (extended lens mx) s = codeword lens s).
Proof.
  intros Hok (_ & _ & H1) Hl Hs. unfold extended. destruct (codes lens =? 1) eqn:E; [apply Z.eqb_eq in E|done].
  change (take _ lens ++ [1]) with (lens' lens mx). specialize (H1 E).
  destruct (codeword_lens' lens mx E H1 Hl Hok s ltac:(lia)) as [E1 E2]. split; [done|]. intros Hpos.
  assert (Ec : code_len lens s = 1%nat) by (rewrite (single_only lens mx E H1 Hl Hok s Hpos); by apply (single_symbol lens mx)).
  unfold codeword, code. rewrite E1, E2, Ec. done.
Qed.

(** The result is an error unless the lengths are accepted. *)
Lemma build_tree_for m t lengths num :
  let lens := take num lengths in
  (num <= length lengths)%nat -> (num <= 287)%nat -> Forall (fun l => 0 <= l <= 15) lens -> typed t ->
  exists t' res, tinf_build_tree t lengths num = Some (t', res) /\ typed t' /\
    (res = TINF_OK /\ accepted lens /\ tree_for m t' lens /\ (max_sym t' = -1 -> codes lens = 0) \/
     res = TINF_DATA_ERROR /\ ~ accepted lens).
Proof.
  intros lens Hn Hn287 HF Ht. destruct (build_tree_spec t lengths num Hn Hn287 HF Ht) as (t' & res & E & Ht' & Hl & Ho). fold lens in Hl, Ho.
  assert (Hok : lens_ok lens) by (split; [done|unfold lens; rewrite length_take; lia]).
  exists t', res. split; [done|]. split; [done|]. destruct Ho as [(-> & Ha & Hd)|?]; [left|by right]. split; [done|]. split; [done|]. split.
  - split; [done|]. split; [destruct Hl as [[-> _]|(? & _ & _ & ? & _)]; lia|]. split; [intros s _; by apply last_code_le|].
    intros Hne. eexists. split; [apply Hd; by eapply some_codes|]. intros s Hs. by apply extended_same.
  - intros Em. rewrite Em in Hl. destruct Hl as [[_ HF0]|(? & _ & _ & ? & _)]; [by apply no_codes|lia].
Qed.

(** ** The fixed codes *)

(** RFC 1951, section 3.2.6. *)
Definition fixed_lit : list Z := replicate 144 8 ++ replicate 112 9 ++ replicate 24 7 ++ replicate 8 8.
Definition fixed_dist : list Z := replicate 32 5.

Lemma fill_seq_length n at_ v l : length (fill_seq n at_ v l) = length l.
Proof. revert at_ v l. induction n as [|n IH]; intros; [done|]. cbn [fill_seq]. by rewrite IH, length_insert. Qed.

Lemma fill_seq_lookup n at_ v l i :
  0 <= at_ -> at_ + Z.of_nat n <= zlen l ->
  fill_seq n at_ v l !! i =
  if decide (at_ <= Z.of_nat i < at_ + Z.of_nat n) then Some (v + (Z.of_nat i - at_)) else l !! i.
Proof.
  revert at_ v l. induction n as [|n IH]; intros at_ v l Ha Hn; cbn [fill_seq]; [case_decide; [lia|done]|].
  rewrite IH by (rewrite ?length_insert; lia). destruct (decide (Z.of_nat i = at_)) as [<-|Hne].
  - rewrite Nat2Z.id, list_lookup_insert_eq by lia. rewrite decide_False, decide_True by lia. f_equal. lia.
  - rewrite list_lookup_insert_ne by lia. repeat case_decide; lia || done || (f_equal; lia).
Qed.

(** What the fills of the literal table leave at each index. *)
Definition fixed_symbol (i : Z) : Z :=
  if i <? 24 then 256 + i else if i <? 168 then i - 24 else if i <? 176 then 280 + (i - 168) else 144 + (i - 176).

Definition places_ok (lens : list Z) (f : Z -> Z) : bool :=
  forallb (fun s => f (offset lens (code_len lens s) + rank lens s) =? Z.of_nat s) (seq 0 (length lens)).

Lemma fixed_holds lens n t (f : Z -> Z) :
  (length lens <= 288)%nat -> counts t = bl_count lens <$> seq 0 16 -> places_ok lens f = true -> length lens = n ->
  (forall i, (i < n)%nat -> symbols t !! i = Some (f (Z.of_nat i))) -> holds t lens.
Proof.
  intros Hlen Ec Hp <- Hs. split.
  - intros l Hl. rewrite Ec, table_get by lia. by rewrite Nat2Z.id.
  - intros s Hpos _. apply code_len_lookup in Hpos as Hlt. apply lookup_lt_Some in Hlt. pose proof (place_range lens s Hpos).
    unfold load. rewrite (proj2 (Z.leb_le _ _)), Hs by lia. f_equal. rewrite Z2Nat.id by lia.
    apply Z.eqb_eq. apply (proj1 (forallb_forall _ _) Hp s). apply in_seq. lia.
Qed.

Lemma fixed_lens : lens_ok fixed_lit /\ lens_ok fixed_dist /\ complete fixed_lit /\ complete fixed_dist.
Proof.
  assert (HF : forall k n, 0 <= k <= 15 -> Forall (fun l => 0 <= l <= 15) (replicate n k)) by (intros; by apply Forall_replicate).
  split_and!; [split; [|vm_compute; lia]..| |].
  - unfold fixed_lit. rewrite !Forall_app. split_and!; apply HF; lia.
  - apply HF. lia.
  - split; vm_compute; reflexivity.
  - split; vm_compute; reflexivity.
Qed.

Lemma coded_lt lens s : (0 < code_len lens s)%nat -> (s < length lens)%nat.
Proof. intros Hs. apply code_len_lookup, lookup_lt_Some in Hs. done. Qed.

Lemma fixed_trees_for lt0 dt0 :
  typed lt0 -> typed dt0 ->
  let '(lt, dt) := tinf_build_fixed_trees lt0 dt0 in tree_for 285 lt fixed_lit /\ tree_for 29 dt fixed_dist.
Proof.
  intros [Hl HlF] [Hd HdF]. destruct fixed_lens as (Hok1 & Hok2 & Hc1 & Hc2). unfold tinf_build_fixed_trees.
  set (ls := fill_seq 112 _ _ _). set (ds := fill_seq 32 _ _ _).
  assert (Els : forall i, (i < 288)%nat -> ls !! i = Some (fixed_symbol (Z.of_nat i))).
  { intros i Hi. unfold ls. rewrite !fill_seq_lookup by (rewrite ?fill_seq_length; lia). unfold fixed_symbol.
    repeat case_decide; repeat case_match; lia || done || (f_equal; lia). }
  assert (Eds : forall i, (i < 32)%nat -> ds !! i = Some (Z.of_nat i)).
  { intros i Hi. unfold ds. rewrite fill_seq_lookup by lia. rewrite decide_True by lia. f_equal. lia. }
  assert (Lls : length ls = 288%nat) by (unfold ls; by rewrite !fill_seq_length).
  assert (Lds : length ds = 288%nat) by (unfold ds; by rewrite !fill_seq_length).
  assert (Tl : typed (MkTree (<[9%nat := 112]> (<[8%nat := 152]> (<[7%nat := 24]> (replicate 16 0)))) ls 285)).
  { split; [done|]. cbn [symbols]. apply Forall_lookup. intros i x Hx. pose proof (lookup_lt_Some _ _ _ Hx). rewrite Els in Hx by lia.
    injection Hx as <-. unfold fixed_symbol. repeat case_match; lia. }
  assert (Td : typed (MkTree (<[5%nat := 32]> (replicate 16 0)) ds 29)).
  { split; [done|]. cbn [symbols]. apply Forall_lookup. intros i x Hx. unfold ds in Hx. rewrite fill_seq_lookup in Hx by lia.
    case_decide; [injection Hx as <-; lia|]. exact (Forall_lookup_1 _ _ _ _ HdF Hx). }
  split; (split; [done|]; split; [cbn [max_sym]; lia|]; split; [cbn [max_sym]; lia|]).
  - intros _. exists fixed_lit. split; [|done]. split; [done|]. split; [done|]. split; [|done].
    apply (fixed_holds _ 288 _ fixed_symbol); [vm_compute; lia|vm_compute; reflexivity|vm_compute; reflexivity|done|done].
  - intros _. exists fixed_dist. split; [|done]. split; [done|]. split; [done|]. split; [|done].
    apply (fixed_holds _ 32 _ (fun i => i)); [vm_compute; lia|vm_compute; reflexivity|vm_compute; reflexivity|done|done].
Qed.
End InflateBuild.
