(* ===== verification/Deflate.v ===== *)
(** * The deflate format

    RFC 1951 as a relation between compressed bits and data, independent of the code
    that reads it: codes, tokens, blocks, and what they stand for.  The canonical
    Huffman codes are those of InflateTree. *)

From S2P Require Import Prelude Inflate InflateBits InflateTree InflateBuild.

Module Deflate.
Import InflateBits InflateTree InflateBuild.
Open Scope Z_scope.

(** ** Lengths and distances (section 3.2.5) *)

(** Extra bits and smallest length of the length code [257 + l]. *)
Definition len_extra (l : nat) : nat := if (l <? 8)%nat || (l =? 28)%nat then 0 else (l - 4) / 4.
Definition len_base (l : nat) : Z :=
  if (l <? 8)%nat then Z.of_nat l + 3
  else if (l =? 28)%nat then 258
  else Z.of_nat (4 + l mod 4) * 2 ^ Z.of_nat (len_extra l) + 3.

(** Extra bits and smallest distance of a distance code. *)
Definition dist_extra (d : nat) : nat := if (d <? 2)%nat then 0 else d / 2 - 1.
Definition dist_first (d : nat) : Z :=
  if (d <? 2)%nat then Z.of_nat d + 1 else Z.of_nat (2 + d mod 2) * 2 ^ Z.of_nat (dist_extra d) + 1.

(** A literal byte, or a copy given by a length code, its extra bits, a distance
    code and its extra bits. *)
Inductive token :=
  | Lit (c : nat)
  | Copy (l : nat) (le : Z) (d : nat) (de : Z).

Section codes.
(** The code lengths of the literal and distance alphabets. *)
Variables lit_lens dist_lens : list Z.

Definition token_bits (t : token) : list bool :=
  match t with
  | Lit c => codeword lit_lens c
  | Copy l le d de =>
      codeword lit_lens (257 + l) ++ bits_of (len_extra l) le ++ codeword dist_lens d ++ bits_of (dist_extra d) de
  end.

Definition token_ok (t : token) : Prop :=
  match t with
  | Lit c => (c < 256)%nat /\ (0 < code_len lit_lens c)%nat
  | Copy l le d de =>
      (l <= 28)%nat /\ (d <= 29)%nat /\ (0 < code_len lit_lens (257 + l))%nat /\ (0 < code_len dist_lens d)%nat /\
      0 <= le < 2 ^ Z.of_nat (len_extra l) /\ 0 <= de < 2 ^ Z.of_nat (dist_extra d)
  end.

(** The tokens of a block and its end. *)
Definition tokens_bits (ts : list token) : list bool := flat_map token_bits ts ++ codeword lit_lens 256.
End codes.

(** [n] bytes from [dist] bytes back, which may run into themselves. *)
Definition copy (out : list Z) (n dist : nat) : list Z :=
  out ++ ((fun i => default 0 (out !! (length out - dist + i mod dist)%nat)) <$> seq 0 n).

Definition expand_token (out : list Z) (t : token) : option (list Z) :=
  match t with
  | Lit c => Some (out ++ [Z.of_nat c])
  | Copy l le d de =>
      if dist_first d + de <=? zlen out then Some (copy out (Z.to_nat (len_base l + le)) (Z.to_nat (dist_first d + de))) else None
  end.

Fixpoint expand_tokens (out : list Z) (ts : list token) : option (list Z) :=
  match ts with
  | [] => Some out
  | t :: ts' => out' ← expand_token out t; expand_tokens out' ts'
  end.

(** ** Code lengths (section 3.2.7) *)

(** A code length, the previous one [3 + e] times, or a run of zeros. *)
Inductive lensym :=
  | Len (n : nat)
  | Again (e : Z)
  | Zeros (e : Z)
  | LongZeros (e : Z).

Definition lensym_code (y : lensym) : nat :=
  match y with Len n => n | Again _ => 16 | Zeros _ => 17 | LongZeros _ => 18 end.
Definition lensym_extra (y : lensym) : list bool :=
  match y with Len _ => [] | Again e => bits_of 2 e | Zeros e => bits_of 3 e | LongZeros e => bits_of 7 e end.
Definition lensym_bits (cl : list Z) (y : lensym) : list bool := codeword cl (lensym_code y) ++ lensym_extra y.

Definition lensym_ok (cl : list Z) (y : lensym) : Prop :=
  (0 < code_len cl (lensym_code y))%nat /\
  match y with
  | Len n => (n <= 15)%nat
  | Again e => 0 <= e < 4
  | Zeros e => 0 <= e < 8
  | LongZeros e => 0 <= e < 128
  end.

Definition expand_lensym (lens : list Z) (y : lensym) : option (list Z) :=
  match y with
  | Len n => Some (lens ++ [Z.of_nat n])
  | Again e => l ← last lens; Some (lens ++ replicate (Z.to_nat (3 + e)) l)
  | Zeros e => Some (lens ++ replicate (Z.to_nat (3 + e)) 0)
  | LongZeros e => Some (lens ++ replicate (Z.to_nat (11 + e)) 0)
  end.

Fixpoint expand_lens (lens : list Z) (ys : list lensym) : option (list Z) :=
  match ys with
  | [] => Some lens
  | y :: ys' => lens' ← expand_lensym lens y; expand_lens lens' ys'
  end.

(** The order in which the lengths of the code length codes are sent. *)
Definition order : list nat := [16; 17; 18; 0; 8; 7; 9; 6; 10; 5; 11; 4; 12; 3; 13; 2; 14; 1; 15]%nat.

Record header := MkHeader {
  hlit : nat;             (* number of literal and length codes *)
  hdist : nat;            (* number of distance codes *)
  hclen : nat;            (* number of code length codes sent *)
  hcl : list Z;           (* lengths of the code length codes *)
  hsyms : list lensym }.

Definition header_bits (h : header) : list bool :=
  bits_of 5 (Z.of_nat (hlit h) - 257) ++ bits_of 5 (Z.of_nat (hdist h) - 1) ++ bits_of 4 (Z.of_nat (hclen h) - 4) ++
  flat_map (fun i => bits_of 3 (default 0 (hcl h !! i))) (take (hclen h) order) ++ flat_map (lensym_bits (hcl h)) (hsyms h).

(** The code lengths a header gives; they are a complete code, or a single code of
    one bit, or for distances no code. *)
Definition header_ok (h : header) (lit dist : list Z) : Prop :=
  (257 <= hlit h <= 286)%nat /\ (1 <= hdist h <= 32)%nat /\ (4 <= hclen h <= 19)%nat /\
  length (hcl h) = 19%nat /\ Forall (fun l => 0 <= l < 8) (hcl h) /\
  (forall i, i ∈ drop (hclen h) order -> hcl h !! i = Some 0) /\
  accepted (hcl h) /\ Forall (lensym_ok (hcl h)) (hsyms h) /\
  expand_lens [] (hsyms h) = Some (lit ++ dist) /\ length lit = hlit h /\ length dist = hdist h /\
  accepted lit /\ accepted dist /\ (0 < code_len lit 256)%nat.

(** ** Blocks (section 3.2.3) *)

(** A stored block has the bits that fill up a byte. *)
Inductive block :=
  | Stored (pad : list bool) (bytes : list Z)
  | Fixed (ts : list token)
  | Dynamic (h : header) (lit dist : list Z) (ts : list token).

Definition le16 (n : Z) : list bool := bits_of 16 n.

Definition block_type (b : block) : Z :=
  match b with Stored _ _ => 0 | Fixed _ => 1 | Dynamic _ _ _ _ => 2 end.

Definition block_body (b : block) : list bool :=
  match b with
  | Stored pad bytes => pad ++ le16 (zlen bytes) ++ le16 (2 ^ 16 - 1 - zlen bytes) ++ flat_map (bits_of 8) bytes
  | Fixed ts => tokens_bits fixed_lit fixed_dist ts
  | Dynamic h lit dist ts => header_bits h ++ tokens_bits lit dist ts
  end.

Definition block_bits (b : block) : list bool := bits_of 2 (block_type b) ++ block_body b.

(** [pos] is the number of bits before the block, with its final bit. *)
Definition block_ok (pos : nat) (b : block) : Prop :=
  match b with
  | Stored pad bytes => (length pad < 8)%nat /\ ((pos + 2 + length pad) mod 8 = 0)%nat /\
      Forall (fun c => 0 <= c < 256) bytes /\ zlen bytes < 2 ^ 16
  | Fixed ts => Forall (token_ok fixed_lit fixed_dist) ts
  | Dynamic h lit dist ts => header_ok h lit dist /\ Forall (token_ok lit dist) ts
  end.

Definition expand_block (out : list Z) (b : block) : option (list Z) :=
  match b with
  | Stored _ bytes => Some (out ++ bytes)
  | Fixed ts => expand_tokens out ts
  | Dynamic _ _ _ ts => expand_tokens out ts
  end.

(** [deflates pos out bs l out']: the bits [l], after [pos] others, are the blocks
    [bs], the last one marked, and they extend the data from [out] to [out']. *)
Inductive deflates : nat -> list Z -> list block -> list bool -> list Z -> Prop :=
  | deflates_last pos out b out' :
      block_ok (pos + 1) b -> expand_block out b = Some out' ->
      deflates pos out [b] (true :: block_bits b) out'
  | deflates_more pos out b out1 bs l out' :
      block_ok (pos + 1) b -> expand_block out b = Some out1 ->
      deflates (pos + 1 + length (block_bits b)) out1 bs l out' ->
      deflates pos out (b :: bs) (false :: block_bits b ++ l) out'.

(** A dynamic block may announce 31 or 32 distance codes, though the last two have no
    meaning; blocks with 30 at most. *)
Definition few_dists (b : block) : Prop :=
  match b with Dynamic h _ _ _ => (hdist h <= 30)%nat | _ => True end.

(** ** Stored blocks that are too long *)

(** [begins out bs l out']: the bits [l] are the blocks [bs], none of them the last. *)
Inductive begins : nat -> list Z -> list block -> list bool -> list Z -> Prop :=
  | begins_nil pos out : begins pos out [] [] out
  | begins_more pos out b out1 bs l out' :
      block_ok (pos + 1) b -> expand_block out b = Some out1 ->
      begins (pos + 1 + length (block_bits b)) out1 bs l out' ->
      begins pos out (b :: bs) (false :: block_bits b ++ l) out'.

(** After [pos] bits come the type and the lengths of a stored block, and then fewer
    bytes than it has. *)
Definition cut_short (pos : nat) (l : list bool) : Prop := exists pad n tail,
  (length pad < 8)%nat /\ ((pos + 2 + length pad) mod 8 = 0)%nat /\ 0 <= n < 2 ^ 16 /\
  l = bits_of 2 0 ++ pad ++ le16 n ++ le16 (2 ^ 16 - 1 - n) ++ tail /\ zlen tail < 8 * n.

Definition overruns_from (pos : nat) (out : list Z) (l : list bool) : Prop := exists bs l1 out1 f l2,
  begins pos out bs l1 out1 /\ Forall few_dists bs /\ l = l1 ++ f :: l2 /\ cut_short (pos + length l1 + 1) l2.

(** The data of a stored block of the source goes beyond the end of the source. *)
Definition overruns (src : list Z) : Prop := overruns_from 0 [] (flat_map (bits_of 8) src).
End Deflate.
