(* ===== verification/InflateBlock.v ===== *)
(** * Compressed blocks

    [tinf_inflate_block_data] reads the tokens of a block and writes what they stand
    for; on any other bits it returns an error. *)

From S2P Require Import Prelude Effects Inflate InflateBits InflateTree InflateBuild Deflate.

Module InflateBlock.
Import Effects Inflate InflateBits InflateTree InflateBuild Deflate.
Open Scope Z_scope.

(** ** Extra bits *)

Lemma getbits_base_reads n base e d rest :
  inv d -> (n <= 16)%nat -> 0 <= e < 2 ^ Z.of_nat n -> stream d = bits_of n e ++ rest ->
  exists d', tinf_getbits_base (Z.of_nat n) base d = Ret d' (base + e) /\ reads d (bits_of n e) d' /\ stream d' = rest.
Proof.
  intros Hi Hn He Hs. unfold tinf_getbits_base. destruct (Z.of_nat n =? 0) eqn:E; [apply Z.eqb_eq in E|].
  - assert (n = O) as -> by lia. assert (e = 0) as -> by (change (2 ^ Z.of_nat 0) with 1 in He; lia). exists d. split; [done|].
    split; [by apply reads_nil|]. done.
  - destruct (getbits_reads (Z.of_nat n) d (bits_of n e) rest Hi ltac:(lia) Hs) as (d' & Eg & Hr & Hs'); [by rewrite bits_of_length|].
    exists d'. rewrite (bind_Ret _ _ _ _ _ Eg), val_bits by done. done.
Qed.

Lemma getbits_base_any n base d :
  inv d -> (n <= 16)%nat ->
  exists d' e, tinf_getbits_base (Z.of_nat n) base d = Ret d' (base + e) /\ takes d (bits_of n e) d' /\ 0 <= e < 2 ^ Z.of_nat n.
Proof.
  intros Hi Hn. unfold tinf_getbits_base. destruct (Z.of_nat n =? 0) eqn:E; [apply Z.eqb_eq in E|].
  - assert (n = O) as -> by lia. exists d, 0. split; [done|]. split; [by apply takes_nil|]. done.
  - destruct (getbits_any (Z.of_nat n) d Hi ltac:(lia)) as (d' & v & Eg & Ht & Hv). rewrite Nat2Z.id in Ht.
    exists d', v. rewrite (bind_Ret _ _ _ _ _ Eg). done.
Qed.

(** ** The tables *)

Lemma load_len l : (l <= 28)%nat ->
  load length_bits (Z.of_nat l) = Some (Z.of_nat (len_extra l)) /\ load length_base (Z.of_nat l) = Some (len_base l) /\
  (len_extra l <= 16)%nat /\ 0 < len_base l.
Proof. intros H. do 29 (destruct l as [|l]; [split_and!; vm_compute; done || lia|]). lia. Qed.

Lemma load_dist d : (d <= 29)%nat ->
  load dist_bits (Z.of_nat d) = Some (Z.of_nat (dist_extra d)) /\ load dist_base (Z.of_nat d) = Some (dist_first d) /\
  (dist_extra d <= 16)%nat /\ 0 < dist_first d.
Proof. intros H. do 30 (destruct d as [|d]; [split_and!; vm_compute; done || lia|]). lia. Qed.

(** ** Copies *)

Definition set_dest (d : tinf_data) (out : list Z) : tinf_data :=
  MkData (source d) (tag d) (bitcount d) (overflow d) out (ltree d) (dtree d) (after d) (over d).

Lemma copy_run_length out n dist : length (copy out n dist) = (length out + n)%nat.
Proof. unfold copy. by rewrite length_app, length_fmap, length_seq. Qed.

Lemma copy_lookup out n dist :
  (1 <= dist <= length out)%nat ->
  copy out n dist !! (length out + n - dist)%nat = Some (default 0 (out !! (length out - dist + n mod dist)%nat)).
Proof.
  intros Hd. unfold copy. destruct (decide (n < dist)%nat) as [Hlt|Hge].
  - rewrite lookup_app_l, Nat.mod_small by lia. replace (length out - dist + n)%nat with (length out + n - dist)%nat by lia.
    destruct (lookup_lt_is_Some_2 out (length out + n - dist)) as [x Hx]; [lia|]. by rewrite Hx.
  - rewrite lookup_app_r, list_lookup_fmap, lookup_seq_lt by lia. cbn [fmap option_fmap option_map]. do 4 f_equal.
    replace n with ((n - dist) + 1 * dist)%nat at 2 by lia. rewrite Nat.Div0.mod_add. f_equal. lia.
Qed.

Lemma copy_succ out n dist :
  copy out (S n) dist = copy out n dist ++ [default 0 (out !! (length out - dist + n mod dist)%nat)].
Proof. unfold copy. rewrite seq_S, fmap_app, app_assoc. done. Qed.

Lemma copy_loop_spec n k out (dist : nat) d :
  (1 <= dist <= length out)%nat -> dest d = copy out k dist ->
  copy_loop n (Z.of_nat dist) d = Ret (set_dest d (copy out (k + n) dist)) tt.
Proof.
  intros Hd. revert k d. induction n as [|n IH]; intros k d E; cbn [copy_loop].
  - rewrite Nat.add_0_r, <- E. by destruct d.
  - rewrite (bind_Ret (read dest) _ d d (dest d)) by done. rewrite (bind_Ret _ _ d d (default 0 (out !! (length out - dist + k mod dist)%nat))).
    2:{ apply of_option_Ret. rewrite E. unfold load. rewrite copy_run_length, (proj2 (Z.leb_le _ _)) by lia.
        replace (Z.to_nat _) with (length out + k - dist)%nat by lia. by apply copy_lookup. }
    rewrite (bind_Ret (put _) _ d _ tt) by done. rewrite (IH (S k)) by (cbn [dest]; by rewrite E, copy_succ).
    replace (S k + n)%nat with (k + S n)%nat by lia. done.
Qed.

Lemma copy_run n out offs d :
  1 <= offs <= zlen out -> dest d = out -> copy_loop n offs d = Ret (set_dest d (copy out n (Z.to_nat offs))) tt.
Proof.
  intros Hd E. rewrite <- (Z2Nat.id offs) at 1 by lia. apply (copy_loop_spec n 0 out); [lia|]. rewrite E. unfold copy. by rewrite app_nil_r.
Qed.

(** ** Reading and writing *)

(** [d'] is [d] with the bits [l] consumed and the data now [out]. *)
Definition wrote (d : tinf_data) (l : list bool) (out : list Z) (d' : tinf_data) : Prop := reads (set_dest d out) l d'.

(** The same, if the stream was not too short. *)
Definition took (d : tinf_data) (l : list bool) (out : list Z) (d' : tinf_data) : Prop := takes (set_dest d out) l d'.

Lemma reads_wrote d l d' out : reads d l d' -> wrote d l out (set_dest d' out).
Proof. intros (H1 & (H2 & H2' & H2'') & H3 & H4). unfold wrote, reads. by split_and!. Qed.
Lemma takes_took d l d' out : takes d l d' -> took d l out (set_dest d' out).
Proof. intros (H1 & (H2 & H2' & H2'') & H3 & H4). unfold took, takes. by split_and!. Qed.

Lemma wrote_app d l o1 d1 l' o2 d2 : wrote d l o1 d1 -> wrote d1 l' o2 d2 -> wrote d (l ++ l') o2 d2.
Proof. intros H1 H2. eapply reads_app; [exact (reads_wrote _ _ _ o2 H1)|exact H2]. Qed.
Lemma took_app d l o1 d1 l' o2 d2 : took d l o1 d1 -> took d1 l' o2 d2 -> took d (l ++ l') o2 d2.
Proof. intros H1 H2. eapply takes_app; [exact (takes_took _ _ _ o2 H1)|exact H2]. Qed.

Lemma reads_same d l d' : reads d l d' -> wrote d l (dest d) d'.
Proof. intros H. unfold wrote. by destruct d. Qed.
Lemma takes_same d l d' : takes d l d' -> took d l (dest d) d'.
Proof. intros H. unfold took. by destruct d. Qed.

Lemma wrote_dest d l out d' : wrote d l out d' -> dest d' = out.
Proof. by intros (_ & (? & _) & _). Qed.
Lemma took_dest d l out d' : took d l out d' -> dest d' = out.
Proof. by intros (_ & (? & _) & _). Qed.
Lemma reads_inv d l d' : reads d l d' -> inv d'.
Proof. by intros []. Qed.
Lemma reads_dest d l d' : reads d l d' -> dest d' = dest d.
Proof. by intros (_ & (? & _) & _). Qed.
Lemma takes_inv d l d' : takes d l d' -> inv d'.
Proof. by intros []. Qed.
Lemma takes_dest d l d' : takes d l d' -> dest d' = dest d.
Proof. by intros (_ & (? & _) & _). Qed.

(** ** One token *)

(** The bits of a copy after its length code. *)
Definition copy_bits (dl : list Z) (l : nat) (le : Z) (ds : nat) (de : Z) : list bool :=
  bits_of (len_extra l) le ++ codeword dl ds ++ bits_of (dist_extra ds) de.

Section trees.
Variables (lt dt : tinf_tree) (ll dl : list Z).
Hypothesis Hlt : tree_for 285 lt ll.
Hypothesis Hdt : tree_for 29 dt dl.

Lemma match_reads l le ds de d rest out :
  token_ok ll dl (Copy l le ds de) -> inv d -> Z.of_nat (257 + l) <= max_sym lt ->
  stream d = copy_bits dl l le ds de ++ rest -> expand_token (dest d) (Copy l le ds de) = Some out ->
  exists d', match_symbol lt dt (Z.of_nat (257 + l)) d = Ret d' TINF_OK /\ wrote d (copy_bits dl l le ds de) out d' /\ stream d' = rest.
Proof.
  intros (Hl & Hd & _ & Hcd & Hle & Hde) Hi Hmx Hs He. unfold copy_bits in Hs. rewrite <- !app_assoc in Hs.
  destruct (load_len l Hl) as (L1 & L2 & L3 & L4). destruct (load_dist ds Hd) as (D1 & D2 & D3 & D4).
  destruct (getbits_base_reads (len_extra l) (len_base l) le d _ Hi L3 Hle Hs) as (d1 & E1 & R1 & S1).
  destruct (decode_for 29 dt dl ds d1 _ Hdt Hd Hcd (reads_inv _ _ _ R1) S1) as (d2 & E2 & R2 & S2 & M2).
  destruct (getbits_base_reads (dist_extra ds) (dist_first ds) de d2 _ (reads_inv _ _ _ R2) D3 Hde S2) as (d3 & E3 & R3 & S3).
  unfold match_symbol. destruct Hlt as (_ & Hm1 & _), Hdt as (_ & Hm2 & _).
  rewrite (proj2 (Z.ltb_ge _ _)), (proj2 (Z.ltb_ge _ _)), (proj2 (Z.eqb_neq _ _)) by lia. cbn [orb].
  replace (Z.of_nat (257 + l) - 257) with (Z.of_nat l) by lia.
  rewrite (bind_Ret _ _ _ _ _ (of_option_Ret _ _ _ L1)), (bind_Ret _ _ _ _ _ (of_option_Ret _ _ _ L2)).
  rewrite (bind_Ret _ _ _ _ _ E1), (bind_Ret _ _ _ _ _ E2). rewrite (proj2 (Z.ltb_ge _ _)), (proj2 (Z.ltb_ge _ _)) by lia. cbn [orb].
  rewrite (bind_Ret _ _ _ _ _ (of_option_Ret _ _ _ D1)), (bind_Ret _ _ _ _ _ (of_option_Ret _ _ _ D2)), (bind_Ret _ _ _ _ _ E3).
  rewrite (bind_Ret (read dest) _ d3 d3 (dest d3)) by done.
  assert (Ed : dest d3 = dest d) by (rewrite (reads_dest _ _ _ R3), (reads_dest _ _ _ R2); by apply reads_dest in R1).
  unfold expand_token in He. destruct (dist_first ds + de <=? zlen (dest d)) eqn:Ez; [apply Z.leb_le in Ez|done]. injection He as <-.
  rewrite Ed, (proj2 (Z.ltb_ge _ _)) by lia.
  rewrite (bind_Ret _ _ _ _ _ (copy_run (Z.to_nat (len_base l + le)) (dest d) (dist_first ds + de) d3 ltac:(lia) Ed)). eexists. split; [done|].
  split; [apply reads_wrote; by eapply reads_app; [exact R1|eapply reads_app]|done].
Qed.

Lemma match_any s d :
  (257 <= s)%nat -> inv d ->
  exists d' res, match_symbol lt dt (Z.of_nat s) d = Ret d' res /\ inv d' /\ ltree d' = ltree d /\ dtree d' = dtree d /\
    (res = TINF_DATA_ERROR \/ res = TINF_OK /\ exists l le ds de out, s = (257 + l)%nat /\ Z.of_nat s <= max_sym lt /\
      (l <= 28)%nat /\ (ds <= 29)%nat /\ (0 < code_len dl ds)%nat /\
      0 <= le < 2 ^ Z.of_nat (len_extra l) /\ 0 <= de < 2 ^ Z.of_nat (dist_extra ds) /\
      expand_token (dest d) (Copy l le ds de) = Some out /\ took d (copy_bits dl l le ds de) out d').
Proof.
  intros Hs Hi. unfold match_symbol.
  destruct ((max_sym lt <? Z.of_nat s) || (28 <? Z.of_nat s - 257) || (max_sym dt =? -1)) eqn:E0.
  { exists d, TINF_DATA_ERROR. split_and!; try done. by left. }
  apply orb_false_iff in E0 as [[A1%Z.ltb_ge A2%Z.ltb_ge]%orb_false_iff A3%Z.eqb_neq].
  set (l := (s - 257)%nat). replace (Z.of_nat s - 257) with (Z.of_nat l) by lia.
  destruct (load_len l ltac:(lia)) as (L1 & L2 & L3 & L4).
  rewrite (bind_Ret _ _ _ _ _ (of_option_Ret _ _ _ L1)), (bind_Ret _ _ _ _ _ (of_option_Ret _ _ _ L2)).
  destruct (getbits_base_any (len_extra l) (len_base l) d Hi L3) as (d1 & le & E1 & T1 & Hle). rewrite (bind_Ret _ _ _ _ _ E1).
  destruct (decode_for_any 29 dt dl d1 Hdt A3 (takes_inv _ _ _ T1)) as (d2 & ds & cw & E2 & T2 & _ & Hcw). rewrite (bind_Ret _ _ _ _ _ E2).
  pose proof (takes_app _ _ _ _ _ T1 T2) as T12.
  destruct ((max_sym dt <? Z.of_nat ds) || (29 <? Z.of_nat ds)) eqn:E3.
  { exists d2, TINF_DATA_ERROR. destruct T12 as (? & (? & ? & ?) & _). split_and!; try done. by left. }
  apply orb_false_iff in E3 as [B1%Z.ltb_ge B2%Z.ltb_ge]. destruct (Hcw B1) as [Hcd ->].
  destruct (load_dist ds ltac:(lia)) as (D1 & D2 & D3 & D4).
  rewrite (bind_Ret _ _ _ _ _ (of_option_Ret _ _ _ D1)), (bind_Ret _ _ _ _ _ (of_option_Ret _ _ _ D2)).
  destruct (getbits_base_any (dist_extra ds) (dist_first ds) d2 (takes_inv _ _ _ T2) D3) as (d3 & de & E3 & T3 & Hde).
  rewrite (bind_Ret _ _ _ _ _ E3), (bind_Ret (read dest) _ d3 d3 (dest d3)) by done.
  pose proof (takes_app _ _ _ _ _ T12 T3) as T. rewrite (takes_dest _ _ _ T).
  destruct (zlen (dest d) <? dist_first ds + de) eqn:E4; [apply Z.ltb_lt in E4|apply Z.ltb_ge in E4].
  { exists d3, TINF_DATA_ERROR. destruct T as (? & (? & ? & ?) & _). split_and!; try done. by left. }
 
  rewrite (bind_Ret _ _ _ _ _ (copy_run (Z.to_nat (len_base l + le)) (dest d) (dist_first ds + de) d3 ltac:(lia) (takes_dest _ _ _ T))). eexists _, _. split; [done|].
  pose proof T as (? & (? & ? & ?) & _). split_and!; try done. right. split; [done|]. exists l, le, ds, de. eexists.
  split_and!; try done || lia.
  - unfold expand_token. rewrite (proj2 (Z.leb_le _ _)) by lia. done.
  - unfold copy_bits. rewrite app_assoc. by apply takes_took.
Qed.

(** ** The block *)

Hypothesis Heob : (0 < code_len ll 256)%nat.

Lemma token_bits_pos t : token_ok ll dl t -> (0 < length (token_bits ll dl t))%nat.
Proof. destruct t; intros H; cbn [token_bits token_ok] in *; rewrite ?length_app, codeword_length; lia. Qed.

Lemma put_byte (c : nat) d : (c < 256)%nat -> put (u8 (Z.of_nat c)) d = Ret (set_dest d (dest d ++ [Z.of_nat c])) tt.
Proof. intros Hc. rewrite wrap_small by (unfold in_u; lia). done. Qed.

Lemma read_overflow d : read overflow d = Ret d (overflow d).
Proof. done. Qed.

(** One round of the loop consumes a token. *)
Lemma token_reads fuel t d rest out :
  token_ok ll dl t -> inv d -> overflow d = false -> stream d = token_bits ll dl t ++ rest -> expand_token (dest d) t = Some out ->
  exists d', block_loop (S fuel) lt dt d = block_loop fuel lt dt d' /\ wrote d (token_bits ll dl t) out d' /\ stream d' = rest.
Proof.
  intros Ht Hi Ho Hs He. cbn [block_loop]. destruct t as [c|l le ds de]; cbn [token_bits] in *.
  - destruct Ht as [Hc Hcode]. destruct (decode_for 285 lt ll c d rest Hlt ltac:(lia) Hcode Hi Hs) as (d1 & E1 & R1 & S1 & _).
    rewrite (bind_Ret _ _ _ _ _ E1), (bind_Ret _ _ _ _ _ (read_overflow d1)). pose proof R1 as (_ & _ & _ & ->). rewrite Ho.
    rewrite (proj2 (Z.ltb_lt _ _)) by lia. rewrite (bind_Ret _ _ _ _ _ (put_byte c d1 Hc)). injection He as <-.
    rewrite (reads_dest _ _ _ R1). eexists. split; [done|]. split; [by apply reads_wrote|done].
  - pose proof Ht as (Hl & _ & Hcode & _). change (bits_of _ le ++ _) with (copy_bits dl l le ds de) in *. rewrite <- app_assoc in Hs.
    destruct (decode_for 285 lt ll (257 + l) d _ Hlt ltac:(lia) Hcode Hi Hs) as (d1 & E1 & R1 & S1 & M1).
    rewrite (bind_Ret _ _ _ _ _ E1), (bind_Ret _ _ _ _ _ (read_overflow d1)). pose proof R1 as (_ & _ & _ & ->). rewrite Ho.
    rewrite (proj2 (Z.ltb_ge _ _)), (proj2 (Z.eqb_neq _ _)) by lia. rewrite <- (reads_dest _ _ _ R1) in He.
    destruct (match_reads l le ds de d1 rest out Ht (reads_inv _ _ _ R1) M1 S1 He) as (d2 & E2 & W2 & S2).
    rewrite (bind_Ret _ _ _ _ _ E2). exists d2. split; [done|]. split; [|done]. eapply wrote_app; [exact (reads_same _ _ _ R1)|exact W2].
Qed.

Lemma end_reads fuel d rest :
  inv d -> overflow d = false -> stream d = codeword ll 256 ++ rest ->
  exists d', block_loop (S fuel) lt dt d = Ret d' TINF_OK /\ reads d (codeword ll 256) d' /\ stream d' = rest.
Proof.
  intros Hi Ho Hs. cbn [block_loop]. destruct (decode_for 285 lt ll 256 d rest Hlt ltac:(lia) Heob Hi Hs) as (d1 & E1 & R1 & S1 & _).
  rewrite (bind_Ret _ _ _ _ _ E1), (bind_Ret _ _ _ _ _ (read_overflow d1)). pose proof R1 as (_ & _ & _ & ->). rewrite Ho.
  by exists d1.
Qed.

Lemma block_reads ts fuel d rest out :
  Forall (token_ok ll dl) ts -> inv d -> overflow d = false -> stream d = tokens_bits ll dl ts ++ rest ->
  expand_tokens (dest d) ts = Some out -> (length ts < fuel)%nat ->
  exists d', block_loop fuel lt dt d = Ret d' TINF_OK /\ wrote d (tokens_bits ll dl ts) out d' /\ stream d' = rest.
Proof.
  intros Hts. revert fuel d. induction Hts as [|t ts Ht _ IH]; intros fuel d Hi Ho Hs He Hf; (destruct fuel as [|fuel]; [simpl in Hf; lia|]).
  - destruct (end_reads fuel d rest Hi Ho Hs) as (d' & E & R & S). injection He as <-. exists d'. split; [done|].
    split; [by apply reads_same|done].
  - unfold tokens_bits in *. cbn [flat_map expand_tokens length] in *. rewrite <- !app_assoc in *.
    apply bind_Some in He as (out1 & He1 & He2).
    destruct (token_reads fuel t d _ out1 Ht Hi Ho Hs He1) as (d1 & E1 & W1 & S1). rewrite E1.
    rewrite <- (wrote_dest _ _ _ _ W1) in He2. pose proof W1 as (Hi1 & _ & _ & Ho1). change (overflow d1 = overflow d) in Ho1. rewrite Ho in Ho1.
    destruct (IH fuel d1 Hi1) as (d2 & E2 & W2 & S2); [done|done|done|lia|]. exists d2. split; [done|].
    split; [|done]. by eapply wrote_app.
Qed.

(** One round of the loop on any bits: it ends the block, or consumes a token. *)
Lemma round_any fuel d :
  inv d ->
  (exists d' res, block_loop (S fuel) lt dt d = Ret d' res /\ inv d' /\ ltree d' = ltree d /\ dtree d' = dtree d /\
    (res = TINF_DATA_ERROR \/ res = TINF_OK /\ overflow d' = false /\ takes d (codeword ll 256) d')) \/
  (exists d' t out, block_loop (S fuel) lt dt d = block_loop fuel lt dt d' /\ overflow d = false /\ (0 < length (stream d))%nat /\
    token_ok ll dl t /\ expand_token (dest d) t = Some out /\ took d (token_bits ll dl t) out d').
Proof.
  intros Hi. pose proof Hlt as (_ & _ & Hmx & _). specialize (Hmx 256%nat ltac:(lia) Heob). cbn [block_loop].
  destruct (decode_for_any 285 lt ll d Hlt ltac:(lia) Hi) as (d1 & s & cw & E1 & T1 & Hpos & Hcw). rewrite (bind_Ret _ _ _ _ _ E1).
  rewrite (bind_Ret _ _ _ _ _ (read_overflow d1)). pose proof T1 as (Hi1 & (Hd1 & Hl1 & Ht1) & Hmono & Hs1).
  destruct (overflow d1) eqn:Ho1. { left. exists d1, TINF_DATA_ERROR. split_and!; try done. by left. }
  assert (Ho : overflow d = false) by (destruct (overflow d); [by specialize (Hmono eq_refl)|done]).
  assert (Hs : (0 < length (stream d))%nat) by (rewrite Hs1, length_app by done; lia).
  destruct (Z.of_nat s <? 256) eqn:E; [apply Z.ltb_lt in E|apply Z.ltb_ge in E].
  { right. destruct Hcw as [Hc ->]; [lia|]. rewrite (bind_Ret _ _ _ _ _ (put_byte s d1 ltac:(lia))). eexists _, (Lit s), _.
    split; [done|]. split; [done|]. split; [done|]. split; [split; [lia|done]|]. split; [done|]. rewrite Hd1. by apply takes_took. }
  destruct (Z.of_nat s =? 256) eqn:E2; [apply Z.eqb_eq in E2|apply Z.eqb_neq in E2].
  { left. assert (s = 256%nat) as -> by lia. destruct Hcw as [_ ->]; [lia|]. exists d1, TINF_OK. split_and!; try done. by right. }
  destruct (match_any s d1 ltac:(lia) Hi1) as (d2 & res & E3 & Hi2 & Hl2 & Ht2 & Hres). rewrite (bind_Ret _ _ _ _ _ E3).
  destruct Hres as [->|(-> & l & le & ds & de & out1 & -> & Hle & Hl28 & Hd29 & Hcd & B1 & B2 & He1 & W1)].
  { left. exists d2, TINF_DATA_ERROR. split; [done|]. split; [done|]. split; [congruence|]. split; [congruence|]. by left. }
  right. destruct (Hcw Hle) as [Hc ->]. rewrite (takes_dest _ _ _ T1) in He1. exists d2, (Copy l le ds de), out1.
  split; [done|]. split; [done|]. split; [done|]. split; [cbn [token_ok]; split_and!; done || lia|]. split; [done|]. cbn [token_bits].
  eapply took_app; [exact (takes_same _ _ _ T1)|exact W1].
Qed.

Lemma block_any fuel d :
  inv d -> (overflow d = true \/ (length (stream d) < fuel)%nat) -> (1 <= fuel)%nat ->
  exists d' res, block_loop fuel lt dt d = Ret d' res /\ inv d' /\ ltree d' = ltree d /\ dtree d' = dtree d /\
    (res = TINF_DATA_ERROR \/ res = TINF_OK /\ overflow d' = false /\ exists ts out, Forall (token_ok ll dl) ts /\
      expand_tokens (dest d) ts = Some out /\ took d (tokens_bits ll dl ts) out d').
Proof.
  revert d. induction fuel as [|fuel IH]; intros d Hi Hf H1; [lia|].
  destruct (round_any fuel d Hi) as [(d' & res & E & Hi' & Hl & Ht & Hres)|(d1 & t & out1 & E & Ho & Hpos & Ht & He & W)]; rewrite E.
  { exists d', res. split_and!; try done. destruct Hres as [?|(-> & Ho & T)]; [by left|right]. split; [done|]. split; [done|].
    exists [], (dest d). split; [done|]. split; [done|]. by apply takes_same. }
  pose proof W as (Hi1 & (Hd1 & Hl1 & Ht1) & _ & Hs1). pose proof (token_bits_pos t Ht). destruct Hf as [?|Hf]; [congruence|].
  destruct (IH d1 Hi1) as (d' & res & E' & Hi' & Hl' & Ht' & Hres); [|lia|].
  { destruct (overflow d1) eqn:Ho1; [by left|right]. specialize (Hs1 eq_refl). change (stream (set_dest d out1)) with (stream d) in Hs1.
    rewrite Hs1, length_app in Hf. lia. }
  exists d', res. split; [done|]. split; [done|]. split; [by rewrite Hl', Hl1|]. split; [by rewrite Ht', Ht1|].
  destruct Hres as [?|(-> & Ho' & ts & out & Hts & He' & W')]; [by left|right]. split; [done|]. split; [done|].
  exists (t :: ts), out. split; [by constructor|]. cbn [expand_tokens]. rewrite He. cbn [mbind option_bind]. rewrite (took_dest _ _ _ _ W) in He'.
  split; [done|]. unfold tokens_bits in *. cbn [flat_map]. rewrite <- app_assoc. by eapply took_app.
Qed.

Lemma bits_left_stream d : bits_left d = length (stream d).
Proof.
  unfold bits_left, stream. rewrite length_app, bits_of_length. induction (source d) as [|b s IH]; [simpl; lia|].
  cbn [flat_map]. rewrite length_app, bits_of_length. cbn [length]. lia.
Qed.

Lemma tokens_length ts : Forall (token_ok ll dl) ts -> (length ts <= length (tokens_bits ll dl ts))%nat.
Proof.
  unfold tokens_bits. induction 1 as [|t ts Ht _ IH]; [simpl; lia|]. cbn [flat_map length]. rewrite !length_app in *.
  pose proof (token_bits_pos t Ht). lia.
Qed.

(** A block of tokens. *)
Lemma block_data_reads ts d rest out :
  Forall (token_ok ll dl) ts -> inv d -> overflow d = false -> stream d = tokens_bits ll dl ts ++ rest ->
  expand_tokens (dest d) ts = Some out ->
  exists d', tinf_inflate_block_data lt dt d = Ret d' TINF_OK /\ wrote d (tokens_bits ll dl ts) out d' /\ stream d' = rest.
Proof.
  intros Hts Hi Ho Hs He. apply block_reads; [done..|]. rewrite bits_left_stream, Hs, length_app. pose proof (tokens_length ts Hts). lia.
Qed.

(** Any block. *)
Lemma block_data_any d :
  inv d ->
  exists d' res, tinf_inflate_block_data lt dt d = Ret d' res /\
    (res = TINF_DATA_ERROR \/ res = TINF_OK /\ overflow d' = false /\ exists ts out, Forall (token_ok ll dl) ts /\
      expand_tokens (dest d) ts = Some out /\ took d (tokens_bits ll dl ts) out d').
Proof.
  intros Hi. destruct (block_any (S (bits_left d)) d Hi) as (d' & res & E & _ & _ & _ & Hres); [right|lia|].
  - rewrite bits_left_stream. lia.
  - by exists d', res.
Qed.
End trees.
End InflateBlock.
