(* ===== verification/InflateHeader.v ===== *)
(** * Headers of dynamic blocks

    [tinf_decode_trees] reads a header and builds the trees of its codes; on any
    other bits it returns an error. *)

From S2P Require Import Prelude Effects Inflate InflateBits InflateTree InflateBuild Deflate InflateBlock.

Module InflateHeader.
Import Effects Inflate InflateBits InflateTree InflateBuild Deflate InflateBlock.
Open Scope Z_scope.

(** ** Arrays *)

Lemma flat_map_same {A B} (f g : A -> list B) l : (forall x, x ∈ l -> f x = g x) -> flat_map f l = flat_map g l.
Proof.
  induction l as [|x l IH]; intros H; [done|]. cbn [flat_map]. rewrite (H x), IH; [done| |by apply elem_of_cons; left].
  intros y Hy. apply H. by apply elem_of_cons; right.
Qed.

Lemma store_nat (l : list Z) (i : nat) v : (i < length l)%nat -> store l (Z.of_nat i) v = Some (<[i := v]> l).
Proof. intros Hi. unfold store. rewrite (proj2 (Z.leb_le _ _)), (proj2 (Z.ltb_lt _ _)), Nat2Z.id by lia. done. Qed.

Lemma load_nat (l : list Z) (i : nat) : load l (Z.of_nat i) = l !! i.
Proof. unfold load. rewrite (proj2 (Z.leb_le _ _)), Nat2Z.id by lia. done. Qed.

Lemma repeat_loop_spec n (num : nat) v table :
  (num + n <= length table)%nat ->
  exists table', repeat_loop n (Z.of_nat num) v table = Some table' /\ length table' = length table /\
    take (num + n) table' = take num table ++ replicate n v.
Proof.
  revert num table. induction n as [|n IH]; intros num table Hn; cbn [repeat_loop].
  - exists table. rewrite Nat.add_0_r, app_nil_r. done.
  - rewrite store_nat by lia. cbn [mbind option_bind]. replace (Z.of_nat num + 1) with (Z.of_nat (S num)) by lia.
    destruct (IH (S num) (<[num := v]> table)) as (table' & E & Hl & Ht); [rewrite length_insert; lia|].
    exists table'. split; [done|]. split; [by rewrite Hl, length_insert|]. replace (num + S n)%nat with (S num + n)%nat by lia.
    rewrite Ht, (take_S_r _ _ v) by (rewrite list_lookup_insert_eq by lia; done). rewrite take_insert_ge by lia.
    rewrite <- app_assoc. done.
Qed.

(** ** The code length codes *)

Lemma clen_reads (f : nat -> Z) idx table d rest :
  NoDup idx -> Forall (fun i => (i < length table)%nat) idx -> (forall i, i ∈ idx -> 0 <= f i < 8) -> inv d ->
  stream d = flat_map (fun i => bits_of 3 (f i)) idx ++ rest ->
  exists d' final, clen_loop (Z.of_nat <$> idx) table d = Ret d' final /\
    reads d (flat_map (fun i => bits_of 3 (f i)) idx) d' /\ stream d' = rest /\ length final = length table /\
    (forall i, i ∈ idx -> final !! i = Some (f i)) /\ (forall i, i ∉ idx -> final !! i = table !! i).
Proof.
  intros Hnd. revert table d. induction Hnd as [|i idx Hni _ IH]; intros table d Hidx Hf Hi Hs; cbn [fmap list_fmap clen_loop flat_map] in *.
  { exists d, table. split; [done|]. split; [by apply reads_nil|]. split; [done|]. split; [done|]. split; [by intros ? ?%elem_of_nil|done]. }
  apply Forall_cons in Hidx as [Hidx0 Hidx]. rewrite <- app_assoc in Hs. specialize (Hf i) as Hfi. rewrite elem_of_cons in Hfi.
  destruct (getbits_reads 3 d _ _ Hi ltac:(lia) Hs ltac:(by rewrite bits_of_length)) as (d1 & E1 & R1 & S1).
  rewrite (bind_Ret _ _ _ _ _ E1), val_bits by (change (2 ^ Z.of_nat 3) with 8; auto).
  rewrite (bind_Ret _ _ _ _ _ (of_option_Ret _ _ _ (store_nat table i (f i) Hidx0))).
  destruct (IH (<[i := f i]> table) d1) as (d2 & final & E2 & R2 & S2 & Hl & Hin & Hout).
  { by rewrite length_insert. } { intros j Hj. apply Hf. by apply elem_of_cons; right. } { by apply reads_inv in R1. } { done. }
  exists d2, final. split; [done|]. split; [by eapply reads_app|]. split; [done|]. split; [by rewrite Hl, length_insert|]. split.
  - intros j [->|Hj]%elem_of_cons; [|by apply Hin]. rewrite Hout by done. by rewrite list_lookup_insert_eq.
  - intros j Hj. rewrite elem_of_cons in Hj. rewrite Hout by tauto. rewrite list_lookup_insert_ne; [done|]. intros ->. tauto.
Qed.

Lemma clen_any idx table d :
  NoDup idx -> Forall (fun i => (i < length table)%nat) idx -> inv d ->
  exists d' final, clen_loop (Z.of_nat <$> idx) table d = Ret d' final /\
    takes d (flat_map (fun i => bits_of 3 (default 0 (final !! i))) idx) d' /\ length final = length table /\
    (forall i, i ∈ idx -> exists v, final !! i = Some v /\ 0 <= v < 8) /\ (forall i, i ∉ idx -> final !! i = table !! i).
Proof.
  intros Hnd. revert table d. induction Hnd as [|i idx Hni _ IH]; intros table d Hidx Hi; cbn [fmap list_fmap clen_loop flat_map].
  { exists d, table. split; [done|]. split; [by apply takes_nil|]. split; [done|]. split; [by intros ? ?%elem_of_nil|done]. }
  apply Forall_cons in Hidx as [Hidx0 Hidx].
  destruct (getbits_any 3 d Hi ltac:(lia)) as (d1 & v & E1 & T1 & Hv). rewrite (bind_Ret _ _ _ _ _ E1).
  rewrite (bind_Ret _ _ _ _ _ (of_option_Ret _ _ _ (store_nat table i v Hidx0))).
  destruct (IH (<[i := v]> table) d1) as (d2 & final & E2 & T2 & Hl & Hin & Hout); [by rewrite length_insert|by apply takes_inv in T1|].
  assert (Ei : final !! i = Some v) by (rewrite Hout by done; by rewrite list_lookup_insert_eq).
  exists d2, final. split; [done|]. split; [rewrite Ei; by eapply takes_app|]. split; [by rewrite Hl, length_insert|]. split.
  - intros j [->|Hj]%elem_of_cons; [|by apply Hin]. by exists v.
  - intros j Hj. rewrite elem_of_cons in Hj. rewrite Hout by tauto. rewrite list_lookup_insert_ne; [done|]. intros ->. tauto.
Qed.

(** ** Code lengths *)

(** What a symbol stands for: a length and how often. *)
Definition run_of (lens : list Z) (y : lensym) : option (Z * nat) :=
  match y with
  | Len n => Some (Z.of_nat n, 1%nat)
  | Again e => l ← last lens; Some (l, Z.to_nat (3 + e))
  | Zeros e => Some (0, Z.to_nat (3 + e))
  | LongZeros e => Some (0, Z.to_nat (11 + e))
  end.

Lemma expand_run lens y : expand_lensym lens y = '(v, n) ← run_of lens y; Some (lens ++ replicate n v).
Proof. destruct y; simpl; [done| |done|done]. by destruct (last lens). Qed.

Lemma run_pos lens cl y v n : lensym_ok cl y -> run_of lens y = Some (v, n) -> (1 <= n)%nat.
Proof. intros [_ H]. destruct y; simpl; [|destruct (last lens); [|done]|..]; intros [= <- <-]; simpl in H; lia. Qed.

Lemma last_table acc (table : list Z) :
  take (length acc) table = acc -> acc <> [] -> load table (Z.of_nat (length acc) - 1) = last acc.
Proof.
  intros Ht Hne. destruct acc as [|x l _] using rev_ind; [done|]. rewrite last_snoc. rewrite length_app in *. cbn [length] in *.
  replace (Z.of_nat (length l + 1) - 1) with (Z.of_nat (length l)) by lia. rewrite load_nat.
  rewrite <- (lookup_take_lt table (length l + 1)) by lia. rewrite Ht. by rewrite list_lookup_middle.
Qed.

Section codes.
Variables (lt : tinf_tree) (cl : list Z).
Hypothesis Hlt : tree_for 18 lt cl.

Lemma run_reads acc table y d rest v n :
  lensym_ok cl y -> take (length acc) table = acc -> run_of acc y = Some (v, n) -> inv d -> stream d = lensym_extra y ++ rest ->
  exists d', run_length table (Z.of_nat (length acc)) (Z.of_nat (lensym_code y)) d = Ret d' (v, Z.of_nat n) /\
    reads d (lensym_extra y) d' /\ stream d' = rest.
Proof.
  intros [_ Hy] Ht Hr Hi Hs. unfold run_length. destruct y as [k|e|e|e]; cbn [lensym_code lensym_extra run_of] in *.
  - injection Hr as <- <-. rewrite !(proj2 (Z.eqb_neq _ _)) by lia. exists d. split; [done|]. split; [by apply reads_nil|done].
  - apply bind_Some in Hr as (l & Hl & [= <- <-]). change (Z.of_nat 16 =? 16) with true. cbn [andb].
    assert (Hne : acc <> []) by by intros ->. rewrite <- (last_table acc table Ht Hne) in Hl.
    rewrite (bind_Ret _ _ _ _ _ (of_option_Ret _ _ _ Hl)).
    destruct (getbits_base_reads 2 3 e d rest Hi ltac:(lia) Hy Hs) as (d1 & E1 & R1 & S1). change (Z.of_nat 2) with 2 in E1.
    rewrite (bind_Ret _ _ _ _ _ E1). exists d1. rewrite Z2Nat.id by lia. done.
  - injection Hr as <- <-. change (Z.of_nat 17 =? 16) with false. change (Z.of_nat 17 =? 17) with true.
    destruct (getbits_base_reads 3 3 e d rest Hi ltac:(lia) Hy Hs) as (d1 & E1 & R1 & S1). change (Z.of_nat 3) with 3 in E1.
    rewrite (bind_Ret _ _ _ _ _ E1). exists d1. rewrite Z2Nat.id by lia. done.
  - injection Hr as <- <-. change (Z.of_nat 18 =? 16) with false. change (Z.of_nat 18 =? 17) with false. change (Z.of_nat 18 =? 18) with true.
    destruct (getbits_base_reads 7 11 e d rest Hi ltac:(lia) Hy Hs) as (d1 & E1 & R1 & S1). change (Z.of_nat 7) with 7 in E1.
    rewrite (bind_Ret _ _ _ _ _ E1). exists d1. rewrite Z2Nat.id by lia. done.
Qed.

(** Symbol [s] with its extra bits. *)
Lemma run_any acc table s d :
  (0 < code_len cl s)%nat -> (s < 19)%nat -> take (length acc) table = acc -> (s = 16%nat -> acc <> []) -> inv d ->
  exists d' y v n, run_length table (Z.of_nat (length acc)) (Z.of_nat s) d = Ret d' (v, Z.of_nat n) /\
    lensym_code y = s /\ lensym_ok cl y /\ run_of acc y = Some (v, n) /\ takes d (lensym_extra y) d'.
Proof.
  intros Hc Hs Ht Hne Hi. unfold run_length. destruct (decide (s < 16)%nat).
  { rewrite !(proj2 (Z.eqb_neq _ _)) by lia. exists d, (Len s), (Z.of_nat s), 1%nat. split; [done|]. split; [done|].
    split; [split; [done|simpl; lia]|]. split; [done|]. by apply takes_nil. }
  assert (s = 16 \/ s = 17 \/ s = 18)%nat as [->|[->| ->]] by lia.
  - change (Z.of_nat 16 =? 16) with true. specialize (Hne eq_refl). pose proof (last_table acc table Ht Hne) as Hl.
    destruct (last acc) as [l|] eqn:El; [|by apply last_None in El]. rewrite (bind_Ret _ _ _ _ _ (of_option_Ret _ _ _ Hl)).
    destruct (getbits_base_any 2 3 d Hi ltac:(lia)) as (d1 & e & E1 & T1 & He). change (Z.of_nat 2) with 2 in E1. change (2 ^ Z.of_nat 2) with 4 in He.
    rewrite (bind_Ret _ _ _ _ _ E1). exists d1, (Again e), l, (Z.to_nat (3 + e)). rewrite Z2Nat.id by lia.
    split; [done|]. split; [done|]. split; [done|]. split; [simpl; by rewrite El|done].
  - change (Z.of_nat 17 =? 16) with false. change (Z.of_nat 17 =? 17) with true.
    destruct (getbits_base_any 3 3 d Hi ltac:(lia)) as (d1 & e & E1 & T1 & He). change (Z.of_nat 3) with 3 in E1.
    rewrite (bind_Ret _ _ _ _ _ E1). exists d1, (Zeros e), 0, (Z.to_nat (3 + e)). by rewrite Z2Nat.id by lia.
  - change (Z.of_nat 18 =? 16) with false. change (Z.of_nat 18 =? 17) with false. change (Z.of_nat 18 =? 18) with true.
    destruct (getbits_base_any 7 11 d Hi ltac:(lia)) as (d1 & e & E1 & T1 & He). change (Z.of_nat 7) with 7 in E1.
    rewrite (bind_Ret _ _ _ _ _ E1). exists d1, (LongZeros e), 0, (Z.to_nat (11 + e)). by rewrite Z2Nat.id by lia.
Qed.

Lemma expand_prefix acc ys full : expand_lens acc ys = Some full -> (length acc <= length full)%nat.
Proof.
  revert acc. induction ys as [|y ys IH]; intros acc; cbn [expand_lens]; [by intros [= <-]|].
  rewrite expand_run. destruct (run_of acc y) as [[v n]|]; [|done]. cbn [mbind option_bind]. intros H%IH. rewrite length_app in H. lia.
Qed.

(** The table after a run. *)
Lemma repeat_run acc n v (table : list Z) :
  take (length acc) table = acc -> (length acc + n <= length table)%nat ->
  exists table', repeat_loop n (Z.of_nat (length acc)) v table = Some table' /\ length table' = length table /\
    take (length (acc ++ replicate n v)) table' = acc ++ replicate n v.
Proof.
  intros Ht Hl. destruct (repeat_loop_spec n (length acc) v table Hl) as (table' & E & Hl' & Ht').
  exists table'. rewrite length_app, length_replicate, Ht', Ht. done.
Qed.

Lemma lengths_reads ys fuel acc table d rest full total :
  Forall (lensym_ok cl) ys -> expand_lens acc ys = Some full -> length full = total -> (total <= length table)%nat ->
  take (length acc) table = acc -> inv d -> stream d = flat_map (lensym_bits cl) ys ++ rest -> (total - length acc < fuel)%nat ->
  exists d' table', lengths_loop fuel lt (Z.of_nat total) (Z.of_nat (length acc)) table d = Ret d' (table', TINF_OK) /\
    reads d (flat_map (lensym_bits cl) ys) d' /\ stream d' = rest /\ length table' = length table /\ take total table' = full.
Proof.
  intros Hys. revert fuel acc table d. induction Hys as [|y ys Hy _ IH]; intros fuel acc table d He Hfull Htot Ht Hi Hs Hf;
    (destruct fuel as [|fuel]; [lia|]); cbn [lengths_loop].
  { injection He as ->. rewrite Hfull, Z.ltb_irrefl. exists d, table. rewrite Hfull in Ht. split; [done|]. split; [by apply reads_nil|]. done. }
  cbn [expand_lens] in He. apply bind_Some in He as (acc' & He1 & He2). rewrite expand_run in He1.
  apply bind_Some in He1 as ([v n] & Hr & [= <-]). pose proof (expand_prefix _ _ _ He2) as Hpre.
  rewrite length_app, length_replicate, Hfull in Hpre. pose proof (run_pos _ _ _ _ _ Hy Hr) as Hn.
  rewrite (proj2 (Z.ltb_lt _ _)) by lia. cbn [flat_map] in Hs. unfold lensym_bits at 1 in Hs. rewrite <- !app_assoc in Hs.
  assert (Hc18 : (lensym_code y <= 18)%nat) by (destruct Hy as [_ Hy]; destruct y; simpl in *; lia).
  destruct (decode_for 18 lt cl _ d _ Hlt Hc18 (proj1 Hy) Hi Hs) as (d1 & E1 & R1 & S1 & M1). rewrite (bind_Ret _ _ _ _ _ E1).
  rewrite (proj2 (Z.ltb_ge _ _)) by lia.
  assert (E0 : (Z.of_nat (lensym_code y) =? 16) && (Z.of_nat (length acc) =? 0) = false).
  { destruct y as [k|e|e|e]; [destruct Hy as [_ Hy]; cbn [lensym_code] in *; rewrite (proj2 (Z.eqb_neq _ _)) by lia; done| |done|done].
    destruct acc; done. }
  rewrite E0. destruct (run_reads acc table y d1 _ v n Hy Ht Hr (reads_inv _ _ _ R1) S1) as (d2 & E2 & R2 & S2).
  rewrite (bind_Ret _ _ _ _ _ E2). rewrite (proj2 (Z.ltb_ge _ _)), Nat2Z.id by lia.
  destruct (repeat_run acc n v table Ht ltac:(lia)) as (table1 & E3 & Hl1 & Ht1).
  rewrite (bind_Ret _ _ _ _ _ (of_option_Ret _ _ _ E3)).
  replace (Z.of_nat (length acc) + Z.of_nat n) with (Z.of_nat (length (acc ++ replicate n v))) by (rewrite length_app, length_replicate; lia).
  destruct (IH fuel _ table1 d2 He2) as (d3 & table' & E4 & R4 & S4 & Hl4 & Ht4); [done|lia|done|by apply reads_inv in R2|done| |].
  { rewrite length_app, length_replicate. lia. }
  exists d3, table'. split; [done|]. split; [|split; [done|split; [lia|done]]]. cbn [flat_map]. unfold lensym_bits at 1. rewrite <- !app_assoc.
  eapply reads_app; [exact R1|]. by eapply reads_app.
Qed.

Lemma lengths_any fuel acc table d total :
  length cl = 19%nat -> max_sym lt <> -1 -> (length acc <= total <= length table)%nat ->
  take (length acc) table = acc -> inv d -> (total - length acc < fuel)%nat ->
  exists d' table' res, lengths_loop fuel lt (Z.of_nat total) (Z.of_nat (length acc)) table d = Ret d' (table', res) /\
    (res = TINF_DATA_ERROR \/ res = TINF_OK /\ exists ys full, Forall (lensym_ok cl) ys /\ expand_lens acc ys = Some full /\
      length full = total /\ takes d (flat_map (lensym_bits cl) ys) d' /\ length table' = length table /\ take total table' = full).
Proof.
  intros Hcl Hne. revert acc table d. induction fuel as [|fuel IH]; intros acc table d Hacc Ht Hi Hf; [lia|]. cbn [lengths_loop].
  destruct (Z.of_nat (length acc) <? Z.of_nat total) eqn:E; [apply Z.ltb_lt in E|apply Z.ltb_ge in E].
  2:{ assert (length acc = total) as El by lia. exists d, table, TINF_OK. split; [done|]. right. split; [done|]. exists [], acc. rewrite El in Ht.
      split; [done|]. split; [done|]. split; [done|]. split; [by apply takes_nil|done]. }
  destruct (decode_for_any 18 lt cl d Hlt Hne Hi) as (d1 & s & cw & E1 & T1 & _ & Hcw). rewrite (bind_Ret _ _ _ _ _ E1).
  destruct (max_sym lt <? Z.of_nat s) eqn:E2; [|apply Z.ltb_ge in E2]. { exists d1, table, TINF_DATA_ERROR. split; [done|]. by left. }
  destruct (Hcw E2) as [Hs ->]. pose proof (coded_lt cl s Hs).
  destruct ((Z.of_nat s =? 16) && (Z.of_nat (length acc) =? 0)) eqn:E3. { exists d1, table, TINF_DATA_ERROR. split; [done|]. by left. }
  destruct (run_any acc table s d1 Hs ltac:(lia) Ht) as (d2 & y & v & n & E4 & Ey & Hy & Hr & T4); [|by apply takes_inv in T1|].
  { intros -> ->. done. }
  rewrite (bind_Ret _ _ _ _ _ E4). destruct (Z.of_nat total - Z.of_nat (length acc) <? Z.of_nat n) eqn:E5; [|apply Z.ltb_ge in E5].
  { exists d2, table, TINF_DATA_ERROR. split; [done|]. by left. }
  rewrite Nat2Z.id. pose proof (run_pos _ _ _ _ _ Hy Hr).
  destruct (repeat_run acc n v table Ht ltac:(lia)) as (table1 & E6 & Hl6 & Ht6). rewrite (bind_Ret _ _ _ _ _ (of_option_Ret _ _ _ E6)).
  replace (Z.of_nat (length acc) + Z.of_nat n) with (Z.of_nat (length (acc ++ replicate n v))) by (rewrite length_app, length_replicate; lia).
  destruct (IH (acc ++ replicate n v) table1 d2) as (d3 & table' & res & E7 & Hres);
    [rewrite length_app, length_replicate; lia|done|by apply takes_inv in T4|rewrite length_app, length_replicate; lia|].
  exists d3, table', res. split; [done|]. destruct Hres as [?|(-> & ys & full & Hys & He & Hfull & T7 & Hl7 & Ht7)]; [by left|right].
  split; [done|]. exists (y :: ys), full. split; [by constructor|]. split; [cbn [expand_lens]; by rewrite expand_run, Hr|]. split; [done|].
  split; [|split; [lia|done]]. cbn [flat_map]. unfold lensym_bits at 1. rewrite Ey, <- app_assoc. by eapply takes_app; [|eapply takes_app].
Qed.
End codes.

Lemma expand_range cl acc ys full :
  Forall (lensym_ok cl) ys -> Forall (fun l => 0 <= l <= 15) acc -> expand_lens acc ys = Some full ->
  Forall (fun l => 0 <= l <= 15) full.
Proof.
  intros Hys. revert acc. induction Hys as [|y ys [_ Hy] _ IH]; intros acc Hacc; cbn [expand_lens]; [by intros [= <-]|].
  rewrite expand_run. destruct (run_of acc y) as [[v n]|] eqn:Er; [|done]. cbn [mbind option_bind]. apply IH.
  apply Forall_app. split; [done|]. apply Forall_replicate. destruct y as [k|e|e|e]; cbn [run_of] in Er.
  - injection Er as <- <-. lia.
  - apply bind_Some in Er as (l & Hl & [= <- <-]). rewrite last_lookup in Hl. exact (Forall_lookup_1 _ _ _ _ Hacc Hl).
  - injection Er as <- <-. lia.
  - injection Er as <- <-. lia.
Qed.

(** ** The trees *)

Definition set_trees (d : tinf_data) (lt dt : tinf_tree) : tinf_data :=
  MkData (source d) (tag d) (bitcount d) (overflow d) (dest d) lt dt (after d) (over d).

Lemma reads_trees d l d' lt dt : reads d l d' -> reads (set_trees d lt dt) l (set_trees d' lt dt).
Proof. intros (H1 & (H2 & H2' & H2'') & H3 & H4). unfold reads. by split_and!. Qed.
Lemma takes_trees d l d' lt dt : takes d l d' -> takes (set_trees d lt dt) l (set_trees d' lt dt).
Proof. intros (H1 & (H2 & H2' & H2'') & H3 & H4). unfold takes. by split_and!. Qed.

Lemma read_ltree d : read ltree d = Ret d (ltree d).
Proof. done. Qed.
Lemma read_dtree d : read dtree d = Ret d (dtree d).
Proof. done. Qed.
Lemma set_ltree_Ret lt d : set_ltree lt d = Ret (set_trees d lt (dtree d)) tt.
Proof. done. Qed.
Lemma set_dtree_Ret dt d : set_dtree dt d = Ret (set_trees d (ltree d) dt) tt.
Proof. done. Qed.

(** The two trees from the table of lengths. *)
Definition build_both (hlit hdist : nat) (lt : tinf_tree) (lengths : list Z) : M Z :=
  '(lt, res) ← of_option (tinf_build_tree lt lengths hlit);
  _ ← set_ltree lt;
  if negb (res =? TINF_OK) then mret res
  else
    dt ← read dtree;
    '(dt, res) ← of_option (tinf_build_tree dt (drop hlit lengths) hdist);
    _ ← set_dtree dt;
    mret res.

Lemma build_both_spec lt table lit dist d :
  typed lt -> typed (dtree d) -> Forall (fun l => 0 <= l <= 15) (lit ++ dist) -> (length lit <= 287)%nat -> (length dist <= 287)%nat ->
  take (length lit + length dist) table = lit ++ dist ->
  exists d' res, build_both (length lit) (length dist) lt table d = Ret d' res /\
    (res = TINF_DATA_ERROR /\ ~ (accepted lit /\ accepted dist) \/
     res = TINF_OK /\ accepted lit /\ accepted dist /\ tree_for 285 (ltree d') lit /\ tree_for 29 (dtree d') dist /\
       d' = set_trees d (ltree d') (dtree d')).
Proof.
  intros Hlt Hdt HF Hl Hd Ht. apply Forall_app in HF as [HF1 HF2].
  assert (Hlen : (length lit + length dist <= length table)%nat).
  { pose proof (f_equal length Ht) as Hlen. rewrite length_take, length_app in Hlen. lia. }
  assert (Et1 : take (length lit) table = lit).
  { pose proof (f_equal (take (length lit)) Ht) as E. rewrite take_take, Nat.min_l, take_app_length in E by lia. done. }
  assert (Et2 : take (length dist) (drop (length lit) table) = dist).
  { pose proof (f_equal (drop (length lit)) Ht) as E. rewrite drop_app_length in E. by rewrite take_drop_commute. }
  unfold build_both.
  destruct (build_tree_for 285 lt table (length lit)) as (lt' & res & E & Hty & Hres); rewrite ?Et1 in *; [lia|lia|done|done|].
  rewrite (bind_Ret _ _ _ _ _ (of_option_Ret _ _ _ E)), (bind_Ret _ _ _ _ _ (set_ltree_Ret lt' d)).
  destruct Hres as [(-> & Ha & Hfor & _)|[-> Hna]]; [|eexists _, _; split; [done|]; left; split; [done|tauto]].
  cbn [negb Z.eqb TINF_OK]. rewrite (bind_Ret _ _ _ _ _ (read_dtree _)).
  destruct (build_tree_for 29 (dtree d) (drop (length lit) table) (length dist)) as (dt' & res & E' & Hty' & Hres);
    rewrite ?Et2 in *; [rewrite length_drop; lia|lia|done|done|].
  cbn [dtree set_trees]. rewrite (bind_Ret _ _ _ _ _ (of_option_Ret _ _ _ E')), (bind_Ret _ _ _ _ _ (set_dtree_Ret dt' _)).
  eexists _, _. split; [done|]. destruct Hres as [(-> & Ha' & Hfor' & _)|[-> Hna]]; [right|left; split; [done|tauto]]. done.
Qed.

(** The rest of [decode_lengths] after the code length tree. *)
Lemma decode_lengths_tree lit dist table d lt :
  tinf_build_tree (ltree d) table 19 = Some (lt, TINF_OK) -> max_sym lt <> -1 ->
  decode_lengths (Z.of_nat lit) (Z.of_nat dist) table d =
  ('(lengths, res) ← lengths_loop (S (lit + dist)) lt (Z.of_nat (lit + dist)) 0 table;
   if negb (res =? TINF_OK) then mret res
   else
     eob ← of_option (load lengths 256);
     if eob =? 0 then mret TINF_DATA_ERROR else build_both lit dist lt lengths) (set_trees d lt (dtree d)).
Proof.
  intros E Hm. unfold decode_lengths. rewrite (bind_Ret _ _ _ _ _ (read_ltree d)), (bind_Ret _ _ _ _ _ (of_option_Ret _ _ _ E)).
  rewrite (bind_Ret _ _ _ _ _ (set_ltree_Ret lt d)). cbn [negb Z.eqb TINF_OK]. rewrite (proj2 (Z.eqb_neq _ _)) by done.
  rewrite <- Nat2Z.inj_add, !Nat2Z.id. done.
Qed.

(** The end-of-block symbol in the table. *)
Lemma load_eob (lit dist table : list Z) :
  take (length lit + length dist) table = lit ++ dist -> (257 <= length lit)%nat ->
  exists e, load table 256 = Some e /\ lit !! 256%nat = Some e.
Proof.
  intros Ht Hl. destruct (lookup_lt_is_Some_2 lit 256) as [e He]; [lia|]. exists e. split; [|done].
  change 256 with (Z.of_nat 256). rewrite load_nat. rewrite <- (lookup_take_lt table (length lit + length dist)) by lia.
  rewrite Ht, lookup_app_l by lia. done.
Qed.

(** A table of 320 lengths that starts with those of the code length codes. *)
Definition starts (table cl : list Z) : Prop :=
  length table = 320%nat /\ take 19 table = cl /\ length cl = 19%nat /\ Forall (fun l => 0 <= l < 8) cl.

Lemma starts_tree table cl t :
  starts table cl -> typed t ->
  exists lt res, tinf_build_tree t table 19 = Some (lt, res) /\ typed lt /\
    (res = TINF_OK /\ accepted cl /\ tree_for 18 lt cl \/ res = TINF_DATA_ERROR /\ ~ accepted cl).
Proof.
  intros (H1 & H2 & H3 & H4) Ht. destruct (build_tree_for 18 t table 19) as (lt & res & E & Hty & Hres); rewrite ?H2 in *; [lia|lia| |done|].
  - eapply Forall_impl; [exact H4|]. simpl. lia.
  - exists lt, res. split; [done|]. split; [done|]. destruct Hres as [(-> & Ha & Hf & _)|?]; [by left|by right].
Qed.

Lemma decode_lengths_reads cl ys lit dist table d rest :
  typed (ltree d) -> typed (dtree d) -> starts table cl -> accepted cl -> Forall (lensym_ok cl) ys ->
  expand_lens [] ys = Some (lit ++ dist) -> (257 <= length lit <= 286)%nat -> (1 <= length dist <= 30)%nat ->
  accepted lit -> accepted dist -> (0 < code_len lit 256)%nat -> inv d -> stream d = flat_map (lensym_bits cl) ys ++ rest ->
  exists d', decode_lengths (Z.of_nat (length lit)) (Z.of_nat (length dist)) table d = Ret d' TINF_OK /\
    tree_for 285 (ltree d') lit /\ tree_for 29 (dtree d') dist /\
    reads (set_trees d (ltree d') (dtree d')) (flat_map (lensym_bits cl) ys) d' /\ stream d' = rest.
Proof.
  intros Hlt Hdt Hst Hcl Hys He Hl Hd Ha1 Ha2 Heob Hi Hs.
  destruct (starts_tree table cl _ Hst Hlt) as (lt & res & E & Hty & [(-> & _ & Hfor)|[_ ?]]); [|done].
  assert (Hm : max_sym lt <> -1).
  { destruct Hys as [|y ys' [Hy Hy'] _]; [injection He as E0; destruct lit; simpl in *; [lia|done]|]. destruct Hfor as (_ & _ & Hfor & _).
    specialize (Hfor (lensym_code y)). assert (lensym_code y <= 18)%nat by (destruct y; simpl in *; lia). specialize (Hfor ltac:(done) Hy). lia. }
  rewrite (decode_lengths_tree _ _ _ _ _ E Hm). destruct Hst as (Ht320 & _).
  destruct (lengths_reads lt cl Hfor ys (S (length lit + length dist)) [] table (set_trees d lt (dtree d)) rest _ (length lit + length dist)
    Hys He) as (d1 & table' & E1 & R1 & S1 & Hl1 & Ht1); [by rewrite length_app|lia|done|done|done|simpl; lia|].
  change (Z.of_nat (length [])) with 0 in E1. rewrite (bind_Ret _ _ _ _ _ E1). cbn [negb Z.eqb TINF_OK].
  destruct (load_eob lit dist table' Ht1 ltac:(lia)) as (e & Ee & Ee'). rewrite (bind_Ret _ _ _ _ _ (of_option_Ret _ _ _ Ee)).
  unfold code_len in Heob. rewrite Ee' in Heob. simpl in Heob. rewrite (proj2 (Z.eqb_neq _ _)) by lia.
  pose proof R1 as (Hi1 & (Hd1 & Hlt1 & Hdt1) & _).
  destruct (build_both_spec lt table' lit dist d1) as (d2 & res & E2 & Hres); [done|by rewrite Hdt1| |lia|lia|done|].
  { by eapply expand_range. }
  destruct Hres as [[_ ?]|(-> & _ & _ & Hf1 & Hf2 & Ed2)]; [tauto|]. exists d2. split; [done|]. split; [done|]. split; [done|].
  apply (reads_trees _ _ _ (ltree d2) (dtree d2)) in R1. rewrite <- Ed2 in R1. split; [done|]. by rewrite Ed2.
Qed.

Lemma decode_lengths_any cl lit dist table d :
  typed (ltree d) -> typed (dtree d) -> starts table cl -> (257 <= lit <= 286)%nat -> (1 <= dist <= 30)%nat -> inv d ->
  exists d' res, decode_lengths (Z.of_nat lit) (Z.of_nat dist) table d = Ret d' res /\
    (res = TINF_DATA_ERROR \/ res = TINF_OK /\ accepted cl /\ exists ys ls ds, Forall (lensym_ok cl) ys /\
      expand_lens [] ys = Some (ls ++ ds) /\ length ls = lit /\ length ds = dist /\ accepted ls /\ accepted ds /\
      (0 < code_len ls 256)%nat /\ tree_for 285 (ltree d') ls /\ tree_for 29 (dtree d') ds /\
      takes (set_trees d (ltree d') (dtree d')) (flat_map (lensym_bits cl) ys) d').
Proof.
  intros Hlt Hdt Hst Hl Hd Hi.
  destruct (starts_tree table cl _ Hst Hlt) as (lt & res & E & Hty & [(-> & Hacc & Hfor)|[-> ?]]).
  2:{ unfold decode_lengths. rewrite (bind_Ret _ _ _ _ _ (read_ltree d)), (bind_Ret _ _ _ _ _ (of_option_Ret _ _ _ E)).
      rewrite (bind_Ret _ _ _ _ _ (set_ltree_Ret lt d)). eexists _, _. split; [done|]. by left. }
  destruct (decide (max_sym lt = -1)) as [Em|Hm].
  { unfold decode_lengths. rewrite (bind_Ret _ _ _ _ _ (read_ltree d)), (bind_Ret _ _ _ _ _ (of_option_Ret _ _ _ E)).
    rewrite (bind_Ret _ _ _ _ _ (set_ltree_Ret lt d)), Em. eexists _, _. split; [done|]. by left. }
  rewrite (decode_lengths_tree _ _ _ _ _ E Hm). destruct Hst as (Ht320 & _ & Hcl & _).
  destruct (lengths_any lt cl Hfor (S (lit + dist)) [] table (set_trees d lt (dtree d)) (lit + dist)) as (d1 & table' & res & E1 & Hres);
    [done|done|simpl; lia|done|done|simpl; lia|]. change (Z.of_nat (length [])) with 0 in E1. rewrite (bind_Ret _ _ _ _ _ E1).
  destruct Hres as [->|(-> & ys & full & Hys & He & Hfull & T1 & Hl1 & Ht1)]; [eexists _, _; split; [done|]; by left|].
  cbn [negb Z.eqb TINF_OK].
  assert (exists ls ds, full = ls ++ ds /\ length ls = lit /\ length ds = dist) as (ls & ds & -> & <- & <-).
  { exists (take lit full), (drop lit full). rewrite take_drop, length_take, length_drop. split_and!; [done|lia|lia]. }
  destruct (load_eob ls ds table' Ht1 ltac:(lia)) as (e & Ee & Ee'). rewrite (bind_Ret _ _ _ _ _ (of_option_Ret _ _ _ Ee)).
  destruct (e =? 0) eqn:E0; [eexists _, _; split; [done|]; by left|apply Z.eqb_neq in E0].
  pose proof (expand_range _ _ _ _ Hys ltac:(constructor) He) as HF. pose proof T1 as (Hi1 & (Hd1 & Hlt1 & Hdt1) & _).
  assert (Hc : (0 < code_len ls 256)%nat).
  { unfold code_len. rewrite Ee'. simpl. apply Forall_app in HF as [HF _]. eapply Forall_lookup_1 in HF; [|exact Ee']. simpl in HF. lia. }
  destruct (build_both_spec lt table' ls ds d1) as (d2 & res & E2 & Hres); [done|by rewrite Hdt1|done|lia|lia|done|].
  exists d2, res. split; [done|]. destruct Hres as [[-> _]|(-> & Ha1 & Ha2 & Hf1 & Hf2 & Ed2)]; [by left|right]. split; [done|]. split; [done|].
  exists ys, ls, ds. split_and!; try done. apply (takes_trees _ _ _ (ltree d2) (dtree d2)) in T1. by rewrite <- Ed2 in T1.
Qed.

(** ** The header *)

Lemma order_all i : (i < 19)%nat -> i ∈ order.
Proof. intros Hi. do 19 (destruct i as [|i]; [set_solver|]). lia. Qed.

Lemma order_small n : Forall (fun i => (i < 320)%nat) (take n order).
Proof. apply Forall_take. unfold order. repeat constructor; lia. Qed.

Lemma order_distinct : NoDup order.
Proof. apply (bool_decide_unpack (NoDup order)). by vm_compute. Qed.
Lemma order_nodup n : NoDup (take n order).
Proof. eapply sublist_NoDup; [apply order_distinct|]. apply sublist_take. Qed.

Lemma clcidx_order n : take n clcidx = Z.of_nat <$> take n order.
Proof. rewrite fmap_take. done. Qed.

Definition fresh (junk : Z) : list Z := replicate 19 0 ++ replicate 301 junk.

Lemma fresh_length junk : length (fresh junk) = 320%nat.
Proof. done. Qed.
Lemma fresh_zero junk i : (i < 19)%nat -> fresh junk !! i = Some 0.
Proof. intros Hi. unfold fresh. rewrite lookup_app_l by (rewrite length_replicate; lia). by apply lookup_replicate_2. Qed.

(** The table after the code length codes are read. *)
Lemma final_starts junk n cl final :
  length cl = 19%nat -> Forall (fun l => 0 <= l < 8) cl -> (forall i, i ∈ drop n order -> cl !! i = Some 0) -> length final = 320%nat ->
  (forall i, i ∈ take n order -> final !! i = Some (default 0 (cl !! i))) ->
  (forall i, i ∉ take n order -> final !! i = fresh junk !! i) -> starts final cl.
Proof.
  intros Hcl HF Hz Hl Hin Hout. split_and!; try done. apply list_eq_same_length with 19%nat; [done|rewrite length_take; lia|].
  intros i x y Hi Hx Hy. rewrite lookup_take_lt in Hx by done. destruct (decide (i ∈ take n order)) as [Hi'|Hi'].
  - rewrite Hin, Hy in Hx by done. simpl in Hx. congruence.
  - rewrite Hout, fresh_zero in Hx by done. rewrite Hz in Hy; [congruence|]. pose proof (order_all i Hi) as Ho.
    rewrite <- (take_drop n order), elem_of_app in Ho. tauto.
Qed.

Lemma decode_trees_reads junk h lit dist d rest :
  typed (ltree d) -> typed (dtree d) -> header_ok h lit dist -> (hdist h <= 30)%nat -> inv d -> stream d = header_bits h ++ rest ->
  exists d', tinf_decode_trees junk d = Ret d' TINF_OK /\ tree_for 285 (ltree d') lit /\ tree_for 29 (dtree d') dist /\
    reads (set_trees d (ltree d') (dtree d')) (header_bits h) d' /\ stream d' = rest.
Proof.
  intros Hlt Hdt (Hl & Hd & Hc & Hcl & HF & Hz & Hacl & Hys & He & Ell & Edl & Ha1 & Ha2 & Heob) H30 Hi Hs.
  unfold header_bits in *. rewrite <- !app_assoc in Hs. unfold tinf_decode_trees.
  destruct (getbits_base_reads 5 257 (Z.of_nat (hlit h) - 257) d _ Hi ltac:(lia) ltac:(change (2 ^ Z.of_nat 5) with 32; lia) Hs) as (d1 & E1 & R1 & S1).
  change (Z.of_nat 5) with 5 in E1. rewrite (bind_Ret _ _ _ _ _ E1). apply reads_inv in R1 as Hi1.
  destruct (getbits_base_reads 5 1 (Z.of_nat (hdist h) - 1) d1 _ Hi1 ltac:(lia) ltac:(change (2 ^ Z.of_nat 5) with 32; lia) S1) as (d2 & E2 & R2 & S2).
  change (Z.of_nat 5) with 5 in E2. rewrite (bind_Ret _ _ _ _ _ E2). apply reads_inv in R2 as Hi2.
  destruct (getbits_base_reads 4 4 (Z.of_nat (hclen h) - 4) d2 _ Hi2 ltac:(lia) ltac:(change (2 ^ Z.of_nat 4) with 16; lia) S2) as (d3 & E3 & R3 & S3).
  change (Z.of_nat 4) with 4 in E3. rewrite (bind_Ret _ _ _ _ _ E3). apply reads_inv in R3 as Hi3.
  rewrite (proj2 (Z.ltb_ge _ _)), (proj2 (Z.ltb_ge _ _)) by lia. cbn [orb].
  replace (Z.to_nat (4 + _)) with (hclen h) by lia. rewrite clcidx_order. fold (fresh junk).
  destruct (clen_reads (fun i => default 0 (hcl h !! i)) (take (hclen h) order) (fresh junk) d3
    (flat_map (lensym_bits (hcl h)) (hsyms h) ++ rest) (order_nodup _) (order_small _))
    as (d4 & final & E4 & R4 & S4 & Hl4 & Hin & Hout); [|done|exact S3|].
  { intros i _. destruct (hcl h !! i) as [x|] eqn:Ex; simpl; [|lia]. exact (Forall_lookup_1 _ _ _ _ HF Ex). }
  rewrite (bind_Ret _ _ _ _ _ E4). pose proof (final_starts junk _ _ _ Hcl HF Hz Hl4 Hin Hout) as Hst.
  pose proof (reads_app _ _ _ _ _ R1 (reads_app _ _ _ _ _ R2 (reads_app _ _ _ _ _ R3 R4))) as R.
  pose proof R as (Hi4 & (_ & Hlt4 & Hdt4) & _).
  replace (257 + (Z.of_nat (hlit h) - 257)) with (Z.of_nat (length lit)) by lia.
  replace (1 + (Z.of_nat (hdist h) - 1)) with (Z.of_nat (length dist)) by lia.
  destruct (decode_lengths_reads (hcl h) (hsyms h) lit dist final d4 rest) as (d5 & E5 & T1 & T2 & R5 & S5); try done || lia;
    [by rewrite Hlt4|by rewrite Hdt4|].
  exists d5. split; [done|]. split; [done|]. split; [done|]. split; [|done].
  apply (reads_trees _ _ _ (ltree d5) (dtree d5)) in R. pose proof (reads_app _ _ _ _ _ R R5) as R'. by rewrite <- !app_assoc in R'.
Qed.

Lemma clen_starts junk n d :
  inv d ->
  exists d' final cl, clen_loop (take n clcidx) (fresh junk) d = Ret d' final /\
    takes d (flat_map (fun i => bits_of 3 (default 0 (cl !! i))) (take n order)) d' /\ starts final cl /\
    (forall i, i ∈ drop n order -> cl !! i = Some 0).
Proof.
  intros Hi. rewrite clcidx_order.
  destruct (clen_any (take n order) (fresh junk) d (order_nodup _) (order_small _) Hi) as (d' & final & E & T & Hl & Hin & Hout).
  assert (H19 : Forall (fun i => (i < 19)%nat) order) by (unfold order; repeat constructor; lia). rewrite Forall_forall in H19.
  pose proof order_distinct as Hnd. rewrite <- (take_drop n order), NoDup_app in Hnd.
  assert (Hord : forall i, i ∈ take n order \/ i ∈ drop n order -> (i < 19)%nat).
  { intros i Hi'. apply H19. rewrite <- (take_drop n order), elem_of_app. done. }
  assert (Ecl : forall i, (i < 19)%nat -> take 19 final !! i = final !! i) by (intros; by rewrite lookup_take_lt).
  exists d', final, (take 19 final). split; [done|]. split.
  { replace (flat_map _ (take n order)) with (flat_map (fun i => bits_of 3 (default 0 (final !! i))) (take n order)); [done|].
    apply flat_map_same. intros i Hi'. rewrite Ecl by auto. done. }
  split; [split_and!; [by rewrite Hl, fresh_length|done|rewrite length_take, Hl, fresh_length; done|]|].
  - apply Forall_lookup. intros i x Hx. pose proof (lookup_lt_Some _ _ _ Hx) as Hlt. rewrite length_take in Hlt. rewrite Ecl in Hx by lia.
    destruct (decide (i ∈ take n order)) as [Hi'|Hi']; [destruct (Hin i Hi') as (v & Ev & Hv); congruence|].
    rewrite Hout, fresh_zero in Hx by (done || lia). injection Hx as <-. lia.
  - intros i Hi'. rewrite Ecl, Hout by auto || (destruct Hnd as (_ & Hnd & _); intros Hni; exact (Hnd i Hni Hi')). apply fresh_zero. auto.
Qed.

Lemma decode_trees_any junk d :
  typed (ltree d) -> typed (dtree d) -> inv d ->
  exists d' res, tinf_decode_trees junk d = Ret d' res /\
    (res = TINF_DATA_ERROR \/ res = TINF_OK /\ exists h lit dist, header_ok h lit dist /\ (hdist h <= 30)%nat /\
      tree_for 285 (ltree d') lit /\ tree_for 29 (dtree d') dist /\ takes (set_trees d (ltree d') (dtree d')) (header_bits h) d').
Proof.
  intros Hlt Hdt Hi. unfold tinf_decode_trees.
  destruct (getbits_base_any 5 257 d Hi ltac:(lia)) as (d1 & e1 & E1 & T1 & H1). change (Z.of_nat 5) with 5 in E1.
  change (2 ^ Z.of_nat 5) with 32 in H1. rewrite (bind_Ret _ _ _ _ _ E1). apply takes_inv in T1 as Hi1.
  destruct (getbits_base_any 5 1 d1 Hi1 ltac:(lia)) as (d2 & e2 & E2 & T2 & H2). change (Z.of_nat 5) with 5 in E2.
  change (2 ^ Z.of_nat 5) with 32 in H2. rewrite (bind_Ret _ _ _ _ _ E2). apply takes_inv in T2 as Hi2.
  destruct (getbits_base_any 4 4 d2 Hi2 ltac:(lia)) as (d3 & e3 & E3 & T3 & H3). change (Z.of_nat 4) with 4 in E3.
  change (2 ^ Z.of_nat 4) with 16 in H3. rewrite (bind_Ret _ _ _ _ _ E3). apply takes_inv in T3 as Hi3.
  destruct ((286 <? 257 + e1) || (30 <? 1 + e2)) eqn:E0; [eexists _, _; split; [done|]; by left|].
  apply orb_false_iff in E0 as [A1%Z.ltb_ge A2%Z.ltb_ge]. fold (fresh junk). set (n := Z.to_nat (4 + e3)).
  destruct (clen_starts junk n d3 Hi3) as (d4 & final & cl & E4 & T4 & Hst & Hz). rewrite (bind_Ret _ _ _ _ _ E4).
  pose proof (takes_app _ _ _ _ _ T1 (takes_app _ _ _ _ _ T2 (takes_app _ _ _ _ _ T3 T4))) as T.
  pose proof T as (Hi4 & (_ & Hlt4 & Hdt4) & _).
  destruct (decode_lengths_any cl (Z.to_nat (257 + e1)) (Z.to_nat (1 + e2)) final d4) as (d5 & res & E5 & Hres);
    [by rewrite Hlt4|by rewrite Hdt4|done|lia|lia|done|]. rewrite !Z2Nat.id in E5 by lia.
  exists d5, res. split; [done|].
  destruct Hres as [?|(-> & Hacl & ys & ls & ds & Hys & He & Ell & Edl & Ha1 & Ha2 & Heob & Hf1 & Hf2 & T5)]; [by left|right]. split; [done|].
  exists (MkHeader (length ls) (length ds) n cl ys), ls, ds. split; [unfold header_ok; cbn [hlit hdist hclen hcl hsyms]; destruct Hst as (_ & _ & ? & ?); split_and!; done || lia|]. split; [cbn [hdist]; lia|].
  split; [done|]. split; [done|]. apply (takes_trees _ _ _ (ltree d5) (dtree d5)) in T. pose proof (takes_app _ _ _ _ _ T T5) as T'.
  unfold header_bits. cbn [hlit hdist hclen hcl hsyms]. rewrite <- !app_assoc in T'.
  replace (Z.of_nat (length ls) - 257) with e1 by lia. replace (Z.of_nat (length ds) - 1) with e2 by lia.
  replace (Z.of_nat n - 4) with e3 by lia. done.
Qed.
End InflateHeader.
