(* ===== verification/InflateStream.v ===== *)
(** * Stored blocks and streams

    [tinf_uncompress] reads the blocks of a stream; on any other bytes it returns an
    error, unless a stored block is longer than the bytes left: it reads on past the end
    of the source then. *)

From S2P Require Import Prelude Effects Inflate InflateBits InflateTree InflateBuild Deflate InflateBlock InflateHeader.

Module InflateStream.
Import Effects Inflate InflateBits InflateTree InflateBuild Deflate InflateBlock InflateHeader.
Open Scope Z_scope.

Abbreviation bytes_bits := (flat_map (bits_of 8)).
Definition is_byte (b : Z) : Prop := 0 <= b < 256.

(** ** Bytes *)

Lemma bits_of_mod n x y : x mod 2 ^ Z.of_nat n = y mod 2 ^ Z.of_nat n -> bits_of n x = bits_of n y.
Proof.
  intros H. rewrite <- (bits_val (bits_of n x)), <- (bits_val (bits_of n y)), !bits_of_length, !val_mod. by rewrite H.
Qed.

Lemma bytes_bits_app s s' : bytes_bits (s ++ s') = bytes_bits s ++ bytes_bits s'.
Proof. induction s as [|b s IH]; [done|]. cbn [flat_map app]. by rewrite IH, app_assoc. Qed.

Lemma bytes_bits_length s : length (bytes_bits s) = (8 * length s)%nat.
Proof. induction s as [|b s IH]; [done|]. cbn [flat_map]. rewrite length_app, IH, bits_of_length. cbn [length]. lia. Qed.

Lemma bytes_first s x l :
  Forall is_byte s -> bytes_bits s = bits_of 8 x ++ l -> exists s', s = x mod 256 :: s' /\ bytes_bits s' = l /\ Forall is_byte s'.
Proof.
  intros Hs E. destruct Hs as [|b s Hb Hs]; [done|]. cbn [flat_map] in E.
  apply app_inj_1 in E as [E1 E2]; [|by rewrite !bits_of_length]. exists s. split; [|done]. f_equal.
  pose proof (f_equal val E1) as E. rewrite !val_mod in E. change (2 ^ Z.of_nat 8) with 256 in E.
  unfold is_byte in Hb. rewrite Z.mod_small in E by lia. done.
Qed.

Lemma bytes_prefix bs s l :
  Forall is_byte s -> Forall is_byte bs -> bytes_bits s = bytes_bits bs ++ l ->
  exists s', s = bs ++ s' /\ bytes_bits s' = l /\ Forall is_byte s'.
Proof.
  intros Hs Hbs. revert s Hs. induction Hbs as [|b bs Hb _ IH]; intros s Hs E; [by exists s|].
  cbn [flat_map] in E. rewrite <- app_assoc in E. destruct (bytes_first s b _ Hs E) as (s1 & -> & E1 & Hs1).
  destruct (IH s1 Hs1 E1) as (s2 & -> & E2 & Hs2). exists s2. unfold is_byte in Hb. rewrite Z.mod_small by lia. done.
Qed.

Lemma le16_bytes n : le16 n = bits_of 8 n ++ bits_of 8 (n / 256).
Proof. unfold le16. change 16%nat with (8 + 8)%nat. rewrite bits_of_split. done. Qed.

Lemma read_le16_spec b0 b1 s : is_byte b0 -> is_byte b1 -> read_le16 (b0 :: b1 :: s) = Some (b0 + 256 * b1).
Proof.
  unfold is_byte. intros H0 H1. cbn [read_le16]. f_equal. rewrite Z.shiftl_mul_pow2, Z.lor_comm, lor_shift by lia.
  change (2 ^ 8) with 256. lia.
Qed.

Lemma complement x : 0 <= x < 2 ^ 16 -> Z.land (u32 (Z.lnot x)) 0xFFFF = 2 ^ 16 - 1 - x.
Proof.
  change (2 ^ 16) with 65536. intros Hx. change 0xFFFF with (Z.ones 16). rewrite Z.land_ones by lia. unfold Z.lnot, wrap.
  change (2 ^ 32) with 4294967296. change (2 ^ 16) with 65536.
  replace (Z.pred (- x)) with (4294967295 - x + (-1) * 4294967296) by lia. rewrite Z.mod_add, (Z.mod_small (4294967295 - x)) by lia.
  replace (4294967295 - x) with (65535 - x + 65535 * 65536) by lia. by rewrite Z.mod_add, Z.mod_small by lia.
Qed.

Lemma le16_join n : 0 <= n < 2 ^ 16 -> n mod 256 + 256 * ((n / 256) mod 256) = n.
Proof. intros Hn. rewrite (Z.mod_small (n / 256)) by (split; [apply Z.div_pos; lia|apply Z.div_lt_upper_bound; lia]). pose proof (Z.div_mod n 256 ltac:(lia)). lia. Qed.

Lemma join_div a b : is_byte a -> (a + 256 * b) mod 256 = a mod 256 /\ (a + 256 * b) / 256 = b.
Proof.
  intros Ha. unfold is_byte in Ha. rewrite Z.mul_comm, Z.mod_add, Z.div_add, Z.div_small by lia. lia.
Qed.

(** ** Staying in the source *)

(** Everything but the copy of a stored block stops at the end of the source. *)
Definition stays {A} (m : M A) : Prop := forall d,
  match m d with Ret d' _ | Throw d' _ => over d' = over d | Stuck => True end.

Create HintDb stays.

Lemma stays_bind {A B} (m : M A) (k : A -> M B) : stays m -> (forall a, stays (k a)) -> stays (m ≫= k).
Proof.
  intros Hm Hk d. specialize (Hm d). unfold mbind, st_bind, obind. destruct (m d) as [d1 a| |]; [|done..].
  specialize (Hk a d1). destruct (k a d1); congruence.
Qed.

Section primitives.
Context {A : Type}.
Lemma stays_ret (a : A) : stays (mret a : M A). Proof. done. Qed.
Lemma stays_read (f : tinf_data -> A) : stays (read f). Proof. done. Qed.
Lemma stays_option (o : option A) : stays (of_option o). Proof. by destruct o. Qed.
Lemma stays_stuck : stays (@stuck A). Proof. done. Qed.
End primitives.
Lemma stays_ltree t : stays (set_ltree t). Proof. done. Qed.
Lemma stays_dtree t : stays (set_dtree t). Proof. done. Qed.
Lemma stays_put c : stays (put c). Proof. done. Qed.
Lemma stays_getbits n : stays (tinf_getbits_no_refill n). Proof. done. Qed.
#[export] Hint Resolve stays_ret stays_read stays_option stays_stuck stays_ltree stays_dtree stays_put stays_getbits : stays.

Ltac stay := repeat first [progress intros | solve [auto with stays] | apply stays_bind | case_match].

Lemma refill_stays fuel num : stays (refill_loop fuel num).
Proof.
  induction fuel as [|fuel IH]; intros d; cbn [refill_loop]; [done|]. destruct (bitcount d <? num); [|done].
  destruct (source d); [destruct (over d) eqn:E; [done|]|]; match goal with |- context [refill_loop _ _ ?x] => specialize (IH x) end;
    destruct (refill_loop _ _ _); cbn [set_bits over] in IH; congruence.
Qed.
#[export] Hint Resolve refill_stays : stays.

Lemma getbits_stays n : stays (tinf_getbits n).
Proof. unfold tinf_getbits, tinf_refill. stay. Qed.
#[export] Hint Resolve getbits_stays : stays.

Lemma base_stays n base : stays (tinf_getbits_base n base).
Proof. unfold tinf_getbits_base. stay. Qed.
#[export] Hint Resolve base_stays : stays.

Lemma symbol_loop_stays fuel t len base offs : stays (symbol_loop fuel t len base offs).
Proof. revert len base offs. induction fuel; cbn [symbol_loop]; stay. Qed.
Lemma symbol_stays t : stays (tinf_decode_symbol t).
Proof. apply symbol_loop_stays. Qed.
#[export] Hint Resolve symbol_stays : stays.

Lemma clen_stays idx lengths : stays (clen_loop idx lengths).
Proof. revert lengths. induction idx; cbn [clen_loop]; stay. Qed.
Lemma lengths_stays fuel lt total num lengths : stays (lengths_loop fuel lt total num lengths).
Proof. revert num lengths. induction fuel; cbn [lengths_loop]; unfold run_length; stay. Qed.
#[export] Hint Resolve clen_stays lengths_stays : stays.

Lemma copy_stays n offs : stays (copy_loop n offs).
Proof. induction n; cbn [copy_loop]; stay. Qed.
#[export] Hint Resolve copy_stays : stays.

Lemma block_stays fuel lt dt : stays (block_loop fuel lt dt).
Proof. induction fuel; cbn [block_loop]; unfold match_symbol; cbv zeta; stay. Qed.
#[export] Hint Resolve block_stays : stays.

(** Blocks other than stored ones. *)
Lemma inflate_block_stays junk btype : btype <> 0 -> stays (inflate_block junk btype).
Proof.
  intros H. unfold inflate_block. rewrite (proj2 (Z.eqb_neq _ _) H).
  unfold tinf_inflate_fixed_block, tinf_inflate_dynamic_block, tinf_inflate_block_data, tinf_decode_trees, decode_lengths. stay.
Qed.

(** Nothing past the end is read in a block that is not stored. *)
Lemma block_stays_in junk btype d d' res :
  inv d -> btype <> 0 -> inflate_block junk btype d = Ret d' res -> over d' = false.
Proof. intros Hi Hb E. pose proof (inflate_block_stays junk btype Hb d) as H. rewrite E in H. rewrite H. apply Hi. Qed.

(** ** Stored blocks *)

(** [d] with the source and the data replaced. *)
Definition set_io (d : tinf_data) (s out : list Z) : tinf_data :=
  MkData s (tag d) (bitcount d) (overflow d) out (ltree d) (dtree d) (after d) (over d).

Lemma stored_copy bs d s :
  source d = bs ++ s -> stored_loop (length bs) d = Ret (set_io d s (dest d ++ bs)) tt.
Proof.
  revert d. induction bs as [|b bs IH]; intros d E; cbn [length stored_loop].
  - rewrite app_nil_r. simpl in E. rewrite <- E. by destruct d.
  - unfold next_byte, mbind, st_bind, obind. rewrite E. cbn [app]. unfold put. cbn [source set_bits].
    rewrite IH by done. unfold set_io. cbn [dest tag bitcount overflow ltree dtree after over set_bits]. by rewrite <- app_assoc.
Qed.

(** The state after a stored block. *)
Definition stored_end (d : tinf_data) (s out : list Z) : tinf_data :=
  MkData s 0 0 (overflow d) out (ltree d) (dtree d) (after d) (over d).

Lemma stored_end_ok d s out : over d = false -> Forall is_byte s -> (overflow d = true -> s = []) ->
  inv (stored_end d s out) /\ stream (stored_end d s out) = bytes_bits s.
Proof.
  intros Hov Hs Ho. split; [|done]. split; [|done]. unfold filled, stored_end. cbn [bitcount tag source overflow over]. by split_and!.
Qed.

(** The four bytes of the lengths. *)
Lemma stored_header (d : tinf_data) b0 b1 c0 c1 s :
  over d = false -> source d = b0 :: b1 :: c0 :: c1 :: s -> Forall is_byte (source d) ->
  tinf_inflate_uncompressed_block d =
  if b0 + 256 * b1 =? 2 ^ 16 - 1 - (c0 + 256 * c1)
  then (_ ← stored_loop (Z.to_nat (b0 + 256 * b1)); _ ← drop_bits; mret TINF_OK) (set_io d s (dest d))
  else Ret d TINF_DATA_ERROR.
Proof.
  intros Hov E Hb. rewrite E in Hb. repeat match goal with H : Forall _ (_ :: _) |- _ => apply Forall_cons in H as [? H] end.
  unfold tinf_inflate_uncompressed_block. rewrite (bind_Ret (read source) _ d d (source d)), (bind_Ret (read over) _ d d (over d)) by done. rewrite E, Hov. cbn [orb].
  rewrite (proj2 (Z.ltb_ge _ _)) by (cbn [length]; lia). rewrite read_le16_spec by done. cbn [drop]. rewrite read_le16_spec by done.
  rewrite (bind_Ret (of_option (Some _)) _ d d _ eq_refl), (bind_Ret (of_option (Some _)) _ d d _ eq_refl).
  unfold is_byte in *. rewrite complement by lia. destruct (b0 + 256 * b1 =? _) eqn:E1; cbn [negb]; [|done].
  rewrite (bind_Ret (set_source _) _ d (set_io d s (dest d)) tt); [done|]. by destruct d.
Qed.

Lemma stored_short d : (length (source d) < 4)%nat -> tinf_inflate_uncompressed_block d = Ret d TINF_DATA_ERROR.
Proof.
  intros H. unfold tinf_inflate_uncompressed_block. rewrite (bind_Ret (read source) _ d d (source d)), (bind_Ret (read over) _ d d (over d)) by done.
  by rewrite (proj2 (Z.ltb_lt _ _)), orb_true_r by lia.
Qed.

Lemma stored_done d bs s :
  source d = bs ++ s -> (_ ← stored_loop (length bs); _ ← drop_bits; mret TINF_OK) d = Ret (stored_end d s (dest d ++ bs)) TINF_OK.
Proof. intros E. rewrite (bind_Ret _ _ _ _ _ (stored_copy bs d s E)). done. Qed.

Lemma stored_reads pad bs d rest :
  inv d -> zlen pad = bitcount d -> Forall is_byte bs -> zlen bs < 2 ^ 16 -> overflow d = false ->
  stream d = block_body (Stored pad bs) ++ rest ->
  exists s, tinf_inflate_uncompressed_block d = Ret (stored_end d s (dest d ++ bs)) TINF_OK /\ Forall is_byte s /\ bytes_bits s = rest.
Proof.
  intros [(H0 & Ht & Hs & Ho & Hov) H8] Hpad Hbs Hlen Hno Est. cbn [block_body] in Est. rewrite <- !app_assoc in Est. unfold stream in Est.
  apply app_inj_1 in Est as [_ Est]; [|rewrite bits_of_length; lia]. rewrite !le16_bytes, <- !app_assoc in Est.
  set (n := zlen bs) in *. assert (0 <= n) by lia.
  destruct (bytes_first _ _ _ Hs Est) as (s1 & E1 & B1 & Hs1). destruct (bytes_first _ _ _ Hs1 B1) as (s2 & E2 & B2 & Hs2).
  destruct (bytes_first _ _ _ Hs2 B2) as (s3 & E3 & B3 & Hs3). destruct (bytes_first _ _ _ Hs3 B3) as (s4 & E4 & B4 & Hs4).
  destruct (bytes_prefix bs s4 rest Hs4 Hbs B4) as (s & -> & B5 & Hs5). exists s. split; [|done].
  rewrite E2, E3, E4 in E1. rewrite (stored_header d _ _ _ _ _ Hov E1 Hs), !le16_join, (proj2 (Z.eqb_eq _ _)) by lia. unfold n. rewrite Nat2Z.id.
  rewrite (stored_done (set_io d (bs ++ s) (dest d)) bs s) by done. done.
Qed.

Lemma stored_any d :
  inv d ->
  let pad := bits_of (Z.to_nat (bitcount d)) (tag d) in
  overflow d = false /\ (exists n tail, 0 <= n < 2 ^ 16 /\ stream d = pad ++ le16 n ++ le16 (2 ^ 16 - 1 - n) ++ tail /\ zlen tail < 8 * n) \/
  exists d' res, tinf_inflate_uncompressed_block d = Ret d' res /\ over d' = false /\
    (res = TINF_DATA_ERROR \/ res = TINF_OK /\ overflow d = false /\ exists bs s, Forall is_byte bs /\ zlen bs < 2 ^ 16 /\
      Forall is_byte s /\ d' = stored_end d s (dest d ++ bs) /\ stream d = block_body (Stored pad bs) ++ bytes_bits s).
Proof.
  intros [(H0 & Ht & Hs & Ho & Hov) H8] pad.
  destruct (decide (length (source d) < 4)%nat) as [Hlt|Hge]; [right; rewrite stored_short by done; eauto 6|].
  destruct (source d) as [|b0 [|b1 [|c0 [|c1 s]]]] eqn:E; try (simpl in Hge; lia). rewrite <- E in Hs.
  rewrite (stored_header d _ _ _ _ _ Hov E Hs).
  destruct (b0 + 256 * b1 =? 2 ^ 16 - 1 - (c0 + 256 * c1)) eqn:E1; [apply Z.eqb_eq in E1|right; eauto 6].
  assert (Hno : overflow d = false) by (destruct (overflow d); [by specialize (Ho eq_refl)|done]).
  rewrite E in Hs. repeat match goal with H : Forall _ (_ :: _) |- _ => apply Forall_cons in H as [? H] end. unfold is_byte in *.
  assert (Est : stream d = pad ++ le16 (b0 + 256 * b1) ++ le16 (2 ^ 16 - 1 - (b0 + 256 * b1)) ++ bytes_bits s).
  { unfold stream. rewrite E. fold pad. f_equal. rewrite !le16_bytes, <- !app_assoc.
    replace (2 ^ 16 - 1 - (b0 + 256 * b1)) with (c0 + 256 * c1) by lia. cbn [flat_map].
    destruct (join_div b0 b1) as [J1 ->]; [done|]. destruct (join_div c0 c1) as [J2 ->]; [done|].
    rewrite (bits_of_mod 8 (b0 + 256 * b1) b0 J1), (bits_of_mod 8 (c0 + 256 * c1) c0 J2). done. }
  destruct (decide (length s < Z.to_nat (b0 + 256 * b1))%nat) as [Hl|Hl].
  { left. split; [done|]. exists (b0 + 256 * b1), (bytes_bits s). split; [lia|]. split; [done|]. rewrite bytes_bits_length. lia. }
  set (bs := take (Z.to_nat (b0 + 256 * b1)) s). set (s' := drop (Z.to_nat (b0 + 256 * b1)) s).
  assert (Ebs : length bs = Z.to_nat (b0 + 256 * b1)) by (unfold bs; rewrite length_take; lia).
  rewrite <- Ebs, (stored_done (set_io d s (dest d)) bs s') by (cbn [source set_io]; unfold bs, s'; by rewrite take_drop).
  right. eexists _, _. split; [done|]. split; [done|]. right. split; [done|]. split; [done|]. exists bs, s'.
  split; [by apply Forall_take|]. split; [rewrite Ebs; lia|]. split; [by apply Forall_drop|]. split; [done|].
  rewrite Est. cbn [block_body]. assert (zlen bs = b0 + 256 * b1) as -> by lia.
  rewrite <- !app_assoc, <- (bytes_bits_app bs s'). unfold bs, s'. by rewrite take_drop.
Qed.

(** ** Blocks *)

Section junk.
Variable junk : Z.

Definition good (d : tinf_data) : Prop := inv d /\ typed (ltree d) /\ typed (dtree d).

(** The bits of a block are consumed and its data written. *)
Definition inflated (d : tinf_data) (b : block) (d' : tinf_data) : Prop :=
  good d' /\ overflow d' = false /\ stream d = block_body b ++ stream d' /\ expand_block (dest d) b = Some (dest d').

(** [pos] bits come before the block; all bits are those of bytes. *)
Definition aligned (pos : nat) (d : tinf_data) : Prop := ((pos + length (stream d)) mod 8 = 0)%nat.

Lemma aligned_bits pos d : inv d -> aligned pos d -> ((pos + Z.to_nat (bitcount d)) mod 8 = 0)%nat.
Proof.
  intros [(H0 & _) H8] Ha. unfold aligned, stream in Ha. rewrite length_app, bits_of_length, bytes_bits_length in Ha.
  by rewrite Nat.add_assoc, (Nat.mul_comm 8), Nat.Div0.mod_add in Ha.
Qed.

Lemma aligned_pad pos (pad : list bool) d :
  inv d -> aligned pos d -> (length pad < 8)%nat -> ((pos + length pad) mod 8 = 0)%nat -> zlen pad = bitcount d.
Proof.
  intros Hi Ha%aligned_bits Hl Hp; [|done]. destruct Hi as [(H0 & _) H8].
  apply Nat.Div0.div_exact in Ha, Hp. assert (Z.of_nat (length pad) = bitcount d); lia.
Qed.

Lemma good_trees lt dt ll dl d m n : tree_for m lt ll -> tree_for n dt dl -> inv d -> ltree d = lt -> dtree d = dt -> good d.
Proof. intros [Hl _] [Hd _] Hi <- <-. done. Qed.

Lemma wrote_inflated d l out d' : wrote d l out d' -> overflow d = false ->
  inv d' /\ overflow d' = false /\ stream d = l ++ stream d' /\ dest d' = out /\ ltree d' = ltree d /\ dtree d' = dtree d.
Proof. intros (H1 & (H2 & H2' & H2'') & H3 & H4) Ho. split_and!; try done. change (overflow d' = overflow d) in H4. congruence. Qed.

Lemma fixed_block_trees d :
  good d -> exists lt dt, tinf_inflate_fixed_block d = tinf_inflate_block_data lt dt (set_trees d lt dt) /\
    tree_for 285 lt fixed_lit /\ tree_for 29 dt fixed_dist.
Proof.
  intros (_ & Hl & Hd). pose proof (fixed_trees_for _ _ Hl Hd) as H. unfold tinf_inflate_fixed_block.
  rewrite (bind_Ret _ _ _ _ _ (read_ltree d)), (bind_Ret _ _ _ _ _ (read_dtree d)).
  destruct (tinf_build_fixed_trees (ltree d) (dtree d)) as [lt dt]. exists lt, dt. done.
Qed.

Lemma fixed_eob : (0 < code_len fixed_lit 256)%nat.
Proof. vm_compute. lia. Qed.

Lemma inflate_block_reads pos b d rest out :
  good d -> block_ok pos b -> few_dists b -> overflow d = false -> aligned (pos + 2) d -> stream d = block_body b ++ rest ->
  expand_block (dest d) b = Some out ->
  exists d', inflate_block junk (block_type b) d = Ret d' TINF_OK /\ inflated d b d' /\ stream d' = rest /\ dest d' = out.
Proof.
  intros Hg Hb H30 Ho Ha Hs He. pose proof Hg as (Hi & Hl & Hd).
  destruct b as [pad bs|ts|h lit dist ts]; cbn [block_type block_ok expand_block] in *; unfold inflate_block; cbn [Z.eqb Pos.eqb].
  - destruct Hb as (Hp & Hm & Hbs & Hlen). injection He as <-.
    destruct (stored_reads pad bs d rest Hi) as (s & E & Hsb & Es); [by eapply aligned_pad|done..|].
    destruct (stored_end_ok d s (dest d ++ bs) ltac:(apply Hi) Hsb) as [Hi' Hs']; [by rewrite Ho|]. eexists. split; [exact E|]. rewrite Hs', Es.
    split; [|done]. split; [done|]. split; [done|]. split; [by rewrite Hs', Es|done].
  - destruct (fixed_block_trees d Hg) as (lt & dt & E & Hlt & Hdt). rewrite E.
    destruct (block_data_reads lt dt _ _ Hlt Hdt fixed_eob ts (set_trees d lt dt) rest out Hb Hi Ho Hs He) as (d' & E' & W & S').
    destruct (wrote_inflated _ _ _ _ W Ho) as (Hi' & Ho' & Hst & Hde & Hl' & Hd'). exists d'. split; [done|]. split; [|done].
    split; [exact (good_trees _ _ _ _ _ _ _ Hlt Hdt Hi' Hl' Hd')|]. split; [done|]. split; [done|]. by rewrite Hde.
  - destruct Hb as [Hh Hts]. cbn [block_body] in Hs. rewrite <- app_assoc in Hs.
    destruct (decode_trees_reads junk h lit dist d _ Hl Hd Hh H30 Hi Hs) as (d1 & E1 & Hlt & Hdt & R1 & S1).
    unfold tinf_inflate_dynamic_block. rewrite (bind_Ret _ _ _ _ _ E1). cbn [negb Z.eqb TINF_OK].
    rewrite (bind_Ret _ _ _ _ _ (read_ltree d1)), (bind_Ret _ _ _ _ _ (read_dtree d1)).
    pose proof R1 as (Hi1 & (Hd1 & _) & Hs1 & Ho1). assert (Ho1' : overflow d1 = false) by by rewrite Ho1.
    assert (Heob : (0 < code_len lit 256)%nat) by apply Hh. change (dest d1 = dest d) in Hd1. rewrite <- Hd1 in He.
    destruct (block_data_reads _ _ _ _ Hlt Hdt Heob ts d1 rest out Hts Hi1 Ho1' S1 He) as (d' & E' & W & S').
    destruct (wrote_inflated _ _ _ _ W Ho1') as (Hi' & Ho' & Hst & Hde & Hl' & Hd'). exists d'. split; [done|]. split; [|done].
    split; [exact (good_trees _ _ _ _ _ _ _ Hlt Hdt Hi' Hl' Hd')|]. split; [done|]. rewrite Hde. split; [|by rewrite <- Hd1]. cbn [block_body].
    rewrite <- app_assoc, <- Hst. exact Hs1.
Qed.

Lemma took_inflated d l out d' : took d l out d' -> overflow d' = false ->
  inv d' /\ overflow d = false /\ stream d = l ++ stream d' /\ dest d' = out /\ ltree d' = ltree d /\ dtree d' = dtree d.
Proof.
  intros (H1 & (H2 & H2' & H2'') & H3 & H4) Ho. change (overflow d = true -> overflow d' = true) in H3.
  split_and!; try done; [|by apply H4]. destruct (overflow d); [by rewrite H3 in Ho|done].
Qed.

Lemma inflate_block_cases pos btype d :
  good d -> 0 <= btype < 4 -> (overflow d = false -> aligned (pos + 2) d) ->
  overflow d = false /\ cut_short pos (bits_of 2 btype ++ stream d) \/
  exists d' res, inflate_block junk btype d = Ret d' res /\ (btype = 0 -> over d' = false) /\
    (res = TINF_DATA_ERROR \/ res = TINF_OK /\ overflow d = false /\
      exists b, block_type b = btype /\ block_ok pos b /\ few_dists b /\ inflated d b d').
Proof.
  intros Hg Hb Ha. pose proof Hg as (Hi & Hl & Hd). unfold inflate_block.
  assert (btype = 0 \/ btype = 1 \/ btype = 2 \/ btype = 3) as [->|[->|[->| ->]]] by lia; cbn [Z.eqb Pos.eqb]; [..|right; eexists _, _; split; [done|]; by split; [|left]].
  - destruct (stored_any d Hi) as [(Ho & n & tail & Hn & Est & Htl)|(d' & res & E & Hov & H)].
    { left. split; [done|]. exists (bits_of (Z.to_nat (bitcount d)) (tag d)), n, tail. rewrite bits_of_length.
      pose proof Hi as [(H0 & _) H8]. split; [lia|]. split; [by apply aligned_bits, Ha|]. by rewrite Est. }
    right. exists d', res. split; [done|]. split; [done|].
    destruct H as [?|(-> & Ho & bs & s & Hbs & Hlen & Hsb & -> & Est)]; [by left|right]. split; [done|]. split; [done|].
    destruct (stored_end_ok d s (dest d ++ bs) ltac:(apply Hi) Hsb) as [Hi' Hs']; [by rewrite Ho|]. exists (Stored (bits_of (Z.to_nat (bitcount d)) (tag d)) bs). split; [done|].
    specialize (Ha Ho). pose proof Hi as [(H0 & _) H8]. split; [|split; [done|]].
    + cbn [block_ok]. rewrite bits_of_length. split; [lia|]. split; [by apply aligned_bits|done].
    + split; [done|]. split; [done|]. split; [by rewrite Hs'|done].
  - destruct (fixed_block_trees d Hg) as (lt & dt & E & Hlt & Hdt). rewrite E.
    destruct (block_data_any lt dt _ _ Hlt Hdt fixed_eob (set_trees d lt dt) Hi) as (d' & res & E' & Hres). rewrite E'. right. exists d', res. split; [done|]. split; [done|].
    destruct Hres as [?|(-> & Ho' & ts & out & Hts & He & W)]; [by left|right].
    destruct (took_inflated _ _ _ _ W Ho') as (Hi' & Ho & Hst & Hde & Hl' & Hd'). split; [done|]. split; [done|]. exists (Fixed ts).
    split; [done|]. split; [done|]. split; [done|]. split; [exact (good_trees _ _ _ _ _ _ _ Hlt Hdt Hi' Hl' Hd')|]. split; [done|]. split; [done|]. by rewrite Hde.
  - unfold tinf_inflate_dynamic_block. destruct (decode_trees_any junk d Hl Hd Hi) as (d1 & res & E1 & Hres). rewrite (bind_Ret _ _ _ _ _ E1).
    destruct Hres as [->|(-> & h & lit & dist & Hh & H30 & Hlt & Hdt & T1)]; [right; eexists _, _; split; [done|by split; [|left]]|]. cbn [negb Z.eqb TINF_OK].
    rewrite (bind_Ret _ _ _ _ _ (read_ltree d1)), (bind_Ret _ _ _ _ _ (read_dtree d1)). pose proof T1 as (Hi1 & (Hd1 & _) & Hm1 & Hs1).
    assert (Heob : (0 < code_len lit 256)%nat) by apply Hh.
    destruct (block_data_any _ _ _ _ Hlt Hdt Heob d1 Hi1) as (d' & res & E' & Hres). rewrite E'. right. exists d', res. split; [done|]. split; [done|].
    destruct Hres as [?|(-> & Ho' & ts & out & Hts & He & W)]; [by left|right].
    destruct (took_inflated _ _ _ _ W Ho') as (Hi' & Ho & Hst & Hde & Hl' & Hd'). split; [done|].
    split; [destruct (overflow d) eqn:Eo; [|done]; change (overflow d = true -> overflow d1 = true) in Hm1; by rewrite Hm1 in Ho|].
    exists (Dynamic h lit dist ts). split; [done|]. split; [done|]. split; [done|]. split; [exact (good_trees _ _ _ _ _ _ _ Hlt Hdt Hi' Hl' Hd')|]. split; [done|]. rewrite Hde.
    change (dest d1 = dest d) in Hd1. rewrite <- Hd1. split; [|done]. cbn [block_body]. rewrite <- app_assoc, <- Hst. by apply Hs1.
Qed.

Lemma inflate_block_any pos btype d :
  good d -> 0 <= btype < 4 -> (overflow d = false -> aligned (pos + 2) d) ->
  overflow d = false /\ cut_short pos (bits_of 2 btype ++ stream d) \/
  exists d' res, inflate_block junk btype d = Ret d' res /\ over d' = false /\
    (res = TINF_DATA_ERROR \/ res = TINF_OK /\ overflow d = false /\
      exists b, block_type b = btype /\ block_ok pos b /\ few_dists b /\ inflated d b d').
Proof.
  intros Hg Hb Ha. destruct (inflate_block_cases pos btype d Hg Hb Ha) as [?|(d' & res & E & H0 & H)]; [by left|right].
  exists d', res. split; [done|]. split; [|done]. destruct (decide (btype = 0)); [auto|]. eapply block_stays_in; [apply Hg|done|done].
Qed.

(** ** The stream *)

Lemma good_frame d d' : good d -> inv d' -> frame d d' -> good d'.
Proof. intros (_ & Hl & Hd) Hi (_ & E1 & E2). unfold good. by rewrite E1, E2. Qed.

Lemma aligned_reads pos d l d' : aligned pos d -> stream d = l ++ stream d' -> aligned (pos + length l) d'.
Proof. unfold aligned. intros Ha E. rewrite E, length_app in Ha. by rewrite <- Nat.add_assoc. Qed.

Lemma type_range b : 0 <= block_type b < 2 ^ Z.of_nat 2.
Proof. destruct b; simpl; lia. Qed.

(** The final bit and the type of a block. *)
Lemma block_start fuel (f : bool) b pos d rest :
  good d -> overflow d = false -> aligned pos d -> stream d = f :: block_bits b ++ rest ->
  exists d', good d' /\ overflow d' = false /\ aligned (pos + 1 + 2) d' /\ stream d' = block_body b ++ rest /\ dest d' = dest d /\
    uncompress_loop junk (S fuel) d =
    (res ← inflate_block junk (block_type b);
     if negb (res =? TINF_OK) then mret res
     else if Z.b2z f =? 0 then uncompress_loop junk fuel
     else o ← read overflow; if (o : bool) then mret TINF_DATA_ERROR else mret TINF_OK) d'.
Proof.
  intros Hg Ho Ha Hs. unfold block_bits in Hs. rewrite <- app_assoc in Hs. pose proof Hg as (Hi & _).
  destruct (getbits_reads 1 d [f] _ Hi ltac:(lia) Hs eq_refl) as (d1 & E1 & R1 & S1).
  destruct (getbits_reads 2 d1 _ _ (reads_inv _ _ _ R1) ltac:(lia) S1 eq_refl) as (d2 & E2 & R2 & S2).
  pose proof (reads_app _ _ _ _ _ R1 R2) as R. pose proof R as (Hi2 & Hf2 & Hst & Ho2). exists d2.
  split; [by eapply good_frame|]. split; [congruence|].
  split; [pose proof (aligned_reads _ _ _ _ Ha Hst) as H; rewrite length_app in H; by rewrite Nat.add_assoc in H|].
  split; [done|]. split; [apply Hf2|]. cbn [uncompress_loop].
  rewrite (bind_Ret _ _ _ _ _ E1), (bind_Ret _ _ _ _ _ E2), val_bits, val_bit by apply type_range. done.
Qed.

Lemma uncompress_reads pos out bs l out' :
  deflates pos out bs l out' -> Forall few_dists bs -> forall fuel d rest, (length bs <= fuel)%nat ->
  good d -> overflow d = false -> aligned pos d -> stream d = l ++ rest -> dest d = out ->
  exists d', uncompress_loop junk fuel d = Ret d' TINF_OK /\ dest d' = out' /\ stream d' = rest.
Proof.
  induction 1 as [pos out b out' Hb He|pos out b out1 bs l out' Hb He _ IH]; intros H30 fuel d rest Hf Hg Ho Ha Hs Hd; apply Forall_cons in H30 as [H30 H30s];
    (destruct fuel as [|fuel]; [simpl in Hf; lia|]).
  - destruct (block_start fuel true b pos d rest Hg Ho Ha Hs) as (d1 & Hg1 & Ho1 & Ha1 & Hs1 & Hd1 & E). rewrite E.
    rewrite <- Hd, <- Hd1 in He. destruct (inflate_block_reads _ b d1 rest out' Hg1 Hb H30 Ho1 Ha1 Hs1 He) as (d2 & E2 & (_ & Ho2 & _) & S2 & D2).
    rewrite (bind_Ret _ _ _ _ _ E2). cbn [negb Z.eqb TINF_OK Z.b2z Pos.eqb]. rewrite (bind_Ret _ _ _ _ _ (read_overflow d2)), Ho2.
    by exists d2.
  - cbn [app] in Hs. rewrite <- app_assoc in Hs.
    destruct (block_start fuel false b pos d _ Hg Ho Ha Hs) as (d1 & Hg1 & Ho1 & Ha1 & Hs1 & Hd1 & E). rewrite E.
    rewrite <- Hd, <- Hd1 in He. destruct (inflate_block_reads _ b d1 _ out1 Hg1 Hb H30 Ho1 Ha1 Hs1 He) as (d2 & E2 & (Hg2 & Ho2 & _) & S2 & D2).
    rewrite (bind_Ret _ _ _ _ _ E2). cbn [negb Z.eqb TINF_OK Z.b2z]. apply IH; [done|simpl in Hf; lia|done|done| |done|done].
    rewrite <- S2 in Hs1. pose proof (aligned_reads _ _ _ _ Ha1 Hs1) as H. unfold block_bits. rewrite length_app, bits_of_length.
    by rewrite Nat.add_assoc.
Qed.

(** The block that is too long comes first, or after another block. *)
Lemma overruns_here pos out f l : cut_short (pos + 1) l -> overruns_from pos out (f :: l).
Proof. intros H. exists [], [], out, f, l. split; [constructor|]. split; [done|]. split; [done|]. cbn [length]. by rewrite Nat.add_0_r. Qed.

Lemma overruns_more pos out b out1 l :
  block_ok (pos + 1) b -> few_dists b -> expand_block out b = Some out1 -> overruns_from (pos + 1 + length (block_bits b)) out1 l ->
  overruns_from pos out (false :: block_bits b ++ l).
Proof.
  intros Hb H30 He (bs & l1 & out2 & f & l2 & Hbs & Hfew & -> & Hc). exists (b :: bs), (false :: block_bits b ++ l1), out2, f, l2.
  split; [by econstructor|]. split; [by constructor|]. split; [cbn [app]; by rewrite <- app_assoc|]. cbn [length]. rewrite length_app.
  by replace (pos + S (length (block_bits b) + length l1) + 1)%nat with (pos + 1 + length (block_bits b) + length l1 + 1)%nat by lia.
Qed.

(** What the loop may give: the source has a stored block that is too long, or the loop
    ends and accepts a stream of the format only. *)
Definition settled (r : outcome tinf_data Z) (pos : nat) (d : tinf_data) : Prop :=
  overflow d = false /\ overruns_from pos (dest d) (stream d) \/
  exists d' res, r = Ret d' res /\ over d' = false /\
    (res = TINF_DATA_ERROR \/ res = TINF_OK /\ overflow d = false /\
      exists bs l, deflates pos (dest d) bs l (dest d') /\ Forall few_dists bs /\ stream d = l ++ stream d').

Lemma uncompress_any fuel pos d :
  good d -> (overflow d = false -> aligned pos d) -> (overflow d = true \/ (length (stream d) < fuel)%nat) -> (1 <= fuel)%nat ->
  settled (uncompress_loop junk fuel d) pos d.
Proof.
  revert pos d. induction fuel as [|fuel IH]; intros pos d Hg Ha Hf H1; [lia|]. cbn [uncompress_loop]. pose proof Hg as (Hi & _).
  destruct (getbits_any 1 d Hi ltac:(lia)) as (d1 & f & E1 & T1 & Hf1). rewrite (bind_Ret _ _ _ _ _ E1).
  destruct (getbits_any 2 d1 (takes_inv _ _ _ T1) ltac:(lia)) as (d2 & ty & E2 & T2 & Hty). rewrite (bind_Ret _ _ _ _ _ E2).
  pose proof (takes_app _ _ _ _ _ T1 T2) as T. change (Z.to_nat 1) with 1%nat in T. change (Z.to_nat 2) with 2%nat in T.
  pose proof T as (Hi2 & Hfr & Hm & Hst). pose proof (good_frame _ _ Hg Hi2 Hfr) as Hg2. destruct Hfr as (Hd2 & _).
  assert (Hback : overflow d2 = false -> overflow d = false) by (intros E; destruct (overflow d); [by rewrite Hm in E|done]).
  assert (Ha2 : overflow d2 = false -> aligned (pos + 1 + 2) d2).
  { intros Ho. pose proof (aligned_reads _ _ _ _ (Ha (Hback Ho)) (Hst Ho)) as H. by rewrite length_app, Nat.add_assoc in H. }
  destruct (inflate_block_any (pos + 1) ty d2 Hg2 Hty Ha2) as [[Ho2 Hcut]|(d3 & res & E3 & Hov3 & Hany)].
  { left. split; [auto|]. rewrite (Hst Ho2), <- app_assoc. by apply overruns_here. }
  rewrite (bind_Ret _ _ _ _ _ E3).
  destruct Hany as [->|(-> & Ho2 & b & <- & Hb & H30 & Hg3 & Ho3 & Hs3 & He3)]; [right; eexists _, _; split; [done|by split; [|left]]|].
  cbn [negb Z.eqb TINF_OK]. specialize (Hst Ho2). specialize (Hback Ho2). rewrite Hd2 in He3. rewrite Hs3 in Hst.
  assert (Hst' : stream d = bits_of 1 f ++ block_bits b ++ stream d3) by (rewrite Hst; unfold block_bits; by rewrite <- !app_assoc).
  destruct (f =? 0) eqn:Ef; [apply Z.eqb_eq in Ef as ->|apply Z.eqb_neq in Ef].
  - specialize (Ha Hback). assert (Hlen : (length (stream d3) < fuel)%nat).
    { destruct Hf as [?|Hf]; [congruence|]. rewrite Hst', !length_app, bits_of_length in Hf. lia. }
    assert (Ha3 : aligned (pos + 1 + length (block_bits b)) d3).
    { rewrite app_assoc in Hst'. pose proof (aligned_reads _ _ _ _ Ha Hst') as H. by rewrite length_app, bits_of_length, Nat.add_assoc in H. }
    change (bits_of 1 0) with [false] in Hst'. cbn [app] in Hst'.
    destruct (IH _ d3 Hg3 (fun _ => Ha3) (or_intror Hlen) ltac:(lia)) as [[_ Hov]|(d4 & res & E4 & Hov4 & H4)].
    { left. split; [done|]. rewrite Hst'. by eapply overruns_more. }
    right. exists d4, res. split; [done|]. split; [done|]. destruct H4 as [?|(-> & _ & bs & l & Hdef & Hfew & Hl)]; [by left|right].
    split; [done|]. split; [done|]. eexists _, _. split; [by eapply deflates_more|]. split; [by constructor|].
    rewrite Hst', Hl. cbn [app]. by rewrite app_assoc.
  - rewrite (bind_Ret _ _ _ _ _ (read_overflow d3)), Ho3. right. eexists _, _. split; [done|]. split; [done|]. right. split; [done|]. split; [done|].
    eexists _, _. split; [by apply deflates_last|]. split; [by constructor|]. rewrite Hst'.
    change (2 ^ 1) with 2 in Hf1. assert (f = 1) as -> by lia. done.
Qed.
End junk.
End InflateStream.
