(* ===== verification/InflateTheorems.v ===== *)
(** * Correctness of the decompressor

    [tinf_uncompress] accepts the streams of the deflate format with 30 distance codes
    at most and produces their data; every other source gives an error, except that a
    stored block may be longer than the source.  [tinf_gzip_uncompress] skips the headers
    of the gzip format, without a look at their checksum. *)

From S2P Require Import Prelude Effects Inflate InflateBits InflateTree InflateBuild Deflate InflateBlock InflateHeader InflateStream.

Module InflateTheorems.
Import Effects Inflate InflateBits InflateTree InflateBuild Deflate InflateBlock InflateHeader InflateStream.
Open Scope Z_scope.

(** ** Streams *)

Definition start (lt dt : tinf_tree) (src mem : list Z) : tinf_data := MkData src 0 0 false [] lt dt mem false.

Lemma start_good lt dt src mem :
  Forall is_byte src -> typed lt -> typed dt ->
  good (start lt dt src mem) /\ aligned 0 (start lt dt src mem) /\ stream (start lt dt src mem) = bytes_bits src.
Proof.
  intros Hs Hl Hd. split; [|split; [|done]].
  - split; [|done]. split; [|done]. unfold filled, start. cbn [bitcount tag source overflow over]. by split_and!.
  - unfold aligned. change (stream (start lt dt src mem)) with (bytes_bits src). rewrite bytes_bits_length, Nat.mul_comm. apply Nat.Div0.mod_mul.
Qed.

Lemma deflates_length pos out bs l out' : deflates pos out bs l out' -> (length bs <= length l)%nat.
Proof. induction 1; cbn [length]; rewrite ?length_app; lia. Qed.

Lemma uncompress_accepts junk lt dt src mem bs l rest out :
  Forall is_byte src -> typed lt -> typed dt -> deflates 0 [] bs l out -> Forall few_dists bs -> bytes_bits src = l ++ rest ->
  exists d, tinf_uncompress junk lt dt src mem = Ret d TINF_OK /\ dest d = out /\ stream d = rest.
Proof.
  intros Hs Hl Hd Hdef H30 E. destruct (start_good lt dt src mem Hs Hl Hd) as (Hg & Ha & Est). rewrite E in Est.
  apply (uncompress_reads junk _ _ _ _ _ Hdef H30); [|done..]. pose proof (deflates_length _ _ _ _ _ Hdef) as H.
  rewrite length_app, Nat.mul_add_distr_l, <- (bytes_bits_length src), E, length_app. lia.
Qed.

(** The source starts with a stream of the deflate format for [out], whose dynamic blocks
    announce 30 distance codes at most, and the bits [rest] follow. *)
Definition inflates (src out : list Z) (rest : list bool) : Prop :=
  exists bs l, deflates 0 [] bs l out /\ Forall few_dists bs /\ bytes_bits src = l ++ rest.

(** C6: (round trip) a source that starts with a stream of the deflate format, of any
    mixture of stored, fixed and dynamic blocks, is accepted, and the data written is
    what the format says; the bits after the stream are left.  The dynamic blocks
    announce 30 distance codes at most: the format has room for 31 and 32, which the
    code takes as an error on purpose, since the last two codes have no meaning. *)
Theorem tinf_uncompress_deflate junk lt dt src mem bs l rest out :
  Forall is_byte src -> typed lt -> typed dt -> deflates 0 [] bs l out -> Forall few_dists bs -> bytes_bits src = l ++ rest ->
  exists d, tinf_uncompress junk lt dt src mem = Ret d TINF_OK /\ dest d = out /\ stream d = rest.
Proof. apply uncompress_accepts. Qed.

(** C7: (exactness, safety and termination) a source has a stored block whose data goes
    beyond its end, or the decompressor returns, without reading beyond the end of the
    source or outside of its tables: with success exactly when the source starts with a
    stream of the deflate format (30 distance codes at most), whose data is what it wrote,
    and with an error for every other source.  Nothing is said of the size of the
    destination, which the code does not check. *)
Theorem tinf_uncompress_exact junk lt dt src mem :
  Forall is_byte src -> typed lt -> typed dt ->
  overruns src \/
  exists d res, tinf_uncompress junk lt dt src mem = Ret d res /\ over d = false /\
    (res = TINF_OK /\ inflates src (dest d) (stream d) \/ res = TINF_DATA_ERROR /\ forall out rest, ~ inflates src out rest).
Proof.
  intros Hs Hl Hd. destruct (start_good lt dt src mem Hs Hl Hd) as (Hg & Ha & Est).
  assert (Hf : overflow (start lt dt src mem) = true \/ (length (stream (start lt dt src mem)) < S (8 * length (src ++ mem)))%nat).
  { right. rewrite Est, bytes_bits_length, length_app. lia. }
  pose proof (uncompress_any junk (S (8 * length (src ++ mem))) 0 (start lt dt src mem) Hg (fun _ => Ha) Hf ltac:(lia)) as H.
  unfold settled in H. rewrite Est in H. destruct H as [[_ H]|(d & res & E & Hov & H)]; [by left|right].
  exists d, res. split; [exact E|]. split; [done|]. destruct H as [->|(-> & _ & bs & l & H)]; [right|left; split; [done|]; by exists bs, l].
  split; [done|]. intros out rest (bs & l & Hdef & H30 & El).
  destruct (uncompress_accepts junk lt dt src mem bs l rest out Hs Hl Hd Hdef H30 El) as (d' & E' & _).
  change (tinf_uncompress junk lt dt src mem = Ret d TINF_DATA_ERROR) in E. rewrite E' in E. discriminate E.
Qed.

(** ** Examples *)

Definition some_tree : tinf_tree := MkTree (replicate 16 0) (replicate 288 0) 0.

Lemma some_tree_typed : typed some_tree.
Proof. split; [done|]. apply Forall_replicate. lia. Qed.

Definition some_lit : list Z := replicate 97 0 ++ [1] ++ replicate 158 0 ++ [1].
Definition some_header : header :=
  MkHeader 257 1 18 [2; 2; 0; 0; 0; 0; 0; 0; 0; 0; 0; 0; 0; 0; 0; 0; 0; 0; 1]
    [LongZeros 86; Len 1; LongZeros 127; LongZeros 9; Len 1; Len 0].
Definition stored_hi : block := Stored (replicate 5 false) [104; 105].
Definition dynamic_aa : block := Dynamic some_header some_lit [0] [Lit 97; Lit 97].
Definition fixed_ba : block := Fixed [Lit 98; Copy 2 0 1 0].
Definition some_bits : list bool :=
  false :: block_bits stored_hi ++ false :: block_bits dynamic_aa ++ true :: block_bits fixed_ba.
Definition some_source : list Z :=
  [0; 2; 0; 253; 255; 104; 105; 4; 192; 129; 8; 0; 0; 0; 0; 32; 214; 253; 37; 142; 75; 2; 67; 0].

Lemma accepted_dec lens :
  kraft lens && ((codes lens <=? 1) || (next_code lens 16 =? 2 ^ 16)) && (negb (codes lens =? 1) || (bl_count lens 1 =? 1)) = true ->
  accepted lens.
Proof. unfold accepted. intros H. rewrite !andb_true_iff, !orb_true_iff, negb_true_iff in H. destruct H as [[H1 H2] H3]. split_and!; [done|lia|lia]. Qed.

Lemma some_header_ok : header_ok some_header some_lit [0].
Proof.
  unfold header_ok. cbn [some_header hlit hdist hclen hcl hsyms].
  split; [lia|]. split; [lia|]. split; [lia|]. split; [done|]. split; [repeat constructor; lia|].
  split; [intros i Hi; vm_compute in Hi; apply list_elem_of_singleton in Hi as ->; done|].
  split; [apply accepted_dec; vm_compute; done|].
  split; [repeat (apply Forall_cons_2; [split; [vm_compute; lia|cbn; lia]|]); by apply Forall_nil_2|].
  split; [vm_compute; done|]. split; [vm_compute; done|]. split; [done|].
  split; [apply accepted_dec; vm_compute; done|]. split; [apply accepted_dec; vm_compute; done|]. vm_compute. lia.
Qed.

Lemma some_stream : deflates 0 [] [stored_hi; dynamic_aa; fixed_ba] some_bits [104; 105; 97; 97; 98; 97; 98; 97; 98; 97].
Proof.
  unfold some_bits. eapply deflates_more; [|reflexivity|].
  { vm_compute. split; [lia|]. split; [done|]. split; [|done]. repeat constructor; done. }
  eapply deflates_more; [|vm_compute; reflexivity|].
  { split; [apply some_header_ok|]. repeat (apply Forall_cons_2; [split; vm_compute; lia|]). by apply Forall_nil_2. }
  apply deflates_last; [|vm_compute; reflexivity].
  apply Forall_cons_2; [split; vm_compute; lia|]. apply Forall_cons_2; [|by apply Forall_nil_2].
  split_and!; vm_compute; done || lia.
Qed.

Lemma some_few : Forall few_dists [stored_hi; dynamic_aa; fixed_ba].
Proof. repeat (apply Forall_cons_2; [cbn; lia || done|]). by apply Forall_nil_2. Qed.

Lemma tinf_uncompress_deflate_witness :
  exists d, tinf_uncompress 0 some_tree some_tree some_source [] = Ret d TINF_OK /\
    dest d = [104; 105; 97; 97; 98; 97; 98; 97; 98; 97] /\ stream d = [false; false].
Proof.
  apply (tinf_uncompress_deflate 0 some_tree some_tree some_source [] [stored_hi; dynamic_aa; fixed_ba] some_bits).
  - repeat constructor; vm_compute; done.
  - apply some_tree_typed.
  - apply some_tree_typed.
  - apply some_stream.
  - apply some_few.
  - vm_compute. reflexivity.
Defined.

Lemma tinf_uncompress_exact_witness :
  overruns [75; 2; 67] \/
  exists d res, tinf_uncompress 0 some_tree some_tree [75; 2; 67] [] = Ret d res /\ over d = false /\
    (res = TINF_OK /\ inflates [75; 2; 67] (dest d) (stream d) \/ res = TINF_DATA_ERROR /\ forall out rest, ~ inflates [75; 2; 67] out rest).
Proof.
  apply (tinf_uncompress_exact 0 some_tree some_tree [75; 2; 67] []).
  - repeat constructor; vm_compute; done.
  - apply some_tree_typed.
  - apply some_tree_typed.
Defined.

(** A stored block that claims five bytes when one is left: the others are read past the
    end of the source, and the decompressor reports success. *)
Example stored_block_overreads :
  overruns [1; 5; 0; 250; 255; 104] /\
  exists d, tinf_uncompress 0 some_tree some_tree [1; 5; 0; 250; 255; 104] [1; 2; 3; 4; 9] = Ret d TINF_OK /\
    over d = true /\ dest d = [104; 1; 2; 3; 4].
Proof.
  split; [|eexists; split; [vm_compute; reflexivity|]; by split].
  exists [], [], [], true, (drop 1 (bytes_bits [1; 5; 0; 250; 255; 104])). split; [constructor|]. split; [done|]. split; [done|].
  exists (replicate 5 false), 5, (bits_of 8 104). split; [cbn; lia|]. split; [done|]. split; [lia|]. split; [done|]. done.
Qed.

(** ** Gzip headers (RFC 1952, section 2.3) *)

Record gzip_fields := MkGzip {
  g_text : bool;
  g_info : list Z;                (* MTIME, XFL, OS *)
  g_extra : option (list Z);
  g_name : option (list Z);
  g_comment : option (list Z);
  g_hcrc : option (list Z) }.

Definition flags (t h e n c : bool) : Z := Z.b2z t + 2 * Z.b2z h + 4 * Z.b2z e + 8 * Z.b2z n + 16 * Z.b2z c.
Definition present {A} (o : option A) : bool := match o with Some _ => true | None => false end.
Definition part (enc : list Z -> list Z) (o : option (list Z)) : list Z := match o with Some x => enc x | None => [] end.
Definition with_length (x : list Z) : list Z := zlen x mod 256 :: zlen x / 256 :: x.
Definition terminated (x : list Z) : list Z := x ++ [0].

(** The header up to its checksum, and all of it. *)
Definition gzip_start (f : gzip_fields) : list Z :=
  [0x1F; 0x8B; 8; flags (g_text f) (present (g_hcrc f)) (present (g_extra f)) (present (g_name f)) (present (g_comment f))] ++
  g_info f ++ part with_length (g_extra f) ++ part terminated (g_name f) ++ part terminated (g_comment f).
Definition gzip_bytes (f : gzip_fields) : list Z := gzip_start f ++ part id (g_hcrc f).

(** The parts fit together; nothing is said of the contents of the extra field and of the
    checksum. *)
Definition gzip_shape (f : gzip_fields) : Prop :=
  length (g_info f) = 6%nat /\ (forall x, g_extra f = Some x -> zlen x < 2 ^ 16) /\
  (forall x, g_name f = Some x -> Forall (fun c => c <> 0) x) /\ (forall x, g_comment f = Some x -> Forall (fun c => c <> 0) x) /\
  (forall x, g_hcrc f = Some x -> length x = 2%nat).

(** The cyclic redundancy check of the format (section 8), bit by bit. *)
Definition crc_bit (c : Z) : Z := if Z.odd c then Z.lxor 0xEDB88320 (Z.shiftr c 1) else Z.shiftr c 1.
Definition crc32 (l : list Z) : Z :=
  Z.lxor 0xFFFFFFFF (fold_left (fun c b => Nat.iter 8 crc_bit (Z.lxor c b)) l 0xFFFFFFFF).

(** The extra field is a series of subfields: two bytes of identification, a length and
    data. *)
Inductive subfields : list Z -> Prop :=
  | subfields_nil : subfields []
  | subfields_cons a b x l : zlen x < 2 ^ 16 -> subfields l -> subfields ([a; b] ++ with_length x ++ l).

(** A header of the format: the checksum, if present, is that of the bytes before it. *)
Definition gzip_ok (f : gzip_fields) : Prop :=
  gzip_shape f /\ (forall x, g_extra f = Some x -> subfields x) /\
  (forall x, g_hcrc f = Some x -> let c := crc32 (gzip_start f) in x = [c mod 256; (c / 256) mod 256]).

Lemma skip_string_iff s r : skip_string s = Some r <-> exists x, Forall (fun c => c <> 0) x /\ s = terminated x ++ r.
Proof.
  unfold terminated. induction s as [|c s IH]; cbn [skip_string].
  - split; [done|]. intros (x & _ & E). destruct x; done.
  - destruct (c =? 0) eqn:Ec; [apply Z.eqb_eq in Ec as ->|apply Z.eqb_neq in Ec].
    + split; [intros [= ->]; by exists []|]. intros (x & Hx & E). destruct Hx as [|y x Hy _]; [by injection E as ->|]. by injection E as <- _.
    + rewrite IH. split; intros (x & Hx & E).
      * exists (c :: x). split; [by constructor|]. by rewrite E.
      * destruct Hx as [|y x Hy Hx]; [by injection E as -> _|]. injection E as <- E. by exists x.
Qed.

Lemma skip_extra_iff s r :
  Forall is_byte s -> skip_extra (zlen s + 10) s = Some r <-> exists x, zlen x < 2 ^ 16 /\ s = with_length x ++ r.
Proof.
  intros Hs. unfold skip_extra, with_length. destruct Hs as [|b0 s H0 Hs]; [split; [done|by intros (x & _ & E)]|].
  destruct Hs as [|b1 s H1 Hs]; [split; [done|by intros (x & _ & E)]|]. rewrite read_le16_spec by done. cbn [mbind option_bind length].
  unfold is_byte in *. destruct (join_div b0 b1 H0) as [J1 J2]. rewrite (Z.mod_small b0) in J1 by lia. split.
  - destruct (_ <? _) eqn:E; [done|apply Z.ltb_ge in E]. intros [= <-]. set (n := Z.to_nat (b0 + 256 * b1)). exists (take n s).
    assert (En : zlen (take n s) = b0 + 256 * b1) by (rewrite length_take; lia). rewrite En, J1, J2. split; [lia|]. cbn [app].
    replace (Z.to_nat (b0 + 256 * b1 + 2)) with (S (S n)) by lia. cbn [drop]. by rewrite take_drop.
  - intros (x & Hx & E). cbn [app] in E. injection E as E0 E1 ->.
    assert (En : b0 + 256 * b1 = zlen x) by (rewrite E0, E1; pose proof (Z.div_mod (zlen x) 256); lia).
    rewrite En, length_app, (proj2 (Z.ltb_ge _ _)) by lia. replace (Z.to_nat (zlen x + 2)) with (S (S (length x))) by lia. cbn [drop].
    by rewrite drop_app_length.
Qed.

(** An optional part of the header. *)
Lemma part_iff (b : bool) (skip : list Z -> option (list Z)) enc (P : list Z -> Prop) s r :
  (skip s = Some r <-> exists x, P x /\ s = enc x ++ r) ->
  (if b then skip s else Some s) = Some r <-> exists o, present o = b /\ (forall x, o = Some x -> P x) /\ s = part enc o ++ r.
Proof.
  intros H. destruct b.
  - rewrite H. split.
    + intros (x & Hx & E). exists (Some x). split; [done|]. split; [by intros ? [= <-]|done].
    + intros ([x|] & Ep & Hx & E); [|done]. exists x. auto.
  - split; [intros [= ->]; by exists None|]. intros ([x|] & Ep & _ & E); [done|]. by rewrite E.
Qed.

Lemma hcrc_iff (b : bool) s r :
  8 <= zlen r ->
  (if b then drop 2 s else s) = r <-> exists o, present o = b /\ (forall x, o = Some x -> length x = 2%nat) /\ s = part id o ++ r.
Proof.
  intros Hr. destruct b.
  - split.
    + intros <-. exists (Some (take 2 s)). rewrite length_drop in Hr. split; [done|]. split; [intros x [= <-]; rewrite length_take; lia|].
      cbn [part id]. by rewrite take_drop.
    + intros ([x|] & Ep & Hx & ->); [|done]. specialize (Hx x eq_refl). cbn [part id]. rewrite <- Hx. apply drop_app_length.
  - split; [intros ->; by exists None|]. by intros ([x|] & Ep & _ & ->).
Qed.

Lemma flags_all flg : is_byte flg -> Z.land flg 0xE0 = 0 -> exists t h e n c, flg = flags t h e n c.
Proof.
  intros Hb Hl. unfold is_byte in Hb. rewrite <- (val_bits 8 flg) in * by (change (2 ^ Z.of_nat 8) with 256; lia).
  cbn [bits_of] in *. repeat match goal with |- context [Z.odd ?x] => generalize dependent (Z.odd x); intros end.
  match goal with |- context [val [?t; ?h; ?e; ?n; ?c; ?x; ?y; ?z]] => exists t, h, e, n, c; destruct x, y, z; try (destruct t, h, e, n, c; discriminate) end.
  unfold flags. cbn [val foldr]. change (Z.b2z false) with 0. lia.
Qed.

Lemma flags_has t h e n c :
  Z.land (flags t h e n c) 0xE0 = 0 /\ negb (Z.land (flags t h e n c) FHCRC =? 0) = h /\ negb (Z.land (flags t h e n c) FEXTRA =? 0) = e /\
  negb (Z.land (flags t h e n c) FNAME =? 0) = n /\ negb (Z.land (flags t h e n c) FCOMMENT =? 0) = c.
Proof. by destruct t, h, e, n, c. Qed.

(** The parts after the first ten bytes. *)
Definition skip_parts (h e n c : bool) (sourceLen : Z) (s : list Z) : option (list Z) :=
  s ← (if e then skip_extra sourceLen s else Some s);
  s ← (if n then skip_string s else Some s);
  s ← (if c then skip_string s else Some s);
  let s := if h then drop 2 s else s in
  if zlen s <? 8 then None else Some s.

Lemma skip_parts_iff h e n c s r :
  Forall is_byte s ->
  skip_parts h e n c (zlen s + 10) s = Some r <->
  exists eo no co ho, present eo = e /\ present no = n /\ present co = c /\ present ho = h /\
    (forall x, eo = Some x -> zlen x < 2 ^ 16) /\ (forall x, no = Some x -> Forall (fun c => c <> 0) x) /\
    (forall x, co = Some x -> Forall (fun c => c <> 0) x) /\ (forall x, ho = Some x -> length x = 2%nat) /\
    s = part with_length eo ++ part terminated no ++ part terminated co ++ part id ho ++ r /\ 8 <= zlen r.
Proof.
  intros Hs. unfold skip_parts. rewrite bind_Some. split.
  - intros (s1 & E1 & E). apply bind_Some in E as (s2 & E2 & E). apply bind_Some in E as (s3 & E3 & E).
    destruct (zlen (if h then drop 2 s3 else s3) <? 8) eqn:E8; [done|apply Z.ltb_ge in E8]. injection E as E.
    apply (part_iff e _ _ _ _ _ (skip_extra_iff s s1 Hs)) in E1 as (eo & P1 & Q1 & ->).
    apply (part_iff n _ _ _ _ _ (skip_string_iff s1 s2)) in E2 as (no & P2 & Q2 & ->).
    apply (part_iff c _ _ _ _ _ (skip_string_iff s2 s3)) in E3 as (co & P3 & Q3 & ->).
    rewrite E in E8. apply hcrc_iff in E as (ho & P4 & Q4 & ->); [|done]. exists eo, no, co, ho. by split_and!.
  - intros (eo & no & co & ho & P1 & P2 & P3 & P4 & Q1 & Q2 & Q3 & Q4 & E & H8).
    eexists. split; [apply (part_iff e _ _ _ _ _ (skip_extra_iff s _ Hs)); by exists eo|]. apply bind_Some.
    eexists. split; [apply (part_iff n _ _ _ _ _ (skip_string_iff _ _)); by exists no|]. apply bind_Some.
    eexists. split; [apply (part_iff c _ _ _ _ _ (skip_string_iff _ _)); by exists co|]. cbv zeta.
    rewrite (proj2 (hcrc_iff h _ r H8)) by by exists ho. by rewrite (proj2 (Z.ltb_ge _ _)) by lia.
Qed.

Lemma gzip_header_start t h e n c info s :
  length info = 6%nat -> 8 <= zlen s ->
  gzip_header ([0x1F; 0x8B; 8; flags t h e n c] ++ info ++ s) = skip_parts h e n c (zlen s + 10) s.
Proof.
  intros Hi Hs. unfold gzip_header. destruct (flags_has t h e n c) as (F1 & F2 & F3 & F4 & F5). generalize dependent (flags t h e n c). intros flg.
  intros F1 <- <- <- <-. set (src := _ ++ info ++ s).
  assert (El : zlen src = zlen s + 10) by (unfold src; rewrite !length_app, Hi; cbn [length]; lia).
  rewrite El, (proj2 (Z.ltb_ge _ _)) by lia.
  change (load src 0) with (Some 0x1F). change (load src 1) with (Some 0x8B). change (load src 2) with (Some 8).
  change (load src 3) with (Some flg). cbn [mbind option_bind negb Z.eqb Pos.eqb orb]. rewrite F1. cbn [negb Z.eqb].
  change (drop 10 src) with (drop 6 (info ++ s)).
  rewrite <- Hi, drop_app_length. done.
Qed.

(** The first ten bytes of an accepted header. *)
Lemma gzip_header_inv src r :
  Forall is_byte src -> gzip_header src = Some r ->
  exists t h e n c info s, length info = 6%nat /\ 8 <= zlen s /\ Forall is_byte s /\ src = [0x1F; 0x8B; 8; flags t h e n c] ++ info ++ s.
Proof.
  intros Hb H. unfold gzip_header in H. destruct (zlen src <? 18) eqn:E; [done|apply Z.ltb_ge in E].
  destruct src as [|a0 [|a1 [|a2 [|a3 src]]]]; try (cbn [length] in E; lia).
  change (load (a0 :: a1 :: a2 :: a3 :: src) 0) with (Some a0) in H. change (load (a0 :: a1 :: a2 :: a3 :: src) 1) with (Some a1) in H.
  change (load (a0 :: a1 :: a2 :: a3 :: src) 2) with (Some a2) in H. change (load (a0 :: a1 :: a2 :: a3 :: src) 3) with (Some a3) in H.
  cbn [mbind option_bind] in H. destruct (negb (a0 =? 31) || negb (a1 =? 139)) eqn:E1; [done|].
  destruct (negb (a2 =? 8)) eqn:E2; [done|]. destruct (negb (Z.land a3 224 =? 0)) eqn:E3; [done|]. clear H.
  apply orb_false_iff in E1 as [->%negb_false_iff%Z.eqb_eq ->%negb_false_iff%Z.eqb_eq].
  apply negb_false_iff, Z.eqb_eq in E2 as ->. apply negb_false_iff, Z.eqb_eq in E3.
  do 4 apply Forall_cons in Hb as [? Hb]. destruct (flags_all a3) as (t & h & e & n & c & ->); [done|done|].
  exists t, h, e, n, c, (take 6 src), (drop 6 src). cbn [length] in E. rewrite length_take, length_drop.
  split; [lia|]. split; [lia|]. split; [by apply Forall_drop|]. by rewrite take_drop.
Qed.

Lemma gzip_header_iff src r :
  Forall is_byte src -> gzip_header src = Some r <-> exists f, gzip_shape f /\ src = gzip_bytes f ++ r /\ 8 <= zlen r.
Proof.
  intros Hb. split.
  - intros H. destruct (gzip_header_inv src r Hb H) as (t & h & e & n & c & info & s & Hi & Hs & Hbs & ->).
    rewrite gzip_header_start in H by done. apply skip_parts_iff in H as (eo & no & co & ho & <- & <- & <- & <- & Q1 & Q2 & Q3 & Q4 & E & H8); [|done].
    exists (MkGzip t info eo no co ho). split; [by split_and!|]. split; [|done]. unfold gzip_bytes, gzip_start. cbn [g_text g_info g_extra g_name g_comment g_hcrc].
    rewrite E, <- !app_assoc. done.
  - intros (f & (Hi & Q1 & Q2 & Q3 & Q4) & E & H8). unfold gzip_bytes, gzip_start in E. rewrite <- !app_assoc in E.
    assert (Hbs : Forall is_byte (part with_length (g_extra f) ++ part terminated (g_name f) ++ part terminated (g_comment f) ++ part id (g_hcrc f) ++ r)).
    { rewrite E in Hb. apply Forall_app in Hb as [_ Hb]. by apply Forall_app in Hb as [_ Hb]. }
    rewrite E, gzip_header_start; [|done|rewrite !length_app; lia]. apply skip_parts_iff; [done|].
    eexists _, _, _, _. by split_and!.
Qed.

(** C27: (equivalence) the header code skips exactly the headers of the gzip format up to
    the value of the header checksum and the contents of the extra field, which it does
    not check, with any combination of the optional parts, when eight bytes at least
    follow; anything else is an error.  In particular it skips every header the format
    allows. *)
Theorem gzip_header_exact src r :
  Forall is_byte src ->
  (gzip_header src = Some r <-> exists f, gzip_shape f /\ src = gzip_bytes f ++ r /\ 8 <= zlen r) /\
  ((exists f, gzip_ok f /\ src = gzip_bytes f ++ r /\ 8 <= zlen r) -> gzip_header src = Some r).
Proof.
  intros Hb. pose proof (gzip_header_iff src r Hb) as H. split; [exact H|]. intros (f & Hf & E & H8). apply H. exists f. by split; [apply Hf|].
Qed.

(** The header of a file with a subfield of one byte, a name and a checksum. *)
Definition some_gzip (crc : list Z) : gzip_fields :=
  MkGzip false [0; 0; 0; 0; 0; 3] (Some [65; 66; 1; 0; 7]) (Some [97]) None (Some crc).
Definition some_crc : list Z := [68; 6].
Definition some_member (crc : list Z) : list Z := gzip_bytes (some_gzip crc) ++ some_source ++ replicate 8 0.

Lemma some_gzip_shape crc : length crc = 2%nat -> gzip_shape (some_gzip crc).
Proof. intros Hc. split_and!; try done; [by intros x [= <-]|intros x [= <-]; repeat constructor; done|by intros x [= <-]]. Qed.

Lemma some_gzip_ok : gzip_ok (some_gzip some_crc).
Proof.
  split; [by apply some_gzip_shape|]. split; [|intros x [= <-]; by vm_compute].
  intros x [= <-]. apply (subfields_cons 65 66 [7] []); [done|constructor].
Qed.

Lemma some_member_bytes : Forall is_byte (some_member some_crc).
Proof. apply (bool_decide_unpack (Forall (fun b => 0 <= b < 256) (some_member some_crc))). by vm_compute. Qed.

Lemma gzip_header_exact_witness : gzip_header (some_member some_crc) = Some (some_source ++ replicate 8 0).
Proof.
  apply (proj2 (gzip_header_exact (some_member some_crc) (some_source ++ replicate 8 0) some_member_bytes)). exists (some_gzip some_crc).
  split; [apply some_gzip_ok|]. split; [reflexivity|]. by vm_compute.
Defined.

(** A wrong checksum makes no difference. *)
Example header_checksum_unchecked :
  ~ gzip_ok (some_gzip [7; 7]) /\ gzip_header (some_member [7; 7]) = Some (some_source ++ replicate 8 0).
Proof. split; [|by vm_compute]. intros (_ & _ & H). specialize (H _ eq_refl). by vm_compute in H. Qed.

(** C28: (composition) a gzip member, a header, a stream of the deflate format (30 distance
    codes at most) and eight bytes of trailer, is accepted and the data of the stream is
    written. *)
Theorem tinf_gzip_uncompress_correct junk lt dt f data trailer mem bs l rest out :
  Forall is_byte (gzip_bytes f ++ data ++ trailer) -> gzip_shape f -> length trailer = 8%nat -> typed lt -> typed dt ->
  deflates 0 [] bs l out -> Forall few_dists bs -> bytes_bits data = l ++ rest ->
  exists d, tinf_gzip_uncompress junk lt dt (gzip_bytes f ++ data ++ trailer) mem = Ret d TINF_OK /\ dest d = out.
Proof.
  intros Hb Hf Ht Hl Hd Hdef H30 E. unfold tinf_gzip_uncompress.
  rewrite (proj2 (gzip_header_iff _ (data ++ trailer) Hb)) by (exists f; split_and!; [done|done|rewrite length_app; lia]).
  cbv zeta. rewrite length_app, Ht, Nat.add_sub, take_app_length. apply Forall_app in Hb as [_ Hb]. apply Forall_app in Hb as [Hb _].
  destruct (uncompress_accepts junk lt dt data (drop (length data) (data ++ trailer) ++ mem) bs l rest out Hb Hl Hd Hdef H30 E) as (d & -> & Hout & _).
  by exists d.
Qed.

Lemma tinf_gzip_uncompress_correct_witness :
  exists d, tinf_gzip_uncompress 0 some_tree some_tree (gzip_bytes (some_gzip some_crc) ++ some_source ++ replicate 8 0) [] = Ret d TINF_OK /\
    dest d = [104; 105; 97; 97; 98; 97; 98; 97; 98; 97].
Proof.
  apply (tinf_gzip_uncompress_correct 0 some_tree some_tree (some_gzip some_crc) some_source (replicate 8 0) []
    [stored_hi; dynamic_aa; fixed_ba] some_bits [false; false]).
  - apply some_member_bytes.
  - apply some_gzip_ok.
  - reflexivity.
  - apply some_tree_typed.
  - apply some_tree_typed.
  - apply some_stream.
  - apply some_few.
  - vm_compute. reflexivity.
Defined.
End InflateTheorems.
