(* ===== verification/Vmm.v ===== *)
(** * Page tables of the boot loader

    common/mm/vmm.c of Limine (src/limine/limine-8.7.0) for x86-64: the tables are in
    the memory of the physical memory manager, which also provides them. *)

From S2P Require Import Prelude Effects Pmm.

Module Vmm.
Import Effects Pmm.
Open Scope string_scope.
Open Scope list_scope.
Open Scope Z_scope.

Definition PT_SIZE : Z := 0x1000.

(** The page size of each level. *)
Definition page_sizes : list Z := [0x1000; 0x200000; 0x40000000; 0x8000000000; 0x1000000000000].

Definition VMM_FLAG_WRITE : Z := Z.shiftl 1 1.
Definition VMM_FLAG_NOEXEC : Z := Z.shiftl 1 63.
Definition VMM_FLAG_FB : Z := Z.lor (Z.shiftl 1 3) (Z.shiftl 1 12).
Definition VMM_MAX_LEVEL : Z := 3.
Definition PAGING_MODE_X86_64_5LVL : Z := 1.

Definition PT_FLAG_VALID : Z := Z.shiftl 1 0.
Definition PT_FLAG_WRITE : Z := Z.shiftl 1 1.
Definition PT_FLAG_USER : Z := Z.shiftl 1 2.
Definition PT_FLAG_LARGE : Z := Z.shiftl 1 7.
Definition PT_FLAG_NX : Z := Z.shiftl 1 63.
Definition PT_PADDR_MASK : Z := 0x0000FFFFFFFFF000.
Definition PT_TABLE_FLAGS : Z := Z.lor (Z.lor PT_FLAG_VALID PT_FLAG_WRITE) PT_FLAG_USER.
Definition PT_IS_TABLE (x : Z) : bool := Z.land x (Z.lor PT_FLAG_VALID PT_FLAG_LARGE) =? PT_FLAG_VALID.
Definition PT_IS_LARGE (x : Z) : bool := Z.land x (Z.lor PT_FLAG_VALID PT_FLAG_LARGE) =? Z.lor PT_FLAG_VALID PT_FLAG_LARGE.
Definition PT_TO_VMM_FLAGS (x : Z) : Z := Z.land x (Z.lor PT_FLAG_WRITE PT_FLAG_NX).
Definition pte_new (addr flags : Z) : Z := Z.lor addr flags.
Definition pte_addr (pte : Z) : Z := Z.land pte PT_PADDR_MASK.

Record pagemap_t := MkPagemap { levels : Z; top_level : Z }.

Inductive page_size := Size4KiB | Size2MiB | Size1GiB.
Definition size_index (sz : page_size) : Z := match sz with Size4KiB => 0 | Size2MiB => 1 | Size1GiB => 2 end.

(** ** Entries in memory, little-endian *)

Fixpoint load_bytes (n : nat) (f : Z -> Z) (a : Z) : Z :=
  match n with
  | O => 0
  | S n' => f a + 256 * load_bytes n' f (a + 1)
  end.
Definition load64 (f : Z -> Z) (a : Z) : Z := load_bytes 8 f a.
Definition store64 (f : Z -> Z) (a v : Z) : Z -> Z := fun b =>
  if (a <=? b) && (b <? a + 8) then Z.shiftr v (8 * (b - a)) mod 256 else f b.

Definition get_entry (table i : Z) : P Z := fun s => Ret s (load64 (mem s) (table + 8 * i)).
Definition set_entry (table i v : Z) : P unit := fun s => Ret (set_mem (store64 (mem s) (table + 8 * i) v) s) tt.

(** ** Mapping *)

Section cpu.
(** What cpuid says: page attribute tables, and pages of 1 GiB. *)
Variables (pat_supported is_1gib_page_supported : bool).

Definition new_pagemap (paging_mode : Z) : P pagemap_t :=
  top ← ext_mem_alloc PT_SIZE;
  mret (MkPagemap (if paging_mode =? PAGING_MODE_X86_64_5LVL then 5 else 4) top).

(** [for (i = 0; i < old; i += new) map_page(...)], from [i] on. *)
Fixpoint map_loop (fuel : nat) (map : Z -> Z -> P unit) (virt phys i old new : Z) : P unit :=
  match fuel with
  | O => stuck
  | S fuel' =>
      if i <? old then
        _ ← map (u64 (virt + i)) (u64 (phys + i));
        map_loop fuel' map virt phys (i + new) old new
      else mret tt
  end.

(** [map] is [map_page] for the pages of a mapping that is split. *)
Definition get_next_level (map : Z -> Z -> Z -> page_size -> P unit) (current_level virt : Z) (desired_sz : page_size)
    (level_idx entry : Z) : P Z :=
  e ← get_entry current_level entry;
  if PT_IS_TABLE e then mret (pte_addr e)
  else if PT_IS_LARGE e then
    if (VMM_MAX_LEVEL <=? level_idx) || (level_idx =? 0) then throw "Unexpected level in get_next_level"
    else if VMM_MAX_LEVEL <=? size_index desired_sz then throw "Unexpected page size in get_next_level"
    else
      match page_sizes !! Z.to_nat level_idx, page_sizes !! Z.to_nat (size_index desired_sz) with
      | Some old_page_size, Some new_page_size =>
          let old_flags := PT_TO_VMM_FLAGS e in
          let old_phys := pte_addr e in
          let old_virt := Z.land virt (u64 (Z.lnot (old_page_size - 1))) in
          if negb (Z.land old_phys (old_page_size - 1) =? 0) then throw "Unexpected page table entry address in get_next_level"
          else
            ret ← ext_mem_alloc PT_SIZE;
            _ ← set_entry current_level entry (pte_new ret PT_TABLE_FLAGS);
            _ ← map_loop (S (Z.to_nat (old_page_size / new_page_size))) (fun v p => map v p old_flags desired_sz)
                  old_virt old_phys 0 old_page_size new_page_size;
            mret ret
      | _, _ => stuck
      end
  else
    ret ← ext_mem_alloc PT_SIZE;
    _ ← set_entry current_level entry (pte_new ret PT_TABLE_FLAGS);
    mret ret.

(** [(virt_addr & (0x1ff << n)) >> n] *)
Definition index (virt_addr n : Z) : Z := Z.shiftr (Z.land virt_addr (Z.shiftl 0x1ff n)) n.

(** Mappings that are split, and pages of 1 GiB that are emulated, call it again. *)
Fixpoint map_page (fuel : nat) (pagemap : pagemap_t) (virt_addr phys_addr flags : Z) (pg_size : page_size) : P unit :=
  match fuel with
  | O => stuck
  | S fuel' =>
      let again := map_page fuel' pagemap in
      let flags := Z.lor flags PT_FLAG_VALID in
      let flags := if negb (Z.land flags VMM_FLAG_FB =? 0) && negb pat_supported
                   then Z.land flags (u64 (Z.lnot VMM_FLAG_FB)) else flags in
      let next table level n := get_next_level again table virt_addr pg_size level (index virt_addr n) in
      pml4 ← (if levels pagemap =? 5 then next (top_level pagemap) 4 48
              else if levels pagemap =? 4 then mret (top_level pagemap)
              else stuck);
      pml3 ← next pml4 3 39;
      match pg_size with
      | Size1GiB =>
          if is_1gib_page_supported
          then set_entry pml3 (index virt_addr 30) (Z.lor (Z.lor phys_addr flags) PT_FLAG_LARGE)
          else map_loop 513 (fun v p => again v p flags Size2MiB) virt_addr phys_addr 0 0x40000000 0x200000
      | _ =>
          pml2 ← next pml3 2 30;
          match pg_size with
          | Size2MiB => set_entry pml2 (index virt_addr 21) (Z.lor (Z.lor phys_addr flags) PT_FLAG_LARGE)
          | _ =>
              pml1 ← next pml2 1 21;
              let flags := if negb (Z.land flags (Z.shiftl 1 12) =? 0)
                           then Z.lor (Z.land flags (u64 (Z.lnot (Z.shiftl 1 12)))) (Z.shiftl 1 7) else flags in
              set_entry pml1 (index virt_addr 12) (Z.lor phys_addr flags)
          end
      end
  end.

(** The deepest call: an emulated page of 1 GiB, a page of it, and the pages of a
    mapping split for that one. *)
Definition map_depth : nat := 3.

Definition fits_at (virt phys count i size : Z) : bool :=
  (Z.land (u64 (phys + i)) (size - 1) =? 0) && (Z.land (u64 (virt + i)) (size - 1) =? 0) && (size <=? count - i).

Fixpoint map_pages_loop (fuel : nat) (pagemap : pagemap_t) (virt phys flags count i : Z) : P unit :=
  match fuel with
  | O => stuck
  | S fuel' =>
      if i <? count then
        let sz := if fits_at virt phys count i 0x40000000 then Size1GiB
                  else if fits_at virt phys count i 0x200000 then Size2MiB else Size4KiB in
        let step := if fits_at virt phys count i 0x40000000 then 0x40000000
                    else if fits_at virt phys count i 0x200000 then 0x200000 else 0x1000 in
        _ ← map_page map_depth pagemap (u64 (virt + i)) (u64 (phys + i)) flags sz;
        map_pages_loop fuel' pagemap virt phys flags count (u64 (i + step))
      else mret tt
  end.

Definition map_pages (pagemap : pagemap_t) (virt phys flags count : Z) : P unit :=
  if negb (virt mod 0x1000 =? 0) || negb (phys mod 0x1000 =? 0) || negb (count mod 0x1000 =? 0)
  then throw "vmm: Misaligned call to map_pages()"
  else map_pages_loop (S (Z.to_nat (count / 0x1000))) pagemap virt phys flags count 0.
End cpu.
End Vmm.
