(* ===== verification/VmmFacts.v ===== *)
(** * Page table entries

    Entries in memory, what their bits say, and the indices of an address. *)

From S2P Require Import Prelude Effects Pmm Vmm.

Module VmmFacts.
Import Effects Pmm Vmm.
Open Scope Z_scope.

(** ** Memory *)

Lemma load_bytes_ext n f g a : (forall b, a <= b < a + Z.of_nat n -> f b = g b) -> load_bytes n f a = load_bytes n g a.
Proof.
  revert a. induction n as [|n IH]; intros a H; [done|]. cbn [load_bytes]. rewrite H, IH by (intros; apply H || lia; lia) || lia. done.
Qed.

Lemma load64_ext f g a : (forall b, a <= b < a + 8 -> f b = g b) -> load64 f a = load64 g a.
Proof. intros H. by apply load_bytes_ext. Qed.

Lemma load64_other f a v b : a + 8 <= b \/ b + 8 <= a -> load64 (store64 f a v) b = load64 f b.
Proof.
  intros H. apply load64_ext. intros c Hc. unfold store64. destruct ((a <=? c) && (c <? a + 8)) eqn:E; [|done].
  apply andb_true_iff in E as [?%Z.leb_le ?%Z.ltb_lt]. lia.
Qed.

Lemma load_bytes_store n k f a v :
  0 <= k -> k + Z.of_nat n = 8 -> load_bytes n (store64 f a v) (a + k) = Z.shiftr v (8 * k) mod 256 ^ Z.of_nat n.
Proof.
  revert k. induction n as [|n IH]; intros k Hk Hn; cbn [load_bytes]; [by rewrite Z.mod_1_r|].
  rewrite <- Z.add_assoc, IH by lia. unfold store64. rewrite (proj2 (Z.leb_le _ _)), (proj2 (Z.ltb_lt _ _)) by lia. cbn [andb].
  replace (a + k - a) with k by lia. rewrite Nat2Z.inj_succ, Z.pow_succ_r, Z.rem_mul_r by lia. f_equal. f_equal.
  replace (8 * (k + 1)) with (8 * k + 8) by lia. by rewrite <- Z.shiftr_shiftr, (Z.shiftr_div_pow2 _ 8) by lia.
Qed.

Lemma load64_same f a v : in_u 64 v -> load64 (store64 f a v) a = v.
Proof.
  intros Hv. unfold load64. replace a with (a + 0) at 2 by lia. rewrite load_bytes_store by lia. rewrite Z.mul_0_r, Z.shiftr_0_r.
  change (256 ^ Z.of_nat 8) with (2 ^ 64). by apply Z.mod_small.
Qed.

Lemma load64_zero f a : (forall b, a <= b < a + 8 -> f b = 0) -> load64 f a = 0.
Proof. intros H. rewrite (load64_ext f (fun _ => 0)) by done. done. Qed.

(** ** Indices *)

(** The index of an address in a table of level [l]. *)
Definition shift (l : nat) : Z := 12 + 9 * Z.of_nat l.
Definition idx (l : nat) (v : Z) : Z := (v / 2 ^ shift l) mod 512.
Definition psize (l : nat) : Z := 2 ^ shift l.

Lemma psize_pos l : 0 < psize l.
Proof. unfold psize, shift. lia. Qed.
Lemma psize_succ l : psize (S l) = 512 * psize l.
Proof. unfold psize, shift. replace (12 + 9 * Z.of_nat (S l)) with (9 + (12 + 9 * Z.of_nat l)) by lia. by rewrite Z.pow_add_r by lia. Qed.

Lemma idx_range l v : 0 <= idx l v < 512.
Proof. apply Z.mod_pos_bound. lia. Qed.

Lemma index_idx l v : index v (shift l) = idx l v.
Proof.
  assert (H0 : 0 <= shift l) by (unfold shift; lia).
  unfold index, idx. rewrite Z.shiftr_land, Z.shiftr_shiftl_l, Z.sub_diag, Z.shiftl_0_r by lia.
  change 0x1ff with (Z.ones 9). rewrite Z.land_ones, Z.shiftr_div_pow2 by lia. done.
Qed.

(** ** Entries *)

Definition b2m (b : bool) (m : Z) : Z := if b then m else 0.

(** The flags of [map_page]: writable, not executable, framebuffer. *)
Definition vmm_flags (w nx fb : bool) : Z := Z.lor (Z.lor (b2m w VMM_FLAG_WRITE) (b2m nx VMM_FLAG_NOEXEC)) (b2m fb VMM_FLAG_FB).

(** The entry for a page of level [l]. *)
Definition low_flags (l : nat) (w nx fb : bool) : Z :=
  Z.lor (Z.lor (b2m w 2) (b2m nx (2 ^ 63))) (Z.lor (if fb then Z.lor 8 (if (l =? 0)%nat then 128 else 4096) else 0)
    (Z.lor 1 (if (l =? 0)%nat then 0 else 128))).
Definition leaf (l : nat) (phys : Z) (w nx fb : bool) : Z := Z.lor phys (low_flags l w nx fb).

(** An address that an entry of level [l] can hold. *)
Definition paddr_ok (l : nat) (a : Z) : Prop := 0 <= a < 2 ^ 48 /\ a mod psize l = 0.

(** Masks below the page size do not see the address. *)
Lemma paddr_land_low l a m : paddr_ok l a -> 0 <= m < psize l -> Z.land a m = 0.
Proof.
  intros [Ha Hm] Hlt. apply Z.bits_inj'. intros n Hn. rewrite Z.land_spec, Z.bits_0. unfold psize in *.
  destruct (decide (n < shift l)) as [Hl|Hl].
  - apply andb_false_iff. left. apply Z.mod_divide in Hm as [k ->]; [|unfold shift; lia].
    rewrite Z.mul_pow2_bits_low by lia. done.
  - apply andb_false_iff. right. destruct (decide (m = 0)) as [->|]; [apply Z.bits_0|].
    apply Z.bits_above_log2; [lia|]. assert (Z.log2 m < shift l); [|lia]. apply Z.log2_lt_pow2; lia.
Qed.

Lemma paddr_mono l l' a : (l' <= l)%nat -> paddr_ok l a -> paddr_ok l' a.
Proof.
  intros Hl [Ha Hm]. split; [done|]. unfold psize in *. apply Z.mod_divide; [unfold shift; lia|]. apply Z.mod_divide in Hm; [|unfold shift; lia].
  etrans; [|exact Hm]. exists (2 ^ (shift l - shift l')). rewrite <- Z.pow_add_r by (unfold shift; lia). f_equal. lia.
Qed.

Lemma land_mask a : paddr_ok 0 a -> Z.land a PT_PADDR_MASK = a.
Proof.
  intros [Ha Hm]. apply Z.bits_inj'. intros n Hn. rewrite Z.land_spec.
  change PT_PADDR_MASK with (Z.shiftl (Z.ones 36) 12). rewrite Z.shiftl_spec by lia.
  destruct (Z.testbit a n) eqn:E; [|done]. cbn [andb].
  assert (12 <= n).
  { destruct (decide (n < 12)); [|lia]. apply Z.mod_divide in Hm as [k ->]; [|done]. change (psize 0) with (2 ^ 12) in E.
    rewrite Z.mul_pow2_bits_low in E by lia. done. }
  assert (n < 48).
  { destruct (decide (48 <= n)); [|lia]. rewrite Z.bits_above_log2 in E; [done|lia|]. destruct (decide (a = 0)) as [->|]; [simpl; lia|].
    assert (Z.log2 a < 48); [apply Z.log2_lt_pow2; lia|lia]. }
  rewrite Z.testbit_ones by lia. apply andb_true_iff. split; [apply Z.leb_le; lia|apply Z.ltb_lt; lia].
Qed.

Lemma paddr_land_high a : 0 <= a < 2 ^ 48 -> Z.land a (2 ^ 63) = 0.
Proof.
  intros Ha. apply Z.bits_inj'. intros n Hn. rewrite Z.land_spec, Z.pow2_bits_eqb, Z.bits_0 by lia.
  destruct (63 =? n) eqn:E; [apply Z.eqb_eq in E as <-|by rewrite andb_false_r]. rewrite andb_true_r.
  destruct (decide (a = 0)) as [->|]; [done|]. apply Z.bits_above_log2; [lia|]. assert (Z.log2 a < 48); [apply Z.log2_lt_pow2; lia|lia].
Qed.

Lemma lor_add a b : Z.land a b = 0 -> Z.lor a b = a + b.
Proof. intros H. by rewrite Z.add_nocarry_lxor, Z.lxor_lor. Qed.

(** A mask of low bits and bit 63 sees the flags only. *)
Lemma leaf_land l phys w nx fb m h :
  paddr_ok l phys -> 0 <= m < psize l -> Z.land (leaf l phys w nx fb) (Z.lor m (b2m h (2 ^ 63))) = Z.land (low_flags l w nx fb) (Z.lor m (b2m h (2 ^ 63))).
Proof.
  intros Hp Hm. unfold leaf. rewrite Z.land_lor_distr_l, (Z.land_lor_distr_r phys), (paddr_land_low l phys m Hp Hm), Z.lor_0_l.
  destruct h; cbn [b2m]; [rewrite paddr_land_high by apply Hp|rewrite Z.land_0_r]; done.
Qed.

Lemma psize_min l : 4096 <= psize l.
Proof. unfold psize, shift. change 4096 with (2 ^ 12). apply Z.pow_le_mono_r; lia. Qed.

Lemma leaf_low l phys w nx fb m :
  paddr_ok l phys -> 0 <= m < 4096 -> Z.land (leaf l phys w nx fb) m = Z.land (low_flags l w nx fb) m.
Proof. intros Hp Hm. pose proof (psize_min l). pose proof (leaf_land l phys w nx fb m false Hp ltac:(lia)) as H1. cbn [b2m] in H1. by rewrite Z.lor_0_r in H1. Qed.

Lemma leaf_table l phys w nx fb : (1 <= l)%nat -> paddr_ok l phys -> PT_IS_TABLE (leaf l phys w nx fb) = false.
Proof.
  intros Hl Hp. unfold PT_IS_TABLE. change (Z.lor PT_FLAG_VALID PT_FLAG_LARGE) with 129. rewrite leaf_low by (done || lia).
  destruct l; [lia|]. by destruct w, nx, fb.
Qed.
Lemma leaf_large l phys w nx fb : (1 <= l)%nat -> paddr_ok l phys -> PT_IS_LARGE (leaf l phys w nx fb) = true.
Proof.
  intros Hl Hp. unfold PT_IS_LARGE. change (Z.lor PT_FLAG_VALID PT_FLAG_LARGE) with 129. rewrite leaf_low by (done || lia).
  destruct l; [lia|]. by destruct w, nx, fb.
Qed.
Lemma leaf_flags l phys w nx fb : paddr_ok l phys -> PT_TO_VMM_FLAGS (leaf l phys w nx fb) = vmm_flags w nx false.
Proof.
  intros Hp. unfold PT_TO_VMM_FLAGS. change (Z.lor PT_FLAG_WRITE PT_FLAG_NX) with (Z.lor 2 (b2m true (2 ^ 63))).
  pose proof (psize_min l). rewrite leaf_land by (done || lia). destruct l, w, nx, fb; reflexivity.
Qed.
Lemma leaf_addr l phys w nx fb : paddr_ok l phys -> pte_addr (leaf l phys w nx fb) = phys + b2m (fb && negb (l =? 0)%nat) 4096.
Proof.
  intros Hp. unfold pte_addr, leaf. rewrite Z.land_lor_distr_l, land_mask by (eapply paddr_mono; [|exact Hp]; lia).
  replace (Z.land (low_flags l w nx fb) PT_PADDR_MASK) with (b2m (fb && negb (l =? 0)%nat) 4096) by (by destruct l, w, nx, fb).
  destruct (fb && negb (l =? 0)%nat) eqn:E; cbn [b2m]; [|by rewrite Z.lor_0_r, Z.add_0_r]. apply lor_add, (paddr_land_low l); [done|].
  split; [lia|]. destruct l; [by rewrite andb_false_r in E|]. rewrite psize_succ. pose proof (psize_min l). lia.
Qed.

Lemma leaf_bit l phys w nx fb n :
  paddr_ok l phys -> 0 <= n < shift l \/ n = 63 -> Z.testbit (leaf l phys w nx fb) n = Z.testbit (low_flags l w nx fb) n.
Proof.
  intros [Ha Hm] Hn. unfold leaf. rewrite Z.lor_spec.
  assert (Z.testbit phys n = false) as ->; [|done]. destruct Hn as [Hn| ->].
  - unfold psize in Hm. apply Z.mod_divide in Hm as [k ->]; [|unfold shift; lia]. rewrite Z.mul_pow2_bits_low by lia. done.
  - destruct (decide (phys = 0)) as [->|]; [done|]. apply Z.bits_above_log2; [lia|]. assert (Z.log2 phys < 48); [apply Z.log2_lt_pow2; lia|lia].
Qed.

Lemma lor_range n a b : 0 <= n -> in_u n a -> in_u n b -> in_u n (Z.lor a b).
Proof.
  intros Hn Ha Hb. assert (E : Z.lor a b mod 2 ^ n = Z.lor a b).
  { rewrite <- Z.land_ones, Z.land_lor_distr_l, !Z.land_ones, !Z.mod_small by done. done. }
  unfold in_u. rewrite <- E. apply Z.mod_pos_bound. lia.
Qed.

Lemma leaf_range l phys w nx fb : paddr_ok l phys -> in_u 64 (leaf l phys w nx fb).
Proof.
  intros [Ha _]. apply lor_range; [lia|split; [lia|]; change (2 ^ 64) with (2 ^ 48 * 2 ^ 16); lia|].
  destruct l, w, nx, fb; split; vm_compute; done.
Qed.

(** The entry for a table. *)
Lemma table_entry a : paddr_ok 0 a ->
  PT_IS_TABLE (pte_new a PT_TABLE_FLAGS) = true /\ pte_addr (pte_new a PT_TABLE_FLAGS) = a /\ in_u 64 (pte_new a PT_TABLE_FLAGS).
Proof.
  intros Hp. unfold pte_new, PT_IS_TABLE, pte_addr. change (Z.lor PT_FLAG_VALID PT_FLAG_LARGE) with 129.
  rewrite !Z.land_lor_distr_l, land_mask, (paddr_land_low 0 a 129) by (done || (change (psize 0) with 4096; lia)). split; [done|].
  split; [by rewrite Z.lor_0_r|]. destruct Hp as [Ha _]. apply lor_range; [lia|split; [lia|]; change (2 ^ 64) with (2 ^ 48 * 2 ^ 16); lia|].
  split; vm_compute; done.
Qed.
End VmmFacts.
