(* ===== verification/VmmWalk.v ===== *)
(** * Page walks

    What the processor makes of the tables, and how a change of one entry changes it.
    The tables in memory are a set of pages with their levels, each used by one entry
    at most. *)

From S2P Require Import Prelude Pmm Vmm VmmFacts.

Module VmmWalk.
Import Pmm Vmm VmmFacts.
Open Scope Z_scope.

(** ** The walk of the processor *)

(** Writable, user, write-through, cache-disable, no-execute, and the bit of the page
    attribute table, which is elsewhere in an entry for a page of 4 KiB. *)
Definition attrs : Type := bool * bool * bool * bool * bool * bool.
Definition attrs_of (l : nat) (e : Z) : attrs :=
  (Z.testbit e 1, Z.testbit e 2, Z.testbit e 3, Z.testbit e 4, Z.testbit e 63, Z.testbit e (if (l =? 0)%nat then 7 else 12)).

(** The physical address and the attributes an entry for a page gives [v]. *)
Definition page (l : nat) (e v : Z) : Z * attrs :=
  (pte_addr e - pte_addr e mod psize l + v mod psize l, attrs_of l e).

(** The walk from the table at [a] of level [l], with the level of the page. *)
Fixpoint walk (f : Z -> Z) (l : nat) (a v : Z) : option (nat * (Z * attrs)) :=
  let e := load64 f (a + 8 * idx l v) in
  match l with
  | O => if Z.testbit e 0 then Some (O, page O e v) else None
  | S l' =>
      if PT_IS_TABLE e then walk f l' (pte_addr e) v
      else if PT_IS_LARGE e && (l <=? 2)%nat then Some (l, page l e v) else None
  end.

(** The attributes of a mapping, and the page it gives. *)
Definition given (w nx fb : bool) : attrs := (w, false, fb, false, nx, fb).

Lemma page_leaf l phys w nx fb v :
  (l <= 2)%nat -> paddr_ok l phys -> page l (leaf l phys w nx fb) v = (phys + v mod psize l, given w nx fb).
Proof.
  intros Hl Hp. unfold page. f_equal.
  - rewrite leaf_addr by done. destruct Hp as [Ha Hm]. apply Z.mod_divide in Hm as [k ->]; [|pose proof (psize_pos l); lia].
    rewrite (Z.add_comm (k * psize l)), Z.mod_add by (pose proof (psize_pos l); lia).
    rewrite (Z.mod_small (b2m _ _)); [lia|]. destruct l; [by rewrite andb_false_r; pose proof (psize_pos 0)|].
    rewrite psize_succ. pose proof (psize_min l). destruct fb; cbn [andb negb Nat.eqb b2m]; lia.
  - unfold attrs_of, given. assert (12 <= shift l) by (unfold shift; lia). rewrite !leaf_bit by (done || lia || by right).
    destruct l as [|l]; cbn [Nat.eqb]; rewrite leaf_bit by (done || (unfold shift; left; lia)); by destruct w, nx, fb.
Qed.

Lemma leaf_valid l phys w nx fb : paddr_ok l phys -> Z.testbit (leaf l phys w nx fb) 0 = true.
Proof. intros Hp. rewrite leaf_bit by (done || (unfold shift; left; lia)). by destruct l, w, nx, fb. Qed.

(** ** The tables *)

(** An entry of level [l]: nothing, a table, or a page. *)
Definition entry_ok (T : Z -> option nat) (l : nat) (e : Z) : Prop :=
  e = 0 \/ (exists a l', l = S l' /\ T a = Some l' /\ e = pte_new a PT_TABLE_FLAGS) \/
  (exists phys w nx fb, (l <= 2)%nat /\ paddr_ok l phys /\ e = leaf l phys w nx fb).

Abbreviation entry f a i := (load64 f (a + 8 * i)).

(** [T] gives the level of each table; the one at [top] has level [L]. *)
Record tables_ok (f : Z -> Z) (T : Z -> option nat) (L : nat) (top : Z) : Prop := {
  t_top : T top = Some L;
  t_addr : forall a l, T a = Some l -> paddr_ok 0 a;
  t_entry : forall a l i, T a = Some l -> 0 <= i < 512 -> entry_ok T l (entry f a i);
  t_inj : forall a l i a' l' i', T a = Some (S l) -> T a' = Some (S l') -> 0 <= i < 512 -> 0 <= i' < 512 ->
    PT_IS_TABLE (entry f a i) = true -> PT_IS_TABLE (entry f a' i') = true -> pte_addr (entry f a i) = pte_addr (entry f a' i') ->
    a = a' /\ i = i' }.

(** A table entry leads to a table of the next level. *)
Lemma next_table f T L top a l i :
  tables_ok f T L top -> T a = Some (S l) -> 0 <= i < 512 -> PT_IS_TABLE (entry f a i) = true -> T (pte_addr (entry f a i)) = Some l.
Proof.
  intros Hok Ha Hi Ht. destruct (t_entry _ _ _ _ Hok a _ i Ha Hi) as [E|[(b & l' & [= <-] & Hb & E)|(phys & w & nx & fb & Hl & Hp & E)]];
    rewrite E in *; [done| |].
  - destruct (table_entry b (t_addr _ _ _ _ Hok _ _ Hb)) as (_ & -> & _). done.
  - rewrite leaf_table in Ht by (done || lia). done.
Qed.

(** The slots of two entries. *)
Lemma slots_apart a i a' i' :
  paddr_ok 0 a -> paddr_ok 0 a' -> 0 <= i < 512 -> 0 <= i' < 512 -> (a, i) <> (a', i') ->
  a + 8 * i + 8 <= a' + 8 * i' \/ a' + 8 * i' + 8 <= a + 8 * i.
Proof.
  intros [_ H] [_ H'] Hi Hi' Hne. change (psize 0) with 4096 in *. apply Z.mod_divide in H as [k ->]; [|done]. apply Z.mod_divide in H' as [k' ->]; [|done].
  destruct (decide (k = k')) as [->|]; [|lia]. assert (i <> i') by congruence. lia.
Qed.

(** ** Paths *)

(** The addresses that agree on the indices from level [l] up to [L]. *)
Definition agree (L l : nat) (v v' : Z) : Prop := forall j, (l <= j <= L)%nat -> idx j v = idx j v'.

#[export] Instance agree_equiv L l : Equivalence (agree L l).
Proof.
  split; [by intros v j|by intros v v' H j Hj; rewrite H|intros v v' v'' H1 H2 j Hj]. by rewrite H1, H2.
Qed.

(** The walk of [v] from the table [a] of level [l] reaches the table [a'] of level [l']. *)
Inductive goes (f : Z -> Z) (v : Z) (L : nat) (top : Z) : nat -> Z -> Prop :=
  | goes_here : goes f v L top L top
  | goes_down l a :
      goes f v L top (S l) a -> PT_IS_TABLE (entry f a (idx (S l) v)) = true ->
      goes f v L top l (pte_addr (entry f a (idx (S l) v))).

Lemma goes_table f T L top v l a : tables_ok f T L top -> goes f v L top l a -> T a = Some l /\ (l <= L)%nat.
Proof.
  intros Hok. induction 1 as [|l a _ [IH1 IH2] Ht]; [split; [apply Hok|lia]|]. split; [|lia].
  eapply next_table; [done..|apply idx_range|done].
Qed.

Lemma goes_unique f T L top v v' l a :
  tables_ok f T L top -> goes f v L top l a -> goes f v' L top l a -> agree L (S l) v v'.
Proof.
  intros Hok H. revert v'. induction H as [|l a H IH Ht]; intros v' H'; [intros j Hj; lia|].
  destruct (goes_table _ _ _ _ _ _ _ Hok H) as [Ha Hl]. inversion H' as [E1 E2|l1 a1 H1 Ht1 E1 E2]; subst; [lia|].
  destruct (goes_table _ _ _ _ _ _ _ Hok H1) as [Ha1 Hl1].
  destruct (t_inj _ _ _ _ Hok _ _ _ _ _ _ Ha1 Ha (idx_range _ _) (idx_range _ _) Ht1 Ht) as [-> Ei]; [done|].
  intros j Hj. destruct (decide (j = S l)) as [->|]; [done|]. apply (IH v' H1). lia.
Qed.

Lemma goes_agree f L top v v' l a : goes f v L top l a -> agree L (S l) v v' -> goes f v' L top l a.
Proof.
  induction 1 as [|l a H IH Ht]; intros Ha; [constructor|]. rewrite (Ha (S l)) in Ht |- * by (split; [lia|]; clear -H; induction H; lia).
  apply goes_down; [|done]. apply IH. intros j Hj. apply Ha. lia.
Qed.

Lemma goes_walk f L top v l a : goes f v L top l a -> walk f L top v = walk f l a v.
Proof. induction 1 as [|l a _ IH Ht]; [done|]. rewrite IH. cbn [walk]. by rewrite Ht. Qed.

(** ** Writing an entry *)

(** The entry for [virt] of the table [a0] of level [l0] becomes [e0]. *)
Section write.
Context (f : Z -> Z) (T : Z -> option nat) (L : nat) (top virt a0 e0 : Z) (l0 : nat).
Hypothesis Hok : tables_ok f T L top.
Hypothesis Hgo : goes f virt L top l0 a0.
Hypothesis He0 : in_u 64 e0.

Definition written : Z -> Z := store64 f (a0 + 8 * idx l0 virt) e0.

Lemma written_same : entry written a0 (idx l0 virt) = e0.
Proof. by apply load64_same. Qed.

Lemma written_other a l i : T a = Some l -> 0 <= i < 512 -> (a, i) <> (a0, idx l0 virt) -> entry written a i = entry f a i.
Proof.
  intros Ha Hi Hne. destruct (goes_table _ _ _ _ _ _ _ Hok Hgo) as [Ha0 _]. apply load64_other.
  destruct (slots_apart a i a0 (idx l0 virt)); [by eapply t_addr|by eapply t_addr|done|apply idx_range|done|by right|by left].
Qed.

(** The entry is not on a path that does not share the indices, or stays above. *)
Lemma off_path v l a :
  goes f v L top l a -> ~ (l = l0 /\ agree L l0 v virt) -> (a, idx l v) <> (a0, idx l0 virt).
Proof.
  intros Hg Hne [= -> Ei]. apply Hne. destruct (goes_table _ _ _ _ _ _ _ Hok Hgo) as [Ha0 _], (goes_table _ _ _ _ _ _ _ Hok Hg) as [Ha _].
  assert (l = l0) as -> by congruence. split; [done|]. intros j Hj. destruct (decide (j = l0)) as [->|]; [done|].
  apply (goes_unique _ _ _ _ _ _ _ _ Hok Hg Hgo). lia.
Qed.

Lemma goes_written v l a : goes f v L top l a -> (l0 <= l)%nat \/ ~ agree L l0 v virt -> goes written v L top l a.
Proof.
  induction 1 as [|l a Hg IH Ht]; intros Hc; [constructor|]. destruct (goes_table _ _ _ _ _ _ _ Hok Hg) as [Ha _].
  assert (Hne : (a, idx (S l) v) <> (a0, idx l0 virt)) by (apply off_path; [done|]; destruct Hc; [lia|tauto]).
  rewrite <- (written_other a (S l) _ Ha (idx_range _ _) Hne) in Ht |- *. apply goes_down; [|done]. apply IH. destruct Hc; [left; lia|by right].
Qed.

Lemma walk_written_other v l a : goes f v L top l a -> ~ agree L l0 v virt -> walk written l a v = walk f l a v.
Proof.
  intros Hg Hn. revert a Hg. induction l as [|l IH]; intros a Hg; destruct (goes_table _ _ _ _ _ _ _ Hok Hg) as [Ha _]; cbn [walk];
    rewrite (written_other a _ _ Ha (idx_range _ _)) by (apply off_path; [done|tauto]); [done|].
  destruct (PT_IS_TABLE _) eqn:Ht; [|done]. apply IH. by apply goes_down.
Qed.

Lemma walk_other v : ~ agree L l0 v virt -> walk written L top v = walk f L top v.
Proof. apply walk_written_other. constructor. Qed.

Lemma walk_here v : agree L l0 v virt -> walk written L top v = walk written l0 a0 v /\ entry written a0 (idx l0 v) = e0.
Proof.
  intros Ha. destruct (goes_table _ _ _ _ _ _ _ Hok Hgo) as [_ Hl]. split.
  - apply goes_walk, goes_written; [|by left]. eapply goes_agree; [exact Hgo|]. intros j Hj. symmetry. apply Ha. lia.
  - rewrite (Ha l0) by lia. apply written_same.
Qed.

(** A page. *)
Lemma write_leaf phys w nx fb :
  (l0 <= 2)%nat -> paddr_ok l0 phys -> e0 = leaf l0 phys w nx fb ->
  tables_ok written T L top /\
  forall v, agree L l0 v virt -> walk written L top v = Some (l0, (phys + v mod psize l0, given w nx fb)).
Proof.
  intros Hl Hp E. destruct (goes_table _ _ _ _ _ _ _ Hok Hgo) as [Ha0 _]. split.
  - split; [apply Hok|apply Hok| |].
    + intros a l i Ha Hi. destruct (decide ((a, i) = (a0, idx l0 virt))) as [[= -> ->]|Hne].
      * rewrite written_same. assert (l = l0) as -> by congruence. right. right. by exists phys, w, nx, fb.
      * rewrite (written_other a l i) by done. by apply Hok.
    + assert (Hold : forall a l i, T a = Some (S l) -> 0 <= i < 512 -> PT_IS_TABLE (entry written a i) = true -> entry written a i = entry f a i).
      { intros a l i Ha Hi Ht. destruct (decide ((a, i) = (a0, idx l0 virt))) as [[= -> ->]|Hne]; [|by eapply written_other].
        rewrite written_same, E in Ht. assert (l0 = S l) by congruence. rewrite leaf_table in Ht by (done || lia). done. }
      intros a l i a' l' i' Ha Ha' Hi Hi' Ht Ht'. rewrite (Hold a l i), (Hold a' l' i') in * by done. by eapply t_inj.
  - intros v Hv. destruct (walk_here v Hv) as [-> Ee]. destruct l0 as [|l]; cbn [walk]; rewrite Ee, E.
    + rewrite leaf_valid, page_leaf by done. done.
    + rewrite leaf_table, leaf_large, (proj2 (Nat.leb_le _ _)) by (done || lia). cbn [andb]. by rewrite page_leaf.
Qed.

(** A new table, which is all zero. *)
Definition added (p : Z) (l : nat) : Z -> option nat := fun a => if decide (a = p) then Some l else T a.

Lemma write_table p l :
  l0 = S l -> T p = None -> paddr_ok 0 p -> e0 = pte_new p PT_TABLE_FLAGS -> (forall b, p <= b < p + 4096 -> f b = 0) ->
  PT_IS_TABLE (entry f a0 (idx l0 virt)) = false ->
  tables_ok written (added p l) L top /\ goes written virt L top l p /\
  forall v, agree L l0 v virt -> walk written L top v = None.
Proof.
  intros El HTp Hp E Hz Hnt. destruct (goes_table _ _ _ _ _ _ _ Hok Hgo) as [Ha0 _]. destruct (table_entry p Hp) as (Et & Ea & _).
  assert (Hpa0 : a0 <> p) by congruence.
  assert (Hzero : forall i, 0 <= i < 512 -> entry written p i = 0).
  { intros i Hi. unfold written. rewrite load64_other.
    - apply load64_zero. intros b Hb. apply Hz. lia.
    - destruct (slots_apart p i a0 (idx l0 virt)); [done|by eapply t_addr|done|apply idx_range|congruence|by right|by left]. }
  assert (Hadd : forall a l', T a = Some l' -> added p l a = Some l') by (intros; unfold added; rewrite decide_False by congruence; done).
  assert (Hinv : forall a l', added p l a = Some l' -> a <> p -> T a = Some l') by (intros a l'; unfold added; intros H ?; by rewrite decide_False in H).
  assert (Hent : forall a l' i, added p l a = Some (S l') -> 0 <= i < 512 -> PT_IS_TABLE (entry written a i) = true ->
    T a = Some (S l') /\ ((a, i) = (a0, idx l0 virt) /\ pte_addr (entry written a i) = p \/
      entry written a i = entry f a i /\ T (pte_addr (entry written a i)) = Some l')).
  { intros a l' i Ha Hi Ht. assert (a <> p) by (intros ->; by rewrite Hzero in Ht). apply Hinv in Ha; [|done]. split; [done|].
    destruct (decide ((a, i) = (a0, idx l0 virt))) as [[= -> ->]|Hne]; [left; by rewrite written_same, E|right].
    rewrite (written_other a _ i Ha Hi Hne) in *. split; [done|]. by eapply next_table. }
  split; [split|].
  - apply Hadd, Hok.
  - intros a l' Ha. destruct (decide (a = p)) as [->|]; [done|]. eapply t_addr; [done|]. by apply Hinv.
  - intros a l' i Ha Hi. destruct (decide (a = p)) as [->|Hap]; [left; by apply Hzero|]. apply Hinv in Ha; [|done].
    destruct (decide ((a, i) = (a0, idx l0 virt))) as [[= -> ->]|Hne].
    + rewrite written_same. right. left. exists p, l. split; [congruence|]. split; [|done]. unfold added. by rewrite decide_True.
    + rewrite (written_other a l' i) by done. destruct (t_entry _ _ _ _ Hok a l' i Ha Hi) as [?|[(b & l1 & ? & ? & ?)|?]]; [by left| |by right; right].
      right. left. exists b, l1. auto.
  - intros a l1 i a' l1' i' Ha Ha' Hi Hi' Ht Ht' Hpp. destruct (Hent a l1 i Ha Hi Ht) as [HTa [[E1 E2]|[E1 E2]]], (Hent a' l1' i' Ha' Hi' Ht') as [HTa' [[E1' E2']|[E1' E2']]].
    + split; congruence.
    + congruence.
    + congruence.
    + rewrite E1, E1' in *. by eapply t_inj.
  - assert (Hgo' : goes written virt L top l0 a0) by (apply goes_written; [done|by left]). split.
    + rewrite El in Hgo'. pose proof (goes_down _ _ _ _ _ _ Hgo') as Hd. rewrite <- El, written_same, E, Ea in Hd. by apply Hd.
    + intros v Hv. destruct (walk_here v Hv) as [-> Ee]. rewrite El in Ee |- *. cbn [walk]. rewrite Ee, E, Et, Ea.
      destruct l; cbn [walk]; by rewrite Hzero by apply idx_range.
Qed.
End write.
End VmmWalk.
