(* ===== verification/VmmRegion.v ===== *)
(** * Regions of the address space

    The addresses whose upper indices agree are those of a page; distances modulo the
    size of the address space. *)

From S2P Require Import Prelude Vmm VmmFacts VmmWalk.

Module VmmRegion.
Import Vmm VmmFacts VmmWalk.
Open Scope Z_scope.

(** The size of the address space below a table of level [L]. *)
Abbreviation space L := (psize (S L)).

(** The distance of [v] from [x]. *)
Definition off (L : nat) (v x : Z) : Z := (v - x) mod space L.

Lemma off_range L v x : 0 <= off L v x < space L.
Proof. apply Z.mod_pos_bound, psize_pos. Qed.

Lemma psize_le l l' : (l <= l')%nat -> psize l <= psize l'.
Proof. intros H. unfold psize, shift. apply Z.pow_le_mono_r; lia. Qed.

Lemma psize_add l n : psize (l + n) = psize l * 512 ^ Z.of_nat n.
Proof.
  induction n as [|n IH]; [rewrite Nat.add_0_r; lia|]. rewrite Nat.add_succ_r, psize_succ, IH, Nat2Z.inj_succ, Z.pow_succ_r by lia. lia.
Qed.

Lemma psize_divide l l' : (l <= l')%nat -> (psize l | psize l').
Proof. intros H. replace l' with (l + (l' - l))%nat by lia. rewrite psize_add. apply Z.divide_factor_l. Qed.

(** [n] indices as one number. *)
Lemma indices n k v v' :
  (forall j, (k <= j < k + n)%nat -> idx j v = idx j v') <-> (v / psize k) mod 512 ^ Z.of_nat n = (v' / psize k) mod 512 ^ Z.of_nat n.
Proof.
  revert k. induction n as [|n IH]; intros k; [rewrite !Z.mod_1_r; split; [done|intros _ j Hj; lia]|].
  rewrite Nat2Z.inj_succ, Z.pow_succ_r, !Z.rem_mul_r by lia. pose proof (psize_pos k).
  assert (Hd : forall x, x / psize k / 512 = x / psize (S k)) by (intros x; rewrite Z.div_div, psize_succ, Z.mul_comm by lia; done).
  rewrite !Hd. specialize (IH (S k)).
  pose proof (Z.mod_pos_bound (v / psize k) 512 ltac:(lia)). pose proof (Z.mod_pos_bound (v' / psize k) 512 ltac:(lia)). split.
  - intros Hj. assert (E : (v / psize k) mod 512 = (v' / psize k) mod 512) by (apply (Hj k); lia).
    rewrite E, (proj1 IH); [done|]. intros j Hj'. apply Hj. lia.
  - intros E. assert (E0 : (v / psize k) mod 512 = (v' / psize k) mod 512) by lia.
    assert (E1 : (v / psize (S k)) mod 512 ^ Z.of_nat n = (v' / psize (S k)) mod 512 ^ Z.of_nat n) by lia.
    intros j Hj. destruct (decide (j = k)) as [->|]; [done|]. apply (proj2 IH E1). lia.
Qed.

Lemma agree_div L k v x : (k <= L)%nat -> agree L k v x <-> (v / psize k) mod 512 ^ Z.of_nat (S L - k) = (x / psize k) mod 512 ^ Z.of_nat (S L - k).
Proof.
  intros Hk. rewrite <- indices. unfold agree. split; intros H j Hj; apply H; lia.
Qed.

(** The page of an aligned address. *)
Lemma agree_off L k v x : (k <= L)%nat -> x mod psize k = 0 -> agree L k v x <-> off L v x < psize k.
Proof.
  intros Hk Hx. rewrite agree_div by done. unfold off. pose proof (psize_pos k) as Hp.
  replace (psize (S L)) with (psize k * 512 ^ Z.of_nat (S L - k)) by (rewrite <- psize_add; f_equal; lia).
  set (m := 512 ^ Z.of_nat (S L - k)). assert (Hm : 0 < m) by (apply Z.pow_pos_nonneg; lia).
  apply Z.mod_divide in Hx as [q ->]; [|lia]. rewrite Z.div_mul by lia. rewrite Z.rem_mul_r by lia.
  replace (v - q * psize k) with (v + (- q) * psize k) by lia. rewrite Z.mod_add, Z.div_add by lia.
  pose proof (Z.mod_pos_bound v (psize k) Hp). replace (v / psize k + - q) with (v / psize k - q) by lia.
  pose proof (Z.mod_pos_bound (v / psize k - q) m Hm). split.
  - intros E. assert ((v / psize k - q) mod m = 0) as ->; [|lia]. by rewrite Zminus_mod, E, Z.sub_diag, Z.mod_0_l by lia.
  - intros Hlt. assert (E : (v / psize k - q) mod m = 0) by nia. apply Z.mod_divide in E as [c E]; [|lia].
    replace (v / psize k) with (q + c * m) by lia. by rewrite Z.mod_add by lia.
Qed.

Lemma off_mod L k v x : (k <= L)%nat -> x mod psize k = 0 -> off L v x < psize k -> v mod psize k = off L v x.
Proof.
  intros Hk Hx Ho. unfold off in *. destruct (psize_divide k (S L)) as [c Ec]; [lia|]. pose proof (psize_pos k). pose proof (psize_pos (S L)).
  assert (E : ((v - x) mod psize (S L)) mod psize k = v mod psize k).
  { rewrite Z.mod_mod_divide by (by exists c). rewrite Zminus_mod, Hx, Z.sub_0_r, Z.mod_mod by lia. done. }
  rewrite <- E. apply Z.mod_small. pose proof (Z.mod_pos_bound (v - x) (psize (S L)) ltac:(lia)). lia.
Qed.

Lemma off_shift L v x i : 0 <= i < space L -> off L v (x + i) = if decide (i <= off L v x) then off L v x - i else off L v x - i + space L.
Proof.
  intros Hi. unfold off. replace (v - (x + i)) with (v - x - i) by lia. rewrite Zminus_mod, (Z.mod_small i) by lia.
  pose proof (Z.mod_pos_bound (v - x) (space L) (psize_pos _)). case_decide; [apply Z.mod_small; lia|].
  rewrite <- (Z.mod_add _ 1) by (pose proof (psize_pos (S L)); lia). rewrite Z.mod_small by lia. lia.
Qed.

(** A page within a region. *)
Lemma off_page L k v x i : 0 <= i -> i + psize k <= space L -> off L v (x + i) < psize k <-> i <= off L v x < i + psize k.
Proof.
  intros Hi Hk. pose proof (off_range L v x). pose proof (psize_pos k). rewrite off_shift by lia. case_decide; lia.
Qed.
Lemma off_inside L v x i : 0 <= i -> i <= off L v x -> off L v (x + i) = off L v x - i.
Proof. intros Hi Hv. pose proof (off_range L v x). rewrite off_shift by lia. by rewrite decide_True. Qed.

(** [virt & ~(size - 1)] *)
Lemma round_down virt l : (l <= 4)%nat -> in_u 64 virt -> Z.land virt (u64 (Z.lnot (psize l - 1))) = virt - virt mod psize l.
Proof.
  intros Hl Hv. assert (Hs : 0 <= shift l <= 48) by (unfold shift; lia).
  assert (E : u64 (Z.lnot (psize l - 1)) = Z.shiftl (Z.ones (64 - shift l)) (shift l)).
  { unfold Z.lnot, wrap. replace (Z.pred (- (psize l - 1))) with (2 ^ 64 - psize l + (-1) * 2 ^ 64) by lia. rewrite Z.mod_add by lia.
    rewrite Z.mod_small by (pose proof (psize_pos l); pose proof (psize_le l 4 Hl); change (psize 4) with (2 ^ 48) in *; lia).
    rewrite Z.shiftl_mul_pow2, Z.ones_equiv by lia. unfold psize.
    replace (2 ^ 64) with (2 ^ (64 - shift l) * 2 ^ shift l) by (rewrite <- Z.pow_add_r by lia; f_equal; lia). lia. }
  rewrite E. replace (virt - virt mod psize l) with (Z.shiftl (Z.shiftr virt (shift l)) (shift l)).
  2:{ rewrite Z.shiftl_mul_pow2, Z.shiftr_div_pow2 by lia. fold (psize l). pose proof (Z.div_mod virt (psize l)). pose proof (psize_pos l). lia. }
  apply Z.bits_inj'. intros n Hn. rewrite Z.land_spec, !Z.shiftl_spec by lia. destruct (decide (shift l <= n)).
  - rewrite Z.shiftr_spec, Z.testbit_ones by lia. replace (n - shift l + shift l) with n by lia. destruct (decide (n < 64)).
    + rewrite (proj2 (Z.leb_le _ _)), (proj2 (Z.ltb_lt _ _)) by lia. by rewrite andb_true_r.
    + destruct Hv as [Hv1 Hv2]. assert (Z.testbit virt n = false) as ->; [|done]. destruct (decide (virt = 0)) as [->|]; [apply Z.bits_0|].
      apply Z.bits_above_log2; [lia|]. assert (Z.log2 virt < 64); [apply Z.log2_lt_pow2; lia|lia].
  - rewrite !(Z.testbit_neg_r _ (n - shift l)) by lia. apply andb_false_r.
Qed.
End VmmRegion.
