(* ===== verification/VmmTables.v ===== *)
(** * Tables from the allocator

    What the page tables need of the physical memory manager, as an interface, and
    the state of both together. *)

From S2P Require Import Prelude Effects Pmm PmmFacts PmmRange PmmAlloc PmmSpec Vmm VmmFacts VmmWalk VmmRegion.

Module VmmTables.
Import Effects Pmm PmmFacts PmmRange PmmAlloc PmmSpec Vmm VmmFacts VmmWalk VmmRegion.
Open Scope Z_scope.

(** ** The interface *)

Definition ready (s : pmm) : Prop := pmm_ok s /\ allocations_disallowed s = false.

(** Free memory only becomes less. *)
Definition later (s s' : pmm) : Prop :=
  forall a, types_at (memmap s') a = [MEMMAP_USABLE] -> types_at (memmap s) a = [MEMMAP_USABLE].

#[export] Instance later_pre : PreOrder later.
Proof. split; [by intros s a|]. intros s s' s'' H1 H2 a H. by apply H1, H2. Qed.

(** The page at [p] was free and is now taken and zero; nothing else changes. *)
Definition fresh_page (s : pmm) (p : Z) (s' : pmm) : Prop :=
  paddr_ok 0 p /\ ready s' /\ later s s' /\
  (forall b, p <= b < p + 4096 -> types_at (memmap s) b = [MEMMAP_USABLE] /\
    types_at (memmap s') b = [MEMMAP_BOOTLOADER_RECLAIMABLE] /\ mem s' b = 0) /\
  (forall b, ~ (p <= b < p + 4096) -> mem s' b = mem s b) /\
  (forall b, types_at (memmap s) b = [MEMMAP_BOOTLOADER_RECLAIMABLE] -> types_at (memmap s') b = [MEMMAP_BOOTLOADER_RECLAIMABLE]).

(** There is no page, or no entry left in the memory map. *)
Definition out_of_memory (s : pmm) : Prop :=
  memmap_max_entries s <= zlen (memmap s) \/ no_room s (length (memmap s)) 4096 4096 false.

(** A source of zeroed pages; when it panics, the state it panics in has no page to give. *)
Class PageSource (alloc : P Z) : Prop :=
  page_alloc s : ready s -> wp alloc (fun p s' => fresh_page s p s') out_of_memory s.

(** The physical memory manager is such a source. *)
#[export] Instance ext_mem_source : PageSource (ext_mem_alloc PT_SIZE).
Proof.
  intros s [Hs Hd]. assert (Eup : ALIGN_UP PT_SIZE 4096 = 4096) by reflexivity.
  eapply wp_mono; [apply (ext_alloc_wp s PT_SIZE MEMMAP_BOOTLOADER_RECLAIMABLE 4096 false); done| |]; rewrite Eup; [|intros h [[_ ?]|[-> ?]]; [by left|by right]].
  intros p s' Hg. pose proof (granted_ok _ _ _ _ _ _ _ Hs Hg) as Hs'.
  destruct Hg as (len & m' & Hlen & H0 & Hal & _ & H32 & Hus & Hcl & _ & ->). destruct H32 as [H32 _]. specialize (H32 eq_refl).
  split; [split; [lia|done]|]. split; [done|]. cbn [memmap set_memmap set_mem mem].
  split; [|split; [|split]].
  - intros a Ha. change (types_at m' a = [MEMMAP_USABLE]) in Ha. destruct (decide (p <= a < p + len)) as [Hin|Hout].
    + by rewrite (claims_inside _ _ _ _ _ _ _ Hcl Hin) in Ha.
    + pose proof (claims_outside _ _ _ _ _ _ _ Hcl Hout) as Ho. rewrite Ha in Ho. symmetry in Ho. apply perm_one in Ho as Hk.
      by rewrite <- (kept_usable _ _ _ Hk).
  - intros b Hb. split; [apply Hus; lia|]. split; [eapply claims_inside; [done|lia|done]|]. unfold zeroed.
    by rewrite (proj2 (Z.leb_le _ _)), (proj2 (Z.ltb_lt _ _)) by lia.
  - intros b Hb. unfold zeroed. destruct ((p <=? b) && (b <? p + 4096)) eqn:E; [|done]. apply andb_true_iff in E as [?%Z.leb_le ?%Z.ltb_lt]. lia.
  - intros b Hb. destruct (decide (p <= b < p + len)) as [Hin|Hout]; [by rewrite Hus in Hb|]. by eapply block_outside.
Qed.

(** ** The state *)

(** The allocator is ready, and the tables are in memory taken from it. *)
Record vm (L : nat) (top : Z) (s : pmm) (T : Z -> option nat) : Prop := {
  vm_ready : ready s;
  vm_tables : tables_ok (mem s) T L top;
  vm_taken : forall a l b, T a = Some l -> a <= b < a + 4096 -> types_at (memmap s) b = [MEMMAP_BOOTLOADER_RECLAIMABLE] }.

(** What the tables map: the physical address and the attributes of an address. *)
Definition view (L : nat) (top : Z) (s : pmm) (v : Z) : option (Z * attrs) := snd <$> walk (mem s) L top v.

(** Tables whose entries are the same. *)
Section same.
Context (f f' : Z -> Z) (T : Z -> option nat) (L : nat) (top : Z).
Hypothesis Hok : tables_ok f T L top.
Hypothesis Hsame : forall a l i, T a = Some l -> 0 <= i < 512 -> entry f' a i = entry f a i.

Lemma same_tables : tables_ok f' T L top.
Proof.
  split; [apply Hok|apply Hok| |].
  - intros a l i Ha Hi. rewrite (Hsame a l i Ha Hi). by apply Hok.
  - intros a l i a' l' i' Ha Ha' Hi Hi'. rewrite (Hsame a _ i Ha Hi), (Hsame a' _ i' Ha' Hi'). by eapply t_inj.
Qed.

Lemma same_goes v l a : goes f v L top l a -> goes f' v L top l a.
Proof.
  induction 1 as [|l a Hg IH Ht]; [constructor|]. destruct (goes_table _ _ _ _ _ _ _ Hok Hg) as [Ha _].
  rewrite <- (Hsame a _ _ Ha (idx_range _ _)) in Ht |- *. by apply goes_down.
Qed.

Lemma same_walk v : walk f' L top v = walk f L top v.
Proof.
  assert (H : forall l a, goes f v L top l a -> walk f' l a v = walk f l a v); [|apply H; constructor].
  induction l as [|l IH]; intros a Hg; destruct (goes_table _ _ _ _ _ _ _ Hok Hg) as [Ha _]; cbn [walk];
    rewrite (Hsame a _ _ Ha (idx_range _ _)); [done|]. destruct (PT_IS_TABLE _) eqn:Ht; [|done]. apply IH. by apply goes_down.
Qed.
End same.

(** A page is taken; the tables do not change. *)
Lemma fresh_entries L top s T p s' a l i :
  vm L top s T -> fresh_page s p s' -> T a = Some l -> 0 <= i < 512 -> entry (mem s') a i = entry (mem s) a i.
Proof.
  intros Hvm (_ & _ & _ & Hin & Hout & _) Ha Hi. apply load64_ext. intros b Hb. apply Hout. intros Hp.
  destruct (Hin b Hp) as (Hu & _). rewrite (vm_taken _ _ _ _ Hvm a l b Ha) in Hu by lia. done.
Qed.

Lemma fresh_new L top s T p s' : vm L top s T -> fresh_page s p s' -> T p = None.
Proof.
  intros Hvm (_ & _ & _ & Hin & _). destruct (T p) as [l|] eqn:E; [|done]. destruct (Hin p) as (Hu & _); [lia|].
  rewrite (vm_taken _ _ _ _ Hvm p l p E) in Hu by lia. done.
Qed.

Lemma fresh_vm L top s T p s' : vm L top s T -> fresh_page s p s' -> vm L top s' T.
Proof.
  intros Hvm Hf. pose proof Hf as (_ & Hr & _ & _ & _ & Hty). split; [done| |].
  - eapply same_tables; [apply Hvm|]. intros. by eapply fresh_entries.
  - intros a l b Ha Hb. apply Hty. by eapply vm_taken.
Qed.
End VmmTables.
