(* ===== verification/VmmMap.v ===== *)
(** * What a mapping does

    The relation between the states before and after a region of the address space is
    mapped, how it composes, and the single writes as instances of it. *)

From S2P Require Import Prelude Effects Pmm PmmFacts PmmAlloc Vmm VmmFacts VmmWalk VmmRegion VmmTables.

Module VmmMap.
Import Effects Pmm PmmFacts PmmAlloc Vmm VmmFacts VmmWalk VmmRegion VmmTables.
Open Scope Z_scope.

Section tables.
Context (L : nat) (top : Z).

(** [v] is mapped as before, by a page of the same size or a smaller one. *)
Definition keeps (s s' : pmm) (v : Z) : Prop :=
  view L top s' v = view L top s v /\
  forall l x, walk (mem s') L top v = Some (l, x) -> exists l0, (l <= l0)%nat /\ walk (mem s) L top v = Some (l0, x).

Lemma keeps_trans s1 s2 s3 v : keeps s1 s2 v -> keeps s2 s3 v -> keeps s1 s3 v.
Proof.
  intros [E1 H1] [E2 H2]. split; [congruence|]. intros l x (l0 & Hl & (l1 & Hl1 & Hw)%H1)%H2. exists l1. split; [lia|done].
Qed.

Lemma keeps_same s s' v : walk (mem s') L top v = walk (mem s) L top v -> keeps s s' v.
Proof. intros E. unfold keeps, view. rewrite E. split; [done|]. intros l x. by exists l. Qed.

(** The pages of [v] are of level [k] at most. *)
Definition low (k : nat) (s : pmm) (v : Z) : Prop := forall l x, walk (mem s) L top v = Some (l, x) -> (l <= k)%nat.

Lemma low_keeps k s s' v : low k s v -> keeps s s' v -> low k s' v.
Proof. intros Hl [_ H] l x (l0 & ? & ?%Hl)%H. lia. Qed.

(** From [s] to [s'], the [n] bytes from [virt] on are mapped to those from [phys] on,
    by pages of level [k] at most; all else is kept. *)
Record maps (k : nat) (n virt phys : Z) (a : attrs) (s s' : pmm) : Prop := {
  m_vm : exists T, vm L top s' T;
  m_later : later s s';
  m_goes : forall v l t, (k <= l)%nat -> goes (mem s) v L top l t -> goes (mem s') v L top l t;
  m_in : forall v, off L v virt < n -> exists l, (l <= k)%nat /\ walk (mem s') L top v = Some (l, (phys + off L v virt, a));
  m_out : forall v, n <= off L v virt -> keeps s s' v }.

Lemma maps_nothing k virt phys a s T : vm L top s T -> maps k 0 virt phys a s s.
Proof.
  intros H. split; [by exists T|done|done|intros v Hv|intros; by apply keeps_same].
  pose proof (off_range L v virt). lia.
Qed.

(** Where nothing is mapped, the region does not matter. *)
Lemma maps_none k virt phys a virt' phys' a' s s' : maps k 0 virt phys a s s' -> maps k 0 virt' phys' a' s s'.
Proof.
  intros H. split; [apply H..| |]; intros v Hv; [pose proof (off_range L v virt'); lia|].
  apply (m_out _ _ _ _ _ _ _ H). apply off_range.
Qed.
Lemma maps_keeps k virt phys a s s' v : maps k 0 virt phys a s s' -> keeps s s' v.
Proof. intros H. apply (m_out _ _ _ _ _ _ _ H), off_range. Qed.

(** Two regions one after the other. *)
Lemma off_next v virt n m : 0 <= n -> 0 <= m -> n + m <= space L ->
  (off L v virt < n /\ m <= off L v (virt + n)) \/ (n <= off L v virt < n + m /\ off L v (virt + n) = off L v virt - n) \/
  (n + m <= off L v virt /\ m <= off L v (virt + n)).
Proof.
  intros Hn Hm Hs. pose proof (off_range L v virt). destruct (decide (n = space L)) as [->|].
  { left. split; [lia|]. assert (m = 0) as -> by lia. apply off_range. }
  rewrite off_shift by lia. case_decide; lia.
Qed.

Lemma maps_seq k n m virt phys a s s1 s2 :
  0 <= n -> 0 <= m -> n + m <= space L ->
  maps k n virt phys a s s1 -> maps k m (virt + n) (phys + n) a s1 s2 -> maps k (n + m) virt phys a s s2.
Proof.
  intros Hn Hm Hs H1 H2. split; [apply H2|etrans; [apply H1|apply H2]| | |].
  - intros v l t Hl Hg. apply H2, H1; done.
  - intros v Hv. destruct (off_next v virt n m Hn Hm Hs) as [[Hi Ho]|[[Hi Eo]|[]]]; [| |lia].
    + destruct (m_in _ _ _ _ _ _ _ H1 v Hi) as (l & Hl & E). destruct (m_out _ _ _ _ _ _ _ H2 v Ho) as [Ev Hk].
      unfold view in Ev. rewrite E in Ev. destruct (walk (mem s2) L top v) as [[l2 x2]|]; [|done]. injection Ev as ->.
      destruct (Hk l2 _ eq_refl) as (l0 & ? & E0). rewrite E in E0. injection E0 as <-. exists l2. split; [lia|done].
    + destruct (m_in _ _ _ _ _ _ _ H2 v) as (l & Hl & E); [lia|]. exists l. split; [done|]. rewrite E, Eo. do 3 f_equal. lia.
  - intros v Hv. destruct (off_next v virt n m Hn Hm Hs) as [[]|[[]|[Hi Ho]]]; [lia..|].
    eapply keeps_trans; [apply H1|apply H2]; lia.
Qed.

(** Steps that keep everything first. *)
Lemma maps_after k n virt phys a s s1 s2 :
  maps k 0 virt phys a s s1 -> maps k n virt phys a s1 s2 -> maps k n virt phys a s s2.
Proof.
  intros H1 H2. split; [apply H2|etrans; [apply H1|apply H2]| |apply H2|].
  - intros v l t Hl Hg. apply H2, H1; done.
  - intros v Hv. eapply keeps_trans; [by eapply maps_keeps|by apply H2].
Qed.

(** Pages that are smaller than [k] allows. *)
Lemma maps_weaken k k' n virt phys a s s' : (k <= k')%nat -> maps k n virt phys a s s' -> maps k' n virt phys a s s'.
Proof.
  intros Hk H. split; [apply H|apply H| | |apply H].
  - intros v l t Hl. apply H. lia.
  - intros v Hv. destruct (m_in _ _ _ _ _ _ _ H v Hv) as (l & ? & ?). exists l. split; [lia|done].
Qed.

(** ** Writes *)

Lemma vm_written s T T' f : vm L top s T -> tables_ok f T' L top ->
  (forall a l b, T' a = Some l -> a <= b < a + 4096 -> types_at (memmap s) b = [MEMMAP_BOOTLOADER_RECLAIMABLE]) -> vm L top (set_mem f s) T'.
Proof. intros Hvm Ht Hty. split; [apply Hvm|done|done]. Qed.

Lemma maps_leaf k s T virt phys w nx fb t :
  vm L top s T -> goes (mem s) virt L top k t -> (k <= 2)%nat -> virt mod psize k = 0 -> paddr_ok k phys ->
  maps k (psize k) virt phys (given w nx fb) s (set_mem (store64 (mem s) (t + 8 * idx k virt) (leaf k phys w nx fb)) s).
Proof.
  intros Hvm Hg Hk Hal Hp. pose proof (vm_tables _ _ _ _ Hvm) as Hok. pose proof (leaf_range k phys w nx fb Hp) as Hr.
  destruct (goes_table _ _ _ _ _ _ _ Hok Hg) as [_ HkL].
  destruct (write_leaf (mem s) T L top virt t _ k Hok Hg Hr phys w nx fb Hk Hp eq_refl) as [Hok' Hw].
  split; cbn [mem set_mem].
  - exists T. eapply vm_written; [done..|]. apply Hvm.
  - intros x Hx. exact Hx.
  - intros v l t' Hl Hgo. eapply goes_written; [done..|by left].
  - intros v Hv. exists k. split; [done|]. rewrite Hw by (by apply agree_off). by rewrite (off_mod L k v virt).
  - intros v Hv. apply keeps_same. eapply walk_other; [done..|]. rewrite agree_off by done. lia.
Qed.

(** A table where there was none: what was mapped there is gone. *)
Lemma new_table s T p s1 virt t l :
  vm L top s T -> fresh_page s p s1 -> goes (mem s) virt L top (S l) t -> PT_IS_TABLE (entry (mem s) t (idx (S l) virt)) = false ->
  let s2 := set_mem (store64 (mem s1) (t + 8 * idx (S l) virt) (pte_new p PT_TABLE_FLAGS)) s1 in
  (exists T', vm L top s2 T') /\ later s s2 /\ goes (mem s2) virt L top l p /\
  (forall v l' t', goes (mem s) v L top l' t' -> goes (mem s2) v L top l' t') /\
  (forall v, ~ agree L (S l) v virt -> walk (mem s2) L top v = walk (mem s) L top v) /\
  (forall v, agree L (S l) v virt -> walk (mem s2) L top v = None).
Proof.
  intros Hvm Hf Hg Hnt s2. pose proof (vm_tables _ _ _ _ Hvm) as Hok.
  pose proof (fresh_vm _ _ _ _ _ _ Hvm Hf) as Hvm1. pose proof (vm_tables _ _ _ _ Hvm1) as Hok1.
  assert (Hsame : forall a l i, T a = Some l -> 0 <= i < 512 -> entry (mem s1) a i = entry (mem s) a i) by (intros; by eapply fresh_entries).
  assert (Hg1 : goes (mem s1) virt L top (S l) t) by (by apply (same_goes _ _ _ _ _ Hok Hsame)).
  destruct (goes_table _ _ _ _ _ _ _ Hok Hg) as [Ht _]. pose proof Hf as (Hp & Hr & Hla & Hin & Hout & Hty).
  rewrite <- (Hsame t _ _ Ht (idx_range _ _)) in Hnt. destruct (table_entry p Hp) as (_ & _ & He).
  destruct (write_table (mem s1) T L top virt t _ (S l) Hok1 Hg1 He p l eq_refl) as (Hok2 & Hgo & Hno);
    [exact (fresh_new _ _ _ _ _ _ Hvm Hf)|done|done|intros; by apply Hin|done|].
  split; [|split; [exact Hla|split; [exact Hgo|split; [|split; [|exact Hno]]]]].
  - exists (added T p l). apply (vm_written s1 T); [done|exact Hok2|]. intros a l' b Ha Hb. unfold added in Ha.
    case_decide as E; [subst a; by apply Hin|]. by eapply vm_taken.
  - intros v l' t' Hgv. assert (Hgv1 : goes (mem s1) v L top l' t') by (by apply (same_goes _ _ _ _ _ Hok Hsame)). clear Hgv.
    induction Hgv1 as [|l' t' Hgv IH Htab]; [constructor|]. destruct (goes_table _ _ _ _ _ _ _ Hok1 Hgv) as [Ht' _].
    assert (Hne : (t', idx (S l') v) <> (t, idx (S l) virt)) by congruence.
    assert (E : entry (mem s2) t' (idx (S l') v) = entry (mem s1) t' (idx (S l') v)) by (eapply written_other; [done..|apply idx_range|done]).
    rewrite <- E in Htab |- *. by apply goes_down.
  - intros v Hv. etrans; [eapply walk_other; [exact Hok1|exact Hg1|done]|by apply (same_walk _ _ _ _ _ Hok Hsame)].
Qed.
End tables.
End VmmMap.
