(* ===== verification/VmmPage.v ===== *)
(** * Mapping a page

    [get_next_level] and [map_page], against the interface of the allocator. *)

From S2P Require Import Prelude Effects Pmm PmmFacts PmmAlloc Vmm VmmFacts VmmWalk VmmRegion VmmTables VmmMap.

Module VmmPage.
Import Effects Pmm PmmFacts PmmAlloc Vmm VmmFacts VmmWalk VmmRegion VmmTables VmmMap.
Open Scope Z_scope.

(** The level of the pages of a size. *)
Definition size_level (sz : page_size) : nat := match sz with Size4KiB => 0 | Size2MiB => 1 | Size1GiB => 2 end.

Lemma size_index_level sz : size_index sz = Z.of_nat (size_level sz).
Proof. by destruct sz. Qed.
Lemma page_sizes_psize l : (l <= 4)%nat -> page_sizes !! l = Some (psize l).
Proof. intros Hl. do 5 (destruct l as [|l]; [done|]). lia. Qed.

(** Pages of an aligned region. *)
Lemma page_add k l x q : (k <= l)%nat -> x mod psize l = 0 -> (x + q * psize k) mod psize k = 0.
Proof.
  intros Hk Hx. pose proof (psize_pos k). pose proof (psize_pos l). rewrite Z.mod_add by lia. apply Z.mod_divide; [lia|].
  etrans; [by apply (psize_divide k l)|]. apply Z.mod_divide; [lia|done].
Qed.

Lemma paddr_end l phys : (l <= 4)%nat -> paddr_ok l phys -> phys + psize l <= 2 ^ 48.
Proof.
  intros Hl [Ha Hm]. pose proof (psize_pos l). apply Z.mod_divide in Hm as [q ->]; [|lia].
  destruct (psize_divide l 4) as [d Ed]; [lia|]. change (psize 4) with (2 ^ 48) in Ed. rewrite Ed in Ha |- *.
  assert (q < d) by (apply Z.mul_lt_mono_pos_r with (psize l); lia). nia.
Qed.

Section tables.
Context `{Hsource : !PageSource (ext_mem_alloc PT_SIZE)}.
Context (L : nat) (top : Z).

Abbreviation maps := (maps L top).
Abbreviation low := (low L top).
Abbreviation keeps := (keeps L top).
Abbreviation vm := (vm L top).
Abbreviation plain := (given false false false).

(** ** Failures *)

(** The page of [v] is too large and for a framebuffer. *)
Definition stopped (k : nat) (s : pmm) (v : Z) : Prop :=
  exists l x w nx, (k < l)%nat /\ walk (mem s) L top v = Some (l, (x, given w nx true)).

Lemma stopped_keeps k s s' v : keeps s s' v -> stopped k s' v -> stopped k s v.
Proof. intros [_ H] (l & x & w & nx & Hl & (l0 & ? & E)%H). exists l0, x, w, nx. split; [lia|done]. Qed.

Lemma stopped_low k s v : low k s v -> ~ stopped k s v.
Proof. intros H (l & x & w & nx & Hl & E%H). lia. Qed.

(** ** The loop over the pages of a region *)

Lemma map_loop_step n map virt phys i old new :
  map_loop (S n) map virt phys i old new =
  if i <? old then _ ← map (u64 (virt + i)) (u64 (phys + i)); map_loop n map virt phys (i + new) old new else mret tt.
Proof. done. Qed.

Lemma map_loop_maps map k virt phys a old new E s0 n i s :
  0 < new -> 0 <= i -> i + new * Z.of_nat n = old -> (new | i) -> old <= space L ->
  0 <= virt -> 0 <= phys -> virt + old <= 2 ^ 64 -> phys + old <= 2 ^ 64 ->
  (forall j s, 0 <= j -> j + new <= old -> (new | j) -> maps k j virt phys a s0 s ->
    wp (map (virt + j) (phys + j)) (fun _ => maps k new (virt + j) (phys + j) a s) E s) ->
  maps k i virt phys a s0 s -> wp (map_loop (S n) map virt phys i old new) (fun _ => maps k old virt phys a s0) E s.
Proof.
  intros Hn. revert i s. induction n as [|n IH]; intros i s Hi Ho Hd Hs Hv Hp Hv64 Hp64 Hmap Hm; rewrite map_loop_step.
  { assert (i = old) as -> by lia. rewrite Z.ltb_irrefl. by apply wp_ret. }
  rewrite Nat2Z.inj_succ, Z.mul_succ_r in Ho. assert (Hin : i + new <= old) by nia.
  rewrite (proj2 (Z.ltb_lt _ _)), !wrap_small by (try split; lia). apply wp_bind. eapply wp_mono; [by apply Hmap| |done].
  cbn beta. intros _ s' Hm'. apply IH; [lia|lia| |done..|].
  - apply Z.divide_add_r; [done|]. exists 1. lia.
  - apply (maps_seq L top k i new) with s; [lia|lia|lia|done|done].
Qed.

(** ** The next level *)

(** [map] maps pages where nothing has to be split. *)
Definition splits (map : Z -> Z -> Z -> page_size -> P unit) (sz : page_size) : Prop :=
  let k := size_level sz in forall s T v p w nx,
  vm s T -> in_u 64 v -> v mod psize k = 0 -> paddr_ok k p -> low k s v ->
  wp (map v p (vmm_flags w nx false) sz) (fun _ => maps k (psize k) v p (given w nx false) s) out_of_memory s.

(** Addresses below the same entry. *)
Lemma walk_entry f v virt l t : goes f virt L top l t -> agree L l v virt -> (l <= L)%nat -> walk f L top v = walk f l t v /\ idx l v = idx l virt.
Proof.
  intros Hg Ha Hl. split; [|apply Ha; lia]. apply goes_walk. eapply goes_agree; [done|]. intros j Hj. symmetry. apply Ha. lia.
Qed.

Lemma walk_leaf f v virt l t phys w nx fb :
  goes f virt L top (S l) t -> agree L (S l) v virt -> (S l <= L)%nat -> (S l <= 2)%nat -> paddr_ok (S l) phys ->
  entry f t (idx (S l) virt) = leaf (S l) phys w nx fb -> walk f L top v = Some (S l, (phys + v mod psize (S l), given w nx fb)).
Proof.
  intros Hg Ha HlL Hl Hp He. destruct (walk_entry f v virt _ _ Hg Ha HlL) as [-> Ei]. cbn [walk].
  rewrite Ei, He, leaf_table, leaf_large, (proj2 (Nat.leb_le _ _)) by (done || lia). cbn [andb]. by rewrite page_leaf.
Qed.

(** The bit for framebuffers in the address of a large page. *)
Lemma fb_misaligned l phys : paddr_ok (S l) phys -> Z.land (phys + b2m (true && negb (S l =? 0)%nat) 4096) (psize (S l) - 1) <> 0.
Proof.
  intros [_ Hm]. cbn [b2m andb negb Nat.eqb]. pose proof (psize_pos (S l)). pose proof (psize_min l). pose proof (psize_succ l).
  assert (E : psize (S l) - 1 = Z.ones (shift (S l))) by (rewrite Z.ones_equiv; unfold psize; lia).
  rewrite E, Z.land_ones by (unfold shift; lia). fold (psize (S l)). apply Z.mod_divide in Hm as [q ->]; [|lia].
  rewrite (Z.add_comm (q * _)), Z.mod_add, Z.mod_small by lia. lia.
Qed.

Hypothesis HL : (L <= 4)%nat.

(** An aligned address and its pages. *)
Lemma base_facts virt l : (l <= L)%nat -> in_u 64 virt -> let base := virt - virt mod psize l in
  0 <= base /\ base + psize l <= 2 ^ 64 /\ base mod psize l = 0 /\ forall v, agree L l v virt <-> off L v base < psize l.
Proof.
  intros Hl [Hv0 Hv] base. pose proof (psize_pos l) as Hp. pose proof (Z.mod_pos_bound virt (psize l) Hp).
  assert (Eb : base = virt / psize l * psize l) by (unfold base; pose proof (Z.div_mod virt (psize l)); lia).
  assert (Hal : base mod psize l = 0) by (rewrite Eb; apply Z.mod_mul; lia).
  split; [rewrite Eb; pose proof (Z.div_pos virt (psize l)); nia|]. split; [|split; [done|]].
  - assert (H64 : (psize l | 2 ^ 64)).
    { exists (2 ^ (64 - shift l)). unfold psize. rewrite <- Z.pow_add_r by (unfold shift; lia). f_equal. lia. }
    destruct H64 as [c Ec]. rewrite Eb. assert (virt / psize l < c); [apply Z.div_lt_upper_bound; lia|nia].
  - intros v. rewrite <- agree_off by done. assert (Hb : agree L l virt base); [|by split; intros; [rewrite <- Hb|rewrite Hb]].
    apply agree_off; [done|done|]. unfold off. replace (virt - base) with (virt mod psize l) by lia.
    rewrite Z.mod_small; [lia|]. pose proof (psize_le l (S L)). lia.
Qed.

(** A page of level [S l] is replaced by an empty table, then by its own pages. *)
Lemma split_maps k l s s2 s3 T virt base t phys w nx :
  vm s T -> goes (mem s) virt L top (S l) t -> (k <= l)%nat -> (S l <= 2)%nat -> paddr_ok (S l) phys ->
  entry (mem s) t (idx (S l) virt) = leaf (S l) phys w nx false ->
  base mod psize (S l) = 0 -> (forall v, agree L (S l) v virt <-> off L v base < psize (S l)) ->
  later s s2 -> (forall v l' t', goes (mem s) v L top l' t' -> goes (mem s2) v L top l' t') ->
  (forall v, ~ agree L (S l) v virt -> walk (mem s2) L top v = walk (mem s) L top v) ->
  maps k (psize (S l)) base phys (given w nx false) s2 s3 -> maps k 0 virt 0 plain s s3.
Proof.
  intros Hvm Hg Hk Hl Hp He Hal Hag Hla Hgo Hw Hm. destruct (goes_table _ _ _ _ _ _ _ (vm_tables _ _ _ _ Hvm) Hg) as [_ HlL].
  split; [apply Hm|etrans; [exact Hla|apply Hm]| | |].
  - intros v l' t' Hl' Hgv. apply Hm; [done|]. by apply Hgo.
  - intros v Hv. pose proof (off_range L v virt). lia.
  - intros v _. destruct (decide (off L v base < psize (S l))) as [Hin|Hout].
    + destruct (m_in _ _ _ _ _ _ _ _ _ Hm v Hin) as (l' & Hl' & E).
      pose proof (walk_leaf _ v virt _ _ _ _ _ _ Hg (proj2 (Hag v) Hin) HlL Hl Hp He) as E2. rewrite (off_mod L (S l) v base) in E2 by done.
      split; [unfold view; by rewrite E, E2|]. rewrite E. intros l1 x1 [= <- <-]. exists (S l). split; [lia|done].
    + eapply keeps_trans; [|apply Hm; lia]. apply keeps_same, Hw. by rewrite Hag.
Qed.
(** A new table below an entry that had none. *)
Definition opened (virt : Z) (l : nat) (s : pmm) (p : Z) (s2 : pmm) : Prop :=
  (exists T', vm s2 T') /\ later s s2 /\ goes (mem s2) virt L top l p /\
  (forall v l' t', goes (mem s) v L top l' t' -> goes (mem s2) v L top l' t') /\
  (forall v, ~ agree L (S l) v virt -> walk (mem s2) L top v = walk (mem s) L top v) /\
  (forall v, agree L (S l) v virt -> walk (mem s2) L top v = None).

Lemma open_wp {B} (K : Z -> P B) Q E s T virt t l :
  vm s T -> goes (mem s) virt L top (S l) t -> PT_IS_TABLE (entry (mem s) t (idx (S l) virt)) = false ->
  (forall h, out_of_memory h -> E h) -> (forall p s2, opened virt l s p s2 -> wp (K p) Q E s2) ->
  wp (ret ← ext_mem_alloc PT_SIZE; _ ← set_entry t (idx (S l) virt) (pte_new ret PT_TABLE_FLAGS); K ret) Q E s.
Proof.
  intros Hvm Hg Ht HE HK. apply wp_bind. eapply wp_mono; [apply page_alloc; apply Hvm| |].
  - intros p s1 Hf. apply wp_bind. apply HK. by eapply new_table.
  - exact HE.
Qed.

(** The pages of a large page are mapped one by one. *)
Lemma split_loop_wp map sz k l s s2 T virt t phys w nx p :
  k = size_level sz -> splits map sz -> vm s T -> in_u 64 virt -> goes (mem s) virt L top (S l) t -> (k <= l)%nat -> (S l <= 2)%nat ->
  paddr_ok (S l) phys -> entry (mem s) t (idx (S l) virt) = leaf (S l) phys w nx false -> opened virt l s p s2 ->
  wp (map_loop (S (Z.to_nat (psize (S l) / psize k))) (fun v q => map v q (vmm_flags w nx false) sz)
        (virt - virt mod psize (S l)) phys 0 (psize (S l)) (psize k))
    (fun _ s' => goes (mem s') virt L top l p /\ maps k 0 virt 0 plain s s') out_of_memory s2.
Proof.
  intros -> Hmap Hvm Hv Hg Hk Hl Hp He ([T2 Hvm2] & Hla & Hgp & Hgo & Hother & Hnone).
  destruct (goes_table _ _ _ _ _ _ _ (vm_tables _ _ _ _ Hvm) Hg) as [_ HlL].
  destruct (base_facts virt (S l) HlL Hv) as (Hb0 & Hb64 & Hba & Hag). set (base := virt - virt mod psize (S l)) in *. set (k := size_level sz) in *.
  destruct (psize_divide k (S l)) as [c Ec]; [lia|]. pose proof (psize_pos k) as Hpk. pose proof (psize_pos (S l)) as Hpl.
  assert (Hc : 0 < c) by nia. pose proof (psize_le (S l) (S L)) as HlS. destruct Hp as [Hp0 Hpa].
  pose proof (paddr_end (S l) phys ltac:(lia) (conj Hp0 Hpa)) as Hp48.
  eapply wp_mono; [apply (map_loop_maps _ k base phys (given w nx false) _ _ out_of_memory s2)| |done]; [lia|lia| |apply Z.divide_0_r|lia|done|lia|done|lia| | |].
  - rewrite Ec, Z.div_mul, Z2Nat.id by lia. lia.
  - intros j s' Hj0 Hj Hjd Hm. destruct (m_vm _ _ _ _ _ _ _ _ _ Hm) as [T' Hvm']. destruct Hjd as [q ->].
    eapply wp_mono; [apply (Hmap s' T' _ _ w nx Hvm'); [split; lia| | |]|done|done].
    + apply (page_add _ (S l)); (lia || done).
    + split; [lia|]. apply (page_add _ (S l)); (lia || done).
    + assert (Ho : off L (base + q * psize k) base = q * psize k).
      { unfold off. replace (base + q * psize k - base) with (q * psize k) by lia. apply Z.mod_small. lia. }
      apply low_keeps with s2; [|apply Hm; rewrite Ho; lia]. intros l' x E. rewrite Hnone in E; [done|]. apply Hag. rewrite Ho. lia.
  - by eapply maps_nothing.
  - cbn beta. intros _ s' Hm. split; [by apply Hm|]. eapply split_maps; try done.
Qed.
(** An entry with nothing in it: a table is added and nothing changes. *)
Lemma opened_empty k virt l s T t p s2 :
  vm s T -> goes (mem s) virt L top (S l) t -> entry (mem s) t (idx (S l) virt) = 0 -> opened virt l s p s2 ->
  goes (mem s2) virt L top l p /\ maps k 0 virt 0 plain s s2.
Proof.
  intros Hvm Hg He (Hvm2 & Hla & Hgp & Hgo & Hother & Hnone). destruct (goes_table _ _ _ _ _ _ _ (vm_tables _ _ _ _ Hvm) Hg) as [_ HlL].
  split; [done|]. split; [done..|intros; by apply Hgo| |].
  - intros v Hv. pose proof (off_range L v virt). lia.
  - intros v _. apply keeps_same. destruct (decide (Forall (fun j => idx j v = idx j virt) (seq (S l) (S L - S l)))) as [Ha|Hn].
    + rewrite Forall_seq in Ha. assert (Hag : agree L (S l) v virt) by (intros j Hj; apply Ha; lia).
      destruct (walk_entry _ v virt _ _ Hg Hag HlL) as [-> Ei]. rewrite Hnone by done. cbn [walk]. by rewrite Ei, He.
    + apply Hother. intros Ha. apply Hn, Forall_seq. intros j Hj. apply Ha. lia.
Qed.

Lemma next_level_wp map sz k l s T virt t :
  k = size_level sz -> vm s T -> in_u 64 virt -> goes (mem s) virt L top (S l) t -> (k <= l)%nat -> low k s virt \/ splits map sz ->
  wp (get_next_level map t virt sz (Z.of_nat (S l)) (idx (S l) virt))
    (fun r s' => goes (mem s') virt L top l r /\ maps k 0 virt 0 plain s s') (fun s' => out_of_memory s' \/ stopped k s virt) s.
Proof.
  intros Ek Hvm Hv Hg Hk Hsp. pose proof (vm_tables _ _ _ _ Hvm) as Hok. destruct (goes_table _ _ _ _ _ _ _ Hok Hg) as [Ht HlL].
  unfold get_next_level. apply wp_bind. change (wp (get_entry t (idx (S l) virt))) with
    (fun Q (E : pmm -> Prop) h => Q (entry (mem h) t (idx (S l) virt)) h : Prop). cbn beta.
  pose proof (t_entry _ _ _ _ Hok t _ _ Ht (idx_range (S l) virt)) as He. destruct (PT_IS_TABLE (entry (mem s) t (idx (S l) virt))) eqn:Etab.
  { apply wp_ret. split; [by apply goes_down|by eapply maps_nothing]. }
  destruct He as [E|[(b & l' & [= <-] & Hb & E)|(phys & w & nx & fb & Hl2 & Hp & E)]].
  - rewrite E. change (PT_IS_LARGE 0) with false. cbn iota. eapply open_wp; [done..|by left|].
    intros p s2 Ho. apply wp_ret. by eapply opened_empty.
  - rewrite E in Etab. destruct (table_entry b (t_addr _ _ _ _ Hok _ _ Hb)) as (Et & _). congruence.
  - pose proof (walk_leaf _ virt virt l t phys w nx fb Hg ltac:(done) HlL Hl2 Hp E) as Hw.
    assert (Hlow : ~ low k s virt).
    { intros Hlow. apply Hlow in Hw. lia. }
    destruct Hsp as [|Hsp]; [done|]. rewrite E, leaf_large by (done || lia). unfold VMM_MAX_LEVEL.
    rewrite (proj2 (Z.leb_gt _ _)), (proj2 (Z.eqb_neq _ _)) by lia. cbn [orb]. rewrite size_index_level, <- Ek, (proj2 (Z.leb_gt _ _)) by lia.
    rewrite !Nat2Z.id, !page_sizes_psize by lia. rewrite leaf_flags, leaf_addr by done.
    rewrite round_down by (done || lia). destruct fb.
    + rewrite (proj2 (Z.eqb_neq _ _) (fb_misaligned _ _ Hp)). apply wp_throw. right. exists (S l). eauto 6 with lia.
    + cbn [andb b2m]. rewrite Z.add_0_r, (paddr_land_low (S l)) by (done || pose proof (psize_pos (S l)); lia). cbn [negb Z.eqb].
      eapply open_wp; [done..|by left|]. intros p s2 Ho. apply wp_bind. eapply wp_mono; [by eapply split_loop_wp| |by left].
      cbn beta. intros _ s3 H3. by apply wp_ret.
Qed.
End tables.
End VmmPage.
