(* ===== verification/VmmPages.v ===== *)
(** * Mapping pages and regions

    [map_page] for pages of each size, and [map_pages]. *)

From S2P Require Import Prelude Effects Pmm PmmFacts PmmAlloc Vmm VmmFacts VmmWalk VmmRegion VmmTables VmmMap VmmPage.

Module VmmPages.
Import Effects Pmm PmmFacts PmmAlloc Vmm VmmFacts VmmWalk VmmRegion VmmTables VmmMap VmmPage.
Open Scope Z_scope.

(** ** Flags *)

(** The flags of a call, which may have the valid bit already. *)
Definition call_flags (valid w nx fb : bool) : Z := Z.lor (vmm_flags w nx fb) (b2m valid PT_FLAG_VALID).

Lemma page_flags pat valid w nx fb :
  (let flags := Z.lor (call_flags valid w nx fb) PT_FLAG_VALID in
   if negb (Z.land flags VMM_FLAG_FB =? 0) && negb pat then Z.land flags (u64 (Z.lnot VMM_FLAG_FB)) else flags) =
  call_flags true w nx (fb && pat).
Proof. by destruct pat, valid, w, nx, fb. Qed.

Lemma large_entry l phys w nx fb : Z.lor (Z.lor phys (call_flags true w nx fb)) PT_FLAG_LARGE = leaf (S l) phys w nx fb.
Proof. rewrite <- Z.lor_assoc. unfold leaf. f_equal. by destruct w, nx, fb. Qed.

Lemma small_entry phys w nx fb :
  (let flags := call_flags true w nx fb in
   Z.lor phys (if negb (Z.land flags (Z.shiftl 1 12) =? 0) then Z.lor (Z.land flags (u64 (Z.lnot (Z.shiftl 1 12)))) (Z.shiftl 1 7) else flags)) =
  leaf 0 phys w nx fb.
Proof. unfold leaf. cbv zeta. f_equal. by destruct w, nx, fb. Qed.

Lemma wp_if {A} (b : bool) (m m' : P A) Q E h :
  (b = true -> wp m Q E h) -> (b = false -> wp m' Q E h) -> wp (if b then m else m') Q E h.
Proof. destruct b; auto. Qed.

Section tables.
Context `{Hsource : !PageSource (ext_mem_alloc PT_SIZE)}.
Context (pat_supported is_1gib_page_supported : bool).
Context (pagemap : pagemap_t) (L : nat).
Hypothesis Hlevels : levels pagemap = Z.of_nat L + 1.
Hypothesis HL : L = 3%nat \/ L = 4%nat.

Abbreviation top := (top_level pagemap).
Abbreviation maps := (maps L top).
Abbreviation low := (low L top).
Abbreviation keeps := (keeps L top).
Abbreviation vm := (vm L top).
Abbreviation stopped := (stopped L top).
Abbreviation splits := (splits L top).
Abbreviation plain := (given false false false).
Abbreviation map_page := (map_page pat_supported is_1gib_page_supported).

Lemma HL4 : (L <= 4)%nat.
Proof. lia. Qed.

(** ** One page *)

(** One level down, then the rest of the call. *)
Lemma next_then {B} (K : Z -> P B) Q E map sz k l s0 s virt t :
  k = size_level sz -> maps k 0 virt 0 plain s0 s -> in_u 64 virt -> goes (mem s) virt L top (S l) t -> (k <= l)%nat ->
  low k s0 virt \/ splits map sz -> (forall h, out_of_memory h \/ stopped k s0 virt -> E h) ->
  (forall r s', goes (mem s') virt L top l r -> maps k 0 virt 0 plain s0 s' -> wp (K r) Q E s') ->
  wp (get_next_level map t virt sz (Z.of_nat (S l)) (index virt (shift (S l))) ≫= K) Q E s.
Proof.
  intros Ek Hm Hv Hg Hk Hsp HE HK. destruct (m_vm _ _ _ _ _ _ _ _ _ Hm) as [T Hvm]. apply wp_bind. rewrite index_idx.
  pose proof (maps_keeps _ _ _ _ _ _ _ _ virt Hm) as Hkv.
  eapply wp_mono; [eapply (next_level_wp L top HL4); [done..|]| |].
  - destruct Hsp as [Hlo|]; [left; by eapply low_keeps|by right].
  - cbn beta. intros r s' [Hg' Hm']. apply HK; [done|]. by eapply maps_after.
  - cbn beta. intros h [Hx|Hx]; apply HE; [by left|right; by eapply stopped_keeps].
Qed.

(** The tables above those for pages of 1 GiB. *)
Lemma upper_then {B} (K : Z -> P B) Q E map sz k s T virt :
  k = size_level sz -> vm s T -> in_u 64 virt -> low k s virt \/ splits map sz -> (forall h, out_of_memory h \/ stopped k s virt -> E h) ->
  (forall r s', goes (mem s') virt L top 2 r -> maps k 0 virt 0 plain s s' -> wp (K r) Q E s') ->
  wp (pml4 ← (if levels pagemap =? 5 then get_next_level map top virt sz 4 (index virt 48)
              else if levels pagemap =? 4 then mret top else stuck);
      pml3 ← get_next_level map pml4 virt sz 3 (index virt 39); K pml3) Q E s.
Proof.
  intros Ek Hvm Hv Hsp HE HK. pose proof (maps_nothing _ _ k virt 0 plain _ _ Hvm) as H0. assert (Hk : (k <= 2)%nat) by (subst; destruct sz; cbn; lia).
  assert (Htop : forall l, L = l -> goes (mem s) virt L top l top) by (intros l <-; constructor).
  change 39 with (shift 3). change 48 with (shift 4). change 3 with (Z.of_nat 3). pose proof HL as [El|El].
  - assert (levels pagemap = 4) as -> by (rewrite Hlevels, El; done). cbn [Z.eqb Pos.eqb]. apply wp_bind, wp_ret.
    apply next_then with k s; auto with lia.
  - assert (levels pagemap = 5) as -> by (rewrite Hlevels, El; done). cbn [Z.eqb Pos.eqb]. change 4 with (Z.of_nat 4).
    apply next_then with k s; auto with lia. intros r s' Hg Hm. apply next_then with k s; auto with lia.
Qed.

(** Pages of 4 KiB and 2 MiB. *)
Lemma map_small_wp fuel sz k s T virt phys valid w nx fb :
  k = size_level sz -> (k <= 1)%nat -> vm s T -> in_u 64 virt -> virt mod psize k = 0 -> paddr_ok k phys ->
  low k s virt \/ splits (map_page fuel pagemap) sz ->
  wp (map_page (S fuel) pagemap virt phys (call_flags valid w nx fb) sz) (fun _ => maps k (psize k) virt phys (given w nx (fb && pat_supported)) s)
    (fun s' => out_of_memory s' \/ stopped k s virt) s.
Proof.
  intros Ek Hk Hvm Hv Hal Hp Hsp. cbn [Vmm.map_page]. pose proof (page_flags pat_supported valid w nx fb) as Ef. cbv zeta in Ef. rewrite Ef. clear Ef.
  eapply upper_then; [done..|]. intros r s1 Hg1 Hm1. destruct sz; subst k; cbn [size_level] in *; [| |lia].
  all: change (index virt 30) with (index virt (shift 2)); change (get_next_level ?m ?t ?v ?z 2) with (get_next_level m t v z (Z.of_nat 2)).
  all: eapply next_then; [done|exact Hm1|done|exact Hg1|cbn; lia|done..|]; intros r2 s2 Hg2 Hm2.
  - change (index virt 21) with (index virt (shift 1)); change (get_next_level ?m ?t ?v ?z 1) with (get_next_level m t v z (Z.of_nat 1)).
    eapply next_then; [done|exact Hm2|done|exact Hg2|cbn; lia|done..|]. intros r3 s3 Hg3 Hm3.
    pose proof (small_entry phys w nx (fb && pat_supported)) as Ee. cbv zeta in Ee. cbv zeta. rewrite Ee. change 12 with (shift 0). rewrite index_idx.
    destruct (m_vm _ _ _ _ _ _ _ _ _ Hm3) as [T3 Hvm3]. eapply maps_after; [by eapply maps_none|]. eapply maps_leaf; [done|done|lia|done|done].
  - rewrite (large_entry 0). change (index virt 21) with (index virt (shift 1)). rewrite index_idx.
    destruct (m_vm _ _ _ _ _ _ _ _ _ Hm2) as [T3 Hvm3]. eapply maps_after; [by eapply maps_none|]. eapply maps_leaf; [done|done|lia|done|done].
Qed.
(** ** Any page *)

Lemma map_splits fuel sz : (size_level sz <= 1)%nat -> splits (map_page (S fuel) pagemap) sz.
Proof.
  intros Hk. hnf. intros s T v p w nx Hvm Hv Hal Hp Hlow. rewrite <- (Z.lor_0_r (vmm_flags w nx false)).
  eapply wp_mono; [by eapply (map_small_wp fuel sz _ s T v p false w nx false); [..|left]|done|].
  cbn beta. intros h [?|Hst]; [done|]. by apply stopped_low in Hst.
Qed.

Lemma map_small_any fuel sz s T virt phys valid w nx fb :
  let k := size_level sz in
  (k <= 1)%nat -> vm s T -> in_u 64 virt -> virt mod psize k = 0 -> paddr_ok k phys ->
  wp (map_page (S (S fuel)) pagemap virt phys (call_flags valid w nx fb) sz)
    (fun _ => maps k (psize k) virt phys (given w nx (fb && pat_supported)) s) (fun s' => out_of_memory s' \/ stopped k s virt) s.
Proof. intros k Hk Hvm Hv Hal Hp. eapply map_small_wp; [done..|]. right. by apply map_splits. Qed.

Lemma walk_level f l a v l' x : walk f l a v = Some (l', x) -> (l' <= 2)%nat.
Proof.
  revert a. induction l as [|l IH]; intros a; cbn [walk].
  - destruct (Z.testbit _ 0); [|done]. intros [= <- <-]. lia.
  - destruct (PT_IS_TABLE _); [apply IH|]. destruct (PT_IS_LARGE _); [|done]. destruct (S l <=? 2)%nat eqn:E; [|done].
    apply Nat.leb_le in E. by intros [= <- <-].
Qed.

Lemma low_two s v : low 2 s v.
Proof. intros l x. apply walk_level. Qed.

(** Pages of 1 GiB where the processor does not have them. *)
Lemma emulate_wp fuel s T virt phys valid w nx fb :
  vm s T -> in_u 64 virt -> virt mod psize 2 = 0 -> paddr_ok 2 phys ->
  wp (map_loop 513 (fun v p => map_page (S (S fuel)) pagemap v p (call_flags valid w nx fb) Size2MiB) virt phys 0 0x40000000 0x200000)
    (fun _ => maps 1 (psize 2) virt phys (given w nx (fb && pat_supported)) s)
    (fun s' => out_of_memory s' \/ exists v, off L v virt < psize 2 /\ stopped 1 s v) s.
Proof.
  intros Hvm Hv Hal Hp. change 0x40000000 with (psize 2). change 0x200000 with (psize 1). pose proof (paddr_end 2 phys ltac:(lia) Hp) as Hp48.
  assert (HL2 : (2 <= L)%nat) by (destruct HL; lia). destruct (base_facts L HL4 virt 2 HL2 Hv) as (Hb0 & Hb64 & _). rewrite Hal, Z.sub_0_r in *.
  destruct Hp as [Hp0 Hpa]. pose proof (psize_le 2 (S L) ltac:(lia)) as Hsp.
  change 513%nat with (S 512). eapply map_loop_maps; [done|done|done|apply Z.divide_0_r|done|lia|lia|done|lia| |by eapply maps_nothing].
  intros j s' Hj0 Hj [q ->] Hm. pose proof (psize_pos 1) as Hp1. destruct (m_vm _ _ _ _ _ _ _ _ _ Hm) as [T' Hvm'].
  eapply wp_mono; [eapply (map_small_any _ Size2MiB); [cbn; lia|done|split; lia|apply (page_add 1 2); (lia || done)|]|done|].
  - split; [lia|]. apply (page_add 1 2); (lia || done).
  - assert (Ho : off L (virt + q * psize 1) virt = q * psize 1).
    { unfold off. replace (virt + q * psize 1 - virt) with (q * psize 1) by lia. apply Z.mod_small. lia. }
    intros h [Hx|Hx]; [by left|right]. exists (virt + q * psize 1).
    rewrite Ho. split; [lia|]. eapply stopped_keeps; [apply Hm; lia|done].
Qed.

(** A page that cannot be split is in the way somewhere. *)
Definition in_the_way (s : pmm) (virt n : Z) : Prop := exists v, off L v virt < n /\ stopped 0 s v.

Lemma stopped_zero k s v : stopped k s v -> stopped 0 s v.
Proof. intros (l & x & w & nx & Hl & E). exists l, x, w, nx. split; [lia|done]. Qed.

Lemma off_self v : off L v v = 0.
Proof. unfold off. by rewrite Z.sub_diag, Z.mod_0_l by (pose proof (psize_pos (S L)); lia). Qed.

Lemma map_big_step fuel virt phys flags :
  map_page (S fuel) pagemap virt phys flags Size1GiB =
  let flags := (let flags := Z.lor flags PT_FLAG_VALID in
                if negb (Z.land flags VMM_FLAG_FB =? 0) && negb pat_supported then Z.land flags (u64 (Z.lnot VMM_FLAG_FB)) else flags) in
  pml4 ← (if levels pagemap =? 5 then get_next_level (map_page fuel pagemap) top virt Size1GiB 4 (index virt 48)
          else if levels pagemap =? 4 then mret top else stuck);
  pml3 ← get_next_level (map_page fuel pagemap) pml4 virt Size1GiB 3 (index virt 39);
  if is_1gib_page_supported then set_entry pml3 (index virt 30) (Z.lor (Z.lor phys flags) PT_FLAG_LARGE)
  else map_loop 513 (fun v p => map_page fuel pagemap v p flags Size2MiB) virt phys 0 0x40000000 0x200000.
Proof. done. Qed.

Lemma map_page_wp fuel sz s T virt phys valid w nx fb :
  let k := size_level sz in
  vm s T -> in_u 64 virt -> virt mod psize k = 0 -> paddr_ok k phys ->
  wp (map_page (S (S (S fuel))) pagemap virt phys (call_flags valid w nx fb) sz)
    (fun _ => maps k (psize k) virt phys (given w nx (fb && pat_supported)) s) (fun s' => out_of_memory s' \/ in_the_way s virt (psize k)) s.
Proof.
  intros k Hvm Hv Hal Hp. destruct (decide (k <= 1)%nat) as [Hk|Hk].
  { eapply wp_mono; [by eapply map_small_any|done|]. cbn beta. intros h [?|Hx]; [by left|right]. exists virt. rewrite off_self.
    split; [apply psize_pos|by eapply stopped_zero]. }
  destruct sz; try (cbn in Hk; lia). cbn [size_level] in *. subst k. rewrite map_big_step, page_flags.
  eapply upper_then; [done|done|done|left; apply low_two| |].
  { intros h [?|[]%stopped_low]; [by left|apply low_two]. }
  intros r s1 Hg1 Hm1. destruct (m_vm _ _ _ _ _ _ _ _ _ Hm1) as [T1 Hvm1]. apply (maps_none _ _ _ _ _ _ virt phys (given w nx (fb && pat_supported))) in Hm1.
  apply wp_if; intros _.
  - rewrite (large_entry 1). change 30 with (shift 2). rewrite index_idx. eapply maps_after; [done|]. eapply maps_leaf; (done || lia).
  - pose proof (emulate_wp fuel s1 T1 virt phys true w nx (fb && pat_supported) Hvm1 Hv Hal Hp) as He.
    rewrite <- andb_assoc, andb_diag in He. eapply wp_mono; [exact He| |]; cbn beta.
    + intros _ s' Hm. eapply maps_after; [done|]. eapply maps_weaken; [|exact Hm]. lia.
    + intros h [Hx|(v & Hv' & Hx)]; [by left|right]. exists v. split; [done|].
      eapply stopped_zero, stopped_keeps; [by eapply maps_keeps|done].
Qed.
(** ** Regions *)

Lemma land_size x l : Z.land x (psize l - 1) = x mod psize l.
Proof.
  assert (E : psize l - 1 = Z.ones (shift l)) by (rewrite Z.ones_equiv; unfold psize; lia).
  rewrite E. apply Z.land_ones. unfold shift. lia.
Qed.

Lemma mod_add_zero x y l : x mod psize l = 0 -> y mod psize l = 0 -> (x + y) mod psize l = 0.
Proof. intros Hx Hy. pose proof (psize_pos l). by rewrite Z.add_mod, Hx, Hy by lia. Qed.

(** The page size of an iteration fits there. *)
Lemma fits_size virt phys count i :
  in_u 64 (virt + i) -> in_u 64 (phys + i) -> i < count -> (virt + i) mod psize 0 = 0 -> (phys + i) mod psize 0 = 0 -> (count - i) mod psize 0 = 0 ->
  let sz := if fits_at virt phys count i 0x40000000 then Size1GiB else if fits_at virt phys count i 0x200000 then Size2MiB else Size4KiB in
  let k := size_level sz in
  (if fits_at virt phys count i 0x40000000 then 0x40000000 else if fits_at virt phys count i 0x200000 then 0x200000 else 0x1000) = psize k /\
  (virt + i) mod psize k = 0 /\ (phys + i) mod psize k = 0 /\ psize k <= count - i.
Proof.
  intros Hv Hp Hi Hv0 Hp0 Hc.
  assert (H : forall l, fits_at virt phys count i (psize l) = true -> (virt + i) mod psize l = 0 /\ (phys + i) mod psize l = 0 /\ psize l <= count - i).
  { intros l. unfold fits_at. rewrite !wrap_small, !land_size by done.
    intros [[?%Z.eqb_eq ?%Z.eqb_eq]%andb_true_iff ?%Z.leb_le]%andb_true_iff. done. }
  change 0x40000000 with (psize 2). change 0x200000 with (psize 1). destruct (fits_at _ _ _ _ (psize 2)) eqn:E2; [by split; [|apply H]|].
  destruct (fits_at _ _ _ _ (psize 1)) eqn:E1; [by split; [|apply H]|]. split; [done|]. split; [done|]. split; [done|]. cbn [size_level].
  apply Z.mod_divide in Hc as [q Hq]; [|done]. change (psize 0) with 4096 in *. lia.
Qed.

Lemma pages_step n virt phys flags count i :
  let loop n := map_pages_loop pat_supported is_1gib_page_supported n pagemap virt phys flags count in
  loop (S n) i =
  if i <? count then
    _ ← map_page map_depth pagemap (u64 (virt + i)) (u64 (phys + i)) flags
          (if fits_at virt phys count i 0x40000000 then Size1GiB else if fits_at virt phys count i 0x200000 then Size2MiB else Size4KiB);
    loop n (u64 (i + (if fits_at virt phys count i 0x40000000 then 0x40000000 else if fits_at virt phys count i 0x200000 then 0x200000 else 0x1000)))
  else mret tt.
Proof. done. Qed.

Lemma map_pages_loop_wp s0 virt phys w nx fb count n i s :
  0 <= virt -> 0 <= phys -> 0 <= i <= count -> virt + count <= 2 ^ 64 -> phys + count <= 2 ^ 48 -> count <= space L ->
  virt mod psize 0 = 0 -> phys mod psize 0 = 0 -> count mod psize 0 = 0 -> i mod psize 0 = 0 -> count - i <= psize 0 * Z.of_nat n ->
  let a := given w nx (fb && pat_supported) in
  maps 2 i virt phys a s0 s ->
  wp (map_pages_loop pat_supported is_1gib_page_supported (S n) pagemap virt phys (vmm_flags w nx fb) count i)
    (fun _ => maps 2 count virt phys a s0) (fun s' => out_of_memory s' \/ in_the_way s0 virt count) s.
Proof.
  intros Hv0 Hp0 Hi Hv64 Hp48 Hsp Hva Hpa Hca Hia Hn a. revert i s Hi Hia Hn. induction n as [|n IH]; intros i s Hi Hia Hn Hm; rewrite pages_step.
  { assert (i = count) as -> by lia. rewrite Z.ltb_irrefl. by apply wp_ret. }
  destruct (Z.ltb_spec i count) as [Hlt|]; [|assert (i = count) as -> by lia; by apply wp_ret].
  pose proof (psize_pos 0) as H0. assert (Hv : in_u 64 (virt + i)) by (split; lia). assert (Hp : in_u 64 (phys + i)) by (split; lia).
  destruct (fits_size virt phys count i Hv Hp Hlt) as (Es & Hva' & Hpa' & Hc'); [by apply mod_add_zero..|by rewrite Zminus_mod, Hca, Hia|].
  set (sz := if fits_at virt phys count i 0x40000000 then Size1GiB else _) in *. pose proof (psize_pos (size_level sz)) as Hk. rewrite Es, !wrap_small by (done || split; lia).
  apply wp_bind. destruct (m_vm _ _ _ _ _ _ _ _ _ Hm) as [T Hvm]. assert (Hpok : paddr_ok (size_level sz) (phys + i)) by (split; [lia|done]).
  pose proof (map_page_wp 0 sz s T _ _ false w nx fb Hvm Hv Hva' Hpok) as Hpage.
  unfold call_flags in Hpage. cbn [b2m] in Hpage. rewrite Z.lor_0_r in Hpage. eapply wp_mono; [exact Hpage| |]; cbn beta.
  - intros _ s' Hm'. apply IH; [lia| | |].
    + apply mod_add_zero; [done|]. apply Z.mod_divide; [done|]. apply psize_divide. lia.
    + pose proof (psize_le 0 (size_level sz) ltac:(lia)). lia.
    + eapply maps_seq; [lia|lia|lia|done|]. eapply maps_weaken; [|exact Hm']. destruct sz; cbn; lia.
  - intros h [Hx|(v & Hv' & Hx)]; [by left|right].
    apply off_page in Hv'; [|lia|lia]. exists v. split; [lia|]. eapply stopped_keeps; [apply Hm; lia|done].
Qed.
End tables.
End VmmPages.
