(* ===== verification/VmmTheorems.v ===== *)
(** * Correctness of the page tables

    A mapping as an update of a function from addresses, and the calls of
    common/mm/vmm.c as implementations of it. *)

From S2P Require Import Prelude Effects Pmm PmmFacts PmmAlloc Vmm VmmFacts VmmWalk VmmRegion VmmTables VmmMap VmmPage VmmPages PmmTheorems.

Module VmmTheorems.
Import Effects Pmm PmmFacts PmmAlloc Vmm VmmFacts VmmWalk VmmRegion VmmTables VmmMap VmmPage VmmPages PmmTheorems.
Open Scope Z_scope.

(** ** The specification *)

(** What each address is mapped to. *)
Definition aspace : Type := Z -> option (Z * attrs).

(** [count] bytes from [virt] on, modulo the size of the address space. *)
Definition amap (L : nat) (virt phys count : Z) (a : attrs) (m : aspace) : aspace := fun v =>
  if decide (off L v virt < count) then Some (phys + off L v virt, a) else m v.

(** The tables of a page map with four or five levels. *)
Definition depth (pagemap : pagemap_t) : nat := Z.to_nat (levels pagemap - 1).
Definition four_or_five (pagemap : pagemap_t) : Prop := levels pagemap = 4 \/ levels pagemap = 5.
Abbreviation pm_ok pagemap := (vm (depth pagemap) (top_level pagemap)).
Abbreviation pm_view pagemap := (view (depth pagemap) (top_level pagemap)).
Abbreviation fb_in_the_way pagemap := (in_the_way pagemap (depth pagemap)).

Lemma depth_levels pagemap : four_or_five pagemap ->
  levels pagemap = Z.of_nat (depth pagemap) + 1 /\ (depth pagemap = 3%nat \/ depth pagemap = 4%nat).
Proof. unfold depth. intros [-> | ->]; auto. Qed.

Lemma maps_view L top k n virt phys a s s' v :
  maps L top k n virt phys a s s' -> view L top s' v = amap L virt phys n a (view L top s) v.
Proof.
  intros H. unfold amap. case_decide as Hv.
  - destruct (m_in _ _ _ _ _ _ _ _ _ H v Hv) as (l & _ & E). unfold view. by rewrite E.
  - apply (m_out _ _ _ _ _ _ _ _ _ H). lia.
Qed.

(** An empty table. *)
Lemma zero_vm L s top :
  ready s -> paddr_ok 0 top -> (forall b, top <= b < top + 4096 -> types_at (memmap s) b = [MEMMAP_BOOTLOADER_RECLAIMABLE] /\ mem s b = 0) ->
  vm L top s (fun a => if decide (a = top) then Some L else None) /\ forall v, view L top s v = None.
Proof.
  intros Hr Hp Hz. assert (He : forall i, 0 <= i < 512 -> entry (mem s) top i = 0) by (intros i Hi; apply load64_zero; intros b Hb; apply Hz; lia).
  split; [split; [done| |]|].
  - split; [by rewrite decide_True| | |].
    + intros a l. by case_decide; subst.
    + intros a l i. case_decide; [subst|done]. intros _ Hi. left. by apply He.
    + intros a l i a' l' i'. case_decide; [subst|done]. intros _ _ Hi _. by rewrite He.
  - intros a l b. case_decide; [subst|done]. intros _ Hb. by apply Hz.
  - intros v. unfold view. destruct L; cbn [walk]; by rewrite He by apply idx_range.
Qed.

Lemma new_pagemap_wp paging_mode s :
  ready s ->
  wp (new_pagemap paging_mode) (fun pagemap s' => four_or_five pagemap /\ depth pagemap = (if paging_mode =? PAGING_MODE_X86_64_5LVL then 4%nat else 3%nat) /\ later s s' /\ (exists T, pm_ok pagemap s' T) /\ forall v, pm_view pagemap s' v = None)
    out_of_memory s.
Proof.
  intros Hr. apply wp_bind. eapply wp_mono; [by apply page_alloc| |done]. intros p s' (Hp & Hr' & Hla & Hin & _).
  apply wp_ret. split; [unfold four_or_five; cbn [levels]; destruct (paging_mode =? _); auto|].
  split; [unfold depth; cbn [levels]; by destruct (paging_mode =? _)|]. split; [done|].
  destruct (zero_vm (depth (MkPagemap (if paging_mode =? PAGING_MODE_X86_64_5LVL then 5 else 4) p)) s' p Hr' Hp) as [Hvm Hv]; [intros; by apply Hin|].
  split; [by eexists|done].
Qed.

Lemma map_pages_wp pat gib pagemap s T virt phys w nx fb count :
  four_or_five pagemap -> pm_ok pagemap s T -> 0 <= virt -> 0 <= phys -> 0 <= count ->
  virt mod 4096 = 0 -> phys mod 4096 = 0 -> count mod 4096 = 0 ->
  virt + count <= 2 ^ 64 -> phys + count <= 2 ^ 48 -> count <= space (depth pagemap) ->
  wp (map_pages pat gib pagemap virt phys (vmm_flags w nx fb) count)
    (fun _ => maps (depth pagemap) (top_level pagemap) 2 count virt phys (given w nx (fb && pat)) s)
    (fun s' => out_of_memory s' \/ fb_in_the_way pagemap s virt count) s.
Proof.
  intros [HL Hd]%depth_levels Hvm Hv Hp Hc Hva Hpa Hca Hv64 Hp48 Hsp. unfold map_pages.
  change 0x1000 with 4096. rewrite Hva, Hpa, Hca. cbn [Z.eqb negb orb]. eapply map_pages_loop_wp; try done; [|by eapply maps_nothing].
  change (psize 0) with 4096. apply Z.mod_divide in Hca as [q ->]; [|done]. rewrite Z.div_mul, Z2Nat.id by lia. lia.
Qed.
(** ** Theorems *)

(** [map_page], on the tables of a page map, of a page of any size at an aligned
    address: it ends; when it returns, exactly the addresses of the page are mapped to the
    bytes from the physical address on, with the attributes of the call, all other
    addresses are mapped as before, also those of a larger page that was split, and the
    tables are well formed; it panics only in a state whose allocator has no page left, or
    when a large page of a framebuffer would have to be split. *)
Theorem map_page_correct pat gib pagemap s T virt phys w nx fb sz :
  let k := size_level sz in
  four_or_five pagemap -> pm_ok pagemap s T -> in_u 64 virt -> virt mod psize k = 0 -> paddr_ok k phys ->
  match map_page pat gib map_depth pagemap virt phys (vmm_flags w nx fb) sz s with
  | Ret s' _ => (exists T', pm_ok pagemap s' T') /\
      forall v, pm_view pagemap s' v = amap (depth pagemap) virt phys (psize k) (given w nx (fb && pat)) (pm_view pagemap s) v
  | Throw s' _ => out_of_memory s' \/ fb_in_the_way pagemap s virt (psize k)
  | Stuck => False
  end.
Proof.
  intros k [HL Hd]%depth_levels Hvm Hv Hal Hp. rewrite <- (Z.lor_0_r (vmm_flags w nx fb)).
  pose proof (map_page_wp pat gib pagemap _ HL Hd 0 sz s T virt phys false w nx fb Hvm Hv Hal Hp) as H.
  unfold wp, call_flags in H. cbn [b2m] in H. change map_depth with 3%nat.
  destruct (map_page _ _ _ _ _ _ _ _ s); [|exact H|exact H]. split; [apply H|]. intros v. by eapply maps_view.
Qed.

(** C8: [map_pages] on aligned arguments, of a region that fits in the address space: it
    ends; when it returns, exactly the addresses of the region are mapped, each to the
    physical address at the same distance from the start, whatever page sizes were used and
    whatever was mapped there before; all other addresses are mapped as before, and the
    tables are well formed. When it panics, the allocator has no page left in the state it
    panics in (no usable entry has room for one, or the memory map is full), or a large
    page mapped for a framebuffer has an address of the region. *)
Theorem map_pages_correct pat gib pagemap s T virt phys w nx fb count :
  four_or_five pagemap -> pm_ok pagemap s T -> 0 <= virt -> 0 <= phys -> 0 <= count ->
  virt mod 4096 = 0 -> phys mod 4096 = 0 -> count mod 4096 = 0 ->
  virt + count <= 2 ^ 64 -> phys + count <= 2 ^ 48 -> count <= space (depth pagemap) ->
  match map_pages pat gib pagemap virt phys (vmm_flags w nx fb) count s with
  | Ret s' _ => (exists T', pm_ok pagemap s' T') /\
      forall v, pm_view pagemap s' v = amap (depth pagemap) virt phys count (given w nx (fb && pat)) (pm_view pagemap s) v
  | Throw s' _ => out_of_memory s' \/ fb_in_the_way pagemap s virt count
  | Stuck => False
  end.
Proof.
  intros H4 Hvm Hv Hp Hc Hva Hpa Hca Hv64 Hp48 Hsp. pose proof (map_pages_wp pat gib pagemap s T virt phys w nx fb count H4 Hvm Hv Hp Hc Hva Hpa Hca Hv64 Hp48 Hsp) as H.
  unfold wp in H. destruct (map_pages _ _ _ _ _ _ _ s); [|exact H|exact H]. split; [apply H|]. intros v. by eapply maps_view.
Qed.

(** ** Sequences of calls *)

Record request := Request { r_virt : Z; r_phys : Z; r_write : bool; r_noexec : bool; r_fb : bool; r_count : Z }.

Definition request_ok (L : nat) (r : request) : Prop :=
  0 <= r_virt r /\ 0 <= r_phys r /\ 0 <= r_count r /\ r_virt r mod 4096 = 0 /\ r_phys r mod 4096 = 0 /\ r_count r mod 4096 = 0 /\
  r_virt r + r_count r <= 2 ^ 64 /\ r_phys r + r_count r <= 2 ^ 48 /\ r_count r <= space L.

(** Calls of [map_pages] one after the other. *)
Fixpoint map_all (pat gib : bool) (pagemap : pagemap_t) (rs : list request) : P unit :=
  match rs with
  | [] => mret tt
  | r :: rs' =>
      _ ← map_pages pat gib pagemap (r_virt r) (r_phys r) (vmm_flags (r_write r) (r_noexec r) (r_fb r)) (r_count r);
      map_all pat gib pagemap rs'
  end.
Definition amap_all (pat : bool) (L : nat) (rs : list request) (m : aspace) : aspace :=
  fold_left (fun m r => amap L (r_virt r) (r_phys r) (r_count r) (given (r_write r) (r_noexec r) (r_fb r && pat)) m) rs m.

(** A call on addresses that a call before it has mapped for a framebuffer. *)
Definition blocked (pat : bool) (L : nat) (rs : list request) : Prop := exists rs1 r rs2 v x w nx,
  rs = rs1 ++ r :: rs2 /\ off L v (r_virt r) < r_count r /\ amap_all pat L rs1 (fun _ => None) v = Some (x, given w nx true).

(** Without framebuffers, no call is. *)
Lemma amap_all_fb pat L rs m v x w nx :
  Forall (fun r => r_fb r && pat = false) rs -> (forall y, m v <> Some (y, given w nx true)) -> amap_all pat L rs m v <> Some (x, given w nx true).
Proof.
  intros Hrs. revert m. unfold amap_all. induction Hrs as [|r rs Hr _ IH]; intros m Hm; [apply Hm|]. cbn [fold_left]. apply IH.
  intros y. rewrite Hr. unfold amap. case_decide; [|apply Hm]. unfold given. congruence.
Qed.

Lemma not_blocked pat L rs : Forall (fun r => r_fb r && pat = false) rs -> ~ blocked pat L rs.
Proof.
  intros H (rs1 & r & rs2 & v & x & w & nx & -> & _ & E). apply Forall_app in H as [H _]. by eapply amap_all_fb in E.
Qed.

#[export] Instance amap_proper L virt phys count a :
  Proper (pointwise_relation Z eq ==> pointwise_relation Z eq) (amap L virt phys count a).
Proof. intros m m' H v. unfold amap. by case_decide. Qed.

(** The calls [rs2] after the calls [rs1]. *)
Lemma map_all_wp pat gib pagemap rs1 rs2 s T :
  let L := depth pagemap in
  four_or_five pagemap -> pm_ok pagemap s T -> (forall v, pm_view pagemap s v = amap_all pat L rs1 (fun _ => None) v) ->
  Forall (request_ok L) rs2 ->
  wp (map_all pat gib pagemap rs2)
    (fun _ s' => (exists T', pm_ok pagemap s' T') /\ forall v, pm_view pagemap s' v = amap_all pat L (rs1 ++ rs2) (fun _ => None) v)
    (fun s' => out_of_memory s' \/ blocked pat L (rs1 ++ rs2)) s.
Proof.
  intros L H4 Hvm Hm Hrs. revert rs1 s T Hvm Hm.
  induction Hrs as [|r rs2 (? & ? & ? & ? & ? & ? & ? & ? & ?) _ IH]; intros rs1 s T Hvm Hm.
  { apply wp_ret. split; [by exists T|]. by rewrite app_nil_r. }
  apply wp_bind. eapply wp_mono; [by apply (map_pages_wp pat gib pagemap s T)| |]; cbn beta.
  - intros _ s1 Hs1. destruct (m_vm _ _ _ _ _ _ _ _ _ Hs1) as [T1 Hvm1]. rewrite (cons_middle r rs1 rs2), app_assoc.
    apply (IH (rs1 ++ [r]) s1 T1 Hvm1). intros v. rewrite (maps_view _ _ _ _ _ _ _ _ _ v Hs1).
    unfold amap_all. rewrite fold_left_app. cbn [fold_left]. by apply amap_proper.
  - intros h [?|(v & Hv & l & x & w & nx & _ & E)]; [by left|right]. exists rs1, r, rs2, v, x, w, nx.
    split; [done|]. split; [done|]. rewrite <- Hm. unfold view. by rewrite E.
Qed.

Lemma pagemap_wp pat gib paging_mode s rs :
  ready s -> let L := if paging_mode =? PAGING_MODE_X86_64_5LVL then 4%nat else 3%nat in
  Forall (request_ok L) rs ->
  wp (pagemap ← new_pagemap paging_mode; _ ← map_all pat gib pagemap rs; mret pagemap)
    (fun pagemap s' => four_or_five pagemap /\ (exists T, pm_ok pagemap s' T) /\
      forall v, pm_view pagemap s' v = amap_all pat L rs (fun _ => None) v)
    (fun s' => out_of_memory s' \/ blocked pat L rs) s.
Proof.
  intros Hr L Hrs. apply wp_bind. eapply wp_mono; [by apply new_pagemap_wp| |]; cbn beta; [|by left].
  intros pagemap s1 (H4 & Hd & Hla & [T Hvm] & Hv). fold L in Hd. apply wp_bind. rewrite <- Hd in Hrs |- *.
  eapply wp_mono; [by apply (map_all_wp pat gib pagemap [] rs s1 T H4 Hvm Hv)| |done]; cbn beta.
  intros _ s2 H2. by apply wp_ret.
Qed.

(** C9: a page map from [new_pagemap], with four or five levels, and any sequence of
    [map_pages] calls on it, framebuffers included, each on aligned arguments and a region
    that fits in the address space: every address is mapped as the last call whose region
    has it says, and addresses in no region are not mapped.  When the calls panic, the
    allocator has no page left in the state they panic in, or some call is on an address
    that the calls before it left mapped for a framebuffer (a large page of a framebuffer
    cannot be split). *)
Theorem pagemap_refines pat gib paging_mode s rs :
  ready s -> let L := if paging_mode =? PAGING_MODE_X86_64_5LVL then 4%nat else 3%nat in
  Forall (request_ok L) rs ->
  match (pagemap ← new_pagemap paging_mode; _ ← map_all pat gib pagemap rs; mret pagemap) s with
  | Ret s' pagemap => four_or_five pagemap /\ (exists T, pm_ok pagemap s' T) /\
      forall v, pm_view pagemap s' v = amap_all pat L rs (fun _ => None) v
  | Throw s' _ => out_of_memory s' \/ blocked pat L rs
  | Stuck => False
  end.
Proof. intros Hr L Hrs. exact (pagemap_wp pat gib paging_mode s rs Hr Hrs). Qed.

(** ** Witnesses *)

(** A page of 1 GiB on the sample memory map. *)
Definition booted (rs : list request) : outcome pmm pagemap_t :=
  (pagemap ← new_pagemap 0; _ ← map_all true true pagemap rs; mret pagemap) sample.

Lemma booted_eq rs : booted rs = (pagemap ← new_pagemap 0; _ ← map_all true true pagemap rs; mret pagemap) sample.
Proof. reflexivity. Qed.

Lemma sample_ready : ready sample.
Proof. split; [apply sample_pmm_ok|done]. Qed.

Lemma booted_ok rs s pagemap :
  Forall (request_ok 3) rs -> booted rs = Ret s pagemap -> four_or_five pagemap /\ exists T, pm_ok pagemap s T.
Proof.
  intros Hrs E. pose proof (pagemap_wp true true 0 _ rs sample_ready Hrs) as H. unfold wp in H. rewrite <- booted_eq, E in H.
  split; apply H.
Qed.

Lemma returned_both {A} (r : outcome pmm A) : is_Some (returned r) -> exists s' p, r = Ret s' p.
Proof. intros [p [s' E]%returned_Some]. by exists s', p. Qed.

Definition request_okb (L : nat) (r : request) : bool :=
  (0 <=? r_virt r) && (0 <=? r_phys r) && (0 <=? r_count r) && (r_virt r mod 4096 =? 0) && (r_phys r mod 4096 =? 0) && (r_count r mod 4096 =? 0) &&
  (r_virt r + r_count r <=? 2 ^ 64) && (r_phys r + r_count r <=? 2 ^ 48) && (r_count r <=? space L).

Lemma request_okb_ok L r : request_okb L r = true -> request_ok L r.
Proof. unfold request_okb, request_ok. rewrite !andb_true_iff, !Z.leb_le, !Z.eqb_eq. tauto. Qed.

(** A call on the page map of [booted]. *)
Definition then_call {A} (rs : list request) (call : pagemap_t -> P A) : outcome pmm A :=
  match booted rs with Ret s pagemap => call pagemap s | Throw s msg => Throw s msg | Stuck => Stuck end.

Lemma then_returned {A} rs (call : pagemap_t -> P A) :
  is_Some (returned (then_call rs call)) -> exists s pagemap s' a, booted rs = Ret s pagemap /\ call pagemap s = Ret s' a.
Proof.
  unfold then_call. destruct (booted rs) as [s pagemap| |] eqn:E; [|by intros [? [=]]..]. intros (s' & a & E')%returned_both. exists s, pagemap, s', a. split; [reflexivity|exact E'].
Qed.

(** A page of 2 MiB. *)
Definition two_mib : list request := [Request 0x40000000 0x80000000 true false false 0x200000].
Lemma two_mib_ok : Forall (request_ok 3) two_mib.
Proof. apply Forall_cons_2; [|done]. by apply request_okb_ok. Qed.

(** Another page beside it. *)
Lemma map_page_correct_witness : exists s pagemap s',
  booted two_mib = Ret s pagemap /\
  map_page true true map_depth pagemap 0x40203000 0x1000 (vmm_flags false true false) Size4KiB s = Ret s' tt /\
  pm_view pagemap s' 0x40203123 = Some (0x1123, given false true false) /\
  forall v, 0x1000 <= off (depth pagemap) v 0x40203000 -> pm_view pagemap s' v = pm_view pagemap s v.
Proof.
  destruct (then_returned two_mib (fun pagemap => map_page true true map_depth pagemap 0x40203000 0x1000 (vmm_flags false true false) Size4KiB))
    as (s & pagemap & s' & [] & E & E'); [vm_compute; eauto|].
  destruct (booted_ok _ _ _ two_mib_ok E) as [H4 [T Hvm]].
  pose proof (map_page_correct true true pagemap s T 0x40203000 0x1000 false true false Size4KiB H4 Hvm
    ltac:(split; lia) eq_refl ltac:(split; [lia|reflexivity])) as H.
  rewrite E' in H. destruct H as [_ Hv]. exists s, pagemap, s'. split; [exact E|]. split; [exact E'|]. clear E E'. split.
  - rewrite Hv. destruct H4 as [H4|H4]; unfold amap, depth; rewrite H4; reflexivity.
  - intros v Hv'. rewrite Hv. unfold amap. rewrite decide_False; [reflexivity|]. cbn [size_level]. change (psize 0) with 0x1000. lia.
Defined.

(** A page of 2 MiB and two of 4 KiB, over the page that is there. *)
Lemma map_pages_correct_witness : exists s pagemap s',
  booted two_mib = Ret s pagemap /\
  map_pages true true pagemap 0x40000000 0x600000 (vmm_flags true true true) 0x202000 s = Ret s' tt /\
  pm_view pagemap s' 0x40000123 = Some (0x600123, given true true true) /\ pm_view pagemap s' 0x40201456 = Some (0x801456, given true true true).
Proof.
  destruct (then_returned two_mib (fun pagemap => map_pages true true pagemap 0x40000000 0x600000 (vmm_flags true true true) 0x202000))
    as (s & pagemap & s' & [] & E & E'); [vm_compute; eauto|].
  destruct (booted_ok _ _ _ two_mib_ok E) as [H4 [T Hvm]].
  pose proof (map_pages_correct true true pagemap s T 0x40000000 0x600000 true true true 0x202000 H4 Hvm
    ltac:(lia) ltac:(lia) ltac:(lia) eq_refl eq_refl eq_refl ltac:(lia) ltac:(lia)
    ltac:(destruct H4 as [H4|H4]; unfold depth; rewrite H4; vm_compute; discriminate)) as H.
  rewrite E' in H. destruct H as [_ Hv]. exists s, pagemap, s'. split; [exact E|]. split; [exact E'|]. clear E E'.
  rewrite !Hv. destruct H4 as [H4|H4]; unfold amap, depth; rewrite H4; split; reflexivity.
Defined.

Definition two_requests : list request :=
  [Request 0x40000000 0x80000000 true false false 0x200000; Request 0x40000000 0x600000 false true true 0x200000].
Lemma pagemap_refines_witness : exists s pagemap,
  booted two_requests = Ret s pagemap /\
  pm_view pagemap s 0x40000123 = Some (0x600123, given false true true) /\ pm_view pagemap s 0x40200000 = None.
Proof.
  destruct (returned_both (booted two_requests)) as (s & pagemap & E); [vm_compute; eauto|].
  pose proof (pagemap_refines true true 0 sample two_requests sample_ready
    ltac:(apply Forall_cons_2; [|apply Forall_cons_2; [|apply Forall_nil_2]]; (apply request_okb_ok; reflexivity))) as H.
  cbv zeta in H. rewrite <- booted_eq, E in H. destruct H as (_ & _ & Hv). exists s, pagemap. split; [exact E|]. clear E.
  rewrite !Hv. split; reflexivity.
Defined.

(** ** A large page of a framebuffer *)

(** The bit of the page attribute table is in the address field of the entry: such a page
    cannot be replaced by smaller ones. *)
Example framebuffer_split_panics :
  match then_call [Request 0x40000000 0x80000000 true false true 0x200000] (fun pagemap =>
    map_pages true true pagemap 0x40003000 0x1000 (vmm_flags false true false) 0x1000) with
  | Throw _ msg => msg = "Unexpected page table entry address in get_next_level"%string
  | _ => False
  end.
Proof. vm_compute. reflexivity. Qed.
End VmmTheorems.
