(* ===== verification/Blake2b.v ===== *)
(** * Hashes of the boot loader

    common/crypt/blake2b.c of Limine (src/limine/limine-8.7.0), which checks the
    configuration and the files it loads. *)

From S2P Require Import Prelude.

Module Blake2b.
Open Scope Z_scope.

Definition BLAKE2B_BLOCK_BYTES : Z := 128.
Definition BLAKE2B_OUT_BYTES : Z := 64.
Definition BLAKE2B_SALT_BYTES : Z := 16.
Definition BLAKE2B_PERSONAL_BYTES : Z := 16.

Definition blake2b_iv : list Z :=
  [0x6a09e667f3bcc908; 0xbb67ae8584caa73b; 0x3c6ef372fe94f82b; 0xa54ff53a5f1d36f1;
   0x510e527fade682d1; 0x9b05688c2b3e6c1f; 0x1f83d9abfb41bd6b; 0x5be0cd19137e2179].

Definition blake2b_sigma : list (list nat) :=
  [[ 0;  1;  2;  3;  4;  5;  6;  7;  8;  9; 10; 11; 12; 13; 14; 15];
   [14; 10;  4;  8;  9; 15; 13;  6;  1; 12;  0;  2; 11;  7;  5;  3];
   [11;  8; 12;  0;  5;  2; 15; 13; 10; 14;  3;  6;  7;  1;  9;  4];
   [ 7;  9;  3;  1; 13; 12; 11; 14;  2;  6;  5; 10;  4;  0; 15;  8];
   [ 9;  0;  5;  7;  2;  4; 10; 15; 14;  1; 11; 12;  6;  8;  3; 13];
   [ 2; 12;  6; 10;  0; 11;  8;  3;  4; 13;  7;  5; 15; 14;  1;  9];
   [12;  5;  1; 15; 14; 13;  4; 10;  0;  7;  6;  3;  9;  2;  8; 11];
   [13; 11;  7; 14; 12;  1;  3;  9;  5;  0; 15;  4;  8;  6;  2; 10];
   [ 6; 15; 14;  9; 11;  3;  0;  8; 12;  2; 13;  7;  1;  4; 10;  5];
   [10;  2;  8;  4;  7;  6;  1;  5; 15; 11;  9; 14;  3; 12; 13;  0];
   [ 0;  1;  2;  3;  4;  5;  6;  7;  8;  9; 10; 11; 12; 13; 14; 15];
   [14; 10;  4;  8;  9; 15; 13;  6;  1; 12;  0;  2; 11;  7;  5;  3]]%nat.

Record blake2b_state := MkState {
  st_h : list Z;
  st_t : Z * Z;
  st_f : Z * Z;
  st_buf : list Z;
  st_buf_len : Z;
  st_last_node : Z }.

Record blake2b_param := MkParam {
  digest_length : Z; key_length : Z; fan_out : Z; depth : Z;
  leaf_length : Z; node_offset : Z; xof_length : Z;
  node_depth : Z; inner_length : Z;
  reserved : list Z; salt : list Z; personal : list Z }.

Definition set_h (h : list Z) (s : blake2b_state) : blake2b_state :=
  MkState h (st_t s) (st_f s) (st_buf s) (st_buf_len s) (st_last_node s).
Definition set_t (t : Z * Z) (s : blake2b_state) : blake2b_state :=
  MkState (st_h s) t (st_f s) (st_buf s) (st_buf_len s) (st_last_node s).
Definition set_f (f : Z * Z) (s : blake2b_state) : blake2b_state :=
  MkState (st_h s) (st_t s) f (st_buf s) (st_buf_len s) (st_last_node s).
Definition set_buf (b : list Z) (s : blake2b_state) : blake2b_state :=
  MkState (st_h s) (st_t s) (st_f s) b (st_buf_len s) (st_last_node s).
Definition set_buf_len (n : Z) (s : blake2b_state) : blake2b_state :=
  MkState (st_h s) (st_t s) (st_f s) (st_buf s) n (st_last_node s).

(** Little-endian integers in memory. *)
Definition load (bs : list Z) : Z := eval_digits 256 bs.
Fixpoint store (n : nat) (x : Z) : list Z :=
  match n with O => [] | S n' => x mod 256 :: store n' (x / 256) end.
Definition load64 (bs : list Z) (i : nat) : Z := load (take 8 (drop (8 * i) bs)).

(** [memcpy(dst + off, src, len)] for [len] the length of [src]. *)
Definition memcpy (dst : list Z) (off : Z) (src : list Z) : list Z :=
  take (Z.to_nat off) dst ++ src ++ drop (Z.to_nat off + length src) dst.

Definition blake2b_increment_counter (inc : Z) (s : blake2b_state) : blake2b_state :=
  let t0 := u64 (fst (st_t s) + inc) in
  set_t (t0, u64 (snd (st_t s) + (if t0 <? inc then 1 else 0))) s.

Definition rotr64 (w c : Z) : Z := Z.lor (Z.shiftr w c) (u64 (Z.shiftl w (64 - c))).

(** The macros [G] and [ROUND]: the variables are words of [v]. *)
Definition G (m : list Z) (r i a b c d : nat) (v : list Z) : list Z :=
  let word k := m !!! ((blake2b_sigma !!! r) !!! k) in
  let v := <[a := u64 (v !!! a + v !!! b + word (2 * i + 0)%nat)]> v in
  let v := <[d := rotr64 (Z.lxor (v !!! d) (v !!! a)) 32]> v in
  let v := <[c := u64 (v !!! c + v !!! d)]> v in
  let v := <[b := rotr64 (Z.lxor (v !!! b) (v !!! c)) 24]> v in
  let v := <[a := u64 (v !!! a + v !!! b + word (2 * i + 1)%nat)]> v in
  let v := <[d := rotr64 (Z.lxor (v !!! d) (v !!! a)) 16]> v in
  let v := <[c := u64 (v !!! c + v !!! d)]> v in
  <[b := rotr64 (Z.lxor (v !!! b) (v !!! c)) 63]> v.

Definition ROUND (m : list Z) (r : nat) (v : list Z) : list Z :=
  let v := G m r 0 0 4 8 12 v in
  let v := G m r 1 1 5 9 13 v in
  let v := G m r 2 2 6 10 14 v in
  let v := G m r 3 3 7 11 15 v in
  let v := G m r 4 0 5 10 15 v in
  let v := G m r 5 1 6 11 12 v in
  let v := G m r 6 2 7 8 13 v in
  G m r 7 3 4 9 14 v.

Definition blake2b_compress (block : list Z) (s : blake2b_state) : blake2b_state :=
  let m := load64 block <$> seq 0 16 in
  let iv k := blake2b_iv !!! k in
  let v := ((fun i => st_h s !!! i) <$> seq 0 8) ++
    [iv 0%nat; iv 1%nat; iv 2%nat; iv 3%nat;
     Z.lxor (iv 4%nat) (fst (st_t s)); Z.lxor (iv 5%nat) (snd (st_t s));
     Z.lxor (iv 6%nat) (fst (st_f s)); Z.lxor (iv 7%nat) (snd (st_f s))] in
  let v := fold_left (fun v r => ROUND m r v) (seq 0 12) v in
  set_h ((fun i => Z.lxor (Z.lxor (st_h s !!! i) (v !!! i)) (v !!! (i + 8)%nat)) <$> seq 0 8) s.

(** The bytes of the packed structure. *)
Definition param_bytes (p : blake2b_param) : list Z :=
  [digest_length p; key_length p; fan_out p; depth p] ++
  store 4 (leaf_length p) ++ store 4 (node_offset p) ++ store 4 (xof_length p) ++
  [node_depth p; inner_length p] ++ reserved p ++ salt p ++ personal p.

Definition zeros (n : Z) : list Z := replicate (Z.to_nat n) 0.

Definition blake2b_init : blake2b_state :=
  let param := MkParam BLAKE2B_OUT_BYTES 0 1 1 0 0 0 0 0 (zeros 14) (zeros BLAKE2B_SALT_BYTES) (zeros BLAKE2B_PERSONAL_BYTES) in
  let h := (fun i => blake2b_iv !!! i) <$> seq 0 8 in
  let h := (fun i => Z.lxor (h !!! i) (load64 (param_bytes param) i)) <$> seq 0 8 in
  MkState h (0, 0) (0, 0) (zeros BLAKE2B_BLOCK_BYTES) 0 0.

(** [while (in_len > BLAKE2B_BLOCK_BYTES)]; [None] when the fuel is not enough. *)
Fixpoint update_loop (fuel : nat) (fill : Z) (input : list Z) (in_len : Z) (s : blake2b_state)
    : option (list Z * Z * blake2b_state) :=
  match fuel with
  | O => None
  | S fuel' =>
      if BLAKE2B_BLOCK_BYTES <? in_len then
        let s := blake2b_increment_counter BLAKE2B_BLOCK_BYTES s in
        let s := blake2b_compress (take (Z.to_nat BLAKE2B_BLOCK_BYTES) input) s in
        update_loop fuel' fill (drop (Z.to_nat fill) input) (u64 (in_len - fill)) s
      else Some (input, in_len, s)
  end.

Definition blake2b_update (fuel : nat) (input : list Z) (in_len : Z) (s : blake2b_state) : option blake2b_state :=
  if in_len =? 0 then Some s
  else
    let left := st_buf_len s in
    let fill := u64 (BLAKE2B_BLOCK_BYTES - left) in
    r ← (if fill <? in_len then
           let s := set_buf_len 0 s in
           let s := set_buf (memcpy (st_buf s) left (take (Z.to_nat fill) input)) s in
           let s := blake2b_increment_counter BLAKE2B_BLOCK_BYTES s in
           let s := blake2b_compress (st_buf s) s in
           update_loop fuel fill (drop (Z.to_nat fill) input) (u64 (in_len - fill)) s
         else Some (input, in_len, s));
    let '(input, in_len, s) := r in
    let s := set_buf (memcpy (st_buf s) (st_buf_len s) (take (Z.to_nat in_len) input)) s in
    Some (set_buf_len (u64 (st_buf_len s + in_len)) s).

(** The digest it copies to [out]. *)
Definition blake2b_final (s : blake2b_state) : list Z :=
  let s := blake2b_increment_counter (st_buf_len s) s in
  let s := set_f (u64 (-1), snd (st_f s)) s in
  let s := set_buf (memcpy (st_buf s) (st_buf_len s) (zeros (BLAKE2B_BLOCK_BYTES - st_buf_len s))) s in
  let s := blake2b_compress (st_buf s) s in
  concat ((fun i => store 8 (st_h s !!! i)) <$> seq 0 8).

(** The fuel is one more than the blocks of the input. *)
Definition blake2b (input : list Z) : option (list Z) :=
  s ← blake2b_update (S (length input / 128)) input (zlen input) blake2b_init;
  Some (blake2b_final s).
End Blake2b.
