(* ===== verification/Blake2bSpec.v ===== *)
(** * BLAKE2b

    The hash function as RFC 7693 defines it, and the code of the boot loader as an
    implementation. *)

From S2P Require Import Prelude Blake2b.

(** The function of RFC 7693 with 64-bit words, no key and digests of 64 bytes. *)
Module Rfc7693.
Open Scope Z_scope.

Definition IV : list Z :=
  [0x6A09E667F3BCC908; 0xBB67AE8584CAA73B; 0x3C6EF372FE94F82B; 0xA54FF53A5F1D36F1;
   0x510E527FADE682D1; 0x9B05688C2B3E6C1F; 0x1F83D9ABFB41BD6B; 0x5BE0CD19137E2179].

Definition SIGMA : list (list nat) :=
  [[0; 1; 2; 3; 4; 5; 6; 7; 8; 9; 10; 11; 12; 13; 14; 15];
   [14; 10; 4; 8; 9; 15; 13; 6; 1; 12; 0; 2; 11; 7; 5; 3];
   [11; 8; 12; 0; 5; 2; 15; 13; 10; 14; 3; 6; 7; 1; 9; 4];
   [7; 9; 3; 1; 13; 12; 11; 14; 2; 6; 5; 10; 4; 0; 15; 8];
   [9; 0; 5; 7; 2; 4; 10; 15; 14; 1; 11; 12; 6; 8; 3; 13];
   [2; 12; 6; 10; 0; 11; 8; 3; 4; 13; 7; 5; 15; 14; 1; 9];
   [12; 5; 1; 15; 14; 13; 4; 10; 0; 7; 6; 3; 9; 2; 8; 11];
   [13; 11; 7; 14; 12; 1; 3; 9; 5; 0; 15; 4; 8; 6; 2; 10];
   [6; 15; 14; 9; 11; 3; 0; 8; 12; 2; 13; 7; 1; 4; 10; 5];
   [10; 2; 8; 4; 7; 6; 1; 5; 15; 11; 9; 14; 3; 12; 13; 0]]%nat.

(** [x >>> n] *)
Definition rotr (x n : Z) : Z := Z.lxor (x / 2 ^ n) (x * 2 ^ (64 - n) mod 2 ^ 64).

Definition mix (v : list Z) (a b c d : nat) (x y : Z) : list Z :=
  let v := <[a := (v !!! a + v !!! b + x) mod 2 ^ 64]> v in
  let v := <[d := rotr (Z.lxor (v !!! d) (v !!! a)) 32]> v in
  let v := <[c := (v !!! c + v !!! d) mod 2 ^ 64]> v in
  let v := <[b := rotr (Z.lxor (v !!! b) (v !!! c)) 24]> v in
  let v := <[a := (v !!! a + v !!! b + y) mod 2 ^ 64]> v in
  let v := <[d := rotr (Z.lxor (v !!! d) (v !!! a)) 16]> v in
  let v := <[c := (v !!! c + v !!! d) mod 2 ^ 64]> v in
  <[b := rotr (Z.lxor (v !!! b) (v !!! c)) 63]> v.

Definition round (m : list Z) (i : nat) (v : list Z) : list Z :=
  let x k := m !!! ((SIGMA !!! (i mod 10)%nat) !!! k) in
  let v := mix v 0 4 8 12 (x 0%nat) (x 1%nat) in
  let v := mix v 1 5 9 13 (x 2%nat) (x 3%nat) in
  let v := mix v 2 6 10 14 (x 4%nat) (x 5%nat) in
  let v := mix v 3 7 11 15 (x 6%nat) (x 7%nat) in
  let v := mix v 0 5 10 15 (x 8%nat) (x 9%nat) in
  let v := mix v 1 6 11 12 (x 10%nat) (x 11%nat) in
  let v := mix v 2 7 8 13 (x 12%nat) (x 13%nat) in
  mix v 3 4 9 14 (x 14%nat) (x 15%nat).

(** The compression function; [t] has 128 bits. *)
Definition F (h m : list Z) (t : Z) (f : bool) : list Z :=
  let v := h ++ IV in
  let v := <[12%nat := Z.lxor (v !!! 12%nat) (t mod 2 ^ 64)]> v in
  let v := <[13%nat := Z.lxor (v !!! 13%nat) (t / 2 ^ 64)]> v in
  let v := if f then <[14%nat := Z.lxor (v !!! 14%nat) (2 ^ 64 - 1)]> v else v in
  let v := fold_left (fun v i => round m i v) (seq 0 12) v in
  (fun i => Z.lxor (Z.lxor (h !!! i) (v !!! i)) (v !!! (i + 8)%nat)) <$> seq 0 8.

(** The message in blocks of 128 bytes, the last one padded with zeros, as words. *)
Definition word (bs : list Z) (i : nat) : Z := eval_digits 256 (take 8 (drop (8 * i) bs)).
Definition words (bs : list Z) : list Z := word bs <$> seq 0 16.
Definition nblocks (ll : nat) : nat := Nat.max 1 ((ll + 127) / 128).
Definition pblock (msg : list Z) (i : nat) : list Z := take 128 (drop (128 * i) msg ++ replicate 128 0).

Definition h0 : list Z := <[0%nat := Z.lxor (IV !!! 0%nat) (Z.lxor 0x01010000 64)]> IV.

Definition blocks_hash (msg : list Z) (n : nat) : list Z :=
  fold_left (fun h i => F h (words (pblock msg i)) (128 * (Z.of_nat i + 1)) false) (seq 0 n) h0.

Fixpoint octets (n : nat) (x : Z) : list Z := match n with O => [] | S n' => x mod 256 :: octets n' (x / 256) end.

Definition hash (msg : list Z) : list Z :=
  let last := (nblocks (length msg) - 1)%nat in
  let h := F (blocks_hash msg last) (words (pblock msg last)) (zlen msg) true in
  concat (octets 8 <$> h).
End Rfc7693.

Module Blake2bSpec.
Import Blake2b.
Open Scope Z_scope.

Abbreviation word64 := (in_u 64).

(** ** Words *)

Lemma lxor_range n a b : 0 <= n -> in_u n a -> in_u n b -> in_u n (Z.lxor a b).
Proof.
  intros Hn Ha Hb. assert (E : Z.lxor a b mod 2 ^ n = Z.lxor a b).
  { rewrite <- Z.land_ones by done. apply Z.bits_inj'. intros k Hk. rewrite Z.land_spec, Z.testbit_ones, !Z.lxor_spec by done.
    destruct (decide (k < n)) as [Hl|Hl]; [rewrite (proj2 (Z.leb_le _ _)), (proj2 (Z.ltb_lt _ _)) by lia; apply andb_true_r|].
    rewrite <- (Z.mod_small a (2 ^ n)), <- (Z.mod_small b (2 ^ n)) by done. rewrite !Z.mod_pow2_bits_high by lia. done. }
  unfold in_u. rewrite <- E. apply Z.mod_pos_bound. lia.
Qed.

Lemma lookup_word v i : Forall word64 v -> word64 (v !!! i).
Proof.
  intros H. rewrite list_lookup_total_alt. destruct (v !! i) as [x|] eqn:E; [by eapply Forall_lookup_1 in E|]. cbn. split; lia.
Qed.

Lemma insert_word v i x : Forall word64 v -> word64 x -> Forall word64 (<[i := x]> v).
Proof. intros Hv Hx. by apply Forall_insert. Qed.

Lemma rotr_eq x n : word64 x -> 0 < n < 64 -> rotr64 x n = Rfc7693.rotr x n /\ word64 (rotr64 x n).
Proof.
  intros [Hx0 Hx] Hn. unfold rotr64, Rfc7693.rotr, wrap. rewrite Z.shiftr_div_pow2, Z.shiftl_mul_pow2 by lia.
  assert (Hlo : 0 <= x / 2 ^ n < 2 ^ (64 - n)).
  { split; [apply Z.div_pos; lia|]. apply Z.div_lt_upper_bound; [lia|]. rewrite <- Z.pow_add_r by lia. replace (n + (64 - n)) with 64 by lia. done. }
  assert (Hd : Z.land (x / 2 ^ n) ((x * 2 ^ (64 - n)) mod 2 ^ 64) = 0).
  { apply Z.bits_inj'. intros k Hk. rewrite Z.land_spec, Z.bits_0. destruct (decide (k < 64 - n)) as [Hl|Hl].
    - rewrite Z.mod_pow2_bits_low, Z.mul_pow2_bits_low by lia. apply andb_false_r.
    - rewrite <- (Z.mod_small (x / 2 ^ n) (2 ^ (64 - n))), Z.mod_pow2_bits_high by lia. done. }
  rewrite <- (Z.lxor_lor _ _ Hd). split; [done|]. apply lxor_range; [lia| |apply Z.mod_pos_bound; lia].
  split; [lia|]. assert (2 ^ (64 - n) <= 2 ^ 64) by (apply Z.pow_le_mono_r; lia). lia.
Qed.

(** ** The compression function *)

Lemma sum_word x : word64 (x mod 2 ^ 64).
Proof. apply Z.mod_pos_bound. lia. Qed.

(** One step of the mixing function: a word is rotated. *)
Lemma rot_step v i j n : Forall word64 v -> 0 < n < 64 ->
  rotr64 (Z.lxor (v !!! i) (v !!! j)) n = Rfc7693.rotr (Z.lxor (v !!! i) (v !!! j)) n /\ word64 (rotr64 (Z.lxor (v !!! i) (v !!! j)) n).
Proof. intros Hv Hn. apply rotr_eq; [|done]. apply lxor_range; [lia|by apply lookup_word..]. Qed.

Lemma rot_insert v k i j n : Forall word64 v -> 0 < n < 64 ->
  <[k := rotr64 (Z.lxor (v !!! i) (v !!! j)) n]> v = <[k := Rfc7693.rotr (Z.lxor (v !!! i) (v !!! j)) n]> v /\
  Forall word64 (<[k := Rfc7693.rotr (Z.lxor (v !!! i) (v !!! j)) n]> v).
Proof. intros Hv Hn. destruct (rot_step v i j n Hv Hn) as [<- Hw]. split; [done|by apply insert_word]. Qed.

Lemma G_mix m r i a b c d v : Forall word64 v ->
  G m r i a b c d v =
    Rfc7693.mix v a b c d (m !!! ((blake2b_sigma !!! r) !!! (2 * i + 0)%nat)) (m !!! ((blake2b_sigma !!! r) !!! (2 * i + 1)%nat)) /\
  Forall word64 (G m r i a b c d v).
Proof.
  intros Hv. unfold G, Rfc7693.mix, wrap. generalize (m !!! ((blake2b_sigma !!! r) !!! (2 * i + 0)%nat)), (m !!! ((blake2b_sigma !!! r) !!! (2 * i + 1)%nat)). intros x y.
  assert (H1 := insert_word v a _ Hv (sum_word (v !!! a + v !!! b + x))). set (v1 := <[a := _]> v) in *. clearbody v1.
  destruct (rot_insert v1 d d a 32 H1) as [-> H2]; [lia|]. set (v2 := <[d := _]> v1) in *. clearbody v2.
  assert (H3 := insert_word v2 c _ H2 (sum_word (v2 !!! c + v2 !!! d))). set (v3 := <[c := _]> v2) in *. clearbody v3.
  destruct (rot_insert v3 b b c 24 H3) as [-> H4]; [lia|]. set (v4 := <[b := _]> v3) in *. clearbody v4.
  assert (H5 := insert_word v4 a _ H4 (sum_word (v4 !!! a + v4 !!! b + y))). set (v5 := <[a := _]> v4) in *. clearbody v5.
  destruct (rot_insert v5 d d a 16 H5) as [-> H6]; [lia|]. set (v6 := <[d := _]> v5) in *. clearbody v6.
  assert (H7 := insert_word v6 c _ H6 (sum_word (v6 !!! c + v6 !!! d))). set (v7 := <[c := _]> v6) in *. clearbody v7.
  destruct (rot_insert v7 b b c 63 H7) as [-> H8]; [lia|]. done.
Qed.

Lemma sigma_mod r : (r < 12)%nat -> blake2b_sigma !!! r = Rfc7693.SIGMA !!! (r mod 10)%nat.
Proof. intros Hr. do 12 (destruct r as [|r]; [done|]). lia. Qed.

Lemma ROUND_round m r v : (r < 12)%nat -> Forall word64 v -> ROUND m r v = Rfc7693.round m r v /\ Forall word64 (ROUND m r v).
Proof.
  intros Hr Hv. unfold ROUND, Rfc7693.round. rewrite <- (sigma_mod r Hr).
  cbv zeta. set (row := blake2b_sigma !!! r).
  do 8 match goal with |- context [G m r ?i ?a ?b ?c ?d v] =>
    let E := fresh in pose proof (G_mix m r i a b c d v Hv) as [E Hv']; cbn [Nat.mul Nat.add] in E; fold row in E; rewrite <- E; clear E;
    generalize dependent (G m r i a b c d v); clear v Hv; intros v Hv
  end.
  done.
Qed.

Lemma fold_left_rel {A B} (Q : A -> Prop) (f g : A -> B -> A) l v :
  (forall v r, r ∈ l -> Q v -> f v r = g v r /\ Q (f v r)) -> Q v -> fold_left f l v = fold_left g l v /\ Q (fold_left f l v).
Proof.
  revert v. induction l as [|r l IH]; intros v H Hv; [done|]. cbn [fold_left]. destruct (H v r) as [E Hv']; [left|done|].
  rewrite <- E. apply IH; [|done]. intros v' r' Hr'. apply H. by right.
Qed.

Lemma rounds_eq m v : Forall word64 v ->
  fold_left (fun v r => ROUND m r v) (seq 0 12) v = fold_left (fun v r => Rfc7693.round m r v) (seq 0 12) v /\
  Forall word64 (fold_left (fun v r => ROUND m r v) (seq 0 12) v).
Proof. apply fold_left_rel. intros v' r Hr. apply ROUND_round. apply elem_of_seq in Hr. lia. Qed.

(** The words of the initial vector. *)
Lemma iv_words : Forall word64 Rfc7693.IV.
Proof. repeat (apply Forall_cons_2; [split; [lia|reflexivity]|]). apply Forall_nil_2. Qed.

Lemma list8 (h : list Z) : length h = 8%nat -> exists a b c d e f g i, h = [a; b; c; d; e; f; g; i].
Proof.
  intros H. do 8 (destruct h as [|? h]; [done|]). destruct h; [|done]. repeat eexists.
Qed.

(** The state after [n] bytes, all in full blocks. *)
Definition chaining (s : blake2b_state) (h : list Z) (n : Z) (last : bool) : Prop :=
  st_h s = h /\ st_t s = (n mod 2 ^ 64, n / 2 ^ 64) /\ st_f s = (if last then 2 ^ 64 - 1 else 0, 0).

(** The working vector before the rounds. *)
Definition start (h : list Z) (n : Z) (last : bool) : list Z :=
  let v := h ++ Rfc7693.IV in
  let v := <[12%nat := Z.lxor (v !!! 12%nat) (n mod 2 ^ 64)]> v in
  let v := <[13%nat := Z.lxor (v !!! 13%nat) (n / 2 ^ 64)]> v in
  if last then <[14%nat := Z.lxor (v !!! 14%nat) (2 ^ 64 - 1)]> v else v.

Lemma start_words h n last : Forall word64 h -> 0 <= n < 2 ^ 128 -> Forall word64 (start h n last).
Proof.
  intros Hh Hn. assert (Hv : Forall word64 (h ++ Rfc7693.IV)) by (apply Forall_app; split; [done|apply iv_words]).
  assert (Hq : word64 (n / 2 ^ 64)) by (split; [apply Z.div_pos; lia|]; apply Z.div_lt_upper_bound; [lia|]; rewrite <- Z.pow_add_r by lia; apply Hn).
  unfold start. assert (H1 := fun v i x H Hx => insert_word v i _ H (lxor_range 64 (v !!! i) x ltac:(lia) (lookup_word v i H) Hx)).
  cbv zeta. specialize (H1 _ 13%nat _ (H1 _ 12%nat _ Hv (sum_word n)) Hq) as H2. destruct last; [|done].
  apply H1; [done|]. split; [lia|]. lia.
Qed.

Lemma compress_start s h n last block :
  length h = 8%nat -> chaining s h n last ->
  blake2b_compress block s =
  set_h (let v := fold_left (fun v r => ROUND (Rfc7693.words block) r v) (seq 0 12) (start h n last) in
         (fun i => Z.lxor (Z.lxor (h !!! i) (v !!! i)) (v !!! (i + 8)%nat)) <$> seq 0 8) s.
Proof.
  intros (a & b & c & d & e & f & g & i & ->)%list8 (Eh & Et & Ef). unfold blake2b_compress. rewrite Eh, Et, Ef. destruct last; reflexivity.
Qed.

Lemma compress_F s h n last block :
  length h = 8%nat -> Forall word64 h -> 0 <= n < 2 ^ 128 -> chaining s h n last ->
  blake2b_compress block s = set_h (Rfc7693.F h (Rfc7693.words block) n last) s /\
  length (Rfc7693.F h (Rfc7693.words block) n last) = 8%nat /\ Forall word64 (Rfc7693.F h (Rfc7693.words block) n last).
Proof.
  intros Hlen Hw Hn Hc. rewrite (compress_start s h n last block Hlen Hc).
  destruct (rounds_eq (Rfc7693.words block) (start h n last) (start_words h n last Hw Hn)) as [E Hv].
  unfold Rfc7693.F. fold (start h n last). rewrite <- E. clear E.
  generalize dependent (fold_left (fun v r => ROUND (Rfc7693.words block) r v) (seq 0 12) (start h n last)). intros v Hv.
  split; [done|]. split; [done|]. apply Forall_fmap, Forall_forall. intros i _. cbn beta. unfold compose. apply lxor_range; [lia|apply lxor_range; [lia|by apply lookup_word..]|by apply lookup_word].
Qed.

Lemma F_words h n last block :
  length h = 8%nat -> Forall word64 h -> 0 <= n < 2 ^ 128 ->
  length (Rfc7693.F h (Rfc7693.words block) n last) = 8%nat /\ Forall word64 (Rfc7693.F h (Rfc7693.words block) n last).
Proof.
  intros Hl Hw Hn. by apply (compress_F (MkState h (n mod 2 ^ 64, n / 2 ^ 64) (if last then 2 ^ 64 - 1 else 0, 0) [] 0 0)).
Qed.

(** ** The counter *)

Lemma counter_add s h n inc : chaining s h n false -> 0 <= n -> 0 <= inc < 2 ^ 64 -> n + inc < 2 ^ 128 ->
  chaining (blake2b_increment_counter inc s) h (n + inc) false.
Proof.
  intros (Eh & Et & Ef) Hn Hi Hb. split; [done|]. split; [|done]. cbn [st_t blake2b_increment_counter set_t]. rewrite Et. cbn [fst snd].
  pose proof (Z.div_mod n (2 ^ 64) ltac:(lia)) as Ed. pose proof (Z.mod_pos_bound n (2 ^ 64) ltac:(lia)) as Hr.
  set (q := n / 2 ^ 64) in *. set (r := n mod 2 ^ 64) in *.
  assert (Hq : 0 <= q /\ q * 2 ^ 64 + inc < 2 ^ 64 * 2 ^ 64) by (split; [apply Z.div_pos; lia|change (2 ^ 64 * 2 ^ 64) with (2 ^ 128); lia]).
  assert (E : n + inc = r + inc + q * 2 ^ 64) by lia. rewrite E, Z.mod_add, Z.div_add by lia. unfold wrap.
  destruct (decide (r + inc < 2 ^ 64)) as [Hlt|Hge].
  - rewrite (Z.mod_small (r + inc)), (Z.div_small (r + inc)) by lia. rewrite (proj2 (Z.ltb_ge _ _)) by lia. f_equal. rewrite Z.mod_small; lia.
  - assert (Em : (r + inc) mod 2 ^ 64 = r + inc - 2 ^ 64) by (rewrite <- (Z.mod_add _ (-1)) by lia; apply Z.mod_small; lia).
    assert (Eq : (r + inc) / 2 ^ 64 = 1) by (symmetry; apply Z.div_unique with (r + inc - 2 ^ 64); lia).
    rewrite Em, Eq, (proj2 (Z.ltb_lt _ _)) by lia. f_equal. rewrite Z.mod_small; lia.
Qed.

(** ** Blocks *)

Section message.
Context (msg : list Z).
Abbreviation ll := (zlen msg).
Abbreviation bh := (Rfc7693.blocks_hash msg).
Hypothesis Hll : ll < 2 ^ 64.

Lemma bh_succ i : bh (S i) = Rfc7693.F (bh i) (Rfc7693.words (Rfc7693.pblock msg i)) (128 * (Z.of_nat i + 1)) false.
Proof. unfold Rfc7693.blocks_hash. by rewrite seq_S, fold_left_app. Qed.

Lemma bh_words i : 128 * Z.of_nat i < 2 ^ 128 -> length (bh i) = 8%nat /\ Forall word64 (bh i).
Proof.
  induction i as [|i IH]; intros Hi.
  - split; [done|]. repeat (apply Forall_cons_2; [split; vm_compute; congruence|]). apply Forall_nil_2.
  - rewrite bh_succ. destruct IH as [IH1 IH2]; [lia|]. apply F_words; [done|done|lia].
Qed.

(** A full block. *)
Lemma pblock_full i : 128 * (Z.of_nat i + 1) <= ll -> Rfc7693.pblock msg i = take 128 (drop (128 * i) msg).
Proof. intros Hi. unfold Rfc7693.pblock. apply take_app_le. rewrite length_drop. lia. Qed.

Lemma absorb i s : 128 * (Z.of_nat i + 1) <= ll -> chaining s (bh i) (128 * Z.of_nat i) false ->
  let s' := blake2b_compress (Rfc7693.pblock msg i) (blake2b_increment_counter BLAKE2B_BLOCK_BYTES s) in
  chaining s' (bh (S i)) (128 * Z.of_nat (S i)) false /\ st_buf s' = st_buf s /\ st_buf_len s' = st_buf_len s.
Proof.
  intros Hi Hc. destruct (bh_words i) as [Hl Hw]; [lia|].
  pose proof (counter_add s _ _ BLAKE2B_BLOCK_BYTES Hc ltac:(lia) ltac:(unfold BLAKE2B_BLOCK_BYTES; lia) ltac:(unfold BLAKE2B_BLOCK_BYTES; lia)) as Hc'.
  replace (128 * Z.of_nat i + BLAKE2B_BLOCK_BYTES) with (128 * (Z.of_nat i + 1)) in Hc' by (unfold BLAKE2B_BLOCK_BYTES; lia).
  cbv zeta. destruct (compress_F _ _ (128 * (Z.of_nat i + 1)) _ (Rfc7693.pblock msg i) Hl Hw ltac:(lia) Hc') as [-> _]. rewrite <- bh_succ.
  split; [|done]. destruct Hc' as (_ & Et & Ef). replace (128 * Z.of_nat (S i)) with (128 * (Z.of_nat i + 1)) by lia. done.
Qed.

Lemma update_loop_run fuel i s :
  0 < ll - 128 * Z.of_nat i < 128 * Z.of_nat fuel -> chaining s (bh i) (128 * Z.of_nat i) false ->
  exists j s', update_loop fuel 128 (drop (128 * i) msg) (ll - 128 * Z.of_nat i) s = Some (drop (128 * j) msg, ll - 128 * Z.of_nat j, s') /\
    0 < ll - 128 * Z.of_nat j <= 128 /\ chaining s' (bh j) (128 * Z.of_nat j) false /\ st_buf s' = st_buf s /\ st_buf_len s' = st_buf_len s.
Proof.
  revert i s. induction fuel as [|fuel IH]; intros i s Hf Hc; [lia|]. cbn [update_loop]. unfold BLAKE2B_BLOCK_BYTES at 1.
  destruct (Z.ltb_spec 128 (ll - 128 * Z.of_nat i)) as [Hlt|Hge]; [|exists i, s; split; [done|]; split; [lia|done]].
  change (Z.to_nat BLAKE2B_BLOCK_BYTES) with 128%nat. change (Z.to_nat 128) with 128%nat. rewrite <- pblock_full by lia.
  destruct (absorb i s ltac:(lia) Hc) as (Hc' & Eb & El). rewrite drop_drop, wrap_small by (split; lia).
  replace (128 * i + 128)%nat with (128 * S i)%nat by lia. replace (ll - 128 * Z.of_nat i - 128) with (ll - 128 * Z.of_nat (S i)) by lia.
  destruct (IH (S i) _ ltac:(lia) Hc') as (j & s' & E & Hj & Hcj & Eb' & El'). exists j, s'. rewrite E, Eb', El'. done.
Qed.

(** The state before the last block [j]. *)
Definition pending (j : nat) (s : blake2b_state) : Prop :=
  chaining s (bh j) (128 * Z.of_nat j) false /\ st_buf_len s = ll - 128 * Z.of_nat j /\ length (st_buf s) = 128%nat /\
  take (Z.to_nat (st_buf_len s)) (st_buf s) = drop (128 * j) msg.

(** The last block is not empty, unless the message is. *)
Definition last_block (j : nat) : Prop := 0 < ll - 128 * Z.of_nat j <= 128 \/ (j = 0%nat /\ ll = 0).

Lemma last_nblocks j : last_block j -> j = (Rfc7693.nblocks (length msg) - 1)%nat.
Proof.
  unfold Rfc7693.nblocks. intros [Hj|[-> Hl]]; [|destruct msg; [done|cbn in Hl; lia]].
  assert (E : ((length msg + 127) / 128 = S j)%nat) by (symmetry; apply Nat.div_unique with (length msg - 128 * j - 1)%nat; lia).
  rewrite E. lia.
Qed.

(** The rest of the message goes into the buffer. *)
Lemma buffer_rest j s :
  chaining s (bh j) (128 * Z.of_nat j) false -> 0 < ll - 128 * Z.of_nat j <= 128 -> st_buf_len s = 0 -> length (st_buf s) = 128%nat ->
  let n := ll - 128 * Z.of_nat j in
  pending j (set_buf_len (u64 (st_buf_len s + n)) (set_buf (memcpy (st_buf s) (st_buf_len s) (take (Z.to_nat n) (drop (128 * j) msg))) s)).
Proof.
  intros Hc Hn Hl Hb n. assert (Ht : take (Z.to_nat n) (drop (128 * j) msg) = drop (128 * j) msg) by (apply take_ge; rewrite length_drop; lia).
  rewrite Hl, Ht, wrap_small by (split; lia). split; [exact Hc|]. cbn [st_buf_len st_buf set_buf_len set_buf].
  unfold memcpy. cbn [Z.to_nat]. rewrite take_0. cbn [app]. assert (Hd : length (drop (128 * j) msg) = Z.to_nat n) by (rewrite length_drop; lia).
  split; [lia|]. split; [rewrite length_app, !length_drop, Hb; lia|]. rewrite take_app_le by lia. apply take_ge. lia.
Qed.

Lemma init_chaining : chaining blake2b_init (bh 0) 0 false.
Proof. split; [reflexivity|]. split; reflexivity. Qed.

Lemma update_run : exists j s, blake2b_update (S (length msg / 128)) msg ll blake2b_init = Some s /\ pending j s /\ last_block j.
Proof.
  unfold blake2b_update. destruct (Z.eqb_spec ll 0) as [E0|Hne].
  { exists 0%nat, blake2b_init. split; [done|]. split; [|by right]. split; [apply init_chaining|]. rewrite E0. split; [done|]. split; [done|].
    destruct msg; [done|cbn in E0; lia]. }
  change (u64 (BLAKE2B_BLOCK_BYTES - st_buf_len blake2b_init)) with 128. cbv zeta. destruct (Z.ltb_spec 128 ll) as [Hlt|Hge].
  - change (st_buf_len blake2b_init) with 0. set (s0 := set_buf (memcpy _ 0 _) (set_buf_len 0 blake2b_init)).
    assert (Eb : st_buf s0 = Rfc7693.pblock msg 0).
    { rewrite pblock_full by lia. subst s0. cbn [st_buf set_buf]. unfold memcpy. cbn [Z.to_nat]. rewrite take_0, drop_0. change (Z.to_nat 128) with 128%nat.
      rewrite (drop_ge (st_buf _)) by (rewrite length_take; change (length (st_buf _)) with 128%nat; lia). apply app_nil_r. }
    replace (st_buf (blake2b_increment_counter BLAKE2B_BLOCK_BYTES s0)) with (st_buf s0) by done. rewrite Eb.
    destruct (absorb 0 s0 ltac:(lia) init_chaining) as (Hc & Eb1 & El1). set (s1 := blake2b_compress _ _) in *.
    destruct (update_loop_run (S (length msg / 128)) 1 s1) as (j & s2 & E & Hj & Hc2 & Eb2 & El2); [|done|].
    { pose proof (Nat.div_mod (length msg) 128). pose proof (Nat.mod_upper_bound (length msg) 128). lia. }
    change (Z.to_nat 128) with (128 * 1)%nat. rewrite wrap_small by (split; lia). replace (ll - 128) with (ll - 128 * Z.of_nat 1) by lia. rewrite E. cbn [mbind option_bind].
    eexists j, _. split; [done|]. split; [|by left]. apply (buffer_rest j s2); [done|done|by rewrite El2, El1|].
    rewrite Eb2, Eb1, Eb, pblock_full, length_take, length_drop by lia. lia.
  - cbn [mbind option_bind]. eexists 0%nat, _. split; [done|]. split; [|left; lia].
    pose proof (buffer_rest 0 blake2b_init init_chaining ltac:(lia) eq_refl eq_refl) as H. cbn zeta in H. rewrite Z.mul_0_r, Z.sub_0_r in H. exact H.
Qed.

(** The padded block. *)
Lemma pending_block j s : pending j s -> last_block j ->
  memcpy (st_buf s) (st_buf_len s) (zeros (BLAKE2B_BLOCK_BYTES - st_buf_len s)) = Rfc7693.pblock msg j.
Proof.
  intros (_ & El & Hb & Ht) Hj. assert (Hr : 0 <= st_buf_len s <= 128) by (destruct Hj as [|[-> ?]]; lia).
  assert (Hd : length (drop (128 * j) msg) = Z.to_nat (st_buf_len s)) by (rewrite length_drop; lia).
  unfold memcpy, Rfc7693.pblock, zeros, BLAKE2B_BLOCK_BYTES. rewrite Ht, length_replicate, (drop_ge (st_buf s)), app_nil_r by lia.
  rewrite take_app_ge, Hd, take_replicate by lia. do 2 f_equal. lia.
Qed.

Lemma final_run j s : pending j s -> last_block j ->
  blake2b_final s = concat (Rfc7693.octets 8 <$> Rfc7693.F (bh j) (Rfc7693.words (Rfc7693.pblock msg j)) ll true).
Proof.
  intros Hp Hj. pose proof Hp as (Hc & El & Hb & Ht). assert (Hr : 0 <= st_buf_len s <= 128) by (destruct Hj as [|[-> ?]]; lia).
  assert (Hl : 128 * Z.of_nat j <= ll) by lia.
  pose proof (counter_add s _ _ (st_buf_len s) Hc ltac:(lia) ltac:(lia) ltac:(lia)) as Hc'. replace (128 * Z.of_nat j + st_buf_len s) with ll in Hc' by lia.
  destruct (bh_words j) as [Hlen Hw]; [lia|]. unfold blake2b_final. set (s1 := blake2b_increment_counter _ s) in *. cbv zeta.
  set (s2 := set_f _ s1). set (s3 := set_buf _ s2). assert (Hc3 : chaining s3 (bh j) ll true) by (destruct Hc' as (? & ? & E); split; [done|]; split; [done|]; subst s3 s2; cbn [st_f set_buf set_f]; by rewrite E).
  assert (E3 : st_buf s3 = Rfc7693.pblock msg j) by exact (pending_block j s Hp Hj).
  rewrite E3. destruct (compress_F s3 _ ll true (Rfc7693.pblock msg j) Hlen Hw ltac:(lia) Hc3) as (-> & Hl8 & _).
  cbn [st_h set_h]. destruct (list8 _ Hl8) as (? & ? & ? & ? & ? & ? & ? & ? & ->). reflexivity.
Qed.
End message.

(** C10: [blake2b] ends and gives the digest RFC 7693 defines, for every input whose length a
    [size_t] can hold: the blocks and their padding, the 128-bit counter in two words with
    its carry, the parameter block, the twelve rows of the message schedule for ten, and
    the last block, which is full when the length is a multiple of the block size. *)
Theorem blake2b_correct msg : zlen msg < 2 ^ 64 -> blake2b msg = Some (Rfc7693.hash msg).
Proof.
  intros Hl. unfold blake2b. destruct (update_run msg Hl) as (j & s & -> & Hp & Hj). cbn [mbind option_bind].
  rewrite (final_run msg Hl j s Hp Hj). unfold Rfc7693.hash. by rewrite <- (last_nblocks msg Hl j Hj).
Qed.

(** The digest of [abc], from appendix A of RFC 7693. *)
Definition abc_digest : list Z :=
  [0xBA; 0x80; 0xA5; 0x3F; 0x98; 0x1C; 0x4D; 0x0D; 0x6A; 0x27; 0x97; 0xB6; 0x9F; 0x12; 0xF6; 0xE9;
   0x4C; 0x21; 0x2F; 0x14; 0x68; 0x5A; 0xC4; 0xB7; 0x4B; 0x12; 0xBB; 0x6F; 0xDB; 0xFF; 0xA2; 0xD1;
   0x7D; 0x87; 0xC5; 0x39; 0x2A; 0xAB; 0x79; 0x2D; 0xC2; 0x52; 0xD5; 0xDE; 0x45; 0x33; 0xCC; 0x95;
   0x18; 0xD3; 0x8A; 0xA8; 0xDB; 0xF1; 0x92; 0x5A; 0xB9; 0x23; 0x86; 0xED; 0xD4; 0x00; 0x99; 0x23].

Lemma blake2b_correct_witness : blake2b [0x61; 0x62; 0x63] = Some abc_digest.
Proof. rewrite (blake2b_correct [0x61; 0x62; 0x63] eq_refl). vm_compute. reflexivity. Defined.

(** ** A second call of [blake2b_update] *)

(** The loop advances by what was left of the buffer, not by a block: with a full buffer it
    does not advance at all. *)
Lemma update_loop_stands fuel input n s : 128 < n < 2 ^ 64 -> update_loop fuel 0 input n s = None.
Proof.
  intros Hn. revert s. induction fuel as [|fuel IH]; intros s; [done|]. cbn [update_loop]. unfold BLAKE2B_BLOCK_BYTES at 1.
  rewrite (proj2 (Z.ltb_lt _ _)) by lia. change (Z.to_nat 0) with 0%nat. rewrite drop_0, Z.sub_0_r, wrap_small by (split; lia). apply IH.
Qed.

Theorem update_twice_hangs fuel s input : st_buf_len s = 128 -> 128 < zlen input < 2 ^ 64 -> blake2b_update fuel input (zlen input) s = None.
Proof.
  intros Hs Hn. unfold blake2b_update. rewrite (proj2 (Z.eqb_neq _ _)), Hs by lia. change (u64 (BLAKE2B_BLOCK_BYTES - 128)) with 0.
  rewrite (proj2 (Z.ltb_lt _ _)) by lia. rewrite Z.sub_0_r, wrap_small by (split; lia). by rewrite update_loop_stands.
Qed.
End Blake2bSpec.
