(* ===== verification/LuaString.v ===== *)
(** * The string table of Lua

    lstring.c (src/cells/runtimes/lua/src/c/src): interning of short strings, the table
    and its resizing, the cache of C strings, with the allocation functions of lmem.c and
    what the collector of lgc.c does to strings. *)

From S2P Require Import Prelude Effects LuaValue.

Module LuaString.
Import Effects.
Open Scope string_scope.
Open Scope list_scope.
Open Scope Z_scope.

Definition LUAI_MAXSHORTLEN : Z := 40.
Definition MINSTRTABSIZE : Z := 128.
Definition STRCACHE_N : Z := 53.
Definition STRCACHE_M : Z := 2.
Definition MAX_INT : Z := 2 ^ 31 - 1.
Definition MAX_SIZE : Z := 2 ^ 63 - 1.
Definition MAXSTRTB : Z := MAX_INT.
Definition WHITEBITS : Z := Z.lor (Z.shiftl 1 3) (Z.shiftl 1 4).
Definition BLACKBIT : Z := 5.
Definition sizelstring (l : Z) : Z := 24 + (l + 1).
Definition sizeof_TString : Z := 32.
Definition sizeof_ptr : Z := 8.

Inductive strtag := LUA_VSHRSTR | LUA_VLNGSTR.
Inductive tsu := Lnglen (n : Z) | Hnext (p : Z).

(** Pointers are numbers; NULL is 0. *)
Record TString := MkTString {
  ts_tt : strtag; marked : Z; extra : Z; shrlen : Z; hash : Z; u : tsu; contents : list Z }.

Record global_State := MkGlobal {
  heap : gmap Z TString;
  strt_hash : list Z; strt_nuse : Z; strt_size : Z;
  seed : Z; currentwhite : Z; memerrmsg : Z; strcache : list (list Z);
  gcstopem : bool; completestate : bool; gcemergency : bool }.

Abbreviation M := (ST global_State).

Definition get_g : M global_State := fun g => Ret g g.
Definition put_g (g : global_State) : M unit := fun _ => Ret g tt.
Definition stuck {A} : M A := fun _ => Stuck.

Definition set_heap (h : gmap Z TString) (g : global_State) : global_State :=
  MkGlobal h (strt_hash g) (strt_nuse g) (strt_size g) (seed g) (currentwhite g) (memerrmsg g) (strcache g) (gcstopem g) (completestate g) (gcemergency g).
Definition set_strt (v : list Z) (nuse size : Z) (g : global_State) : global_State :=
  MkGlobal (heap g) v nuse size (seed g) (currentwhite g) (memerrmsg g) (strcache g) (gcstopem g) (completestate g) (gcemergency g).
Definition set_white (w : Z) (g : global_State) : global_State :=
  MkGlobal (heap g) (strt_hash g) (strt_nuse g) (strt_size g) (seed g) w (memerrmsg g) (strcache g) (gcstopem g) (completestate g) (gcemergency g).
Definition set_memerrmsg (p : Z) (g : global_State) : global_State :=
  MkGlobal (heap g) (strt_hash g) (strt_nuse g) (strt_size g) (seed g) (currentwhite g) p (strcache g) (gcstopem g) (completestate g) (gcemergency g).
Definition set_strcache (c : list (list Z)) (g : global_State) : global_State :=
  MkGlobal (heap g) (strt_hash g) (strt_nuse g) (strt_size g) (seed g) (currentwhite g) (memerrmsg g) c (gcstopem g) (completestate g) (gcemergency g).

Definition set_flags (stopem complete : bool) (g : global_State) : global_State :=
  MkGlobal (heap g) (strt_hash g) (strt_nuse g) (strt_size g) (seed g) (currentwhite g) (memerrmsg g) (strcache g) stopem complete (gcemergency g).

(** [*p] and assignments to it. *)
Definition get_str (p : Z) : M TString := fun g => match heap g !! p with Some ts => Ret g ts | None => Stuck end.
Definition set_str (p : Z) (ts : TString) : M unit := fun g =>
  match heap g !! p with Some _ => Ret (set_heap (<[p := ts]> (heap g)) g) tt | None => Stuck end.
Definition hnext (ts : TString) : M Z := match u ts with Hnext p => mret p | Lnglen _ => stuck end.
Definition set_hnext (p : Z) (ts : TString) : TString := MkTString (ts_tt ts) (marked ts) (extra ts) (shrlen ts) (hash ts) (Hnext p) (contents ts).
Definition set_marked (m : Z) (ts : TString) : TString := MkTString (ts_tt ts) m (extra ts) (shrlen ts) (hash ts) (u ts) (contents ts).

(** [vect[i]] *)
Definition vget (vect : list Z) (i : Z) : M Z := match vect !! Z.to_nat i with Some p => mret p | None => stuck end.
Definition vset (vect : list Z) (i p : Z) : M (list Z) :=
  match vect !! Z.to_nat i with Some _ => mret (<[Z.to_nat i := p]> vect) | None => stuck end.

Definition lmod (s size : Z) : Z := Z.land s (size - 1).
Definition iswhite (ts : TString) : bool := negb (Z.land (marked ts) WHITEBITS =? 0).
Definition otherwhite (g : global_State) : Z := Z.lxor (currentwhite g) WHITEBITS.
Definition isdead (g : global_State) (ts : TString) : bool := negb (Z.land (marked ts) (otherwhite g) =? 0).
Definition changewhite (ts : TString) : TString := set_marked (Z.lxor (marked ts) WHITEBITS) ts.
Definition luaC_white (g : global_State) : Z := Z.land (currentwhite g) WHITEBITS.

(** ** The table *)

Fixpoint clear_loop (n : nat) (i : Z) (vect : list Z) : M (list Z) :=
  match n with
  | O => mret vect
  | S n' => vect ← vset vect i 0; clear_loop n' (i + 1) vect
  end.

(** [while (p)]: the strings of one list. *)
Fixpoint rehash_list (fuel : nat) (p : Z) (vect : list Z) (nsize : Z) : M (list Z) :=
  match fuel with
  | O => stuck
  | S fuel' =>
      if p =? 0 then mret vect
      else
        ts ← get_str p;
        next ← hnext ts;
        let h := lmod (hash ts) nsize in
        old ← vget vect h;
        _ ← set_str p (set_hnext old ts);
        vect ← vset vect h p;
        rehash_list fuel' next vect nsize
  end.

Fixpoint rehash_loop (n : nat) (i : Z) (vect : list Z) (nsize : Z) : M (list Z) :=
  match n with
  | O => mret vect
  | S n' =>
      p ← vget vect i;
      vect ← vset vect i 0;
      g ← get_g;
      vect ← rehash_list (S (size (heap g))) p vect nsize;
      rehash_loop n' (i + 1) vect nsize
  end.

(** The vector after the call. *)
Definition tablerehash (vect : list Z) (osize nsize : Z) : M (list Z) :=
  vect ← clear_loop (Z.to_nat (nsize - osize)) osize vect;
  rehash_loop (Z.to_nat osize) 0 vect nsize.

(** The search for the pointer to the string along the list of a slot: the pointer is the
    slot or the link of [prev]. *)
Fixpoint remove_loop (fuel : nat) (slot : Z) (prev : option Z) (p ts : Z) : M unit :=
  match fuel with
  | O => stuck
  | S fuel' =>
      o ← get_str p;
      next ← hnext o;
      if p =? ts then
        match prev with
        | None => g ← get_g; vect ← vset (strt_hash g) slot next; put_g (set_strt vect (strt_nuse g) (strt_size g) g)
        | Some q => oq ← get_str q; set_str q (set_hnext next oq)
        end
      else remove_loop fuel' slot (Some p) next ts
  end.

Definition luaS_remove (ts : Z) : M unit :=
  o ← get_str ts;
  g ← get_g;
  let slot := lmod (hash o) (strt_size g) in
  p ← vget (strt_hash g) slot;
  _ ← remove_loop (S (size (heap g))) slot None p ts;
  g ← get_g;
  put_g (set_strt (strt_hash g) (strt_nuse g - 1) (strt_size g) g).

Definition clear_entry (g : global_State) (p : Z) : Z :=
  match heap g !! p with Some ts => if iswhite ts then memerrmsg g else p | None => p end.
Definition luaS_clearcache : M unit :=
  g ← get_g; put_g (set_strcache (map (map (clear_entry g)) (strcache g)) g).

(** ** The collector *)

(** [freeobj] for strings. *)
Definition freeobj (p : Z) : M unit :=
  o ← get_str p;
  _ ← (match ts_tt o with LUA_VSHRSTR => luaS_remove p | LUA_VLNGSTR => mret () end);
  g ← get_g;
  put_g (set_heap (delete p (heap g)) g).

Fixpoint free_all (l : list Z) : M unit :=
  match l with
  | [] => mret ()
  | p :: l' => _ ← freeobj p; free_all l'
  end.

Definition set_color (white : bool) (g : global_State) (ts : TString) : TString :=
  set_marked (Z.lor (Z.land (marked ts) (Z.lxor 0xff (Z.lor WHITEBITS (Z.shiftl 1 BLACKBIT))))
    (if white then luaC_white g else Z.shiftl 1 BLACKBIT)) ts.

Section memory.
(** The allocation function of the host: a new block, and whether a vector can be resized
    (from a number of bytes to another); the contents of a vector's new part. *)
Variable new_block : global_State -> Z -> option Z.
Variable frealloc : global_State -> Z -> Z -> bool.
Variable uninit : nat -> list Z.
(** The strings that marking finds unreachable. *)
Variable unreachable : global_State -> list Z.

Definition cantryagain (g : global_State) : bool := completestate g && negb (gcstopem g).

(** The strings a collection frees: each once, none that is fixed. *)
Definition garbage (g : global_State) : list Z :=
  remove_dups (filter (fun p => p ∈ dom (heap g) /\ p <> memerrmsg g) (unreachable g)).

(** An emergency collection ([isemergency] set: [checkSizes] and the finalizers do nothing),
    as far as strings are concerned: marking, of which only the result is given, [atomic],
    which clears the cache and makes the other white the current one, and the sweep, which
    frees what has the old white and makes the rest white. *)
Definition luaC_fullgc : M unit :=
  g ← get_g;
  let dead := garbage g in
  let mark p ts := if decide (p = memerrmsg g) then ts else set_color (bool_decide (p ∈ dead)) g ts in
  _ ← put_g (set_heap (map_imap (fun p ts => Some (mark p ts)) (heap g)) g);
  _ ← luaS_clearcache;
  g ← get_g;
  _ ← put_g (set_white (otherwhite g) g);
  _ ← free_all dead;
  g ← get_g;
  put_g (set_heap (map_imap (fun p ts => Some (if decide (p = memerrmsg g) then ts else set_color true g ts)) (heap g)) g).

Definition luaM_malloc (n : Z) : M Z :=
  g ← get_g;
  match new_block g n with
  | Some p => mret p
  | None =>
      if cantryagain g then
        _ ← luaC_fullgc;
        g ← get_g;
        match new_block g n with Some p => mret p | None => throw "not enough memory" end
      else throw "not enough memory"
  end.

(** Whether the vector has the new size. *)
Definition luaM_realloc (osize nsize : Z) : M bool :=
  g ← get_g;
  if frealloc g osize nsize then mret true
  else if cantryagain g then _ ← luaC_fullgc; g ← get_g; mret (frealloc g osize nsize)
  else mret false.

Definition luaS_resize (nsize : Z) : M unit :=
  g ← get_g;
  let osize := strt_size g in
  _ ← (if nsize <? osize then
         vect ← tablerehash (strt_hash g) osize nsize;
         g ← get_g; put_g (set_strt vect (strt_nuse g) (strt_size g) g)
       else mret ());
  ok ← luaM_realloc (osize * sizeof_ptr) (nsize * sizeof_ptr);
  g ← get_g;
  if negb ok then
    if nsize <? osize then
      vect ← tablerehash (strt_hash g) nsize osize;
      g ← get_g; put_g (set_strt vect (strt_nuse g) (strt_size g) g)
    else mret ()
  else
    let newvect := take (Z.to_nat nsize) (strt_hash g) ++ uninit (Z.to_nat (nsize - osize)) in
    _ ← put_g (set_strt newvect (strt_nuse g) nsize g);
    if osize <? nsize then
      vect ← tablerehash newvect osize nsize;
      g ← get_g; put_g (set_strt vect (strt_nuse g) (strt_size g) g)
    else mret ().

Definition checkSizes : M unit :=
  g ← get_g;
  if negb (gcemergency g) then
    if strt_nuse g <? strt_size g / 4 then luaS_resize (strt_size g / 2) else mret ()
  else mret ().

(** The state [GCSswpend] of [singlestep]. *)
Definition singlestep_swpend : M unit :=
  g ← get_g;
  _ ← put_g (set_flags true (completestate g) g);
  _ ← checkSizes;
  g ← get_g;
  put_g (set_flags false (completestate g) g).

(** The end of a collection in generational mode: its call of [checkSizes],
    around which [gcstopem] is not set.  The gray lists and the finalizers it
    runs before and after are outside this model. *)
Definition finishgencycle : M unit := checkSizes.

(** ** Strings *)

(** [luaC_newobj]; the bytes of the string are filled in by the callers. *)
Definition createstrobj (l : Z) (tag : strtag) (h : Z) (un : tsu) (len : Z) (data : list Z) : M Z :=
  p ← luaM_malloc (sizelstring l);
  g ← get_g;
  _ ← put_g (set_heap (<[p := MkTString tag (luaC_white g) 0 len h un data]> (heap g)) g);
  mret p.

Definition luaS_createlngstrobj (l : Z) (data : list Z) : M Z :=
  g ← get_g; createstrobj l LUA_VLNGSTR (seed g) (Lnglen l) 0xff data.

Definition growstrtab : M unit :=
  g ← get_g;
  _ ← (if strt_nuse g =? MAX_INT then
         _ ← luaC_fullgc;
         g ← get_g;
         if strt_nuse g =? MAX_INT then throw "not enough memory" else mret ()
       else mret ());
  g ← get_g;
  if strt_size g <=? MAXSTRTB / 2 then luaS_resize (strt_size g * 2) else mret ().

Fixpoint find_loop (fuel : nat) (str : list Z) (p : Z) : M (option Z) :=
  match fuel with
  | O => stuck
  | S fuel' =>
      if p =? 0 then mret None
      else
        ts ← get_str p;
        if (zlen str =? shrlen ts) && bool_decide (str = take (length str) (contents ts)) then
          g ← get_g;
          _ ← (if isdead g ts then set_str p (changewhite ts) else mret ());
          mret (Some p)
        else
          next ← hnext ts;
          find_loop fuel' str next
  end.

Definition internshrstr (str : list Z) : M Z :=
  g ← get_g;
  let h := LuaValue.luaS_hash str (seed g) in
  first ← vget (strt_hash g) (lmod h (strt_size g));
  found ← find_loop (S (size (heap g))) str first;
  match found with
  | Some ts => mret ts
  | None =>
      g ← get_g;
      _ ← (if strt_size g <=? strt_nuse g then growstrtab else mret ());
      g ← get_g;
      let slot := lmod h (strt_size g) in
      ts ← createstrobj (zlen str) LUA_VSHRSTR h (Hnext 0) (u8 (zlen str)) str;
      g ← get_g;
      old ← vget (strt_hash g) slot;
      o ← get_str ts;
      _ ← set_str ts (set_hnext old o);
      g ← get_g;
      vect ← vset (strt_hash g) slot ts;
      _ ← put_g (set_strt vect (strt_nuse g + 1) (strt_size g) g);
      mret ts
  end.

Definition luaS_newlstr (str : list Z) : M Z :=
  let l := zlen str in
  if l <=? LUAI_MAXSHORTLEN then internshrstr str
  else if MAX_SIZE - sizeof_TString <=? l then throw "memory allocation error: block too big"
  else luaS_createlngstrobj l str.

(** The bytes of a C string. *)
Fixpoint c_string (s : list Z) : list Z :=
  match s with [] => [] | c :: s' => if c =? 0 then [] else c :: c_string s' end.

Fixpoint cache_find (str : list Z) (row : list Z) : M (option Z) :=
  match row with
  | [] => mret None
  | p :: row' =>
      ts ← get_str p;
      if bool_decide (str = c_string (contents ts)) then mret (Some p) else cache_find str row'
  end.

(** [addr] is the address of the C string [str]. *)
Definition luaS_new (addr : Z) (str : list Z) : M Z :=
  let i := Z.to_nat (u32 addr mod STRCACHE_N) in
  g ← get_g;
  match strcache g !! i with
  | None => stuck
  | Some row =>
      hit ← cache_find str row;
      match hit with
      | Some p => mret p
      | None =>
          let first := take 1 row in
          _ ← put_g (set_strcache (<[i := first ++ take (Z.to_nat STRCACHE_M - 1) row]> (strcache g)) g);
          p ← luaS_newlstr str;
          g ← get_g;
          match strcache g !! i with
          | None => stuck
          | Some row => _ ← put_g (set_strcache (<[i := p :: drop 1 row]> (strcache g)) g); mret p
          end
      end
  end.

Definition MEMERRMSG : list Z := [110; 111; 116; 32; 101; 110; 111; 117; 103; 104; 32; 109; 101; 109; 111; 114; 121].

(** [luaC_fix]: the string is gray for ever. *)
Definition luaC_fix (p : Z) : M unit :=
  o ← get_str p;
  set_str p (set_marked (Z.lor (Z.land (marked o) (Z.lxor 0xff (Z.lor (Z.lor WHITEBITS (Z.shiftl 1 BLACKBIT)) 7))) 4) o).

Definition luaS_init : M unit :=
  g ← get_g;
  ok ← luaM_realloc 0 (MINSTRTABSIZE * sizeof_ptr);
  if negb ok then throw "not enough memory"
  else
    vect ← tablerehash (uninit (Z.to_nat MINSTRTABSIZE)) 0 MINSTRTABSIZE;
    g ← get_g;
    _ ← put_g (set_strt vect (strt_nuse g) MINSTRTABSIZE g);
    msg ← luaS_newlstr MEMERRMSG;
    g ← get_g;
    _ ← put_g (set_memerrmsg msg g);
    _ ← luaC_fix msg;
    g ← get_g;
    put_g (set_strcache (replicate (Z.to_nat STRCACHE_N) (replicate (Z.to_nat STRCACHE_M) msg)) g).

(** The part of [lua_newstate] and [f_luaopen] that concerns the string table; the names
    that [luaT_init] and [luaX_init] intern are further calls of [luaS_new]. *)
Definition new_global (sd : Z) : global_State := MkGlobal ∅ [] 0 0 sd (Z.shiftl 1 3) 0 [] false false false.
Definition f_luaopen : M unit :=
  _ ← luaS_init;
  g ← get_g;
  put_g (set_flags (gcstopem g) true g).
End memory.
End LuaString.
