(* ===== verification/StringFacts.v ===== *)
(** * Lists of the string table

    The linked lists of the table in memory, and the loops over them. *)

From S2P Require Import Prelude Effects LuaValue LuaString.

Module StringFacts.
Import Effects LuaString.
Open Scope Z_scope.

Abbreviation heap_t := (gmap Z TString).

(** ** Lists in memory *)

Fixpoint chain (h : heap_t) (p : Z) (l : list Z) : Prop :=
  match l with
  | [] => p = 0
  | a :: l' => p = a /\ a <> 0 /\ exists ts next, h !! a = Some ts /\ u ts = Hnext next /\ chain h next l'
  end.

(** Strings that differ in nothing but the link. *)
Definition strip (ts : TString) : TString := match u ts with Hnext _ => set_hnext 0 ts | Lnglen _ => ts end.
Definition relinked (h h' : heap_t) : Prop := strip <$> h = strip <$> h'.

#[export] Instance relinked_equiv : Equivalence relinked.
Proof. split; [done|by intros ??|intros ??? H1 H2; by unfold relinked in *; rewrite H1]. Qed.

Lemma relinked_lookup h h' a ts : relinked h h' -> h !! a = Some ts -> exists ts', h' !! a = Some ts' /\ strip ts' = strip ts.
Proof.
  intros H Ha. assert (E : (strip <$> h) !! a = (strip <$> h') !! a) by (by rewrite H). rewrite !lookup_fmap, Ha in E.
  destruct (h' !! a) as [ts'|]; [|done]. injection E as E. by exists ts'.
Qed.

Lemma strip_fields ts ts' : strip ts = strip ts' ->
  ts_tt ts = ts_tt ts' /\ shrlen ts = shrlen ts' /\ hash ts = hash ts' /\ contents ts = contents ts' /\ marked ts = marked ts'.
Proof.
  intros E. assert (H : forall x, ts_tt (strip x) = ts_tt x /\ shrlen (strip x) = shrlen x /\ hash (strip x) = hash x /\ contents (strip x) = contents x /\
    marked (strip x) = marked x) by (intros x; unfold strip; by destruct (u x)).
  destruct (H ts) as (<- & <- & <- & <- & <-), (H ts') as (<- & <- & <- & <- & <-). by rewrite E.
Qed.

Lemma relinked_insert h a ts p : h !! a = Some ts -> (exists q, u ts = Hnext q) -> relinked h (<[a := set_hnext p ts]> h).
Proof.
  intros Ha [q Hu]. unfold relinked. rewrite fmap_insert. apply map_eq. intros b. destruct (decide (b = a)) as [->|Hne].
  - rewrite lookup_insert_eq, lookup_fmap, Ha. cbn. unfold strip. by rewrite Hu.
  - by rewrite lookup_insert_ne.
Qed.

(** A list is where it was when its strings keep their links. *)
Lemma chain_frame h h' p l : chain h p l ->
  (forall a ts, a ∈ l -> h !! a = Some ts -> exists ts', h' !! a = Some ts' /\ u ts' = u ts) -> chain h' p l.
Proof.
  revert p. induction l as [|a l IH]; intros p Hc H; [done|]. destruct Hc as (-> & H0 & ts & next & Ha & Hu & Hc).
  destruct (H a ts) as (ts' & Ha' & Hu'); [by left|done|]. split; [done|]. split; [done|]. exists ts', next.
  split; [done|]. split; [by rewrite Hu'|]. apply IH; [done|]. intros b tb Hb. apply H. by right.
Qed.

Lemma chain_insert h p l a ts : chain h p l -> a ∉ l -> chain (<[a := ts]> h) p l.
Proof.
  intros Hc Ha. eapply chain_frame; [done|]. intros b tb Hb Eb. exists tb. rewrite lookup_insert_ne by (by intros <-). done.
Qed.

Lemma chain_strings h p l a : chain h p l -> a ∈ l -> exists ts next, h !! a = Some ts /\ u ts = Hnext next /\ a <> 0.
Proof.
  revert p. induction l as [|b l IH]; intros p Hc Ha; [by apply elem_of_nil in Ha|]. destruct Hc as (-> & H0 & ts & next & Hb & Hu & Hc).
  apply elem_of_cons in Ha as [->|Ha]; [by exists ts, next|by eapply IH].
Qed.

(** The slots of a vector. *)
Definition shape (h : heap_t) (vect : list Z) (cells : list (list Z)) : Prop := Forall2 (chain h) vect cells.

Lemma elem_of_concat_lookup (cells : list (list Z)) a : a ∈ concat cells <-> exists i cell, cells !! i = Some cell /\ a ∈ cell.
Proof.
  split.
  - intros (cell & Hc & Ha)%list_elem_of_In%in_concat. apply list_elem_of_In in Hc. apply list_elem_of_lookup in Hc as [i Hi].
    exists i, cell. split; [done|by apply list_elem_of_In].
  - intros (i & cell & Hi & Ha). apply list_elem_of_In, in_concat. exists cell.
    split; apply list_elem_of_In; [by eapply list_elem_of_lookup_2|done].
Qed.

Lemma shape_frame h h' vect cells : shape h vect cells ->
  (forall a ts, a ∈ concat cells -> h !! a = Some ts -> exists ts', h' !! a = Some ts' /\ u ts' = u ts) -> shape h' vect cells.
Proof.
  intros Hs H. apply Forall2_same_length_lookup. split; [by eapply Forall2_length|]. intros i p l Hp Hl.
  eapply chain_frame; [by eapply Forall2_lookup_lr|]. intros a ts Ha. apply H. apply elem_of_concat_lookup. eauto.
Qed.

(** ** Moving strings *)

(** [a] in front of a slot. *)
Definition push (f : Z -> nat) (cells : list (list Z)) (a : Z) : list (list Z) := <[f a := a :: cells !!! f a]> cells.

Lemma push_concat f cells a : (f a < length cells)%nat -> concat (push f cells a) ≡ₚ a :: concat cells.
Proof.
  intros Hf. unfold push. destruct (lookup_lt_is_Some_2 cells (f a) Hf) as [c Hc]. rewrite (list_lookup_total_correct _ _ _ Hc).
  rewrite insert_take_drop by done. rewrite <- (take_drop_middle cells (f a) c Hc) at 3. rewrite !concat_app. cbn [concat].
  rewrite Permutation_middle. by apply Permutation_app_head.
Qed.

Lemma push_length f cells a : length (push f cells a) = length cells.
Proof. apply length_insert. Qed.

Lemma shape_push h vect cells f a ts q :
  shape h vect cells -> vect !! f a = Some q -> h !! a = Some ts -> a <> 0 -> a ∉ concat cells ->
  shape (<[a := set_hnext q ts]> h) (<[f a := a]> vect) (push f cells a).
Proof.
  intros Hs Hq Ha H0 Hn. destruct (Forall2_lookup_l _ _ _ _ _ Hs Hq) as (c & Hc & Hch).
  assert (Hs' : shape (<[a := set_hnext q ts]> h) vect cells).
  { eapply shape_frame; [done|]. intros b tb Hb Eb. exists tb. rewrite lookup_insert_ne by (by intros <-). done. }
  unfold push. rewrite (list_lookup_total_correct _ _ _ Hc). apply Forall2_insert; [done|]. split; [done|]. split; [done|].
  exists (set_hnext q ts), q. rewrite lookup_insert_eq. split; [done|]. split; [done|]. by eapply Forall2_lookup_lr.
Qed.

(** The slot of a string of the heap. *)
Definition slot_in (h : heap_t) (n a : Z) : nat := match h !! a with Some ts => Z.to_nat (lmod (hash ts) n) | None => 0%nat end.

Lemma slot_relinked h h' n a : relinked h h' -> slot_in h' n a = slot_in h n a.
Proof.
  intros H. unfold slot_in. destruct (h !! a) as [ts|] eqn:E.
  - destruct (relinked_lookup _ _ _ _ H E) as (ts' & -> & Es). do 2 f_equal. by apply strip_fields in Es as (_ & _ & -> & _).
  - destruct (h' !! a) as [ts'|] eqn:E'; [|done]. symmetry in H. destruct (relinked_lookup _ _ _ _ H E') as (? & E1 & _). congruence.
Qed.

(** All strings of a list go to their slots. *)
Definition spread (f : Z -> nat) (d : list Z) (cells : list (list Z)) : list (list Z) := fold_left (push f) d cells.

Lemma spread_ext f f' d cells : (forall a, f a = f' a) -> spread f d cells = spread f' d cells.
Proof.
  intros H. unfold spread. revert cells. induction d as [|a d IH]; intros cells; [done|]. cbn. unfold push at 2 4. by rewrite H, IH.
Qed.

Lemma spread_length f d cells : length (spread f d cells) = length cells.
Proof. revert cells. induction d as [|a d IH]; intros cells; [done|]. cbn. unfold spread in IH. by rewrite IH, push_length. Qed.

Lemma spread_concat f d cells : (forall a, a ∈ d -> (f a < length cells)%nat) -> concat (spread f d cells) ≡ₚ d ++ concat cells.
Proof.
  revert cells. induction d as [|a d IH]; intros cells Hf; [done|]. cbn. unfold spread in IH.
  rewrite IH by (intros b Hb; rewrite push_length; apply Hf; by right). rewrite push_concat by (apply Hf; by left). by rewrite <- Permutation_middle.
Qed.

Lemma spread_elem f d cells i cell a :
  spread f d cells !! i = Some cell -> a ∈ cell -> (a ∈ d /\ f a = i) \/ exists c, cells !! i = Some c /\ a ∈ c.
Proof.
  revert cells. induction d as [|b d IH]; intros cells Hi Ha; [right; by exists cell|]. cbn in Hi.
  destruct (IH _ Hi Ha) as [[? ?]|(c & Hc & Ha')]; [left; split; [by right|done]|].
  unfold push in Hc. destruct (decide (f b = i)) as [E|Hne].
  - subst i. destruct (decide (f b < length cells)%nat) as [Hl|Hl]; [|rewrite list_insert_ge in Hc by lia; right; eauto].
    rewrite list_lookup_insert_eq in Hc by done. injection Hc as <-. apply elem_of_cons in Ha' as [->|Ha']; [left; split; [by left|done]|].
    right. destruct (lookup_lt_is_Some_2 cells (f b) Hl) as [c Hc]. rewrite (list_lookup_total_correct _ _ _ Hc) in Ha'. eauto.
  - rewrite list_lookup_insert_ne in Hc by done. right. eauto.
Qed.

Lemma vget_ret vect i p g : vect !! Z.to_nat i = Some p -> vget vect i g = Ret g p.
Proof. unfold vget. by intros ->. Qed.
Lemma vset_ret vect i p g : is_Some (vect !! Z.to_nat i) -> vset vect i p g = Ret g (<[Z.to_nat i := p]> vect).
Proof. unfold vset. by intros [? ->]. Qed.

Lemma rehash_list_run fuel n g p d vect cells :
  chain (heap g) p d -> shape (heap g) vect cells -> NoDup (d ++ concat cells) ->
  (forall a, a ∈ d -> (slot_in (heap g) n a < length cells)%nat) -> (length d < fuel)%nat ->
  exists h' vect', rehash_list fuel p vect n g = Ret (set_heap h' g) vect' /\ relinked (heap g) h' /\
    shape h' vect' (spread (slot_in (heap g) n) d cells).
Proof.
  revert fuel g p vect cells. induction d as [|a d IH]; intros fuel g p vect cells Hc Hs Hnd Hf Hl; (destruct fuel as [|fuel]; [cbn in Hl; lia|]); cbn [rehash_list].
  { cbn in Hc. subst p. exists (heap g), vect. split; [by destruct g|done]. }
  destruct Hc as (-> & H0 & ts & next & Ha & Hu & Hc). rewrite (proj2 (Z.eqb_neq _ _)) by done.
  apply NoDup_cons in Hnd as [[Hna1 Hna2]%not_elem_of_app Hnd]. pose proof (Hf a ltac:(by left)) as Hfa. pose proof (Forall2_length _ _ _ Hs) as Hlen.
  destruct (lookup_lt_is_Some_2 vect (slot_in (heap g) n a)) as [q Hq]; [lia|].
  assert (Es : slot_in (heap g) n a = Z.to_nat (lmod (hash ts) n)) by (unfold slot_in; by rewrite Ha).
  set (h1 := <[a := set_hnext q ts]> (heap g)).
  assert (Hrel : relinked (heap g) h1) by (apply relinked_insert; eauto).
  destruct (IH fuel (set_heap h1 g) next (<[slot_in (heap g) n a := a]> vect) (push (slot_in (heap g) n) cells a)) as (h' & vect' & E & Hr & Hs').
  - by apply chain_insert.
  - by apply shape_push.
  - rewrite push_concat, <- Permutation_middle by done. cbn. apply NoDup_cons. by rewrite not_elem_of_app.
  - intros b Hb. rewrite push_length. cbn [heap set_heap]. rewrite (slot_relinked _ _ n b Hrel). apply Hf. by right.
  - cbn in Hl. lia.
  - exists h', vect'. split; [|split].
    + unfold mbind, st_bind, obind, get_str. rewrite Ha. unfold hnext. rewrite Hu. cbn [mret st_ret].
      rewrite (vget_ret _ _ q) by (by rewrite <- Es). unfold set_str. rewrite Ha. rewrite vset_ret by (rewrite <- Es; by exists q).
      rewrite <- Es. exact E.
    + by etrans.
    + cbn [heap set_heap] in Hs'. by rewrite (spread_ext _ (slot_in (heap g) n)) in Hs' by (intros b; by apply slot_relinked).
Qed.

Lemma chain_size h p d : chain h p d -> NoDup d -> (length d <= size h)%nat.
Proof.
  intros Hc Hn. rewrite <- (size_list_to_set (C := gset Z) d Hn), <- size_dom. apply subseteq_size. intros a Ha%elem_of_list_to_set.
  destruct (chain_strings _ _ _ _ Hc Ha) as (ts & _ & E & _). by apply elem_of_dom_2 in E.
Qed.

(** All slots from [i] on. *)
Fixpoint rehash_cells (f : Z -> nat) (n i : nat) (cells : list (list Z)) : list (list Z) :=
  match n with
  | O => cells
  | S n' => rehash_cells f n' (S i) (spread f (cells !!! i) (<[i := []]> cells))
  end.

(** A slot is emptied and its strings moved. *)
Lemma clear_concat (cells : list (list Z)) i c : cells !! i = Some c -> c ++ concat (<[i := []]> cells) ≡ₚ concat cells.
Proof.
  intros Hc. rewrite insert_take_drop by (by apply lookup_lt_Some in Hc). rewrite <- (take_drop_middle cells i c Hc) at 3.
  rewrite !concat_app. cbn [concat app]. rewrite !app_assoc. apply Permutation_app_tail, Permutation_app_comm.
Qed.

Lemma rehash_cells_ext f f' n i cells : (forall a, f a = f' a) -> rehash_cells f n i cells = rehash_cells f' n i cells.
Proof. intros H. revert i cells. induction n as [|n IH]; intros i cells; [done|]. cbn. rewrite (spread_ext f f') by done. apply IH. Qed.

Lemma rehash_step f cells i c :
  cells !! i = Some c -> (forall a, a ∈ concat cells -> (f a < length cells)%nat) ->
  let cells' := spread f c (<[i := []]> cells) in
  length cells' = length cells /\ concat cells' ≡ₚ concat cells.
Proof.
  intros Hc Hf cells'. split; [unfold cells'; by rewrite spread_length, length_insert|]. unfold cells'.
  rewrite spread_concat; [by apply clear_concat|]. intros a Ha. rewrite length_insert. apply Hf. apply elem_of_concat_lookup. eauto.
Qed.

Lemma rehash_loop_run n nsize i g vect cells :
  shape (heap g) vect cells -> NoDup (concat cells) -> (forall a, a ∈ concat cells -> (slot_in (heap g) nsize a < length cells)%nat) ->
  (i + n <= length cells)%nat ->
  exists h' vect', rehash_loop n (Z.of_nat i) vect nsize g = Ret (set_heap h' g) vect' /\ relinked (heap g) h' /\
    shape h' vect' (rehash_cells (slot_in (heap g) nsize) n i cells).
Proof.
  revert i g vect cells. induction n as [|n IH]; intros i g vect cells Hs Hnd Hf Hi; cbn [rehash_loop rehash_cells].
  { exists (heap g), vect. split; [by destruct g|done]. }
  destruct (lookup_lt_is_Some_2 cells i) as [c Hc]; [lia|]. rewrite (list_lookup_total_correct _ _ _ Hc).
  destruct (Forall2_lookup_r _ _ _ _ _ Hs Hc) as (p & Hp & Hch). pose proof (clear_concat cells i c Hc) as Hcc.
  destruct (rehash_step (slot_in (heap g) nsize) cells i c Hc Hf) as [Hlen Hperm].
  assert (Hndc : NoDup c) by (rewrite <- Hcc in Hnd; by apply NoDup_app in Hnd as (? & _)).
  destruct (rehash_list_run (S (size (heap g))) nsize g p c (<[i := 0]> vect) (<[i := []]> cells)) as (h1 & vect1 & E1 & Hr1 & Hs1).
  - done.
  - by apply Forall2_insert.
  - by rewrite Hcc.
  - intros a Ha. rewrite length_insert. apply Hf. rewrite <- Hcc. apply elem_of_app. by left.
  - pose proof (chain_size _ _ _ Hch Hndc). lia.
  - destruct (IH (S i) (set_heap h1 g) vect1 _ Hs1) as (h2 & vect2 & E2 & Hr2 & Hs2).
    + by rewrite Hperm.
    + intros a Ha. cbn [heap set_heap]. rewrite (slot_relinked _ _ nsize a Hr1), Hlen. apply Hf. by rewrite <- Hperm.
    + lia.
    + exists h2, vect2. cbn [heap set_heap] in *. split; [|split; [by etrans|]].
      * unfold mbind, st_bind, obind. rewrite (vget_ret _ _ p), vset_ret by (rewrite Nat2Z.id; eauto). cbn [get_g]. rewrite Nat2Z.id, E1.
        replace (Z.of_nat i + 1) with (Z.of_nat (S i)) by lia. exact E2.
      * by rewrite (rehash_cells_ext _ (slot_in (heap g) nsize)) in Hs2 by (intros b; by apply slot_relinked).
Qed.

(** Slots that have been visited, and those above, hold their own strings. *)
Lemma rehash_cells_spec f n i cells :
  (i + n <= length cells)%nat -> (forall a, a ∈ concat cells -> (f a < length cells)%nat) ->
  (forall j c a, cells !! j = Some c -> a ∈ c -> (j < i \/ i + n <= j)%nat -> f a = j) ->
  let cells' := rehash_cells f n i cells in
  length cells' = length cells /\ concat cells' ≡ₚ concat cells /\ forall j c a, cells' !! j = Some c -> a ∈ c -> f a = j.
Proof.
  revert i cells. induction n as [|n IH]; intros i cells Hi Hf Hp; cbn [rehash_cells].
  { split; [done|]. split; [done|]. intros j c a Hc Ha. eapply Hp; [done..|lia]. }
  destruct (lookup_lt_is_Some_2 cells i) as [c Hc]; [lia|]. rewrite (list_lookup_total_correct _ _ _ Hc).
  destruct (rehash_step f cells i c Hc Hf) as [Hlen Hperm].
  destruct (IH (S i) (spread f c (<[i := []]> cells))) as (Hl & Hpp & Hj).
  - lia.
  - intros a Ha. rewrite Hlen. apply Hf. by rewrite <- Hperm.
  - intros j c' a Hc' Ha Hj. destruct (spread_elem _ _ _ _ _ _ Hc' Ha) as [[_ ?]|(c0 & Hc0 & Ha0)]; [done|].
    destruct (decide (j = i)) as [->|Hne]; [rewrite list_lookup_insert_eq in Hc0 by lia; injection Hc0 as <-; by apply elem_of_nil in Ha0|].
    rewrite list_lookup_insert_ne in Hc0 by done. eapply Hp; [done..|lia].
  - split; [lia|]. split; [by rewrite Hpp|done].
Qed.

(** ** The whole table *)

Lemma clear_loop_run n i vect g : (i + n <= length vect)%nat ->
  clear_loop n (Z.of_nat i) vect g = Ret g (take i vect ++ replicate n 0 ++ drop (i + n) vect).
Proof.
  revert i vect. induction n as [|n IH]; intros i vect Hi; cbn [clear_loop].
  { by rewrite Nat.add_0_r, app_nil_l, take_drop. }
  unfold mbind, st_bind, obind. rewrite vset_ret by (apply lookup_lt_is_Some_2; lia). replace (Z.of_nat i + 1) with (Z.of_nat (S i)) by lia.
  rewrite Nat2Z.id, IH by (rewrite length_insert; lia). f_equal.
  rewrite (take_S_r _ _ 0) by (apply list_lookup_insert_eq; lia). rewrite take_insert_ge, drop_insert_lt by lia.
  rewrite <- app_assoc. cbn [app replicate]. do 4 f_equal. lia.
Qed.

(** Every string is in its slot. *)
Definition placed (f : Z -> nat) (cells : list (list Z)) : Prop := forall j c a, cells !! j = Some c -> a ∈ c -> f a = j.

Lemma concat_nils n : concat (replicate n (@nil Z)) = [].
Proof. induction n; [done|]. cbn. done. Qed.

Lemma tablerehash_run o k g vect cells :
  length vect = Nat.max o k -> shape (heap g) (take o vect) cells -> NoDup (concat cells) ->
  (forall a, a ∈ concat cells -> (slot_in (heap g) (Z.of_nat k) a < k)%nat) ->
  exists h' vect' cells', tablerehash vect (Z.of_nat o) (Z.of_nat k) g = Ret (set_heap h' g) vect' /\ relinked (heap g) h' /\
    shape h' vect' cells' /\ length cells' = Nat.max o k /\ concat cells' ≡ₚ concat cells /\ placed (slot_in (heap g) (Z.of_nat k)) cells'.
Proof.
  intros Hlen Hs Hnd Hf. pose proof (Forall2_length _ _ _ Hs) as Hlc. rewrite length_take in Hlc. assert (Hlc' : length cells = o) by lia. clear Hlc.
  unfold tablerehash. unfold mbind, st_bind, obind. replace (Z.to_nat (Z.of_nat k - Z.of_nat o)) with (k - o)%nat by lia.
  rewrite clear_loop_run by lia. rewrite Nat2Z.id. set (cells1 := cells ++ replicate (k - o) []).
  assert (Hcc : concat cells1 = concat cells) by (unfold cells1; by rewrite concat_app, concat_nils, app_nil_r).
  assert (Hl1 : length cells1 = Nat.max o k) by (unfold cells1; rewrite length_app, length_replicate; lia).
  assert (Hs1 : shape (heap g) (take o vect ++ replicate (k - o) 0 ++ drop (o + (k - o)) vect) cells1).
  { rewrite (drop_ge vect), app_nil_r by lia. apply Forall2_app; [done|]. apply Forall2_replicate. done. }
  destruct (rehash_loop_run o (Z.of_nat k) 0 g _ cells1 Hs1) as (h' & vect' & E & Hr & Hs').
  - by rewrite Hcc.
  - intros a Ha. rewrite Hcc in Ha. apply Hf in Ha. lia.
  - lia.
  - destruct (rehash_cells_spec (slot_in (heap g) (Z.of_nat k)) o 0 cells1) as (Hl & Hp & Hpl).
    + lia.
    + intros a Ha. rewrite Hcc in Ha. apply Hf in Ha. lia.
    + intros j c a Hj Ha [|Hge]; [lia|]. unfold cells1 in Hj. rewrite lookup_app_r, lookup_replicate in Hj by lia. destruct Hj as [-> _].
      by apply elem_of_nil in Ha.
    + eexists h', vect', _. split; [exact E|]. split; [done|]. split; [exact Hs'|]. split; [lia|]. split; [by rewrite Hp, Hcc|done].
Qed.

(** The part of a vector that strings are in. *)
Lemma shape_shrink h vect cells f k :
  shape h vect cells -> placed f cells -> (forall a, a ∈ concat cells -> (f a < k)%nat) -> (k <= length cells)%nat ->
  shape h (take k vect) (take k cells) /\ concat (take k cells) = concat cells /\ placed f (take k cells).
Proof.
  intros Hs Hp Hf Hk. split; [by apply Forall2_take|]. split.
  - rewrite <- (take_drop k cells) at 2. rewrite concat_app. assert (concat (drop k cells) = []) as ->; [|by rewrite app_nil_r].
    assert (Hnil : Forall (fun c => c = []) (drop k cells)).
    { apply Forall_lookup. intros j c Hj. rewrite lookup_drop in Hj. destruct c as [|a c]; [done|exfalso].
      assert (f a = (k + j)%nat) by (eapply Hp; [done|by left]). assert (f a < k)%nat; [|lia]. apply Hf, elem_of_concat_lookup.
      exists (k + j)%nat, (a :: c). split; [done|by left]. }
    induction Hnil as [|c l -> _ IH]; [done|exact IH].
  - intros j c a Hj Ha. apply lookup_take_Some in Hj as [Hj _]. by eapply Hp.
Qed.
End StringFacts.
