(* ===== verification/StringTable.v ===== *)
(** * The string table

    Its invariant, and the operations that keep it: removal, collection, resizing. *)

From S2P Require Import Prelude Effects LuaValue LuaString StringFacts.

Module StringTable.
Import Effects LuaString StringFacts.
Open Scope Z_scope.

(** ** Removal *)

Lemma chain_unlink h s pre q a l oq o n :
  chain h s (pre ++ q :: a :: l) -> NoDup (pre ++ q :: a :: l) -> h !! q = Some oq -> h !! a = Some o -> u o = Hnext n ->
  chain (<[q := set_hnext n oq]> h) s (pre ++ q :: l).
Proof.
  intros Hc Hnd Hq Ha Hu. revert s Hc Hnd. induction pre as [|b pre IH]; intros s Hc Hnd.
  - destruct Hc as (-> & H0 & ts & next & Eq & Eu & Hc). destruct Hc as (-> & Ha0 & ta & na & Ea & Eua & Hc).
    split; [done|]. split; [done|]. exists (set_hnext n oq), n. rewrite lookup_insert_eq. split; [done|]. split; [done|].
    assert (na = n) as -> by congruence. apply chain_insert; [done|]. apply NoDup_cons in Hnd as [Hnd _].
    intros Hin. apply Hnd. by right.
  - destruct Hc as (-> & H0 & ts & next & Eb & Eu & Hc). apply NoDup_cons in Hnd as [Hb Hnd]. split; [done|]. split; [done|].
    exists ts, next. rewrite lookup_insert_ne by (intros <-; apply Hb; apply elem_of_app; right; by left). split; [done|]. split; [done|].
    by apply IH.
Qed.

(** Another slot does not have the string. *)
Lemma other_cell (cells : list (list Z)) i j c d a : NoDup (concat cells) -> cells !! i = Some c -> cells !! j = Some d -> i <> j -> a ∈ c -> a ∉ d.
Proof.
  intros Hnd Hi Hj Hne Ha Hd. pose proof (clear_concat cells i c Hi) as Hp. rewrite <- Hp in Hnd. apply NoDup_app in Hnd as (_ & Hdis & _).
  apply (Hdis a Ha). apply elem_of_concat_lookup. exists j, d. by rewrite list_lookup_insert_ne.
Qed.

Lemma shape_unlink h vect cells i pre q a l oq o n :
  shape h vect cells -> NoDup (concat cells) -> cells !! i = Some (pre ++ q :: a :: l) -> h !! q = Some oq -> h !! a = Some o -> u o = Hnext n ->
  shape (<[q := set_hnext n oq]> h) vect (<[i := pre ++ q :: l]> cells).
Proof.
  intros Hs Hnd Hi Hq Ha Hu. apply Forall2_same_length_lookup. rewrite length_insert. split; [by eapply Forall2_length|].
  intros j s c Hj Hc. destruct (decide (j = i)) as [->|Hne].
  - rewrite list_lookup_insert_eq in Hc by (by eapply lookup_lt_Some). injection Hc as <-. eapply chain_unlink; [by eapply Forall2_lookup_lr| |done..].
    rewrite <- (clear_concat _ _ _ Hi) in Hnd. by apply NoDup_app in Hnd as (? & _).
  - rewrite list_lookup_insert_ne in Hc by done. apply chain_insert; [by eapply Forall2_lookup_lr|].
    eapply other_cell; [done|exact Hi|exact Hc|done|]. apply elem_of_app. right. by left.
Qed.

Lemma remove_loop_run fuel slot g prev pre p l1 a l2 cells :
  shape (heap g) (strt_hash g) cells -> NoDup (concat cells) -> cells !! Z.to_nat slot = Some (pre ++ l1 ++ a :: l2) ->
  chain (heap g) p (l1 ++ a :: l2) -> prev = last pre -> (length l1 < fuel)%nat ->
  exists h' vect', remove_loop fuel slot prev p a g = Ret (set_strt vect' (strt_nuse g) (strt_size g) (set_heap h' g)) () /\
    relinked (heap g) h' /\ shape h' vect' (<[Z.to_nat slot := pre ++ l1 ++ l2]> cells).
Proof.
  intros Hs Hnd Hi. revert fuel prev pre p Hi. induction l1 as [|b l1 IH]; intros fuel prev pre p Hi Hc Hprev Hf;
    (destruct fuel as [|fuel]; [cbn in Hf; lia|]); cbn [remove_loop app].
  - destruct Hc as (-> & H0 & o & n & Ea & Eu & Hc). unfold mbind, st_bind, obind, get_str. rewrite Ea. unfold hnext. rewrite Eu. cbn [mret st_ret].
    rewrite Z.eqb_refl. destruct prev as [q|].
    + symmetry in Hprev. apply last_Some in Hprev as [pre' ->]. rewrite <- !app_assoc in Hi. cbn [app] in Hi.
      destruct (Forall2_lookup_r _ _ _ _ _ Hs Hi) as (s & _ & Hch).
      destruct (chain_strings _ _ _ q Hch) as (oq & nq & Eq & Euq & _); [apply elem_of_app; right; by left|]. rewrite Eq. unfold set_str. rewrite Eq.
      exists (<[q := set_hnext n oq]> (heap g)), (strt_hash g). split; [by destruct g|]. split; [apply relinked_insert; eauto|].
      rewrite <- !app_assoc. by eapply shape_unlink.
    + symmetry in Hprev. apply last_None in Hprev. subst pre. cbn [get_g app] in *.
      rewrite vset_ret by (apply lookup_lt_is_Some_2; rewrite (Forall2_length _ _ _ Hs); by eapply lookup_lt_Some).
      eexists (heap g), _. split; [by destruct g|]. split; [done|]. by apply Forall2_insert.
  - destruct Hc as (-> & H0 & o & n & Eb & Eu & Hc). unfold mbind, st_bind, obind, get_str. rewrite Eb. unfold hnext. rewrite Eu. cbn [mret st_ret].
    assert (Hne : b <> a).
    { intros ->. destruct (Forall2_lookup_r _ _ _ _ _ Hs Hi) as (s & _ & Hch). rewrite <- (clear_concat _ _ _ Hi) in Hnd.
      apply NoDup_app in Hnd as (Hnd & _). apply NoDup_app in Hnd as (_ & _ & Hnd). apply NoDup_cons in Hnd as [Hn _]. apply Hn.
      apply elem_of_app. right. by left. }
    rewrite (proj2 (Z.eqb_neq _ _) Hne).
    destruct (IH fuel (Some b) (pre ++ [b]) n) as (h' & vect' & E & Hr & Hs').
    + by rewrite <- app_assoc.
    + done.
    + by rewrite last_snoc.
    + cbn in Hf. lia.
    + exists h', vect'. split; [exact E|]. split; [done|]. by rewrite <- app_assoc in Hs'.
Qed.

(** ** The invariant *)

(** What never changes in a string. *)
Definition core (ts : TString) : strtag * Z * Z * list Z := (ts_tt ts, shrlen ts, hash ts, contents ts).
Definition same_core (h h' : heap_t) : Prop := core <$> h = core <$> h'.

#[export] Instance same_core_equiv : Equivalence same_core.
Proof. split; [done|by intros ??|intros ??? H1 H2; by unfold same_core in *; rewrite H1]. Qed.

Lemma relinked_core h h' : relinked h h' -> same_core h h'.
Proof.
  intros H. apply map_eq. intros a. rewrite !lookup_fmap. destruct (h !! a) as [ts|] eqn:E.
  - destruct (relinked_lookup _ _ _ _ H E) as (ts' & -> & Es). apply strip_fields in Es as (E1 & E2 & E3 & E4 & _). cbn. unfold core. by rewrite E1, E2, E3, E4.
  - destruct (h' !! a) as [ts'|] eqn:E'; [|done]. symmetry in H. destruct (relinked_lookup _ _ _ _ H E') as (? & E1 & _). congruence.
Qed.

Lemma core_lookup h h' a ts : same_core h h' -> h !! a = Some ts -> exists ts', h' !! a = Some ts' /\ core ts' = core ts.
Proof.
  intros H Ha. assert (E : (core <$> h) !! a = (core <$> h') !! a) by (by rewrite H). rewrite !lookup_fmap, Ha in E.
  destruct (h' !! a) as [ts'|]; [|done]. exists ts'. split; [done|]. cbn in E. congruence.
Qed.

(** A string of the table. *)
Definition short_ok (sd : Z) (ts : TString) : Prop :=
  shrlen ts = zlen (contents ts) /\ zlen (contents ts) <= LUAI_MAXSHORTLEN /\ hash ts = LuaValue.luaS_hash (contents ts) sd.

(** The short strings in memory are those of the list, no two with the same contents. *)
Record pop_ok (sd : Z) (h : heap_t) (l : list Z) : Prop := {
  pop_null : h !! 0 = None;
  pop_in : forall a, a ∈ l -> exists ts, h !! a = Some ts /\ ts_tt ts = LUA_VSHRSTR;
  pop_all : forall a ts, h !! a = Some ts -> ts_tt ts = LUA_VSHRSTR -> a ∈ l;
  pop_short : forall a ts, h !! a = Some ts -> ts_tt ts = LUA_VSHRSTR -> short_ok sd ts;
  pop_uniq : forall a b ts ts', h !! a = Some ts -> h !! b = Some ts' -> ts_tt ts = LUA_VSHRSTR -> ts_tt ts' = LUA_VSHRSTR ->
    contents ts = contents ts' -> a = b }.

Lemma pop_core sd h h' l l' : same_core h h' -> l ≡ₚ l' -> pop_ok sd h l -> pop_ok sd h' l'.
Proof.
  intros Hc Hl [H0 Hin Hall Hsh Hun]. assert (Hc' : same_core h' h) by (by symmetry).
  assert (Hback : forall a ts, h' !! a = Some ts -> exists ts', h !! a = Some ts' /\ ts_tt ts' = ts_tt ts /\ shrlen ts' = shrlen ts /\ hash ts' = hash ts /\ contents ts' = contents ts).
  { intros a ts Ha. destruct (core_lookup _ _ _ _ Hc' Ha) as (ts' & Ha' & E). unfold core in E. exists ts'. by injection E. }
  split.
  - destruct (h' !! 0) as [ts|] eqn:E; [|done]. destruct (Hback _ _ E) as (? & E' & _). congruence.
  - intros a Ha. rewrite <- Hl in Ha. destruct (Hin a Ha) as (ts & Ea & Et). destruct (core_lookup _ _ _ _ Hc Ea) as (ts' & Ea' & Ec).
    exists ts'. split; [done|]. unfold core in Ec. congruence.
  - intros a ts Ha Ht. destruct (Hback _ _ Ha) as (ts' & Ha' & E & _). rewrite <- Hl. eapply Hall; [done|congruence].
  - intros a ts Ha Ht. destruct (Hback _ _ Ha) as (ts' & Ha' & E1 & E2 & E3 & E4). unfold short_ok. rewrite <- E2, <- E3, <- E4. eapply Hsh; [done|congruence].
  - intros a b ta tb Ha Hb Hta Htb Ec. destruct (Hback _ _ Ha) as (ta' & Ha' & Ea1 & _ & _ & Ea2), (Hback _ _ Hb) as (tb' & Hb' & Eb1 & _ & _ & Eb2).
    eapply Hun; [exact Ha'|exact Hb'|congruence..].
Qed.

Record strt_ok (g : global_State) (cells : list (list Z)) : Prop := {
  ok_shape : shape (heap g) (strt_hash g) cells;
  ok_nodup : NoDup (concat cells);
  ok_size : exists k, 0 <= k <= 30 /\ strt_size g = 2 ^ k;
  ok_len : length cells = Z.to_nat (strt_size g);
  ok_placed : placed (slot_in (heap g) (strt_size g)) cells;
  ok_nuse : strt_nuse g = zlen (concat cells);
  ok_pop : pop_ok (seed g) (heap g) (concat cells) }.

Lemma slot_core h h' n a : same_core h h' -> slot_in h' n a = slot_in h n a.
Proof.
  intros H. unfold slot_in. destruct (h !! a) as [ts|] eqn:E.
  - destruct (core_lookup _ _ _ _ H E) as (ts' & -> & Es). unfold core in Es. do 2 f_equal. congruence.
  - destruct (h' !! a) as [ts'|] eqn:E'; [|done]. symmetry in H. destruct (core_lookup _ _ _ _ H E') as (? & E1 & _). congruence.
Qed.

Lemma lmod_range h k : 0 <= k -> 0 <= lmod h (2 ^ k) < 2 ^ k.
Proof.
  intros Hk. unfold lmod. replace (2 ^ k - 1) with (Z.ones k) by (rewrite Z.ones_equiv; lia). rewrite Z.land_ones by done.
  apply Z.mod_pos_bound. lia.
Qed.

Lemma slot_range h k a : 0 <= k -> (slot_in h (2 ^ k) a < Z.to_nat (2 ^ k))%nat.
Proof. intros Hk. unfold slot_in. destruct (h !! a) as [ts|]; [pose proof (lmod_range (hash ts) k Hk); lia|lia]. Qed.

(** ** Removal of a string of the table *)

Lemma cut_concat (cells : list (list Z)) i l1 a l2 : cells !! i = Some (l1 ++ a :: l2) -> concat cells ≡ₚ a :: concat (<[i := l1 ++ l2]> cells).
Proof.
  intros Hi. rewrite <- (clear_concat _ _ _ Hi). assert (Hl : (i < length cells)%nat) by (by eapply lookup_lt_Some).
  assert (Hi' : <[i := l1 ++ l2]> cells !! i = Some (l1 ++ l2)) by (by rewrite list_lookup_insert_eq).
  rewrite <- (clear_concat _ _ _ Hi'), list_insert_insert_eq. rewrite <- Permutation_middle. done.
Qed.

Lemma cut_placed f (cells : list (list Z)) i l1 a l2 : cells !! i = Some (l1 ++ a :: l2) -> placed f cells -> placed f (<[i := l1 ++ l2]> cells).
Proof.
  intros Hi Hp j c b Hj Hb. assert (Hl : (i < length cells)%nat) by (by eapply lookup_lt_Some). destruct (decide (j = i)) as [->|Hne].
  - rewrite list_lookup_insert_eq in Hj by done. injection Hj as <-. eapply Hp; [done|]. apply elem_of_app in Hb as [?|?]; apply elem_of_app; [by left|right; by right].
  - rewrite list_lookup_insert_ne in Hj by done. by eapply Hp.
Qed.

Lemma luaS_remove_run g cells a : strt_ok g cells -> a ∈ concat cells ->
  exists h' vect' cells', luaS_remove a g = Ret (set_strt vect' (strt_nuse g - 1) (strt_size g) (set_heap h' g)) () /\
    relinked (heap g) h' /\ shape h' vect' cells' /\ concat cells ≡ₚ a :: concat cells' /\ length cells' = length cells /\
    placed (slot_in (heap g) (strt_size g)) cells'.
Proof.
  intros Hok Ha. destruct (pop_in _ _ _ (ok_pop _ _ Hok) a Ha) as (ts & Ea & _).
  apply elem_of_concat_lookup in Ha as (i & c & Hi & Hac). pose proof (ok_placed _ _ Hok i c a Hi Hac) as Hslot. unfold slot_in in Hslot. rewrite Ea in Hslot.
  apply list_elem_of_split in Hac as (l1 & l2 & ->). destruct (Forall2_lookup_r _ _ _ _ _ (ok_shape _ _ Hok) Hi) as (p & Hp & Hch).
  assert (Hnd : NoDup (l1 ++ a :: l2)). { pose proof (ok_nodup _ _ Hok) as Hnd. rewrite <- (clear_concat _ _ _ Hi) in Hnd. by apply NoDup_app in Hnd as (? & _). }
  destruct (remove_loop_run (S (size (heap g))) (lmod (hash ts) (strt_size g)) g None [] p l1 a l2 cells) as (h' & vect' & E & Hr & Hs).
  - apply Hok.
  - apply Hok.
  - by rewrite Hslot.
  - done.
  - done.
  - pose proof (chain_size _ _ _ Hch Hnd) as Hsz. rewrite length_app in Hsz. cbn in Hsz. lia.
  - rewrite Hslot in Hs. cbn [app] in Hs. eexists h', vect', _. split; [|split; [done|split; [exact Hs|split; [by apply cut_concat|split; [apply length_insert|]]]]].
    + unfold luaS_remove, mbind, st_bind, obind, get_str. rewrite Ea. cbn [get_g]. rewrite (vget_ret _ _ p) by (by rewrite Hslot). rewrite E. done.
    + eapply cut_placed; [done|]. apply Hok.
Qed.

(** ** Collection *)

(** All but the strings and the table. *)
Definition frame (g g' : global_State) : Prop :=
  seed g' = seed g /\ currentwhite g' = currentwhite g /\ memerrmsg g' = memerrmsg g /\ strcache g' = strcache g /\
  gcstopem g' = gcstopem g /\ completestate g' = completestate g /\ gcemergency g' = gcemergency g /\ strt_size g' = strt_size g.

#[export] Instance frame_pre : PreOrder frame.
Proof. split; [done|]. intros g1 g2 g3 H1 H2. unfold frame in *. destruct_and!. split_and!; congruence. Qed.

Lemma pop_delete sd h a l l' : pop_ok sd h l -> (forall b, b ∈ l' <-> b ∈ l /\ b <> a) -> pop_ok sd (delete a h) l'.
Proof.
  intros [H0 Hin Hall Hsh Hun] Hl. assert (Hd : forall b ts, delete a h !! b = Some ts -> b <> a /\ h !! b = Some ts) by (intros b ts [? ?]%lookup_delete_Some; done).
  split.
  - destruct ((delete a h) !! 0) as [ts|] eqn:E; [|done]. apply Hd in E as [_ E]. congruence.
  - intros b [Hb Hne]%Hl. destruct (Hin b Hb) as (ts & E & Et). exists ts. by rewrite lookup_delete_ne.
  - intros b ts [Hne Hb]%Hd Ht. apply Hl. split; [by eapply Hall|done].
  - intros b ts [Hne Hb]%Hd Ht. by eapply Hsh.
  - intros b c tb tc [_ Hb]%Hd [_ Hc]%Hd. by eapply Hun.
Qed.

Lemma shape_delete h vect cells a : shape h vect cells -> a ∉ concat cells -> shape (delete a h) vect cells.
Proof.
  intros Hs Ha. eapply shape_frame; [done|]. intros b tb Hb Eb. exists tb. split; [|done]. rewrite lookup_delete_ne; [done|]. by intros ->.
Qed.

Lemma placed_ext f f' cells : (forall a, a ∈ concat cells -> f' a = f a) -> placed f cells -> placed f' cells.
Proof.
  intros H Hp j c a Hj Ha. rewrite H by (apply elem_of_concat_lookup; eauto). by eapply Hp.
Qed.

Lemma slot_delete h n a b : a <> b -> slot_in (delete a h) n b = slot_in h n b.
Proof. intros H. unfold slot_in. rewrite lookup_delete_ne by done. done. Qed.

Lemma same_core_delete h h' a : same_core h h' -> same_core (delete a h) (delete a h').
Proof. unfold same_core. rewrite !fmap_delete. by intros ->. Qed.

Lemma foldr_delete_core h h' (l : list Z) : same_core h h' -> same_core (foldr delete h l) (foldr delete h' l).
Proof. intros H. induction l as [|a l IH]; [exact H|by apply same_core_delete]. Qed.

Lemma freeobj_run g cells a ts : strt_ok g cells -> heap g !! a = Some ts ->
  exists g' cells', freeobj a g = Ret g' () /\ strt_ok g' cells' /\ same_core (delete a (heap g)) (heap g') /\ frame g g' /\ strt_nuse g' <= strt_nuse g.
Proof.
  intros Hok Ha. pose proof Hok as [Hs Hnd Hsz Hlen Hpl Hnu Hpop]. unfold freeobj, mbind, st_bind, obind, get_str. rewrite Ha.
  destruct (ts_tt ts) eqn:Et.
  - destruct (luaS_remove_run g cells a Hok (pop_all _ _ _ Hpop a ts Ha Et)) as (h' & vect' & cells' & -> & Hr & Hs' & Hp & Hl & Hpl'). cbn [get_g put_g].
    assert (Hna : (a ∉ concat cells') /\ NoDup (concat cells')) by (rewrite Hp in Hnd; by apply NoDup_cons in Hnd). destruct Hna as [Hna Hnd'].
    eexists _, cells'. split; [done|]. split; [|split; [by apply same_core_delete, relinked_core|split; [done|cbn; lia]]]. split; cbn.
    + by apply shape_delete.
    + done.
    + done.
    + by rewrite Hl.
    + eapply placed_ext; [|exact Hpl']. intros b Hb. rewrite slot_delete by (by intros ->). by apply slot_relinked.
    + rewrite Hp in Hnu. cbn in Hnu. lia.
    + eapply pop_delete; [eapply pop_core; [by apply relinked_core|exact Hp|done]|]. intros b. rewrite elem_of_cons.
      split; [intros Hb; split; [by right|by intros ->]|intros [[->|?] ?]; done].
  - cbn [get_g put_g mret st_ret]. assert (Hna : a ∉ concat cells) by (intros Hin; destruct (pop_in _ _ _ Hpop a Hin) as (? & ? & ?); congruence).
    eexists _, cells. split; [done|]. split; [|split; [done|split; [done|cbn; lia]]]. split; cbn; try done.
    + by apply shape_delete.
    + eapply placed_ext; [|exact Hpl]. intros b Hb. apply slot_delete. by intros ->.
    + eapply pop_delete; [done|]. intros b. split; [intros Hb; split; [done|by intros ->]|tauto].
Qed.

Lemma free_all_run l g cells : strt_ok g cells -> NoDup l -> (forall a, a ∈ l -> is_Some (heap g !! a)) ->
  exists g' cells', free_all l g = Ret g' () /\ strt_ok g' cells' /\ same_core (foldr delete (heap g) l) (heap g') /\ frame g g' /\ strt_nuse g' <= strt_nuse g.
Proof.
  revert g cells. induction l as [|a l IH]; intros g cells Hok Hnd Hin; cbn [free_all].
  { exists g, cells. split_and!; (done || lia). }
  destruct (Hin a) as [ts Ha]; [by left|]. apply NoDup_cons in Hnd as [Hna Hnd].
  destruct (freeobj_run g cells a ts Hok Ha) as (g1 & cells1 & E1 & Hok1 & Hc1 & Hf1 & Hn1).
  destruct (IH g1 cells1 Hok1 Hnd) as (g2 & cells2 & E2 & Hok2 & Hc2 & Hf2 & Hn2).
  - intros b Hb. destruct (Hin b) as [tb Eb]; [by right|]. destruct (core_lookup _ _ b tb Hc1) as (tb' & Eb' & _); [|by exists tb'].
    rewrite lookup_delete_ne; [done|]. by intros ->.
  - exists g2, cells2. unfold mbind, st_bind, obind. rewrite E1. split; [done|]. split; [done|]. split; [|split; [by etrans|lia]].
    etrans; [|exact Hc2]. clear -Hc1. cbn [foldr]. revert Hc1. generalize (heap g), (heap g1). intros h h1 Hc.
    rewrite <- (foldr_delete_core _ _ l Hc). unfold same_core. f_equal. clear. induction l as [|b l IH]; [done|]. cbn. rewrite <- IH. apply delete_delete.
Qed.

(** Colours. *)
Definition white_ok (g : global_State) : Prop := currentwhite g = 8 \/ currentwhite g = 16.

Lemma color_white white g ts : white_ok g -> iswhite (set_color white g ts) = white.
Proof.
  intros Hw. unfold iswhite, set_color. cbn [marked set_marked]. rewrite Z.land_lor_distr_l, <- Z.land_assoc.
  change (Z.land (Z.lxor 0xff (Z.lor WHITEBITS (Z.shiftl 1 BLACKBIT))) WHITEBITS) with 0. rewrite Z.land_0_r, Z.lor_0_l.
  unfold luaC_white. destruct white; [|done]. by destruct Hw as [-> | ->].
Qed.

(** The strings are changed in colour only. *)
Lemma recolor_ok g cells f : strt_ok g cells -> (forall a ts, u (f a ts) = u ts /\ core (f a ts) = core ts) ->
  let h' := map_imap (fun a ts => Some (f a ts)) (heap g) in strt_ok (set_heap h' g) cells /\ same_core (heap g) h'.
Proof.
  intros [Hs Hnd Hsz Hlen Hpl Hnu Hpop] Hf h'. assert (Hl : forall a, h' !! a = f a <$> heap g !! a) by (intros a; unfold h'; rewrite map_lookup_imap; by destruct (heap g !! a)).
  assert (Hc : same_core (heap g) h').
  { apply map_eq. intros a. rewrite !lookup_fmap, Hl. destruct (heap g !! a) as [ts|]; [|done]. cbn. f_equal. symmetry. apply Hf. }
  split; [|done]. split; cbn; try done.
  - eapply shape_frame; [done|]. intros a ts _ Ea. exists (f a ts). rewrite Hl, Ea. split; [done|]. apply Hf.
  - eapply placed_ext; [|exact Hpl]. intros a _. by apply slot_core.
  - by eapply pop_core.
Qed.

(** What a collection leaves. *)
Definition collected (unreachable : global_State -> list Z) (g g' : global_State) : Prop :=
  same_core (foldr delete (heap g) (garbage unreachable g)) (heap g') /\ white_ok g' /\
  seed g' = seed g /\ memerrmsg g' = memerrmsg g /\ gcstopem g' = gcstopem g /\ completestate g' = completestate g /\
  gcemergency g' = gcemergency g /\ strt_size g' = strt_size g /\ strt_nuse g' <= strt_nuse g /\
  ((forall row p, row ∈ strcache g -> p ∈ row -> is_Some (heap g !! p)) ->
    strcache g' = map (map (fun p => if decide (p ∈ garbage unreachable g) then memerrmsg g else p)) (strcache g)).

Lemma garbage_spec unreachable g : NoDup (garbage unreachable g) /\
  forall a, a ∈ garbage unreachable g -> is_Some (heap g !! a) /\ a <> memerrmsg g /\ a ∈ unreachable g.
Proof.
  split; [apply NoDup_remove_dups|]. intros a Ha. unfold garbage in Ha. rewrite elem_of_remove_dups, list_elem_of_filter in Ha.
  destruct Ha as [[Hd Hm] Hu]. by apply elem_of_dom in Hd.
Qed.

Lemma fullgc_run unreachable g cells : strt_ok g cells -> white_ok g ->
  exists g' cells', luaC_fullgc unreachable g = Ret g' () /\ strt_ok g' cells' /\ collected unreachable g g'.
Proof.
  intros Hok Hw. unfold luaC_fullgc, mbind, st_bind, obind. cbn [get_g put_g]. set (dead := garbage unreachable g).
  destruct (garbage_spec unreachable g) as [Hnd Hdead]. fold dead in Hnd, Hdead.
  set (f1 := fun p ts => if decide (p = memerrmsg g) then ts else set_color (bool_decide (p ∈ dead)) g ts).
  destruct (recolor_ok g cells f1 Hok) as [Hok1 Hc1]; [intros a ts; unfold f1; by case_decide|]. set (h1 := map_imap _ (heap g)) in *.
  unfold luaS_clearcache, mbind, st_bind, obind. cbn [get_g put_g]. set (g1 := set_heap h1 g) in *.
  set (g2 := set_white _ _).
  assert (Hok2 : strt_ok g2 cells) by (destruct Hok1; by split).
  destruct (free_all_run dead g2 cells Hok2 Hnd) as (g3 & cells3 & E3 & Hok3 & Hc3 & Hf3 & Hn3).
  { intros a Ha. destruct (Hdead a Ha) as [[ts Ea] _]. destruct (core_lookup _ _ _ _ Hc1 Ea) as (ts' & Ea' & _). by exists ts'. }
  rewrite E3. destruct (recolor_ok g3 cells3 (fun p ts => if decide (p = memerrmsg g3) then ts else set_color true g3 ts) Hok3) as [Hok4 Hc4]; [intros a ts; by case_decide|].
  eexists _, cells3. split; [done|]. split; [done|]. destruct Hf3 as (F1 & F2 & F3 & F4 & F5 & F6 & F7 & F8). cbn in F1, F2, F3, F4, F5, F6, F7, F8.
  split; [|split; [|split; [done|split; [done|split; [done|split; [done|split; [done|split; [done|split; [exact Hn3|]]]]]]]]].
  - etrans; [|exact Hc4]. etrans; [|exact Hc3]. by apply foldr_delete_core.
  - unfold white_ok. cbn. rewrite F2. unfold otherwhite. cbn. destruct Hw as [-> | ->]; [by right|by left].
  - intros Hcache. cbn. rewrite F4. apply map_ext_in. intros row Hrow%list_elem_of_In. apply map_ext_in. intros p Hp%list_elem_of_In.
    destruct (Hcache row p Hrow Hp) as [ts Ea]. unfold clear_entry. assert (Eh : h1 !! p = Some (f1 p ts)) by (unfold h1; by rewrite map_lookup_imap, Ea).
    change (heap g1) with h1. rewrite Eh. unfold f1. case_decide as Em.
    + subst p. change (memerrmsg g1) with (memerrmsg g). destruct (iswhite ts); by case_decide.
    + rewrite color_white by done. change (memerrmsg g1) with (memerrmsg g). by do 2 case_decide; case_bool_decide.
Qed.
End StringTable.
