(* ===== verification/StringResize.v ===== *)
(** * Allocation and resizing

    What allocations, with the collections they may run, and changes of the table's size
    do to the strings. *)

From S2P Require Import Prelude Effects LuaValue LuaString StringFacts StringTable.

Module StringResize.
Import Effects LuaString StringFacts StringTable.
Open Scope Z_scope.

(** The invariant depends on the strings and the table only. *)
Lemma strt_ok_fields g g' cells : strt_ok g cells -> heap g' = heap g -> strt_hash g' = strt_hash g -> strt_size g' = strt_size g ->
  strt_nuse g' = strt_nuse g -> seed g' = seed g -> strt_ok g' cells.
Proof. intros [] E1 E2 E3 E4 E5. split; rewrite ?E1, ?E2, ?E3, ?E4, ?E5; done. Qed.

(** ** Rehashing *)

(** From the size of [g0] to [2 ^ k], in a state with the same strings. *)
Lemma strt_rehash_ok g g0 cells k vect :
  strt_ok g0 cells -> heap g = heap g0 -> 0 <= k <= 30 -> let n := 2 ^ k in
  length vect = Nat.max (Z.to_nat (strt_size g0)) (Z.to_nat n) -> take (Z.to_nat (strt_size g0)) vect = strt_hash g0 ->
  exists h' vect' cells', tablerehash vect (strt_size g0) n g = Ret (set_heap h' g) vect' /\ relinked (heap g) h' /\ length vect' = length vect /\
    strt_ok (set_strt (take (Z.to_nat n) vect') (strt_nuse g0) n (set_heap h' g0)) cells'.
Proof.
  intros [Hs Hnd [k0 [Hk0 Hsz]] Hlen Hpl Hnu Hpop] Eh Hk n Hlv Ht. assert (Hn : 0 < n) by (unfold n; lia). assert (Hs0 : 0 < strt_size g0) by (rewrite Hsz; lia).
  assert (Hr : forall a, (slot_in (heap g) n a < Z.to_nat n)%nat) by (intros a; apply slot_range; lia).
  destruct (tablerehash_run (Z.to_nat (strt_size g0)) (Z.to_nat n) g vect cells Hlv) as (h' & vect' & cells' & E & Hrel & Hs' & Hl' & Hp' & Hpl').
  - by rewrite Ht, Eh.
  - done.
  - intros a _. rewrite Z2Nat.id by lia. apply Hr.
  - rewrite (Z2Nat.id n), (Z2Nat.id (strt_size g0)) in E by lia. rewrite (Z2Nat.id n) in Hpl' by lia.
    destruct (shape_shrink h' vect' cells' (slot_in (heap g) n) (Z.to_nat n) Hs' Hpl') as (Hs2 & Hc2 & Hp2); [intros; apply Hr|lia|].
    exists h', vect', (take (Z.to_nat n) cells'). split; [done|]. split; [done|].
    split; [rewrite (Forall2_length _ _ _ Hs'); lia|]. split; cbn.
    + done.
    + by rewrite Hc2, Hp'.
    + exists k. done.
    + rewrite length_take. lia.
    + eapply placed_ext; [|exact Hp2]. intros a _. by apply slot_relinked.
    + by rewrite Hc2, Hp'.
    + apply (pop_core _ (heap g0) _ (concat cells)); [rewrite <- Eh; by apply relinked_core|by rewrite Hc2, Hp'|done].
Qed.

Lemma wp_get_g {B} (k : global_State -> M B) Q E g : wp (k g) Q E g -> wp (get_g ≫= k) Q E g.
Proof. done. Qed.
Lemma wp_put {B} g' (k : unit -> M B) Q E g : wp (k ()) Q E g' -> wp (put_g g' ≫= k) Q E g.
Proof. done. Qed.
Lemma wp_set_g g' (Q : unit -> global_State -> Prop) E g : Q () g' -> wp (put_g g') Q E g.
Proof. done. Qed.
Lemma wp_run {A B} (m : M A) (k : A -> M B) Q E g g' a : m g = Ret g' a -> wp (k a) Q E g' -> wp (m ≫= k) Q E g.
Proof. intros H. unfold wp. by rewrite (bind_Ret _ _ _ _ _ H). Qed.

Section memory.
Context (new_block : global_State -> Z -> option Z) (frealloc : global_State -> Z -> Z -> bool) (uninit : nat -> list Z).
Context (unreachable : global_State -> list Z).
Hypothesis Hnew : forall g n p, new_block g n = Some p -> p <> 0 /\ heap g !! p = None.
Hypothesis Huninit : forall n, length (uninit n) = n.

(** ** What is kept *)

Definition ok (g : global_State) : Prop := (exists cells, strt_ok g cells) /\ white_ok g /\ strt_nuse g <= MAX_INT.

(** The rows of the cache refer to strings without zero bytes. *)
Definition entry_ok (g : global_State) (p : Z) : Prop := exists ts, heap g !! p = Some ts /\ c_string (contents ts) = contents ts.
Definition cache_ok (g : global_State) : Prop :=
  (exists ts, heap g !! memerrmsg g = Some ts /\ contents ts = MEMERRMSG) /\
  length (strcache g) = 53%nat /\ Forall (fun row => length row = 2%nat /\ Forall (entry_ok g) row) (strcache g).

(** Strings are lost only by collections, and none is changed. *)
Record kept (g g' : global_State) : Prop := {
  k_back : forall a ts', heap g' !! a = Some ts' -> exists ts, heap g !! a = Some ts /\ core ts' = core ts;
  k_keep : forall a ts, heap g !! a = Some ts -> (a = memerrmsg g \/ forall g1, a ∉ unreachable g1) -> exists ts', heap g' !! a = Some ts' /\ core ts' = core ts;
  k_seed : seed g' = seed g;
  k_msg : memerrmsg g' = memerrmsg g;
  k_flags : gcstopem g' = gcstopem g /\ completestate g' = completestate g /\ gcemergency g' = gcemergency g;
  k_nuse : strt_nuse g' <= strt_nuse g;
  k_cache : cache_ok g -> cache_ok g' }.

#[export] Instance kept_pre : PreOrder kept.
Proof.
  split.
  - intros g. split; try done; eauto with lia.
  - intros g1 g2 g3 H12 H23. destruct (k_flags _ _ H12) as (F1 & F2 & F3), (k_flags _ _ H23) as (F1' & F2' & F3'). split.
    + intros a ts3 H3. destruct (k_back _ _ H23 _ _ H3) as (ts2 & H2 & E2). destruct (k_back _ _ H12 _ _ H2) as (ts1 & H1 & E1). exists ts1. split; [done|congruence].
    + intros a ts1 H1 Ha. destruct (k_keep _ _ H12 _ _ H1 Ha) as (ts2 & H2 & E2).
      destruct (k_keep _ _ H23 _ _ H2) as (ts3 & H3 & E3); [by rewrite (k_msg _ _ H12)|]. exists ts3. split; [done|congruence].
    + rewrite (k_seed _ _ H23). apply H12.
    + rewrite (k_msg _ _ H23). apply H12.
    + rewrite F1', F2', F3'. done.
    + pose proof (k_nuse _ _ H12). pose proof (k_nuse _ _ H23). lia.
    + intros Hc. by apply H23, H12.
Qed.

(** Changes of links and of the table. *)
Lemma kept_core g g' : same_core (heap g) (heap g') -> seed g' = seed g -> memerrmsg g' = memerrmsg g -> strcache g' = strcache g -> strt_nuse g' <= strt_nuse g ->
  gcstopem g' = gcstopem g /\ completestate g' = completestate g /\ gcemergency g' = gcemergency g -> kept g g'.
Proof.
  intros Hc Es Em Ec En Ef. assert (Hc' : same_core (heap g') (heap g)) by (by symmetry).
  assert (Hcon : forall a ts, heap g !! a = Some ts -> exists ts', heap g' !! a = Some ts' /\ contents ts' = contents ts).
  { intros a ts Ha. destruct (core_lookup _ _ _ _ Hc Ha) as (ts' & Ha' & E). exists ts'. split; [done|]. unfold core in E. congruence. }
  split; try done.
  - intros a ts' Ha. destruct (core_lookup _ _ _ _ Hc' Ha) as (ts & Ha' & E). by exists ts.
  - intros a ts Ha _. destruct (core_lookup _ _ _ _ Hc Ha) as (ts' & Ha' & E). by exists ts'.
  - intros ((ts & Hm & Hmc) & Hl & Hr). unfold cache_ok. rewrite Em, Ec. split; [|split; [done|]].
    + destruct (Hcon _ _ Hm) as (ts' & ? & ?). exists ts'. split; [done|congruence].
    + eapply Forall_impl; [exact Hr|]. intros row [Hlen Hrow]. split; [done|]. eapply Forall_impl; [exact Hrow|].
      intros p (tp & Hp & Hz). destruct (Hcon _ _ Hp) as (tp' & Hp' & Ep). exists tp'. split; [done|]. by rewrite Ep.
Qed.

Lemma foldr_delete_lookup (h : heap_t) l a : foldr delete h l !! a = if decide (a ∈ l) then None else h !! a.
Proof.
  case_decide; [by rewrite lookup_foldr_delete|by rewrite lookup_foldr_delete_not_elem_of].
Qed.

Lemma kept_collected g g' : collected unreachable g g' -> kept g g'.
Proof.
  intros (Hc & Hw & Es & Em & Ef1 & Ef2 & Ef3 & _ & Hnu & Hcache). destruct (garbage_spec unreachable g) as [_ Hg].
  assert (Hc' := symmetry Hc).
  assert (Hkeep : forall a ts, heap g !! a = Some ts -> a ∉ garbage unreachable g -> exists ts', heap g' !! a = Some ts' /\ core ts' = core ts).
  { intros a ts Ha Hn. eapply core_lookup; [exact Hc|]. by rewrite foldr_delete_lookup, decide_False. }
  split; try done.
  - intros a ts' Ha. destruct (core_lookup _ _ _ _ Hc' Ha) as (ts & Ha' & E). rewrite foldr_delete_lookup in Ha'. case_decide; [done|]. by exists ts.
  - intros a ts Ha Hlive. apply Hkeep; [done|]. intros Hin. destruct (Hg a Hin) as (_ & Hm & Hu). destruct Hlive as [?|Hlive]; [done|]. by apply (Hlive g).
  - intros ((ts & Hm & Hmc) & Hl & Hr). rewrite Forall_forall in Hr.
    assert (Hmsg : exists ts', heap g' !! memerrmsg g = Some ts' /\ contents ts' = MEMERRMSG).
    { destruct (Hkeep _ _ Hm) as (ts' & ? & E); [intros Hin; by destruct (Hg _ Hin) as (_ & ? & _)|]. exists ts'. split; [done|]. unfold core in E. congruence. }
    unfold cache_ok. rewrite Em, Hcache.
    2:{ intros row p Hrow Hp. destruct (Hr row Hrow) as [_ Hrow']. rewrite Forall_forall in Hrow'. destruct (Hrow' p Hp) as (tp & Htp & _). by exists tp. }
    split; [done|]. split; [by rewrite length_map|]. apply Forall_forall. intros row' (row & -> & Hrow)%list_elem_of_fmap.
    destruct (Hr row Hrow) as [Hlen Hrow']. split; [by rewrite length_map|]. apply Forall_forall. intros p' (p & -> & Hp)%list_elem_of_fmap.
    case_decide as Hin; [destruct Hmsg as (ts' & ? & E); exists ts'; rewrite E; done|].
    rewrite Forall_forall in Hrow'. destruct (Hrow' p Hp) as (tp & Htp & Hz). destruct (Hkeep _ _ Htp Hin) as (tp' & ? & E).
    exists tp'. split; [done|]. unfold core in E. injection E as _ _ _ ->. done.
Qed.

Lemma fullgc_wp g E : ok g -> wp (luaC_fullgc unreachable) (fun _ g' => ok g' /\ kept g g' /\ strt_size g' = strt_size g) E g.
Proof.
  intros [[cells Hok] [Hw Hmax]]. destruct (fullgc_run unreachable g cells Hok Hw) as (g' & cells' & Eg & Hok' & Hc). unfold wp. rewrite Eg.
  split; [split; [by exists cells'|split; [apply Hc|]]|]; [destruct Hc as (_ & _ & _ & _ & _ & _ & _ & _ & ? & _); lia|]. split; [by apply kept_collected|apply Hc].
Qed.

(** ** Allocation *)

Lemma malloc_wp n g : ok g ->
  wp (luaM_malloc new_block unreachable n) (fun p g' => ok g' /\ kept g g' /\ strt_size g' = strt_size g /\ p <> 0 /\ heap g' !! p = None)
    (fun g' => ok g' /\ kept g g' /\ new_block g' n = None) g.
Proof.
  intros Hok. unfold luaM_malloc. apply wp_get_g. destruct (new_block g n) as [p|] eqn:E; [apply wp_ret; by destruct (Hnew _ _ _ E)|].
  destruct (cantryagain g); [|by apply wp_throw]. apply wp_bind. eapply wp_mono; [by apply (fullgc_wp _ (fun _ => False))| |done]. intros _ g' (Hok' & Hk & Hsz). apply wp_get_g.
  destruct (new_block g' n) as [p|] eqn:E'; [|by apply wp_throw]. apply wp_ret. by destruct (Hnew _ _ _ E').
Qed.

Lemma realloc_wp o n g : ok g ->
  wp (luaM_realloc frealloc unreachable o n) (fun _ g' => ok g' /\ kept g g' /\ strt_size g' = strt_size g /\ (cantryagain g = false -> g' = g)) (fun _ => False) g.
Proof.
  intros Hok. unfold luaM_realloc. apply wp_get_g. destruct (frealloc g o n); [by apply wp_ret|].
  destruct (cantryagain g); [|by apply wp_ret]. apply wp_bind. eapply wp_mono; [by apply (fullgc_wp _ (fun _ => False))| |done]. intros _ g' (Hok' & Hk & Hs). apply wp_get_g. by apply wp_ret.
Qed.

(** ** Resizing *)

Lemma kept_relinked g h' v sz : relinked (heap g) h' -> kept g (set_strt v (strt_nuse g) sz (set_heap h' g)).
Proof. intros H. apply kept_core; try done. by apply relinked_core. Qed.

(** The vector after a successful reallocation to more slots, or the same number. *)
Lemma grown_ok g k : ok g -> 0 <= k <= 30 -> let n := 2 ^ k in let o := strt_size g in o <= n ->
  wp (let newvect := take (Z.to_nat n) (strt_hash g) ++ uninit (Z.to_nat (n - o)) in
      _ ← put_g (set_strt newvect (strt_nuse g) n g);
      if o <? n then vect ← tablerehash newvect o n; g ← get_g; put_g (set_strt vect (strt_nuse g) (strt_size g) g) else mret ())
    (fun _ g' => ok g' /\ kept g g') (fun _ => False) g.
Proof.
  intros [[cells Hok] [Hw Hmax]] Hk n o Ho. pose proof (Forall2_length _ _ _ (ok_shape _ _ Hok)) as Hlv. rewrite (ok_len _ _ Hok) in Hlv. fold o in Hlv.
  assert (Ho0 : 0 < o) by (destruct (ok_size _ _ Hok) as (k0 & ? & E0); unfold o; rewrite E0; lia).
  assert (Ht : take (Z.to_nat n) (strt_hash g) = strt_hash g) by (apply take_ge; lia). rewrite Ht. set (newvect := strt_hash g ++ _). cbv zeta. apply wp_put.
  destruct (Z.ltb_spec o n) as [Hlt|Hge].
  - destruct (strt_rehash_ok (set_strt newvect (strt_nuse g) n g) g cells k newvect Hok eq_refl Hk) as (h' & vect' & cells' & E & Hr & Hl & Hok').
    + unfold newvect. rewrite length_app, Huninit. fold o n. lia.
    + unfold newvect. rewrite take_app_le by (fold o; lia). apply take_ge. fold o. lia.
    + eapply wp_run; [exact E|]. apply wp_get_g. fold n in Hok'. cbn [strt_nuse strt_size set_strt set_heap].
      split; [split; [|by split]|by apply (kept_relinked g h')]. exists cells'. eapply strt_ok_fields; [exact Hok'|done| |done..]. cbn.
      symmetry. apply take_ge. rewrite Hl. unfold newvect. rewrite length_app, Huninit. lia.
  - assert (o = n) as Eo by lia. apply wp_ret. split; [split; [|by split]|by apply (kept_core g)]. exists cells. eapply strt_ok_fields; [exact Hok|done| |done..].
    cbn. unfold newvect. rewrite Eo, Z.sub_diag. pose proof (Huninit (Z.to_nat 0)) as H0. destruct (uninit (Z.to_nat 0)); [apply app_nil_r|done].
Qed.

(** The allocator never refuses to make a vector smaller. *)
Definition shrinks : Prop := forall g o n, n <= o -> frealloc g o n = true.

(** Shrinking must not run a collection in between. *)
Lemma resize_wp g k : ok g -> 0 <= k <= 30 -> (2 ^ k < strt_size g -> cantryagain g = false \/ shrinks) ->
  wp (luaS_resize frealloc uninit unreachable (2 ^ k)) (fun _ g' => ok g' /\ kept g g') (fun _ => False) g.
Proof.
  intros Hok Hk Hshrink. unfold luaS_resize. apply wp_get_g. set (n := 2 ^ k) in *. set (o := strt_size g) in *.
  destruct (Z.ltb_spec n o) as [Hlt|Hge].
  - specialize (Hshrink Hlt). destruct Hok as [[cells Hok] [Hw Hmax]]. destruct (ok_size _ _ Hok) as (k0 & Hk0 & Eo). fold o in Eo.
    pose proof (Forall2_length _ _ _ (ok_shape _ _ Hok)) as Hlv. rewrite (ok_len _ _ Hok) in Hlv. fold o in Hlv.
    assert (Hn : 0 < n) by (unfold n; lia).
    destruct (strt_rehash_ok g g cells k (strt_hash g) Hok eq_refl Hk) as (h1 & v1 & cells1 & E1 & Hr1 & Hl1 & Hok1); [fold o n; lia|apply take_ge; fold o; lia|].
    fold o n in E1, Hok1. apply wp_bind. eapply wp_run; [exact E1|]. apply wp_get_g. cbn [strt_nuse strt_size set_heap]. fold o.
    set (g1 := set_strt v1 (strt_nuse g) o (set_heap h1 g)). apply wp_set_g.
    assert (Hkept1 : kept g g1) by (by apply kept_relinked). unfold luaM_realloc.
    assert (Hreal : forall B (K : bool -> M B) Q E, (forall b, wp (K b) Q E g1) ->
      wp (luaM_realloc frealloc unreachable (o * sizeof_ptr) (n * sizeof_ptr) ≫= K) Q E g1).
    { intros B K Q E HK. unfold luaM_realloc. apply wp_bind, wp_get_g. destruct Hshrink as [Hshrink|Hs].
      - destruct (frealloc g1 _ _); [apply wp_ret, HK|]. replace (cantryagain g1) with (cantryagain g) by done. rewrite Hshrink. apply wp_ret, HK.
      - rewrite Hs by (unfold sizeof_ptr; lia). apply wp_ret, HK. }
    apply Hreal. intros [|]; apply wp_get_g; cbn [negb].
    + replace (Z.to_nat (n - o)) with 0%nat by lia. pose proof (Huninit 0) as Hu0. destruct (uninit 0) as [|]; [|done]. rewrite app_nil_r. apply wp_put. rewrite (proj2 (Z.ltb_ge _ _)) by lia. apply wp_ret.
      split; [split; [exists cells1|by split]|]; [by eapply strt_ok_fields|]. etrans; [exact Hkept1|]. by apply kept_core.
    + destruct (strt_rehash_ok g1 _ cells1 k0 v1 Hok1 eq_refl Hk0) as (h2 & v2 & cells2 & E2 & Hr2 & Hl2 & Hok2); cbn [strt_size strt_hash set_strt]; [rewrite <- Eo; lia|done|].
      cbn [strt_size strt_nuse set_strt set_heap] in E2, Hok2. rewrite <- Eo in E2, Hok2. change (strt_hash g1) with v1. eapply wp_run; [exact E2|]. apply wp_get_g.
      split; [split; [exists cells2|by split]|]; [|etrans; [exact Hkept1|by apply (kept_relinked g1 h2)]].
      eapply strt_ok_fields; [exact Hok2|done| |done..]. cbn. symmetry. apply take_ge. lia.
  - apply wp_bind, wp_ret, wp_bind. eapply wp_mono; [by apply realloc_wp| |done]. cbn beta. intros b g1 (Hok1 & Hkept1 & Hs1 & _). apply wp_get_g.
    destruct b; cbn [negb]; [|by apply wp_ret]. subst o. rewrite <- Hs1 in Hge |- *.
    eapply wp_mono; [by apply (grown_ok g1 k)| |done]. cbn beta. intros _ g2 [Hok2 Hkept2]. split; [done|by etrans].
Qed.
End memory.
End StringResize.
