(* ===== verification/StringSpec.v ===== *)
(** * Interned strings

    Interning, the cache of C strings, and what holds of the strings in every state the
    operations reach. *)

From S2P Require Import Prelude Effects LuaValue LuaString StringFacts StringTable StringResize.

Module StringSpec.
Import Effects LuaString StringFacts StringTable StringResize.
Open Scope Z_scope.

(** ** The search *)

Definition is_short (h : heap_t) (a : Z) (str : list Z) : Prop :=
  exists ts, h !! a = Some ts /\ ts_tt ts = LUA_VSHRSTR /\ contents ts = str.

(** A dead string that is found is given the current colour. *)
Definition revived (g : global_State) (a : Z) : heap_t :=
  match heap g !! a with
  | Some ts => if isdead g ts then <[a := changewhite ts]> (heap g) else heap g
  | None => heap g
  end.

Lemma revived_core g a : same_core (heap g) (revived g a).
Proof.
  unfold revived. destruct (heap g !! a) as [ts|] eqn:E; [|done]. destruct (isdead g ts); [|done]. apply map_eq. intros b. rewrite !lookup_fmap.
  destruct (decide (b = a)) as [->|]; [by rewrite lookup_insert_eq, E|by rewrite lookup_insert_ne].
Qed.

(** The string is in memory and not about to be freed. *)
Definition not_dead (g : global_State) (a : Z) : Prop := exists ts, heap g !! a = Some ts /\ isdead g ts = false.

Lemma land_lxor_l x y z : Z.land (Z.lxor x y) z = Z.lxor (Z.land x z) (Z.land y z).
Proof. apply Z.bits_inj. intros k. rewrite Z.land_spec, !Z.lxor_spec, !Z.land_spec. by destruct (Z.testbit x k), (Z.testbit y k), (Z.testbit z k). Qed.

Lemma land_bit x n : 0 <= n -> Z.land x (2 ^ n) = 0 \/ Z.land x (2 ^ n) = 2 ^ n.
Proof.
  intros Hn. assert (H : forall k, Z.testbit (Z.land x (2 ^ n)) k = if decide (k = n) then Z.testbit x n else false).
  { intros k. rewrite Z.land_spec, Z.pow2_bits_eqb by done. case_decide as E; [subst; by rewrite Z.eqb_refl, andb_true_r|].
    rewrite (proj2 (Z.eqb_neq _ _)) by congruence. apply andb_false_r. }
  destruct (Z.testbit x n) eqn:E; [right|left]; apply Z.bits_inj; intros k; rewrite H.
  - rewrite Z.pow2_bits_eqb by done. case_decide as Ek; [subst; by rewrite Z.eqb_refl|]. by rewrite (proj2 (Z.eqb_neq _ _)) by congruence.
  - rewrite Z.bits_0. by case_decide.
Qed.

Lemma revived_alive g a : white_ok g -> is_Some (heap g !! a) -> not_dead (set_heap (revived g a) g) a.
Proof.
  intros Hw [ts Ea]. unfold not_dead, revived. rewrite Ea. cbn. destruct (isdead g ts) eqn:Ed; [|by exists ts].
  exists (changewhite ts). rewrite lookup_insert_eq. split; [done|]. unfold isdead, otherwhite, changewhite in *. cbn in *.
  rewrite land_lxor_l. destruct Hw as [Ew|Ew]; rewrite Ew in *.
  - change (Z.lxor 8 WHITEBITS) with (2 ^ 4) in *. destruct (land_bit (marked ts) 4 ltac:(lia)) as [E|E]; rewrite E in *; done.
  - change (Z.lxor 16 WHITEBITS) with (2 ^ 3) in *. destruct (land_bit (marked ts) 3 ltac:(lia)) as [E|E]; rewrite E in *; done.
Qed.

Lemma find_loop_run fuel g str p l :
  chain (heap g) p l -> (forall a ts, a ∈ l -> heap g !! a = Some ts -> shrlen ts = zlen (contents ts)) -> (length l < fuel)%nat ->
  (exists a ts, a ∈ l /\ heap g !! a = Some ts /\ contents ts = str /\ find_loop fuel str p g = Ret (set_heap (revived g a) g) (Some a)) \/
  ((forall a ts, a ∈ l -> heap g !! a = Some ts -> contents ts <> str) /\ find_loop fuel str p g = Ret g None).
Proof.
  revert fuel p. induction l as [|a l IH]; intros fuel p Hc Hsh Hf; (destruct fuel as [|fuel]; [cbn in Hf; lia|]); cbn [find_loop].
  { cbn in Hc. subst p. right. split; [|done]. intros a ts Ha. by apply elem_of_nil in Ha. }
  destruct Hc as (-> & H0 & ts & next & Ea & Eu & Hc). rewrite (proj2 (Z.eqb_neq _ _) H0). unfold mbind, st_bind, obind, get_str. rewrite Ea.
  pose proof (Hsh a ts ltac:(by left) Ea) as Hlen. destruct (decide (contents ts = str)) as [E|Hne].
  - left. exists a, ts. split; [by left|]. split; [done|]. split; [done|]. rewrite Hlen, <- E, Z.eqb_refl, firstn_all, bool_decide_true by done. cbn [andb get_g].
    unfold revived. rewrite Ea. destruct (isdead g ts); [unfold set_str; by rewrite Ea|by destruct g].
  - assert (Hcond : (zlen str =? shrlen ts) && bool_decide (str = take (length str) (contents ts)) = false).
    { destruct (Z.eqb_spec (zlen str) (shrlen ts)) as [El|]; [|done]. apply bool_decide_false. intros Et. apply Hne. rewrite Et. symmetry. apply take_ge. lia. }
    rewrite Hcond. unfold hnext. rewrite Eu. cbn [mret st_ret].
    destruct (IH fuel next Hc) as [(b & tb & Hb & Eb & Ec & Er)|[Hn Er]].
    + intros b tb Hb. apply Hsh. by right.
    + cbn in Hf. lia.
    + left. exists b, tb. split; [by right|done].
    + right. split; [|done]. intros b tb Hb Etb. apply elem_of_cons in Hb as [->|Hb]; [congruence|by eapply Hn].
Qed.

(** The slot of the hash has the string if there is one. *)
Lemma intern_slot g cells str : strt_ok g cells -> exists p l,
  let slot := lmod (LuaValue.luaS_hash str (seed g)) (strt_size g) in
  strt_hash g !! Z.to_nat slot = Some p /\ cells !! Z.to_nat slot = Some l /\ chain (heap g) p l /\ (length l <= size (heap g))%nat /\
  (forall a ts, a ∈ l -> heap g !! a = Some ts -> ts_tt ts = LUA_VSHRSTR /\ shrlen ts = zlen (contents ts)) /\
  (forall a, is_short (heap g) a str -> a ∈ l).
Proof.
  intros Hok. pose proof Hok as [Hs Hnd (k & Hk & Hsz) Hlen Hpl Hnu Hpop]. set (slot := lmod _ _).
  assert (Hr : 0 <= slot < strt_size g) by (unfold slot; rewrite Hsz; apply lmod_range; lia).
  destruct (lookup_lt_is_Some_2 cells (Z.to_nat slot)) as [l Hl]; [lia|]. destruct (Forall2_lookup_r _ _ _ _ _ Hs Hl) as (p & Hp & Hch).
  exists p, l. split; [done|]. split; [done|]. split; [done|]. split; [|split].
  - eapply chain_size; [done|]. rewrite <- (clear_concat _ _ _ Hl) in Hnd. by apply NoDup_app in Hnd as (? & _).
  - intros a ts Ha Ea. destruct (pop_in _ _ _ Hpop a) as (ts' & Ea' & Et); [apply elem_of_concat_lookup; eauto|]. assert (ts' = ts) as -> by congruence.
    split; [done|]. by eapply pop_short.
  - intros a (ts & Ea & Et & Ec). pose proof (pop_all _ _ _ Hpop a ts Ea Et) as Hin. apply elem_of_concat_lookup in Hin as (j & c & Hj & Hac).
    pose proof (Hpl j c a Hj Hac) as Hslot. unfold slot_in in Hslot. rewrite Ea in Hslot. destruct (pop_short _ _ _ Hpop a ts Ea Et) as (_ & _ & Eh).
    rewrite Eh, Ec in Hslot. fold slot in Hslot. congruence.
Qed.

(** ** A new string *)

Lemma add_short g cells a str : strt_ok g cells -> a <> 0 -> heap g !! a = None -> zlen str <= LUAI_MAXSHORTLEN ->
  (forall b, ~ is_short (heap g) b str) ->
  let h := LuaValue.luaS_hash str (seed g) in let slot := lmod h (strt_size g) in
  exists q, strt_hash g !! Z.to_nat slot = Some q /\ forall m e,
    let ts := MkTString LUA_VSHRSTR m e (zlen str) h (Hnext q) str in
    exists cells', strt_ok (set_strt (<[Z.to_nat slot := a]> (strt_hash g)) (strt_nuse g + 1) (strt_size g) (set_heap (<[a := ts]> (heap g)) g)) cells'.
Proof.
  intros Hok Ha0 Ha Hlen Hno h slot. destruct (intern_slot g cells str Hok) as (q & l & Hq & Hl & _). fold h slot in Hq, Hl.
  exists q. split; [done|]. intros m e ts. pose proof Hok as [Hs Hnd Hsz Hlc Hpl Hnu Hpop].
  assert (Hna : a ∉ concat cells) by (intros Hin; destruct (pop_in _ _ _ Hpop a Hin) as (? & ? & _); congruence).
  set (f := slot_in (<[a := ts]> (heap g)) (strt_size g)).
  assert (Hfa : f a = Z.to_nat slot) by (unfold f, slot_in; by rewrite lookup_insert_eq).
  assert (Hfb : forall b, b <> a -> f b = slot_in (heap g) (strt_size g) b) by (intros b Hb; unfold f, slot_in; by rewrite lookup_insert_ne).
  assert (Hsl : (f a < length cells)%nat) by (rewrite Hfa; by eapply lookup_lt_Some).
  exists (push f cells a). pose proof (push_concat f cells a Hsl) as Hp. split; cbn.
  - unfold push. rewrite Hfa, (list_lookup_total_correct _ _ _ Hl). apply Forall2_insert.
    + eapply shape_frame; [done|]. intros b tb Hb Eb. exists tb. rewrite lookup_insert_ne by congruence. done.
    + split; [done|]. split; [done|]. exists ts, q. rewrite lookup_insert_eq. split; [done|]. split; [done|]. apply chain_insert; [by eapply Forall2_lookup_lr|].
      intros Hin. apply Hna, elem_of_concat_lookup. eauto.
  - rewrite Hp. apply NoDup_cons. done.
  - done.
  - by rewrite push_length.
  - fold f. intros j c b Hj Hb. destruct (spread_elem f [a] cells j c b Hj Hb) as [[->%list_elem_of_singleton ?]|(c0 & Hc0 & Hb0)]; [done|].
    assert (b <> a) by (intros ->; apply Hna, elem_of_concat_lookup; eauto). rewrite Hfb by done. by eapply Hpl.
  - rewrite Hp. cbn. lia.
  - destruct Hpop as [P0 Pin Pall Psh Pun]. split.
    + by rewrite lookup_insert_ne.
    + intros b Hb. rewrite Hp in Hb. apply elem_of_cons in Hb as [->|Hb]; [exists ts; by rewrite lookup_insert_eq|].
      rewrite lookup_insert_ne by (by intros ->). by apply Pin.
    + intros b tb [[-> <-]|[Hne Eb]]%lookup_insert_Some Et; rewrite Hp; [by left|right; by eapply Pall].
    + intros b tb [[-> <-]|[Hne Eb]]%lookup_insert_Some Et; [done|by eapply Psh].
    + intros b c tb tc [[-> <-]|[Hb Eb]]%lookup_insert_Some [[-> <-]|[Hc Ec]]%lookup_insert_Some Etb Etc Econ; [done| | |by eapply Pun].
      * destruct (Hno c). by exists tc.
      * destruct (Hno b). by exists tb.
Qed.

Lemma add_long g cells a ts : strt_ok g cells -> a <> 0 -> heap g !! a = None -> ts_tt ts = LUA_VLNGSTR -> strt_ok (set_heap (<[a := ts]> (heap g)) g) cells.
Proof.
  intros [Hs Hnd Hsz Hlc Hpl Hnu Hpop] Ha0 Ha Ht. assert (Hna : a ∉ concat cells) by (intros Hin; destruct (pop_in _ _ _ Hpop a Hin) as (? & ? & _); congruence).
  split; cbn; try done.
  - eapply shape_frame; [done|]. intros b tb Hb Eb. exists tb. rewrite lookup_insert_ne by congruence. done.
  - eapply placed_ext; [|exact Hpl]. intros b Hb. unfold slot_in. by rewrite lookup_insert_ne by (by intros ->).
  - destruct Hpop as [P0 Pin Pall Psh Pun]. split.
    + by rewrite lookup_insert_ne.
    + intros b Hb. rewrite lookup_insert_ne by (by intros ->). by apply Pin.
    + intros b tb [[-> <-]|[Hne Eb]]%lookup_insert_Some Et; [congruence|by eapply Pall].
    + intros b tb [[-> <-]|[Hne Eb]]%lookup_insert_Some Et; [congruence|by eapply Psh].
    + intros b c tb tc [[-> <-]|[Hb Eb]]%lookup_insert_Some [[-> <-]|[Hc Ec]]%lookup_insert_Some Etb Etc Econ; [done|congruence|congruence|by eapply Pun].
Qed.

Section memory.
Context (new_block : global_State -> Z -> option Z) (frealloc : global_State -> Z -> Z -> bool) (uninit : nat -> list Z).
Context (unreachable : global_State -> list Z).
Hypothesis Hnew : forall g n p, new_block g n = Some p -> p <> 0 /\ heap g !! p = None.
Hypothesis Huninit : forall n, length (uninit n) = n.

Abbreviation kept := (kept unreachable).
Abbreviation live := (fun a => forall g, a ∉ unreachable g).

(** ** Interning *)

(** The string [a] is there, and all else is kept. *)
Record created (a : Z) (g g' : global_State) : Prop := {
  c_back : forall b ts', b <> a -> heap g' !! b = Some ts' -> exists ts, heap g !! b = Some ts /\ core ts' = core ts;
  c_keep : forall b ts, heap g !! b = Some ts -> (b = memerrmsg g \/ live b) -> exists ts', heap g' !! b = Some ts' /\ core ts' = core ts;
  c_seed : seed g' = seed g;
  c_msg : memerrmsg g' = memerrmsg g;
  c_flags : gcstopem g' = gcstopem g /\ completestate g' = completestate g /\ gcemergency g' = gcemergency g;
  c_cache : cache_ok g -> cache_ok g' }.

Lemma kept_created a g g' : kept g g' -> created a g g'.
Proof. intros []. split; eauto. Qed.

Lemma kept_then a g g1 g2 : kept g g1 -> created a g1 g2 -> created a g g2.
Proof.
  intros H1 H2. destruct (k_flags _ _ _ H1) as (F1 & F2 & F3), (c_flags _ _ _ H2) as (F1' & F2' & F3'). split.
  - intros b tb Hb Eb. destruct (c_back _ _ _ H2 b tb Hb Eb) as (t1 & E1 & Ec). destruct (k_back _ _ _ H1 b t1 E1) as (t0 & E0 & Ec'). exists t0. split; [done|congruence].
  - intros b tb Eb Hl. destruct (k_keep _ _ _ H1 b tb Eb Hl) as (t1 & E1 & Ec). destruct (c_keep _ _ _ H2 b t1 E1) as (t2 & E2 & Ec'); [by rewrite (k_msg _ _ _ H1)|].
    exists t2. split; [done|congruence].
  - rewrite (c_seed _ _ _ H2). apply H1.
  - rewrite (c_msg _ _ _ H2). apply H1.
  - rewrite F1', F2', F3'. done.
  - intros Hc. by apply H2, H1.
Qed.

(** A string at a new address. *)
Lemma created_insert g a ts v nu sz : heap g !! a = None -> created a g (set_strt v nu sz (set_heap (<[a := ts]> (heap g)) g)).
Proof.
  intros Ha. split; try done; cbn.
  - intros b tb Hb Eb. rewrite lookup_insert_ne in Eb by done. by exists tb.
  - intros b tb Eb _. exists tb. rewrite lookup_insert_ne by congruence. done.
  - intros ((tm & Em & Ec) & Hl & Hr). split; [|split; [done|]]; cbn.
    + exists tm. rewrite lookup_insert_ne by congruence. done.
    + eapply Forall_impl; [exact Hr|]. intros row [Hlen Hrow]. split; [done|]. eapply Forall_impl; [exact Hrow|].
      intros p (tp & Ep & Hz). exists tp. cbn. rewrite lookup_insert_ne by congruence. done.
Qed.

Lemma not_short g g' str : kept g g' -> (forall b, ~ is_short (heap g) b str) -> forall b, ~ is_short (heap g') b str.
Proof.
  intros Hk Hno b (ts & E & Et & Ec). destruct (k_back _ _ _ Hk b ts E) as (ts0 & E0 & Ecore). apply (Hno b). exists ts0.
  unfold core in Ecore. split; [done|]. split; congruence.
Qed.

Lemma growstrtab_wp g : ok g ->
  wp (growstrtab frealloc uninit unreachable) (fun _ g' => ok g' /\ kept g g' /\ strt_nuse g' < MAX_INT)
    (fun g' => ok g' /\ kept g g' /\ strt_nuse g' = MAX_INT) g.
Proof.
  intros Hok. unfold growstrtab. apply wp_get_g, wp_bind.
  assert (Hgrow : forall g1, ok g1 -> kept g g1 -> strt_nuse g1 < MAX_INT ->
    wp (g ← get_g; if strt_size g <=? MAXSTRTB / 2 then luaS_resize frealloc uninit unreachable (strt_size g * 2) else mret ())
      (fun _ g' => ok g' /\ kept g g' /\ strt_nuse g' < MAX_INT) (fun g' => ok g' /\ kept g g' /\ strt_nuse g' = MAX_INT) g1).
  { intros g1 Hok1 Hk1 Hn1. apply wp_get_g. destruct (Z.leb_spec (strt_size g1) (MAXSTRTB / 2)) as [Hle|]; [|by apply wp_ret].
    destruct Hok1 as [[cells Hs] Hrest]. destruct (ok_size _ _ Hs) as (k & Hk & Esz).
    assert (Hk30 : k < 30) by (apply (Z.pow_lt_mono_r_iff 2); [lia|lia|]; change (MAXSTRTB / 2) with (2 ^ 30 - 1) in Hle; lia).
    assert (E2 : strt_size g1 * 2 = 2 ^ (k + 1)) by (rewrite Z.pow_add_r, Esz by lia; lia). rewrite E2.
    eapply wp_mono; [apply (resize_wp frealloc uninit unreachable Huninit g1 (k + 1)); [split; [by exists cells|done]|lia|]| |done].
    - rewrite Esz, Z.pow_add_r by lia. lia.
    - intros _ g2 [Hok2 Hk2]. split; [done|]. split; [by etrans|]. pose proof (k_nuse _ _ _ Hk2). lia. }
  destruct (Z.eqb_spec (strt_nuse g) MAX_INT) as [Hmax|Hne].
  - apply wp_bind. eapply wp_mono; [by apply (fullgc_wp unreachable g (fun _ => False))| |done]. cbn beta. intros _ g1 (Hok1 & Hk1 & _). apply wp_get_g.
    destruct (Z.eqb_spec (strt_nuse g1) MAX_INT) as [|Hne1]; [by apply wp_throw|]. apply wp_ret, Hgrow; [done|done|]. destruct Hok1 as (_ & _ & ?). lia.
  - apply wp_ret, Hgrow; [done|done|]. destruct Hok as (_ & _ & ?). lia.
Qed.

Lemma revived_ok g cells a : strt_ok g cells -> strt_ok (set_heap (revived g a) g) cells.
Proof.
  intros [Hs Hnd Hsz Hlc Hpl Hnu Hpop]. split; cbn; try done.
  - eapply shape_frame; [done|]. intros b tb Hb Eb. unfold revived. destruct (heap g !! a) as [ta|] eqn:Ea; [|by exists tb].
    destruct (isdead g ta); [|by exists tb]. destruct (decide (b = a)) as [->|]; [|exists tb; by rewrite lookup_insert_ne].
    exists (changewhite ta). rewrite lookup_insert_eq. split; [done|]. by replace tb with ta by congruence.
  - eapply placed_ext; [|exact Hpl]. intros b _. by apply slot_core, revived_core.
  - eapply pop_core; [apply revived_core|done|done].
Qed.

Lemma short_core h h' a str : same_core h h' -> is_short h a str -> is_short h' a str.
Proof.
  intros Hc (ts & E & Et & Ec). destruct (core_lookup _ _ _ _ Hc E) as (ts' & E' & Ecore). exists ts'. unfold core in Ecore. split; [done|]. split; congruence.
Qed.

(** The string is not in the table: it is created and linked into its slot. *)
Lemma link_wp g1 g str slot h : ok g1 -> kept g g1 -> strt_nuse g1 < MAX_INT -> zlen str <= LUAI_MAXSHORTLEN -> (forall b, ~ is_short (heap g) b str) ->
  h = LuaValue.luaS_hash str (seed g) -> slot = lmod h (strt_size g1) ->
  wp (ts ← createstrobj new_block unreachable (zlen str) LUA_VSHRSTR h (Hnext 0) (u8 (zlen str)) str;
      g ← get_g; old ← vget (strt_hash g) slot; o ← get_str ts; _ ← set_str ts (set_hnext old o);
      g ← get_g; vect ← vset (strt_hash g) slot ts; _ ← put_g (set_strt vect (strt_nuse g + 1) (strt_size g) g); mret ts)
    (fun a g' => ok g' /\ created a g g' /\ is_short (heap g') a str /\ not_dead g' a)
    (fun g' => ok g' /\ kept g g' /\ new_block g' (sizelstring (zlen str)) = None) g1.
Proof.
  intros Hok1 Hk1 Hn1 Hlen Hno Eh Eslot. rewrite (wrap_small 8 (zlen str)) by (unfold LUAI_MAXSHORTLEN in Hlen; split; lia). unfold createstrobj. apply wp_bind, wp_bind.
  eapply wp_mono; [apply (malloc_wp new_block unreachable Hnew _ g1 Hok1)| |intros g' (? & ? & ?); split; [done|]; split; [by etrans|done]].
  cbn beta. intros a g2 (Hok2 & Hk2 & Hsz & Ha0 & Ha). apply wp_get_g, wp_put, wp_ret. assert (Hk : kept g g2) by (by etrans).
  destruct Hok2 as [[cells Hs2] [Hw2 Hmax2]]. assert (Hno2 := not_short _ _ str Hk Hno).
  destruct (add_short g2 cells a str Hs2 Ha0 Ha Hlen Hno2) as (q & Hq & Hadd). rewrite (k_seed _ _ _ Hk), <- Eh, Hsz, <- Eslot in Hq, Hadd.
  set (o := MkTString LUA_VSHRSTR _ 0 _ h (Hnext 0) str). apply wp_get_g. cbn [strt_hash set_heap]. eapply wp_run; [by apply vget_ret|].
  eapply wp_run; [unfold get_str; cbn [heap set_heap]; by rewrite lookup_insert_eq|]. eapply wp_run; [unfold set_str; cbn [heap set_heap]; by rewrite lookup_insert_eq|].
  apply wp_get_g. cbn [strt_hash set_heap]. eapply wp_run; [apply vset_ret; eauto|]. apply wp_put, wp_ret. cbn [strt_nuse strt_size set_heap heap].
  rewrite insert_insert_eq. destruct (Hadd (luaC_white g2) 0) as [cells' Hok']. rewrite <- Hsz in Hok'.
  split; [split; [|split; [exact Hw2|]]|split; [|split]].
  - exists cells'. eapply strt_ok_fields; [exact Hok'|done..].
  - cbn. pose proof (k_nuse _ _ _ Hk2). lia.
  - eapply kept_then; [exact Hk|]. apply (created_insert g2 a). done.
  - exists (set_hnext q o). cbn. rewrite lookup_insert_eq. done.
  - exists (set_hnext q o). cbn. rewrite lookup_insert_eq. split; [done|]. unfold isdead, otherwhite.
    change (negb (Z.land (luaC_white g2) (Z.lxor (currentwhite g2) WHITEBITS) =? 0) = false). unfold luaC_white. by destruct Hw2 as [-> | ->].
Qed.

(** There is no block for a string, or no number for one more. *)
Definition out_of_memory (n : Z) (g : global_State) : Prop := new_block g n = None \/ strt_nuse g = MAX_INT.

Lemma intern_wp g str : ok g -> zlen str <= LUAI_MAXSHORTLEN ->
  wp (internshrstr new_block frealloc uninit unreachable str)
    (fun a g' => ok g' /\ created a g g' /\ is_short (heap g') a str /\ not_dead g' a /\
      (forall b, is_short (heap g) b str -> a = b /\ g' = set_heap (revived g a) g))
    (fun g' => ok g' /\ kept g g' /\ (forall b, ~ is_short (heap g) b str) /\ out_of_memory (sizelstring (zlen str)) g') g.
Proof.
  intros Hok Hlen. unfold internshrstr. apply wp_get_g. pose proof Hok as [[cells Hs] [Hw Hmax]].
  destruct (intern_slot g cells str Hs) as (p & l & Hp & Hl & Hch & Hsize & Hsh & Hall). set (h := LuaValue.luaS_hash str (seed g)) in *.
  eapply wp_run; [by apply vget_ret|].
  destruct (find_loop_run (S (size (heap g))) g str p l Hch) as [(a & ts & Ha & Ea & Ec & Er)|[Hn Er]]; [intros a ts Ha Ea; by apply (Hsh a ts)|lia| |].
  - destruct (Hsh a ts Ha Ea) as [Et _]. assert (Hshort : is_short (heap g) a str) by (by exists ts). eapply wp_run; [exact Er|]. apply wp_ret.
    split; [split; [exists cells; by apply revived_ok|by split]|]. split; [apply kept_created, kept_core; try done; apply revived_core|].
    split; [by apply (short_core (heap g)), Hshort; apply revived_core|]. split; [apply revived_alive; eauto|]. intros b (tb & Eb & Etb & Ecb). split; [|done].
    eapply (pop_uniq _ _ _ (ok_pop _ _ Hs)); [exact Ea|exact Eb|done|done|congruence].
  - assert (Hno : forall b, ~ is_short (heap g) b str).
    { intros b Hb. destruct Hb as (tb & Eb & Etb & Ecb). apply (Hn b tb); [apply Hall; by exists tb|done|done]. }
    eapply wp_run; [exact Er|]. cbn iota. apply wp_get_g, wp_bind.
    destruct (Z.leb_spec (strt_size g) (strt_nuse g)) as [Hge|Hlt].
    + eapply wp_mono; [by apply growstrtab_wp| |intros g' (? & ? & ?); split_and!; [done|done|done|by right]]. cbn beta. intros _ g1 (Hok1 & Hk1 & Hn1). apply wp_get_g.
      eapply wp_mono; [by eapply link_wp| |intros g' (? & ? & ?); split_and!; [done|done|done|by left]]. cbn beta. intros a g2 (? & ? & ? & ?). split; [done|]. split; [done|]. split; [done|]. split; [done|]. intros b Hb. by destruct (Hno b).
    + apply wp_ret, wp_get_g. destruct (ok_size _ _ Hs) as (k & Hk & Esz). assert (2 ^ k <= 2 ^ 30) by (apply Z.pow_le_mono_r; lia).
      eapply wp_mono; [eapply (link_wp g g); try done; unfold MAX_INT; lia| |intros g' (? & ? & ?); split_and!; [done|done|done|by left]]. cbn beta. intros a g2 (? & ? & ? & ?). split; [done|]. split; [done|]. split; [done|]. split; [done|]. intros b Hb. by destruct (Hno b).
Qed.

(** ** Strings of any length *)

Definition has_string (h : heap_t) (a : Z) (str : list Z) : Prop := exists ts, h !! a = Some ts /\ contents ts = str.

Lemma newlstr_wp g str : ok g ->
  wp (luaS_newlstr new_block frealloc uninit unreachable str)
    (fun a g' => ok g' /\ created a g g' /\ has_string (heap g') a str /\ (zlen str <= LUAI_MAXSHORTLEN -> is_short (heap g') a str))
    (fun g' => ok g' /\ kept g g') g.
Proof.
  intros Hok. unfold luaS_newlstr. destruct (Z.leb_spec (zlen str) LUAI_MAXSHORTLEN) as [Hle|Hgt].
  { eapply wp_mono; [by apply intern_wp| |by intros g' (? & ? & _)]. cbn beta. intros a g' (? & ? & (ts & ? & ? & ?) & _). split; [done|]. split; [done|]. split; [by exists ts|by exists ts]. }
  destruct (MAX_SIZE - sizeof_TString <=? zlen str); [by apply wp_throw|]. unfold luaS_createlngstrobj, createstrobj. apply wp_get_g, wp_bind.
  eapply wp_mono; [by apply (malloc_wp new_block unreachable Hnew)| |by intros g' (? & ? & _)]. cbn beta. intros a g1 (Hok1 & Hk1 & _ & Ha0 & Ha). apply wp_get_g, wp_put, wp_ret.
  destruct Hok1 as [[cells Hs] Hrest]. split; [split; [exists cells; by apply add_long|done]|].
  split; [eapply kept_then; [exact Hk1|]; by apply (created_insert g1 a _ (strt_hash g1) (strt_nuse g1) (strt_size g1))|].
  split; [|lia]. eexists. cbn. rewrite lookup_insert_eq. done.
Qed.

(** ** C strings *)

Lemma cache_find_run g str row : Forall (entry_ok g) row ->
  (exists p, p ∈ row /\ cache_find str row g = Ret g (Some p) /\ has_string (heap g) p str) \/ cache_find str row g = Ret g None.
Proof.
  induction 1 as [|p row (ts & Ep & Hz) _ IH]; [by right|]. cbn [cache_find]. unfold mbind, st_bind, obind, get_str. rewrite Ep.
  destruct (bool_decide (str = c_string (contents ts))) eqn:E.
  - left. exists p. apply bool_decide_eq_true in E. split; [by left|]. split; [done|]. exists ts. split; [done|congruence].
  - destruct IH as [(q & Hq & Er & Hh)|Er]; [left; exists q; split; [by right|done]|by right].
Qed.

Lemma cache_row g i row : cache_ok g -> strcache g !! i = Some row -> length row = 2%nat /\ Forall (entry_ok g) row.
Proof. intros (_ & _ & H) Hi. by eapply Forall_lookup_1 in H. Qed.

(** A row with other entries that are all right. *)
Lemma set_row_ok g i row : cache_ok g -> length row = 2%nat -> Forall (entry_ok g) row -> cache_ok (set_strcache (<[i := row]> (strcache g)) g).
Proof. intros (Hm & Hl & Hr) Hlen Hrow. split; [done|]. split; [cbn; by rewrite length_insert|]. apply Forall_insert; [done|]. done. Qed.

Lemma ok_cache g c : ok g -> ok (set_strcache c g).
Proof. intros [[cells Hs] Hr]. split; [|done]. exists cells. by eapply strt_ok_fields. Qed.

Lemma new_wp g addr str : ok g -> cache_ok g -> c_string str = str ->
  wp (luaS_new new_block frealloc uninit unreachable addr str) (fun a g' => ok g' /\ cache_ok g' /\ has_string (heap g') a str)
    (fun g' => ok g' /\ cache_ok g') g.
Proof.
  intros Hok Hc Hz. unfold luaS_new. apply wp_get_g. set (i := Z.to_nat _).
  assert (Hi : (i < 53)%nat) by (unfold i, STRCACHE_N; pose proof (Z.mod_pos_bound (u32 addr) 53); lia).
  destruct (strcache g !! i) as [row|] eqn:Erow; [|apply lookup_ge_None in Erow; destruct Hc as (_ & Hl & _); lia].
  destruct (cache_row g i row Hc Erow) as [Hlen Hrow]. destruct (cache_find_run g str row Hrow) as [(p & Hp & Er & Hh)|Er]; (eapply wp_run; [exact Er|]); cbn iota.
  { by apply wp_ret. }
  destruct row as [|p0 [|p1 [|]]]; try done. cbn [take app]. change (Z.to_nat STRCACHE_M - 1)%nat with 1%nat. cbn [take]. apply wp_put.
  apply Forall_cons in Hrow as [H0 Hrow]. set (g1 := set_strcache _ g). assert (Hok1 : ok g1) by (by apply ok_cache).
  assert (Hc1 : cache_ok g1) by (apply set_row_ok; [done|done|by repeat constructor]). apply wp_bind.
  eapply wp_mono; [by apply newlstr_wp| |intros g' [? Hk]; split; [done|by apply (k_cache _ _ _ Hk)]]. cbn beta. intros a g2 (Hok2 & Hcr & Hstr & _).
  pose proof (c_cache _ _ _ Hcr Hc1) as Hc2. apply wp_get_g. destruct (strcache g2 !! i) as [row2|] eqn:Erow2; [|apply lookup_ge_None in Erow2; destruct Hc2 as (_ & Hl & _); lia].
  destruct (cache_row g2 i row2 Hc2 Erow2) as [Hlen2 Hrow2]. apply wp_put, wp_ret. split; [by apply ok_cache|]. split; [|done].
  destruct Hstr as (ts & Ea & Ec). apply set_row_ok; [done|destruct row2; [done|exact Hlen2]|].
  apply Forall_cons. split; [exists ts; by rewrite Ec|by apply Forall_drop].
Qed.
End memory.
End StringSpec.
