(* ===== verification/StringTheorems.v ===== *)
(** * Correctness of the string table

    The states that sequences of operations reach, and the theorems on them. *)

From S2P Require Import Prelude Effects LuaValue LuaString StringFacts StringTable StringResize StringSpec.

Module StringTheorems.
Import Effects LuaString StringFacts StringTable StringResize StringSpec.
Open Scope Z_scope.

Section memory.
Context (new_block : global_State -> Z -> option Z) (frealloc : global_State -> Z -> Z -> bool) (uninit : nat -> list Z).
Context (unreachable : global_State -> list Z).
Hypothesis Hnew : forall g n p, new_block g n = Some p -> p <> 0 /\ heap g !! p = None.
Hypothesis Huninit : forall n, length (uninit n) = n.

(** ** Errors *)

(** [m] raises no other error than the one of [luaM_error]. *)
Definition memory_error_only {A} (m : M A) : Prop := forall g g' e, m g = Throw g' e -> e = "not enough memory"%string.

Lemma only_bind {A B} (m : M A) (k : A -> M B) : memory_error_only m -> (forall a, memory_error_only (k a)) -> memory_error_only (m ≫= k).
Proof.
  intros Hm Hk g g' e. unfold mbind, st_bind, obind. destruct (m g) as [g1 a|g1 e1|] eqn:E; [apply Hk|intros [= _ <-]; by eapply Hm|done].
Qed.
Lemma only_ret {A} (a : A) : memory_error_only (mret a).
Proof. by intros g g' e [=]. Qed.
Lemma only_stuck {A} : memory_error_only (@stuck A).
Proof. by intros g g' e [=]. Qed.
Lemma only_get : memory_error_only get_g.
Proof. by intros g g' e [=]. Qed.
Lemma only_put g0 : memory_error_only (put_g g0).
Proof. by intros g g' e [=]. Qed.
Lemma only_get_str p : memory_error_only (get_str p).
Proof. intros g g' e. unfold get_str. by destruct (_ !! _). Qed.
Lemma only_set_str p ts : memory_error_only (set_str p ts).
Proof. intros g g' e. unfold set_str. by destruct (_ !! _). Qed.
Lemma only_throw {A} : memory_error_only (throw "not enough memory" : M A).
Proof. by intros g g' e [=]. Qed.

Create HintDb errors discriminated.
#[local] Hint Resolve only_ret only_stuck only_get only_put only_get_str only_set_str only_throw : errors.
#[local] Hint Opaque get_g put_g get_str set_str mbind mret throw : errors.

(** One step through a program. *)
Ltac only_step := first [solve [auto with errors] | apply only_bind; [|intros ?] | case_match].
Ltac only_memory := repeat only_step.

Lemma only_clear n i v : memory_error_only (clear_loop n i v).
Proof. revert i v. induction n; intros i v; cbn [clear_loop]; unfold vset; only_memory. Qed.
#[local] Hint Resolve only_clear : errors.
Lemma only_list fuel p v n : memory_error_only (rehash_list fuel p v n).
Proof. revert p v. induction fuel; intros p v; cbn [rehash_list]; unfold vset, vget, hnext; only_memory. Qed.
#[local] Hint Resolve only_list : errors.
Lemma only_loop n i v m : memory_error_only (rehash_loop n i v m).
Proof. revert i v. induction n; intros i v; cbn [rehash_loop]; unfold vset, vget; only_memory. Qed.
#[local] Hint Resolve only_loop : errors.
Lemma only_remove fuel slot prev p ts : memory_error_only (remove_loop fuel slot prev p ts).
Proof. revert prev p. induction fuel; intros prev p; cbn [remove_loop]; unfold vset, hnext; only_memory. Qed.
#[local] Hint Resolve only_remove : errors.
Lemma only_free l : memory_error_only (free_all l).
Proof. induction l; cbn [free_all]; unfold freeobj, luaS_remove, vget; only_memory. Qed.
#[local] Hint Resolve only_free : errors.
Lemma only_fullgc : memory_error_only (luaC_fullgc unreachable).
Proof. unfold luaC_fullgc, luaS_clearcache. only_memory. Qed.
#[local] Hint Resolve only_fullgc : errors.
Lemma only_find fuel str p : memory_error_only (find_loop fuel str p).
Proof. revert p. induction fuel; intros p; cbn [find_loop]; unfold hnext; only_memory. Qed.
#[local] Hint Resolve only_find : errors.
Lemma only_intern str : memory_error_only (internshrstr new_block frealloc uninit unreachable str).
Proof. unfold internshrstr, growstrtab, luaS_resize, luaM_realloc, tablerehash, createstrobj, luaM_malloc, vget, vset. only_memory. Qed.

(** ** Shrinking *)

Lemma ok_flags g a b : ok g -> ok (set_flags a b g).
Proof. intros [[cells Hs] Hr]. split; [|done]. exists cells. by eapply strt_ok_fields. Qed.

Lemma checkSizes_wp g : ok g -> gcstopem g = true \/ shrinks frealloc ->
  wp (checkSizes frealloc uninit unreachable) (fun _ g' => ok g' /\ kept unreachable g g') (fun _ => False) g.
Proof.
  intros Hok Hst. unfold checkSizes. apply wp_get_g. destruct (negb (gcemergency g)); [|by apply wp_ret].
  destruct (Z.ltb_spec (strt_nuse g) (strt_size g / 4)) as [Hlt|]; [|by apply wp_ret].
  pose proof Hok as [[cells Hs] _]. destruct (ok_size _ _ Hs) as (k & Hk & Esz). rewrite (ok_nuse _ _ Hs) in Hlt.
  assert (Hk2 : 2 <= k).
  { destruct (decide (2 <= k)); [done|]. assert (2 ^ k <= 2 ^ 1) by (apply Z.pow_le_mono_r; lia). assert (strt_size g / 4 = 0) by (apply Z.div_small; rewrite Esz; lia). lia. }
  assert (E2 : strt_size g / 2 = 2 ^ (k - 1)) by (rewrite Esz; replace k with (k - 1 + 1) at 1 by lia; rewrite Z.pow_add_r by lia; apply Z.div_mul; lia).
  rewrite E2. apply (resize_wp frealloc uninit unreachable Huninit); [done|lia|]. intros _. unfold cantryagain. destruct Hst as [-> | ?]; [left; apply andb_false_r|by right].
Qed.

Lemma kept_flags g a b : cache_ok g -> cache_ok (set_flags a b g).
Proof. done. Qed.

Lemma swpend_wp g : ok g -> cache_ok g ->
  wp (singlestep_swpend frealloc uninit unreachable) (fun _ g' => ok g' /\ cache_ok g') (fun _ => False) g.
Proof.
  intros Hok Hc. unfold singlestep_swpend. apply wp_get_g, wp_put, wp_bind. eapply wp_mono; [apply checkSizes_wp; [by apply ok_flags|by left]| |done].
  cbn beta. intros _ g' [Hok' Hk]. apply wp_get_g. split; [by apply ok_flags|]. by apply kept_flags, (k_cache _ _ _ Hk).
Qed.

(** ** The first state *)

Lemma recolor_one g cells a ts m : strt_ok g cells -> heap g !! a = Some ts ->
  strt_ok (set_heap (<[a := set_marked m ts]> (heap g)) g) cells /\ same_core (heap g) (<[a := set_marked m ts]> (heap g)).
Proof.
  intros [Hs Hnd Hsz Hlc Hpl Hnu Hpop] Ha. assert (Hc : same_core (heap g) (<[a := set_marked m ts]> (heap g))).
  { apply map_eq. intros b. rewrite !lookup_fmap. destruct (decide (b = a)) as [->|]; [by rewrite lookup_insert_eq, Ha|by rewrite lookup_insert_ne]. }
  split; [|done]. split; cbn; try done.
  - eapply shape_frame; [done|]. intros b tb Hb Eb. destruct (decide (b = a)) as [->|]; [|exists tb; by rewrite lookup_insert_ne].
    exists (set_marked m ts). rewrite lookup_insert_eq. split; [done|]. by replace tb with ts by congruence.
  - eapply placed_ext; [|exact Hpl]. intros b _. by apply slot_core.
  - by eapply pop_core.
Qed.

Lemma fix_run g p ts : heap g !! p = Some ts -> exists m, luaC_fix p g = Ret (set_heap (<[p := set_marked m ts]> (heap g)) g) ().
Proof. intros E. eexists. unfold luaC_fix, mbind, st_bind, obind, get_str. rewrite E. unfold set_str. rewrite E. done. Qed.

Lemma first_table sd : exists vect, tablerehash (uninit (Z.to_nat MINSTRTABSIZE)) 0 MINSTRTABSIZE (new_global sd) = Ret (new_global sd) vect /\
  ok (set_strt vect 0 MINSTRTABSIZE (new_global sd)).
Proof.
  destruct (tablerehash_run 0 128 (new_global sd) (uninit 128) []) as (h' & vect & cells & E & Hr & Hs & Hl & Hp & _).
  - by rewrite Huninit.
  - constructor.
  - constructor.
  - intros a Ha. by apply elem_of_nil in Ha.
  - assert (h' = ∅) as ->. { unfold relinked in Hr. cbn in Hr. rewrite fmap_empty in Hr. symmetry in Hr. by apply fmap_empty_iff in Hr. }
    exists vect. split; [exact E|]. apply Permutation_nil_r in Hp. split; [|split; [by left|done]]. exists cells. split; cbn; rewrite ?Hp.
    + done.
    + constructor.
    + by exists 7.
    + done.
    + intros j c a Hj Ha. assert (Hin : a ∈ concat cells) by (apply elem_of_concat_lookup; eauto). rewrite Hp in Hin. by apply elem_of_nil in Hin.
    + done.
    + split; try done. intros a Ha. by apply elem_of_nil in Ha.
Qed.

Lemma strings_open_wp sd : wp (f_luaopen new_block frealloc uninit unreachable) (fun _ g => ok g /\ cache_ok g) (fun _ => True) (new_global sd).
Proof.
  unfold f_luaopen, luaS_init. apply wp_bind, wp_get_g, wp_bind. unfold luaM_realloc. apply wp_get_g. destruct (first_table sd) as (vect & E & Hok).
  assert (Hgo : wp (vect ← tablerehash (uninit (Z.to_nat MINSTRTABSIZE)) 0 MINSTRTABSIZE; g ← get_g;
      _ ← put_g (set_strt vect (strt_nuse g) MINSTRTABSIZE g); msg ← luaS_newlstr new_block frealloc uninit unreachable MEMERRMSG;
      g ← get_g; _ ← put_g (set_memerrmsg msg g); _ ← luaC_fix msg; g ← get_g;
      put_g (set_strcache (replicate (Z.to_nat STRCACHE_N) (replicate (Z.to_nat STRCACHE_M) msg)) g))
    (fun _ => wp (g ← get_g; put_g (set_flags (gcstopem g) true g)) (fun _ g => ok g /\ cache_ok g) (fun _ => True)) (fun _ => True) (new_global sd)).
  - eapply wp_run; [exact E|]. apply wp_get_g, wp_put. change (strt_nuse (new_global sd)) with 0. apply wp_bind.
    eapply wp_mono; [by apply (newlstr_wp new_block frealloc uninit unreachable Hnew Huninit)| |done]. cbn beta. intros a g1 (Hok1 & _ & (ts & Ea & Ec) & _).
    apply wp_get_g, wp_put. destruct (fix_run (set_memerrmsg a g1) a ts Ea) as [m Efix].
    destruct Hok1 as [[cells Hs] Hrest]. destruct (recolor_one g1 cells a ts m Hs Ea) as [Hs' Hcore].
    eapply wp_run; [exact Efix|]. apply wp_get_g, wp_set_g, wp_get_g, wp_set_g.
    split; [split; [|done]; exists cells; by eapply strt_ok_fields|].
    assert (He : entry_ok (set_heap (<[a := set_marked m ts]> (heap g1)) g1) a) by (exists (set_marked m ts); cbn; rewrite lookup_insert_eq, Ec; done).
    split; [exists (set_marked m ts); cbn; rewrite lookup_insert_eq; done|]. split; [done|]. cbn [strcache set_flags set_strcache].
    apply Forall_replicate. split; [done|]. by apply Forall_replicate.
  - destruct (frealloc _ _ _); [apply wp_ret; exact Hgo|]. change (cantryagain (new_global sd)) with false. apply wp_ret. by apply wp_throw.
Qed.

(** ** Sequences of operations *)

Inductive op :=
  | Newlstr (str : list Z)
  | New (addr : Z) (str : list Z)
  | Fullgc
  | Swpend
  | Gencycle.

(** C strings have no zero byte.  The generational collector is safe with an allocator that
    can always shrink a vector. *)
Definition op_ok (o : op) : Prop := match o with New _ str => c_string str = str | Gencycle => shrinks frealloc | _ => True end.

Definition run_op (o : op) : M unit :=
  match o with
  | Newlstr str => _ ← luaS_newlstr new_block frealloc uninit unreachable str; mret ()
  | New addr str => _ ← luaS_new new_block frealloc uninit unreachable addr str; mret ()
  | Fullgc => luaC_fullgc unreachable
  | Swpend => singlestep_swpend frealloc uninit unreachable
  | Gencycle => finishgencycle frealloc uninit unreachable
  end.

(** The states after the state is opened, whatever the operations return or raise. *)
Inductive reaches : global_State -> Prop :=
  | reaches_open sd g : f_luaopen new_block frealloc uninit unreachable (new_global sd) = Ret g () -> reaches g
  | reaches_ret g o g' : reaches g -> op_ok o -> run_op o g = Ret g' () -> reaches g'
  | reaches_throw g o g' msg : reaches g -> op_ok o -> run_op o g = Throw g' msg -> reaches g'.

Lemma op_wp g o : ok g -> cache_ok g -> op_ok o -> wp (run_op o) (fun _ g' => ok g' /\ cache_ok g') (fun g' => ok g' /\ cache_ok g') g.
Proof.
  intros Hok Hc Ho. destruct o as [str|addr str| | |]; cbn [run_op].
  - apply wp_bind. eapply wp_mono; [by apply (newlstr_wp new_block frealloc uninit unreachable Hnew Huninit)| |]; cbn beta.
    + intros a g' (? & Hcr & _). apply wp_ret. split; [done|]. by apply (c_cache _ _ _ _ Hcr).
    + intros g' [? Hk]. split; [done|]. by apply (k_cache _ _ _ Hk).
  - apply wp_bind. eapply wp_mono; [by apply (new_wp new_block frealloc uninit unreachable Hnew Huninit)| |done]. cbn beta. intros a g' (? & ? & _). by apply wp_ret.
  - eapply wp_mono; [by apply (fullgc_wp unreachable g (fun _ => False))| |done]. cbn beta. intros _ g' (? & Hk & _). split; [done|]. by apply (k_cache _ _ _ Hk).
  - eapply wp_mono; [by apply swpend_wp|done|done].
  - eapply wp_mono; [apply checkSizes_wp; [done|by right]| |done]. cbn beta. intros _ g' [? Hk]. split; [done|]. by apply (k_cache _ _ _ Hk).
Qed.

Lemma reaches_ok g : reaches g -> ok g /\ cache_ok g.
Proof.
  induction 1 as [sd g E|g o g' _ [Hok Hc] Ho E|g o g' msg _ [Hok Hc] Ho E].
  - pose proof (strings_open_wp sd) as H. unfold wp in H. by rewrite E in H.
  - pose proof (op_wp g o Hok Hc Ho) as H. unfold wp in H. by rewrite E in H.
  - pose proof (op_wp g o Hok Hc Ho) as H. unfold wp in H. by rewrite E in H.
Qed.

Lemma short_unique g a b str : ok g -> is_short (heap g) a str -> is_short (heap g) b str -> a = b.
Proof.
  intros [[cells Hs] _] (ta & Ea & Eta & Eca) (tb & Eb & Etb & Ecb). eapply (pop_uniq _ _ _ (ok_pop _ _ Hs)); [exact Ea|exact Eb|done|done|congruence].
Qed.

(** ** Theorems *)

(** C11: in every state that interning, C strings, collections and resizing reach, two short
    strings are the same object exactly when they have the same contents: [eqshrstr], which
    compares addresses, is equality of strings. *)
Theorem short_strings_interned g a b s t :
  reaches g -> is_short (heap g) a s -> is_short (heap g) b t -> a = b <-> s = t.
Proof.
  intros [Hok _]%reaches_ok Ha Hb. split.
  - intros <-. destruct Ha as (ts & E & _ & <-), Hb as (ts' & E' & _ & <-). congruence.
  - intros <-. by eapply short_unique.
Qed.

(** C13: no operation on a state that is reached has undefined behaviour, follows a list past
    its end or runs for ever: it returns or raises an error, and leaves a state in which the
    table is well formed, the count is right and no larger than an [int], and the cache refers
    to strings in memory.  The operations are the creation of strings, emergency collections,
    the end of the sweep in an incremental collection, and, if the allocator never refuses to
    shrink a vector, the end of a generational collection. *)
Theorem string_ops_safe g o : reaches g -> op_ok o ->
  match run_op o g with Ret g' _ | Throw g' _ => ok g' /\ cache_ok g' | Stuck => False end.
Proof. intros [Hok Hc]%reaches_ok Ho. exact (op_wp g o Hok Hc Ho). Qed.

(** C12: [internshrstr] returns the one string with the given contents, not dead: the one that
    is there, and then nothing else changes, or a new one. Strings the program can reach keep
    their address and contents, also when the table grows.  The only error is that of a lack of
    memory: the string is not there, and the allocator has no block for it after what a
    collection could free, or there are [MAX_INT] strings. *)
Theorem internshrstr_correct g str : ok g -> zlen str <= LUAI_MAXSHORTLEN ->
  let keeps g' := forall b ts, heap g !! b = Some ts -> (forall g1, b ∉ unreachable g1) -> exists ts', heap g' !! b = Some ts' /\ core ts' = core ts in
  match internshrstr new_block frealloc uninit unreachable str g with
  | Ret g' a => ok g' /\ keeps g' /\ is_short (heap g') a str /\ not_dead g' a /\
      (forall b, is_short (heap g) b str -> a = b /\ g' = set_heap (revived g a) g)
  | Throw g' e => ok g' /\ keeps g' /\ (forall b, ~ is_short (heap g) b str) /\ e = "not enough memory"%string /\
      (new_block g' (sizelstring (zlen str)) = None \/ strt_nuse g' = MAX_INT)
  | Stuck => False
  end.
Proof.
  intros Hok Hlen keeps. pose proof (intern_wp new_block frealloc uninit unreachable Hnew Huninit g str Hok Hlen) as H. unfold wp in H.
  destruct (internshrstr _ _ _ _ str g) as [g' a|g' msg|] eqn:E; [| |done].
  - destruct H as (Hok' & Hc & Hs & Hd & Hb). split; [done|]. split; [intros b ts Eb Hl; apply (c_keep _ _ _ _ Hc b ts Eb); by right|done].
  - destruct H as (Hok' & Hk & Hno & Hmem). split_and!; [done| |done|by eapply only_intern|done].
    intros b ts Eb Hl. apply (k_keep _ _ _ Hk b ts Eb). by right.
Qed.

(** [luaS_new] returns a string with the bytes of the C string, from the cache or not,
    and the cache stays right, whatever a collection in between frees. *)
Theorem luaS_new_correct g addr str : ok g -> cache_ok g -> c_string str = str ->
  match luaS_new new_block frealloc uninit unreachable addr str g with
  | Ret g' a => ok g' /\ cache_ok g' /\ has_string (heap g') a str
  | Throw g' _ => ok g' /\ cache_ok g'
  | Stuck => False
  end.
Proof. intros Hok Hc Hz. exact (new_wp new_block frealloc uninit unreachable Hnew Huninit g addr str Hok Hc Hz). Qed.
End memory.

(** ** Witnesses *)

(** An allocator: the next address that is free. *)
Definition some_block (g : global_State) (n : Z) : option Z :=
  let p := 64 * (Z.of_nat (size (heap g)) + 1) in match heap g !! p with None => Some p | Some _ => None end.

Lemma some_block_new g n p : some_block g n = Some p -> p <> 0 /\ heap g !! p = None.
Proof. unfold some_block. destruct (heap g !! _) eqn:E; [done|]. intros [= <-]. split; [lia|done]. Qed.

Definition can_resize (g : global_State) (o n : Z) : bool := true.
Definition fill (n : nat) : list Z := replicate n 7.
Definition nothing (g : global_State) : list Z := [].

Lemma fill_length n : length (fill n) = n.
Proof. apply length_replicate. Qed.

Abbreviation sample_reaches := (reaches some_block can_resize fill nothing).
Abbreviation intern := (internshrstr some_block can_resize fill nothing).
Abbreviation new_string := (luaS_new some_block can_resize fill nothing).

Definition is_ret {A} (r : outcome global_State A) : bool := match r with Ret _ _ => true | _ => false end.

(** The state after [lua_newstate]. *)
Lemma sample_open : exists g, sample_reaches g /\ is_ret (intern [97; 98] g) = true /\ is_ret (new_string 5000 [104; 105] g) = true.
Proof.
  assert (H : match f_luaopen some_block can_resize fill nothing (new_global 1) with
    Ret g _ => is_ret (intern [97; 98] g) && is_ret (new_string 5000 [104; 105] g) | _ => false end = true) by (vm_compute; reflexivity).
  destruct (f_luaopen some_block can_resize fill nothing (new_global 1)) as [g []| |] eqn:E; [|discriminate H..].
  exists g. split; [by eapply reaches_open|]. by apply andb_true_iff in H.
Qed.

Lemma sample_strings_ok g : sample_reaches g -> ok g /\ cache_ok g.
Proof. apply reaches_ok; [apply some_block_new|apply fill_length]. Qed.

Lemma internshrstr_correct_witness : exists g g' a, sample_reaches g /\ intern [97; 98] g = Ret g' a /\ is_short (heap g') a [97; 98].
Proof.
  destruct sample_open as (g & Hg & Hr & _). destruct (sample_strings_ok g Hg) as [Hok _].
  pose proof (internshrstr_correct some_block can_resize fill nothing some_block_new fill_length g [97; 98] Hok ltac:(vm_compute; discriminate)) as H.
  cbv zeta in H. destruct (intern [97; 98] g) as [g' a| |] eqn:E; [|discriminate Hr..]. exists g, g', a. split; [exact Hg|]. split; [exact E|apply H].
Defined.

Lemma luaS_new_correct_witness : exists g g' a, sample_reaches g /\ new_string 5000 [104; 105] g = Ret g' a /\ has_string (heap g') a [104; 105].
Proof.
  destruct sample_open as (g & Hg & _ & Hr). destruct (sample_strings_ok g Hg) as [Hok Hc].
  pose proof (luaS_new_correct some_block can_resize fill nothing some_block_new fill_length g 5000 [104; 105] Hok Hc eq_refl) as H.
  destruct (new_string 5000 [104; 105] g) as [g' a| |] eqn:E; [|discriminate Hr..]. exists g, g', a. split; [exact Hg|]. split; [exact E|apply H].
Defined.

(** A state with the string [ab]. *)
Lemma sample_state : exists g a, sample_reaches g /\ is_short (heap g) a [97; 98].
Proof.
  destruct sample_open as (g & Hg & Hr & _). destruct (sample_strings_ok g Hg) as [Hok _].
  pose proof (intern_wp some_block can_resize fill nothing some_block_new fill_length g [97; 98] Hok ltac:(vm_compute; discriminate)) as H. unfold wp in H.
  destruct (intern [97; 98] g) as [g' a| |] eqn:E; [|discriminate Hr..]. destruct H as (_ & _ & H & _). exists g', a. split; [|exact H].
  eapply (reaches_ret _ _ _ _ g (Newlstr [97; 98])); [exact Hg|exact I|]. cbn [run_op].
  rewrite (bind_Ret (luaS_newlstr some_block can_resize fill nothing [97; 98]) _ _ g' a); [reflexivity|exact E].
Qed.

Lemma short_strings_interned_witness : exists g a, sample_reaches g /\ is_short (heap g) a [97; 98] /\
  forall b t, is_short (heap g) b t -> a = b <-> [97; 98] = t.
Proof.
  destruct sample_state as (g & a & Hg & Ha). exists g, a. split; [exact Hg|]. split; [exact Ha|]. intros b t Hb.
  exact (short_strings_interned some_block can_resize fill nothing some_block_new fill_length g a b [97; 98] t Hg Ha Hb).
Defined.

Lemma string_ops_safe_witness : exists g, sample_reaches g /\
  match run_op some_block can_resize fill nothing Fullgc g with Ret g' _ | Throw g' _ => ok g' /\ cache_ok g' | Stuck => False end.
Proof.
  destruct sample_state as (g & a & Hg & _). exists g. split; [exact Hg|].
  exact (string_ops_safe some_block can_resize fill nothing some_block_new fill_length g Fullgc Hg I).
Defined.

(** ** Shrinking in a generational collection *)

(** [finishgencycle] calls [checkSizes] without [gcstopem]: when the allocator cannot make
    the vector smaller, an emergency collection runs in between, and looks for a string it
    frees where it was before. *)
Definition no_shrink (g : global_State) (o n : Z) : bool := o <=? n.

Definition all_strings (g : global_State) : list Z := map fst (map_to_list (heap g)).

Definition two_strings : M unit :=
  _ ← f_luaopen some_block no_shrink fill all_strings;
  _ ← luaS_newlstr some_block no_shrink fill all_strings [97; 98];
  _ ← luaS_newlstr some_block no_shrink fill all_strings [99; 100];
  mret ().

Definition is_stuck {A} (r : outcome global_State A) : bool := match r with Stuck => true | _ => false end.

Example generational_shrink_stuck : exists g, two_strings (new_global 1) = Ret g () /\
  is_stuck (finishgencycle no_shrink fill all_strings g) = true /\
  is_ret (singlestep_swpend no_shrink fill all_strings g) = true.
Proof. eexists. split; [vm_compute; reflexivity|]. split; vm_compute; reflexivity. Qed.
End StringTheorems.
